(* ===== verification/_CoqProject ===== *)
-Q . S2P
Prelude.v
Effects.v
GoStrings.v
HelmSource.v
ImageRef.v
ImageState.v
Owners.v
ManagerState.v
Api.v
Resolve.v
Status.v
Resources.v
Export.v
Reconcile.v
Tick.v
Cleanup.v
Semver.v
CatalogGraph.v
CatalogFilter.v
ReleaseGraph.v
Planner.v
PackageIndex.v
BuildJobs.v
CatalogGate.v
CatalogImage.v
Registry.v
Signatures.v
ReleasePayload.v
ImagePush.v
CatalogFetch.v
Deploy.v
ExportJob.v
Cluster.v
ConsolePlugin.v
Monitoring.v
HelmResolver.v
Worker.v
ResourceApi.v
Target.v
ResourceViews.v
Channels.v
Lifecycle.v
Watches.v
CatalogBuild.v
Commands.v
Annotations.v
