(* ===== verification/Prelude.v ===== *)
(** * Verification of the oc-mirror operator

    The operator mirrors container images, Helm charts, OpenShift releases and
    operator catalogs into a target registry.  An [ImageSet] says what to
    mirror, a [MirrorTarget] says where to and lists its ImageSets.  For each
    target a manager process keeps a working set of destinations, resolves the
    ImageSets against upstream services, dispatches worker pods that copy the
    images and report back over HTTP, and persists its state in ConfigMaps.
    The operator's controller cleans up what is no longer wanted.

    ** Files and the code they model

    - [Prelude]: notations, tactics, hint databases, generic lemmas on lists,
      finite maps and 64-bit integers.
    - [Effects]: the state and error monad of the components that call a
      service, its laws and its specifications.
    - [GoStrings]: the functions of Go's strings and strconv packages in use.
    - [HelmSource]: pkg/mirror/helm_source.go, the reference under which a chart
      is queued and downloaded again.
    - [ImageRef]: pkg/mirror/collector.go (references, blocking, destinations),
      pkg/mirror/chartmirror/pusher.go (chart destinations), the digest helpers
      of the manager and of the target controller.
    - [ImageState]: pkg/mirror/imagestate (imagestate.go, summary.go).  The API
      server is a store of ConfigMaps with a schedule of faults ([Cluster]);
      calls run in the monad [API].
    - [Owners]: the ownership part of manager_resolve.go and owner_meta.go.
    - [ManagerState]: the [MirrorManager] struct of
      pkg/mirror/manager/manager.go and its handlers: worker reports and their
      queue, finished pods, the drift sweep, force-resync, recollect, removed
      ImageSets.  Each handler is a function on the record; [mstep] is the step
      relation of all of them, since they interleave under the manager's mutex
      ([mgr_step] of [Tick] has the ticks besides).
    - [Api]: the API types (api/v1alpha1), annotations, cache tokens and
      signatures.
    - [Resolve]: resolveImageSet and its sections (manager_resolve.go,
      collector.go).  The upstream services are the class [Upstream].
    - [Status]: updateImageSetStatusLocked, with its conflict retries.
    - [Resources], [PackageIndex]: pkg/mirror/resources/resources.go and the
      package listings of resolver.go: the mirror sets, catalog sources,
      signatures and listings the manager publishes (Phase H).
    - [Export]: pkg/mirror/export and the collectors of collector.go: the
      manifest, the build spec and the resources of an export.  [ExportJob]:
      internal/controller/mirrorexport_controller.go,
      pkg/mirror/export/builder/job.go and cmd/export-builder; the controller,
      the user, the Job and its pods interleave in the step relation [xstep].
    - [Reconcile]: the phases of the manager's reconcile: loading, resolving,
      the sweep over the working set (Phase D), dispatching (Phase E), flushing
      (Phase F).  [reconcile] composes them, with the steps of the handlers
      wherever it has released the lock; [Tick] is about whole ticks and about
      managers, whose handlers and ticks interleave in [mgr_step].
    - [Cleanup]: reconcileCleanup of
      internal/controller/mirrortarget_controller.go and the cleanup Job
      (pkg/mirror/cleanup/cleanup.go), in the monad [CTL] over ConfigMaps, Jobs
      and the target's status.
    - [Semver], [CatalogGraph], [CatalogFilter]: the filtering of operator
      catalogs, pkg/mirror/catalog/resolver.go.  Semantic versions are a class
      with the laws of a total order.
    - [ReleaseGraph]: the choice of release nodes and the shortest upgrade
      path, pkg/mirror/release/release.go.
    - [Planner]: pkg/mirror/planner.go.
    - [BuildJobs], [CatalogGate]: pkg/mirror/catalog/builder/job.go,
      cmd/catalog-builder and internal/controller/imageset_controller.go: when
      the image of a filtered catalog is built, and what the Job is given.
    - [CatalogImage]: the layers of a catalog image, pkg/mirror/catalog/resolver.go:
      reading the catalog out of them and replacing it.
    - [Registry]: pkg/mirror/client.  The registries and regclient are the class
      [RegLib], what they promise is [RegLaws]; [mem_lib] is an instance.
    - [Signatures]: pkg/release (OpenPGP) and pkg/mirror/cosign, with the checks
      the manager runs.  [ReleasePayload]: fetching release graphs and reading
      payloads, pkg/mirror/release/release.go.
    - [ImagePush]: the images the operator builds, BuildFilteredCatalogImage of
      pkg/mirror/catalog/resolver.go and pkg/mirror/graph/builder.go.
    - [CatalogFetch]: the digests, layers and blob lists that resolver.go and
      planner.go read from registries; [catalog_upstream] is the upstream of
      [Resolve] with catalogs read this way.
    - [Worker]: pkg/mirror/worker, the pods that copy batches of images, and the
      part of manager.go that starts them.  A pod names the Secret of its token
      and the kubelet resolves it ([kubelet_env]).  A worker talks to the model of
      the manager over a connection that loses requests and answers.
    - [HelmResolver]: pkg/mirror/helm/resolver.go, finding the images of a chart
      and downloading it, in the manager and in the worker.
    - [ResourceApi]: the editing endpoints of pkg/resourceapi/server.go.
      [ResourceViews]: its routes, listings, documents and progress, and the
      ConfigMaps of packages they are read from.  [Channels]: its list of
      release channels.
    - [Cluster]: an API server of objects with finalizers, with its laws and an
      instance in memory.  [ConsolePlugin], [Monitoring]: the controllers of
      internal/controller that run on it, and the metrics of pkg/metrics.
    - [Deploy], [Target]: internal/controller/mirrortarget_controller.go, the
      objects of a MirrorTarget and its reconcile: deletion, cleanup, objects,
      exposure, totals and conditions.  The API server for objects is the class
      [Kube], what it promises is [KubeLaws].
    - [Lifecycle]: Run of manager.go: the token of the workers, the loop and the
      probes.  Managers, the kubelet, workers and the clock interleave in the
      step relations [lstep] and [tstep].
    - [Commands]: the programs of cmd/, pkg/mirror/cleanup/main.go and
      pkg/mirror/worker/main.go: their arguments, their environment and the
      process they become, with the parser of package flag; the pod of a cleanup.
    - [Watches]: SetupWithManager of the controllers, which events lead to which
      requests.
    - [CatalogBuild]: the pod of a catalog build, cmd/catalog-builder and the
      attempts of its Job.
    - [Annotations]: patchImageSetAnnotations and clearForceResyncAnnotation, the
      writes of the manager to the annotations it shares with users.

    ** How the code is read

    A Go map is a [gmap] with string keys.  A loop over a map whose body only
    touches its own key is a fold; where the order can matter, the order is an
    argument [ks] and [range_order] says that it enumerates the keys once.
    Errors are values of a sum, panics are [None] or a constructor of their
    own.  Times are nanoseconds, durations and counters are integers, with the
    64-bit wrap-around written out where a computation can overflow.  Hashes,
    registries, the Cincinnati service, catalogs and signature checks are
    parameters.  Calls of the API server fail as a schedule says, and a call that
    fails has had no effect: a write that takes effect and whose answer is lost is
    not among the faults (the reports of workers, whose answers are lost, are
    modelled in [Worker]).

    ** What is shown

    - Persistence: a flushed state is the state that is loaded after a restart,
      where no old format is left to migrate over it; saving is all or nothing;
      the migration of the old format loses no
      reference.
    - Ownership: after a resolve was integrated, an ImageSet owns exactly what
      it resolved, other owners are untouched and see their own metadata.
    - The manager: handlers and ticks keep the ownership table consistent, and
      the handlers the fast-path flags; reports are idempotent; an acknowledged success is never
      undone by a dying pod; drift results are only applied to the entry they
      were computed for; permanent failures stay marked.
    - Scheduling: Phase D hands over exactly the pending work, retries exactly
      what is due and drops exactly what nobody owns; dispatching respects the
      concurrency limit, never mirrors a destination twice at a time and wastes
      no capacity; a tick that can read its objects runs to its end with the
      ownership table intact and starts batches of owned destinations only.
    - Resolving: an outage upstream drops nothing, unsigned releases and blocked
      images are never queued.
    - Catalogs: the filter computes exactly the needed packages, is
      dependency-closed and well-formed, reconnects upgrade graphs and leaves
      one head per channel where it promises to.
    - Releases: the upgrade path is a shortest one and is found when it exists;
      every image of a release is fixed by a digest that an embedded key signed,
      whatever streams break on the way.
    - Registries: a cached client is the one that was asked for; a copy delivers
      the image its source points at and moves nothing but its own tags, and the
      tags that list referrers where a registry has no API for them; a deletion
      removes what it names; an image is published whole or not at all; a catalog passes its check only with the configured key.
    - Cleanup: no snapshot handed to a Job names an image that is still needed,
      whatever calls fail; a removed ImageSet's exclusive images and only those
      are handed over; the Job deletes exactly the mirrored ones.
    - Catalog builds: a build starts only when every image of the catalog is
      mirrored, with the resolved digest of the catalog, it does start then, and
      with unchanged inputs finished Jobs are replaced at most twice; the built image serves exactly the filtered catalog, and
      the builder reads back the inputs it was given; a Job that succeeds, after
      however many failed attempts, has published the image it was created for,
      built from the source catalog it names.
      A catalog is resolved from the digest that was probed.
    - Resources: the mirror sets list exactly the mirrored repositories, and the
      published ConfigMap has exactly the documents of the current content.
    - Workers: after a batch every destination was reported on once, as a success
      only after a copy that was read back, and is settled in the manager as it
      was reported, within the deadline of the pod, however many messages are
      lost; a restarted manager finds the work in flight.
    - Targets: a reconcile that succeeds leaves every object as it is meant to
      be and tells the truth about the exposure, which is of the configured
      kind; workers reach the manager over the Service and the policies created for them, and
      nobody else does; an unfinished cleanup is never forgotten, a finalizer
      waits for the pods, and the totals are the same from either source.
    - Exports: an export asks the same question as an ImageSet, its artifacts
      fit together, its Job reads back the spec it was created for, and what is
      published is what the recorded spec renders to, while the artifacts are left
      to the controller and its Job.
    - The API: writes run with the credentials of the caller, an edit replaces
      the current object or nothing, and sending back what was read changes
      nothing; the packages the manager saves are those the details link to and
      serve, every link leads somewhere, and failures and progress agree; the
      channel list is never empty.
    - Helm: the images of a chart are exactly those its manifests name, and a
      worker downloads the chart that was resolved.
    - Console and monitoring: the plugin that is served is the one of the running
      release, and is gone when there is none; every dashboard and alert reads a
      metric that is exported.
    - Processes: every pod becomes the process it is meant to be, with the batch,
      the snapshot, the catalog or the content and the credentials it was given;
      the controller does not start half configured.  Workers can authenticate to
      every later manager while nobody else touches the Secret of their token; reports
      wake the loop, which is never taken for stalled while it waits.
    - Events: what a controller watches requests what depends on it, and the
      manager's writes to the annotations of an ImageSet keep what others write,
      except for a force-resync that is made again while one is honoured.
    - Deviations: theorems under the heading "Behaviour that deviates from the
      intent", and those of [Cleanup] and [CatalogFilter] that exhibit a lost
      or a wrong result, describe runs in which the code does not do what its
      comments say.

    ** Fuel

    [dispatch] takes one unit per batch and each batch takes at least one item
    off the list, so the length of the list is enough.  [bfs_run] takes one per
    queued package and is started with the number of packages that can be
    queued; [search] takes one per node of the graph; [repair_walk] one per
    entry of the channel plus one, each step visiting a new entry; [plan] one
    per image.  The theorems about them are about the result with this fuel, so
    that running out is excluded, not assumed away.

    ** What is not modelled

    The cryptography of signatures and tokens, the rendering of Helm templates, the
    parsers and printers of gzip, tar, YAML and JSON (their documents are symbolic),
    the semantics of libraries beyond the laws of the classes that stand for them.
    The HTTP servers and their shutdown, certificates, logging and tracing of
    times, the static files of the console plugin.  Of pods: security contexts,
    affinity, node selectors and resource requests.  Warning events.  The generated
    copies of the API types (zz_generated.deepcopy.go) and the registration of
    schemes, which have no behaviour of their own: values are copied where the
    code copies them and shared where it shares them.

    ** Plan

    The components are modelled.  What is left above is either code of other
    projects, of which the code under src/ sees no more than the laws stated here,
    or has no state and no result a property could be about. *)
From stdpp Require Export gmap strings list fin_maps sorting.
From Stdlib Require Export ZArith Ascii.

#[global] Set Default Goal Selector "!".
#[export] Set Warnings "-clear-no-such-hyp".

(** * Notations and automation shared by all components *)

Declare Scope oc_scope.
Delimit Scope oc_scope with oc.

Create HintDb oc discriminated.
Create Rewrite HintDb oc_str.

(** Case analysis on the conditions a Go function tests, with the impossible
    branches closed. *)
Ltac split_ifs :=
  repeat match goal with
  | |- context [match ?x with _ => _ end] =>
      lazymatch x with
      | context [match _ with _ => _ end] => fail
      | _ => destruct x eqn:?
      end
  end; simplify_eq/=.

Ltac split_ifs_in H :=
  repeat match type of H with
  | context [match ?x with _ => _ end] =>
      lazymatch x with
      | context [match _ with _ => _ end] => fail
      | _ => destruct x eqn:?
      end
  end; simplify_eq/=.

(** Reading a boolean test of the code as the proposition it decides. *)
Ltac boolify :=
  repeat match goal with
  | H : bool_decide _ = true |- _ => apply bool_decide_eq_true_1 in H
  | H : bool_decide _ = false |- _ => apply bool_decide_eq_false_1 in H
  | H : _ && _ = true |- _ => apply andb_true_iff in H as [? ?]
  | H : _ || _ = false |- _ => apply orb_false_iff in H as [? ?]
  | H : negb _ = true |- _ => apply negb_true_iff in H
  | H : negb _ = false |- _ => apply negb_false_iff in H
  | H : (_ <? _)%Z = true |- _ => apply Z.ltb_lt in H
  | H : (_ <? _)%Z = false |- _ => apply Z.ltb_ge in H
  | H : (_ <=? _)%Z = true |- _ => apply Z.leb_le in H
  | H : (_ <=? _)%Z = false |- _ => apply Z.leb_gt in H
  end; simplify_eq.

(** A closed decidable fact, by computation. *)
Ltac by_vm := apply (bool_decide_unpack _); vm_compute; exact I.

(** * Machine integers *)

(** Go's [int] and [int64] on the 64-bit platforms the operator runs on:
    two's-complement wrap-around. *)
Definition max_int64 : Z := 2 ^ 63 - 1.
Definition min_int64 : Z := - 2 ^ 63.
Definition wrap64 (z : Z) : Z := ((z + 2 ^ 63) mod 2 ^ 64 - 2 ^ 63)%Z.

Lemma wrap64_id z : (min_int64 ≤ z ≤ max_int64)%Z → wrap64 z = z.
Proof.
  unfold wrap64, min_int64, max_int64. intros ?.
  rewrite Z.mod_small; lia.
Qed.

Lemma wrap64_range z : (min_int64 ≤ wrap64 z ≤ max_int64)%Z.
Proof.
  unfold wrap64, min_int64, max_int64.
  pose proof (Z.mod_pos_bound (z + 2 ^ 63) (2 ^ 64)). lia.
Qed.

(** * Ranging over a Go map

    [for k, v := range m] visits every key once, in an order the language
    leaves open.  A loop whose result depends on that order takes the order as
    an argument [ks]; [range_order m ks] says that [ks] is one of the orders
    the language allows, and the theorems hold for each of them. *)
Section range.
Context {V : Type}.
Implicit Types (m : gmap string V) (ks : list string).

Definition range_order m ks : Prop :=
  NoDup ks ∧ ∀ k, k ∈ ks ↔ is_Some (m !! k).

(** The order in which [map_to_list] enumerates [m]: an executable choice. *)
Definition some_order m : list string := (map_to_list m).*1.

Lemma some_order_ok m : range_order m (some_order m).
Proof.
  split; [apply NoDup_fst_map_to_list|].
  intros k. unfold some_order. rewrite list_elem_of_fmap. split.
  - intros ([k' v] & -> & H%elem_of_map_to_list). eauto.
  - intros [v Hv]. exists (k, v). by rewrite elem_of_map_to_list.
Qed.

Lemma range_order_length m ks : range_order m ks → length ks = size m.
Proof.
  intros [Hnd Hin]. rewrite <- length_map_to_list, <- (length_fmap fst).
  apply Permutation_length, NoDup_Permutation; [done|apply NoDup_fst_map_to_list|].
  intros k. rewrite Hin. symmetry. apply some_order_ok.
Qed.

(** A loop whose body for key [k] only touches what belongs to [k] gives the
    same result in every order; it is written as a fold over the map, and
    [view j s], the part of the loop state [s] that belongs to key [j], is
    changed once, by the body for [j]. *)
Lemma range_pointwise {S X : Type} (view : string → S → X) (f : string → V → S → S)
    (g : string → V → X → X) s m j :
  (∀ k v s, view k (f k v s) = g k v (view k s)) →
  (∀ k v s j, j ≠ k → view j (f k v s) = view j s) →
  view j (map_fold f s m) = match m !! j with Some v => g j v (view j s) | None => view j s end.
Proof.
  intros Hsame Hother.
  apply (map_fold_weak_ind (λ r m,
    view j r = match m !! j with Some v => g j v (view j s) | None => view j s end)).
  - by rewrite lookup_empty.
  - intros k v m' r Hk IH. destruct (decide (j = k)) as [->|Hne].
    + rewrite Hsame, IH, Hk, lookup_insert_eq. done.
    + by rewrite Hother, lookup_insert_ne by done.
Qed.

(** The same for a loop over an explicit order. *)
Lemma foldl_pointwise {S X : Type} (view : string → S → X) (f : S → string → S) (g : string → X → X) s ks j :
  NoDup ks →
  (∀ k s, view k (f s k) = g k (view k s)) →
  (∀ k s j, j ≠ k → view j (f s k) = view j s) →
  view j (foldl f s ks) = if decide (j ∈ ks) then g j (view j s) else view j s.
Proof.
  intros Hnd Hsame Hother. revert s. induction Hnd as [|k ks Hk Hnd IH]; intros s; cbn.
  - by rewrite decide_False by apply not_elem_of_nil.
  - rewrite IH. destruct (decide (j = k)) as [->|Hne].
    + by rewrite decide_False, decide_True, Hsame by set_solver.
    + rewrite Hother by done. destruct (decide (j ∈ ks)).
      * by rewrite decide_True by set_solver.
      * by rewrite decide_False by set_solver.
Qed.

(** An invariant of the loop. *)
Lemma range_inv {S : Type} (P : S → Prop) (f : string → V → S → S) s m :
  P s → (∀ k v s, m !! k = Some v → P s → P (f k v s)) → P (map_fold f s m).
Proof.
  intros H0. revert m.
  apply (map_fold_weak_ind (λ r m, (∀ k v s, m !! k = Some v → P s → P (f k v s)) → P r)); [done|].
  intros k v m r Hk IH Hf. apply Hf; [by rewrite lookup_insert_eq|].
  apply IH. intros k' v' s' Hk'. apply Hf. by rewrite lookup_insert_ne by congruence.
Qed.

End range.

#[export] Hint Resolve some_order_ok : oc.

(** * Lists *)

Section lists.
Context {A : Type}.
Implicit Types l : list A.

Lemma elem_of_filter_bool (f : A → bool) l x :
  x ∈ List.filter f l ↔ f x = true ∧ x ∈ l.
Proof. rewrite !list_elem_of_In, filter_In. naive_solver. Qed.

Lemma filter_bool_sublist (f : A → bool) l : List.filter f l `sublist_of` l.
Proof. induction l as [|x l IH]; simpl; [done|]. destruct (f x); by constructor. Qed.

Lemma filter_bool_length_eq (f : A → bool) l :
  length (List.filter f l) = length l → List.filter f l = l ∧ Forall (λ x, f x = true) l.
Proof.
  induction l as [|x l IH]; cbn; [by split|].
  pose proof (sublist_length _ _ (filter_bool_sublist f l)).
  destruct (f x) eqn:E; cbn; [|lia]. intros [= Hl]. destruct (IH Hl) as [-> ?]. by split; [|constructor].
Qed.

Lemma existsb_elem (f : A → bool) l :
  existsb f l = true ↔ ∃ x, x ∈ l ∧ f x = true.
Proof. rewrite existsb_exists. by setoid_rewrite list_elem_of_In. Qed.

Lemma existsb_not_elem (f : A → bool) l :
  existsb f l = false ↔ ∀ x, x ∈ l → f x = false.
Proof.
  induction l as [|y l IH]; simpl.
  - split; [by intros _ x ?%elem_of_nil|done].
  - rewrite orb_false_iff, IH. set_solver.
Qed.

(** An invariant of a loop over a list, with the processed prefix. *)
Lemma foldl_inv {B} (P : list A → B → Prop) (f : B → A → B) b l :
  P [] b →
  (∀ pre x acc, P pre acc → x ∈ l → pre ++ [x] `prefix_of` l → P (pre ++ [x]) (f acc x)) →
  P l (foldl f b l).
Proof.
  intros H0 Hstep.
  enough (∀ suf pre acc, pre ++ suf = l → P pre acc → P l (foldl f acc suf)) as H
    by by apply (H l [] b).
  induction suf as [|x suf IH]; intros pre acc Hl HP; simpl.
  - by rewrite app_nil_r in Hl; subst.
  - apply (IH (pre ++ [x])); [by rewrite <- app_assoc|].
    apply Hstep; [done|set_solver|].
    exists suf. by rewrite <- app_assoc.
Qed.

Lemma foldl_inv_simple {B} (P : B → Prop) (f : B → A → B) b l :
  P b → (∀ x acc, x ∈ l → P acc → P (f acc x)) → P (foldl f b l).
Proof. intros H0 Hs. apply (foldl_inv (λ _, P)); auto. Qed.

(** Sortedness only looks at the elements. *)
Lemma StronglySorted_impl_in (R R' : relation A) l :
  (∀ x y, x ∈ l → y ∈ l → R x y → R' x y) → StronglySorted R l → StronglySorted R' l.
Proof.
  intros Himpl Hs. induction Hs as [|x l Hs IH Hx]; constructor.
  - apply IH. intros y z Hy Hz. apply Himpl; by right.
  - rewrite Forall_forall in *. intros y Hy. apply Himpl; [left|by right|auto].
Qed.

Lemma elem_of_map {B} (f : A → B) l y : y ∈ map f l ↔ ∃ x, x ∈ l ∧ y = f x.
Proof. change (map f l) with (f <$> l). rewrite list_elem_of_fmap. naive_solver. Qed.

Lemma elem_of_concat_map {B} (f : A → list B) l y : y ∈ concat (map f l) ↔ ∃ x, x ∈ l ∧ y ∈ f x.
Proof.
  rewrite list_elem_of_In, in_concat. setoid_rewrite <- list_elem_of_In. setoid_rewrite elem_of_map. naive_solver.
Qed.
End lists.

#[export] Hint Resolve elem_of_filter_bool filter_bool_sublist : oc.

(** * Indexes

    [for _, x := range l { m[key(x)] = x }]: the last element of a key wins. *)
Section index.
Context {A : Type} (key : A → string).

Definition index_by (l : list A) : gmap string A := foldl (λ m x, <[key x := x]> m) ∅ l.

Lemma index_by_snoc l x : index_by (l ++ [x]) = <[key x := x]> (index_by l).
Proof. unfold index_by. by rewrite foldl_app. Qed.

Lemma index_by_Some l k x : index_by l !! k = Some x → x ∈ l ∧ key x = k.
Proof.
  induction l as [|y l IH] using rev_ind; [by unfold index_by; cbn; rewrite lookup_empty|].
  rewrite index_by_snoc. destruct (decide (key y = k)) as [<-|Hne].
  - rewrite lookup_insert_eq. intros [= ->]. set_solver.
  - rewrite lookup_insert_ne by done. intros [? ?]%IH. set_solver.
Qed.

Lemma index_by_is_Some l k : is_Some (index_by l !! k) ↔ k ∈ map key l.
Proof.
  induction l as [|y l IH] using rev_ind.
  { unfold index_by. cbn. rewrite lookup_empty. split; [by intros []|by intros ?%elem_of_nil]. }
  rewrite index_by_snoc, map_app, elem_of_app. cbn. rewrite list_elem_of_singleton.
  destruct (decide (key y = k)) as [<-|Hne]; [rewrite lookup_insert_eq; naive_solver|].
  rewrite lookup_insert_ne, IH by done. naive_solver.
Qed.

Lemma index_by_lookup l k x :
  NoDup (map key l) → index_by l !! k = Some x ↔ x ∈ l ∧ key x = k.
Proof.
  intros Hnd. split; [apply index_by_Some|]. intros [Hx Hk].
  destruct (index_by l !! k) as [y|] eqn:E.
  - apply index_by_Some in E as [Hy Hk']. f_equal.
    apply list_elem_of_lookup in Hx as [i Hi]. apply list_elem_of_lookup in Hy as [j Hj].
    assert (i = j) as ->; [|congruence].
    eapply NoDup_lookup; [exact Hnd|..]; change (map key l) with (key <$> l); rewrite list_lookup_fmap.
    + by rewrite Hi; cbn; rewrite Hk.
    + by rewrite Hj; cbn; rewrite Hk'.
  - exfalso. apply eq_None_not_Some in E. apply E, index_by_is_Some. rewrite <- Hk. by apply list_elem_of_fmap_2.
Qed.

Lemma index_by_size l : size (index_by l) ≤ length l.
Proof.
  induction l as [|y l IH] using rev_ind; [unfold index_by; cbn; by rewrite map_size_empty|].
  rewrite index_by_snoc, length_app, map_size_insert. cbn. destruct (index_by l !! key y); cbn; lia.
Qed.
End index.
