(* ===== verification/Effects.v ===== *)
(** * Stateful code that can fail

    Go functions that work on some shared state and return an error are
    functions [S → (E + A) * S]: the state is kept when they fail, as the
    effects that already happened are.  The file has the monad, the calls that
    draw from a schedule of faults, and triples to reason about sequences of
    calls of which any may fail. *)
From S2P Require Import Prelude.

Definition M (S E A : Type) : Type := S → (E + A) * S.

#[export] Instance M_ret S E : MRet (M S E) := λ A a s, (inr a, s).
(** [x, err := m(); if err != nil { return err }] *)
#[export] Instance M_bind S E : MBind (M S E) := λ A B k m s,
  match m s with
  | (inl e, s') => (inl e, s')
  | (inr a, s') => k a s'
  end.

Section ops.
Context {S E : Type}.

Definition fail {A} (e : E) : M S E A := λ s, (inl e, s).

(** [v, err := call()] with [err] inspected by the caller. *)
Definition attempt {A} (m : M S E A) : M S E (E + A) := λ s, let '(r, s') := m s in (inr r, s').

Definition getS {A} (f : S → A) : M S E A := λ s, (inr (f s), s).
Definition modS (f : S → S) : M S E unit := λ s, (inr tt, f s).

(** An error that is only logged. *)
Definition ignore {A} (m : M S E A) : M S E unit := _ ← attempt m; mret tt.

Lemma attempt_bind {A B} (m : M S E A) (k : E + A → M S E B) s :
  (attempt m ≫= k) s = k (fst (m s)) (snd (m s)).
Proof. unfold mbind, M_bind, attempt. by destruct (m s). Qed.

Lemma bind_inr {A B} (m : M S E A) (k : A → M S E B) s s' a :
  m s = (inr a, s') → (m ≫= k) s = k a s'.
Proof. intros H. unfold mbind, M_bind. by rewrite H. Qed.

Lemma bind_inl {A B} (m : M S E A) (k : A → M S E B) s s' e :
  m s = (inl e, s') → (m ≫= k) s = (inl e, s').
Proof. intros H. unfold mbind, M_bind. by rewrite H. Qed.

Lemma bind_eq {A B} (m : M S E A) (k : A → M S E B) s :
  (m ≫= k) s = match fst (m s) with inl e => (inl e, snd (m s)) | inr a => k a (snd (m s)) end.
Proof. unfold mbind, M_bind. by destruct (m s) as [[]]. Qed.

Lemma getS_bind {A B} (f : S → A) (k : A → M S E B) s : (getS f ≫= k) s = k (f s) s.
Proof. done. Qed.

Lemma ignore_eq {A} (m : M S E A) s : ignore m s = (inr tt, snd (m s)).
Proof. unfold ignore. by rewrite attempt_bind. Qed.
End ops.

(** ** Triples *)

Section triples.
Context {S E X : Type} (obs : S → X).

(** Operations that do not change what [obs] sees. *)
Definition quiet {A} (m : M S E A) : Prop := ∀ s, obs (snd (m s)) = obs s.

Lemma quiet_ret {A} (a : A) : quiet (mret a).
Proof. by intros s. Qed.

Lemma quiet_fail {A} e : quiet (A := A) (fail e).
Proof. by intros s. Qed.

Lemma quiet_getS {A} (f : S → A) : quiet (getS f).
Proof. by intros s. Qed.

Lemma quiet_modS f : (∀ s, obs (f s) = obs s) → quiet (modS f).
Proof. intros H s. apply H. Qed.

Lemma quiet_bind {A B} (m : M S E A) (k : A → M S E B) : quiet m → (∀ a, quiet (k a)) → quiet (m ≫= k).
Proof.
  intros Hm Hk s. rewrite bind_eq. specialize (Hm s). destruct (fst (m s)) as [e|a]; [done|]. by rewrite Hk.
Qed.

Lemma quiet_attempt {A} (m : M S E A) : quiet m → quiet (attempt m).
Proof. intros Hm s. specialize (Hm s). unfold attempt. by destruct (m s). Qed.

Context (R : relation X).

(** From a state satisfying [P], [m] moves what is observed along [R] whatever
    calls fail, and [Q] holds of the result when there is one. *)
Definition triple {A} (P : X → Prop) (m : M S E A) (Q : A → X → Prop) : Prop :=
  ∀ s, P (obs s) → R (obs s) (obs (snd (m s))) ∧ ∀ a, fst (m s) = inr a → Q a (obs (snd (m s))).

Context `{!Reflexive R, !Transitive R}.

Lemma triple_ret {A} (a : A) (P : X → Prop) (Q : A → X → Prop) :
  (∀ x, P x → Q a x) → triple P (mret a) Q.
Proof. intros H s HP. split; [by cbn|]. cbn. intros a' [= <-]. by apply H. Qed.

Lemma triple_bind {A B} P (m : M S E A) (k : A → M S E B) Q Q' :
  triple P m Q → (∀ a, triple (Q a) (k a) Q') → triple P (m ≫= k) Q'.
Proof.
  intros Hm Hk s HP. destruct (Hm s HP) as [H1 H2]. rewrite bind_eq.
  destruct (fst (m s)) as [e|a]; cbn; [done|].
  destruct (Hk a (snd (m s)) (H2 a eq_refl)) as [H3 H4]. split; [by etransitivity|done].
Qed.

Lemma triple_weaken {A} (P P' : X → Prop) (m : M S E A) (Q Q' : A → X → Prop) :
  triple P m Q → (∀ x, P' x → P x) → (∀ a x, Q a x → Q' a x) → triple P' m Q'.
Proof. intros H HP HQ s Hs. destruct (H s (HP _ Hs)) as [H1 H2]. split; [done|]. intros a Ha. by apply HQ, H2. Qed.

(** The caller of [attempt] sees errors too. *)
Lemma triple_attempt {A} P (m : M S E A) (Q : E + A → X → Prop) :
  (∀ s, P (obs s) → R (obs s) (obs (snd (m s))) ∧ Q (fst (m s)) (obs (snd (m s)))) →
  triple P (attempt m) Q.
Proof.
  intros H s HP. destruct (H s HP) as [H1 H2]. unfold attempt. destruct (m s) as [r s']. cbn in *.
  split; [done|]. by intros a [= <-].
Qed.

Lemma triple_fail {A} e P (Q : A → X → Prop) : triple P (fail e) Q.
Proof. intros s _. split; [by cbn|done]. Qed.

Lemma triple_quiet {A} P (m : M S E A) : quiet m → triple P m (λ _, P).
Proof. intros H s HP. split; [by rewrite H|intros a _; by rewrite H]. Qed.

Lemma triple_quiet_attempt {A} P (m : M S E A) : quiet m → triple P (attempt m) (λ _, P).
Proof. intros H. apply triple_attempt. intros s HP. by rewrite H. Qed.

(** The write-like operations: a step of [R] from the state they start in. *)
Lemma triple_write {A} (P : X → Prop) (m : M S E A) :
  (∀ s, P (obs s) → R (obs s) (obs (snd (m s)))) → triple P m (λ _ _, True).
Proof. intros H s HP. split; [by apply H|done]. Qed.
End triples.

(** ** Outcomes *)

Section outcomes.
Context {S E X : Type} (obs : S → X).

(** From a state satisfying [P], [Q] relates the outcome, an error or a value,
    to the state it leaves. *)
Definition leads {A} (P : X → Prop) (m : M S E A) (Q : E + A → X → Prop) : Prop :=
  ∀ s, P (obs s) → Q (fst (m s)) (obs (snd (m s))).

(** An outcome that says nothing about errors but [P]. *)
Definition or_error {A} (P : X → Prop) (Q : A → X → Prop) (r : E + A) (x : X) : Prop :=
  match r with inl _ => P x | inr a => Q a x end.

Lemma leads_bind {A B} P (m : M S E A) (k : A → M S E B) Q R :
  leads P m (λ r x, match r with inl e => R (inl e) x | inr a => Q a x end) → (∀ a, leads (Q a) (k a) R) → leads P (m ≫= k) R.
Proof.
  intros Hm Hk s HP. specialize (Hm s HP). rewrite bind_eq. destruct (fst (m s)) as [e|a]; [done|]. by apply Hk.
Qed.

Lemma leads_ret {A} (a : A) (P : X → Prop) (Q : E + A → X → Prop) : (∀ x, P x → Q (inr a) x) → leads P (mret a) Q.
Proof. intros HPQ s HP. by apply HPQ. Qed.

Lemma leads_fail {A} e (P : X → Prop) (Q : E + A → X → Prop) : (∀ x, P x → Q (inl e) x) → leads P (fail e) Q.
Proof. intros HPQ s HP. by apply HPQ. Qed.

Lemma leads_attempt {A} P (m : M S E A) (Q : (E + A) → X → Prop) (R : E + (E + A) → X → Prop) :
  leads P m Q → (∀ r x, Q r x → R (inr r) x) → leads P (attempt m) R.
Proof. intros Hm HQ s HP. specialize (Hm s HP). unfold attempt. destruct (m s) as [r s']. by apply HQ. Qed.

Lemma leads_weaken {A} (P P' : X → Prop) (m : M S E A) (Q Q' : E + A → X → Prop) :
  leads P m Q → (∀ x, P' x → P x) → (∀ r x, Q r x → Q' r x) → leads P' m Q'.
Proof. intros Hm HP HQ s Hs. by apply HQ, Hm, HP. Qed.

Lemma leads_pure {A} (φ : Prop) (P : X → Prop) (m : M S E A) Q : (∀ x, P x → φ) → (φ → leads P m Q) → leads P m Q.
Proof. intros Hφ Hm s HP. apply Hm; [by eapply Hφ|done]. Qed.

(** A postcondition that does not depend on the outcome. *)
Lemma leads_then_ret {A B} P (m : M S E A) (b : B) (I : X → Prop) : leads P m (λ _, I) → leads P (_ ← m; mret b) (λ _, I).
Proof. intros Hm. apply (leads_bind _ _ _ (λ _, I)); [|intros _; by apply leads_ret]. intros s HP. specialize (Hm s HP). by destruct (fst (m s)). Qed.

Lemma leads_quiet {A} P (m : M S E A) : quiet obs m → leads P m (λ _, P).
Proof. intros Hq s HP. by rewrite Hq. Qed.
End outcomes.

(** ** Invariants *)

Section invariants.
Context {S E X : Type} (obs : S → X) (I : X → Prop).

(** [m] keeps [I] however it ends. *)
Definition keeps {A} (m : M S E A) : Prop := ∀ s, I (obs s) → I (obs (snd (m s))).

Lemma keeps_quiet {A} (m : M S E A) : quiet obs m → keeps m.
Proof. intros H s HI. by rewrite H. Qed.

Lemma keeps_bind {A B} (m : M S E A) (k : A → M S E B) : keeps m → (∀ a, keeps (k a)) → keeps (m ≫= k).
Proof.
  intros Hm Hk s HI. rewrite bind_eq. specialize (Hm s HI). destruct (fst (m s)) as [e|a]; [done|]. by apply Hk.
Qed.

Lemma keeps_attempt {A} (m : M S E A) : keeps m → keeps (attempt m).
Proof. intros Hm s HI. specialize (Hm s HI). unfold attempt. by destruct (m s). Qed.

Lemma keeps_ignore {A} (m : M S E A) : keeps m → keeps (ignore m).
Proof. intros Hm s HI. rewrite ignore_eq. by apply Hm. Qed.
End invariants.

#[export] Hint Resolve quiet_ret quiet_fail quiet_getS quiet_bind quiet_attempt keeps_quiet keeps_bind keeps_attempt keeps_ignore : oc.
