(* ===== verification/GoStrings.v ===== *)
(** * Go's [strings] and [strconv] functions

    The functions of Go's standard library that the operator uses on image
    references, annotation values and ConfigMap data, on byte strings.  A
    search that returns an index in Go, which the caller then slices with,
    returns the two sides of the separator here: [Index] is [cut] (first
    occurrence) and [LastIndex] is [cut_last]; [-1] is [None]. *)
From S2P Require Import Prelude.
From Stdlib Require Import DecimalString DecimalZ.

(** ** Append *)

Lemma app_nil_l_s (s : string) : "" +:+ s = s.
Proof. done. Qed.
Lemma app_cons_s c (s t : string) : String c s +:+ t = String c (s +:+ t).
Proof. done. Qed.
Lemma app_nil_r_s (s : string) : s +:+ "" = s.
Proof. induction s as [|c s IH]; [done|]. by rewrite app_cons_s, IH. Qed.
Lemma app_assoc_s (s t u : string) : s +:+ (t +:+ u) = (s +:+ t) +:+ u.
Proof. induction s as [|c s IH]; [done|]. by rewrite !app_cons_s, IH. Qed.
Lemma app_inv_head_s (s t u : string) : s +:+ t = s +:+ u → t = u.
Proof. apply (inj (String.app s)). Qed.
Lemma length_app_s (s t : string) : String.length (s +:+ t) = String.length s + String.length t.
Proof. induction s as [|c s IH]; [done|]. rewrite app_cons_s. cbn. by rewrite IH. Qed.
Lemma app_inv_tail_s (u s t : string) : s +:+ u = t +:+ u → s = t.
Proof.
  intros E. assert (String.length s = String.length t) as Hl.
  { apply (f_equal String.length) in E. rewrite !length_app_s in E. lia. }
  revert t E Hl. induction s as [|c s IH]; intros [|c' t] E Hl; try discriminate; [done|].
  rewrite !app_cons_s in E. injection E as -> E. injection Hl as Hl. f_equal. by apply IH.
Qed.

#[export] Hint Rewrite app_cons_s app_nil_l_s app_nil_r_s : oc_str.

(** ** Characters of a string *)

Fixpoint has_char (c : ascii) (s : string) : bool :=
  match s with
  | "" => false
  | String d s => bool_decide (c = d) || has_char c s
  end.

Lemma has_char_app c s t : has_char c (s +:+ t) = has_char c s || has_char c t.
Proof. induction s as [|d s IH]; [done|]. rewrite app_cons_s. simpl. by rewrite IH, orb_assoc. Qed.

#[export] Hint Rewrite has_char_app : oc_str.

(** ** HasPrefix, TrimPrefix, HasSuffix, TrimSuffix *)

(** [strip_prefix p s] is [strings.TrimPrefix] together with the result of
    [strings.HasPrefix]. *)
Fixpoint strip_prefix (p s : string) : option string :=
  match p, s with
  | "", _ => Some s
  | String c p, String d s => if bool_decide (c = d) then strip_prefix p s else None
  | String _ _, "" => None
  end.

Definition HasPrefix (s p : string) : bool := bool_decide (is_Some (strip_prefix p s)).
Definition TrimPrefix (s p : string) : string := default s (strip_prefix p s).

Lemma strip_prefix_Some p s r : strip_prefix p s = Some r ↔ s = p +:+ r.
Proof.
  revert s. induction p as [|c p IH]; intros s; simpl.
  - rewrite app_nil_l_s. naive_solver.
  - destruct s as [|d s]; [done|].
    rewrite app_cons_s. case_bool_decide; subst.
    + rewrite IH. split; [by intros ->|by intros [= ->]].
    + split; [done|by intros [= ->]].
Qed.

Lemma strip_prefix_app p r : strip_prefix p (p +:+ r) = Some r.
Proof. by apply strip_prefix_Some. Qed.

Lemma HasPrefix_spec s p : HasPrefix s p = true ↔ ∃ r, s = p +:+ r.
Proof.
  unfold HasPrefix. rewrite bool_decide_eq_true. unfold is_Some.
  by setoid_rewrite strip_prefix_Some.
Qed.

Lemma HasPrefix_app p r : HasPrefix (p +:+ r) p = true.
Proof. apply HasPrefix_spec. eauto. Qed.

Lemma TrimPrefix_app p r : TrimPrefix (p +:+ r) p = r.
Proof. unfold TrimPrefix. by rewrite strip_prefix_app. Qed.

#[export] Hint Rewrite strip_prefix_app HasPrefix_app TrimPrefix_app : oc_str.

(** ** Index, LastIndex, Contains, Cut *)

(** Both sides of the first occurrence of [sep]. *)
Fixpoint cut (sep s : string) : option (string * string) :=
  match strip_prefix sep s with
  | Some r => Some ("", r)
  | None =>
    match s with
    | "" => None
    | String c s' =>
      match cut sep s' with
      | Some (a, b) => Some (String c a, b)
      | None => None
      end
    end
  end.

(** Both sides of the last occurrence of [sep]. *)
Fixpoint cut_last (sep s : string) : option (string * string) :=
  match s with
  | "" => match strip_prefix sep "" with Some r => Some ("", r) | None => None end
  | String c s' =>
    match cut_last sep s' with
    | Some (a, b) => Some (String c a, b)
    | None =>
      match strip_prefix sep s with Some r => Some ("", r) | None => None end
    end
  end.

Definition HasSuffix (s suffix : string) : bool :=
  (String.length suffix <=? String.length s)%nat
  && String.eqb (String.substring (String.length s - String.length suffix) (String.length suffix) s) suffix.
Definition TrimSuffix (s suffix : string) : string :=
  if HasSuffix s suffix then String.substring 0 (String.length s - String.length suffix) s else s.

Definition Contains (s sub : string) : bool := bool_decide (is_Some (cut sub s)).

(** [before, _, _ := strings.Cut(s, sep)] *)
Definition CutBefore (s sep : string) : string := from_option fst s (cut sep s).

Definition newline : string := String "010"%char "".

(** [strings.TrimSpace] on the white space of ASCII. *)
Definition is_space (c : ascii) : bool := bool_decide (nat_of_ascii c = 32%nat) || ((9 <=? nat_of_ascii c)%nat && (nat_of_ascii c <=? 13)%nat).
Fixpoint trim_left (s : string) : string :=
  match s with String c s' => if is_space c then trim_left s' else s | "" => "" end.
Fixpoint trim_right (s : string) : string :=
  match s with
  | "" => ""
  | String c s' => let t := trim_right s' in if is_space c && String.eqb t "" then "" else String c t
  end.
Definition TrimSpace (s : string) : string := trim_right (trim_left s).

(** [strings.ToLower] on ASCII. *)
Fixpoint ToLower (s : string) : string :=
  match s with
  | "" => ""
  | String c s =>
    let n := nat_of_ascii c in
    String (if (65 <=? n)%nat && (n <=? 90)%nat then ascii_of_nat (n + 32) else c) (ToLower s)
  end.

(** [strings.TrimRight(s, c)] *)
Fixpoint TrimRight (c : ascii) (s : string) : string :=
  match s with
  | "" => ""
  | String a s =>
    let t := TrimRight c s in
    if Ascii.eqb a c && String.eqb t "" then "" else String a t
  end.

Lemma cut_Some sep s a b : cut sep s = Some (a, b) → s = a +:+ sep +:+ b.
Proof.
  revert a b. induction s as [|c s IH]; intros a b; simpl.
  - destruct (strip_prefix sep "") eqn:E; [|done].
    intros [= <- <-]. by apply strip_prefix_Some in E.
  - destruct (strip_prefix sep (String c s)) eqn:E.
    + intros [= <- <-]. by apply strip_prefix_Some in E.
    + destruct (cut sep s) as [[a' b']|] eqn:E'; [|done].
      intros [= <- <-]. rewrite app_cons_s. f_equal. eauto.
Qed.

Lemma cut_last_Some sep s a b : cut_last sep s = Some (a, b) → s = a +:+ sep +:+ b.
Proof.
  revert a b. induction s as [|c s IH]; intros a b; simpl.
  - destruct (strip_prefix sep "") eqn:E; [|done].
    intros [= <- <-]. by apply strip_prefix_Some in E.
  - destruct (cut_last sep s) as [[a' b']|] eqn:E'.
    + intros [= <- <-]. rewrite app_cons_s. f_equal. eauto.
    + destruct (strip_prefix sep (String c s)) eqn:E; [|done].
      intros [= <- <-]. by apply strip_prefix_Some in E.
Qed.

(** The separators the operator searches for start with a character [c] that
    cannot occur earlier (or later) in well-formed input: there the split is
    the expected one. *)
Lemma cut_app c sep a b :
  has_char c a = false → cut (String c sep) (a +:+ String c sep +:+ b) = Some (a, b).
Proof.
  induction a as [|d a IH]; intros Ha.
  - rewrite app_nil_l_s, app_cons_s. cbn [cut strip_prefix].
    rewrite bool_decide_eq_true_2 by done. by rewrite strip_prefix_app.
  - cbn in Ha. apply orb_false_iff in Ha as [Hd Ha]. rewrite app_cons_s.
    cbn [cut strip_prefix]. rewrite Hd. by rewrite IH.
Qed.

Lemma cut_None c sep s : has_char c s = false → cut (String c sep) s = None.
Proof.
  induction s as [|d s IH]; [done|]. cbn. intros [Hd Hs]%orb_false_iff.
  rewrite Hd. by rewrite IH.
Qed.

Lemma cut_char_None c s : cut (String c "") s = None ↔ has_char c s = false.
Proof.
  split; [|apply cut_None].
  induction s as [|d s IH]; [done|]. cbn. case_bool_decide; [done|].
  destruct (cut _ s) as [[]|]; naive_solver.
Qed.

Lemma cut_char_before c s a b : cut (String c "") s = Some (a, b) → has_char c a = false.
Proof.
  revert a b. induction s as [|d s IH]; intros a b; [done|]. cbn.
  case_bool_decide as Hcd; [by intros [= <- <-]|].
  destruct (cut (String c "") s) as [[a' b']|] eqn:E; [|done].
  intros [= <- <-]. cbn. rewrite bool_decide_eq_false_2 by done. eauto.
Qed.

Lemma cut_last_None c sep s : has_char c s = false → cut_last (String c sep) s = None.
Proof.
  induction s as [|d s IH]; [done|]. cbn. intros [Hd Hs]%orb_false_iff.
  by rewrite IH, Hd.
Qed.

Lemma cut_last_app c sep a b :
  has_char c sep = false → has_char c b = false →
  cut_last (String c sep) (a +:+ String c sep +:+ b) = Some (a, b).
Proof.
  intros Hsep Hb. induction a as [|d a IH].
  - rewrite app_nil_l_s, app_cons_s. cbn [cut_last].
    rewrite cut_last_None by by rewrite has_char_app, Hsep, Hb.
    cbn. rewrite bool_decide_eq_true_2 by done. by rewrite strip_prefix_app.
  - rewrite app_cons_s. cbn [cut_last]. by rewrite IH.
Qed.

Lemma cut_last_char_None c s : cut_last (String c "") s = None ↔ has_char c s = false.
Proof.
  split; [|apply cut_last_None].
  induction s as [|d s IH]; [done|]. cbn.
  destruct (cut_last (String c "") s) as [[]|]; [done|].
  case_bool_decide; naive_solver.
Qed.

Lemma cut_last_char_after c s a b : cut_last (String c "") s = Some (a, b) → has_char c b = false.
Proof.
  revert a b. induction s as [|d s IH]; intros a b; [done|]. cbn.
  destruct (cut_last (String c "") s) as [[a' b']|] eqn:E.
  - intros [= <- <-]. eauto.
  - apply cut_last_char_None in E. case_bool_decide; [|done]. by intros [= <- <-].
Qed.

Lemma Contains_char c s : Contains s (String c "") = has_char c s.
Proof.
  unfold Contains. destruct (has_char c s) eqn:E.
  - apply bool_decide_eq_true_2. apply not_eq_None_Some.
    rewrite cut_char_None. by rewrite E.
  - apply bool_decide_eq_false_2. rewrite (cut_None _ _ _ E). by intros [].
Qed.

Lemma Contains_spec s sub : Contains s sub = true → ∃ a b, s = a +:+ sub +:+ b.
Proof.
  unfold Contains. intros [[a b] H]%bool_decide_eq_true_1.
  exists a, b. by apply cut_Some.
Qed.

(** ** Join, Split, SplitN *)

Fixpoint Join (l : list string) (sep : string) : string :=
  match l with
  | [] => ""
  | [s] => s
  | s :: l => s +:+ sep +:+ Join l sep
  end.

(** [strings.Split(s, c)] for a one-byte separator. *)
Fixpoint Split (c : ascii) (s : string) : list string :=
  match s with
  | "" => [""]
  | String d s =>
    if bool_decide (c = d) then "" :: Split c s
    else match Split c s with
         | [] => [String d ""] (* unreachable: Split is never empty *)
         | w :: ws => String d w :: ws
         end
  end.

(** [strings.SplitN(s, sep, 2)] *)
Definition SplitN2 (s sep : string) : list string :=
  match cut sep s with Some (a, b) => [a; b] | None => [s] end.

Lemma Split_no_char c s : has_char c s = false → Split c s = [s].
Proof.
  induction s as [|d s IH]; [done|]. cbn. intros [Hd Hs]%orb_false_iff.
  by rewrite Hd, IH.
Qed.

Lemma Split_app c s t :
  has_char c s = false → Split c (s +:+ String c t) = s :: Split c t.
Proof.
  induction s as [|d s IH]; intros Hs.
  - rewrite app_nil_l_s. cbn. by rewrite bool_decide_eq_true_2.
  - rewrite app_cons_s. cbn in *. apply orb_false_iff in Hs as [Hd Hs].
    by rewrite Hd, IH.
Qed.

(** Splitting a joined list gives the list back when no element contains the
    separator. *)
Lemma Split_Join c l :
  l ≠ [] → Forall (λ s, has_char c s = false) l → Split c (Join l (String c "")) = l.
Proof.
  intros Hl. induction 1 as [|s l Hs Hall IH]; [done|].
  destruct l as [|s' l]; cbn [Join].
  - by apply Split_no_char.
  - rewrite app_cons_s, app_nil_l_s, Split_app by done. f_equal. by apply IH.
Qed.

Lemma Join_nonempty c l :
  l ≠ [] → l ≠ [""] → Join l (String c "") ≠ "".
Proof.
  destruct l as [|s [|s' l]]; [done|cbn; naive_solver|]. intros _ _. cbn.
  destruct s; done.
Qed.

(** [io.LimitReader]: at most [n] bytes. *)
Fixpoint LimitReader (n : N) (s : string) : string :=
  match s with "" => "" | String c s => if (n =? 0)%N then "" else String c (LimitReader (n - 1) s) end.

(** ** strconv.Itoa and strconv.Atoi *)

Definition Itoa (z : Z) : string := NilZero.string_of_int (Z.to_int z).

(** Decimal digits with an optional sign, in the range of a 64-bit [int]; any
    other input is an error. *)
Definition Atoi (s : string) : option Z :=
  let d := match s with
           | String "+" s' => option_map Decimal.Pos (NilZero.uint_of_string s')
           | _ => NilZero.int_of_string s
           end in
  match d with
  | Some i =>
    let z := Z.of_int i in
    if (min_int64 <=? z)%Z && (z <=? max_int64)%Z then Some z else None
  | None => None
  end.

Lemma to_int_not_nil z : Z.to_int z ≠ Decimal.Pos Decimal.Nil ∧ Z.to_int z ≠ Decimal.Neg Decimal.Nil.
Proof.
  split; intros H; destruct z as [|p|p]; cbn in H; try done; injection H as H;
  by apply DecimalPos.Unsigned.to_uint_nonnil in H.
Qed.

Lemma string_of_uint_not_plus u s : NilEmpty.string_of_uint u ≠ String "+" s.
Proof. by destruct u. Qed.

Lemma Itoa_not_plus z s : Itoa z ≠ String "+" s.
Proof.
  unfold Itoa, NilZero.string_of_int, NilZero.string_of_uint.
  destruct (Z.to_int z) as [u|u]; [|done]. by destruct u.
Qed.

Lemma Atoi_Itoa z : (min_int64 ≤ z ≤ max_int64)%Z → Atoi (Itoa z) = Some z.
Proof.
  intros Hz. unfold Atoi.
  assert (match Itoa z with
          | String "+" s' => option_map Decimal.Pos (NilZero.uint_of_string s')
          | _ => NilZero.int_of_string (Itoa z)
          end = NilZero.int_of_string (Itoa z)) as ->.
  { pose proof (Itoa_not_plus z) as Hp. destruct (Itoa z) as [|[[] [] [] [] [] [] [] []] s]; try done.
    exfalso. by apply (Hp s). }
  unfold Itoa. destruct (to_int_not_nil z) as [? ?].
  rewrite NilZero.isi by done. rewrite DecimalZ.of_to.
  destruct Hz as [H1 H2]. apply Z.leb_le in H1 as ->. by apply Z.leb_le in H2 as ->.
Qed.

(** ** Splitting behind a prefix without the separator *)

Lemma cut_prefix c sep a s :
  has_char c a = false →
  cut (String c sep) (a +:+ s) =
    match cut (String c sep) s with Some (x, y) => Some (a +:+ x, y) | None => None end.
Proof.
  induction a as [|d a IH]; intros Ha.
  - rewrite app_nil_l_s. by destruct (cut _ s) as [[]|].
  - cbn in Ha. apply orb_false_iff in Ha as [Hd Ha]. rewrite app_cons_s.
    cbn [cut strip_prefix]. rewrite Hd, IH by done.
    by destruct (cut _ s) as [[]|].
Qed.

Lemma cut_last_prefix sep a s x y :
  cut_last sep s = Some (x, y) → cut_last sep (a +:+ s) = Some (a +:+ x, y).
Proof.
  intros Hs. induction a as [|d a IH]; [done|].
  rewrite app_cons_s. cbn [cut_last]. by rewrite IH.
Qed.

(** The last separator is in the prefix when the suffix has none. *)
Lemma cut_last_suffix c a s :
  has_char c s = false →
  cut_last (String c "") (a +:+ s) =
    match cut_last (String c "") a with Some (x, y) => Some (x, y +:+ s) | None => None end.
Proof.
  intros Hs. induction a as [|d a IH].
  - rewrite app_nil_l_s. by rewrite cut_last_None.
  - rewrite app_cons_s. cbn [cut_last]. rewrite IH.
    destruct (cut_last (String c "") a) as [[x y]|]; [done|].
    cbn. by case_bool_decide.
Qed.

Lemma has_char_app_false c s t :
  has_char c (s +:+ t) = false ↔ has_char c s = false ∧ has_char c t = false.
Proof. rewrite has_char_app. apply orb_false_iff. Qed.

Lemma cut_last_char_app c a b :
  has_char c b = false → cut_last (String c "") (a +:+ String c b) = Some (a, b).
Proof. intros. by apply (cut_last_app c ""). Qed.

Lemma cut_char_app c a b :
  has_char c a = false → cut (String c "") (a +:+ String c b) = Some (a, b).
Proof. intros. by apply (cut_app c ""). Qed.

(** Two strings that agree and have no separator after the last one agree on
    both sides of it. *)
Lemma app_char_inj_r c a1 b1 a2 b2 :
  has_char c b1 = false → has_char c b2 = false →
  a1 +:+ String c b1 = a2 +:+ String c b2 → a1 = a2 ∧ b1 = b2.
Proof.
  intros H1 H2 E. apply (f_equal (cut_last (String c ""))) in E.
  rewrite !cut_last_char_app in E by done. by simplify_eq.
Qed.

Lemma Split_not_nil c s : Split c s ≠ [].
Proof. destruct s as [|d s]; [done|]. cbn. case_bool_decide; [done|]. by destruct (Split c s). Qed.

Lemma Split_app_general c s t : Split c (s +:+ String c t) = Split c s ++ Split c t.
Proof.
  induction s as [|d s IH].
  - rewrite app_nil_l_s. cbn. by rewrite bool_decide_eq_true_2.
  - rewrite app_cons_s. cbn. rewrite IH. case_bool_decide; [done|].
    pose proof (Split_not_nil c s). by destruct (Split c s).
Qed.

Lemma Split_components c s : Forall (λ w, has_char c w = false) (Split c s).
Proof.
  induction s as [|d s IH]; cbn; [by repeat constructor|].
  case_bool_decide as Hcd; [by constructor|].
  destruct (Split c s); [repeat constructor; cbn; by rewrite bool_decide_eq_false_2|].
  inversion_clear IH. constructor; [|done]. cbn. by rewrite bool_decide_eq_false_2.
Qed.

Lemma Join_cons s l sep : l ≠ [] → Join (s :: l) sep = s +:+ sep +:+ Join l sep.
Proof. by destruct l. Qed.

Lemma Join_Split c s : Join (Split c s) (String c "") = s.
Proof.
  induction s as [|d s IH]; [done|]. cbn. case_bool_decide; subst.
  - rewrite Join_cons by apply Split_not_nil. by rewrite IH.
  - pose proof (Split_not_nil c s). destruct (Split c s) as [|w [|w' ws]] eqn:E; [done|..].
    + cbn in *. by subst.
    + rewrite Join_cons, app_cons_s by done. rewrite Join_cons in IH by done. by rewrite IH.
Qed.

(** ** Suffixes *)

Lemma substring_all s : String.substring 0 (String.length s) s = s.
Proof. induction s as [|c s IH]; cbn; [done|]. by rewrite IH. Qed.

Lemma substring_split n s : (n ≤ String.length s)%nat → s = String.substring 0 n s +:+ String.substring n (String.length s - n) s.
Proof.
  revert n. induction s as [|c s IH]; intros n Hn; cbn in *; [by assert (n = 0) as -> by lia|].
  destruct n as [|n]; cbn; [by rewrite substring_all|]. rewrite app_cons_s. f_equal. apply IH. lia.
Qed.

Lemma TrimSuffix_split s suffix : HasSuffix s suffix = true → s = TrimSuffix s suffix +:+ suffix.
Proof.
  intros E. unfold TrimSuffix. rewrite E. unfold HasSuffix in E. apply andb_true_iff in E as [Hl E].
  apply Nat.leb_le in Hl. apply String.eqb_eq in E.
  pose proof (substring_split (String.length s - String.length suffix) s ltac:(lia)) as Hs.
  replace (String.length s - (String.length s - String.length suffix))%nat with (String.length suffix) in Hs by lia.
  by rewrite E in Hs.
Qed.

Lemma TrimSuffix_id s suffix : HasSuffix s suffix = false → TrimSuffix s suffix = s.
Proof. intros E. unfold TrimSuffix. by rewrite E. Qed.

Lemma HasSuffix_app t suffix : HasSuffix (t +:+ suffix) suffix = true.
Proof.
  unfold HasSuffix. rewrite length_app_s. apply andb_true_iff. split; [apply Nat.leb_le; lia|]. apply String.eqb_eq.
  replace (String.length t + String.length suffix - String.length suffix)%nat with (String.length t) by lia.
  induction t as [|c t IH]; [rewrite app_nil_l_s; apply substring_all|exact IH].
Qed.

Lemma TrimSuffix_app t suffix : TrimSuffix (t +:+ suffix) suffix = t.
Proof. apply (app_inv_tail_s suffix). symmetry. apply TrimSuffix_split, HasSuffix_app. Qed.

(** A suffix that fits into the second part is a suffix of it. *)
Lemma app_suffix p r t u : p +:+ r = t +:+ u → (String.length u ≤ String.length r)%nat → ∃ t', r = t' +:+ u.
Proof.
  revert t. induction p as [|a p IH]; intros t E Hl; [by exists t|].
  destruct t as [|b t].
  - apply (f_equal String.length) in E. rewrite !length_app_s in E. cbn in E. lia.
  - rewrite !app_cons_s in E. injection E as _ E. by eapply IH.
Qed.
