(* ===== verification/HelmSource.v ===== *)
(** * Source references of Helm charts

    pkg/mirror/helm_source.go: the reference under which a chart is queued and
    from which the worker downloads it again.  [QueryEscape] and
    [QueryUnescape] are those of Go's net/url.  Removing the credentials from a
    URL ([redactURL]) parses the URL; it is the argument [redact]. *)
From S2P Require Import Prelude GoStrings.

(** ** Percent encoding *)

Definition hex_upper (n : nat) : ascii :=
  if (n <? 10)%nat then ascii_of_nat (48 + n) else ascii_of_nat (55 + n).

Definition unhex (c : ascii) : option nat :=
  let n := nat_of_ascii c in
  if (48 <=? n)%nat && (n <=? 57)%nat then Some (n - 48)
  else if (65 <=? n)%nat && (n <=? 70)%nat then Some (n - 55)
  else if (97 <=? n)%nat && (n <=? 102)%nat then Some (n - 87)
  else None.

(** Letters, digits and [-_.~] stand for themselves. *)
Definition unreserved (c : ascii) : bool :=
  let n := nat_of_ascii c in
  ((48 <=? n)%nat && (n <=? 57)%nat) || ((65 <=? n)%nat && (n <=? 90)%nat) || ((97 <=? n)%nat && (n <=? 122)%nat)
  || existsb (Ascii.eqb c) ["-"; "_"; "."; "~"]%char.

Definition escape_char (c : ascii) : string :=
  if unreserved c then String c ""
  else if Ascii.eqb c " " then "+"
  else let n := nat_of_ascii c in String "%" (String (hex_upper (n / 16)) (String (hex_upper (n mod 16)) "")).

Fixpoint QueryEscape (s : string) : string :=
  match s with "" => "" | String c s => escape_char c +:+ QueryEscape s end.

(** [None]: a percent sign without two hexadecimal digits. *)
Fixpoint QueryUnescape (s : string) : option string :=
  match s with
  | "" => Some ""
  | String c s1 =>
    if Ascii.eqb c "%" then
      match s1 with
      | String a (String b s2) =>
        match unhex a, unhex b with
        | Some x, Some y => String (ascii_of_nat (16 * x + y)) <$> QueryUnescape s2
        | _, _ => None
        end
      | _ => None
      end
    else String (if Ascii.eqb c "+" then " "%char else c) <$> QueryUnescape s1
  end.

(** ** The reference *)

Definition helmChartSourceScheme : string := "helm://".

Definition HelmChartSource (redact : string → string) (repoURL chartName version : string) : string :=
  helmChartSourceScheme +:+ TrimSuffix (redact repoURL) "/" +:+ "/" +:+ QueryEscape chartName
    +:+ "?version=" +:+ QueryEscape version.

Definition IsChartSource (src : string) : bool := HasPrefix src helmChartSourceScheme.

(** Repository URL, chart name, version; [None] is [ok == false]. *)
Definition ParseHelmChartSource (source : string) : option (string * string * string) :=
  rest ← strip_prefix helmChartSourceScheme source;
  '(rest, version) ← match cut "?version=" rest with
                     | Some (before, after) =>
                       version ← QueryUnescape after;
                       if String.eqb version "" then None else Some (before, version)
                     | None => Some (rest, "")
                     end;
  '(repoURL, name) ← cut_last "/" rest;
  if String.eqb repoURL "" || String.eqb name "" then None
  else
    chartName ← QueryUnescape name;
    if String.eqb chartName "" || String.eqb version "" then None else Some (repoURL, chartName, version).

(** * Lemmas *)

Lemma unescape_char c s : QueryUnescape (escape_char c +:+ s) = String c <$> QueryUnescape s.
Proof. by destruct c as [[] [] [] [] [] [] [] []]. Qed.

Lemma escape_unreserved c : has_char "/" (escape_char c) = false ∧ has_char "?" (escape_char c) = false ∧ escape_char c ≠ "".
Proof. by destruct c as [[] [] [] [] [] [] [] []]. Qed.

Lemma QueryUnescape_QueryEscape s : QueryUnescape (QueryEscape s) = Some s.
Proof. induction s as [|c s IH]; [done|]. cbn [QueryEscape]. by rewrite unescape_char, IH. Qed.

Lemma QueryEscape_plain s : has_char "/" (QueryEscape s) = false ∧ has_char "?" (QueryEscape s) = false.
Proof.
  induction s as [|c s [IH1 IH2]]; [done|]. cbn [QueryEscape]. rewrite !has_char_app, IH1, IH2.
  by destruct (escape_unreserved c) as (-> & -> & _).
Qed.

Lemma QueryEscape_nonempty s : s ≠ "" → QueryEscape s ≠ "".
Proof.
  destruct s as [|c s]; [done|]. intros _ H. cbn [QueryEscape] in H.
  destruct (escape_unreserved c) as (_ & _ & Hc). by destruct (escape_char c).
Qed.

Lemma HelmChartSource_is_chart redact repoURL name version : IsChartSource (HelmChartSource redact repoURL name version) = true.
Proof. apply HasPrefix_app. Qed.

(** The worker downloads the chart that was resolved: a reference is read back
    as the repository (without credentials and final slash), the chart and the
    version it was made from, whatever characters their names contain, as long
    as the repository URL has no query. *)
Theorem ParseHelmChartSource_HelmChartSource redact repoURL name version :
  let repo := TrimSuffix (redact repoURL) "/" in
  repo ≠ "" → has_char "?" repo = false → name ≠ "" → version ≠ "" →
  ParseHelmChartSource (HelmChartSource redact repoURL name version) = Some (repo, name, version).
Proof.
  intros repo Hrepo Hq Hname Hversion. unfold ParseHelmChartSource, HelmChartSource. fold repo.
  rewrite strip_prefix_app. cbn [mbind option_bind].
  destruct (QueryEscape_plain name) as [Hn1 Hn2].
  rewrite !app_assoc_s. rewrite <- (app_assoc_s _ "?version=").
  change ("?version=" +:+ QueryEscape version) with (String "?" "version=" +:+ QueryEscape version).
  rewrite cut_app by (rewrite !has_char_app, Hq, Hn2; done).
  rewrite QueryUnescape_QueryEscape. cbn [mbind option_bind].
  rewrite (proj2 (String.eqb_neq _ _) Hversion). cbn [mbind option_bind].
  rewrite <- app_assoc_s, cut_last_app by done. cbn [mbind option_bind].
  rewrite (proj2 (String.eqb_neq _ _) Hrepo), (proj2 (String.eqb_neq _ _) (QueryEscape_nonempty _ Hname)). cbn [orb].
  rewrite QueryUnescape_QueryEscape. cbn [mbind option_bind].
  by rewrite (proj2 (String.eqb_neq _ _) Hname), (proj2 (String.eqb_neq _ _) Hversion).
Qed.

Lemma ParseHelmChartSource_HelmChartSource_witness :
  ParseHelmChartSource (HelmChartSource id "https://charts.io/stable/" "my chart?" "1.0+a") =
    Some ("https://charts.io/stable", "my chart?", "1.0+a").
Proof. apply (ParseHelmChartSource_HelmChartSource id "https://charts.io/stable/"); done. Defined.
