(* ===== verification/ImageRef.v ===== *)
(** * Image references and destinations

    The string arithmetic that decides where an image is mirrored to
    (pkg/mirror/collector.go, pkg/mirror/chartmirror/pusher.go), which images
    a blocked-image pattern matches, and how the manager and the MirrorTarget
    controller read a digest back out of a destination
    (pkg/mirror/manager/manager.go, manager_resolve.go,
    internal/controller/mirrortarget_controller.go). *)
From S2P Require Import Prelude GoStrings.

(** ** Splitting a reference (collector.go) *)

(** The part before the first "@" and the digest after it. *)
Definition strip_digest (ref : string) : string * string :=
  match cut "@" ref with Some (a, b) => (a, b) | None => (ref, "") end.

(** The part before a trailing ":tag" and the tag; a colon followed by a slash
    belongs to a registry port. *)
Definition strip_tag (ref : string) : string * string :=
  match cut_last ":" ref with
  | Some (a, b) => if negb (Contains b "/") then (a, b) else (ref, "")
  | None => (ref, "")
  end.

(** Dropping a leading registry host (a first component with a dot or port). *)
Definition strip_host (ref : string) : string :=
  match SplitN2 ref "/" with
  | [host; rest] => if Contains host "." || Contains host ":" then rest else ref
  | _ => ref
  end.

Definition splitImageRef (img : string) : string * string * string :=
  let '(ref, digest) := strip_digest img in
  let '(ref, tag) := strip_tag ref in
  (strip_host ref, tag, digest).

Definition ImageNamePath (img : string) : string :=
  let '(path, _, _) := splitImageRef img in path.

Definition stripTagOrDigest (ref : string) : string :=
  let '(ref, _) := strip_digest ref in
  let '(ref, _) := strip_tag ref in
  ref.

(** ** Blocked images *)

Definition ImageBlocked (source blockedName : string) : bool :=
  let '(sPath, sTag, sDigest) := splitImageRef source in
  let '(bPath, bTag, bDigest) := splitImageRef blockedName in
  if negb (String.eqb sPath bPath) then false
  else if negb (String.eqb bDigest "") then String.eqb sDigest bDigest
  else if negb (String.eqb bTag "") then String.eqb sTag bTag
  else true.

Definition imageMatchesAnyBlocked (source : string) (blocked : list string) : bool :=
  existsb (ImageBlocked source) blocked.

(** An image to mirror: [mirror.TargetImage]. *)
Record TargetImage := mkTargetImage {
  ti_Source : string;
  ti_Destination : string;
  ti_State : string;
  ti_BundleRef : string;
  ti_IsBundleImage : bool;
}.

Definition BlockImages (images : list TargetImage) (blocked : list string) : list TargetImage :=
  if decide (blocked = []) then images
  else List.filter (λ img, negb (imageMatchesAnyBlocked (ti_Source img) blocked)) images.

(** ** Destinations *)

Definition releaseArchName (arch : string) : string :=
  if String.eqb arch "amd64" then "x86_64"
  else if String.eqb arch "arm64" then "aarch64"
  else arch.

Definition releaseTagFor (version arch : string) : string :=
  if String.eqb version "" then "latest"
  else version +:+ "-" +:+ releaseArchName arch.

Definition releaseImageRepo : string := "openshift/release-images".
Definition releaseComponentRepo : string := "openshift/release".
Definition kubeVirtComponentName : string := "kube-virt-container".

Definition releasePayloadDestination (registry releaseTag : string) : string :=
  registry +:+ "/" +:+ releaseImageRepo +:+ ":" +:+ releaseTag.

Definition ComponentDestination (registry img : string) : string :=
  let namePath := ImageNamePath img in
  match cut "@sha256:" img with
  | Some (_, hex) => registry +:+ "/" +:+ namePath +:+ ":" +:+ ("sha256-" +:+ hex)
  | None => registry +:+ "/" +:+ namePath
  end.

Definition releaseComponentDestination (registry releaseTag name img : string) : string :=
  if String.eqb name "" then ComponentDestination registry img
  else registry +:+ "/" +:+ releaseComponentRepo +:+ ":" +:+ releaseTag +:+ "-" +:+ name.

(** [state.Metadata.MirroredImages] (nil [meta] is [None]). *)
Definition toTargetImage (src dest : string) (meta : option (gmap string string)) : TargetImage :=
  let s := match meta with
           | Some m => if String.eqb (default "" (m !! dest)) "" then "Pending" else "Mirrored"
           | None => "Pending"
           end in
  mkTargetImage src dest s "" false.

Record AdditionalImage := mkAdditionalImage {
  ai_Name : string;
  ai_TargetRepo : string;
  ai_TargetTag : string;
}.

(** The destination [CollectAdditional] computes for one entry. *)
Definition additionalDestination (registry : string) (img : AdditionalImage) : string :=
  let ref := if String.eqb (ai_TargetRepo img) "" then ai_Name img else ai_TargetRepo img in
  let ref := if String.eqb (ai_TargetTag img) "" then ref
             else stripTagOrDigest ref +:+ ":" +:+ ai_TargetTag img in
  registry +:+ "/" +:+ ref.

Definition CollectAdditional (registry : string) (imgs : list AdditionalImage)
    (meta : option (gmap string string)) : list TargetImage :=
  map (λ img, toTargetImage (ai_Name img) (additionalDestination registry img) meta) imgs.

(** ** Digests read back from destinations and payload references *)

(** manager.go destinationDigest *)
Definition destinationDigest (dest : string) : string :=
  match cut "@sha256:" dest with
  | Some (_, hex) => "sha256:" +:+ hex
  | None =>
    match cut_last ":sha256-" dest with
    | Some (_, hex) => "sha256:" +:+ hex
    | None => ""
    end
  end.

(** manager_resolve.go extractDigest *)
Definition extractDigest (imageRef : string) : string :=
  match cut "@sha256:" imageRef with Some (_, hex) => "sha256:" +:+ hex | None => "" end.

(** mirrortarget_controller.go repoAndDigest *)
Definition repoAndDigest (dest : string) : string * string :=
  match cut "@sha256:" dest with
  | Some (repo, hex) => (repo, "sha256:" +:+ hex)
  | None =>
    match cut_last ":sha256-" dest with
    | Some (repo, hex) => (repo, "sha256:" +:+ hex)
    | None => (dest, "")
    end
  end.

(** ** Helm chart destinations (chartmirror/pusher.go) *)

Definition chartRepoPrefix : string := "charts".

Definition ChartDestination (registry repoName chartName chartVersion : string) : string :=
  registry +:+ "/" +:+ chartRepoPrefix +:+ "/" +:+ repoName +:+ "/" +:+ chartName +:+ ":" +:+ chartVersion.

(** The loop over the path components: [front] are the components before the
    current index, [parts] the current one and those after it. *)
Fixpoint find_charts (dest version : string) (front parts : list string)
    : option (string * string * string) :=
  match parts with
  | p :: ((repo :: name :: _) as rest) =>
    if String.eqb p chartRepoPrefix
       && String.eqb (ChartDestination (Join front "/") repo name version) dest
    then Some (Join front "/", repo, name)
    else find_charts dest version (front ++ [p]) rest
  | _ => None
  end.

Definition ParseChartDestination (dest : string) : option (string * string * string * string) :=
  let '(rest, chartVersion) := strip_tag dest in
  if String.eqb chartVersion "" then None
  else match Split "/" rest with
       | p0 :: parts =>
         match find_charts dest chartVersion [p0] parts with
         | Some (registry, repo, name) => Some (registry, repo, name, chartVersion)
         | None => None
         end
       | [] => None
       end.

(** ** Lemmas on the splitting functions *)

Lemma strip_tag_no_char c ref :
  has_char c ref = false → has_char c (strip_tag ref).1 = false.
Proof.
  unfold strip_tag. destruct (cut_last ":" ref) as [[a b]|] eqn:E; [|done].
  apply cut_last_Some in E as ->. intros H.
  destruct (negb _); [|done]. by apply has_char_app_false in H as [H _].
Qed.

Lemma strip_host_no_char c ref :
  has_char c ref = false → has_char c (strip_host ref) = false.
Proof.
  unfold strip_host, SplitN2. destruct (cut "/" ref) as [[a b]|] eqn:E; [|done].
  apply cut_Some in E as ->. intros H. destruct (_ || _); [|done].
  apply has_char_app_false in H as [_ H]. by apply has_char_app_false in H as [_ H].
Qed.

Lemma splitImageRef_digest name digest :
  has_char "@" name = false →
  splitImageRef (name +:+ String "@" digest) =
    (strip_host (strip_tag name).1, (strip_tag name).2, digest).
Proof.
  intros H. unfold splitImageRef, strip_digest. rewrite cut_char_app by done.
  by destruct (strip_tag name).
Qed.

Lemma ImageNamePath_digest name digest :
  has_char "@" name = false →
  ImageNamePath (name +:+ String "@" digest) = strip_host (strip_tag name).1.
Proof. intros. unfold ImageNamePath. by rewrite splitImageRef_digest. Qed.

(** A digest-pinned reference "name@sha256:hex". *)
Definition pinned (name hex : string) : string := name +:+ "@sha256:" +:+ hex.

Lemma ImageNamePath_pinned name hex :
  has_char "@" name = false → ImageNamePath (pinned name hex) = strip_host (strip_tag name).1.
Proof. apply ImageNamePath_digest. Qed.

Lemma ImageNamePath_pinned_no_at name hex :
  has_char "@" name = false → has_char "@" (ImageNamePath (pinned name hex)) = false.
Proof.
  intros. rewrite ImageNamePath_pinned by done.
  by apply strip_host_no_char, strip_tag_no_char.
Qed.

Lemma cut_pinned name hex :
  has_char "@" name = false → cut "@sha256:" (pinned name hex) = Some (name, hex).
Proof. apply (cut_app "@" "sha256:"). Qed.

Lemma ComponentDestination_pinned reg name hex :
  has_char "@" name = false →
  ComponentDestination reg (pinned name hex) =
    (reg +:+ "/" +:+ ImageNamePath (pinned name hex)) +:+ ":sha256-" +:+ hex.
Proof.
  intros. unfold ComponentDestination. rewrite cut_pinned by done. by rewrite <- !app_assoc_s.
Qed.

Lemma cut_last_component a hex :
  has_char ":" hex = false → cut_last ":sha256-" (a +:+ ":sha256-" +:+ hex) = Some (a, hex).
Proof. intros. by apply (cut_last_app ":" "sha256-"). Qed.

Lemma component_no_digest_ref reg name hex :
  has_char "@" reg = false → has_char "@" name = false → has_char "@" hex = false →
  cut "@sha256:" (ComponentDestination reg (pinned name hex)) = None.
Proof.
  intros ? Hn ?. rewrite ComponentDestination_pinned by done.
  apply (cut_None "@" "sha256:").
  rewrite !has_char_app_false. repeat split; try done. by apply ImageNamePath_pinned_no_at.
Qed.

Lemma strip_digest_host h r :
  has_char "@" h = false →
  strip_digest (h +:+ String "/" r) = (h +:+ String "/" (strip_digest r).1, (strip_digest r).2).
Proof.
  intros Ha. unfold strip_digest. change (String "/" r) with ("/" +:+ r). rewrite app_assoc_s.
  rewrite cut_prefix by by rewrite has_char_app, Ha.
  destruct (cut "@" r) as [[x y]|]; cbn; by rewrite <- app_assoc_s.
Qed.

Lemma strip_tag_host h r :
  strip_tag (h +:+ String "/" r) = (h +:+ String "/" (strip_tag r).1, (strip_tag r).2).
Proof.
  unfold strip_tag. change (String "/" r) with ("/" +:+ r). rewrite app_assoc_s.
  destruct (cut_last ":" r) as [[x y]|] eqn:E.
  - rewrite (cut_last_prefix _ _ _ _ _ E).
    destruct (negb (Contains y "/")); cbn; by rewrite <- app_assoc_s.
  - apply cut_last_char_None in E. rewrite cut_last_suffix by done.
    rewrite (cut_last_suffix ":" h "/") by done.
    destruct (cut_last ":" h) as [[x y]|]; [|cbn; by rewrite <- app_assoc_s].
    rewrite Contains_char, !has_char_app. replace (has_char "/" "/") with true by done.
    rewrite orb_true_r. cbn. by rewrite <- app_assoc_s.
Qed.

(** A reference behind a registry host splits as the reference does, without
    looking for a host in it again. *)
Lemma splitImageRef_host h r :
  has_char "/" h = false → has_char "@" h = false →
  has_char "." h || has_char ":" h = true →
  splitImageRef (h +:+ String "/" r) =
    ((strip_tag (strip_digest r).1).1, (strip_tag (strip_digest r).1).2, (strip_digest r).2).
Proof.
  intros Hs Ha Hh. unfold splitImageRef.
  rewrite strip_digest_host, strip_tag_host by done. f_equal. f_equal.
  unfold strip_host, SplitN2. rewrite cut_char_app by done.
  by rewrite !Contains_char, Hh.
Qed.

(** ** Lemmas on chart destinations *)

Lemma ChartDestination_assoc reg repo name ver :
  ChartDestination reg repo name ver =
    ((reg +:+ String "/" chartRepoPrefix) +:+ String "/" repo) +:+ String "/" (name +:+ String ":" ver).
Proof. unfold ChartDestination. by rewrite <- !app_assoc_s. Qed.

Lemma ChartDestination_inj reg1 repo1 name1 reg2 repo2 name2 ver :
  has_char "/" repo1 = false → has_char "/" name1 = false →
  has_char "/" repo2 = false → has_char "/" name2 = false →
  has_char "/" ver = false → has_char ":" ver = false →
  ChartDestination reg1 repo1 name1 ver = ChartDestination reg2 repo2 name2 ver →
  (reg1, repo1, name1) = (reg2, repo2, name2).
Proof.
  intros ?????? E. rewrite !ChartDestination_assoc in E.
  apply app_char_inj_r in E as [E E3]; [|rewrite has_char_app_false; by split..].
  apply app_char_inj_r in E as [E ->]; [|done..].
  apply app_char_inj_r in E as [-> _]; [|done..].
  by apply app_char_inj_r in E3 as [-> _].
Qed.

Lemma find_charts_sound dest ver front parts reg repo name :
  find_charts dest ver front parts = Some (reg, repo, name) →
  ChartDestination reg repo name ver = dest ∧ repo ∈ parts ∧ name ∈ parts.
Proof.
  revert front. induction parts as [|p parts IH]; intros front; [done|].
  destruct parts as [|r [|n rest]]; [done..|]. cbn [find_charts].
  destruct (String.eqb p chartRepoPrefix && _) eqn:E.
  - apply andb_true_iff in E as [_ E%String.eqb_eq]. intros [= <- <- <-]. set_solver.
  - intros H%IH. set_solver.
Qed.

Lemma find_charts_complete ver repo name pre front :
  is_Some (find_charts (ChartDestination (Join (front ++ pre) "/") repo name ver) ver front
             (pre ++ [chartRepoPrefix; repo; name])).
Proof.
  revert front. induction pre as [|p pre IH]; intros front.
  - rewrite app_nil_r. cbn. rewrite String.eqb_refl. eauto.
  - specialize (IH (front ++ [p])). rewrite <- app_assoc in IH.
    assert (∃ a b l, pre ++ [chartRepoPrefix; repo; name] = a :: b :: l) as (a & b & l & El).
    { destruct pre as [|? [|??]]; cbn; eauto. }
    cbn [app]. rewrite El in *. cbn [find_charts]. destruct (_ && _); [eauto|]. exact IH.
Qed.

Lemma strip_tag_chart reg repo name ver :
  has_char "/" ver = false → has_char ":" ver = false →
  strip_tag (ChartDestination reg repo name ver) =
    (reg +:+ String "/" (chartRepoPrefix +:+ String "/" (repo +:+ String "/" name)), ver).
Proof.
  intros Hs Hc. unfold strip_tag. rewrite ChartDestination_assoc.
  change (String "/" (name +:+ String ":" ver)) with (String "/" name +:+ String ":" ver).
  rewrite app_assoc_s, cut_last_char_app by done.
  rewrite Contains_char, Hs. cbn [negb]. f_equal. by rewrite <- !app_assoc_s.
Qed.

Lemma Split_chart_path reg repo name :
  has_char "/" repo = false → has_char "/" name = false →
  Split "/" (reg +:+ String "/" (chartRepoPrefix +:+ String "/" (repo +:+ String "/" name))) =
    Split "/" reg ++ [chartRepoPrefix; repo; name].
Proof.
  intros. rewrite !Split_app_general, (Split_no_char _ chartRepoPrefix), !(Split_no_char _ repo),
    !(Split_no_char _ name) by done. done.
Qed.

(** * Properties *)

(** A component mirrored by digest keeps its digest: the digest the
    manager reads back from the destination [ComponentDestination] computed
    is the digest of the source reference it was computed from. *)
Theorem destinationDigest_ComponentDestination reg name hex :
  has_char "@" reg = false → has_char "@" name = false →
  has_char "@" hex = false → has_char ":" hex = false →
  destinationDigest (ComponentDestination reg (pinned name hex)) = extractDigest (pinned name hex).
Proof.
  intros. unfold destinationDigest, extractDigest.
  rewrite component_no_digest_ref, cut_pinned by done.
  rewrite ComponentDestination_pinned by done. by rewrite cut_last_component.
Qed.

Lemma destinationDigest_ComponentDestination_witness :
  destinationDigest (ComponentDestination "reg.example.com:5000/mirror" (pinned "quay.io/ocp/etcd" "0ab1"))
  = "sha256:0ab1".
Proof.
  rewrite (destinationDigest_ComponentDestination "reg.example.com:5000/mirror" "quay.io/ocp/etcd" "0ab1");
    reflexivity.
Defined.

(** The cleanup code splits a component destination back into the
    repository it was pushed to and the digest of the source, so two
    components with different digests or different repository paths never
    share a destination. *)
Theorem repoAndDigest_ComponentDestination reg name hex :
  has_char "@" reg = false → has_char "@" name = false →
  has_char "@" hex = false → has_char ":" hex = false →
  repoAndDigest (ComponentDestination reg (pinned name hex)) =
    (reg +:+ "/" +:+ ImageNamePath (pinned name hex), "sha256:" +:+ hex).
Proof.
  intros. unfold repoAndDigest. rewrite component_no_digest_ref by done.
  rewrite ComponentDestination_pinned by done. by rewrite cut_last_component.
Qed.

Lemma repoAndDigest_ComponentDestination_witness :
  repoAndDigest (ComponentDestination "reg.io/m" (pinned "quay.io/ocp/etcd" "0ab1"))
  = ("reg.io/m/ocp/etcd", "sha256:0ab1").
Proof.
  rewrite (repoAndDigest_ComponentDestination "reg.io/m" "quay.io/ocp/etcd" "0ab1"); reflexivity.
Defined.

(** Whether an image is blocked does not depend on the registry it comes
    from: replacing the registry host of the source (a first component with a
    dot or a port) leaves the verdict of every pattern unchanged. *)
Theorem ImageBlocked_registry_agnostic h1 h2 r pattern :
  has_char "/" h1 = false → has_char "@" h1 = false → has_char "." h1 || has_char ":" h1 = true →
  has_char "/" h2 = false → has_char "@" h2 = false → has_char "." h2 || has_char ":" h2 = true →
  ImageBlocked (h1 +:+ String "/" r) pattern = ImageBlocked (h2 +:+ String "/" r) pattern.
Proof. intros. unfold ImageBlocked. by rewrite !splitImageRef_host. Qed.

Lemma ImageBlocked_registry_agnostic_witness :
  ImageBlocked "quay.io/ns/app:v1" "ns/app:v1" = ImageBlocked "localhost:5000/ns/app:v1" "ns/app:v1"
  ∧ ImageBlocked "quay.io/ns/app:v1" "ns/app:v1" = true.
Proof.
  split.
  - by apply (ImageBlocked_registry_agnostic "quay.io" "localhost:5000" "ns/app:v1").
  - reflexivity.
Defined.

(** [BlockImages] keeps exactly the images that no configured pattern
    matches, in their order and with their multiplicity. *)
Theorem BlockImages_exact images blocked :
  BlockImages images blocked `sublist_of` images ∧
  (∀ img, img ∈ BlockImages images blocked ↔
    img ∈ images ∧ ∀ b, b ∈ blocked → ImageBlocked (ti_Source img) b = false) ∧
  length (BlockImages images blocked) +
    length (List.filter (λ img, imageMatchesAnyBlocked (ti_Source img) blocked) images) = length images.
Proof.
  unfold BlockImages, imageMatchesAnyBlocked. case_decide as Hb; subst; cbn.
  - split_and!; [done|set_solver|]. induction images; cbn in *; lia.
  - split_and!; [apply filter_bool_sublist| |].
    + intros img. rewrite elem_of_filter_bool, negb_true_iff, existsb_not_elem. tauto.
    + induction images as [|x l IH]; cbn; [done|]. destruct (existsb _ blocked); cbn; lia.
Qed.

(** The parser of chart destinations inverts the builder: for a
    repository and chart name without slashes and a non-empty version without
    slash or colon, [ParseChartDestination] gives back exactly the four parts
    [ChartDestination] was called with, whatever the registry prefix (ports
    and further "charts" path segments included). *)
Theorem ParseChartDestination_ChartDestination reg repo name ver :
  has_char "/" repo = false → has_char "/" name = false →
  has_char "/" ver = false → has_char ":" ver = false → ver ≠ "" →
  ParseChartDestination (ChartDestination reg repo name ver) = Some (reg, repo, name, ver).
Proof.
  intros Hr Hn Hs Hc Hv. unfold ParseChartDestination.
  rewrite strip_tag_chart, Split_chart_path by done.
  rewrite (proj2 (String.eqb_neq _ _) Hv).
  pose proof (Split_not_nil "/" reg) as Hnn. pose proof (Join_Split "/" reg) as Hj.
  destruct (Split "/" reg) as [|p0 pre] eqn:Esp; [done|]. cbn [app].
  destruct (find_charts_complete ver repo name pre [p0]) as [[[r' re'] n'] E].
  cbn [app] in E. rewrite Hj in E. rewrite E.
  pose proof (find_charts_sound _ _ _ _ _ _ _ E) as (Ed & H1 & H2).
  assert (Hall : Forall (λ w, has_char "/" w = false) (pre ++ [chartRepoPrefix; repo; name])).
  { pose proof (Split_components "/" reg) as Hf. rewrite Esp in Hf. inversion_clear Hf.
    apply Forall_app; split; [done|]. by repeat constructor. }
  rewrite Forall_forall in Hall.
  apply ChartDestination_inj in Ed; [by simplify_eq|auto..].
Qed.

Lemma ParseChartDestination_ChartDestination_witness :
  ParseChartDestination (ChartDestination "reg.io:5000/charts/x" "bitnami" "nginx" "15.5.1")
  = Some ("reg.io:5000/charts/x", "bitnami", "nginx", "15.5.1").
Proof. apply (ParseChartDestination_ChartDestination "reg.io:5000/charts/x" "bitnami" "nginx" "15.5.1"); done. Defined.
