(* ===== verification/ImageState.v ===== *)
(** * Per-ImageSet image state and its ConfigMaps

    pkg/mirror/imagestate/imagestate.go and summary.go.  The Kubernetes API
    server is a store of ConfigMaps (one namespace) together with a schedule of
    faults: every API call takes the next element of the schedule and fails
    with a non-NotFound error when it is [true].  An [Update] that loses a
    resourceVersion race is such a fault.

    Payloads are symbolic: a gzip+JSON document is the value that was encoded,
    or [PBad] for bytes that do not decode.  Encoding keeps every field of an
    entry, except that [metav1.Time] is written with a precision of one
    second.  Times are integers counting nanoseconds. *)
From S2P Require Import Prelude Effects GoStrings.

(** ** Entries *)

Definition OriginRelease : string := "release".
Definition OriginOperator : string := "operator".
Definition OriginAdditional : string := "additional".
Definition OriginHelm : string := "helm".
Definition OriginHelmChart : string := "helm-chart".

Record ImageEntry := mkImageEntry {
  Source : string;
  State : string; (* Pending | Mirrored | Failed *)
  LastError : string;
  RetryCount : Z;
  Origin : string;
  EntrySig : string;
  OriginRef : string;
  Catalog : string;
  IsBundleImage : bool;
  PermanentlyFailed : bool;
  NextRetryAt : option Z;
  SignatureVerified : bool;
  SourceDigest : string;
}.

#[export] Instance ImageEntry_eq_dec : EqDecision ImageEntry.
Proof. solve_decision. Defined.

(** Field assignments [e.F = v]. *)
Definition set_Source (v : string) (e : ImageEntry) : ImageEntry :=
  mkImageEntry v (State e) (LastError e) (RetryCount e) (Origin e) (EntrySig e) (OriginRef e)
    (Catalog e) (IsBundleImage e) (PermanentlyFailed e) (NextRetryAt e) (SignatureVerified e) (SourceDigest e).
Definition set_State (v : string) (e : ImageEntry) : ImageEntry :=
  mkImageEntry (Source e) v (LastError e) (RetryCount e) (Origin e) (EntrySig e) (OriginRef e)
    (Catalog e) (IsBundleImage e) (PermanentlyFailed e) (NextRetryAt e) (SignatureVerified e) (SourceDigest e).
Definition set_LastError (v : string) (e : ImageEntry) : ImageEntry :=
  mkImageEntry (Source e) (State e) v (RetryCount e) (Origin e) (EntrySig e) (OriginRef e)
    (Catalog e) (IsBundleImage e) (PermanentlyFailed e) (NextRetryAt e) (SignatureVerified e) (SourceDigest e).
Definition set_RetryCount (v : Z) (e : ImageEntry) : ImageEntry :=
  mkImageEntry (Source e) (State e) (LastError e) v (Origin e) (EntrySig e) (OriginRef e)
    (Catalog e) (IsBundleImage e) (PermanentlyFailed e) (NextRetryAt e) (SignatureVerified e) (SourceDigest e).
Definition set_Labels (origin sig ref catalog : string) (e : ImageEntry) : ImageEntry :=
  mkImageEntry (Source e) (State e) (LastError e) (RetryCount e) origin sig ref
    catalog (IsBundleImage e) (PermanentlyFailed e) (NextRetryAt e) (SignatureVerified e) (SourceDigest e).
Definition set_IsBundleImage (v : bool) (e : ImageEntry) : ImageEntry :=
  mkImageEntry (Source e) (State e) (LastError e) (RetryCount e) (Origin e) (EntrySig e) (OriginRef e)
    (Catalog e) v (PermanentlyFailed e) (NextRetryAt e) (SignatureVerified e) (SourceDigest e).
Definition set_PermanentlyFailed (v : bool) (e : ImageEntry) : ImageEntry :=
  mkImageEntry (Source e) (State e) (LastError e) (RetryCount e) (Origin e) (EntrySig e) (OriginRef e)
    (Catalog e) (IsBundleImage e) v (NextRetryAt e) (SignatureVerified e) (SourceDigest e).
Definition set_NextRetryAt (v : option Z) (e : ImageEntry) : ImageEntry :=
  mkImageEntry (Source e) (State e) (LastError e) (RetryCount e) (Origin e) (EntrySig e) (OriginRef e)
    (Catalog e) (IsBundleImage e) (PermanentlyFailed e) v (SignatureVerified e) (SourceDigest e).
Definition set_SignatureVerified (v : bool) (e : ImageEntry) : ImageEntry :=
  mkImageEntry (Source e) (State e) (LastError e) (RetryCount e) (Origin e) (EntrySig e) (OriginRef e)
    (Catalog e) (IsBundleImage e) (PermanentlyFailed e) (NextRetryAt e) v (SourceDigest e).
Definition set_SourceDigest (v : string) (e : ImageEntry) : ImageEntry :=
  mkImageEntry (Source e) (State e) (LastError e) (RetryCount e) (Origin e) (EntrySig e) (OriginRef e)
    (Catalog e) (IsBundleImage e) (PermanentlyFailed e) (NextRetryAt e) (SignatureVerified e) v.

Definition CatalogFromOriginRef (originRef : string) : string := CutBefore originRef " ".

(** ** The shared-image index *)

Definition shared_names (idx : gmap string (list string)) (dest : string) : list string :=
  default [] (idx !! dest).

Definition AddSharedRef (dest imageSet : string) (idx : gmap string (list string))
    : gmap string (list string) :=
  if existsb (String.eqb imageSet) (shared_names idx dest) then idx
  else <[dest := shared_names idx dest ++ [imageSet]]> idx.

Definition RemoveSharedRef (dest imageSet : string) (idx : gmap string (list string))
    : gmap string (list string) :=
  let out := List.filter (λ n, negb (String.eqb n imageSet)) (shared_names idx dest) in
  if bool_decide (length out ≤ 1) then delete dest idx else <[dest := out]> idx.

Definition IsShared (idx : gmap string (list string)) (dest : string) : bool :=
  bool_decide (2 ≤ length (shared_names idx dest)).

Definition Names (idx : gmap string (list string)) (dest : string) : list string :=
  shared_names idx dest.

(** ** Names of the ConfigMaps *)

Definition ConfigMapName (imageSetName : string) : string := imageSetName +:+ "-images".
Definition IndexConfigMapName (mtName : string) : string := mtName +:+ "-images-index".
Definition OrphansConfigMapName (mtName : string) : string := mtName +:+ "-images-orphans".
Definition ConfigMapNameForTarget (mtName : string) : string := mtName +:+ "-images".
Definition SummaryConfigMapName (mtName : string) : string := mtName +:+ "-images-summary".

(** ** Counts *)

Record counts := mkCounts { c_total : Z; c_mirrored : Z; c_pending : Z; c_failed : Z }.

#[export] Instance counts_eq_dec : EqDecision counts.
Proof. solve_decision. Defined.

(** The class [Counts]'s switch puts an entry in. *)
Definition count_entry (e : ImageEntry) (c : counts) : counts :=
  if String.eqb (State e) "Mirrored" then mkCounts (c_total c) (c_mirrored c + 1) (c_pending c) (c_failed c)
  else if PermanentlyFailed e then mkCounts (c_total c) (c_mirrored c) (c_pending c) (c_failed c + 1)
  else mkCounts (c_total c) (c_mirrored c) (c_pending c + 1) (c_failed c).

Definition Counts (state : gmap string ImageEntry) : counts :=
  map_fold (λ _, count_entry) (mkCounts (Z.of_nat (size state)) 0 0 0) state.

(** ** ConfigMaps and the API server *)

(** One owner reference of the pre-partitioning format. *)
Record legacyImageRef := mkLegacyRef {
  lr_ImageSet : string;
  lr_Origin : string;
  lr_EntrySig : string;
  lr_OriginRef : string;
}.

(** A JSON object of an image-state document: every key either format knows
    ([refs] only exists in the legacy one). *)
Record jsonEntry := mkJsonEntry { je_entry : ImageEntry; je_Refs : list legacyImageRef }.

Inductive Payload (A : Type) : Type :=
| POk (v : A)
| PBad.
Arguments POk {A} v.
Arguments PBad {A}.

Record ConfigMap := mkConfigMap {
  cm_Annotations : gmap string string;
  cm_digests : option (Payload (gmap string string)); (* CatalogDigestsAnnotation, JSON *)
  cm_images_gz : option (Payload (gmap string (option jsonEntry)));
  cm_images_plain : option (Payload (gmap string (option jsonEntry)));
  cm_index_gz : option (Payload (gmap string (list string)));
  cm_index_plain : option (Payload (gmap string (list string)));
  cm_Data : gmap string string;
  cm_owner : option string;
}.

Inductive apiErr := ErrNotFound | ErrAlreadyExists | ErrOther.
#[export] Instance apiErr_eq_dec : EqDecision apiErr.
Proof. solve_decision. Defined.

Record Cluster := mkCluster { cl_cms : gmap string ConfigMap; cl_faults : list bool }.

(** Calls in sequence, with Go's early return on a non-nil error. *)
Abbreviation API := (M Cluster apiErr).

(** A call: it takes the next fault of the schedule. *)
Definition call {A} (f : gmap string ConfigMap → (apiErr + A) * gmap string ConfigMap) : API A := λ c,
  match cl_faults c with
  | true :: fs => (inl ErrOther, mkCluster (cl_cms c) fs)
  | fs => let '(r, cms) := f (cl_cms c) in (r, mkCluster cms (tail fs))
  end.

Definition api_get (name : string) : API ConfigMap := call (λ cms,
  match cms !! name with Some cm => (inr cm, cms) | None => (inl ErrNotFound, cms) end).
Definition api_create (name : string) (cm : ConfigMap) : API unit := call (λ cms,
  match cms !! name with
  | Some _ => (inl ErrAlreadyExists, cms)
  | None => (inr tt, <[name := cm]> cms)
  end).
Definition api_update (name : string) (cm : ConfigMap) : API unit := call (λ cms,
  match cms !! name with
  | Some _ => (inr tt, <[name := cm]> cms)
  | None => (inl ErrNotFound, cms)
  end).
Definition api_delete (name : string) : API unit := call (λ cms,
  match cms !! name with
  | Some _ => (inr tt, delete name cms)
  | None => (inl ErrNotFound, cms)
  end).

(** ** Encoding *)

Definition second_ns : Z := 1000000000.

(** [metav1.Time] is marshalled as RFC 3339 without fractional seconds. *)
Definition json_time (t : Z) : Z := (t / second_ns * second_ns)%Z.
Definition json_entry (e : ImageEntry) : ImageEntry := set_NextRetryAt (json_time <$> NextRetryAt e) e.

(** [encode]; a nil entry is written as [null]. *)
Definition encode (state : gmap string (option ImageEntry)) : gmap string (option jsonEntry) :=
  option_map (λ e, mkJsonEntry (json_entry e) []) <$> state.

(** A state without nil entries, as the writers of ImageSet state hold it. *)
Definition all_set (state : gmap string ImageEntry) : gmap string (option ImageEntry) := Some <$> state.

(** [decodeGzipJSON]: the compressed key when present, else the plain one;
    neither leaves the (empty) value alone. *)
Definition decodeGzipJSON {A} `{Empty A} (gz plain : option (Payload A)) : apiErr + A :=
  match gz with
  | Some (POk v) => inr v
  | Some PBad => inl ErrOther
  | None =>
    match plain with
    | Some (POk v) => inr v
    | Some PBad => inl ErrOther
    | None => inr ∅
    end
  end.

(** [decode]; a JSON [null] entry is [None]. *)
Definition decode (cm : ConfigMap) : apiErr + gmap string (option ImageEntry) :=
  match decodeGzipJSON (cm_images_gz cm) (cm_images_plain cm) with
  | inl e => inl e
  | inr m => inr (option_map je_entry <$> m)
  end.

Definition decodeIndex (cm : ConfigMap) : apiErr + gmap string (list string) :=
  decodeGzipJSON (cm_index_gz cm) (cm_index_plain cm).

Definition liftE {A} (r : apiErr + A) : API A := λ c, (r, c).

(** ** Loading and saving *)

Definition FormatAnnotation : string := "mirror.openshift.io/imagestate-format".
Definition FormatPerImageSet : string := "v2".

Definition LoadByConfigMapName (cmName : string) : API (gmap string (option ImageEntry)) :=
  r ← attempt (api_get cmName);
  match r with
  | inl ErrNotFound => mret ∅
  | inl e => fail e
  | inr cm => liftE (decode cm)
  end.

Definition Load (imageSetName : string) : API (gmap string (option ImageEntry)) :=
  LoadByConfigMapName (ConfigMapName imageSetName).

Definition LoadForTarget (mtName : string) : API (gmap string (option ImageEntry)) :=
  LoadByConfigMapName (ConfigMapNameForTarget mtName).

Definition decodeDigests (cm : ConfigMap) : apiErr + gmap string string :=
  match cm_digests cm with
  | None => inr ∅
  | Some (POk d) => inr d
  | Some PBad => inl ErrOther
  end.

Definition LoadWithCatalogDigests (imageSetName : string)
    : API (gmap string (option ImageEntry) * gmap string string) :=
  r ← attempt (api_get (ConfigMapName imageSetName));
  match r with
  | inl ErrNotFound => mret (∅, ∅)
  | inl e => fail e
  | inr cm =>
    state ← liftE (decode cm);
    digests ← liftE (decodeDigests cm);
    mret (state, digests)
  end.

Definition state_cm (state : gmap string (option ImageEntry)) (digests : option (gmap string string))
    (owner : option string) : ConfigMap :=
  mkConfigMap {[FormatAnnotation := FormatPerImageSet]} (POk <$> digests)
    (Some (POk (encode state))) None None None ∅ owner.

Definition saveRaw (cmName : string) (state : gmap string (option ImageEntry))
    (digests : option (gmap string string)) (owner : option string) : API unit :=
  getErr ← attempt (api_get cmName);
  let cm := state_cm state digests owner in
  match getErr with
  | inl ErrNotFound => api_create cmName cm
  | inl e => fail e
  | inr _ => api_update cmName cm
  end.

Definition SaveRaw (cmName : string) (state : gmap string (option ImageEntry)) (owner : option string) : API unit :=
  saveRaw cmName state None owner.

Definition Save (imageSetName : string) (state : gmap string ImageEntry) (owner : option string) : API unit :=
  SaveRaw (ConfigMapName imageSetName) (all_set state) owner.

Definition SaveWithCatalogDigests (imageSetName : string) (state : gmap string ImageEntry)
    (digests : gmap string string) (owner : option string) : API unit :=
  saveRaw (ConfigMapName imageSetName) (all_set state)
    (if decide (digests = ∅) then None else Some digests) owner.

Definition LoadIndex (mtName : string) : API (gmap string (list string)) :=
  r ← attempt (api_get (IndexConfigMapName mtName));
  match r with
  | inl ErrNotFound => mret ∅
  | inl e => fail e
  | inr cm => liftE (decodeIndex cm)
  end.

Definition SaveIndex (mtName : string) (idx : gmap string (list string)) (owner : option string) : API unit :=
  let cmName := IndexConfigMapName mtName in
  if decide (idx = ∅) then
    r ← attempt (api_delete cmName);
    match r with
    | inl ErrNotFound | inr _ => mret tt
    | inl e => fail e
    end
  else
    let cm := mkConfigMap ∅ None None None (Some (POk idx)) None ∅ owner in
    getErr ← attempt (api_get cmName);
    match getErr with
    | inl ErrNotFound => api_create cmName cm
    | inl e => fail e
    | inr _ => api_update cmName cm
    end.

(** ** Migration of the consolidated ConfigMap *)

(** A map of only Ref-less, Origin-less entries, or an entry with refs. *)
Definition looksLegacy (entries : gmap string (option jsonEntry)) : bool :=
  let es := omap (λ '(_, oe), oe) (map_to_list entries) in
  existsb (λ e, negb (bool_decide (je_Refs e = []))) es
  || negb (existsb (λ e, negb (String.eqb (Origin (je_entry e)) "")) es).

(** The per-ImageSet entry of one reference; the fields the legacy format does
    not have take their zero value. *)
Definition migrate_entry (e : ImageEntry) (ref : legacyImageRef) : ImageEntry :=
  mkImageEntry (Source e) (State e) (LastError e) (RetryCount e) (lr_Origin ref) (lr_EntrySig ref)
    (lr_OriginRef ref) "" false (PermanentlyFailed e) None false "".

Definition migrate_ref (dest : string) (e : ImageEntry) (per : gmap string (gmap string ImageEntry))
    (ref : legacyImageRef) : gmap string (gmap string ImageEntry) :=
  <[lr_ImageSet ref := <[dest := migrate_entry e ref]> (default ∅ (per !! lr_ImageSet ref))]> per.

Definition migrate_dest (dest : string) (oe : option jsonEntry)
    (acc : gmap string (gmap string ImageEntry) * gmap string (list string))
    : gmap string (gmap string ImageEntry) * gmap string (list string) :=
  match oe with
  | None => acc
  | Some e =>
    if bool_decide (je_Refs e = []) then acc
    else
      let index := if bool_decide (1 < length (je_Refs e))
                   then <[dest := lr_ImageSet <$> je_Refs e]> (snd acc) else snd acc in
      (foldl (migrate_ref dest (je_entry e)) (fst acc) (je_Refs e), index)
  end.

Definition migrate_split (consolidated : gmap string (option jsonEntry))
    : gmap string (gmap string ImageEntry) * gmap string (list string) :=
  map_fold migrate_dest (∅, ∅) consolidated.

Fixpoint save_all (per : gmap string (gmap string ImageEntry)) (owner : option string)
    (ks : list string) : API unit :=
  match ks with
  | [] => mret tt
  | k :: ks => _ ← Save k (default ∅ (per !! k)) owner; save_all per owner ks
  end.

(** [order] is the order in which the loop over [perImageSet] visits its keys. *)
Definition MigrateConsolidatedToPerImageSet (mtName : string) (owner : option string)
    (order : gmap string (gmap string ImageEntry) → list string) : API unit :=
  r ← attempt (api_get (ConfigMapNameForTarget mtName));
  match r with
  | inl ErrNotFound => mret tt
  | inl e => fail e
  | inr cm =>
    if negb (String.eqb (default "" (cm_Annotations cm !! FormatAnnotation)) "") then mret tt
    else
      consolidated ← liftE (decodeGzipJSON (cm_images_gz cm) (cm_images_plain cm));
      if negb (looksLegacy consolidated) then mret tt
      else
        let '(perImageSet, index) := migrate_split consolidated in
        _ ← save_all perImageSet owner (order perImageSet);
        _ ← (if decide (index = ∅) then mret tt else SaveIndex mtName index owner);
        if bool_decide (is_Some (perImageSet !! mtName)) then mret tt
        else
          d ← attempt (api_delete (ConfigMapNameForTarget mtName));
          match d with
          | inl ErrNotFound | inr _ => mret tt
          | inl e => fail e
          end
  end.

(** ** The per-target summary (summary.go) *)

(** [Summary.ImageSets] is sorted by the caller. *)
Record Summary := mkSummary { s_ImageSets : list string; s_counts : counts }.

Definition summaryKeyImageSets : string := "imageSets".
Definition summaryKeyTotal : string := "total".
Definition summaryKeyMirrored : string := "mirrored".
Definition summaryKeyPending : string := "pending".
Definition summaryKeyFailed : string := "failed".

Definition summary_data (s : Summary) : gmap string string :=
  <[summaryKeyImageSets := Join (s_ImageSets s) ","]>
  (<[summaryKeyTotal := Itoa (c_total (s_counts s))]>
  (<[summaryKeyMirrored := Itoa (c_mirrored (s_counts s))]>
  (<[summaryKeyPending := Itoa (c_pending (s_counts s))]>
  (<[summaryKeyFailed := Itoa (c_failed (s_counts s))]> ∅)))).

Definition with_Data (d : gmap string string) (cm : ConfigMap) : ConfigMap :=
  mkConfigMap (cm_Annotations cm) (cm_digests cm) (cm_images_gz cm) (cm_images_plain cm)
    (cm_index_gz cm) (cm_index_plain cm) d (cm_owner cm).

Definition SaveSummary (mtName : string) (s : Summary) (owner : option string) : API unit :=
  let cmName := SummaryConfigMapName mtName in
  let data := summary_data s in
  r ← attempt (api_get cmName);
  match r with
  | inl ErrNotFound => api_create cmName (mkConfigMap ∅ None None None None None data owner)
  | inl e => fail e
  | inr existing =>
    if bool_decide (cm_Data existing = data) then mret tt
    else api_update cmName (with_Data data existing)
  end.

(** [strconv.Atoi(cm.Data[key])] *)
Definition summary_int (d : gmap string string) (key : string) : option Z := Atoi (default "" (d !! key)).

Definition parseSummary (d : gmap string string) : option Summary :=
  let sets := match d !! summaryKeyImageSets with
              | Some raw => if String.eqb raw "" then [] else Split "," raw
              | None => []
              end in
  match summary_int d summaryKeyTotal, summary_int d summaryKeyMirrored,
        summary_int d summaryKeyPending, summary_int d summaryKeyFailed with
  | Some t, Some m, Some p, Some f => Some (mkSummary sets (mkCounts t m p f))
  | _, _, _, _ => None
  end.

(** [None] is [ok = false]. *)
Definition LoadSummary (mtName : string) : API (option Summary) :=
  r ← attempt (api_get (SummaryConfigMapName mtName));
  match r with
  | inl ErrNotFound => mret None
  | inl e => fail e
  | inr cm => mret (parseSummary (cm_Data cm))
  end.

(** * Lemmas *)

(** ** Sequences of API calls *)

(** No call of the schedule fails. *)
Definition healthy (c : Cluster) : Prop := Forall (λ b, b = false) (cl_faults c).

Lemma liftE_bind {A B} (r : apiErr + A) (k : A → API B) c :
  (liftE r ≫= k) c = match r with inl e => (inl e, c) | inr a => k a c end.
Proof. by destruct r. Qed.

(** Every call either fails by the schedule and changes nothing, or runs. *)
Lemma call_cases {A} (f : gmap string ConfigMap → (apiErr + A) * gmap string ConfigMap) c :
  (call f c = (inl ErrOther, mkCluster (cl_cms c) (tail (cl_faults c))) ∧ ¬ healthy c) ∨
  call f c = (fst (f (cl_cms c)), mkCluster (snd (f (cl_cms c))) (tail (cl_faults c))).
Proof.
  unfold call, healthy. destruct (cl_faults c) as [|[] fs]; cbn;
    [right; by destruct (f _)|left; split; [done|by inversion 1]|right; by destruct (f _)].
Qed.

Lemma healthy_tail cms cms' fs : healthy (mkCluster cms fs) → healthy (mkCluster cms' (tail fs)).
Proof. unfold healthy; cbn. destruct 1; [constructor|done]. Qed.

Lemma call_healthy {A} (f : gmap string ConfigMap → (apiErr + A) * gmap string ConfigMap) c :
  healthy c →
  call f c = (fst (f (cl_cms c)), mkCluster (snd (f (cl_cms c))) (tail (cl_faults c))) ∧
  healthy (mkCluster (snd (f (cl_cms c))) (tail (cl_faults c))).
Proof.
  intros H. destruct (call_cases f c) as [[_ ?]|E]; [done|]. split; [done|].
  destruct c. by eapply healthy_tail.
Qed.

(** Reading never changes the store. *)
Lemma api_get_cms name c : cl_cms (snd (api_get name c)) = cl_cms c.
Proof.
  unfold api_get. destruct (call_cases (λ cms, match cms !! name with
    Some cm => (inr cm, cms) | None => (inl ErrNotFound, cms) end) c) as [[E _]|E]; rewrite E; [done|].
  cbn. by destruct (cl_cms c !! name).
Qed.

Lemma api_get_healthy name c :
  healthy c →
  fst (api_get name c) = match cl_cms c !! name with Some cm => inr cm | None => inl ErrNotFound end
  ∧ healthy (snd (api_get name c)).
Proof.
  intros H. unfold api_get. edestruct (call_healthy (λ cms : gmap string ConfigMap, match cms !! name with
    Some cm => (inr cm, cms) | None => (inl ErrNotFound, cms) end) c H) as [E Hh].
  rewrite E. cbn. split; [by destruct (_ !! name)|done].
Qed.

(** A write under get-then-create-or-update is atomic: it happened, or the
    store is as before. *)
Lemma upsert_cases name cm c :
  let r := (getErr ← attempt (api_get name);
            match getErr with
            | inl ErrNotFound => api_create name cm
            | inl e => fail e
            | inr _ => api_update name cm
            end) c in
  (fst r = inr tt ∧ cl_cms (snd r) = <[name := cm]> (cl_cms c)) ∨
  ((∃ e, fst r = inl e) ∧ cl_cms (snd r) = cl_cms c ∧ ¬ healthy c).
Proof.
  cbn. rewrite attempt_bind. pose proof (api_get_cms name c) as Hc.
  assert (Hh : healthy c → healthy (snd (api_get name c))) by apply api_get_healthy.
  unfold api_get, api_create, api_update, fail in *.
  destruct (call_cases (λ cms : gmap string ConfigMap, match cms !! name with
    Some cm => (inr cm, cms) | None => (inl ErrNotFound, cms) end) c) as [[E Hn]|E]; rewrite E in *; cbn in *.
  { right. naive_solver. }
  destruct (cl_cms c !! name) eqn:El; cbn in *;
    match goal with |- context [call ?f ?c'] => destruct (call_cases f c') as [[E2 Hn2]|E2]; rewrite E2 end;
    cbn; rewrite ?El; cbn; first [right; naive_solver | left; naive_solver].
Qed.

Lemma upsert_healthy name cm c :
  healthy c →
  healthy (snd ((getErr ← attempt (api_get name);
            match getErr with
            | inl ErrNotFound => api_create name cm
            | inl e => fail e
            | inr _ => api_update name cm
            end) c)).
Proof.
  intros H. rewrite attempt_bind. destruct (api_get_healthy name c H) as [E Hh]. rewrite E.
  destruct (_ !! name); [unfold api_update|unfold api_create];
    match goal with |- context [call ?f ?c'] => destruct (call_healthy f c' Hh) as [-> ?] end; done.
Qed.

Lemma saveRaw_cases name state digests owner c :
  (fst (saveRaw name state digests owner c) = inr tt ∧
   cl_cms (snd (saveRaw name state digests owner c)) = <[name := state_cm state digests owner]> (cl_cms c)) ∨
  ((∃ e, fst (saveRaw name state digests owner c) = inl e) ∧
   cl_cms (snd (saveRaw name state digests owner c)) = cl_cms c ∧ ¬ healthy c).
Proof. apply upsert_cases. Qed.

Lemma saveRaw_healthy name state digests owner c :
  healthy c →
  ∃ c', saveRaw name state digests owner c = (inr tt, c') ∧ healthy c' ∧
        cl_cms c' = <[name := state_cm state digests owner]> (cl_cms c).
Proof.
  intros H. exists (snd (saveRaw name state digests owner c)).
  split_and!.
  - destruct (saveRaw_cases name state digests owner c) as [[E _]|(_ & _ & ?)]; [|done].
    rewrite (surjective_pairing (saveRaw _ _ _ _ _)). by rewrite E.
  - by apply upsert_healthy.
  - destruct (saveRaw_cases name state digests owner c) as [[_ E]|(_ & _ & ?)]; done.
Qed.

(** ** Decoding what was encoded *)

Lemma decode_state_cm state digests owner :
  decode (state_cm state digests owner) = inr (option_map json_entry <$> state).
Proof.
  unfold decode. cbn. unfold encode. rewrite <- map_fmap_compose. f_equal.
  apply map_fmap_ext. by intros ? [e|] _.
Qed.

Lemma decode_state_cm_set state digests owner :
  decode (state_cm (all_set state) digests owner) = inr ((λ e, Some (json_entry e)) <$> state).
Proof. rewrite decode_state_cm. unfold all_set. by rewrite <- map_fmap_compose. Qed.

Lemma json_entry_idem e : json_entry (json_entry e) = json_entry e.
Proof.
  destruct e as [???????? ?? t ??]. unfold json_entry, set_NextRetryAt; cbn. f_equal.
  destruct t as [t|]; [|done]. cbn. f_equal. unfold json_time.
  by rewrite Z.div_mul by done.
Qed.

(** ** Counting *)

(** The three classes and how many entries are in each. *)
Definition isMirrored (e : ImageEntry) : bool := String.eqb (State e) "Mirrored".
Definition isFailed (e : ImageEntry) : bool := negb (isMirrored e) && PermanentlyFailed e.
Definition isPending (e : ImageEntry) : bool := negb (isMirrored e) && negb (PermanentlyFailed e).

Definition count_if (f : ImageEntry → bool) (m : gmap string ImageEntry) : Z :=
  Z.of_nat (size (filter (λ kv, f (snd kv) = true) m)).

Lemma count_if_insert f k e m :
  m !! k = None → count_if f (<[k:=e]> m) = ((if f e then 1 else 0) + count_if f m)%Z.
Proof.
  intros H. unfold count_if. destruct (f e) eqn:E.
  - rewrite map_filter_insert_True by done. rewrite map_size_insert_None; [lia|].
    rewrite map_lookup_filter, H. done.
  - rewrite map_filter_insert_not'; [lia|cbn; congruence|]. intros y Hy. congruence.
Qed.

Lemma map_fold_count_entry m c :
  map_fold (λ _, count_entry) c m =
    mkCounts (c_total c) (c_mirrored c + count_if isMirrored m)
      (c_pending c + count_if isPending m) (c_failed c + count_if isFailed m).
Proof.
  induction m as [|k e m Hk IH] using map_ind.
  - unfold count_if. rewrite map_fold_empty, !map_filter_empty, map_size_empty. destruct c; cbn.
    f_equal; lia.
  - rewrite map_fold_insert_L; [|intros|done].
    2:{ unfold count_entry. repeat case_match; cbn; f_equal; lia. }
    rewrite IH. rewrite !count_if_insert by done. unfold count_entry, isFailed, isPending.
    change (String.eqb (State e) "Mirrored") with (isMirrored e).
    destruct (isMirrored e), (PermanentlyFailed e); cbn; f_equal; lia.
Qed.

Lemma count_if_partition m :
  (count_if isMirrored m + count_if isPending m + count_if isFailed m = Z.of_nat (size m))%Z.
Proof.
  induction m as [|k e m Hk IH] using map_ind; [done|].
  rewrite !count_if_insert, map_size_insert_None, Nat2Z.inj_succ by done.
  unfold isPending at 1, isFailed at 1. destruct (isMirrored e), (PermanentlyFailed e); cbn [negb andb]; lia.
Qed.

(** ** What the migration splits *)

(** The last reference of [n] in [refs]: a later reference of the same
    ImageSet overwrites an earlier one. *)
Definition last_ref (n : string) (refs : list legacyImageRef) : option legacyImageRef :=
  last (filter (λ r, lr_ImageSet r = n) refs).

Lemma foldl_migrate_ref dest e refs per n d :
  foldl (migrate_ref dest e) per refs !! n ≫= (.!! d) =
    match last_ref n refs with
    | Some r => if decide (d = dest) then Some (migrate_entry e r) else per !! n ≫= (.!! d)
    | None => per !! n ≫= (.!! d)
    end.
Proof.
  unfold last_ref. induction refs as [|r refs IH] using rev_ind; [done|].
  rewrite foldl_app. cbn [foldl]. rewrite filter_app. unfold migrate_ref at 1.
  destruct (decide (lr_ImageSet r = n)) as [<-|Hne].
  - rewrite filter_cons_True, filter_nil, last_snoc by done. rewrite lookup_insert_eq. cbn.
    case_decide; subst; [by rewrite lookup_insert_eq|]. rewrite lookup_insert_ne by done.
    transitivity (foldl (migrate_ref dest e) per refs !! lr_ImageSet r ≫= (.!! d)).
    { by destruct (foldl _ _ _ !! _). }
    rewrite IH. by destruct (last _).
  - rewrite lookup_insert_ne by done. rewrite filter_cons_False, filter_nil, app_nil_r by done.
    exact IH.
Qed.

Lemma migrate_split_spec consolidated :
  (∀ n d, fst (migrate_split consolidated) !! n ≫= (.!! d) =
    (oe ← consolidated !! d; e ← oe; migrate_entry (je_entry e) <$> last_ref n (je_Refs e))) ∧
  (∀ d, snd (migrate_split consolidated) !! d =
    (oe ← consolidated !! d; e ← oe;
     if bool_decide (1 < length (je_Refs e)) then Some (lr_ImageSet <$> je_Refs e) else None)).
Proof.
  unfold migrate_split.
  apply (map_fold_weak_ind (λ acc m, (∀ n d, fst acc !! n ≫= (.!! d) =
    (oe ← m !! d; e ← oe; migrate_entry (je_entry e) <$> last_ref n (je_Refs e))) ∧
    (∀ d, snd acc !! d = (oe ← m !! d; e ← oe;
     if bool_decide (1 < length (je_Refs e)) then Some (lr_ImageSet <$> je_Refs e) else None)))).
  { split; intros; cbn; by rewrite !lookup_empty. }
  intros dest oe m [per idx] Hm [IH1 IH2]. cbn in IH1, IH2.
  split; [intros n d|intros d]; destruct (decide (d = dest)) as [->|Hne].
  - rewrite lookup_insert_eq. specialize (IH1 n dest). rewrite Hm in IH1. cbn in IH1.
    destruct oe as [e|]; [|done]. cbn. case_bool_decide as Hr; cbn.
    + by rewrite Hr.
    + rewrite foldl_migrate_ref. destruct (last_ref n (je_Refs e)); [by rewrite decide_True|done].
  - rewrite lookup_insert_ne by done. rewrite <- IH1.
    destruct oe as [e|]; [|done]. cbn. case_bool_decide; [done|]. cbn.
    rewrite foldl_migrate_ref. destruct (last_ref _ _); [by rewrite decide_False|done].
  - rewrite lookup_insert_eq. specialize (IH2 dest). rewrite Hm in IH2. cbn in *.
    destruct oe as [e|]; [|done]. cbn. case_bool_decide as Hr; cbn.
    + by rewrite Hr.
    + case_bool_decide; [by rewrite lookup_insert_eq|done].
  - rewrite lookup_insert_ne by done. rewrite <- IH2.
    destruct oe as [e|]; [|done]. cbn. case_bool_decide; [done|]. cbn.
    case_bool_decide; [by rewrite lookup_insert_ne|done].
Qed.

Lemma ConfigMapName_inj n1 n2 : ConfigMapName n1 = ConfigMapName n2 → n1 = n2.
Proof.
  unfold ConfigMapName. revert n2.
  assert (Hl : ∀ s : string, String.length (s +:+ "-images") = String.length s + 7).
  { intros s. induction s as [|c s IH]; [done|]. rewrite app_cons_s. cbn. by rewrite IH. }
  induction n1 as [|c n1 IH]; intros [|c2 n2] E; [done|..].
  - apply (f_equal String.length) in E. rewrite !Hl in E. cbn in E. lia.
  - apply (f_equal String.length) in E. rewrite !Hl in E. cbn in E. lia.
  - rewrite !app_cons_s in E. injection E as -> E. f_equal. by apply IH.
Qed.

(** The store after [save_all], when no call fails. *)
Lemma save_all_healthy per owner ks c :
  healthy c → NoDup ks →
  ∃ c', save_all per owner ks c = (inr tt, c') ∧ healthy c' ∧
    (∀ k, k ∈ ks → cl_cms c' !! ConfigMapName k = Some (state_cm (all_set (default ∅ (per !! k))) None owner)) ∧
    (∀ name, (∀ k, k ∈ ks → name ≠ ConfigMapName k) → cl_cms c' !! name = cl_cms c !! name).
Proof.
  revert c. induction ks as [|k ks IH]; intros c Hc Hnd; inversion_clear Hnd as [|?? Hk Hnd'].
  - exists c. split_and!; [done|done|set_solver|done].
  - destruct (saveRaw_healthy (ConfigMapName k) (all_set (default ∅ (per !! k))) None owner c Hc)
      as (c1 & E1 & Hc1 & S1).
    destruct (IH c1 Hc1 Hnd') as (c2 & E2 & Hc2 & S2 & O2).
    exists c2. split_and!; [|done| |].
    + cbn [save_all]. rewrite (bind_inr _ _ _ _ _ E1). exact E2.
    + intros k' [->|Hk']%elem_of_cons; [|by apply S2].
      rewrite O2, S1 by (intros k'' ? ?%ConfigMapName_inj; congruence). by rewrite lookup_insert_eq.
    + intros name Hn. rewrite O2 by set_solver. rewrite S1, lookup_insert_ne; [done|set_solver].
Qed.

Lemma SaveIndex_healthy mt idx owner c :
  healthy c → idx ≠ ∅ →
  ∃ c', SaveIndex mt idx owner c = (inr tt, c') ∧ healthy c' ∧
    cl_cms c' = <[IndexConfigMapName mt := mkConfigMap ∅ None None None (Some (POk idx)) None ∅ owner]> (cl_cms c).
Proof.
  intros Hc Hi. unfold SaveIndex. rewrite decide_False by done.
  match goal with |- context [mbind ?k (attempt (api_get ?n)) c] =>
    pose proof (upsert_cases n (mkConfigMap ∅ None None None (Some (POk idx)) None ∅ owner) c) as H;
    pose proof (upsert_healthy n (mkConfigMap ∅ None None None (Some (POk idx)) None ∅ owner) c Hc) as Hh
  end.
  cbn zeta in H. destruct H as [[E1 E2]|(_ & _ & ?)]; [|done].
  eexists. split_and!; [|exact Hh|exact E2].
  rewrite <- E1. apply surjective_pairing.
Qed.

Lemma ConfigMapName_index_ne n mt : ConfigMapName n ≠ IndexConfigMapName mt.
Proof.
  unfold ConfigMapName, IndexConfigMapName. intros Eq.
  apply (f_equal (cut_last "-")) in Eq. change "-images-index" with ("-images" +:+ "-index") in Eq.
  rewrite app_assoc_s in Eq. change "-images" with (String "-" "images") in Eq at 1.
  change "-index" with (String "-" "index") in Eq.
  by rewrite !cut_last_char_app in Eq by done.
Qed.

(** A run that gets to the split. *)
Lemma Migrate_legacy_run mt owner order c cm consolidated :
  healthy c → cl_cms c !! ConfigMapNameForTarget mt = Some cm →
  default "" (cm_Annotations cm !! FormatAnnotation) = "" →
  decodeGzipJSON (cm_images_gz cm) (cm_images_plain cm) = inr consolidated →
  looksLegacy consolidated = true →
  let per := fst (migrate_split consolidated) in
  range_order per (order per) →
  ∃ c', MigrateConsolidatedToPerImageSet mt owner order c = (inr tt, c') ∧ healthy c' ∧
    (∀ k st, per !! k = Some st → cl_cms c' !! ConfigMapName k = Some (state_cm (all_set st) None owner)) ∧
    (per !! mt = None → cl_cms c' !! ConfigMapNameForTarget mt = None).
Proof.
  intros Hc Hcm Ha Hd Hl per [Hnd Hin]. unfold MigrateConsolidatedToPerImageSet.
  rewrite attempt_bind. destruct (api_get_healthy (ConfigMapNameForTarget mt) c Hc) as [E Hc1].
  rewrite E, Hcm, Ha, Hd. cbn [String.eqb negb]. rewrite liftE_bind, Hl. cbn [negb].
  destruct (migrate_split consolidated) as [per' idx] eqn:Esp. cbn in per. subst per.
  destruct (save_all_healthy per' owner (order per') _ Hc1 Hnd) as (c2 & E2 & Hc2 & S2 & O2).
  rewrite (bind_inr _ _ _ _ _ E2).
  assert (∃ c3, (if decide (idx = ∅) then mret tt else SaveIndex mt idx owner) c2 = (inr tt, c3) ∧
    healthy c3 ∧ ∀ name, name ≠ IndexConfigMapName mt → cl_cms c3 !! name = cl_cms c2 !! name)
    as (c3 & E3 & Hc3 & S3).
  { case_decide; [by exists c2|]. destruct (SaveIndex_healthy mt idx owner c2) as (c3 & ? & ? & E4); [done..|].
    exists c3. split_and!; [done..|]. intros. by rewrite E4, lookup_insert_ne. }
  rewrite (bind_inr _ _ _ _ _ E3).
  pose proof (λ n, ConfigMapName_index_ne n mt) as Hne.
  assert (Hper : ∀ k st, per' !! k = Some st →
    cl_cms c3 !! ConfigMapName k = Some (state_cm (all_set st) None owner)).
  { intros k st Hk. rewrite S3 by done. rewrite S2 by (apply Hin; eauto). by rewrite Hk. }
  case_bool_decide as Hmt.
  - exists c3. split_and!; [done..|]. intros Hn. rewrite Hn in Hmt. by destruct Hmt.
  - apply eq_None_not_Some in Hmt. rewrite attempt_bind. unfold api_delete.
    match goal with |- context [call ?f c3] => destruct (call_healthy f c3 Hc3) as [E5 Hc5] end.
    rewrite E5. cbn in *. destruct (cl_cms c3 !! ConfigMapNameForTarget mt) eqn:E6; cbn in *;
      (eexists; split_and!; [reflexivity|exact Hc5| |]).
    + intros k st Hk. cbn. rewrite lookup_delete_ne; [by apply Hper|].
      change (ConfigMapNameForTarget mt) with (ConfigMapName mt). intros ?%ConfigMapName_inj. congruence.
    + intros _. cbn. by rewrite lookup_delete_eq.
    + exact Hper.
    + done.
Qed.

(** An entry with a reference makes the map a legacy one. *)
Lemma looksLegacy_refs consolidated d e n r :
  consolidated !! d = Some (Some e) → last_ref n (je_Refs e) = Some r → looksLegacy consolidated = true.
Proof.
  intros He Hr. unfold looksLegacy. apply orb_true_iff. left. apply existsb_elem. exists e. split.
  - apply list_elem_of_omap. exists (d, Some e). by rewrite elem_of_map_to_list.
  - destruct (je_Refs e); [by cbv in Hr|done].
Qed.

(** Nothing for the migration to do: the ConfigMap is absent, of the current
    format, undecodable or not of the legacy shape. *)
Definition migrate_settled (mt : string) (c : Cluster) : Prop :=
  match cl_cms c !! ConfigMapNameForTarget mt with
  | None => True
  | Some cm =>
    default "" (cm_Annotations cm !! FormatAnnotation) ≠ "" ∨
    (∃ e, decodeGzipJSON (cm_images_gz cm) (cm_images_plain cm) = inl e) ∨
    (∃ m, decodeGzipJSON (cm_images_gz cm) (cm_images_plain cm) = inr m ∧ looksLegacy m = false)
  end.

Lemma Migrate_settled_noop mt owner order c :
  healthy c → migrate_settled mt c →
  cl_cms (snd (MigrateConsolidatedToPerImageSet mt owner order c)) = cl_cms c ∧
  healthy (snd (MigrateConsolidatedToPerImageSet mt owner order c)).
Proof.
  intros Hc Hs. unfold MigrateConsolidatedToPerImageSet, migrate_settled in *.
  rewrite attempt_bind. destruct (api_get_healthy (ConfigMapNameForTarget mt) c Hc) as [E Hh].
  pose proof (api_get_cms (ConfigMapNameForTarget mt) c) as Hcms.
  rewrite E. destruct (cl_cms c !! _) as [cm|]; [|done].
  destruct (String.eqb_spec (default "" (cm_Annotations cm !! FormatAnnotation)) "") as [Ha|Ha]; [|done].
  cbn [negb]. destruct Hs as [?|[[e He]|(m & Hm & Hl)]]; [done|..]; rewrite liftE_bind.
  - by rewrite He.
  - by rewrite Hm, Hl.
Qed.

Lemma Migrate_settles mt owner order c :
  healthy c → (∀ m : gmap string (gmap string ImageEntry), range_order m (order m)) →
  healthy (snd (MigrateConsolidatedToPerImageSet mt owner order c)) ∧
  migrate_settled mt (snd (MigrateConsolidatedToPerImageSet mt owner order c)).
Proof.
  intros Hc Ho.
  assert (Hset : migrate_settled mt c → healthy (snd (MigrateConsolidatedToPerImageSet mt owner order c)) ∧
    migrate_settled mt (snd (MigrateConsolidatedToPerImageSet mt owner order c))).
  { intros Hs. destruct (Migrate_settled_noop mt owner order c Hc Hs) as [E ?].
    split; [done|]. unfold migrate_settled. by rewrite E. }
  destruct (cl_cms c !! ConfigMapNameForTarget mt) as [cm|] eqn:Ecm;
    [|apply Hset; unfold migrate_settled; by rewrite Ecm].
  destruct (decide (default "" (cm_Annotations cm !! FormatAnnotation) = "")) as [Ha|Ha];
    [|apply Hset; unfold migrate_settled; rewrite Ecm; by left].
  destruct (decodeGzipJSON (cm_images_gz cm) (cm_images_plain cm)) as [e|m] eqn:Ed;
    [apply Hset; unfold migrate_settled; rewrite Ecm; eauto|].
  destruct (looksLegacy m) eqn:El; [|apply Hset; unfold migrate_settled; rewrite Ecm; eauto].
  destruct (Migrate_legacy_run mt owner order c cm m) as (c' & E & Hh & Hs & Hdel); [done..|apply Ho|].
  rewrite E. cbn. split; [done|]. unfold migrate_settled.
  destruct (fst (migrate_split m) !! mt) as [st|] eqn:Est.
  - change (ConfigMapNameForTarget mt) with (ConfigMapName mt). rewrite (Hs _ _ Est). by left.
  - by rewrite Hdel.
Qed.

(** ** The summary document *)

Lemma SaveSummary_stored mt s owner c :
  fst (SaveSummary mt s owner c) = inr tt →
  ∃ cm, cl_cms (snd (SaveSummary mt s owner c)) !! SummaryConfigMapName mt = Some cm ∧
        cm_Data cm = summary_data s.
Proof.
  unfold SaveSummary. rewrite attempt_bind.
  pose proof (api_get_cms (SummaryConfigMapName mt) c) as Hc.
  unfold api_get, api_create, api_update in *.
  destruct (call_cases (λ cms : gmap string ConfigMap, match cms !! SummaryConfigMapName mt with
    Some cm => (inr cm, cms) | None => (inl ErrNotFound, cms) end) c) as [[E _]|E]; rewrite E in *; cbn in *;
    [done|].
  destruct (cl_cms c !! SummaryConfigMapName mt) as [cm|] eqn:El; cbn in *.
  - case_bool_decide; [intros _; cbn; rewrite El; eauto|].
    match goal with |- context [call ?f ?c'] => destruct (call_cases f c') as [[E2 _]|E2]; rewrite E2 end;
      cbn; rewrite ?El; cbn; [done|]. intros _. rewrite lookup_insert_eq. eauto.
  - match goal with |- context [call ?f ?c'] => destruct (call_cases f c') as [[E2 _]|E2]; rewrite E2 end;
      cbn; rewrite ?El; cbn; [done|]. intros _. rewrite lookup_insert_eq. eauto.
Qed.

Lemma parseSummary_data s :
  Forall (λ n, has_char "," n = false ∧ n ≠ "") (s_ImageSets s) →
  Forall (λ z, min_int64 ≤ z ≤ max_int64)%Z
    [c_total (s_counts s); c_mirrored (s_counts s); c_pending (s_counts s); c_failed (s_counts s)] →
  parseSummary (summary_data s) = Some s.
Proof.
  intros Hn Hz. repeat (apply Forall_cons in Hz as [? Hz]).
  unfold parseSummary, summary_int, summary_data.
  repeat first [rewrite lookup_insert_eq | rewrite lookup_insert_ne by done].
  cbn [from_option id]. rewrite !Atoi_Itoa by done. destruct s as [sets [t m p f]]; cbn in *.
  do 2 f_equal. destruct (String.eqb_spec (Join sets ",") "") as [Ej|Ej].
  - destruct sets as [|n [|n' sets]]; [done|..]; apply Forall_cons in Hn as [[_ Hn] _]; cbn in Ej;
      by destruct n.
  - apply Split_Join; [by destruct sets|]. eapply Forall_impl; [exact Hn|]. by intros ? [? _].
Qed.

(** * Properties *)

(** [Counts] partitions the state: each class holds exactly the entries
    its case of the switch selects, and the three classes add up to the total
    number of images. *)
Theorem Counts_partition state :
  Counts state = mkCounts (Z.of_nat (size state)) (count_if isMirrored state)
                   (count_if isPending state) (count_if isFailed state) ∧
  (c_mirrored (Counts state) + c_pending (Counts state) + c_failed (Counts state) = c_total (Counts state))%Z.
Proof.
  unfold Counts. rewrite map_fold_count_entry. cbn. split; [done|]. apply count_if_partition.
Qed.

(** Saving an ImageSet's state is all or nothing, and what was saved is
    what is loaded.  Whatever calls fail: when
    [SaveWithCatalogDigests] returns an error the store is unchanged; when it
    succeeds, a later load that is not itself interrupted returns the same
    entries (retry times cut to whole seconds) together with the catalog
    digests written in the same update. *)
Theorem SaveWithCatalogDigests_Load n state digests owner c :
  let r := SaveWithCatalogDigests n state digests owner c in
  ((∃ e, fst r = inl e) ∧ cl_cms (snd r) = cl_cms c) ∨
  (fst r = inr tt ∧
   ∀ c', cl_cms c' = cl_cms (snd r) → healthy c' →
     fst (LoadWithCatalogDigests n c') = inr ((λ e, Some (json_entry e)) <$> state, digests)).
Proof.
  cbn zeta. unfold SaveWithCatalogDigests.
  set (dg := if decide (digests = ∅) then None else Some digests).
  destruct (saveRaw_cases (ConfigMapName n) (all_set state) dg owner c) as [[E1 E2]|(E1 & E2 & _)]; [right|by left].
  split; [done|]. intros c' Hc' Hh. unfold LoadWithCatalogDigests. rewrite attempt_bind.
  destruct (api_get_healthy (ConfigMapName n) c' Hh) as [-> _].
  rewrite Hc', E2, lookup_insert_eq, !liftE_bind, decode_state_cm_set.
  unfold decodeDigests, dg. cbn. by case_decide; subst.
Qed.

(** The per-target summary survives the round trip through its ConfigMap:
    after a successful [SaveSummary] (whatever the ConfigMap held before, and
    also when the write was skipped as unchanged), [LoadSummary] returns the
    same ImageSet names and counts. *)
Theorem SaveSummary_LoadSummary mt s owner c :
  Forall (λ n, has_char "," n = false ∧ n ≠ "") (s_ImageSets s) →
  Forall (λ z, min_int64 ≤ z ≤ max_int64)%Z
    [c_total (s_counts s); c_mirrored (s_counts s); c_pending (s_counts s); c_failed (s_counts s)] →
  fst (SaveSummary mt s owner c) = inr tt →
  ∀ c', cl_cms c' = cl_cms (snd (SaveSummary mt s owner c)) → healthy c' →
  fst (LoadSummary mt c') = inr (Some s).
Proof.
  intros Hn Hz Hok c' Hc' Hh.
  assert (∃ cm, cl_cms c' !! SummaryConfigMapName mt = Some cm ∧ cm_Data cm = summary_data s)
    as (cm & Hcm & Hd) by (rewrite Hc'; by apply SaveSummary_stored).
  unfold LoadSummary. rewrite attempt_bind.
  destruct (api_get_healthy (SummaryConfigMapName mt) c' Hh) as [-> _]. rewrite Hcm. cbn.
  rewrite Hd. do 2 f_equal. by apply parseSummary_data.
Qed.

Lemma SaveSummary_LoadSummary_witness :
  let s := mkSummary ["is-a"; "is-b"] (mkCounts 12 7 4 1) in
  let c := mkCluster ∅ [false; false] in
  fst (LoadSummary "mt" (snd (SaveSummary "mt" s None c))) = inr (Some s).
Proof.
  intros s c.
  apply (SaveSummary_LoadSummary "mt" s None c); try done.
  - by repeat constructor.
  - unfold min_int64, max_int64; repeat constructor; cbn; lia.
  - constructor.
Defined.

(** The migration to per-ImageSet ConfigMaps loses no reference: when no
    API call fails and a legacy consolidated ConfigMap is present, every
    entry is found, for each ImageSet that references it, in that ImageSet's
    own ConfigMap with its mirroring state, error, retry budget and the
    labels of that ImageSet's (last) reference. *)
Theorem Migrate_preserves_references mt owner order c cm consolidated d e n r :
  healthy c → cl_cms c !! ConfigMapNameForTarget mt = Some cm →
  default "" (cm_Annotations cm !! FormatAnnotation) = "" →
  decodeGzipJSON (cm_images_gz cm) (cm_images_plain cm) = inr consolidated →
  (∀ m : gmap string (gmap string ImageEntry), range_order m (order m)) →
  consolidated !! d = Some (Some e) → last_ref n (je_Refs e) = Some r →
  ∃ m, fst (Load n (snd (MigrateConsolidatedToPerImageSet mt owner order c))) = inr m ∧
       m !! d = Some (Some (migrate_entry (je_entry e) r)).
Proof.
  intros Hc Hcm Ha Hd Ho He Hr.
  assert (Hl : looksLegacy consolidated = true) by by eapply looksLegacy_refs.
  destruct (Migrate_legacy_run mt owner order c cm consolidated) as (c' & E & Hh & Hs & _);
    [done..|apply Ho|].
  pose proof (proj1 (migrate_split_spec consolidated) n d) as Hsp.
  rewrite He in Hsp. cbn in Hsp. rewrite Hr in Hsp.
  destruct (fst (migrate_split consolidated) !! n) as [st|] eqn:Est; [|done]. cbn in Hsp.
  rewrite E. cbn. unfold Load, LoadByConfigMapName. rewrite attempt_bind.
  destruct (api_get_healthy (ConfigMapName n) c' Hh) as [-> _]. rewrite (Hs _ _ Est).
  unfold liftE. cbn [fst]. rewrite decode_state_cm_set. eexists. split; [done|]. by rewrite lookup_fmap, Hsp.
Qed.

(** The migration is idempotent: run again (as on every manager start),
    it changes nothing, and in particular it does not delete the ConfigMap of
    an ImageSet that is named like its MirrorTarget. *)
Theorem Migrate_idempotent mt owner order c :
  healthy c → (∀ m : gmap string (gmap string ImageEntry), range_order m (order m)) →
  let c1 := snd (MigrateConsolidatedToPerImageSet mt owner order c) in
  cl_cms (snd (MigrateConsolidatedToPerImageSet mt owner order c1)) = cl_cms c1.
Proof.
  intros Hc Ho c1.
  assert (healthy c1 ∧ migrate_settled mt c1) as [Hh Hset].
  { subst c1. by apply Migrate_settles. }
  by apply Migrate_settled_noop.
Qed.

(** A consolidated ConfigMap with one image that two ImageSets reference, one
    of them named like the MirrorTarget. *)
Definition legacy_entry : jsonEntry :=
  mkJsonEntry (mkImageEntry "quay.io/a:1" "Failed" "denied" 3 "" "" "" "" false true None false "")
    [mkLegacyRef "mt" "release" "s1" "r1"; mkLegacyRef "other" "operator" "s2" "r2"].

Definition legacy_example : gmap string (option jsonEntry) := {["reg/a:1" := Some legacy_entry]}.

Definition legacy_cluster : Cluster :=
  mkCluster {[ConfigMapNameForTarget "mt" :=
    mkConfigMap ∅ None (Some (POk legacy_example)) None None None ∅ None]} [].

Lemma Migrate_preserves_references_witness :
  ∃ m, fst (Load "other" (snd (MigrateConsolidatedToPerImageSet "mt" None some_order legacy_cluster))) = inr m ∧
    m !! "reg/a:1" = Some (Some
      (mkImageEntry "quay.io/a:1" "Failed" "denied" 3 "operator" "s2" "r2" "" false true None false "")).
Proof.
  eapply (Migrate_preserves_references "mt" None some_order legacy_cluster _ _ "reg/a:1" legacy_entry
    "other" (mkLegacyRef "other" "operator" "s2" "r2"));
    [constructor|reflexivity|reflexivity|reflexivity|intros; apply some_order_ok|reflexivity|reflexivity].
Defined.

Lemma Migrate_idempotent_witness :
  cl_cms (snd (MigrateConsolidatedToPerImageSet "mt" None some_order
    (snd (MigrateConsolidatedToPerImageSet "mt" None some_order legacy_cluster))))
  = cl_cms (snd (MigrateConsolidatedToPerImageSet "mt" None some_order legacy_cluster)).
Proof.
  apply (Migrate_idempotent "mt" None some_order legacy_cluster);
    [constructor|intros; apply some_order_ok].
Defined.
