(* ===== verification/Owners.v ===== *)
(** * Ownership of destinations and merging of resolved state

    pkg/mirror/manager/owner_meta.go and the state-merging half of
    pkg/mirror/manager/manager_resolve.go.  A destination in the manager's
    working set belongs to the ImageSets listed in [owners]; what each of them
    knows about it (its spec metadata) is kept in [ownerMeta].

    The working set holds no nil entry: nil entries can only come from a JSON
    [null] in a state ConfigMap and are skipped when it is loaded. *)
From S2P Require Import Prelude Effects GoStrings ImageRef ImageState.

Definition stateMirrored : string := "Mirrored".
Definition statePending : string := "Pending".
Definition stateFailed : string := "Failed".

(** ** Owners *)

Definition owners_of (owners : gmap string (list string)) (dest : string) : list string :=
  default [] (owners !! dest).

Definition hasOwner (owners : gmap string (list string)) (dest isName : string) : bool :=
  existsb (String.eqb isName) (owners_of owners dest).

Definition onlyOwner (owners : gmap string (list string)) (dest isName : string) : bool :=
  forallb (String.eqb isName) (owners_of owners dest).

Definition addOwner (dest isName : string) (owners : gmap string (list string))
    : gmap string (list string) :=
  if hasOwner owners dest isName then owners
  else <[dest := owners_of owners dest ++ [isName]]> owners.

(** [removeOwner]: the new map and whether the name was present. *)
Definition removeOwner (dest isName : string) (owners : gmap string (list string))
    : gmap string (list string) * bool :=
  let out := List.filter (λ n, negb (String.eqb n isName)) (owners_of owners dest) in
  if negb (hasOwner owners dest isName) then (owners, false)
  else if bool_decide (out = []) then (delete dest owners, true)
  else (<[dest := out]> owners, true).

(** ** Spec metadata per owner (owner_meta.go) *)

Record specMeta := mkSpecMeta {
  sm_Origin : string;
  sm_EntrySig : string;
  sm_OriginRef : string;
  sm_Catalog : string;
  sm_IsBundleImage : bool;
}.

#[export] Instance specMeta_eq_dec : EqDecision specMeta.
Proof. solve_decision. Defined.

Definition specMetaOf (e : ImageEntry) : specMeta :=
  mkSpecMeta (Origin e) (EntrySig e) (OriginRef e) (Catalog e) (IsBundleImage e).

Definition applyTo (s : specMeta) (e : ImageEntry) : ImageEntry :=
  set_IsBundleImage (sm_IsBundleImage s)
    (set_Labels (sm_Origin s) (sm_EntrySig s) (sm_OriginRef s) (sm_Catalog s) e).

Definition meta_of (ownerMeta : gmap string (gmap string specMeta)) (dest isName : string) : option specMeta :=
  ownerMeta !! dest ≫= (.!! isName).

Definition ownerView (ownerMeta : gmap string (gmap string specMeta)) (dest isName : string)
    (entry : ImageEntry) : ImageEntry :=
  match meta_of ownerMeta dest isName with
  | Some meta => applyTo meta entry
  | None => entry
  end.

Definition setOwnerMeta (dest isName : string) (meta : specMeta)
    (ownerMeta : gmap string (gmap string specMeta)) : gmap string (gmap string specMeta) :=
  <[dest := <[isName := meta]> (default ∅ (ownerMeta !! dest))]> ownerMeta.

(** Storing a per-owner map, deleting the destination when it is empty. *)
Definition put_or_delete (dest : string) (perOwner : gmap string specMeta)
    (ownerMeta : gmap string (gmap string specMeta)) : gmap string (gmap string specMeta) :=
  if decide (perOwner = ∅) then delete dest ownerMeta else <[dest := perOwner]> ownerMeta.

Definition recordOwnerMeta (isName : string) (resolved : gmap string ImageEntry)
    (ownerMeta : gmap string (gmap string specMeta)) : gmap string (gmap string specMeta) :=
  let ownerMeta := map_fold (λ dest perOwner om,
      if bool_decide (is_Some (resolved !! dest)) then om
      else put_or_delete dest (delete isName perOwner) om) ownerMeta ownerMeta in
  map_fold (λ dest entry om, setOwnerMeta dest isName (specMetaOf entry) om) ownerMeta resolved.

Definition pruneOwnerMeta (owners : gmap string (list string)) (dest : string)
    (ownerMeta : gmap string (gmap string specMeta)) : gmap string (gmap string specMeta) :=
  match ownerMeta !! dest with
  | None => ownerMeta
  | Some perOwner =>
    put_or_delete dest (filter (λ kv, hasOwner owners dest (fst kv) = true) perOwner) ownerMeta
  end.

Definition filterByImageSet (state : gmap string ImageEntry) (owners : gmap string (list string))
    (ownerMeta : gmap string (gmap string specMeta)) (isName : string) : gmap string ImageEntry :=
  map_imap (λ dest entry,
    if hasOwner owners dest isName then Some (ownerView ownerMeta dest isName entry) else None) state.

(** ** Building a resolved state *)

Definition bundle_label (originRef bundleRef : string) : string :=
  if String.eqb bundleRef "" then originRef else originRef +:+ " — " +:+ bundleRef.

Definition zeroEntry : ImageEntry :=
  mkImageEntry "" "" "" 0 "" "" "" "" false false None false "".

(** The entry [mergeIntoStateWithSig] stores for one image. *)
Definition merged_entry (img : TargetImage) (origin sig originRef : string)
    (prev : gmap string ImageEntry) : ImageEntry :=
  let entry := mkImageEntry (ti_Source img) "Pending" "" 0 origin sig
                 (bundle_label originRef (ti_BundleRef img)) "" (ti_IsBundleImage img) false None false "" in
  match prev !! ti_Destination img with
  | None => entry
  | Some existing =>
    if String.eqb (Origin existing) origin || String.eqb (Origin existing) "" then
      let entry := if Contains (Source entry) "," && negb (Contains (Source existing) ",")
                   then set_Source (Source existing) entry else entry in
      let sigChanged := String.eqb origin OriginHelmChart && negb (String.eqb (EntrySig existing) "")
                        && negb (String.eqb (EntrySig existing) sig) in
      if String.eqb (State existing) "Mirrored" && negb sigChanged
      then set_LastError (LastError existing) (set_RetryCount (RetryCount existing) (set_State (State existing) entry))
      else entry
    else entry
  end.

Definition mergeIntoStateWithSig (dst : gmap string ImageEntry) (images : list TargetImage)
    (origin sig originRef : string) (prev : gmap string ImageEntry) : gmap string ImageEntry :=
  foldl (λ dst img, <[ti_Destination img := merged_entry img origin sig originRef prev]> dst) dst images.

(** The copy [carryOverHelmEntries] makes of an entry in its scope. *)
Definition helm_carry (origin originRef : string) (entry : ImageEntry) : option ImageEntry :=
  if negb (String.eqb (Origin entry) origin) then None
  else if negb (String.eqb (OriginRef entry) "") && negb (HasPrefix (OriginRef entry) originRef) then None
  else Some (if String.eqb (OriginRef entry) ""
             then set_Labels (Origin entry) (EntrySig entry) originRef (Catalog entry) entry else entry).

Definition carryOverHelmEntries (src dst : gmap string ImageEntry) (origin originRef : string)
    : gmap string ImageEntry :=
  map_fold (λ dest entry dst,
    match helm_carry origin originRef entry with
    | None => dst
    | Some cp => if bool_decide (is_Some (dst !! dest)) then dst else <[dest := cp]> dst
    end) dst src.

(** The copy [carryOverByOriginAndSig] makes of an entry in its scope. *)
Definition sig_carry (origin sig originRef : string) (entry : ImageEntry) : option ImageEntry :=
  if negb (String.eqb (Origin entry) origin) then None
  else if negb (String.eqb (EntrySig entry) "") && negb (String.eqb (EntrySig entry) sig) then None
  else
    let cp := if String.eqb (EntrySig entry) ""
              then set_Labels (Origin entry) sig (OriginRef entry) (Catalog entry) entry else entry in
    let cp := if String.eqb (OriginRef cp) "" && negb (String.eqb originRef "")
              then set_Labels (Origin cp) (EntrySig cp) originRef (Catalog cp) cp else cp in
    Some (if String.eqb (Origin cp) OriginOperator && String.eqb (Catalog cp) ""
          then set_Labels (Origin cp) (EntrySig cp) (OriginRef cp) (CatalogFromOriginRef (OriginRef cp)) cp else cp).

Definition carryOverByOriginAndSig (src dst : gmap string ImageEntry) (origin sig originRef : string)
    : gmap string ImageEntry :=
  map_fold (λ dest entry dst,
    match sig_carry origin sig originRef entry with
    | None => dst
    | Some cp => if bool_decide (is_Some (dst !! dest)) then dst else <[dest := cp]> dst
    end) dst src.

Definition filterBlockedImages (state : gmap string ImageEntry) (blocked : list string)
    : gmap string ImageEntry :=
  if decide (blocked = []) then state
  else filter (λ kv, existsb (λ b, ImageBlocked (Source (snd kv)) b) blocked = false) state.

Definition equal_entry (va vb : ImageEntry) : bool :=
  String.eqb (Source va) (Source vb) && String.eqb (State va) (State vb)
  && String.eqb (Origin va) (Origin vb) && String.eqb (EntrySig va) (EntrySig vb)
  && (RetryCount va =? RetryCount vb)%Z && String.eqb (LastError va) (LastError vb)
  && String.eqb (OriginRef va) (OriginRef vb).

Definition equalState (a b : gmap string ImageEntry) : bool :=
  if negb (bool_decide (size a = size b)) then false
  else forallb (λ '(k, va), match b !! k with None => false | Some vb => equal_entry va vb end)
         (map_to_list a).

(** Reports that arrived while the resolve ran without the lock. *)
Definition worker_update (rEntry : ImageEntry) (lEntry : option ImageEntry) : ImageEntry :=
  match lEntry with
  | None => rEntry
  | Some l =>
    if String.eqb (State l) "Mirrored" || String.eqb (State l) "Failed"
    then set_PermanentlyFailed (PermanentlyFailed l)
           (set_LastError (LastError l) (set_RetryCount (RetryCount l) (set_State (State l) rEntry)))
    else rEntry
  end.

Definition mergeWorkerUpdates (resolved live : gmap string ImageEntry) : gmap string ImageEntry :=
  map_imap (λ dest rEntry, Some (worker_update rEntry (live !! dest))) resolved.

(** ** Integrating a resolved state into the working set *)

Definition upsert_entry (owners : gmap string (list string)) (dest isName : string)
    (existing : option ImageEntry) (newEntry : ImageEntry) : ImageEntry :=
  match existing with
  | Some ex =>
    let ex := set_Source (Source newEntry) ex in
    if onlyOwner owners dest isName then applyTo (specMetaOf newEntry) ex else ex
  | None => newEntry
  end.

(** Step 1: upsert the destinations of [perISState]. *)
Definition merge_upsert (isName : string) (dest : string) (newEntry : ImageEntry)
    (acc : gmap string ImageEntry * gmap string (list string))
    : gmap string ImageEntry * gmap string (list string) :=
  let '(state, owners) := acc in
  (<[dest := upsert_entry owners dest isName (state !! dest) newEntry]> state, addOwner dest isName owners).

(** Step 2: drop the ownership of destinations that are not in [perISState]. *)
Definition merge_drop (perISState : gmap string ImageEntry) (isName : string) (dest : string)
    (_ : ImageEntry) (acc : gmap string (list string) * list string)
    : gmap string (list string) * list string :=
  let '(owners, orphaned) := acc in
  if bool_decide (is_Some (perISState !! dest)) then (owners, orphaned)
  else
    let '(owners', removed) := removeOwner dest isName owners in
    if negb removed then (owners, orphaned)
    else if bool_decide (owners_of owners' dest = []) then (owners', orphaned ++ [dest])
    else (owners', orphaned).

Definition mergeResolvedIntoConsolidated (state : gmap string ImageEntry) (owners : gmap string (list string))
    (perISState : gmap string ImageEntry) (isName : string)
    : gmap string ImageEntry * gmap string (list string) * list string :=
  let '(state, owners) := map_fold (merge_upsert isName) (state, owners) perISState in
  let '(owners, orphaned) := map_fold (merge_drop perISState isName) (owners, []) state in
  (state, owners, orphaned).

Definition mergeLoadedEntry (existing : option ImageEntry) (incoming : ImageEntry) : ImageEntry :=
  match existing with
  | None => incoming
  | Some ex =>
    if String.eqb (State incoming) stateMirrored || String.eqb (State ex) stateMirrored then
      if String.eqb (State incoming) stateMirrored then incoming else ex
    else if (RetryCount ex <? RetryCount incoming)%Z then incoming else ex
  end.

(** * Lemmas *)

(** ** Owners *)

Lemma existsb_eqb n l : existsb (String.eqb n) l = true ↔ n ∈ l.
Proof.
  rewrite existsb_elem. split.
  - by intros (x & Hx & ->%String.eqb_eq).
  - intros Hn. exists n. by rewrite String.eqb_refl.
Qed.

Lemma hasOwner_spec owners d n : hasOwner owners d n = true ↔ n ∈ owners_of owners d.
Proof. apply existsb_eqb. Qed.

Lemma hasOwner_false owners d n : hasOwner owners d n = false ↔ n ∉ owners_of owners d.
Proof. rewrite <- hasOwner_spec. destruct (hasOwner owners d n); naive_solver. Qed.

Lemma onlyOwner_spec owners d n : onlyOwner owners d n = true ↔ ∀ x, x ∈ owners_of owners d → x = n.
Proof.
  unfold onlyOwner. rewrite forallb_forall. setoid_rewrite <- list_elem_of_In.
  setoid_rewrite String.eqb_eq. naive_solver.
Qed.

(** The owners left after removing [n]. *)
Definition without (n : string) (l : list string) : list string :=
  List.filter (λ x, negb (String.eqb x n)) l.

#[global] Arguments without : simpl never.

Lemma elem_of_without n l x : x ∈ without n l ↔ x ∈ l ∧ x ≠ n.
Proof. unfold without. rewrite elem_of_filter_bool, negb_true_iff, String.eqb_neq. tauto. Qed.

Lemma without_not_elem n l : n ∉ l → without n l = l.
Proof.
  unfold without. induction l as [|x l IH]; [done|]. intros Hn. cbn.
  destruct (String.eqb_spec x n); [set_solver|]. cbn. f_equal. apply IH. set_solver.
Qed.

Lemma NoDup_without n l : NoDup l → NoDup (without n l).
Proof. intros. by eapply sublist_NoDup, filter_bool_sublist. Qed.

Lemma owners_of_addOwner d d' n owners :
  owners_of (addOwner d n owners) d' =
    if decide (d' = d ∧ n ∉ owners_of owners d) then owners_of owners d ++ [n] else owners_of owners d'.
Proof.
  unfold addOwner. destruct (hasOwner owners d n) eqn:E.
  - apply hasOwner_spec in E. rewrite decide_False; naive_solver.
  - apply hasOwner_false in E. unfold owners_of at 1. destruct (decide (d' = d)) as [->|].
    + rewrite lookup_insert_eq, decide_True by done. done.
    + rewrite lookup_insert_ne, decide_False by naive_solver. done.
Qed.

Lemma addOwner_lookup_ne d d' n owners : d' ≠ d → addOwner d n owners !! d' = owners !! d'.
Proof. intros. unfold addOwner. destruct (hasOwner _ _ _); [done|]. by rewrite lookup_insert_ne. Qed.

Lemma removeOwner_lookup_ne d d' n owners : d' ≠ d → fst (removeOwner d n owners) !! d' = owners !! d'.
Proof.
  intros. unfold removeOwner. destruct (negb (hasOwner _ _ _)); [done|].
  case_bool_decide; cbn; [by rewrite lookup_delete_ne|by rewrite lookup_insert_ne].
Qed.

Lemma owners_of_removeOwner d d' n owners :
  owners_of (fst (removeOwner d n owners)) d' =
    if decide (d' = d) then without n (owners_of owners d) else owners_of owners d'.
Proof.
  destruct (decide (d' = d)) as [->|Hne].
  - unfold removeOwner. destruct (hasOwner owners d n) eqn:E; cbn [negb].
    + unfold without. case_bool_decide as Ho; cbn [fst]; unfold owners_of at 1.
      * by rewrite lookup_delete_eq, Ho.
      * by rewrite lookup_insert_eq.
    + apply hasOwner_false in E. cbn. by rewrite without_not_elem.
  - unfold owners_of. by rewrite removeOwner_lookup_ne.
Qed.

(** Every recorded owner list is non-empty, without duplicates, and belongs to
    a destination of the working set. *)
Definition owners_wf (state : gmap string ImageEntry) (owners : gmap string (list string)) : Prop :=
  map_Forall (λ d ns, ns ≠ [] ∧ NoDup ns ∧ is_Some (state !! d)) owners.

Lemma owners_wf_unowned state owners d :
  owners_wf state owners → owners_of owners d = [] → owners !! d = None.
Proof.
  intros Hwf Ho. destruct (owners !! d) as [ns|] eqn:E; [|done].
  apply Hwf in E as Hns. unfold owners_of in Ho. rewrite E in Ho. naive_solver.
Qed.

Lemma owners_wf_NoDup state owners d : owners_wf state owners → NoDup (owners_of owners d).
Proof.
  intros Hwf. unfold owners_of. destruct (owners !! d) eqn:E; [|constructor].
  by apply Hwf in E as (_ & ? & _).
Qed.

(** ** Spec metadata *)

Lemma specMetaOf_applyTo s e : specMetaOf (applyTo s e) = s.
Proof. by destruct s. Qed.

Lemma meta_of_put_or_delete d po om d' n :
  meta_of (put_or_delete d po om) d' n = if decide (d' = d) then po !! n else meta_of om d' n.
Proof.
  unfold put_or_delete, meta_of. case_decide as Hp; destruct (decide (d' = d)) as [->|]; subst.
  - by rewrite lookup_delete_eq, lookup_empty.
  - by rewrite lookup_delete_ne.
  - by rewrite lookup_insert_eq.
  - by rewrite lookup_insert_ne.
Qed.

Lemma meta_of_setOwnerMeta d n meta om d' n' :
  meta_of (setOwnerMeta d n meta om) d' n' =
    if decide (d' = d ∧ n' = n) then Some meta else meta_of om d' n'.
Proof.
  unfold setOwnerMeta, meta_of. destruct (decide (d' = d)) as [->|].
  - rewrite lookup_insert_eq. cbn. destruct (decide (n' = n)) as [->|].
    + by rewrite lookup_insert_eq, decide_True.
    + rewrite lookup_insert_ne, decide_False by naive_solver. by destruct (om !! d).
  - rewrite lookup_insert_ne, decide_False by naive_solver. done.
Qed.

(** [recordOwnerMeta] makes the metadata of one ImageSet match its resolved
    state and leaves every other ImageSet's alone. *)
Lemma meta_of_recordOwnerMeta n resolved om d n' :
  meta_of (recordOwnerMeta n resolved om) d n' =
    if decide (n' = n) then specMetaOf <$> resolved !! d else meta_of om d n'.
Proof.
  unfold recordOwnerMeta.
  rewrite (range_pointwise (λ k om, meta_of om k n') _
    (λ k e x, if decide (n' = n) then Some (specMetaOf e) else x)).
  2:{ intros. rewrite meta_of_setOwnerMeta. destruct (decide (n' = n)); [rewrite decide_True|rewrite decide_False]; naive_solver. }
  2:{ intros. rewrite meta_of_setOwnerMeta, decide_False; naive_solver. }
  rewrite (range_pointwise (λ k om, meta_of om k n') _
    (λ k po x, if bool_decide (is_Some (resolved !! k)) then x else delete n po !! n')).
  2:{ intros. case_bool_decide; [done|]. by rewrite meta_of_put_or_delete, decide_True. }
  2:{ intros. case_bool_decide; [done|]. by rewrite meta_of_put_or_delete, decide_False. }
  destruct (resolved !! d) as [e|] eqn:Er; cbn.
  - destruct (decide (n' = n)); [done|]. destruct (om !! d) eqn:E; [|done].
    by rewrite ?bool_decide_eq_true_2 by eauto.
  - unfold meta_of. destruct (om !! d) as [po|] eqn:E; cbn.
    + destruct (decide (n' = n)) as [->|].
      * by rewrite lookup_delete_eq.
      * by rewrite lookup_delete_ne.
    + by case_decide.
Qed.

Lemma filterByImageSet_lookup state owners om n d :
  filterByImageSet state owners om n !! d =
    (e ← state !! d; if hasOwner owners d n then Some (ownerView om d n e) else None).
Proof. unfold filterByImageSet. by rewrite map_lookup_imap. Qed.

(** ** [mergeResolvedIntoConsolidated] *)

Lemma merge_upsert_lookup isName perIS state owners d :
  let r := map_fold (merge_upsert isName) (state, owners) perIS in
  (fst r !! d, snd r !! d) =
    match perIS !! d with
    | Some ne => (Some (upsert_entry owners d isName (state !! d) ne), addOwner d isName owners !! d)
    | None => (state !! d, owners !! d)
    end.
Proof.
  intros r. subst r.
  rewrite (range_pointwise (λ k acc, (fst acc !! k, snd acc !! k)) (merge_upsert isName)
    (λ k ne x, let ow := partial_alter (λ _, snd x) k ∅ in
               (Some (upsert_entry ow k isName (fst x) ne), addOwner k isName ow !! k))
    (state, owners) perIS d).
  - cbn. destruct (perIS !! d) as [ne|]; [|done]. unfold upsert_entry, onlyOwner, addOwner, hasOwner, owners_of.
    rewrite lookup_partial_alter_eq. f_equal. destruct (existsb _ _); [by rewrite lookup_partial_alter_eq|].
    by rewrite !lookup_insert_eq.
  - intros k ne [st ow]. cbn. rewrite lookup_insert_eq.
    unfold upsert_entry, onlyOwner, addOwner, hasOwner, owners_of.
    rewrite lookup_partial_alter_eq. f_equal. destruct (existsb _ _); [by rewrite lookup_partial_alter_eq|].
    by rewrite !lookup_insert_eq.
  - intros k ne [st ow] j Hj. cbn. by rewrite lookup_insert_ne, addOwner_lookup_ne by done.
Qed.

(** What [removeOwner] leaves for its destination. *)
Definition drop_owner (n : string) (o : option (list string)) : option (list string) :=
  if decide (n ∈ default [] o) then
    if decide (without n (default [] o) = []) then None else Some (without n (default [] o))
  else o.

Lemma removeOwner_lookup_eq d n owners :
  fst (removeOwner d n owners) !! d = drop_owner n (owners !! d) ∧
  snd (removeOwner d n owners) = bool_decide (n ∈ owners_of owners d).
Proof.
  unfold removeOwner, drop_owner. fold (owners_of owners d). fold (without n (owners_of owners d)).
  destruct (hasOwner owners d n) eqn:E; cbn [negb].
  - apply hasOwner_spec in E. rewrite decide_True, (bool_decide_eq_true_2 _ E) by done.
    case_bool_decide; [rewrite decide_True by done|rewrite decide_False by done]; cbn.
    + by rewrite lookup_delete_eq.
    + by rewrite lookup_insert_eq.
  - apply hasOwner_false in E. by rewrite decide_False, (bool_decide_eq_false_2 _ E).
Qed.

Lemma merge_drop_owners perIS isName state owners d :
  fst (map_fold (merge_drop perIS isName) (owners, []) state) !! d =
    match state !! d, perIS !! d with
    | Some _, None => drop_owner isName (owners !! d)
    | _, _ => owners !! d
    end.
Proof.
  rewrite (range_pointwise (λ k acc, fst acc !! k) (merge_drop perIS isName)
    (λ k _ x, match perIS !! k with None => drop_owner isName x | Some _ => x end)).
  - destruct (state !! d); [|done]. by destruct (perIS !! d).
  - intros k v [ow orph]. cbn. destruct (perIS !! k); [done|].
    rewrite bool_decide_eq_false_2 by (by intros []).
    destruct (removeOwner_lookup_eq k isName ow) as [E1 E2].
    destruct (removeOwner k isName ow) as [ow' removed]; cbn in *. rewrite <- E1.
    destruct removed; cbn; [by destruct (bool_decide (owners_of ow' k = []))|]. symmetry in E2. apply bool_decide_eq_false_1 in E2.
    rewrite E1. unfold drop_owner. by rewrite decide_False.
  - intros k v [ow orph] j Hj. cbn. case_bool_decide; [done|].
    pose proof (removeOwner_lookup_ne k j isName ow Hj).
    destruct (removeOwner k isName ow) as [ow' []]; cbn in *; [by case_bool_decide|done].
Qed.

Lemma owners_of_lookup owners d : owners_of owners d = default [] (owners !! d).
Proof. done. Qed.

(** A destination is reported as orphaned exactly when the removed ImageSet
    was its only owner. *)
Definition orphaned_by (perIS state : gmap string ImageEntry) (owners : gmap string (list string))
    (isName d : string) : Prop :=
  is_Some (state !! d) ∧ perIS !! d = None ∧
  isName ∈ owners_of owners d ∧ without isName (owners_of owners d) = [].

Lemma merge_drop_orphaned perIS isName state owners d :
  d ∈ snd (map_fold (merge_drop perIS isName) (owners, []) state) ↔ orphaned_by perIS state owners isName d.
Proof.
  set (view := λ (k : string) (acc : gmap string (list string) * list string),
    (owners_of (fst acc) k, bool_decide (k ∈ snd acc))).
  assert (Hv : view d
      (map_fold (merge_drop perIS isName) (owners, []) state) =
    match state !! d with
    | Some _ => match perIS !! d with
        | Some _ => (owners_of owners d, false)
        | None => if decide (isName ∈ owners_of owners d)
                  then (without isName (owners_of owners d), bool_decide (without isName (owners_of owners d) = []))
                  else (owners_of owners d, false)
        end
    | None => (owners_of owners d, false)
    end).
  { rewrite (range_pointwise view (merge_drop perIS isName)
      (λ k _ x, match perIS !! k with
         | Some _ => x
         | None => if decide (isName ∈ fst x)
                   then (without isName (fst x), snd x || bool_decide (without isName (fst x) = []))
                   else x end)); [unfold view; cbn; by repeat case_match| |].
    - intros k v [ow orph]. unfold view. cbn. destruct (perIS !! k); [done|].
      rewrite bool_decide_eq_false_2 by (by intros []).
      destruct (removeOwner_lookup_eq k isName ow) as [_ E2].
      pose proof (owners_of_removeOwner k k isName ow) as E1. rewrite decide_True in E1 by done.
      destruct (removeOwner k isName ow) as [ow' removed]; cbn in *. subst removed.
      destruct (decide (isName ∈ owners_of ow k)) as [Hin|Hin].
      + rewrite (bool_decide_eq_true_2 _ Hin). cbn [negb]. rewrite E1.
        destruct (bool_decide (without _ _ = [])); cbn; rewrite E1; f_equal.
        * rewrite orb_true_r. apply bool_decide_eq_true_2. set_solver.
        * by rewrite orb_false_r.
      + by rewrite (bool_decide_eq_false_2 _ Hin).
    - intros k v [ow orph] j Hj. unfold view. cbn. case_bool_decide; [done|].
      pose proof (owners_of_removeOwner k j isName ow) as E. rewrite decide_False in E by done.
      destruct (removeOwner k isName ow) as [ow' []]; cbn in *; [|done].
      case_bool_decide; cbn; rewrite E; f_equal. apply bool_decide_ext. set_solver. }
  unfold orphaned_by. rewrite <- (bool_decide_eq_true (d ∈ _)). apply (f_equal snd) in Hv. cbn in Hv. rewrite Hv.
  destruct (state !! d); [|naive_solver]. destruct (perIS !! d); [naive_solver|].
  destruct (decide (isName ∈ owners_of owners d)); cbn; [rewrite bool_decide_eq_true|]; naive_solver.
Qed.

(** The three results, destination by destination. *)
Lemma mergeResolved_spec state owners perIS isName :
  let '(state', owners', orphaned) := mergeResolvedIntoConsolidated state owners perIS isName in
  (∀ d, state' !! d = match perIS !! d with
                      | Some ne => Some (upsert_entry owners d isName (state !! d) ne)
                      | None => state !! d end) ∧
  (∀ d, owners' !! d = match perIS !! d, state !! d with
                       | Some _, _ => addOwner d isName owners !! d
                       | None, Some _ => drop_owner isName (owners !! d)
                       | None, None => owners !! d end) ∧
  (∀ d, d ∈ orphaned ↔ orphaned_by perIS state owners isName d).
Proof.
  unfold mergeResolvedIntoConsolidated.
  assert (H1 := λ d, merge_upsert_lookup isName perIS state owners d). cbn zeta in H1.
  destruct (map_fold (merge_upsert isName) (state, owners) perIS) as [st1 ow1]. cbn in H1.
  assert (Hst : ∀ d, st1 !! d = match perIS !! d with
      Some ne => Some (upsert_entry owners d isName (state !! d) ne) | None => state !! d end).
  { intros d. specialize (H1 d). destruct (perIS !! d); naive_solver. }
  assert (Hnone : ∀ d, perIS !! d = None → st1 !! d = state !! d ∧ ow1 !! d = owners !! d).
  { intros d Hd. specialize (H1 d). rewrite Hd in H1. naive_solver. }
  assert (H2 := λ d, merge_drop_owners perIS isName st1 ow1 d).
  assert (H3 := λ d, merge_drop_orphaned perIS isName st1 ow1 d).
  destruct (map_fold (merge_drop perIS isName) (ow1, []) st1) as [ow2 orph]. cbn in *.
  split_and!; [done| |].
  - intros d. rewrite H2, Hst. specialize (H1 d). destruct (perIS !! d) eqn:Ep; [by inversion H1|].
    destruct (Hnone d Ep) as [_ ->]. by destruct (state !! d).
  - intros d. rewrite H3. unfold orphaned_by, owners_of.
    split; intros (? & Hp & ?); destruct (Hnone d Hp) as [E1 E2]; rewrite E1, E2 in *; done.
Qed.

Lemma drop_owner_of n owners d : default [] (drop_owner n (owners !! d)) = without n (owners_of owners d).
Proof.
  unfold drop_owner. fold (owners_of owners d). case_decide as Hin; [by case_decide|].
  by rewrite without_not_elem.
Qed.

Lemma orphaned_by_iff perIS state owners n d :
  owners_wf state owners →
  orphaned_by perIS state owners n d ↔ owners_of owners d = [n] ∧ perIS !! d = None.
Proof.
  intros Hwf. unfold orphaned_by. split.
  - intros (_ & Hp & Hin & Hw). split; [|done].
    pose proof (owners_wf_NoDup _ _ d Hwf) as Hnd.
    destruct (owners_of owners d) as [|x [|y l]]; [set_solver|set_solver|exfalso].
    assert (∀ z, z ∈ x :: y :: l → z = n) as Hall.
    { intros z Hz. destruct (decide (z = n)); [done|].
      assert (z ∈ without n (x :: y :: l)) as Hz' by by rewrite elem_of_without. rewrite Hw in Hz'. set_solver. }
    apply NoDup_cons in Hnd as [Hx _]. apply Hx. rewrite (Hall x), <- (Hall y) by set_solver. set_solver.
  - intros [Ho Hp]. rewrite Ho. split_and!; [|done|set_solver|cbv [without]; cbn; by rewrite String.eqb_refl].
    unfold owners_of in Ho. destruct (owners !! d) eqn:E; [|done]. by apply Hwf in E as (_ & _ & ?).
Qed.

(** The owner lists after a merge. *)
Lemma merged_owners_wf state owners (perIS : gmap string ImageEntry) isName d ns :
  owners_wf state owners →
  match perIS !! d, state !! d with
  | Some _, _ => addOwner d isName owners !! d
  | None, Some _ => drop_owner isName (owners !! d)
  | None, None => owners !! d
  end = Some ns →
  ns ≠ [] ∧ NoDup ns ∧ (is_Some (perIS !! d) ∨ is_Some (state !! d)).
Proof.
  intros Hwf. pose proof (owners_wf_NoDup _ _ d Hwf) as Hnd.
  destruct (perIS !! d).
  - intros E. assert (owners_of (addOwner d isName owners) d = ns) as Hns by (unfold owners_of; by rewrite E).
    rewrite owners_of_addOwner in Hns. case_decide as Hd; subst ns.
    + split_and!; [by destruct (owners_of owners d)| |eauto].
      apply NoDup_app. split_and!; [done|set_solver|apply NoDup_singleton].
    + assert (isName ∈ owners_of owners d) by (destruct (decide (isName ∈ owners_of owners d)); naive_solver).
      split_and!; [intros Hn; rewrite Hn in *; set_solver|done|eauto].
  - destruct (state !! d) eqn:Es.
    + unfold drop_owner. fold (owners_of owners d). case_decide.
      * case_decide; [done|]. intros [= <-]. split_and!; [done|by apply NoDup_without|eauto].
      * intros E. apply Hwf in E as (? & ? & _). eauto.
    + intros E. apply Hwf in E as (_ & _ & [? ?]). congruence.
Qed.

Lemma owners_wf_known state owners d n :
  owners_wf state owners → n ∈ owners_of owners d → is_Some (state !! d).
Proof.
  intros Hwf Hin. unfold owners_of in Hin. destruct (owners !! d) eqn:E; [|set_solver].
  by apply Hwf in E as (_ & _ & ?).
Qed.

(** Ownership after a merge. *)
Lemma merged_owners_exact state owners perIS isName :
  owners_wf state owners →
  let '(_, owners', _) := mergeResolvedIntoConsolidated state owners perIS isName in
  (∀ d, isName ∈ owners_of owners' d ↔ is_Some (perIS !! d)) ∧
  (∀ d n, n ≠ isName → n ∈ owners_of owners' d ↔ n ∈ owners_of owners d).
Proof.
  intros Hwf. pose proof (mergeResolved_spec state owners perIS isName) as Hsp.
  destruct (mergeResolvedIntoConsolidated _ _ _ _) as [[state' owners'] orphaned].
  destruct Hsp as (_ & How & _).
  assert (Hof : ∀ d, owners_of owners' d = match perIS !! d with
    | Some _ => owners_of (addOwner d isName owners) d
    | None => without isName (owners_of owners d) end).
  { intros d. unfold owners_of at 1. rewrite How. destruct (perIS !! d); [done|].
    destruct (state !! d) eqn:Es; [apply drop_owner_of|].
    destruct (owners !! d) as [ns|] eqn:Eo; [apply Hwf in Eo as (_ & _ & []); congruence|].
    unfold owners_of. by rewrite Eo. }
  split.
  - intros d. rewrite Hof. destruct (perIS !! d); cbn.
    + rewrite owners_of_addOwner. split; [eauto|intros _]. case_decide; [set_solver|].
      destruct (decide (isName ∈ owners_of owners d)); [done|naive_solver].
    + rewrite elem_of_without. split; [naive_solver|by intros []].
  - intros d n Hn. rewrite Hof. destruct (perIS !! d).
    + rewrite owners_of_addOwner. case_decide; [set_solver|done].
    + rewrite elem_of_without. naive_solver.
Qed.

(** ** Lifecycle fields *)

(** What describes the one mirrored image, whichever ImageSet looks at it. *)
Definition lifecycle (e : ImageEntry) : string * string * Z * bool * option Z * bool * string :=
  (State e, LastError e, RetryCount e, PermanentlyFailed e, NextRetryAt e, SignatureVerified e, SourceDigest e).

Lemma lifecycle_applyTo s e : lifecycle (applyTo s e) = lifecycle e.
Proof. done. Qed.
Lemma Source_applyTo s e : Source (applyTo s e) = Source e.
Proof. done. Qed.
Lemma lifecycle_upsert owners d n ex ne :
  lifecycle (upsert_entry owners d n (Some ex) ne) = lifecycle ex.
Proof. unfold upsert_entry. by destruct (onlyOwner _ _ _). Qed.
Lemma Source_upsert owners d n ex ne : Source (upsert_entry owners d n ex ne) = Source ne.
Proof. destruct ex; [|done]. cbn. by destruct (onlyOwner _ _ _). Qed.

Lemma sig_carry_spec origin sig originRef e :
  Origin e = origin → EntrySig e = "" ∨ EntrySig e = sig →
  ∃ e', sig_carry origin sig originRef e = Some e' ∧ lifecycle e' = lifecycle e ∧ Source e' = Source e ∧
        Origin e' = origin ∧ EntrySig e' = sig.
Proof.
  intros <- Hs. unfold sig_carry. rewrite String.eqb_refl. cbn [negb].
  assert (negb (String.eqb (EntrySig e) "") && negb (String.eqb (EntrySig e) sig) = false) as ->.
  { destruct Hs as [->| ->]; [done|]. by rewrite String.eqb_refl, andb_false_r. }
  eexists. split; [done|].
  destruct (String.eqb_spec (EntrySig e) "") as [E|E]; cbn;
    repeat (match goal with |- context [if ?b then _ else _] => destruct b end; cbn);
    naive_solver.
Qed.

Lemma carry_lookup (f : ImageEntry → option ImageEntry) (src dst : gmap string ImageEntry) d :
  map_fold (λ dest entry dst,
    match f entry with
    | None => dst
    | Some cp => if bool_decide (is_Some (dst !! dest)) then dst else <[dest := cp]> dst
    end) dst src !! d = match dst !! d with Some e => Some e | None => src !! d ≫= f end.
Proof.
  rewrite (range_pointwise (λ k (m : gmap string ImageEntry), m !! k) _
    (λ k e x, match x with Some e' => Some e' | None => f e end)).
  - destruct (dst !! d), (src !! d); done.
  - intros k e s. destruct (f e) as [cp|]; [|by destruct (s !! k)].
    case_bool_decide as Hs.
    + by destruct Hs as [? ->].
    + apply eq_None_not_Some in Hs as ->. by rewrite lookup_insert_eq.
  - intros k e s j Hj. destruct (f e); [|done]. case_bool_decide; [done|]. by rewrite lookup_insert_ne.
Qed.

Lemma mergeIntoState_notin dst images origin sig originRef prev d :
  d ∉ ti_Destination <$> images →
  mergeIntoStateWithSig dst images origin sig originRef prev !! d = dst !! d.
Proof.
  unfold mergeIntoStateWithSig. revert dst.
  induction images as [|img images IH]; intros dst Hd; [done|]. cbn in *.
  rewrite IH by set_solver. rewrite lookup_insert_ne; [done|set_solver].
Qed.

Lemma mergeIntoState_in dst images origin sig originRef prev d :
  d ∈ ti_Destination <$> images →
  ∃ img, img ∈ images ∧ ti_Destination img = d ∧
    mergeIntoStateWithSig dst images origin sig originRef prev !! d
    = Some (merged_entry img origin sig originRef prev).
Proof.
  unfold mergeIntoStateWithSig. induction images as [|img images IH] using rev_ind; [by intros ?%elem_of_nil|].
  intros Hd. rewrite foldl_app. cbn. destruct (decide (d = ti_Destination img)) as [->|Hne].
  - exists img. rewrite lookup_insert_eq. set_solver.
  - rewrite fmap_app, elem_of_app in Hd. destruct Hd as [Hd|Hd]; [|set_solver].
    destruct (IH Hd) as (i & Hi & Hdi & E). exists i. rewrite lookup_insert_ne by done. set_solver.
Qed.

(** The two shapes of a merged entry. *)
Lemma merged_entry_cases img origin sig originRef prev :
  let e := merged_entry img origin sig originRef prev in
  Origin e = origin ∧ EntrySig e = sig ∧ PermanentlyFailed e = false ∧ NextRetryAt e = None ∧
  (State e = stateMirrored ∧ (∃ p, prev !! ti_Destination img = Some p ∧ State p = stateMirrored ∧
       RetryCount e = RetryCount p ∧ (Origin p = origin ∨ Origin p = "") ∧
       (origin = OriginHelmChart → EntrySig p = "" ∨ EntrySig p = sig))
   ∨ State e = statePending ∧ RetryCount e = 0%Z ∧ LastError e = "" ∧
     ¬ (∃ p, prev !! ti_Destination img = Some p ∧ State p = stateMirrored ∧ (Origin p = origin ∨ Origin p = "") ∧
          (origin = OriginHelmChart → EntrySig p = "" ∨ EntrySig p = sig))).
Proof.
  intros e. subst e. unfold merged_entry. destruct (prev !! ti_Destination img) as [p|] eqn:Ep.
  2:{ cbn. split_and!; try done. right. split_and!; try done. intros (? & ? & _). congruence. }
  destruct (String.eqb_spec (Origin p) origin) as [Ho|Ho];
    [|destruct (String.eqb_spec (Origin p) "") as [Ho'|Ho']]; cbn [orb].
  3:{ cbn. split_and!; try done. right. split_and!; try done. intros (? & [= <-] & _ & [?|?] & _); congruence. }
  all: set (base := if _ && _ then set_Source _ _ else _);
    assert (Hb : Origin base = origin ∧ EntrySig base = sig ∧ PermanentlyFailed base = false ∧
      NextRetryAt base = None ∧ State base = statePending ∧ RetryCount base = 0%Z ∧ LastError base = "")
      by (subst base; by destruct (_ && _)); clearbody base;
    destruct Hb as (? & ? & ? & ? & ? & ? & ?);
    destruct (String.eqb_spec (State p) "Mirrored") as [Hs|Hs]; cbn [andb];
    [|split_and!; try done; right; split_and!; try done; by intros (? & [= <-] & ? & _)];
    destruct (String.eqb_spec origin OriginHelmChart) as [Hh|Hh];
    destruct (String.eqb_spec (EntrySig p) "") as [He|He];
    destruct (String.eqb_spec (EntrySig p) sig) as [He'|He']; cbn [andb negb];
    (split_and!; try done);
    first [left; split; [done|]; exists p; split_and!; try done; naive_solver
          |right; split_and!; try done; intros (? & [= <-] & ? & _ & Hx); destruct (Hx Hh); congruence].
Qed.

(** * Properties *)

(** C3: integrating a resolved state keeps ownership exact.  Afterwards the
    ImageSet owns precisely the destinations it resolved to, no other
    ImageSet gained or lost one, the destinations reported as orphaned are
    precisely those it owned alone and no longer needs, and once those are
    removed from the working set every owner list is non-empty,
    duplicate-free and refers to an existing entry. *)
Theorem mergeResolved_ownership state owners perIS isName :
  owners_wf state owners →
  let '(state', owners', orphaned) := mergeResolvedIntoConsolidated state owners perIS isName in
  (∀ d, isName ∈ owners_of owners' d ↔ is_Some (perIS !! d)) ∧
  (∀ d n, n ≠ isName → n ∈ owners_of owners' d ↔ n ∈ owners_of owners d) ∧
  (∀ d, d ∈ orphaned ↔ owners_of owners d = [isName] ∧ perIS !! d = None) ∧
  owners_wf (filter (λ kv, fst kv ∉ orphaned) state') owners'.
Proof.
  intros Hwf. pose proof (mergeResolved_spec state owners perIS isName) as Hsp.
  pose proof (merged_owners_exact state owners perIS isName Hwf) as Hex.
  destruct (mergeResolvedIntoConsolidated _ _ _ _) as [[state' owners'] orphaned].
  destruct Hsp as (Hst & How & Horph).
  destruct Hex as [Hown Hoth].
  split_and!; [done|done| |].
  - intros d. rewrite Horph. by apply orphaned_by_iff.
  - intros d ns Ens. apply (merged_owners_wf state owners perIS isName) with (d := d) (ns := ns) in Hwf as (? & ? & Hs);
      [|by rewrite <- How].
    split_and!; [done..|].
    destruct (state' !! d) as [e|] eqn:Es.
    + exists e. apply map_lookup_filter_Some. split; [done|]. cbn. rewrite Horph.
      intros ([? Es'] & Hp & Hin & Hw). specialize (How d). rewrite Hp, Es' in How.
      unfold drop_owner in How. fold (owners_of owners d) in How.
      rewrite decide_True, decide_True in How by done. congruence.
    + rewrite Hst in Es. destruct (perIS !! d); [done|]. rewrite Es in Hs. by destruct Hs as [[]|[]].
Qed.

(** A small working set: "a" is shared, "b" belongs to "is1" alone. *)
Definition entry_of (src st sig : string) : ImageEntry :=
  mkImageEntry src st "" 0 OriginOperator sig "cat [pkg]" "cat" false false None false "".
Definition ex_state : gmap string ImageEntry :=
  <["a" := entry_of "src/a" "Mirrored" "sig1"]> {["b" := entry_of "src/b" "Failed" "sig1"]}.
Definition ex_owners : gmap string (list string) := <["a" := ["is1"; "is2"]]> {["b" := ["is1"]]}.
Definition ex_meta : gmap string (gmap string specMeta) :=
  <["a" := {["is2" := mkSpecMeta OriginOperator "sig2" "cat2 [pkg]" "cat2" false]}]> ∅.
Definition ex_resolved : gmap string ImageEntry :=
  <["a" := entry_of "src/a" "Pending" "sig1'"]> {["c" := entry_of "src/c" "Pending" "sig1'"]}.

Lemma mergeResolved_ownership_witness :
  snd (mergeResolvedIntoConsolidated ex_state ex_owners ex_resolved "is1") = ["b"] ∧
  let '(state', owners', orphaned) := mergeResolvedIntoConsolidated ex_state ex_owners ex_resolved "is1" in
  owners_wf (filter (λ kv, fst kv ∉ orphaned) state') owners'.
Proof.
  split; [vm_compute; reflexivity|].
  assert (Hwf : owners_wf ex_state ex_owners) by (apply (bool_decide_unpack _); vm_compute; exact I).
  pose proof (mergeResolved_ownership ex_state ex_owners ex_resolved "is1" Hwf) as H.
  destruct (mergeResolvedIntoConsolidated _ _ _ _) as [[??]?]. apply H.
Defined.

(** Integrating a resolved state never touches what is known about the
    mirrored image itself: State, LastError, RetryCount, PermanentlyFailed,
    NextRetryAt, SignatureVerified and SourceDigest of every entry of the
    working set are kept, whichever owner resolved it; only new destinations
    take theirs from the resolved entry. *)
Theorem mergeResolved_keeps_lifecycle state owners perIS isName d :
  let '(state', _, _) := mergeResolvedIntoConsolidated state owners perIS isName in
  lifecycle <$> state' !! d =
    match state !! d with Some e => Some (lifecycle e) | None => lifecycle <$> perIS !! d end ∧
  (∀ e ne, state' !! d = Some e → perIS !! d = Some ne → Source e = Source ne).
Proof.
  pose proof (mergeResolved_spec state owners perIS isName) as Hsp.
  destruct (mergeResolvedIntoConsolidated _ _ _ _) as [[state' owners'] orphaned].
  destruct Hsp as (Hst & _). rewrite Hst. split.
  - destruct (perIS !! d), (state !! d); cbn; try done. f_equal. apply lifecycle_upsert.
  - intros e ne He Hne. rewrite Hne in He. injection He as <-. apply Source_upsert.
Qed.

(** Owners do not see each other's spec metadata.  After an ImageSet's
    resolved state has been integrated and its metadata recorded, its own view
    contains exactly the destinations it resolved to, each with the Origin,
    EntrySig, OriginRef, Catalog and bundle flag its own resolve produced;
    and for every other ImageSet that had recorded metadata, its view of a
    destination still carries its own metadata unchanged. *)
Theorem views_keep_own_metadata state owners om perIS isName :
  owners_wf state owners →
  let '(state', owners', _) := mergeResolvedIntoConsolidated state owners perIS isName in
  let om' := recordOwnerMeta isName perIS om in
  (∀ d, specMetaOf <$> filterByImageSet state' owners' om' isName !! d = specMetaOf <$> perIS !! d) ∧
  (∀ d n m, n ≠ isName → n ∈ owners_of owners d → meta_of om d n = Some m →
     specMetaOf <$> filterByImageSet state' owners' om' n !! d = Some m).
Proof.
  intros Hwf. pose proof (mergeResolved_spec state owners perIS isName) as Hsp.
  pose proof (merged_owners_exact state owners perIS isName Hwf) as Hex.
  destruct (mergeResolvedIntoConsolidated _ _ _ _) as [[state' owners'] orphaned].
  destruct Hsp as (Hst & _ & _). destruct Hex as [Hown Hoth].
  split.
  - intros d. rewrite filterByImageSet_lookup, Hst.
    destruct (perIS !! d) as [ne|] eqn:Ep; cbn.
    + assert (hasOwner owners' d isName = true) as -> by (apply hasOwner_spec, Hown; eauto).
      unfold ownerView. rewrite meta_of_recordOwnerMeta, decide_True, Ep by done. cbn. f_equal.
    + destruct (state !! d); [|done]. cbn.
      assert (hasOwner owners' d isName = false) as ->; [|done].
      apply hasOwner_false. rewrite Hown, Ep. by intros [].
  - intros d n m Hn Hin Hm. rewrite filterByImageSet_lookup.
    assert (hasOwner owners' d n = true) as -> by by apply hasOwner_spec, Hoth.
    assert (is_Some (state' !! d)) as [e ->].
    { rewrite Hst. destruct (perIS !! d); [eauto|]. by eapply owners_wf_known. }
    cbn. unfold ownerView. rewrite meta_of_recordOwnerMeta, decide_False, Hm by done.
    by rewrite specMetaOf_applyTo.
Qed.

Lemma views_keep_own_metadata_witness :
  let '(state', owners', _) := mergeResolvedIntoConsolidated ex_state ex_owners ex_resolved "is1" in
  let om' := recordOwnerMeta "is1" ex_resolved ex_meta in
  specMetaOf <$> filterByImageSet state' owners' om' "is2" !! "a"
  = Some (mkSpecMeta OriginOperator "sig2" "cat2 [pkg]" "cat2" false).
Proof.
  assert (Hwf : owners_wf ex_state ex_owners) by (apply (bool_decide_unpack _); vm_compute; exact I).
  pose proof (views_keep_own_metadata ex_state ex_owners ex_meta ex_resolved "is1" Hwf) as H.
  destruct (mergeResolvedIntoConsolidated _ _ _ _) as [[??]?]. destruct H as [_ H].
  apply H; [discriminate|apply (bool_decide_unpack _); vm_compute; exact I|reflexivity].
Defined.

(** A carry-over on a cache hit or after a failed resolve loses nothing:
    every previous entry of the spec entry (same origin, same signature or a
    legacy empty one) is in the result; unless the destination was already
    resolved by another entry its mirroring state, retry budget and source
    are unchanged and it carries the current signature; and nothing already
    resolved is overwritten. *)
Theorem carryOver_complete src dst origin sig originRef d e :
  src !! d = Some e → Origin e = origin → EntrySig e = "" ∨ EntrySig e = sig →
  ∃ e', carryOverByOriginAndSig src dst origin sig originRef !! d = Some e' ∧
    match dst !! d with
    | Some e0 => e' = e0
    | None => lifecycle e' = lifecycle e ∧ Source e' = Source e ∧ Origin e' = origin ∧ EntrySig e' = sig
    end.
Proof.
  intros Hs Ho Hsig. unfold carryOverByOriginAndSig. rewrite carry_lookup, Hs. cbn.
  destruct (dst !! d) as [e0|]; [eauto|].
  destruct (sig_carry_spec origin sig originRef e Ho Hsig) as (e' & E & ?). eauto.
Qed.

Lemma carryOver_complete_witness :
  ∃ e', carryOverByOriginAndSig ex_state ∅ OriginOperator "sig1" "cat [pkg]" !! "b" = Some e' ∧
        State e' = "Failed".
Proof.
  destruct (carryOver_complete ex_state ∅ OriginOperator "sig1" "cat [pkg]" "b" (entry_of "src/b" "Failed" "sig1"))
    as (e' & E & H); [reflexivity|reflexivity|by right|].
  exists e'. split; [exact E|]. rewrite lookup_empty in H. destruct H as [H _]. by injection H.
Defined.

(** A fresh resolve re-queues everything except finished work.  Each
    resolved destination ends up with the current origin and signature; it is
    Mirrored exactly when it was Mirrored before under the same (or no)
    origin and, for a Helm chart artifact, against the same archive; otherwise
    it is Pending with a zero retry count, not permanently failed and without
    a scheduled retry.  Destinations that were not resolved are untouched. *)
Theorem mergeIntoState_requeues dst images origin sig originRef prev d :
  (d ∉ ti_Destination <$> images →
     mergeIntoStateWithSig dst images origin sig originRef prev !! d = dst !! d) ∧
  (d ∈ ti_Destination <$> images →
     ∃ e, mergeIntoStateWithSig dst images origin sig originRef prev !! d = Some e ∧
       Origin e = origin ∧ EntrySig e = sig ∧ PermanentlyFailed e = false ∧ NextRetryAt e = None ∧
       (State e = stateMirrored ∧ (∃ p, prev !! d = Some p ∧ State p = stateMirrored ∧
            RetryCount e = RetryCount p ∧ (Origin p = origin ∨ Origin p = "") ∧
            (origin = OriginHelmChart → EntrySig p = "" ∨ EntrySig p = sig))
        ∨ State e = statePending ∧ RetryCount e = 0%Z ∧ LastError e = "" ∧
          ¬ (∃ p, prev !! d = Some p ∧ State p = stateMirrored ∧ (Origin p = origin ∨ Origin p = "") ∧
               (origin = OriginHelmChart → EntrySig p = "" ∨ EntrySig p = sig)))).
Proof.
  split; [apply mergeIntoState_notin|]. intros Hd.
  destruct (mergeIntoState_in dst images origin sig originRef prev d Hd) as (img & _ & <- & ->).
  eexists; split; [done|]. apply merged_entry_cases.
Qed.

Lemma mergeIntoState_requeues_witness :
  ∃ e, mergeIntoStateWithSig ∅ [mkTargetImage "src/b" "b" "" "" false] OriginOperator "sig3" "r" ex_state !! "b"
       = Some e ∧ EntrySig e = "sig3" ∧ State e = statePending.
Proof.
  destruct (mergeIntoState_requeues ∅ [mkTargetImage "src/b" "b" "" "" false] OriginOperator "sig3" "r" ex_state "b")
    as [_ H].
  destruct H as (e & He & _ & Hs & _ & _ & Hc); [set_solver|]. exists e. split_and!; [exact He|exact Hs|].
  destruct Hc as [[Hm _]|[Hp _]]; [|exact Hp].
  exfalso. vm_compute in He. injection He as <-. discriminate Hm.
Defined.

(** When the copies of a shared destination diverged (a flush was cut
    short), the loaded entry is one of the copies and the one with the most
    progress, in whatever order the ImageSets are read: Mirrored as soon as
    any copy is, and otherwise a copy with the highest retry count. *)
Theorem mergeLoaded_progress e es :
  let r := foldl (λ acc e, mergeLoadedEntry (Some acc) e) e es in
  r ∈ e :: es ∧
  (State r = stateMirrored ↔ ∃ c, c ∈ e :: es ∧ State c = stateMirrored) ∧
  (State r ≠ stateMirrored → ∀ c, c ∈ e :: es → (RetryCount c ≤ RetryCount r)%Z).
Proof.
  intros r. subst r. induction es as [|x es IH] using rev_ind.
  - cbn. split_and!; [set_solver|set_solver|]. intros _ c Hc. apply list_elem_of_singleton in Hc as ->. lia.
  - rewrite foldl_app. cbn [foldl]. set (r := foldl _ e es) in *. destruct IH as (Hin & Hm & Hmax).
    unfold mergeLoadedEntry.
    destruct (String.eqb_spec (State x) stateMirrored) as [Hx|Hx]; cbn [orb].
    { split_and!; [set_solver|set_solver|done]. }
    destruct (String.eqb_spec (State r) stateMirrored) as [Hr|Hr].
    { split_and!; [set_solver|set_solver|done]. }
    assert (Hno : ∀ c, c ∈ e :: es ++ [x] → State c ≠ stateMirrored).
    { intros c Hc Hs. rewrite app_comm_cons, elem_of_app in Hc. destruct Hc as [Hc|Hc%list_elem_of_singleton].
      - apply Hr, Hm. eauto.
      - by subst. }
    specialize (Hmax Hr).
    destruct (Z.ltb_spec (RetryCount r) (RetryCount x)); (split_and!;
      [set_solver|split; [done|naive_solver]|]); intros _ c Hc;
      rewrite app_comm_cons, elem_of_app in Hc; destruct Hc as [Hc|Hc%list_elem_of_singleton]; subst;
      try apply Hmax in Hc; lia.
Qed.
