(* ===== verification/ManagerState.v ===== *)
(** * The mirror manager's in-memory state and its handlers

    The part of pkg/mirror/manager/manager.go (and the reset functions of
    manager_resolve.go) that changes the state protected by [m.mu]: worker
    reports, finished worker pods, drift-check results, resets and the retry
    budget.  Each critical section is a function on [MirrorManager]; a Go
    function that releases the lock in between (a pod list, a registry query)
    is split there, so that other critical sections can run in the gap.  The
    relation [mstep] collects the critical sections; theorems about
    interleavings are about its transitive closure.

    Time is a count of nanoseconds.  What the clock and [math/rand] return is
    an argument ([Env]); [rand n] is the result of [Int64N(n)]. *)
From S2P Require Import Prelude Effects GoStrings ImageRef ImageState Owners.

(** ** Constants *)

Definition second : Z := 1000000000.
Definition minute : Z := 60 * second.
Definition hour : Z := 60 * minute.

Definition defaultMaxRetries : Z := 10.
Definition retryBackoffBase : Z := minute.
Definition retryBackoffMax : Z := hour.
Definition workerPendingTimeout : Z := 15 * minute.

Record Env := mkEnv { now : Z; rand : Z → Z }.

(** [mathrand.Int64N(n)] returns a value in [0, n). *)
Definition env_ok (ev : Env) : Prop := ∀ n, (0 < n)%Z → (0 ≤ rand ev n < n)%Z.

(** ** State *)

Record WorkerStatusRequest := mkReq {
  req_PodName : string;
  req_Destination : string;
  req_Digest : string;
  req_Error : string;
}.

Record MirrorManager := mkManager {
  workerToken : string;
  urgentFlush : bool; (* the signal channel holds a token *)
  statusQueue : list WorkerStatusRequest;
  inProgress : gmap string string; (* dest → podName *)
  mirrored : gmap string bool;
  imageState : gmap string ImageEntry;
  owners : gmap string (list string);
  ownerMeta : gmap string (gmap string specMeta);
  catalogDigests : gmap string (gmap string string);
  lastDriftCheck : option Z; (* the zero time is [None] *)
  stateDirty : bool;
  summaryWritten : bool;
  statusDirty : bool;
  driftSweepRunning : bool;
  maxRetries : Z;
}.

(** Field assignments. *)
Definition set_urgentFlush (v : bool) (m : MirrorManager) : MirrorManager :=
  mkManager (workerToken m) v (statusQueue m) (inProgress m) (mirrored m) (imageState m) (owners m) (ownerMeta m)
    (catalogDigests m) (lastDriftCheck m) (stateDirty m) (summaryWritten m) (statusDirty m) (driftSweepRunning m) (maxRetries m).
Definition set_statusQueue (v : list WorkerStatusRequest) (m : MirrorManager) : MirrorManager :=
  mkManager (workerToken m) (urgentFlush m) v (inProgress m) (mirrored m) (imageState m) (owners m) (ownerMeta m)
    (catalogDigests m) (lastDriftCheck m) (stateDirty m) (summaryWritten m) (statusDirty m) (driftSweepRunning m) (maxRetries m).
Definition set_inProgress (v : gmap string string) (m : MirrorManager) : MirrorManager :=
  mkManager (workerToken m) (urgentFlush m) (statusQueue m) v (mirrored m) (imageState m) (owners m) (ownerMeta m)
    (catalogDigests m) (lastDriftCheck m) (stateDirty m) (summaryWritten m) (statusDirty m) (driftSweepRunning m) (maxRetries m).
Definition set_mirrored (v : gmap string bool) (m : MirrorManager) : MirrorManager :=
  mkManager (workerToken m) (urgentFlush m) (statusQueue m) (inProgress m) v (imageState m) (owners m) (ownerMeta m)
    (catalogDigests m) (lastDriftCheck m) (stateDirty m) (summaryWritten m) (statusDirty m) (driftSweepRunning m) (maxRetries m).
Definition set_imageState (v : gmap string ImageEntry) (m : MirrorManager) : MirrorManager :=
  mkManager (workerToken m) (urgentFlush m) (statusQueue m) (inProgress m) (mirrored m) v (owners m) (ownerMeta m)
    (catalogDigests m) (lastDriftCheck m) (stateDirty m) (summaryWritten m) (statusDirty m) (driftSweepRunning m) (maxRetries m).
Definition set_owners (v : gmap string (list string)) (m : MirrorManager) : MirrorManager :=
  mkManager (workerToken m) (urgentFlush m) (statusQueue m) (inProgress m) (mirrored m) (imageState m) v (ownerMeta m)
    (catalogDigests m) (lastDriftCheck m) (stateDirty m) (summaryWritten m) (statusDirty m) (driftSweepRunning m) (maxRetries m).
Definition set_ownerMeta (v : gmap string (gmap string specMeta)) (m : MirrorManager) : MirrorManager :=
  mkManager (workerToken m) (urgentFlush m) (statusQueue m) (inProgress m) (mirrored m) (imageState m) (owners m) v
    (catalogDigests m) (lastDriftCheck m) (stateDirty m) (summaryWritten m) (statusDirty m) (driftSweepRunning m) (maxRetries m).
Definition set_catalogDigests (v : gmap string (gmap string string)) (m : MirrorManager) : MirrorManager :=
  mkManager (workerToken m) (urgentFlush m) (statusQueue m) (inProgress m) (mirrored m) (imageState m) (owners m) (ownerMeta m)
    v (lastDriftCheck m) (stateDirty m) (summaryWritten m) (statusDirty m) (driftSweepRunning m) (maxRetries m).
Definition set_lastDriftCheck (v : option Z) (m : MirrorManager) : MirrorManager :=
  mkManager (workerToken m) (urgentFlush m) (statusQueue m) (inProgress m) (mirrored m) (imageState m) (owners m) (ownerMeta m)
    (catalogDigests m) v (stateDirty m) (summaryWritten m) (statusDirty m) (driftSweepRunning m) (maxRetries m).
Definition set_stateDirty (v : bool) (m : MirrorManager) : MirrorManager :=
  mkManager (workerToken m) (urgentFlush m) (statusQueue m) (inProgress m) (mirrored m) (imageState m) (owners m) (ownerMeta m)
    (catalogDigests m) (lastDriftCheck m) v (summaryWritten m) (statusDirty m) (driftSweepRunning m) (maxRetries m).
Definition set_summaryWritten (v : bool) (m : MirrorManager) : MirrorManager :=
  mkManager (workerToken m) (urgentFlush m) (statusQueue m) (inProgress m) (mirrored m) (imageState m) (owners m) (ownerMeta m)
    (catalogDigests m) (lastDriftCheck m) (stateDirty m) v (statusDirty m) (driftSweepRunning m) (maxRetries m).
Definition set_statusDirty (v : bool) (m : MirrorManager) : MirrorManager :=
  mkManager (workerToken m) (urgentFlush m) (statusQueue m) (inProgress m) (mirrored m) (imageState m) (owners m) (ownerMeta m)
    (catalogDigests m) (lastDriftCheck m) (stateDirty m) (summaryWritten m) v (driftSweepRunning m) (maxRetries m).
Definition set_driftSweepRunning (v : bool) (m : MirrorManager) : MirrorManager :=
  mkManager (workerToken m) (urgentFlush m) (statusQueue m) (inProgress m) (mirrored m) (imageState m) (owners m) (ownerMeta m)
    (catalogDigests m) (lastDriftCheck m) (stateDirty m) (summaryWritten m) (statusDirty m) v (maxRetries m).
Definition set_maxRetries (v : Z) (m : MirrorManager) : MirrorManager :=
  mkManager (workerToken m) (urgentFlush m) (statusQueue m) (inProgress m) (mirrored m) (imageState m) (owners m) (ownerMeta m)
    (catalogDigests m) (lastDriftCheck m) (stateDirty m) (summaryWritten m) (statusDirty m) (driftSweepRunning m) v.

(** [NewWithClients], with the token [ensureWorkerTokenSecret] loads. *)
Definition NewWithClients (token : string) : MirrorManager :=
  mkManager token false [] ∅ ∅ ∅ ∅ ∅ ∅ None false false false false 0.

(** [m.mirrored[dest]] *)
Definition mirrored_flag (m : MirrorManager) (dest : string) : bool := default false (mirrored m !! dest).

(** [entry.F = v] through the pointer stored in [m.imageState]. *)
Definition put_entry (dest : string) (e : ImageEntry) (m : MirrorManager) : MirrorManager :=
  set_imageState (<[dest := e]> (imageState m)) m.

(** ** Retry budget *)

Definition retryBackoff (ev : Env) (retryCount : Z) : Z :=
  let d := if (1 <=? retryCount)%Z && (retryCount <=? 7)%Z
           then Z.min (Z.shiftl retryBackoffBase (retryCount - 1)) retryBackoffMax
           else retryBackoffMax in
  let jitter := (rand ev (Z.quot d 5) - Z.quot d 10)%Z in
  (d + jitter)%Z.

Definition effectiveMaxRetries (m : MirrorManager) : Z :=
  if (0 <? maxRetries m)%Z then maxRetries m else defaultMaxRetries.

Definition recordFailureLocked (ev : Env) (m : MirrorManager) (entry : ImageEntry) : ImageEntry :=
  let entry := set_RetryCount (wrap64 (RetryCount entry + 1)) entry in
  let entry := set_NextRetryAt (Some (now ev + retryBackoff ev (RetryCount entry))%Z) entry in
  if (effectiveMaxRetries m <=? RetryCount entry)%Z && negb (PermanentlyFailed entry)
  then set_PermanentlyFailed true entry else entry.

(** ** Worker reports *)

Definition resetMirroredLocked (dest : string) (m : MirrorManager) : MirrorManager :=
  set_statusDirty true (set_stateDirty true (set_mirrored (delete dest (mirrored m)) m)).

Definition setImageStateLocked (ev : Env) (dest st lastError : string) (m : MirrorManager) : MirrorManager :=
  match imageState m !! dest with
  | None => m
  | Some entry =>
    if String.eqb (State entry) st && String.eqb (LastError entry) lastError then m
    else
      let entry := set_LastError lastError (set_State st entry) in
      let m := if negb (String.eqb st stateMirrored) then resetMirroredLocked dest m
               else set_statusDirty true (set_stateDirty true m) in
      let entry := if String.eqb st stateFailed then recordFailureLocked ev m entry
                   else set_NextRetryAt None entry in
      put_entry dest entry m
  end.

Definition applyStatusLocked (ev : Env) (req : WorkerStatusRequest) (m : MirrorManager) : MirrorManager :=
  let dest := req_Destination req in
  let m :=
    if negb (String.eqb (req_Error req) "") then setImageStateLocked ev dest stateFailed (req_Error req) m
    else
      let m := match imageState m !! dest with
               | Some _ => set_mirrored (<[dest := true]> (mirrored m)) m
               | None => m
               end in
      let m := setImageStateLocked ev dest stateMirrored "" m in
      match imageState m !! dest with
      | Some entry =>
        if String.eqb (Origin entry) OriginAdditional && negb (String.eqb (req_Digest req) "")
        then set_stateDirty true (put_entry dest (set_SourceDigest (req_Digest req) entry) m)
        else m
      | None => m
      end in
  set_statusDirty true (set_inProgress (delete dest (inProgress m)) m).

Definition enqueueStatus (req : WorkerStatusRequest) (m : MirrorManager) : MirrorManager :=
  set_statusQueue (statusQueue m ++ [req]) m.

Definition queuedSuccess (m : MirrorManager) (dest : string) : bool :=
  existsb (λ req, String.eqb (req_Destination req) dest && String.eqb (req_Error req) "") (statusQueue m).

(** The reports of the queue in arrival order; each has its own clock reading. *)
Definition drainStatusQueueLocked (ev : nat → Env) (m : MirrorManager) : MirrorManager :=
  let queued := statusQueue m in
  let m := set_statusQueue [] m in
  fst (foldl (λ '(m, i) req, (applyStatusLocked (ev i) req m, S i)) (m, 0) queued).

(** [handleStatusUpdate]: [body] is the decoded request ([None]: bad JSON),
    [lockFree] the result of [m.mu.TryLock()].  Returns the HTTP status. *)
Definition handleStatusUpdate (ev : nat → Env) (method authHeader : string)
    (body : option WorkerStatusRequest) (lockFree : bool) (m : MirrorManager) : Z * MirrorManager :=
  if negb (String.eqb method "POST") then (405%Z, m)
  else if negb (String.eqb authHeader ("Bearer " +:+ workerToken m)) then (401%Z, m)
  else match body with
       | None => (400%Z, m)
       | Some req =>
         let m := enqueueStatus req m in
         let m := if lockFree then drainStatusQueueLocked ev m else m in
         (200%Z, set_urgentFlush true m)
       end.

(** [handleShouldMirror]: [gotLock] is the result of [tryRLockFor]. *)
Definition handleShouldMirror (method authHeader dest : string) (gotLock : bool) (m : MirrorManager) : Z :=
  if negb (String.eqb method "GET") then 405
  else if negb (String.eqb authHeader ("Bearer " +:+ workerToken m)) then 401
  else if String.eqb dest "" then 400
  else if queuedSuccess m dest then 410
  else if negb gotLock then 200
  else match imageState m !! dest with
       | None => 410
       | Some entry => if String.eqb (State entry) stateMirrored then 410 else 200
       end.

(** ** Worker pods *)

Definition PodPending : string := "Pending".
Definition PodSucceeded : string := "Succeeded".
Definition PodFailed : string := "Failed".

Record Pod := mkPod {
  pod_Name : string;
  pod_Phase : string;
  pod_Created : option Z; (* the zero time is [None] *)
  pod_destinations : option (option (list string)); (* batch annotation, JSON; [Some None]: does not decode *)
  pod_destination : string; (* legacy single-destination annotation, "" when absent *)
}.

Definition pod_finished (p : Pod) : bool :=
  String.eqb (pod_Phase p) PodSucceeded || String.eqb (pod_Phase p) PodFailed.

(** Recovery after a restart; returns the names of the pods it deletes. *)
Definition sync_pod (acc : MirrorManager * list string) (pod : Pod) : MirrorManager * list string :=
  let '(m, deleted) := acc in
  if pod_finished pod then (m, deleted ++ [pod_Name pod])
  else match pod_destinations pod with
       | Some (Some dests) =>
         (foldl (λ m dest, set_inProgress (<[dest := pod_Name pod]> (inProgress m)) m) m dests, deleted)
       | _ =>
         if String.eqb (pod_destination pod) "" then (m, deleted)
         else (set_inProgress (<[pod_destination pod := pod_Name pod]> (inProgress m)) m, deleted)
       end.

(** [None]: the pods could not be listed. *)
Definition syncInProgressFromPods (pods : option (list Pod)) (m : MirrorManager)
    : option (MirrorManager * list string) :=
  match pods with
  | None => None
  | Some pods => Some (foldl sync_pod (m, []) pods)
  end.

Definition workerPodStuckPending (pod : Pod) (now : Z) : bool :=
  match pod_Created pod with
  | None => false
  | Some created =>
    if negb (String.eqb (pod_Phase pod) PodPending) then false
    else (workerPendingTimeout <? now - created)%Z
  end.

Record finished := mkFinished { f_dest : string; f_podName : string; f_phase : string }.

Definition podsByName (pods : list Pod) : gmap string Pod :=
  foldl (λ acc p, <[pod_Name p := p]> acc) ∅ pods.

(** What the cleanup decides about one tracked destination. *)
Definition finished_one (pods : gmap string Pod) (t : Z) (dest podName : string) : option finished :=
  match pods !! podName with
  | None => Some (mkFinished dest podName "")
  | Some pod =>
    if workerPodStuckPending pod t then Some (mkFinished dest podName PodFailed)
    else if negb (pod_finished pod) then None
    else Some (mkFinished dest podName (pod_Phase pod))
  end.

(** Step 1 of [cleanupFinishedWorkers], without the lock: [snapshot] is the
    copy of [inProgress] taken before the pods were listed. *)
Definition cleanup_done (snapshot : gmap string string) (pods : list Pod) (t : Z) : list finished :=
  omap (λ '(dest, podName), finished_one (podsByName pods) t dest podName) (map_to_list snapshot).

(** Step 2, under the lock. *)
Definition cleanup_one (m : MirrorManager) (ef : Env * finished) : MirrorManager :=
  let '(ev, f) := ef in
  match inProgress m !! f_dest f with
  | Some cur =>
    if String.eqb cur (f_podName f) then
      let m := set_inProgress (delete (f_dest f) (inProgress m)) m in
      if String.eqb (f_phase f) PodFailed then setImageStateLocked ev (f_dest f) statePending "" m else m
    else m
  | None => m
  end.

Definition cleanup_apply (ev : nat → Env) (done : list (Env * finished)) (m : MirrorManager) : MirrorManager :=
  match done with
  | [] => m
  | _ => foldl cleanup_one (drainStatusQueueLocked ev m) done
  end.

(** Steps 3 and 4: the pods that are deleted. *)
Definition cleanup_deletes (done : list finished) (pods : list Pod) : list string :=
  let deleted := foldl (λ acc f,
    if String.eqb (f_phase f) "" then acc
    else if existsb (String.eqb (f_podName f)) acc then acc
    else acc ++ [f_podName f]) [] done in
  deleted ++ omap (λ p, if negb (pod_finished p) then None
                        else if existsb (String.eqb (pod_Name p)) deleted then None
                        else Some (pod_Name p)) pods.

(** [gap]: what the handlers do while the pods are listed without the lock. *)
Definition cleanupFinishedWorkers (ev : nat → Env) (gap : MirrorManager → MirrorManager) (pods : option (list Pod)) (m : MirrorManager)
    : MirrorManager * list string :=
  let snapshot := inProgress m in
  let m := gap m in
  match pods with
  | None => (m, [])
  | Some pods =>
    let done := cleanup_done snapshot pods (now (ev 0)) in
    (cleanup_apply ev ((λ f, (ev 0, f)) <$> done) m, cleanup_deletes done pods)
  end.

(** ** Drift checks *)

Definition drift_candidate (entry : ImageEntry) : bool :=
  String.eqb (State entry) stateMirrored
  || (String.eqb (State entry) stateFailed && PermanentlyFailed entry).

(** [startDriftSweepLocked]: the destinations of the sweep it starts ([None]:
    no sweep), in the order [ks] in which the loop visits the state. *)
Definition startDriftSweepLocked (ks : list string) (m : MirrorManager) : MirrorManager * option (list string) :=
  if driftSweepRunning m then (m, None)
  else
    let destinations := List.filter (λ d,
      match imageState m !! d with Some e => drift_candidate e | None => false end) ks in
    match destinations with
    | [] => (m, None)
    | _ => (set_driftSweepRunning true m, Some destinations)
    end.

Definition anyOwnerRequiresSignedImages (names : list string) (requireSignedByIS : gmap string bool) : bool :=
  existsb (λ n, default false (requireSignedByIS !! n)) names.

(** What the first critical section of [checkDriftAttempt] remembers. *)
Record drift_snap := mkSnap {
  ds_entry : ImageEntry;
  ds_recovery : bool; (* permanentlyFailedRecoveryCheck *)
  ds_needsSignature : bool;
}.

Definition drift_snapshot (dest : string) (requireSignedByIS : gmap string bool) (m : MirrorManager)
    : option drift_snap :=
  match imageState m !! dest with
  | None => None
  | Some entry =>
    if bool_decide (owners_of (owners m) dest = []) then None
    else
      let recovery := String.eqb (State entry) stateFailed && PermanentlyFailed entry in
      if negb (String.eqb (State entry) stateMirrored) && negb recovery then None
      else Some (mkSnap entry recovery
             (negb (SignatureVerified entry)
              && anyOwnerRequiresSignedImages (owners_of (owners m) dest) requireSignedByIS))
  end.

(** The answers of the target and source registries; [inl] is an error. *)
Record Registry := mkRegistry {
  r_exists : string → string + bool;          (* CheckExist *)
  r_digest : string → option string;          (* GetDigest; [None]: error *)
  r_signature : string → string → option string; (* HasValidSignature dest digest; [Some]: error *)
  r_deadline : bool; (* the check's own deadline expired while the sweep's context is alive *)
}.

Definition sourceDigestNoLock (r : Registry) (origin source : string) : option string :=
  if negb (String.eqb origin OriginAdditional) || Contains source "@sha256:" then None
  else r_digest r source.

(** [None]: not checked. *)
Definition signatureErrNoLock (r : Registry) (dest : string) : option (option string) :=
  let digest := destinationDigest dest in
  if String.eqb digest "" then None else Some (r_signature r dest digest).

Definition retryTimedOutCheck (r : Registry) (finalAttempt : bool) (checkErr : bool) : bool :=
  negb finalAttempt && checkErr && r_deadline r.

(** What the network calls between the two critical sections produced. *)
Record drift_result := mkDriftResult {
  dr_exists : string + bool;
  dr_digest : option string;
  dr_signature : option (option string);
}.

(** [None]: the check timed out and is retried later. *)
Definition drift_network (r : Registry) (dest : string) (snap : drift_snap) (finalAttempt : bool)
    : option drift_result :=
  let ex := r_exists r dest in
  if retryTimedOutCheck r finalAttempt (match ex with inl _ => true | inr _ => false end) then None
  else
    match ex with
    | inr true =>
      if ds_recovery snap then Some (mkDriftResult ex None None)
      else
        let digest := sourceDigestNoLock r (Origin (ds_entry snap)) (Source (ds_entry snap)) in
        let upstreamMoved := match digest with
          | Some g => negb (String.eqb (SourceDigest (ds_entry snap)) "")
                      && negb (String.eqb (SourceDigest (ds_entry snap)) g)
          | None => false end in
        let sig := if negb upstreamMoved && ds_needsSignature snap then signatureErrNoLock r dest else None in
        Some (mkDriftResult ex digest sig)
    | _ => Some (mkDriftResult ex None None)
    end.

(** [applySourceDigestLocked]: the entry, whether it changed, whether it drifted. *)
Definition applySourceDigestLocked (entry : ImageEntry) (digest : string) : ImageEntry * bool * bool :=
  let drifted := negb (String.eqb (SourceDigest entry) "") && negb (String.eqb (SourceDigest entry) digest) in
  if negb (String.eqb (SourceDigest entry) digest)
  then (set_SourceDigest digest entry, true, drifted)
  else (entry, false, drifted).

Definition applySignatureResultLocked (ev : Env) (dest : string) (entry : ImageEntry) (sigErr : option string)
    (m : MirrorManager) : MirrorManager :=
  match sigErr with
  | None => set_stateDirty true (put_entry dest (set_SignatureVerified true entry) m)
  | Some err =>
    let entry := set_SignatureVerified false
      (set_LastError ("signature check failed: " +:+ err) (set_State stateFailed entry)) in
    let m := put_entry dest (recordFailureLocked ev m entry) m in
    set_statusDirty true (set_stateDirty true (set_mirrored (<[dest := false]> (mirrored m)) m))
  end.

(** The entry as a drift reset leaves it: Pending with a fresh retry window. *)
Definition pending_again (entry : ImageEntry) : ImageEntry :=
  set_NextRetryAt None (set_RetryCount 0 (set_LastError "" (set_State statePending entry))).

(** The recovery half of the second critical section. *)
Definition drift_apply_recovery (dest : string) (entry : ImageEntry) (ex : string + bool)
    (m : MirrorManager) : MirrorManager :=
  match ex with
  | inl _ => m
  | inr true =>
    set_stateDirty true (put_entry dest (set_LastError "" (set_State stateMirrored entry))
      (set_mirrored (<[dest := true]> (mirrored m)) m))
  | inr false =>
    resetMirroredLocked dest
      (put_entry dest (set_NextRetryAt None (set_RetryCount 0 (set_State statePending entry))) m)
  end.

(** The second critical section of [checkDriftAttempt]. *)
Definition drift_apply (ev : Env) (dest : string) (snap : drift_snap) (res : drift_result)
    (m : MirrorManager) : MirrorManager :=
  match imageState m !! dest with
  | None => m
  | Some entry =>
    let s := ds_entry snap in
    if negb (String.eqb (State entry) (State s)) || negb (Bool.eqb (PermanentlyFailed entry) (PermanentlyFailed s))
       || negb (String.eqb (Source entry) (Source s)) then m
    else if ds_recovery snap then drift_apply_recovery dest entry (dr_exists res) m
    else
      let keep := set_mirrored (<[dest := true]> (mirrored m)) m in
      match dr_exists res with
      | inl _ => keep
      | inr false => resetMirroredLocked dest (put_entry dest (pending_again entry) m)
      | inr true =>
        let '(entry', changed, drifted) := match dr_digest res with
          | Some g => applySourceDigestLocked entry g
          | None => (entry, false, false) end in
        let m := put_entry dest entry' (if changed then set_stateDirty true m else m) in
        if drifted then resetMirroredLocked dest (put_entry dest (pending_again entry') m)
        else
          let m := set_mirrored (<[dest := true]> (mirrored m)) m in
          match dr_signature res with
          | Some sigErr => if negb (SignatureVerified entry') then applySignatureResultLocked ev dest entry' sigErr m else m
          | None => m
          end
      end
  end.

(** [checkDriftAttempt] with the state it finds when it takes the lock the
    second time ([gap] is what ran in between); the boolean is [retryLater]. *)
Definition checkDriftAttempt (ev : Env) (r : Registry) (dest : string) (requireSignedByIS : gmap string bool)
    (finalAttempt : bool) (gap : MirrorManager → MirrorManager) (m : MirrorManager) : MirrorManager * bool :=
  match drift_snapshot dest requireSignedByIS m with
  | None => (m, false)
  | Some snap =>
    match drift_network r dest snap finalAttempt with
    | None => (gap m, true)
    | Some res => (drift_apply ev dest snap res (gap m), false)
    end
  end.

(** One pass of the sweep, the destinations checked one after the other with
    other critical sections ([gap i]) in between; returns those to retry. *)
Fixpoint runDriftPass (ev : nat → Env) (r : nat → Registry) (requireSignedByIS : gmap string bool)
    (finalAttempt : bool) (gap : nat → MirrorManager → MirrorManager) (i : nat)
    (destinations : list string) (m : MirrorManager) : MirrorManager * list string :=
  match destinations with
  | [] => (m, [])
  | dest :: rest =>
    let '(m, retry) := checkDriftAttempt (ev i) (r i) dest requireSignedByIS finalAttempt (gap i) m in
    let '(m, timedOut) := runDriftPass ev r requireSignedByIS finalAttempt gap (S i) rest m in
    (m, if retry then dest :: timedOut else timedOut)
  end.

Definition runDriftSweep (ev : nat → Env) (r : nat → Registry) (requireSignedByIS : gmap string bool)
    (gap : nat → MirrorManager → MirrorManager) (ctxDone : bool) (destinations : list string)
    (m : MirrorManager) : MirrorManager :=
  let '(m, timedOut) := runDriftPass ev r requireSignedByIS false gap 0 destinations m in
  let m := if bool_decide (timedOut = []) || ctxDone then m
           else fst (runDriftPass ev r requireSignedByIS true gap (length destinations) timedOut m) in
  set_driftSweepRunning false m.

(** ** Resets requested by annotations (manager_resolve.go) *)

Definition resync_skips (entry : ImageEntry) : bool :=
  String.eqb (State entry) statePending && (RetryCount entry =? 0)%Z
  && String.eqb (LastError entry) "" && negb (SignatureVerified entry).

Definition in_flight (m : MirrorManager) (dest : string) : bool :=
  negb (String.eqb (default "" (inProgress m !! dest)) "").

Definition resync_one (isName dest : string) (entry : ImageEntry) (acc : MirrorManager * bool)
    : MirrorManager * bool :=
  let '(m, changed) := acc in
  if negb (hasOwner (owners m) dest isName) then acc
  else if in_flight m dest then acc
  else if resync_skips entry then acc
  else (set_mirrored (<[dest := false]> (mirrored m))
          (put_entry dest (set_SignatureVerified false (pending_again entry)) m), true).

Definition resetImageSetToPendingLocked (isName : string) (m : MirrorManager) : MirrorManager * bool :=
  map_fold (resync_one isName) (m, false) (imageState m).

Definition recollect_one (isName dest : string) (entry : ImageEntry) (acc : MirrorManager * bool)
    : MirrorManager * bool :=
  let '(m, changed) := acc in
  if negb (String.eqb (State entry) stateFailed) || negb (hasOwner (owners m) dest isName) then acc
  else if in_flight m dest then acc
  else (put_entry dest (pending_again entry) m, true).

Definition resetFailedForRecollectLocked (isName : string) (m : MirrorManager) : MirrorManager * bool :=
  map_fold (recollect_one isName) (m, false) (imageState m).

(** ** ImageSets removed from the target *)

Definition containsString (slice : list string) (s : string) : bool := existsb (String.eqb s) slice.

Definition drop_one (imageSets : list string) (dest : string) (names : list string)
    (acc : MirrorManager * bool) : MirrorManager * bool :=
  let '(m, changed) := acc in
  let kept := List.filter (containsString imageSets) names in
  if bool_decide (length kept = length names) then acc
  else if negb (bool_decide (kept = [])) then
    let m := set_owners (<[dest := kept]> (owners m)) m in
    (set_ownerMeta (pruneOwnerMeta (owners m) dest (ownerMeta m)) m, true)
  else
    let m := set_owners (delete dest (owners m)) m in
    let m := set_ownerMeta (delete dest (ownerMeta m)) m in
    let m := set_imageState (delete dest (imageState m)) m in
    (set_mirrored (delete dest (mirrored m)) m, true).

Definition dropRemovedImageSetsLocked (imageSets : list string) (m : MirrorManager) : MirrorManager * bool :=
  let '(m, changed) := map_fold (drop_one imageSets) (m, false) (owners m) in
  (set_catalogDigests (filter (λ kv, containsString imageSets (fst kv) = true) (catalogDigests m)) m, changed).

(** [setCatalogDigestsLocked]; a nil map compares equal to an empty one. *)
Definition setCatalogDigestsLocked (isName : string) (digests : gmap string string) (m : MirrorManager)
    : MirrorManager * bool :=
  if bool_decide (default ∅ (catalogDigests m !! isName) = digests) then (m, false)
  else (set_catalogDigests (<[isName := digests]> (catalogDigests m)) m, true).

(** ** Steps of the system

    One critical section each, of the handlers and background tasks that run
    beside the tick; the phases of the tick are Reconcile.v's, and Tick.v puts
    both together.  A drift result is applied together with a
    snapshot taken from some earlier state [m0]; the pods a cleanup acts on
    are any list. *)
Inductive mstep : MirrorManager → MirrorManager → Prop :=
| step_status ev method auth body lockFree m :
    mstep m (snd (handleStatusUpdate ev method auth body lockFree m))
| step_drain ev m : mstep m (drainStatusQueueLocked ev m)
| step_cleanup ev done m : mstep m (cleanup_apply ev done m)
| step_sync pods m m' deleted : syncInProgressFromPods pods m = Some (m', deleted) → mstep m m'
| step_sweep ks m : mstep m (fst (startDriftSweepLocked ks m))
| step_sweep_done m : mstep m (set_driftSweepRunning false m)
| step_drift ev dest req m0 snap res m :
    drift_snapshot dest req m0 = Some snap → mstep m (drift_apply ev dest snap res m)
| step_resync isName m : mstep m (fst (resetImageSetToPendingLocked isName m))
| step_recollect isName m : mstep m (fst (resetFailedForRecollectLocked isName m))
| step_drop imageSets m : mstep m (fst (dropRemovedImageSetsLocked imageSets m))
| step_digests isName digests m : mstep m (fst (setCatalogDigestsLocked isName digests m)).

#[export] Hint Constructors mstep : oc.

(** * Lemmas *)

(** Projections of record updates are computed. *)
Ltac msimpl := repeat progress (cbn [imageState mirrored inProgress owners ownerMeta catalogDigests statusQueue
  workerToken stateDirty statusDirty driftSweepRunning maxRetries urgentFlush lastDriftCheck summaryWritten
  set_urgentFlush set_statusQueue set_inProgress set_mirrored set_imageState set_owners set_ownerMeta
  set_catalogDigests set_lastDriftCheck set_stateDirty set_summaryWritten set_statusDirty set_driftSweepRunning
  set_maxRetries put_entry resetMirroredLocked fst snd] in *).

(** ** What a step may do to the working set *)

(** No entry appears; the surviving ones keep their source and their spec
    metadata, and a permanently failed one stays permanently failed. *)
Definition entry_evolves (e e' : ImageEntry) : Prop :=
  Source e' = Source e ∧ specMetaOf e' = specMetaOf e ∧
  (PermanentlyFailed e = true → PermanentlyFailed e' = true).

Definition evolves (m m' : MirrorManager) : Prop :=
  ∀ d e', imageState m' !! d = Some e' → ∃ e, imageState m !! d = Some e ∧ entry_evolves e e'.

#[export] Instance entry_evolves_preorder : PreOrder entry_evolves.
Proof.
  split.
  - by intros e.
  - intros e1 e2 e3 (? & ? & ?) (? & ? & ?). unfold entry_evolves. split_and!; [congruence..|auto].
Qed.

#[export] Instance evolves_preorder : PreOrder evolves.
Proof.
  split.
  - intros m d e' ?. exists e'. done.
  - intros m1 m2 m3 H1 H2 d e3 H3. apply H2 in H3 as (e2 & H3 & He). apply H1 in H3 as (e1 & ? & He').
    exists e1. split; [done|]. by etransitivity.
Qed.

(** The fast-path flag is only set on entries that are Mirrored. *)
Definition flag_inv (m : MirrorManager) : Prop :=
  ∀ d, mirrored_flag m d = true → ∃ e, imageState m !! d = Some e ∧ State e = stateMirrored.

(** Both, the ownership invariant, and that no owner appears, in one
    preservation statement. *)
Definition safe (m m' : MirrorManager) : Prop :=
  evolves m m' ∧ (flag_inv m → flag_inv m') ∧
  (owners_wf (imageState m) (owners m) → owners_wf (imageState m') (owners m')) ∧
  (∀ d n, n ∈ owners_of (owners m') d → n ∈ owners_of (owners m) d).

#[export] Instance safe_preorder : PreOrder safe.
Proof.
  split.
  - intros m. by split_and!.
  - intros m1 m2 m3 (? & ? & ? & ?) (? & ? & ? & ?). split_and!; [by etransitivity|auto..].
Qed.

(** Steps that touch neither the entries, the flags nor the owners. *)
Lemma safe_same m m' :
  imageState m' = imageState m → mirrored m' = mirrored m → owners m' = owners m → safe m m'.
Proof.
  intros E1 E2 E3. split_and!.
  - intros d e'. rewrite E1. intros ?. exists e'. done.
  - unfold flag_inv, mirrored_flag. by rewrite E1, E2.
  - by rewrite E1, E3.
  - by rewrite E3.
Qed.

Lemma owners_wf_put state ows d e :
  owners_wf state ows → owners_wf (<[d := e]> state) ows.
Proof.
  intros Hwf d' ns Hn. apply Hwf in Hn as (? & ? & Hs). split_and!; [done..|].
  destruct (decide (d' = d)) as [->|]; [rewrite lookup_insert_eq|rewrite lookup_insert_ne]; eauto.
Qed.

(** Replacing one existing entry, with the flag as the code leaves it. *)
Lemma safe_put m m' d e e' :
  imageState m !! d = Some e → entry_evolves e e' →
  imageState m' = <[d := e']> (imageState m) → owners m' = owners m →
  (∀ d', d' ≠ d → mirrored_flag m' d' = mirrored_flag m d') →
  (flag_inv m → mirrored_flag m' d = true → State e' = stateMirrored) →
  safe m m'.
Proof.
  intros He Hev E1 E2 Hf Hd. split_and!.
  - intros d' x. rewrite E1. destruct (decide (d' = d)) as [->|].
    + rewrite lookup_insert_eq. intros [= <-]. eauto.
    + rewrite lookup_insert_ne by done. intros ?. exists x. done.
  - intros Hinv d' Hm. destruct (decide (d' = d)) as [->|].
    + exists e'. rewrite E1, lookup_insert_eq. auto.
    + rewrite Hf in Hm by done. rewrite E1, lookup_insert_ne by done. by apply Hinv.
  - intros Hwf. rewrite E1, E2. by apply owners_wf_put.
  - by rewrite E2.
Qed.

Lemma flag_insert m d d' b : d' ≠ d → default false (<[d := b]> (mirrored m) !! d') = mirrored_flag m d'.
Proof. intros. by rewrite lookup_insert_ne. Qed.
Lemma flag_insert_eq m d b : default false (<[d := b]> (mirrored m) !! d) = b.
Proof. by rewrite lookup_insert_eq. Qed.
Lemma flag_delete m d d' : d' ≠ d → default false (delete d (mirrored m) !! d') = mirrored_flag m d'.
Proof. intros. by rewrite lookup_delete_ne. Qed.
Lemma flag_delete_eq m d : default false (delete d (mirrored m) !! d) = false.
Proof. by rewrite lookup_delete_eq. Qed.
Create Rewrite HintDb oc_flag.
#[export] Hint Rewrite flag_insert_eq flag_delete_eq : oc_flag.

Ltac flags := unfold mirrored_flag in *; msimpl;
  first [by autorewrite with oc_flag | intros; by rewrite flag_insert | intros; by rewrite flag_delete | done].

(** ** Failures *)

Lemma recordFailure_evolves ev m e : entry_evolves e (recordFailureLocked ev m e).
Proof.
  unfold recordFailureLocked, entry_evolves. destruct e; cbn. by destruct (_ && _).
Qed.

Lemma recordFailure_State ev m e : State (recordFailureLocked ev m e) = State e.
Proof. unfold recordFailureLocked. cbn. by destruct (_ && _). Qed.

Lemma recordFailure_LastError ev m e : LastError (recordFailureLocked ev m e) = LastError e.
Proof. unfold recordFailureLocked. cbn. by destruct (_ && _). Qed.

(** The entry [setImageStateLocked] stores. *)
Definition stated (ev : Env) (m : MirrorManager) (st lastError : string) (e : ImageEntry) : ImageEntry :=
  if String.eqb (State e) st && String.eqb (LastError e) lastError then e
  else
    let e := set_LastError lastError (set_State st e) in
    if String.eqb st stateFailed then recordFailureLocked ev m e else set_NextRetryAt None e.

Lemma stated_State ev m st err e : State (stated ev m st err e) = st ∧ LastError (stated ev m st err e) = err.
Proof.
  unfold stated. destruct (String.eqb_spec (State e) st), (String.eqb_spec (LastError e) err); cbn;
    destruct (String.eqb st stateFailed); cbn; rewrite ?recordFailure_State, ?recordFailure_LastError; done.
Qed.

Lemma stated_evolves ev m st err e : entry_evolves e (stated ev m st err e).
Proof.
  unfold stated. destruct (_ && _); [done|].
  destruct (String.eqb st stateFailed); [|done]. etransitivity; [|apply recordFailure_evolves]. done.
Qed.

Lemma setImageState_state ev d st err m :
  imageState (setImageStateLocked ev d st err m) =
    match imageState m !! d with Some e => <[d := stated ev m st err e]> (imageState m) | None => imageState m end.
Proof.
  unfold setImageStateLocked, stated. destruct (imageState m !! d) as [e|] eqn:E; [|done].
  destruct (_ && _); [by rewrite insert_id|]. by destruct (String.eqb st stateMirrored), (String.eqb st stateFailed).
Qed.

Lemma setImageState_frame ev d st err m :
  owners (setImageStateLocked ev d st err m) = owners m ∧
  inProgress (setImageStateLocked ev d st err m) = inProgress m ∧
  statusQueue (setImageStateLocked ev d st err m) = statusQueue m ∧
  ownerMeta (setImageStateLocked ev d st err m) = ownerMeta m ∧
  workerToken (setImageStateLocked ev d st err m) = workerToken m ∧
  maxRetries (setImageStateLocked ev d st err m) = maxRetries m.
Proof.
  unfold setImageStateLocked. destruct (imageState m !! d); [|done].
  destruct (_ && _); [done|]. by destruct (negb _).
Qed.

Lemma setImageState_flag ev d st err m d' :
  mirrored_flag (setImageStateLocked ev d st err m) d' =
    match imageState m !! d with
    | Some e => if bool_decide (d' = d) && negb (String.eqb st stateMirrored)
                   && negb (String.eqb (State e) st && String.eqb (LastError e) err)
                then false else mirrored_flag m d'
    | None => mirrored_flag m d'
    end.
Proof.
  unfold setImageStateLocked. destruct (imageState m !! d) as [e|]; [|done].
  destruct (String.eqb (State e) st && _); cbn [negb]; [by rewrite !andb_false_r|]. rewrite andb_true_r.
  destruct (String.eqb st stateMirrored); cbn [negb]; [by rewrite andb_false_r|]. rewrite andb_true_r.
  case_bool_decide; subst; flags.
Qed.

Lemma safe_setImageState ev d st err m : safe m (setImageStateLocked ev d st err m).
Proof.
  pose proof (setImageState_state ev d st err m) as Hs.
  pose proof (setImageState_frame ev d st err m) as (Ho & _).
  pose proof (setImageState_flag ev d st err m) as Hf.
  destruct (imageState m !! d) as [e|] eqn:E.
  - eapply safe_put; [exact E|apply stated_evolves|exact Hs|exact Ho| |].
    + intros d' Hd'. rewrite Hf. by rewrite bool_decide_eq_false_2.
    + intros Hinv. rewrite Hf, bool_decide_eq_true_2 by done. cbn [andb].
      rewrite (proj1 (stated_State ev m st err e)).
      destruct (String.eqb_spec st stateMirrored) as [->|Hne]; [done|]. cbn [negb andb].
      destruct (String.eqb_spec (State e) st) as [Hst|]; cbn; [|done].
      destruct (String.eqb (LastError e) err); cbn; [|done].
      intros Hm. apply Hinv in Hm as (e0 & E0 & ?). congruence.
  - unfold setImageStateLocked. by rewrite E.
Qed.

(** ** Worker reports *)

Lemma safe_applyStatus ev req m : safe m (applyStatusLocked ev req m).
Proof.
  unfold applyStatusLocked. set (d := req_Destination req).
  match goal with |- safe m (set_statusDirty true (set_inProgress _ ?x)) => set (m1 := x) end.
  transitivity m1; [|by apply safe_same]. subst m1.
  destruct (negb (String.eqb (req_Error req) "")); [apply safe_setImageState|].
  destruct (imageState m !! d) as [e|] eqn:E.
  2:{ unfold setImageStateLocked. by rewrite !E. }
  set (m1 := set_mirrored (<[d := true]> (mirrored m)) m).
  pose proof (setImageState_state ev d stateMirrored "" m1) as Hs.
  pose proof (setImageState_frame ev d stateMirrored "" m1) as (Ho & _).
  pose proof (setImageState_flag ev d stateMirrored "" m1) as Hf.
  assert (E1 : imageState m1 !! d = Some e) by exact E. rewrite E1 in Hs, Hf.
  set (m2 := setImageStateLocked ev d stateMirrored "" m1) in *. clearbody m2.
  assert (H12 : ∀ m3 e3, imageState m3 = <[d := e3]> (imageState m) → owners m3 = owners m →
    mirrored m3 = mirrored m2 → entry_evolves e e3 → State e3 = stateMirrored → safe m m3).
  { intros m3 e3 Hi3 Ho3 Hm3 He3 Hs3. eapply safe_put; [exact E|exact He3|exact Hi3|exact Ho3| |by intros].
    intros d' Hd'. unfold mirrored_flag at 1. rewrite Hm3. fold (mirrored_flag m2 d'). rewrite Hf.
    rewrite bool_decide_eq_false_2 by done. cbn. subst m1. flags. }
  destruct (stated_State ev m1 stateMirrored "" e) as [Hst _].
  rewrite Hs, lookup_insert_eq.
  destruct (String.eqb (Origin _) OriginAdditional && _).
  - apply (H12 _ (set_SourceDigest (req_Digest req) (stated ev m1 stateMirrored "" e))).
    + msimpl. rewrite Hs. subst m1. msimpl. by rewrite insert_insert_eq.
    + done.
    + done.
    + apply stated_evolves.
    + done.
  - eapply H12; [exact Hs|done|done|apply stated_evolves|done].
Qed.

(** A loop of safe steps is safe. *)
Lemma safe_foldl {A} (f : MirrorManager → A → MirrorManager) m l :
  (∀ m x, safe m (f m x)) → safe m (foldl f m l).
Proof.
  intros Hf. apply (foldl_inv_simple (safe m)); [done|].
  intros x acc _ Hacc. by etransitivity.
Qed.

Lemma drain_foldl ev reqs m i :
  ∃ l, fst (foldl (λ '(m, i) req, (applyStatusLocked (ev i) req m, S i)) (m, i) reqs) =
       foldl (λ m '(ev, req), applyStatusLocked ev req m) m l ∧ l.*2 = reqs.
Proof.
  revert m i. induction reqs as [|r reqs IH]; intros m i; [by exists []|]. cbn.
  destruct (IH (applyStatusLocked (ev i) r m) (S i)) as (l & El & <-). by exists ((ev i, r) :: l).
Qed.

Lemma safe_drain ev m : safe m (drainStatusQueueLocked ev m).
Proof.
  unfold drainStatusQueueLocked. transitivity (set_statusQueue [] m); [by apply safe_same|].
  destruct (drain_foldl ev (statusQueue m) (set_statusQueue [] m) 0) as (l & -> & _).
  apply safe_foldl. intros ? []. apply safe_applyStatus.
Qed.

Lemma safe_cleanup_one m ef : safe m (cleanup_one m ef).
Proof.
  destruct ef as [ev f]. unfold cleanup_one. destruct (inProgress m !! f_dest f); [|done].
  destruct (String.eqb _ _); [|done].
  transitivity (set_inProgress (delete (f_dest f) (inProgress m)) m); [by apply safe_same|].
  destruct (String.eqb (f_phase f) PodFailed); [apply safe_setImageState|done].
Qed.

Lemma safe_cleanup ev done m : safe m (cleanup_apply ev done m).
Proof.
  unfold cleanup_apply. destruct done; [done|].
  etransitivity; [apply safe_drain|]. apply safe_foldl, safe_cleanup_one.
Qed.

Lemma safe_status ev method auth body lockFree m :
  safe m (snd (handleStatusUpdate ev method auth body lockFree m)).
Proof.
  unfold handleStatusUpdate. destruct (negb _); [done|]. destruct (negb _); [done|].
  destruct body as [req|]; [|done]. cbn [snd].
  transitivity (if lockFree then drainStatusQueueLocked ev (enqueueStatus req m) else enqueueStatus req m);
    [|by apply safe_same].
  destruct lockFree; [etransitivity; [|apply safe_drain]|]; by apply safe_same.
Qed.

Lemma sync_dests name dests m :
  let m' := foldl (λ m dest, set_inProgress (<[dest := name]> (inProgress m)) m) m dests in
  imageState m' = imageState m ∧ mirrored m' = mirrored m ∧ owners m' = owners m.
Proof.
  apply (foldl_inv_simple (λ m', imageState m' = imageState m ∧ mirrored m' = mirrored m ∧ owners m' = owners m));
    [done|]. by intros.
Qed.

Lemma safe_sync pods m m' deleted : syncInProgressFromPods pods m = Some (m', deleted) → safe m m'.
Proof.
  unfold syncInProgressFromPods. destruct pods as [pods|]; [|done]. intros [= E].
  assert (imageState m' = imageState m ∧ mirrored m' = mirrored m ∧ owners m' = owners m) as (? & ? & ?);
    [|by apply safe_same].
  change m' with (fst (m', deleted)). rewrite <- E.
  apply (foldl_inv_simple (λ acc, imageState (fst acc) = imageState m ∧ mirrored (fst acc) = mirrored m
    ∧ owners (fst acc) = owners m)); [done|].
  intros pod [acc del] _ (H1 & H2 & H3). cbn in *. destruct (pod_finished pod); [done|].
  destruct (pod_destinations pod) as [[dests|]|]; cbn.
  - destruct (sync_dests (pod_Name pod) dests acc) as (-> & -> & ->). done.
  - by destruct (String.eqb _ _).
  - by destruct (String.eqb _ _).
Qed.

(** ** Drift results *)

Lemma pending_again_evolves e : entry_evolves e (pending_again e).
Proof. by destruct e. Qed.

(** A snapshot is only taken of entries the sweep is responsible for. *)
Lemma drift_snapshot_ok dest req m snap :
  drift_snapshot dest req m = Some snap →
  ds_recovery snap = String.eqb (State (ds_entry snap)) stateFailed && PermanentlyFailed (ds_entry snap) ∧
  (ds_recovery snap = false → State (ds_entry snap) = stateMirrored).
Proof.
  unfold drift_snapshot. destruct (imageState m !! dest) as [e|]; [|done].
  case_bool_decide; [done|].
  destruct (String.eqb_spec (State e) stateMirrored) as [Hm|Hm]; cbn.
  - intros [= <-]. cbn. done.
  - destruct (_ && _) eqn:E; cbn; [|done]. intros [= <-]. cbn. by rewrite E.
Qed.

Lemma drift_apply_cases ev dest snap res m :
  (drift_apply ev dest snap res m = m) ∨
  ∃ e, imageState m !! dest = Some e ∧ State e = State (ds_entry snap) ∧
    PermanentlyFailed e = PermanentlyFailed (ds_entry snap) ∧ Source e = Source (ds_entry snap).
Proof.
  unfold drift_apply. destruct (imageState m !! dest) as [e|]; [|by left].
  destruct (String.eqb_spec (State e) (State (ds_entry snap))); [|by left].
  destruct (Bool.eqb _ _) eqn:Ep; [|by left].
  destruct (String.eqb_spec (Source e) (Source (ds_entry snap))); [|by left].
  right. exists e. apply eqb_prop in Ep. done.
Qed.

Lemma safe_signature ev dest e entry sigErr m :
  imageState m !! dest = Some e → entry_evolves e entry → State entry = stateMirrored →
  safe m (applySignatureResultLocked ev dest entry sigErr m).
Proof.
  intros He Hev Hs. unfold applySignatureResultLocked. destruct sigErr as [err|].
  - eapply safe_put; [exact He| |reflexivity|reflexivity|flags|].
    + etransitivity; [|apply recordFailure_evolves]. exact Hev.
    + intros _. unfold mirrored_flag. msimpl. by rewrite flag_insert_eq.
  - eapply safe_put; [exact He| |reflexivity|reflexivity|flags|by intros].
    by destruct entry, Hev as (? & ? & ?).
Qed.

Lemma safe_drift ev dest req m0 snap res m :
  drift_snapshot dest req m0 = Some snap → safe m (drift_apply ev dest snap res m).
Proof.
  intros [Hrec Hmir]%drift_snapshot_ok. unfold drift_apply.
  destruct (imageState m !! dest) as [e|] eqn:E; [|done].
  destruct (String.eqb_spec (State e) (State (ds_entry snap))) as [Hst|]; [|done].
  destruct (Bool.eqb _ _); [|done]. destruct (String.eqb (Source e) _); [|done]. cbn [negb orb].
  destruct (ds_recovery snap).
  - unfold drift_apply_recovery. destruct (dr_exists res) as [|[]]; [done|..].
    + eapply safe_put; [exact E| |reflexivity|reflexivity|flags|by intros]. by destruct e.
    + eapply safe_put; [exact E| |reflexivity|reflexivity|flags|].
      * by destruct e.
      * unfold mirrored_flag. msimpl. by rewrite flag_delete_eq.
  - rewrite (Hmir eq_refl) in Hst.
    assert (Hkeep : ∀ m', imageState m' = <[dest := e]> (imageState m) → owners m' = owners m →
      mirrored m' = <[dest := true]> (mirrored m) → safe m m').
    { intros m' Hi Ho Hm. eapply safe_put; [exact E|reflexivity|exact Hi|exact Ho| |by intros].
      intros. unfold mirrored_flag at 1. rewrite Hm. by rewrite flag_insert. }
    destruct (dr_exists res) as [|[]].
    + apply Hkeep; [symmetry; by apply insert_id|done..].
    + set (x := match dr_digest res with Some g => _ | None => _ end).
      assert (Hx : entry_evolves e (fst (fst x)) ∧ State (fst (fst x)) = stateMirrored).
      { subst x. unfold applySourceDigestLocked. destruct (dr_digest res); [|done].
        destruct (negb (String.eqb (SourceDigest e) s)); cbn; [|done]. by destruct e. }
      destruct x as [[e' changed] drifted]. cbn in Hx. destruct Hx as [Hev Hs'].
      set (m1 := put_entry dest e' (if changed then set_stateDirty true m else m)).
      assert (H1 : safe m (set_mirrored (<[dest := true]> (mirrored m1)) m1)).
      { subst m1. eapply safe_put; [exact E|exact Hev|by destruct changed|by destruct changed| |by intros].
        destruct changed; flags. }
      destruct drifted.
      * apply (safe_put _ _ dest e (pending_again e')); [exact E|..].
        -- etransitivity; [exact Hev|apply pending_again_evolves].
        -- subst m1. destruct changed; msimpl; by rewrite insert_insert_eq.
        -- subst m1. by destruct changed.
        -- subst m1. destruct changed; flags.
        -- subst m1. unfold mirrored_flag. destruct changed; msimpl; by rewrite flag_delete_eq.
      * destruct (dr_signature res) as [sigErr|]; [|exact H1].
        destruct (negb _); [|exact H1]. etransitivity; [exact H1|].
        eapply (safe_signature _ _ e'); [|done|done].
        subst m1. destruct changed; msimpl; by rewrite lookup_insert_eq.
    + eapply safe_put; [exact E|apply pending_again_evolves|reflexivity|reflexivity|flags|].
      unfold mirrored_flag. msimpl. by rewrite flag_delete_eq.
Qed.

(** ** Resets *)

(** A pass over all entries that only lowers flags. *)
Lemma safe_fmap m m' (f : string → ImageEntry → ImageEntry) :
  (∀ d, imageState m' !! d = f d <$> imageState m !! d) → owners m' = owners m →
  (∀ d e, imageState m !! d = Some e → entry_evolves e (f d e)) →
  (∀ d, mirrored_flag m' d = true → mirrored_flag m d = true ∧
     ∀ e, imageState m !! d = Some e → State e = stateMirrored → State (f d e) = stateMirrored) →
  safe m m'.
Proof.
  intros Hi Ho Hev Hf. split_and!.
  - intros d e'. rewrite Hi. destruct (imageState m !! d) as [e|] eqn:E; [|done]. intros [= <-]. eauto.
  - intros Hinv d Hm. apply Hf in Hm as [Hm Hs]. apply Hinv in Hm as (e & E & ?).
    exists (f d e). rewrite Hi, E. eauto.
  - intros Hwf. rewrite Ho. eapply map_Forall_impl; [exact Hwf|]. cbn.
    intros d ns (? & ? & [e E]). split_and!; [done..|]. rewrite Hi, E. eauto.
  - by rewrite Ho.
Qed.

(** What belongs to a destination, with the fields the resets only read. *)
Definition dest_view (d : string) (acc : MirrorManager * bool) :=
  (imageState (fst acc) !! d, mirrored (fst acc) !! d, owners (fst acc), inProgress (fst acc)).

Definition resync_hits (isName : string) (ows : gmap string (list string)) (ip : gmap string string)
    (d : string) (e : ImageEntry) : bool :=
  hasOwner ows d isName && String.eqb (default "" (ip !! d)) "" && negb (resync_skips e).

Lemma resync_view isName m d :
  dest_view d (resetImageSetToPendingLocked isName m) =
    match imageState m !! d with
    | Some e => if resync_hits isName (owners m) (inProgress m) d e
                then (Some (set_SignatureVerified false (pending_again e)), Some false, owners m, inProgress m)
                else dest_view d (m, false)
    | None => dest_view d (m, false)
    end.
Proof.
  unfold resetImageSetToPendingLocked.
  rewrite (range_pointwise dest_view (resync_one isName)
    (λ k e x, let '(_, _, ows, ip) := x in
       if resync_hits isName ows ip k e
       then (Some (set_SignatureVerified false (pending_again e)), Some false, ows, ip) else x)); [done|..].
  - intros k e [acc ch]. unfold resync_one, resync_hits, in_flight, dest_view. cbn.
    destruct (hasOwner _ _ _); [|done]. cbn. destruct (String.eqb _ ""); [|done]. cbn.
    destruct (resync_skips e); [done|]. cbn. by rewrite !lookup_insert_eq.
  - intros k e [acc ch] j Hj. unfold resync_one, dest_view. cbn.
    destruct (negb _); [done|]. destruct (in_flight _ _); [done|]. destruct (resync_skips e); [done|]. cbn.
    by rewrite !lookup_insert_ne.
Qed.

Definition recollect_hits (isName : string) (ows : gmap string (list string)) (ip : gmap string string)
    (d : string) (e : ImageEntry) : bool :=
  String.eqb (State e) stateFailed && hasOwner ows d isName && String.eqb (default "" (ip !! d)) "".

Lemma recollect_view isName m d :
  dest_view d (resetFailedForRecollectLocked isName m) =
    match imageState m !! d with
    | Some e => if recollect_hits isName (owners m) (inProgress m) d e
                then (Some (pending_again e), mirrored m !! d, owners m, inProgress m)
                else dest_view d (m, false)
    | None => dest_view d (m, false)
    end.
Proof.
  unfold resetFailedForRecollectLocked.
  rewrite (range_pointwise dest_view (recollect_one isName)
    (λ k e x, let '(_, fl, ows, ip) := x in
       if recollect_hits isName ows ip k e then (Some (pending_again e), fl, ows, ip) else x)); [done|..].
  - intros k e [acc ch]. unfold recollect_one, recollect_hits, in_flight, dest_view. cbn.
    destruct (String.eqb _ stateFailed); [|done]. cbn. destruct (hasOwner _ _ _); [|done]. cbn.
    destruct (String.eqb _ ""); [|done]. cbn. by rewrite lookup_insert_eq.
  - intros k e [acc ch] j Hj. unfold recollect_one, dest_view. cbn.
    destruct (_ || _); [done|]. destruct (in_flight _ _); [done|]. cbn. by rewrite lookup_insert_ne.
Qed.

Lemma safe_resync isName m : safe m (fst (resetImageSetToPendingLocked isName m)).
Proof.
  pose proof (resync_view isName m) as Hv. unfold dest_view in Hv.
  set (m' := fst (resetImageSetToPendingLocked isName m)) in *. clearbody m'.
  apply (safe_fmap m m' (λ d e, if resync_hits isName (owners m) (inProgress m) d e
    then set_SignatureVerified false (pending_again e) else e)).
  - intros d. specialize (Hv d). destruct (imageState m !! d) eqn:E; cbn in *; [|injection Hv as ? ? ? ?; congruence].
    destruct (resync_hits _ _ _ _ _); injection Hv as ? ? ? ?; congruence.
  - specialize (Hv ""). destruct (imageState m !! ""); [destruct (resync_hits _ _ _ _ _)|]; injection Hv as ? ? ? ?; congruence.
  - intros d e _. destruct (resync_hits _ _ _ _ _); [|done]. by destruct e.
  - intros d. unfold mirrored_flag. specialize (Hv d). destruct (imageState m !! d) as [e|] eqn:E; cbn in Hv.
    + destruct (resync_hits _ _ _ _ _) eqn:Eh; injection Hv as H1 H2 H3 H4; rewrite H2; [done|].
      intros ?. split; [done|]. intros e0 [= <-]. by rewrite Eh.
    + injection Hv as H1 H2 H3 H4. rewrite H2. by intros.
Qed.

Lemma safe_recollect isName m : safe m (fst (resetFailedForRecollectLocked isName m)).
Proof.
  pose proof (recollect_view isName m) as Hv. unfold dest_view in Hv.
  set (m' := fst (resetFailedForRecollectLocked isName m)) in *. clearbody m'.
  apply (safe_fmap m m' (λ d e, if recollect_hits isName (owners m) (inProgress m) d e
    then pending_again e else e)).
  - intros d. specialize (Hv d). destruct (imageState m !! d) eqn:E; cbn in *; [|injection Hv as ? ? ? ?; congruence].
    destruct (recollect_hits _ _ _ _ _); injection Hv as ? ? ? ?; congruence.
  - specialize (Hv ""). destruct (imageState m !! ""); [destruct (recollect_hits _ _ _ _ _)|]; injection Hv as ? ? ? ?; congruence.
  - intros d e _. destruct (recollect_hits _ _ _ _ _); [|done]. by destruct e.
  - intros d. unfold mirrored_flag. specialize (Hv d). destruct (imageState m !! d) as [e|] eqn:E; cbn in Hv.
    + destruct (recollect_hits _ _ _ _ _) eqn:Eh; injection Hv as H1 H2 H3 H4; rewrite H2; intros ?;
        (split; [done|]); intros e0 [= <-]; rewrite Eh; [|done].
      unfold recollect_hits in Eh. intros Hs. rewrite Hs in Eh. done.
    + injection Hv as H1 H2 H3 H4. rewrite H2. by intros.
Qed.

(** ** Removed ImageSets *)

Definition owned_view (d : string) (acc : MirrorManager * bool) :=
  (imageState (fst acc) !! d, mirrored (fst acc) !! d, owners (fst acc) !! d).

Lemma drop_view imageSets m d :
  owned_view d (dropRemovedImageSetsLocked imageSets m) =
    match owners m !! d with
    | Some names =>
      let kept := List.filter (containsString imageSets) names in
      if bool_decide (length kept = length names) then owned_view d (m, false)
      else if bool_decide (kept = []) then (None, None, None)
      else (imageState m !! d, mirrored m !! d, Some kept)
    | None => owned_view d (m, false)
    end.
Proof.
  unfold dropRemovedImageSetsLocked.
  transitivity (owned_view d (map_fold (drop_one imageSets) (m, false) (owners m))).
  { by destruct (map_fold _ _ _). }
  rewrite (range_pointwise owned_view (drop_one imageSets)
    (λ k names x, let kept := List.filter (containsString imageSets) names in
       if bool_decide (length kept = length names) then x
       else if bool_decide (kept = []) then (None, None, None)
       else let '(st, fl, _) := x in (st, fl, Some kept))); [done|..].
  - intros k names [acc ch]. unfold drop_one, owned_view. cbn.
    destruct (bool_decide (length _ = length _)); [done|].
    destruct (bool_decide (List.filter _ _ = [])); cbn; [by rewrite !lookup_delete_eq|by rewrite lookup_insert_eq].
  - intros k names [acc ch] j Hj. unfold drop_one, owned_view. cbn.
    destruct (bool_decide (length _ = length _)); [done|].
    destruct (bool_decide (List.filter _ _ = [])); cbn; [by rewrite !lookup_delete_ne|by rewrite lookup_insert_ne].
Qed.

Lemma safe_drop imageSets m : safe m (fst (dropRemovedImageSetsLocked imageSets m)).
Proof.
  pose proof (drop_view imageSets m) as Hv. unfold owned_view in Hv. cbn zeta in Hv.
  set (m' := fst (dropRemovedImageSetsLocked imageSets m)) in *. clearbody m'.
  assert (Hd : ∀ d, (imageState m' !! d = None ∧ mirrored m' !! d = None ∧ owners m' !! d = None) ∨
    (imageState m' !! d = imageState m !! d ∧ mirrored m' !! d = mirrored m !! d ∧
     (owners m' !! d = owners m !! d ∨ ∃ names, owners m !! d = Some names ∧
        owners m' !! d = Some (List.filter (containsString imageSets) names) ∧
        List.filter (containsString imageSets) names ≠ []))).
  { intros d. specialize (Hv d). destruct (owners m !! d) as [names|] eqn:Eo; cbn in Hv;
      [|right; injection Hv as H1 H2 H3; split_and!; [done|done|left; congruence]].
    destruct (bool_decide (length _ = length _));
      [right; injection Hv as H1 H2 H3; split_and!; [done|done|left; congruence]|].
    case_bool_decide; injection Hv as H1 H2 H3; [by left|right].
    split_and!; [done|done|right]. by exists names. }
  split_and!.
  - intros d e' He. destruct (Hd d) as [(H1 & _)|(H1 & _)]; rewrite H1 in He; [done|]. eexists; done.
  - intros Hinv d. unfold mirrored_flag. destruct (Hd d) as [(_ & H2 & _)|(H1 & H2 & _)]; rewrite H2; [done|].
    rewrite H1. apply Hinv.
  - intros Hwf d ns Hn. destruct (Hd d) as [(_ & _ & H3)|(H1 & _ & [H3|(names & H3 & H4 & H5)])].
    + congruence.
    + rewrite H3 in Hn. rewrite H1. by apply Hwf.
    + apply Hwf in H3 as (_ & ? & ?). rewrite H4 in Hn. injection Hn as <-. rewrite H1.
      split_and!; [done| |done]. eapply sublist_NoDup; [done|apply filter_bool_sublist].
  - intros d n. unfold owners_of.
    destruct (Hd d) as [(_ & _ & ->)|(_ & _ & [->|(names & -> & -> & _)])]; cbn; [by intros ?%elem_of_nil|done|].
    by intros [_ ?]%elem_of_filter_bool.
Qed.

(** ** All steps *)

Lemma mstep_safe m m' : mstep m m' → safe m m'.
Proof.
  destruct 1.
  - apply safe_status.
  - apply safe_drain.
  - apply safe_cleanup.
  - by eapply safe_sync.
  - unfold startDriftSweepLocked. destruct (driftSweepRunning m); [done|].
    destruct (List.filter _ _); [done|]. by apply safe_same.
  - by apply safe_same.
  - by eapply safe_drift.
  - apply safe_resync.
  - apply safe_recollect.
  - apply safe_drop.
  - unfold setCatalogDigestsLocked. case_bool_decide; [done|]. by apply safe_same.
Qed.

Lemma msteps_safe m m' : rtc mstep m m' → safe m m'.
Proof. induction 1; [done|]. etransitivity; [by apply mstep_safe|done]. Qed.

(** ** Reports and the queue *)

Lemma applyStatus_frame ev req m :
  inProgress (applyStatusLocked ev req m) = delete (req_Destination req) (inProgress m) ∧
  statusQueue (applyStatusLocked ev req m) = statusQueue m ∧
  workerToken (applyStatusLocked ev req m) = workerToken m ∧
  owners (applyStatusLocked ev req m) = owners m.
Proof.
  unfold applyStatusLocked. msimpl.
  match goal with |- context [delete _ (inProgress ?x)] => set (m1 := x) end.
  enough (inProgress m1 = inProgress m ∧ statusQueue m1 = statusQueue m ∧ workerToken m1 = workerToken m ∧
    owners m1 = owners m) as (-> & -> & -> & ->) by done.
  subst m1. set (d := req_Destination req).
  destruct (negb _).
  { by destruct (setImageState_frame ev d stateFailed (req_Error req) m) as (-> & -> & -> & _ & -> & _). }
  set (m1 := match imageState m !! d with Some _ => _ | None => m end).
  assert (H1 : inProgress m1 = inProgress m ∧ statusQueue m1 = statusQueue m ∧ workerToken m1 = workerToken m ∧
    owners m1 = owners m) by (subst m1; by destruct (imageState m !! d)). clearbody m1.
  destruct (setImageState_frame ev d stateMirrored "" m1) as (E1 & E2 & E3 & _ & E4 & _).
  destruct (imageState (setImageStateLocked _ _ _ _ _) !! d); [destruct (_ && _)|]; msimpl;
    rewrite ?E1, ?E2, ?E3, ?E4; naive_solver.
Qed.

(** The entry after a report about it. *)
Definition reported (ev : Env) (m : MirrorManager) (req : WorkerStatusRequest) (e : ImageEntry) : ImageEntry :=
  if negb (String.eqb (req_Error req) "") then stated ev m stateFailed (req_Error req) e
  else
    let e := stated ev m stateMirrored "" e in
    if String.eqb (Origin e) OriginAdditional && negb (String.eqb (req_Digest req) "")
    then set_SourceDigest (req_Digest req) e else e.

Lemma stated_env_mirrored ev m m' err e :
  stated ev m stateMirrored err e = stated ev m' stateMirrored err e.
Proof. done. Qed.

Lemma applyStatus_state ev req m :
  imageState (applyStatusLocked ev req m) =
    match imageState m !! req_Destination req with
    | Some e => <[req_Destination req := reported ev m req e]> (imageState m)
    | None => imageState m
    end.
Proof.
  unfold applyStatusLocked, reported. msimpl. set (d := req_Destination req).
  destruct (negb _); [apply setImageState_state|].
  destruct (imageState m !! d) as [e|] eqn:E.
  - set (m1 := set_mirrored _ m).
    pose proof (setImageState_state ev d stateMirrored "" m1) as Hs.
    assert (E1 : imageState m1 !! d = Some e) by exact E. rewrite E1 in Hs.
    rewrite Hs, lookup_insert_eq, (stated_env_mirrored ev m1 m).
    destruct (String.eqb (Origin _) OriginAdditional && _); msimpl; rewrite Hs; [|done].
    by rewrite insert_insert_eq.
  - pose proof (setImageState_state ev d stateMirrored "" m) as Hs. rewrite E in Hs. by rewrite Hs, E, Hs.
Qed.

Lemma reported_success ev m req e : req_Error req = "" → State (reported ev m req e) = stateMirrored.
Proof.
  intros Hr. unfold reported. rewrite Hr. cbn [String.eqb negb].
  destruct (_ && _); apply (stated_State ev m stateMirrored "" e).
Qed.

Lemma reported_failure ev m req e :
  req_Error req ≠ "" → State (reported ev m req e) = stateFailed ∧ LastError (reported ev m req e) = req_Error req.
Proof.
  intros Hr. unfold reported. apply String.eqb_neq in Hr as ->. apply stated_State.
Qed.

(** A queue: the last report about [d] decides, and [d] is no longer tracked. *)
Lemma drain_reports (l : list (Env * WorkerStatusRequest)) m d e :
  imageState m !! d = Some e →
  ∃ e', imageState (foldl (λ m '(ev, req), applyStatusLocked ev req m) m l) !! d = Some e' ∧
    match last (filter (λ er, req_Destination (snd er) = d) l) with
    | Some er => inProgress (foldl (λ m '(ev, req), applyStatusLocked ev req m) m l) !! d = None ∧
        (req_Error (snd er) = "" → State e' = stateMirrored) ∧
        (req_Error (snd er) ≠ "" → State e' = stateFailed ∧ LastError e' = req_Error (snd er))
    | None => e' = e ∧ inProgress (foldl (λ m '(ev, req), applyStatusLocked ev req m) m l) !! d = inProgress m !! d
    end.
Proof.
  intros He. induction l as [|[ev req] l IH] using rev_ind; [by exists e|].
  rewrite foldl_app, filter_app. cbn [foldl].
  set (m1 := foldl _ m l) in *. destruct IH as (e1 & E1 & Hc).
  rewrite applyStatus_state. destruct (applyStatus_frame ev req m1) as (Hip & _). rewrite Hip.
  destruct (decide (req_Destination req = d)) as [<-|Hne].
  - rewrite E1, lookup_insert_eq. rewrite filter_cons_True by done. rewrite filter_nil, last_snoc. cbn.
    eexists. split; [done|]. rewrite lookup_delete_eq.
    split_and!; [done|apply reported_success|apply reported_failure].
  - rewrite filter_cons_False by done. rewrite filter_nil, app_nil_r. rewrite lookup_delete_ne by done.
    exists e1. split; [|exact Hc].
    destruct (imageState m1 !! req_Destination req); [by rewrite lookup_insert_ne|done].
Qed.

(** A destination that is not tracked is not touched by the cleanup. *)
Lemma cleanup_untracked done m d :
  inProgress m !! d = None →
  imageState (foldl cleanup_one m done) !! d = imageState m !! d ∧ inProgress (foldl cleanup_one m done) !! d = None.
Proof.
  intros Hd. apply (foldl_inv_simple (λ m', imageState m' !! d = imageState m !! d ∧ inProgress m' !! d = None));
    [done|].
  intros [ev f] acc _ (H1 & H2). unfold cleanup_one.
  destruct (inProgress acc !! f_dest f) as [cur|] eqn:E; [|done].
  destruct (String.eqb _ _); [|done].
  assert (d ≠ f_dest f) by congruence.
  destruct (String.eqb (f_phase f) PodFailed); msimpl; [|by rewrite lookup_delete_ne].
  set (m1 := set_inProgress _ acc). rewrite setImageState_state.
  destruct (setImageState_frame ev (f_dest f) statePending "" m1) as (_ & -> & _). subst m1. msimpl.
  rewrite lookup_delete_ne by done.
  destruct (imageState acc !! f_dest f); [by rewrite lookup_insert_ne|done].
Qed.

(** Writing back what is already there. *)
Lemma tracked_again d m :
  statusDirty m = true → inProgress m !! d = None →
  set_statusDirty true (set_inProgress (delete d (inProgress m)) m) = m.
Proof. destruct m; cbn. intros -> ?. by rewrite delete_id. Qed.
Lemma mirrored_again d m : mirrored m !! d = Some true → set_mirrored (<[d := true]> (mirrored m)) m = m.
Proof. destruct m; cbn. intros ?. by rewrite insert_id. Qed.
Lemma put_again d e m : imageState m !! d = Some e → stateDirty m = true → set_stateDirty true (put_entry d e m) = m.
Proof. destruct m; cbn. intros ? ->. unfold put_entry, set_stateDirty, set_imageState; cbn. by rewrite insert_id. Qed.
Lemma setImageState_again ev d st err m :
  (∀ e, imageState m !! d = Some e → State e = st ∧ LastError e = err) → setImageStateLocked ev d st err m = m.
Proof.
  intros H. unfold setImageStateLocked. destruct (imageState m !! d) as [e|]; [|done].
  destruct (H e eq_refl) as [-> ->]. by rewrite !String.eqb_refl.
Qed.

Lemma set_SourceDigest_id e : set_SourceDigest (SourceDigest e) e = e.
Proof. by destruct e. Qed.

(** What a successful report leaves behind. *)
Lemma applyStatus_success ev req m e :
  req_Error req = "" → imageState m !! req_Destination req = Some e →
  mirrored (applyStatusLocked ev req m) !! req_Destination req = Some true ∧
  (Origin e = OriginAdditional → req_Digest req ≠ "" →
     stateDirty (applyStatusLocked ev req m) = true ∧ SourceDigest (reported ev m req e) = req_Digest req) ∧
  LastError (reported ev m req e) = "".
Proof.
  intros Hr He. unfold applyStatusLocked, reported. rewrite Hr, He. cbn [String.eqb negb].
  set (d := req_Destination req) in *. set (m1 := set_mirrored _ m).
  pose proof (setImageState_state ev d stateMirrored "" m1) as Hs.
  assert (E1 : imageState m1 !! d = Some e) by exact He. rewrite E1 in Hs.
  assert (Hm : mirrored (setImageStateLocked ev d stateMirrored "" m1) !! d = Some true).
  { unfold setImageStateLocked. rewrite E1. destruct (_ && _); subst m1; cbn; by rewrite lookup_insert_eq. }
  pose proof (stated_evolves ev m stateMirrored "" e) as (_ & Hmeta & _).
  assert (Hor : Origin (stated ev m stateMirrored "" e) = Origin e) by by injection Hmeta.
  rewrite Hs, lookup_insert_eq, (stated_env_mirrored ev m1 m), Hor.
  destruct (stated_State ev m stateMirrored "" e) as [_ Hle].
  split_and!.
  - destruct (String.eqb (Origin e) _ && _); exact Hm.
  - intros -> ->%String.eqb_neq. done.
  - by destruct (String.eqb (Origin e) _ && _).
Qed.

Lemma drain_token (l : list (Env * WorkerStatusRequest)) m :
  workerToken (foldl (λ m '(ev, req), applyStatusLocked ev req m) m l) = workerToken m.
Proof.
  apply (foldl_inv_simple (λ m', workerToken m' = workerToken m)); [done|].
  intros [ev req] acc _ <-. apply applyStatus_frame.
Qed.

(** A queue that ends with a successful report about [d]. *)
Lemma drain_last_success (l : list (Env * WorkerStatusRequest)) m d e :
  imageState (foldl (λ m '(ev, req), applyStatusLocked ev req m) m l) !! d = Some e →
  (∃ er, last l = Some er ∧ req_Destination (snd er) = d ∧ req_Error (snd er) = "") →
  State e = stateMirrored.
Proof.
  intros He (er & Hlast & Hd & Hr).
  destruct (imageState m !! d) as [e0|] eqn:E0.
  - destruct (drain_reports l m d e0 E0) as (e' & E' & Hc). assert (e' = e) as -> by congruence.
    apply last_Some in Hlast as (l' & ->). rewrite filter_app, filter_cons_True, filter_nil, last_snoc in Hc by done.
    by apply Hc.
  - assert (evolves m (foldl (λ m '(ev, req), applyStatusLocked ev req m) m l)) as Hev.
    { apply (safe_foldl (λ m '(ev, req), applyStatusLocked ev req m)). intros ? []. apply safe_applyStatus. }
    apply Hev in He as (? & ? & _). congruence.
Qed.

(** After a success report went through the queue. *)
Lemma drained_success ev req m e :
  req_Error req = "" → imageState m !! req_Destination req = Some e →
  ∃ e1, imageState (drainStatusQueueLocked ev (enqueueStatus req m)) !! req_Destination req = Some e1 ∧
    State e1 = stateMirrored ∧
    inProgress (drainStatusQueueLocked ev (enqueueStatus req m)) !! req_Destination req = None ∧
    statusQueue (drainStatusQueueLocked ev (enqueueStatus req m)) = [].
Proof.
  intros Hr He. unfold drainStatusQueueLocked.
  destruct (drain_foldl ev (statusQueue (enqueueStatus req m)) (set_statusQueue [] (enqueueStatus req m)) 0)
    as (l & -> & Hl). cbn in Hl.
  destruct (drain_reports l (set_statusQueue [] (enqueueStatus req m)) (req_Destination req) e He) as (e1 & E1 & Hc).
  assert (∃ l' ev0, l = l' ++ [(ev0, req)]) as (l' & ev0 & ->).
  { destruct l as [|[ev0 r0] l'] using rev_ind; [by destruct (statusQueue m)|].
    rewrite fmap_app in Hl. apply app_inj_tail in Hl as [_ Hl]. cbn in Hl. subst. eauto. }
  rewrite filter_app, filter_cons_True, filter_nil, last_snoc in Hc by done.
  destruct Hc as (Hip & Hs & _). exists e1. split_and!; [done|by apply Hs|done|].
  apply (foldl_inv_simple (λ m', statusQueue m' = [])); [done|].
  intros [ev1 r1] acc _ Hq. by destruct (applyStatus_frame ev1 r1 acc) as (_ & -> & _).
Qed.

(** A drift result touches one destination. *)
Lemma drift_apply_frame ev dest snap res m :
  (∀ d, d ≠ dest → imageState (drift_apply ev dest snap res m) !! d = imageState m !! d ∧
     mirrored (drift_apply ev dest snap res m) !! d = mirrored m !! d) ∧
  inProgress (drift_apply ev dest snap res m) = inProgress m ∧
  owners (drift_apply ev dest snap res m) = owners m.
Proof.
  unfold drift_apply. destruct (imageState m !! dest) as [e|]; [|done].
  destruct (_ || _); [done|]. destruct (ds_recovery snap).
  { unfold drift_apply_recovery. destruct (dr_exists res) as [|[]]; msimpl; [done|..];
      (split_and!; [intros d Hd; by rewrite ?lookup_insert_ne, ?lookup_delete_ne by done|done..]). }
  destruct (dr_exists res) as [|[]]; msimpl.
  - split_and!; [intros d Hd; by rewrite lookup_insert_ne by done|done..].
  - set (x := match dr_digest res with Some g => _ | None => _ end). clearbody x.
    destruct x as [[e' changed] drifted].
    destruct drifted; [|destruct (dr_signature res) as [sigErr|]; [destruct (negb _); [destruct sigErr|]|]];
      destruct changed; msimpl; unfold applySignatureResultLocked; msimpl;
      (split_and!; [intros d Hd; by rewrite ?lookup_insert_ne, ?lookup_delete_ne by done|done..]).
  - split_and!; [intros d Hd; by rewrite ?lookup_insert_ne, ?lookup_delete_ne by done|done..].
Qed.

(** * Properties *)

(** A permanently failed image stays marked as such.  Along any
    interleaving of worker reports, finished-pod cleanups, recovery after a
    restart, drift results (with arbitrarily old snapshots), force-resync,
    recollect and removals of other ImageSets, an entry that had
    PermanentlyFailed set and is still in the working set has it set; no
    destination appears, and none changes its source or spec metadata. *)
Theorem PermanentlyFailed_sticky m m' d e' :
  rtc mstep m m' → imageState m' !! d = Some e' →
  ∃ e, imageState m !! d = Some e ∧ Source e' = Source e ∧ specMetaOf e' = specMetaOf e ∧
    (PermanentlyFailed e = true → PermanentlyFailed e' = true).
Proof. intros Hs He. apply msteps_safe in Hs as (Hev & _). exact (Hev d e' He). Qed.

(** C5: applying the same worker report twice (a retried HTTP request) has
    the effect of applying it once: in particular a duplicate failure does not
    use up retry budget, whatever the clock and the jitter say. *)
Theorem applyStatus_idempotent ev1 ev2 req m :
  applyStatusLocked ev2 req (applyStatusLocked ev1 req m) = applyStatusLocked ev1 req m.
Proof.
  set (m1 := applyStatusLocked ev1 req m). set (d := req_Destination req).
  assert (Hdirty : statusDirty m1 = true) by done.
  destruct (applyStatus_frame ev1 req m) as (Hip & _). fold m1 d in Hip.
  assert (Hnone : inProgress m1 !! d = None) by by rewrite Hip, lookup_delete_eq.
  pose proof (applyStatus_state ev1 req m) as Hst. fold m1 d in Hst.
  unfold applyStatusLocked. fold d. destruct (String.eqb_spec (req_Error req) "") as [Hr|Hr]; cbn [negb].
  - destruct (imageState m !! d) as [e|] eqn:He.
    + destruct (applyStatus_success ev1 req m e Hr He) as (Hm & Hdg & Hle). fold m1 d in Hm.
      assert (E1 : imageState m1 !! d = Some (reported ev1 m req e)) by by rewrite Hst, lookup_insert_eq.
      rewrite E1, mirrored_again by done.
      rewrite setImageState_again.
      2:{ intros e0 [= <-]%(eq_trans (eq_sym E1)). split; [by apply reported_success|done]. }
      rewrite E1. assert (Ho : Origin (reported ev1 m req e) = Origin e).
      { unfold reported. rewrite Hr. cbn [String.eqb negb].
        pose proof (stated_evolves ev1 m stateMirrored "" e) as (_ & Hmeta & _).
        destruct (_ && _); cbn; by injection Hmeta. }
      rewrite Ho. destruct (String.eqb_spec (Origin e) OriginAdditional) as [Ha|]; cbn [andb]; [|by apply tracked_again].
      destruct (String.eqb_spec (req_Digest req) "") as [|Hd]; cbn [negb]; [by apply tracked_again|].
      destruct (Hdg Ha Hd) as [Hsd Hdig]. fold m1 in Hsd. rewrite <- Hdig, set_SourceDigest_id, put_again by done.
      by apply tracked_again.
    + assert (E1 : imageState m1 !! d = None) by by rewrite Hst.
      rewrite E1, setImageState_again by (intros; congruence). rewrite E1. by apply tracked_again.
  - rewrite setImageState_again; [by apply tracked_again|].
    intros e0 He0. rewrite Hst in He0. destruct (imageState m !! d) as [e|] eqn:He; [|congruence].
    rewrite lookup_insert_eq in He0. injection He0 as <-. by apply reported_failure.
Qed.

(** The retry delay after the n-th failure is the base of one minute
    doubled per failure, capped at one hour, within ten percent either way:
    never below 54 seconds and always under 66 minutes. *)
Theorem retryBackoff_bounds ev n :
  env_ok ev →
  let d := if (1 <=? n)%Z && (n <=? 6)%Z then (minute * 2 ^ (n - 1))%Z else hour in
  (10 * retryBackoff ev n >= 9 * d)%Z ∧ (10 * retryBackoff ev n < 11 * d)%Z ∧
  (54 * second ≤ retryBackoff ev n < 66 * minute)%Z.
Proof.
  intros Hev d. unfold retryBackoff.
  set (d0 := if (1 <=? n)%Z && (n <=? 7)%Z then _ else _).
  assert (d0 = d ∧ (minute ≤ d ≤ hour)%Z ∧ (d mod 10 = 0)%Z) as (-> & Hd & Hm).
  { subst d0 d. destruct (Z.leb_spec 1 n); cbn [andb]; [|by repeat split].
    destruct (Z.leb_spec n 7); destruct (Z.leb_spec n 6); try lia; try (by repeat split).
    - assert (n = 1 ∨ n = 2 ∨ n = 3 ∨ n = 4 ∨ n = 5 ∨ n = 6)%Z as Hn by lia.
      destruct_or! Hn; subst; by repeat split.
    - assert (n = 7)%Z as -> by lia. by repeat split. }
  assert (∃ q, d = 10 * q)%Z as [q Hq] by (exists (d / 10)%Z; pose proof (Z.div_mod d 10); lia).
  clearbody d. subst d. unfold hour, minute, second in *.
  replace (Z.quot (10 * q) 5) with (2 * q)%Z by (replace (10 * q)%Z with (2 * q * 5)%Z by lia; by rewrite Z.quot_mul).
  replace (Z.quot (10 * q) 10) with q by (replace (10 * q)%Z with (q * 10)%Z by lia; by rewrite Z.quot_mul).
  pose proof (Hev (2 * q)%Z). lia.
Qed.

Lemma retryBackoff_bounds_witness :
  (10 * retryBackoff (mkEnv 0 (λ n, n / 2)%Z) 4 >= 9 * (minute * 8))%Z.
Proof.
  apply (retryBackoff_bounds (mkEnv 0 (λ n, n / 2)%Z) 4). intros n Hn. cbn. split.
  - apply Z.div_pos; lia.
  - apply Z.div_lt; lia.
Defined.

(** A manager with one additional image in flight and one permanently failed
    operator image. *)
Definition ex_ev : nat → Env := λ _, mkEnv 0 (λ _, 0%Z).
Definition ex_manager : MirrorManager :=
  mkManager "tok" false [] {["reg/a:1" := "pod-1"]} ∅
    (<["reg/a:1" := mkImageEntry "src/a:1" "Pending" "" 0 OriginAdditional "s" "r" "" false false None false ""]>
     {["reg/b:1" := mkImageEntry "src/b:1" "Failed" "denied" 10 OriginOperator "s" "r" "c" false true None false ""]})
    (<["reg/a:1" := ["is1"]]> {["reg/b:1" := ["is1"]]}) ∅ ∅ None false false false false 10.
Definition ex_success : WorkerStatusRequest := mkReq "pod-1" "reg/a:1" "sha256:aa" "".

Lemma ex_manager_inv : flag_inv ex_manager ∧ owners_wf (imageState ex_manager) (owners ex_manager).
Proof.
  split; [by intros d|]. apply (bool_decide_unpack _). vm_compute. exact I.
Defined.

(** A force-resync of [is1], then a drain. *)
Lemma ex_steps :
  rtc mstep ex_manager (drainStatusQueueLocked ex_ev (fst (resetImageSetToPendingLocked "is1" ex_manager))).
Proof. eapply rtc_l; [apply step_resync|]. eapply rtc_l; [apply step_drain|]. apply rtc_refl. Defined.

Lemma PermanentlyFailed_sticky_witness :
  ∃ e', imageState (drainStatusQueueLocked ex_ev (fst (resetImageSetToPendingLocked "is1" ex_manager))) !! "reg/b:1"
        = Some e' ∧ State e' = "Pending" ∧ PermanentlyFailed e' = true.
Proof.
  eexists. split; [vm_compute; reflexivity|]. split; [reflexivity|].
  match goal with |- PermanentlyFailed ?x = true =>
    destruct (PermanentlyFailed_sticky ex_manager _ "reg/b:1" x ex_steps) as (e & He & _ & _ & Hp);
      [vm_compute; reflexivity|] end.
  apply Hp. vm_compute in He. injection He as <-. reflexivity.
Defined.

(** Once a worker's success report was acknowledged, no worker is told
    to mirror the image again: when the report is still queued,
    [handleShouldMirror] answers 410 (Gone) even without getting the lock, and
    when it was applied right away it answers 410 as soon as it gets the lock
    (without the lock it fails open, as documented). *)
Theorem acknowledged_success_is_gone ev req lockFree gotLock m m' :
  req_Error req = "" → req_Destination req ≠ "" →
  handleStatusUpdate ev "POST" ("Bearer " +:+ workerToken m) (Some req) lockFree m = (200%Z, m') →
  (lockFree = true → gotLock = true) →
  handleShouldMirror "GET" ("Bearer " +:+ workerToken m) (req_Destination req) gotLock m' = 410%Z.
Proof.
  intros Hr Hd. unfold handleStatusUpdate. rewrite !String.eqb_refl. cbn [negb].
  intros E Hlock. cbv zeta in E. injection E as <-.
  unfold handleShouldMirror. rewrite (String.eqb_refl "GET"). cbn [negb]. apply String.eqb_neq in Hd as Hd'.
  destruct lockFree.
  - rewrite (Hlock eq_refl). set (m1 := drainStatusQueueLocked ev (enqueueStatus req m)).
    assert (Hm1 : workerToken m1 = workerToken m ∧
      ∀ e, imageState m1 !! req_Destination req = Some e → State e = stateMirrored).
    { subst m1. unfold drainStatusQueueLocked.
      destruct (drain_foldl ev (statusQueue (enqueueStatus req m)) (set_statusQueue [] (enqueueStatus req m)) 0)
        as (l & -> & Hl).
      split; [apply (drain_token l (set_statusQueue [] (enqueueStatus req m)))|].
      intros e He. eapply drain_last_success; [exact He|].
      cbn in Hl. apply (f_equal last) in Hl. rewrite last_snoc, fmap_last in Hl.
      destruct (last l) as [[ev0 r0]|]; cbn in Hl; [|done]. injection Hl as ->. by exists (ev0, req). }
    clearbody m1. destruct Hm1 as [Ht Hs]. msimpl. rewrite Ht, String.eqb_refl, Hd'. cbn [negb].
    destruct (queuedSuccess _ _); [done|].
    destruct (imageState m1 !! req_Destination req) as [e|]; [|done]. by rewrite (Hs e eq_refl).
  - msimpl. rewrite String.eqb_refl, Hd'. cbn [negb].
    assert (queuedSuccess (set_urgentFlush true (enqueueStatus req m)) (req_Destination req) = true) as ->; [|done].
    apply existsb_elem. exists req. cbn. rewrite Hr, String.eqb_refl. set_solver.
Qed.

Lemma acknowledged_success_is_gone_witness :
  handleShouldMirror "GET" "Bearer tok" "reg/a:1" false
    (snd (handleStatusUpdate ex_ev "POST" "Bearer tok" (Some ex_success) false ex_manager)) = 410%Z.
Proof.
  apply (acknowledged_success_is_gone ex_ev ex_success false false ex_manager); try reflexivity; discriminate.
Defined.

(** A finished or stuck pod never undoes what its worker reported.  If a
    success report about a destination is acknowledged before the cleanup
    takes the lock, then after a cleanup that acts on any set of finished
    pods, this one included, the entry is Mirrored and the destination is no
    longer tracked as in flight. *)
Theorem cleanup_keeps_reported ev ev' req lockFree done m m' e :
  req_Error req = "" → imageState m !! req_Destination req = Some e → done ≠ [] →
  handleStatusUpdate ev "POST" ("Bearer " +:+ workerToken m) (Some req) lockFree m = (200%Z, m') →
  ∃ e', imageState (cleanup_apply ev' done m') !! req_Destination req = Some e' ∧
        State e' = stateMirrored ∧ inProgress (cleanup_apply ev' done m') !! req_Destination req = None.
Proof.
  intros Hr He Hdone Hh. set (d := req_Destination req) in *.
  assert (∃ e1, imageState (drainStatusQueueLocked ev' m') !! d = Some e1 ∧ State e1 = stateMirrored ∧
    inProgress (drainStatusQueueLocked ev' m') !! d = None) as (e1 & E1 & Hs & Hip).
  { unfold handleStatusUpdate in Hh. rewrite !String.eqb_refl in Hh. cbn [negb] in Hh. cbv zeta in Hh.
    injection Hh as <-. destruct lockFree.
    - destruct (drained_success ev req m e Hr He) as (e1 & E1 & Hs & Hip & Hq).
      exists e1. unfold drainStatusQueueLocked at 1 3. msimpl. fold (enqueueStatus req m) in *.
      rewrite Hq. done.
    - destruct (drained_success ev' req (set_urgentFlush true m) e Hr He) as (e1 & E1 & Hs & Hip & _).
      exists e1. done. }
  unfold cleanup_apply. destruct done as [|f done]; [done|].
  destruct (cleanup_untracked (f :: done) _ d Hip) as [-> ->]. eauto.
Qed.

Lemma cleanup_keeps_reported_witness :
  ∃ e', imageState (cleanup_apply ex_ev [(ex_ev 0, mkFinished "reg/a:1" "pod-1" PodFailed)]
          (snd (handleStatusUpdate ex_ev "POST" "Bearer tok" (Some ex_success) false ex_manager))) !! "reg/a:1"
        = Some e' ∧ State e' = stateMirrored.
Proof.
  edestruct (cleanup_keeps_reported ex_ev ex_ev ex_success false [(ex_ev 0, mkFinished "reg/a:1" "pod-1" PodFailed)]
    ex_manager) as (e' & He & Hs & _); [reflexivity|reflexivity|discriminate|reflexivity|].
  exists e'. split; [exact He|exact Hs].
Defined.

(** A drift result only ever changes the destination it was computed for,
    and a stale one changes nothing: if the entry was removed, or its State,
    PermanentlyFailed flag or Source differs from the snapshot the registry
    was queried for, the state is left exactly as it is. *)
Theorem drift_result_local_and_fresh ev dest snap res m :
  ((∀ e, imageState m !! dest = Some e →
      State e ≠ State (ds_entry snap) ∨ PermanentlyFailed e ≠ PermanentlyFailed (ds_entry snap) ∨
      Source e ≠ Source (ds_entry snap)) →
   drift_apply ev dest snap res m = m) ∧
  (∀ d, d ≠ dest → imageState (drift_apply ev dest snap res m) !! d = imageState m !! d ∧
     mirrored (drift_apply ev dest snap res m) !! d = mirrored m !! d) ∧
  inProgress (drift_apply ev dest snap res m) = inProgress m ∧
  owners (drift_apply ev dest snap res m) = owners m.
Proof.
  split; [|apply drift_apply_frame].
  intros Hne. destruct (drift_apply_cases ev dest snap res m) as [->|(e & He & ? & ? & ?)]; [done|].
  destruct (Hne e He) as [|[]]; done.
Qed.

Lemma drift_result_local_and_fresh_witness :
  let snap := mkSnap (mkImageEntry "src/a:1" "Mirrored" "" 0 OriginAdditional "s" "r" "" false false None false "")
                false false in
  drift_apply (ex_ev 0) "reg/a:1" snap (mkDriftResult (inr false) None None) ex_manager = ex_manager.
Proof.
  intros snap.
  apply (drift_result_local_and_fresh (ex_ev 0) "reg/a:1" snap (mkDriftResult (inr false) None None) ex_manager).
  intros e He. left. vm_compute in He. injection He as <-. discriminate.
Defined.

(** A force-resync re-queues exactly the ImageSet's own images that are
    not being processed: afterwards each of them is Pending with a zero retry
    count, no scheduled retry, no error, no verified signature and no
    fast-path flag (so it is dispatched again), PermanentlyFailed is as
    before, and every other entry and flag is unchanged. *)
Theorem resync_requeues isName m d e :
  imageState m !! d = Some e →
  let m' := fst (resetImageSetToPendingLocked isName m) in
  ∃ e', imageState m' !! d = Some e' ∧ PermanentlyFailed e' = PermanentlyFailed e ∧
    if hasOwner (owners m) d isName && negb (in_flight m d)
    then State e' = statePending ∧ RetryCount e' = 0%Z ∧ LastError e' = "" ∧ SignatureVerified e' = false ∧
         (flag_inv m → mirrored_flag m' d = false)
    else e' = e ∧ mirrored_flag m' d = mirrored_flag m d.
Proof.
  intros He m'. pose proof (resync_view isName m d) as Hv. unfold dest_view in Hv. fold m' in Hv.
  clearbody m'. rewrite He in Hv. unfold mirrored_flag, in_flight.
  unfold resync_hits in Hv. rewrite negb_involutive.
  destruct (hasOwner (owners m) d isName); cbn in Hv |- *;
    [|injection Hv as -> -> _ _; rewrite He; eauto].
  destruct (String.eqb _ ""); cbn in Hv |- *; [|injection Hv as -> -> _ _; rewrite He; eauto].
  destruct (resync_skips e) eqn:Es; cbn in Hv; injection Hv as -> -> _ _.
  - rewrite He. exists e. unfold resync_skips in Es. boolify.
    repeat match goal with H : String.eqb _ _ = true |- _ => apply String.eqb_eq in H end.
    split_and!; try done; [by apply Z.eqb_eq|].
    intros Hinv. destruct (default false (mirrored m !! d)) eqn:Ef; [|done].
    apply Hinv in Ef as (e0 & ? & Hm). assert (stateMirrored = statePending) by congruence. done.
  - eexists. split; [done|]. by split_and!.
Qed.

Lemma resync_requeues_witness :
  ∃ e', imageState (fst (resetImageSetToPendingLocked "is1" ex_manager)) !! "reg/b:1" = Some e' ∧
        State e' = statePending.
Proof.
  edestruct (resync_requeues "is1" ex_manager "reg/b:1") as (e' & He & _ & Hs); [reflexivity|].
  exists e'. split; [exact He|apply Hs].
Defined.

(** When ImageSets are removed from the target, exactly the destinations
    they alone needed leave the working set, together with their owner record
    and fast-path flag; every other entry stays as it is and is owned by
    those of its owners that are still listed. *)
Theorem dropRemoved_exact imageSets m d names :
  owners_wf (imageState m) (owners m) → owners m !! d = Some names →
  let m' := fst (dropRemovedImageSetsLocked imageSets m) in
  if existsb (containsString imageSets) names
  then imageState m' !! d = imageState m !! d ∧ mirrored m' !! d = mirrored m !! d ∧
       owners m' !! d = Some (List.filter (containsString imageSets) names)
  else imageState m' !! d = None ∧ mirrored m' !! d = None ∧ owners m' !! d = None.
Proof.
  intros Hwf Ho m'. pose proof (drop_view imageSets m d) as Hv. unfold owned_view in Hv. fold m' in Hv.
  clearbody m'. rewrite Ho in Hv. cbn zeta in Hv. apply Hwf in Ho as Hn.
  destruct (bool_decide (length _ = length _)) eqn:El.
  - apply bool_decide_eq_true_1 in El.
    apply filter_bool_length_eq in El as [Ef Hall].
    assert (existsb (containsString imageSets) names = true) as ->.
    { destruct names as [|n names]; [naive_solver|]. cbn. by rewrite (Forall_inv Hall). }
    rewrite Ef. injection Hv as -> -> ->. done.
  - destruct (existsb (containsString imageSets) names) eqn:Ex; case_bool_decide as Hk; injection Hv as -> -> ->;
      try done.
    + apply existsb_elem in Ex as (x & Hx & Hc). exfalso.
      assert (x ∈ List.filter (containsString imageSets) names) as Hf by by rewrite elem_of_filter_bool.
      rewrite Hk in Hf. set_solver.
    + destruct Hk. apply elem_of_nil_inv. intros x Hx. apply elem_of_filter_bool in Hx as [Hc Hx].
      rewrite existsb_not_elem in Ex. rewrite (Ex x Hx) in Hc. done.
Qed.

Lemma dropRemoved_exact_witness :
  imageState (fst (dropRemovedImageSetsLocked [] ex_manager)) !! "reg/b:1" = None.
Proof.
  pose proof (dropRemoved_exact [] ex_manager "reg/b:1" ["is1"] (proj2 ex_manager_inv) eq_refl) as H.
  apply H.
Defined.
