(* ===== verification/Api.v ===== *)
(** * The API types and the signatures of their entries

    api/v1alpha1/imageset_config_types.go (the fields the operator reads),
    resolution_sig.go and the annotation keys of mirrortarget_types.go.

    [hashJSON] is SHA-256 over the JSON encoding of a payload struct; the
    encoding and the hash function are a parameter of the signatures, one per
    payload type. *)
From S2P Require Import Prelude GoStrings ImageRef.

(** ** Sorting *)

Definition sort_strings (l : list string) : list string := merge_sort String.le l.

(** [sort.Slice] by a name.  Go leaves the order of equal names open; the
    theorems that depend on it ask for distinct names. *)
Definition by_name {A} (name : A → string) : relation A := λ a b, String.le (name a) (name b).
#[export] Instance by_name_dec {A} (name : A → string) : RelDecision (by_name name).
Proof. intros a b. unfold by_name. apply _. Defined.
Definition sort_by {A} (name : A → string) (l : list A) : list A := merge_sort (by_name name) l.

(** ** Types *)

Definition TypeOCP : string := "ocp".
Definition TypeOKD : string := "okd".

Record ReleaseChannel := mkChannelSpec {
  rc_Name : string; rc_Type : string; rc_MinVersion : string; rc_MaxVersion : string;
  rc_ShortestPath : bool; rc_Full : bool; rc_SkipSignatureVerification : bool;
}.

Record IncludeBundle := mkIncludeBundle { ib_MinVersion : string; ib_MaxVersion : string }.
Record IncludeChannel := mkIncludeChannel { ic_Name : string; ic_Bundle : IncludeBundle }.
Record IncludePackage := mkIncludePackage {
  ip_Name : string;
  ip_Channels : list IncludeChannel;
  ip_DefaultChannel : string;
  ip_PreviousVersions : Z;
  ip_Bundle : IncludeBundle;
  ip_Bundles : list string; (* names of the selected bundles *)
}.

#[export] Instance IncludeBundle_eq_dec : EqDecision IncludeBundle.
Proof. solve_decision. Defined.
#[export] Instance IncludeChannel_eq_dec : EqDecision IncludeChannel.
Proof. solve_decision. Defined.
#[export] Instance IncludePackage_eq_dec : EqDecision IncludePackage.
Proof. solve_decision. Defined.

Record Operator := mkOperator {
  op_Catalog : string;
  op_TargetCatalog : string;
  op_TargetTag : string;
  op_Full : bool;
  op_SkipDependencies : bool;
  op_SignatureVerification : bool; (* a public key is configured *)
  op_Packages : list IncludePackage;
}.

Record Chart := mkChart { ch_Name : string; ch_Version : string }.
Record Repository := mkRepository { repo_URL : string; repo_Name : string; repo_Charts : list Chart }.

Record Platform := mkPlatform {
  pf_Graph : bool;
  pf_Channels : list ReleaseChannel;
  pf_Architectures : list string;
  pf_KubeVirtContainer : bool;
}.

Record Mirror := mkMirror {
  mi_Platform : Platform;
  mi_Operators : list Operator;
  mi_AdditionalImages : list AdditionalImage;
  mi_Helm : list Repository;
  mi_BlockedImages : list string;
  mi_RequireSignedImages : bool;
}.

(** [metav1.Condition] *)
Record Condition := mkCondition {
  cond_Type : string; cond_Status : string; cond_Reason : string; cond_Message : string;
  cond_ObservedGeneration : Z; cond_LastTransitionTime : Z;
}.

Record FailedImageDetail := mkFailedDetail {
  fd_Source : string; fd_Destination : string; fd_Error : string; fd_Origin : string;
}.

Record ImageSetStatus := mkStatus {
  st_Conditions : list Condition;
  st_TotalImages : Z; st_MirroredImages : Z; st_PendingImages : Z; st_FailedImages : Z;
  st_FailedImageDetails : list FailedImageDetail;
  st_ObservedGeneration : Z;
  st_LastSuccessfulPollTime : option Z;
}.

Record ImageSet := mkImageSet {
  is_Name : string;
  is_Annotations : gmap string string;
  is_Generation : Z;
  is_Mirror : Mirror;
  is_Status : ImageSetStatus;
}.

Record ProxyConfig := mkProxy { px_HTTPProxy : string; px_HTTPSProxy : string; px_NoProxy : string }.
Record CABundleRef := mkCABundle { ca_ConfigMapName : string; ca_Key : string }.

Record MirrorTarget := mkMirrorTarget {
  mt_Name : string;
  mt_Registry : string;
  mt_ImageSets : list string;
  mt_Concurrency : Z;
  mt_BatchSize : Z;
  mt_MaxRetries : Z;
  mt_PollInterval : option Z;
  mt_CheckExistInterval : option Z;
  mt_Annotations : gmap string string;
  mt_Generation : Z;
  mt_AuthSecret : string;
  mt_Insecure : bool;
  mt_Proxy : option ProxyConfig;
  mt_CABundle : option CABundleRef;
}.

(** ** Conditions (conditions.go) *)

Fixpoint setCondition (now : Z) (condType status reason message : string) (gen : Z) (conditions : list Condition)
    : list Condition :=
  match conditions with
  | [] => [mkCondition condType status reason message gen now]
  | c :: cs =>
    if negb (String.eqb (cond_Type c) condType) then c :: setCondition now condType status reason message gen cs
    else
      (if negb (String.eqb (cond_Status c) status) || negb (String.eqb (cond_Reason c) reason)
          || negb (String.eqb (cond_Message c) message) || negb (cond_ObservedGeneration c =? gen)%Z
       then mkCondition (cond_Type c) status reason message gen
              (if String.eqb (cond_Status c) status then cond_LastTransitionTime c else now)
       else c) :: cs
  end.

(** ** Annotations *)

Definition RecollectAnnotation : string := "mirror.openshift.io/recollect".
Definition RecollectHonoredAnnotation : string := "mirror.openshift.io/recollect-honored".
Definition ForceResyncAnnotation : string := "mirror.openshift.io/force-resync".
Definition CatalogDigestAnnotationPrefix : string := "mirror.openshift.io/catalog-digest-".
Definition ReleaseDigestAnnotationPrefix : string := "mirror.openshift.io/release-digest-".
Definition GraphImageBuiltAnnotation : string := "mirror.openshift.io/graph-image-built-at".

(** [sig[:48]] *)
Fixpoint take_bytes (n : nat) (s : string) : string :=
  match n, s with
  | S n, String c s => String c (take_bytes n s)
  | _, _ => ""
  end.

Definition trunc48 (sig : string) : string :=
  if (48 <? String.length sig)%nat then take_bytes 48 sig else sig.

Definition CatalogDigestAnnotationKey (sig : string) : string := CatalogDigestAnnotationPrefix +:+ trunc48 sig.
Definition ReleaseDigestAnnotationKey (sig : string) : string := ReleaseDigestAnnotationPrefix +:+ trunc48 sig.

(** ** Cache tokens *)

Definition OperatorCacheVersion : string := "v5".
Definition OperatorCacheValue (digest : string) : string := OperatorCacheVersion +:+ ":" +:+ digest.
Definition OperatorCacheHit (cached digest : string) : bool :=
  negb (String.eqb cached "") && String.eqb cached (OperatorCacheValue digest).
(** [None] is [ok = false]. *)
Definition ParseOperatorCacheDigest (value : string) : option string :=
  let prefix := OperatorCacheVersion +:+ ":" in
  if negb (HasPrefix value prefix) then None
  else let digest := TrimPrefix value prefix in if String.eqb digest "" then None else Some digest.

(** ** Signatures *)

Record pkgSig := mkPkgSig {
  ps_Name : string; ps_DefaultChannel : string; ps_Channels : list IncludeChannel;
  ps_Bundle : IncludeBundle; ps_PreviousVersions : Z; ps_Bundles : list string;
}.
Record opPayload := mkOpPayload {
  opp_Catalog : string; opp_TargetCatalog : string; opp_TargetTag : string;
  opp_Full : bool; opp_SkipDependencies : bool; opp_Packages : list pkgSig;
}.
Record releasePayload := mkReleasePayload {
  rp_Name : string; rp_Type : string; rp_MinVersion : string; rp_MaxVersion : string;
  rp_Full : bool; rp_ShortestPath : bool; rp_Arch : list string; rp_KubeVirt : bool;
}.

Definition pkg_sig (p : IncludePackage) : pkgSig :=
  mkPkgSig (ip_Name p) (ip_DefaultChannel p) (sort_by ic_Name (ip_Channels p)) (ip_Bundle p)
    (ip_PreviousVersions p) (sort_strings (ip_Bundles p)).

Definition op_payload (op : Operator) : opPayload :=
  mkOpPayload (op_Catalog op) (op_TargetCatalog op) (op_TargetTag op) (op_Full op) (op_SkipDependencies op)
    (sort_by ps_Name (map pkg_sig (op_Packages op))).

Definition release_payload (rc : ReleaseChannel) (architectures : list string) (kubeVirt : bool) : releasePayload :=
  mkReleasePayload (rc_Name rc) (rc_Type rc) (rc_MinVersion rc) (rc_MaxVersion rc) (rc_Full rc)
    (rc_ShortestPath rc) (sort_strings architectures) kubeVirt.

(** The two instances of [hashJSON]. *)
Class HashJSON := {
  hash_op : opPayload → string;
  hash_release : releasePayload → string;
}.

Definition OperatorEntrySignature `{HashJSON} (op : Operator) : string := hash_op (op_payload op).
Definition ReleaseChannelSignature `{HashJSON} (rc : ReleaseChannel) (architectures : list string) (kubeVirt : bool)
    : string :=
  hash_release (release_payload rc architectures kubeVirt).

(** * Lemmas *)

#[export] Instance by_name_trans {A} (name : A → string) : Transitive (by_name name).
Proof. intros a b c. unfold by_name. by etransitivity. Qed.
#[export] Instance by_name_total {A} (name : A → string) : Total (by_name name).
Proof. intros a b. unfold by_name. apply (total String.le). Qed.

Lemma sort_by_perm {A} (name : A → string) l : sort_by name l ≡ₚ l.
Proof. apply merge_sort_Permutation. Qed.

Lemma sort_strings_perm l : sort_strings l ≡ₚ l.
Proof. apply merge_sort_Permutation. Qed.

(** Sorting by distinct names forgets the order of the input. *)
Lemma sort_by_canonical {A} (name : A → string) l1 l2 :
  NoDup (map name l1) → l1 ≡ₚ l2 → sort_by name l1 = sort_by name l2.
Proof.
  intros Hnd Hp. apply (StronglySorted_unique_strong (by_name name)).
  - intros x1 x2 H1 H2 H12 H21.
    assert (name x1 = name x2) as Hn by by apply (anti_symm String.le).
    unfold sort_by in H1, H2. rewrite merge_sort_Permutation in H1, H2. rewrite <- Hp in H2.
    apply list_elem_of_lookup in H1 as [i Hi]. apply list_elem_of_lookup in H2 as [j Hj].
    assert (i = j) as ->; [|congruence].
    eapply NoDup_lookup; [exact Hnd|..]; change (map name l1) with (name <$> l1); rewrite list_lookup_fmap.
    + by rewrite Hi.
    + by rewrite Hj, Hn.
  - apply (StronglySorted_merge_sort (by_name name)).
  - apply (StronglySorted_merge_sort (by_name name)).
  - unfold sort_by. by rewrite !merge_sort_Permutation.
Qed.

Lemma sort_strings_canonical l1 l2 : l1 ≡ₚ l2 → sort_strings l1 = sort_strings l2.
Proof.
  intros Hp. apply (StronglySorted_unique String.le).
  - apply (StronglySorted_merge_sort String.le).
  - apply (StronglySorted_merge_sort String.le).
  - unfold sort_strings. by rewrite !merge_sort_Permutation.
Qed.

(** Two spec entries that differ only in the order of their lists. *)
Definition pkg_reordered (p q : IncludePackage) : Prop :=
  ip_Name p = ip_Name q ∧ ip_DefaultChannel p = ip_DefaultChannel q ∧ ip_Bundle p = ip_Bundle q ∧
  ip_PreviousVersions p = ip_PreviousVersions q ∧ ip_Channels p ≡ₚ ip_Channels q ∧ ip_Bundles p ≡ₚ ip_Bundles q.

Definition op_reordered (o1 o2 : Operator) : Prop :=
  op_Catalog o1 = op_Catalog o2 ∧ op_TargetCatalog o1 = op_TargetCatalog o2 ∧ op_TargetTag o1 = op_TargetTag o2 ∧
  op_Full o1 = op_Full o2 ∧ op_SkipDependencies o1 = op_SkipDependencies o2 ∧
  ∃ l, op_Packages o1 ≡ₚ l ∧ Forall2 pkg_reordered l (op_Packages o2).

Definition op_names_distinct (o : Operator) : Prop :=
  NoDup (map ip_Name (op_Packages o)) ∧ Forall (λ p, NoDup (map ic_Name (ip_Channels p))) (op_Packages o).

Lemma pkg_sig_reordered p q :
  NoDup (map ic_Name (ip_Channels p)) → pkg_reordered p q → pkg_sig p = pkg_sig q.
Proof.
  intros Hnd (H1 & H2 & H3 & H4 & H5 & H6). unfold pkg_sig. f_equal; try done.
  - by apply sort_by_canonical.
  - by apply sort_strings_canonical.
Qed.

(** * Properties *)

(** The cache signature of an operator entry does not depend on how its
    lists are ordered in the spec (package names, and channel names within a
    package, being distinct), whatever the hash; and with a hash without
    collisions two entries with the same signature are the same catalog with
    the same target, flags and package filters up to order. *)
Theorem OperatorEntrySignature_stable `{HashJSON} o1 o2 :
  op_names_distinct o1 →
  (op_reordered o1 o2 → OperatorEntrySignature o1 = OperatorEntrySignature o2) ∧
  (Inj (=) (=) hash_op → OperatorEntrySignature o1 = OperatorEntrySignature o2 →
     op_Catalog o1 = op_Catalog o2 ∧ op_Full o1 = op_Full o2 ∧ op_TargetCatalog o1 = op_TargetCatalog o2 ∧
     op_TargetTag o1 = op_TargetTag o2 ∧ op_SkipDependencies o1 = op_SkipDependencies o2 ∧
     map pkg_sig (op_Packages o1) ≡ₚ map pkg_sig (op_Packages o2)).
Proof.
  intros [Hnd Hch]. unfold OperatorEntrySignature. split.
  - intros (H1 & H2 & H3 & H4 & H5 & l & Hp & Hl). f_equal. unfold op_payload. f_equal; try done.
    assert (map pkg_sig l = map pkg_sig (op_Packages o2)) as <-.
    { rewrite Hp in Hch. clear -Hl Hch. induction Hl as [|p q l l' Hpq Hl IH]; [done|].
      inversion_clear Hch as [|? ? Hp Hch']. cbn. f_equal; [by apply pkg_sig_reordered|auto]. }
    apply sort_by_canonical.
    + rewrite map_map. exact Hnd.
    + by apply Permutation_map.
  - intros Hinj E. apply (inj hash_op) in E. unfold op_payload in E. injection E as E1 E2 E3 E4 E5 E6.
    split_and!; try done. by rewrite <- (sort_by_perm ps_Name (map pkg_sig (op_Packages o1))), E6, sort_by_perm.
Qed.

(** An entry with two packages, listed in both orders. *)
Definition ex_status (gen : Z) : ImageSetStatus := mkStatus [] 0 0 0 0 [] gen None.
Definition ex_pkg (n : string) : IncludePackage := mkIncludePackage n [] "" 0 (mkIncludeBundle "" "") ["b2"; "b1"].
Definition ex_op (ps : list IncludePackage) : Operator := mkOperator "quay.io/cat:v1" "" "" false false false ps.
Definition ex_hash : HashJSON := {|
  hash_op p := opp_Catalog p +:+ Join (map ps_Name (opp_Packages p)) ",";
  hash_release p := rp_Name p |}.

Lemma OperatorEntrySignature_stable_witness :
  @OperatorEntrySignature ex_hash (ex_op [ex_pkg "b"; ex_pkg "a"]) =
  @OperatorEntrySignature ex_hash (ex_op [ex_pkg "a"; ex_pkg "b"]).
Proof.
  apply (@OperatorEntrySignature_stable ex_hash (ex_op [ex_pkg "b"; ex_pkg "a"]) (ex_op [ex_pkg "a"; ex_pkg "b"])).
  - split; [apply (bool_decide_unpack _); vm_compute; exact I|repeat constructor].
  - split_and!; try reflexivity. exists [ex_pkg "a"; ex_pkg "b"]. split; [apply Permutation_swap|].
    repeat constructor.
Defined.

(** The digest a catalog build is pinned to is the digest the manager
    resolved: parsing a cache token gives back the digest it was built from,
    a token with another version prefix is rejected, and a cache hit means
    that the token carries exactly the freshly probed digest. *)
Theorem OperatorCache_roundtrip digest value :
  (digest ≠ "" → ParseOperatorCacheDigest (OperatorCacheValue digest) = Some digest) ∧
  (ParseOperatorCacheDigest value = Some digest ↔ digest ≠ "" ∧ value = OperatorCacheValue digest) ∧
  (OperatorCacheHit value digest = true ↔ value = OperatorCacheValue digest).
Proof.
  assert (Hp : ∀ d, d ≠ "" → ParseOperatorCacheDigest (OperatorCacheValue d) = Some d).
  { intros d Hd. unfold ParseOperatorCacheDigest, OperatorCacheValue. rewrite app_assoc_s.
    rewrite HasPrefix_app, TrimPrefix_app. cbn [negb]. by rewrite (proj2 (String.eqb_neq _ _) Hd). }
  split_and!; [apply Hp| |].
  - split; [|intros [Hd ->]; by apply Hp].
    unfold ParseOperatorCacheDigest, OperatorCacheValue. destruct (HasPrefix value _) eqn:E; [|done].
    apply HasPrefix_spec in E as (r & ->). rewrite TrimPrefix_app. cbn [negb].
    destruct (String.eqb_spec r ""); [done|]. intros [= <-]. by rewrite app_assoc_s.
  - unfold OperatorCacheHit. rewrite andb_true_iff, negb_true_iff, String.eqb_eq. split; [naive_solver|].
    intros ->. done.
Qed.

Lemma OperatorCache_roundtrip_witness :
  ParseOperatorCacheDigest (OperatorCacheValue "sha256:ab") = Some "sha256:ab".
Proof. apply (OperatorCache_roundtrip "sha256:ab" ""). discriminate. Defined.
