(* ===== verification/Resolve.v ===== *)
(** * Resolving an ImageSet

    The resolution half of pkg/mirror/manager/manager_resolve.go and the
    release collection of pkg/mirror/collector.go.  What the network answers
    (Cincinnati, registries, catalogs, chart repositories, the GPG and cosign
    checks) is the parameter [Upstream]; [None] is an error. *)
From S2P Require Import Prelude Effects GoStrings HelmSource ImageRef ImageState Owners ManagerState Api.

(** [release.Node] *)
Record Node := mkNode { n_Version : string; n_Image : string }.

(** One image of a filtered catalog: [BundleImageInfo]. *)
Record BundleImage := mkBundleImage { bi_Image : string; bi_Label : string; bi_IsBundle : bool }.

Record HelmChartResolution := mkHelmRes { hr_Images : list string; hr_Version : string; hr_ArchiveDigest : string }.

Record Upstream := mkUpstream {
  up_nodes : ReleaseChannel → string → option (list Node);            (* ResolveReleaseNodes *)
  up_signed : string → bool;                                          (* DownloadSignature and VerifySignature *)
  up_components : string → string → option (list (string * string));  (* ExtractComponentImages *)
  up_kubevirt : string → list string → option (list string);          (* ExtractKubeVirtImages *)
  up_catalogDigest : string → option string;                          (* GetCatalogDigest *)
  up_catalogSigned : Operator → string → bool;                        (* verifyOperatorCatalogSignature *)
  up_pin : string → string → option string;                           (* PinDigest *)
  up_catalog : string → list IncludePackage → option (list BundleImage); (* ResolveCatalogFull *)
  up_chart : string → Chart → option HelmChartResolution;             (* EnumerateHelmChart *)
  up_graph : option string;                                           (* BuildAndPush *)
  up_resolvedSig : list string → string;                              (* SHA-256 of the sorted references *)
  up_redactURL : string → string;                                     (* url.Parse, without userinfo *)
  up_time : string → option Z;                                        (* time.Parse(RFC3339) *)
  up_format : Z → string;                                             (* time.Format(RFC3339) *)
}.

Section resolve.
Context `{Hash : HashJSON} (up : Upstream).

(** ** Release payloads *)

Definition ReleaseArchitectures (p : Platform) : list string :=
  if decide (pf_Architectures p = []) then ["amd64"] else pf_Architectures p.

Definition NodeImages (nodes : list Node) : list string := map n_Image nodes.

Definition ResolvedSignature (payloadImages : list string) : string :=
  if decide (payloadImages = []) then "" else up_resolvedSig up (sort_strings payloadImages).

Definition ResolveReleasePayloadNodes (rel : ReleaseChannel) (arch : string) : option (list Node) :=
  up_nodes up rel (if String.eqb arch "" then "amd64" else arch).

(** The images of one payload node. *)
Definition collect_node (p : Platform) (registry arch : string) (withKubeVirt : bool) (node : Node) : list TargetImage :=
  let releaseTag := releaseTagFor (n_Version node) arch in
  toTargetImage (n_Image node) (releasePayloadDestination registry releaseTag) None ::
  match up_components up (n_Image node) arch with
  | None => []
  | Some comps =>
    map (λ '(name, img), toTargetImage img (releaseComponentDestination registry releaseTag name img) None) comps ++
    (if withKubeVirt && pf_KubeVirtContainer p then
       match up_kubevirt up (n_Image node) (ReleaseArchitectures p) with
       | None => []
       | Some kvImages =>
         map (λ kv, toTargetImage kv (releaseComponentDestination registry releaseTag kubeVirtComponentName kv) None)
           kvImages
       end
     else [])
  end.

Definition collectReleasesForArch (p : Platform) (registry arch : string) (withKubeVirt : bool) (nodes : list Node)
    : list TargetImage :=
  concat (map (collect_node p registry arch withKubeVirt) nodes).

(** The loop over the architectures; [first] is [i == 0]. *)
Fixpoint collect_archs (p : Platform) (registry : string) (rel : ReleaseChannel) (nodesByArch : gmap string (list Node))
    (first : bool) (archs : list string) : option (list TargetImage) :=
  match archs with
  | [] => Some []
  | arch :: archs =>
    nodes ← (match nodesByArch !! arch with Some ns => Some ns | None => ResolveReleasePayloadNodes rel arch end);
    rest ← collect_archs p registry rel nodesByArch false archs;
    Some (collectReleasesForArch p registry arch first nodes ++ rest)
  end.

Definition CollectReleasesForChannel (p : Platform) (registry : string) (rel : ReleaseChannel)
    (nodesByArch : gmap string (list Node)) : option (list TargetImage) :=
  collect_archs p registry rel nodesByArch true (ReleaseArchitectures p).

Definition verifyReleaseNodes (ch : ReleaseChannel) (nodes : list Node) : list Node :=
  if rc_SkipSignatureVerification ch || bool_decide (nodes = []) then nodes
  else List.filter (λ n, let digest := extractDigest (n_Image n) in
                         negb (String.eqb digest "") && up_signed up digest) nodes.

(** The probe loop over the architectures. *)
Inductive probe := ProbeError | Rejected | Probed (nodesByArch : gmap string (list Node)) (verified : list Node).

Fixpoint probe_archs (ch : ReleaseChannel) (archs : list string) (byArch : gmap string (list Node))
    (verifiedNodes : list Node) : probe :=
  match archs with
  | [] => Probed byArch verifiedNodes
  | a :: archs =>
    match ResolveReleasePayloadNodes ch a with
    | None => ProbeError
    | Some payloadNodes =>
      let verified := verifyReleaseNodes ch payloadNodes in
      if bool_decide (verified = []) && negb (bool_decide (payloadNodes = [])) then Rejected
      else probe_archs ch archs (<[a := verified]> byArch) (verifiedNodes ++ verified)
    end
  end.

(** What the sections thread: the new state, the annotations and the two flags. *)
Record section_state := mkSection {
  ss_state : gmap string ImageEntry;
  ss_annotations : gmap string string;
  ss_annoChanged : bool;
  ss_hadError : bool;
}.

Definition with_state (f : gmap string ImageEntry → gmap string ImageEntry) (hadError : bool) (s : section_state)
    : section_state :=
  mkSection (f (ss_state s)) (ss_annotations s) (ss_annoChanged s) (ss_hadError s || hadError).

Definition set_annotation (key value : string) (s : section_state) : section_state :=
  if String.eqb (default "" (ss_annotations s !! key)) value then s
  else mkSection (ss_state s) (<[key := value]> (ss_annotations s)) true (ss_hadError s).

Definition resolveReleaseChannel (iset : ImageSet) (registry : string) (currentState : gmap string ImageEntry)
    (recollect : bool) (s : section_state) (ch : ReleaseChannel) : section_state :=
  let p := mi_Platform (is_Mirror iset) in
  let arch := ReleaseArchitectures p in
  let sig := ReleaseChannelSignature ch arch (pf_KubeVirtContainer p) in
  let annoKey := ReleaseDigestAnnotationKey sig in
  let cached := default "" (ss_annotations s !! annoKey) in
  let originRef := rc_Name ch +:+ " [" +:+ Join arch "," +:+ "]" in
  let carry st := carryOverByOriginAndSig currentState st OriginRelease sig originRef in
  match probe_archs ch arch ∅ [] with
  | ProbeError => with_state carry true s
  | Rejected => with_state carry true s
  | Probed _ [] => with_state carry false s
  | Probed nodesByArch verifiedNodes =>
    let freshSig := ResolvedSignature (NodeImages verifiedNodes) in
    if negb recollect && negb (String.eqb cached "") && String.eqb cached freshSig then with_state carry false s
    else
      match CollectReleasesForChannel p registry ch nodesByArch with
      | None => with_state carry true s
      | Some images =>
        set_annotation annoKey freshSig
          (with_state (λ st, mergeIntoStateWithSig st images OriginRelease sig originRef currentState) false s)
      end
  end.

Definition resolveReleaseSection (iset : ImageSet) (registry : string) (currentState : gmap string ImageEntry)
    (recollect : bool) (s : section_state) : section_state :=
  foldl (resolveReleaseChannel iset registry currentState recollect) s (pf_Channels (mi_Platform (is_Mirror iset))).

(** ** Operator catalogs *)

Definition operator_label (op : Operator) : string :=
  let pkgNames := sort_strings (map ip_Name (op_Packages op)) in
  if decide (pkgNames = []) then op_Catalog op
  else op_Catalog op +:+ " [" +:+ Join pkgNames ", " +:+ "]".

Definition bundle_target (registry : string) (b : BundleImage) : TargetImage :=
  mkTargetImage (bi_Image b) (ComponentDestination registry (bi_Image b)) "" (bi_Label b) (bi_IsBundle b).

(** [entry.Catalog = op.Catalog] for the destinations just merged. *)
Definition tag_catalog (catalog : string) (st : gmap string ImageEntry) (ti : TargetImage) : gmap string ImageEntry :=
  match st !! ti_Destination ti with
  | Some e => if String.eqb (Origin e) OriginOperator
              then <[ti_Destination ti := set_Labels (Origin e) (EntrySig e) (OriginRef e) catalog e]> st else st
  | None => st
  end.

Definition resolveOperator (registry : string) (currentState : gmap string ImageEntry) (recollect : bool)
    (s : section_state) (op : Operator) : section_state :=
  let sig := OperatorEntrySignature op in
  let annoKey := CatalogDigestAnnotationKey sig in
  let cached := default "" (ss_annotations s !! annoKey) in
  let originRef := operator_label op in
  let carry st := carryOverByOriginAndSig currentState st OriginOperator sig originRef in
  match up_catalogDigest up (op_Catalog op) with
  | None => with_state carry true s
  | Some freshDigest =>
    if op_SignatureVerification op && negb (up_catalogSigned up op freshDigest) then with_state carry true s
    else
      let pinnedCatalog := default (op_Catalog op) (up_pin up (op_Catalog op) freshDigest) in
      if negb recollect && OperatorCacheHit cached freshDigest then with_state carry false s
      else
        match up_catalog up pinnedCatalog (op_Packages op) with
        | None => with_state carry true s
        | Some images =>
          let targetImages := map (bundle_target registry) images in
          set_annotation annoKey (OperatorCacheValue freshDigest)
            (with_state (λ st, foldl (tag_catalog (op_Catalog op))
               (mergeIntoStateWithSig st targetImages OriginOperator sig originRef currentState) targetImages) false s)
        end
  end.

Definition resolveOperatorSection (iset : ImageSet) (registry : string) (currentState : gmap string ImageEntry)
    (recollect : bool) (s : section_state) : section_state :=
  foldl (resolveOperator registry currentState recollect) s (mi_Operators (is_Mirror iset)).

(** ** Helm charts *)

Definition HelmChartSignature (repoName chartName version archiveDigest : string) : string :=
  "chart:" +:+ repoName +:+ "/" +:+ chartName +:+ ":" +:+ version +:+ "@" +:+ archiveDigest.

Definition resolveHelmChart (registry : string) (currentState : gmap string ImageEntry) (s : section_state)
    (rc : Repository * Chart) : section_state :=
  let '(repo, chart) := rc in
  let label := "helm " +:+ repo_Name repo +:+ "/" +:+ ch_Name chart in
  match up_chart up (repo_URL repo) chart with
  | None =>
    with_state (λ st, carryOverHelmEntries currentState
      (carryOverHelmEntries currentState st OriginHelm label) OriginHelmChart label) true s
  | Some res =>
    let images := map (λ img, mkTargetImage img (registry +:+ "/" +:+ img) "" "" false) (hr_Images res) in
    let source := HelmChartSource (up_redactURL up) (repo_URL repo) (ch_Name chart) (hr_Version res) in
    let dest := ChartDestination registry (repo_Name repo) (ch_Name chart) (hr_Version res) in
    let sig := HelmChartSignature (repo_Name repo) (ch_Name chart) (hr_Version res) (hr_ArchiveDigest res) in
    with_state (λ st,
      mergeIntoStateWithSig (mergeIntoStateWithSig st images OriginHelm "" label currentState)
        [mkTargetImage source dest "" "" false] OriginHelmChart sig (label +:+ ":" +:+ hr_Version res) currentState)
      false s
  end.

Definition resolveHelmCharts (iset : ImageSet) (registry : string) (currentState : gmap string ImageEntry)
    (s : section_state) : section_state :=
  foldl (resolveHelmChart registry currentState) s
    (concat (map (λ repo, map (λ c, (repo, c)) (repo_Charts repo)) (mi_Helm (is_Mirror iset)))).

(** ** The graph image *)

(** [effectivePollInterval]; [None]: polling is disabled. *)
Definition effectivePollInterval (mt : MirrorTarget) : option Z :=
  match mt_PollInterval mt with
  | None => Some (24 * hour)%Z
  | Some d => if (d <=? 0)%Z then None else Some (Z.max d (10 * minute))
  end.

Definition resolveGraphImage (now : Z) (iset : ImageSet) (mt : MirrorTarget) (recollect : bool)
    (s : section_state) : section_state :=
  if negb (pf_Graph (mi_Platform (is_Mirror iset))) then s
  else
    let builtAtStr := default "" (ss_annotations s !! GraphImageBuiltAnnotation) in
    let builtAt := if String.eqb builtAtStr "" then None else up_time up builtAtStr in
    let fresh := match builtAt with
      | Some t => match effectivePollInterval mt with None => true | Some i => (now - t <? i)%Z end
      | None => false end in
    if negb recollect && fresh then s
    else match up_graph up with
         | None => s
         | Some _ => mkSection (ss_state s) (<[GraphImageBuiltAnnotation := up_format up now]> (ss_annotations s))
                       true (ss_hadError s)
         end.

(** ** Annotations *)

Definition is_cache_key (k : string) : bool :=
  HasPrefix k CatalogDigestAnnotationPrefix || HasPrefix k ReleaseDigestAnnotationPrefix.

Definition desired_keys (iset : ImageSet) : list string :=
  let p := mi_Platform (is_Mirror iset) in
  map (λ ch, ReleaseDigestAnnotationKey (ReleaseChannelSignature ch (ReleaseArchitectures p) (pf_KubeVirtContainer p)))
    (pf_Channels p) ++
  map (λ op, CatalogDigestAnnotationKey (OperatorEntrySignature op)) (mi_Operators (is_Mirror iset)).

Definition obsolete_key (iset : ImageSet) (k : string) : bool :=
  is_cache_key k && negb (existsb (String.eqb k) (desired_keys iset)).

Definition pruneObsoleteCacheAnnotations (annotations : gmap string string) (iset : ImageSet)
    : gmap string string * bool :=
  (filter (λ kv, obsolete_key iset (fst kv) = false) annotations,
   existsb (λ kv, obsolete_key iset (fst kv)) (map_to_list annotations)).

Definition catalogDigestsOf (annotations : gmap string string) : gmap string string :=
  filter (λ kv, HasPrefix (fst kv) CatalogDigestAnnotationPrefix = true) annotations.

Definition hasStaleCacheAnnotations (iset : ImageSet) : bool :=
  existsb (λ '(k, v), HasPrefix k CatalogDigestAnnotationPrefix && negb (HasPrefix v (OperatorCacheVersion +:+ ":")))
    (map_to_list (is_Annotations iset)).

Definition shouldResolve (now : Z) (iset : ImageSet) (mt : MirrorTarget) (currentState : gmap string ImageEntry) : bool :=
  if decide (currentState = ∅) then true
  else if bool_decide (is_Some (is_Annotations iset !! RecollectAnnotation)) then true
  else if (st_ObservedGeneration (is_Status iset) <? is_Generation iset)%Z then true
  else if hasStaleCacheAnnotations iset then true
  else match effectivePollInterval mt with
       | None => false
       | Some i => match st_LastSuccessfulPollTime (is_Status iset) with None => true | Some t => (i <=? now - t)%Z end
       end.

(** The annotations [patchImageSetAnnotations] writes over [fresh], the ones
    it re-reads; [start] are those the resolve started from. *)
Definition patched_annotations (start fresh desired : gmap string string) : gmap string string :=
  let managed k := is_cache_key k || String.eqb k GraphImageBuiltAnnotation in
  let kept := filter (λ kv,
    managed (fst kv) = false ∧
    ¬ (fst kv = RecollectAnnotation ∧ start !! RecollectAnnotation = Some (snd kv) ∧ desired !! fst kv = None)) fresh in
  filter (λ kv, (managed (fst kv) || String.eqb (fst kv) RecollectHonoredAnnotation) = true) desired ∪ kept.

(** ** [resolveImageSet] *)

Definition owned_origin (o : string) : bool :=
  String.eqb o OriginRelease || String.eqb o OriginOperator || String.eqb o OriginAdditional
  || String.eqb o OriginHelm || String.eqb o OriginHelmChart.

Record ResolveResult := mkResolveResult {
  rr_state : gmap string ImageEntry;
  rr_stateChanged : bool;
  rr_hadError : bool;
  rr_annotations : gmap string string;
}.

(** The sections in the order the code runs them, before blocked images are
    removed. *)
Definition resolve_sections (now : Z) (iset : ImageSet) (mt : MirrorTarget) (currentState : gmap string ImageEntry)
    : section_state :=
  let registry := mt_Registry mt in
  let annotations := is_Annotations iset in
  let recollect := bool_decide (is_Some (annotations !! RecollectAnnotation)) in
  let start := filter (λ kv, owned_origin (Origin (snd kv)) = false) currentState in
  let s := mkSection start annotations false false in
  let s := resolveReleaseSection iset registry currentState recollect s in
  let s := resolveOperatorSection iset registry currentState recollect s in
  let additional := CollectAdditional registry (mi_AdditionalImages (is_Mirror iset)) None in
  let s := with_state (λ st, mergeIntoStateWithSig st additional OriginAdditional "" "additional" currentState) false s in
  let s := resolveHelmCharts iset registry currentState s in
  resolveGraphImage now iset mt recollect s.

Definition resolveImageSet (now : Z) (iset : ImageSet) (mt : MirrorTarget) (currentState : gmap string ImageEntry)
    : ResolveResult :=
  let recollect := bool_decide (is_Some (is_Annotations iset !! RecollectAnnotation)) in
  let s := resolve_sections now iset mt currentState in
  let newState := filterBlockedImages (ss_state s) (mi_BlockedImages (is_Mirror iset)) in
  let newAnnotations := fst (pruneObsoleteCacheAnnotations (ss_annotations s) iset) in
  let newAnnotations := if recollect
    then <[RecollectHonoredAnnotation := up_format up now]> (delete RecollectAnnotation newAnnotations)
    else newAnnotations in
  mkResolveResult newState (negb (equalState currentState newState)) (ss_hadError s) newAnnotations.

(** * Lemmas *)

(** Sections only add destinations, and an error stays recorded. *)
Definition grows (s s' : section_state) : Prop :=
  (∀ d, is_Some (ss_state s !! d) → is_Some (ss_state s' !! d)) ∧ (ss_hadError s = true → ss_hadError s' = true).

#[local] Instance grows_preorder : PreOrder grows.
Proof. split; [by split|]. intros s1 s2 s3 [H1 H2] [H3 H4]. split; auto. Qed.

Lemma grows_with_state f b s :
  (∀ st d, is_Some (st !! d) → is_Some (f st !! d)) → grows s (with_state f b s).
Proof. intros Hf. split; cbn; [auto|]. by intros ->. Qed.

Lemma grows_set_annotation k v s : grows s (set_annotation k v s).
Proof. unfold set_annotation. by destruct (String.eqb _ _). Qed.

Lemma merge_grows st images origin sig ref prev (d : string) :
  is_Some (st !! d) → is_Some (mergeIntoStateWithSig st images origin sig ref prev !! d).
Proof.
  intros Hs. destruct (decide (d ∈ ti_Destination <$> images)) as [Hd|Hd].
  - destruct (mergeIntoState_in st images origin sig ref prev d Hd) as (img & _ & _ & ->). eauto.
  - by rewrite mergeIntoState_notin.
Qed.

Lemma carry_grows src st origin sig ref (d : string) :
  is_Some (st !! d) → is_Some (carryOverByOriginAndSig src st origin sig ref !! d).
Proof. intros [e E]. unfold carryOverByOriginAndSig. rewrite carry_lookup, E. eauto. Qed.

Lemma helm_carry_grows src st origin ref (d : string) :
  is_Some (st !! d) → is_Some (carryOverHelmEntries src st origin ref !! d).
Proof. intros [e E]. unfold carryOverHelmEntries. rewrite carry_lookup, E. eauto. Qed.

Lemma tag_catalog_grows c l st (d : string) :
  is_Some (st !! d) → is_Some (foldl (tag_catalog c) st l !! d).
Proof.
  intros Hs. apply (foldl_inv_simple (λ st : gmap string ImageEntry, is_Some (st !! d))); [done|].
  intros ti acc _ Hacc. unfold tag_catalog. destruct (acc !! ti_Destination ti) eqn:E; [|done].
  destruct (String.eqb _ _); [|done].
  destruct (decide (d = ti_Destination ti)) as [->|]; [rewrite lookup_insert_eq; eauto|by rewrite lookup_insert_ne].
Qed.

Lemma grows_release iset registry cur recollect s ch :
  grows s (resolveReleaseChannel iset registry cur recollect s ch).
Proof.
  unfold resolveReleaseChannel.
  destruct (probe_archs _ _ _ _) as [| |byArch [|v vs]];
    try (apply grows_with_state; intros; by apply carry_grows).
  destruct (_ && _ && _); [apply grows_with_state; intros; by apply carry_grows|].
  destruct (CollectReleasesForChannel _ _ _ _); [|apply grows_with_state; intros; by apply carry_grows].
  etransitivity; [|apply grows_set_annotation]. apply grows_with_state. intros. by apply merge_grows.
Qed.

Lemma grows_operator registry cur recollect s op : grows s (resolveOperator registry cur recollect s op).
Proof.
  unfold resolveOperator. destruct (up_catalogDigest up _);
    [|apply grows_with_state; intros; by apply carry_grows].
  destruct (_ && negb _); [apply grows_with_state; intros; by apply carry_grows|].
  destruct (_ && OperatorCacheHit _ _); [apply grows_with_state; intros; by apply carry_grows|].
  destruct (up_catalog up _ _); [|apply grows_with_state; intros; by apply carry_grows].
  etransitivity; [|apply grows_set_annotation]. apply grows_with_state. intros.
  by apply tag_catalog_grows, merge_grows.
Qed.

Lemma grows_helm registry cur s rc : grows s (resolveHelmChart registry cur s rc).
Proof.
  destruct rc as [repo chart]. unfold resolveHelmChart. destruct (up_chart up _ _); apply grows_with_state; intros.
  - by apply merge_grows, merge_grows.
  - by apply helm_carry_grows, helm_carry_grows.
Qed.

Lemma grows_graph now iset mt recollect s : grows s (resolveGraphImage now iset mt recollect s).
Proof.
  unfold resolveGraphImage. destruct (negb _); [done|]. destruct (_ && _); [done|].
  by destruct (up_graph up).
Qed.

Lemma grows_foldl {A} (f : section_state → A → section_state) s l :
  (∀ s x, grows s (f s x)) → grows s (foldl f s l).
Proof.
  intros Hf. apply (foldl_inv_simple (grows s)); [done|]. intros x acc _ H. by etransitivity.
Qed.

(** A step of a loop that establishes something monotone establishes it for
    the whole loop. *)
Lemma foldl_establishes {A} (f : section_state → A → section_state) (P : section_state → Prop) s l x :
  (∀ s x, grows s (f s x)) → (∀ s s', grows s s' → P s → P s') → x ∈ l → (∀ s, P (f s x)) → P (foldl f s l).
Proof.
  intros Hg Hm Hx Hp. apply list_elem_of_split in Hx as (l1 & l2 & ->).
  rewrite foldl_app. cbn. eapply Hm; [by apply grows_foldl|apply Hp].
Qed.

(** ** Which spec entry an image belongs to, and when its resolve fails *)

Definition channel_sig (iset : ImageSet) (ch : ReleaseChannel) : string :=
  let p := mi_Platform (is_Mirror iset) in
  ReleaseChannelSignature ch (ReleaseArchitectures p) (pf_KubeVirtContainer p).

(** The Cincinnati graph of one of the architectures could not be read. *)
Definition channel_unreachable (iset : ImageSet) (ch : ReleaseChannel) : Prop :=
  probe_archs ch (ReleaseArchitectures (mi_Platform (is_Mirror iset))) ∅ [] = ProbeError.

Definition operator_unreachable (op : Operator) : Prop := up_catalogDigest up (op_Catalog op) = None.

(** An entry of the previous state whose spec entry cannot be resolved now. *)
Inductive outage (iset : ImageSet) (e : ImageEntry) : Prop :=
| outage_release ch :
    ch ∈ pf_Channels (mi_Platform (is_Mirror iset)) → channel_unreachable iset ch →
    Origin e = OriginRelease → EntrySig e = "" ∨ EntrySig e = channel_sig iset ch → outage iset e
| outage_operator op :
    op ∈ mi_Operators (is_Mirror iset) → operator_unreachable op →
    Origin e = OriginOperator → EntrySig e = "" ∨ EntrySig e = OperatorEntrySignature op → outage iset e
| outage_chart repo chart :
    repo ∈ mi_Helm (is_Mirror iset) → chart ∈ repo_Charts repo → up_chart up (repo_URL repo) chart = None →
    Origin e = OriginHelm ∨ Origin e = OriginHelmChart →
    OriginRef e = "" ∨ HasPrefix (OriginRef e) ("helm " +:+ repo_Name repo +:+ "/" +:+ ch_Name chart) = true →
    outage iset e.

Definition kept (d : string) (s : section_state) : Prop := is_Some (ss_state s !! d) ∧ ss_hadError s = true.

Lemma kept_grows d s s' : grows s s' → kept d s → kept d s'.
Proof. intros [H1 H2] [? ?]. split; auto. Qed.

Lemma carry_keeps cur st origin sig ref d e :
  cur !! d = Some e → Origin e = origin → EntrySig e = "" ∨ EntrySig e = sig →
  is_Some (carryOverByOriginAndSig cur st origin sig ref !! d).
Proof.
  intros Hc Ho Hs. unfold carryOverByOriginAndSig. rewrite carry_lookup, Hc. destruct (st !! d); [eauto|].
  cbn. destruct (sig_carry_spec origin sig ref e Ho Hs) as (e' & -> & _). eauto.
Qed.

Lemma helm_carry_keeps cur st origin ref d e :
  cur !! d = Some e → Origin e = origin → OriginRef e = "" ∨ HasPrefix (OriginRef e) ref = true →
  is_Some (carryOverHelmEntries cur st origin ref !! d).
Proof.
  intros Hc Ho Hs. unfold carryOverHelmEntries. rewrite carry_lookup, Hc. destruct (st !! d); [eauto|]. cbn.
  unfold helm_carry. rewrite Ho, String.eqb_refl. cbn [negb].
  destruct Hs as [->| ->]; cbn; [eauto|]. rewrite andb_false_r. eauto.
Qed.

Lemma release_outage_kept iset registry cur recollect s ch d e :
  cur !! d = Some e → channel_unreachable iset ch → Origin e = OriginRelease →
  EntrySig e = "" ∨ EntrySig e = channel_sig iset ch →
  kept d (resolveReleaseChannel iset registry cur recollect s ch).
Proof.
  intros Hc Hu Ho Hs. unfold resolveReleaseChannel. rewrite Hu. split; cbn; [by eapply carry_keeps|apply orb_true_r].
Qed.

Lemma operator_outage_kept registry cur recollect s op d e :
  cur !! d = Some e → operator_unreachable op → Origin e = OriginOperator →
  EntrySig e = "" ∨ EntrySig e = OperatorEntrySignature op →
  kept d (resolveOperator registry cur recollect s op).
Proof.
  intros Hc Hu Ho Hs. unfold resolveOperator. rewrite Hu. split; cbn; [by eapply carry_keeps|apply orb_true_r].
Qed.

Lemma chart_outage_kept registry cur s repo chart d e :
  cur !! d = Some e → up_chart up (repo_URL repo) chart = None →
  Origin e = OriginHelm ∨ Origin e = OriginHelmChart →
  OriginRef e = "" ∨ HasPrefix (OriginRef e) ("helm " +:+ repo_Name repo +:+ "/" +:+ ch_Name chart) = true →
  kept d (resolveHelmChart registry cur s (repo, chart)).
Proof.
  intros Hc Hu Ho Hs. unfold resolveHelmChart. rewrite Hu. split; cbn; [|apply orb_true_r].
  destruct Ho as [Ho|Ho].
  - by apply helm_carry_grows; eapply helm_carry_keeps.
  - by eapply helm_carry_keeps.
Qed.

Lemma outage_kept now iset mt cur d e :
  cur !! d = Some e → outage iset e → kept d (resolve_sections now iset mt cur).
Proof.
  intros Hc Hout. unfold resolve_sections.
  eapply kept_grows; [apply grows_graph|].
  destruct Hout as [ch Hch Hu Ho Hs|op Hop Hu Ho Hs|repo chart Hr Hch Hu Ho Hs].
  - eapply kept_grows; [apply grows_foldl, grows_helm|].
    eapply kept_grows; [apply grows_with_state; intros; by apply merge_grows|].
    eapply kept_grows; [apply grows_foldl, grows_operator|].
    apply (foldl_establishes _ (kept d) _ _ ch); [apply grows_release|apply kept_grows|done|].
    intros. by eapply release_outage_kept.
  - eapply kept_grows; [apply grows_foldl, grows_helm|].
    eapply kept_grows; [apply grows_with_state; intros; by apply merge_grows|].
    apply (foldl_establishes _ (kept d) _ _ op); [apply grows_operator|apply kept_grows|done|].
    intros. by eapply operator_outage_kept.
  - apply (foldl_establishes _ (kept d) _ _ (repo, chart)); [apply grows_helm|apply kept_grows| |].
    + apply list_elem_of_In, in_concat. exists (map (λ c, (repo, c)) (repo_Charts repo)). split.
      * apply in_map_iff. exists repo. split; [done|by apply list_elem_of_In].
      * apply in_map_iff. exists chart. split; [done|by apply list_elem_of_In].
    + intros. by eapply chart_outage_kept.
Qed.

End resolve.

(** * Signed payloads *)

Lemma verified_signed up ch nodes n :
  rc_SkipSignatureVerification ch = false → n ∈ verifyReleaseNodes up ch nodes →
  n ∈ nodes ∧ extractDigest (n_Image n) ≠ "" ∧ up_signed up (extractDigest (n_Image n)) = true.
Proof.
  intros Hs. unfold verifyReleaseNodes. rewrite Hs. cbn [orb].
  case_bool_decide as Hn; [subst; by intros ?%elem_of_nil|].
  intros [Hf Hin]%elem_of_filter_bool. boolify. split_and!; try done. by apply String.eqb_neq.
Qed.

(** What holds of every verified node holds of the nodes of every architecture. *)
Lemma probe_verified (Q : Node → Prop) up ch archs byArch0 vs0 byArch vs :
  (∀ nodes n, n ∈ verifyReleaseNodes up ch nodes → Q n) →
  (∀ a ns n, byArch0 !! a = Some ns → n ∈ ns → Q n) →
  probe_archs up ch archs byArch0 vs0 = Probed byArch vs →
  (∀ a ns n, byArch !! a = Some ns → n ∈ ns → Q n) ∧ (∀ a, a ∈ archs ∨ is_Some (byArch0 !! a) → is_Some (byArch !! a)).
Proof.
  intros HQ. revert byArch0 vs0. induction archs as [|a archs IH]; intros byArch0 vs0 H0; cbn.
  - intros [= <- <-]. split; [done|]. intros a [Ha|?]; [by apply elem_of_nil in Ha|done].
  - destruct (ResolveReleasePayloadNodes up ch a) as [pn|]; [|done].
    destruct (_ && _); [done|]. intros Hp. apply IH in Hp as [H1 H2].
    + split; [done|]. intros a' Ha'. apply H2. destruct (decide (a' = a)) as [->|].
      * right. rewrite lookup_insert_eq. eauto.
      * rewrite lookup_insert_ne by done. set_solver.
    + intros a' ns n. destruct (decide (a' = a)) as [->|].
      * rewrite lookup_insert_eq. intros [= <-] Hn. by apply (HQ pn).
      * rewrite lookup_insert_ne by done. apply H0.
Qed.

Lemma collect_archs_nodes up p registry ch byArch first archs images img :
  (∀ a, a ∈ archs → is_Some (byArch !! a)) →
  collect_archs up p registry ch byArch first archs = Some images → img ∈ images →
  ∃ a ns n kv, byArch !! a = Some ns ∧ n ∈ ns ∧ img ∈ collect_node up p registry a kv n.
Proof.
  revert first images. induction archs as [|a archs IH]; intros first images Hall; cbn.
  { intros [= <-] ?%elem_of_nil. done. }
  destruct (Hall a) as [ns Hns]; [set_solver|]. rewrite Hns. cbn.
  destruct (collect_archs up p registry ch byArch false archs) as [rest|] eqn:E; [|done]. cbn.
  intros [= <-] [Hi|Hi]%elem_of_app.
  - unfold collectReleasesForArch in Hi. apply list_elem_of_In, in_concat in Hi as (l & Hl & Hi).
    apply in_map_iff in Hl as (n & <- & Hn). exists a, ns, n, first.
    split_and!; [done|by apply list_elem_of_In|by apply list_elem_of_In].
  - eapply IH; [|done|done]. set_solver.
Qed.

(** * Properties *)

(** C30: an outage upstream never drops content.  If the channel graph, the
    catalog or the chart repository behind an entry of the ImageSet's current
    state cannot be reached, then for every answer of everything else the
    resolved state still has that destination (unless the image now resolved
    for it is explicitly blocked), so it is neither orphaned nor deleted from
    the target, and the error is reported so that the poll is retried. *)
Theorem resolve_outage_keeps_entries `{HashJSON} up now iset mt cur d e :
  cur !! d = Some e → outage up iset e →
  ∃ e', ss_state (resolve_sections up now iset mt cur) !! d = Some e' ∧
    ((∀ b, b ∈ mi_BlockedImages (is_Mirror iset) → ImageBlocked (Source e') b = false) →
       rr_state (resolveImageSet up now iset mt cur) !! d = Some e') ∧
    rr_hadError (resolveImageSet up now iset mt cur) = true.
Proof.
  intros Hc Hout. destruct (outage_kept up now iset mt cur d e Hc Hout) as [[e' He] Herr].
  exists e'. split_and!; [done| |done].
  intros Hb. cbn. unfold filterBlockedImages. case_decide; [done|].
  apply map_lookup_filter_Some. split; [done|]. cbn. by apply existsb_not_elem.
Qed.

(** An upstream that is down: every probe fails. *)
Definition down : Upstream :=
  mkUpstream (λ _ _, None) (λ _, false) (λ _ _, None) (λ _ _, None) (λ _, None) (λ _ _, false) (λ _ _, None)
    (λ _ _, None) (λ _ _, None) None (λ l, Join l ",") id (λ _, None) (λ _, "t").
Definition ex_chan : ReleaseChannel := mkChannelSpec "stable-4.16" TypeOCP "" "" false false false.
Definition ex_set : ImageSet :=
  mkImageSet "is1" ∅ 1 (mkMirror (mkPlatform false [ex_chan] ["amd64"] true) [ex_op [ex_pkg "p"]] [] [] [] false) (ex_status 1).
Definition ex_target : MirrorTarget := mkMirrorTarget "mt" "reg" ["is1"] 1 50 10 None None ∅ 1 "" false None None.
Definition ex_current : gmap string ImageEntry :=
  {["reg/p:sha256-1" := mkImageEntry "quay.io/p@sha256:1" "Mirrored" "" 0 OriginOperator
      (@OperatorEntrySignature ex_hash (ex_op [ex_pkg "p"])) "l" "c" false false None false ""]}.

Lemma resolve_outage_keeps_entries_witness :
  rr_hadError (@resolveImageSet ex_hash down 0 ex_set ex_target ex_current) = true ∧
  is_Some (rr_state (@resolveImageSet ex_hash down 0 ex_set ex_target ex_current) !! "reg/p:sha256-1").
Proof.
  edestruct (@resolve_outage_keeps_entries ex_hash down 0 ex_set ex_target ex_current "reg/p:sha256-1")
    as (e' & _ & Hk & He).
  - reflexivity.
  - eapply (outage_operator down ex_set _ (ex_op [ex_pkg "p"])); [set_solver|reflexivity|reflexivity|by right].
  - split; [exact He|]. exists e'. apply Hk. set_solver.
Defined.

(** No image of an unsigned release payload is ever queued.  Unless the
    channel opts out of signature verification, every image collected for it
    stems from a payload whose digest has a signature that was downloaded and
    verified, for every architecture. *)
Theorem releases_only_from_signed_payloads `{HashJSON} up iset registry ch byArch vs images img :
  rc_SkipSignatureVerification ch = false →
  probe_archs up ch (ReleaseArchitectures (mi_Platform (is_Mirror iset))) ∅ [] = Probed byArch vs →
  CollectReleasesForChannel up (mi_Platform (is_Mirror iset)) registry ch byArch = Some images →
  img ∈ images →
  ∃ a n kv, img ∈ collect_node up (mi_Platform (is_Mirror iset)) registry a kv n ∧
    up_signed up (extractDigest (n_Image n)) = true.
Proof.
  intros Hs Hp Hc Hi.
  apply (probe_verified (λ n, up_signed up (extractDigest (n_Image n)) = true)) in Hp as [Hsig Hall];
    [|intros ns n Hn; by apply verified_signed in Hn as (_ & _ & ?)|intros a ns n; by rewrite lookup_empty].
  apply collect_archs_nodes with (img := img) in Hc as (a & ns & n & kv & Ha & Hn & Him); [|by auto|done].
  exists a, n, kv. split; [done|]. by eapply Hsig.
Qed.

(** An upstream with one signed payload for every architecture, and two
    KubeVirt disk images. *)
Definition one_payload (comps : option (list (string * string))) : Upstream :=
  mkUpstream (λ _ _, Some [mkNode "4.16.1" "quay.io/rel@sha256:aa"]) (λ _, true) (λ _ _, comps)
    (λ _ _, Some ["quay.io/kv@sha256:01"; "quay.io/kv@sha256:02"]) (λ _, None) (λ _ _, false) (λ _ _, None)
    (λ _ _, None) (λ _ _, None) None (λ l, Join l ",") id (λ _, None) (λ _, "t").

Lemma releases_only_from_signed_payloads_witness :
  ∃ a n kv, toTargetImage "quay.io/rel@sha256:aa" "reg/openshift/release-images:4.16.1-x86_64" None
      ∈ collect_node (one_payload None) (mi_Platform (is_Mirror ex_set)) "reg" a kv n ∧
    up_signed (one_payload None) (extractDigest (n_Image n)) = true.
Proof.
  eapply (@releases_only_from_signed_payloads ex_hash (one_payload None) ex_set "reg" ex_chan);
    [reflexivity|reflexivity|reflexivity|]. vm_compute. left.
Defined.

(** Blocking wins over every source of images: no destination of a
    resolved state has a source that a blocked-image pattern matches, whether
    it was collected, carried over or left from an unknown origin. *)
Theorem resolve_never_keeps_blocked `{HashJSON} up now iset mt cur d e b :
  rr_state (resolveImageSet up now iset mt cur) !! d = Some e →
  b ∈ mi_BlockedImages (is_Mirror iset) → ImageBlocked (Source e) b = false.
Proof.
  cbn. unfold filterBlockedImages. case_decide as Hb; [rewrite Hb; by intros _ ?%elem_of_nil|].
  intros [_ Hf]%map_lookup_filter_Some Hin. cbn in Hf. rewrite existsb_not_elem in Hf. by apply Hf.
Qed.

Lemma resolve_never_keeps_blocked_witness :
  let iset := mkImageSet "is1" ∅ 1 (mkMirror (mkPlatform false [] [] false) []
    [mkAdditionalImage "quay.io/a:1" "" ""; mkAdditionalImage "quay.io/b:1" "" ""] [] ["b"] false) (ex_status 1) in
  ∃ e, rr_state (@resolveImageSet ex_hash down 0 iset ex_target ∅) !! "reg/quay.io/a:1" = Some e ∧
       ImageBlocked (Source e) "b" = false.
Proof.
  intros iset. eexists. split; [vm_compute; reflexivity|].
  eapply (@resolve_never_keeps_blocked ex_hash down 0 iset ex_target ∅ "reg/quay.io/a:1");
    [vm_compute; reflexivity|set_solver].
Defined.

(** A recollect requested while a resolve is running is not lost: the
    patch that removes the honored request keeps the annotation when its
    value changed in the meantime, keeps every annotation the manager does
    not own, and writes exactly the cache keys of the new resolution. *)
Theorem patch_keeps_concurrent_recollect start fresh desired v :
  desired !! RecollectAnnotation = None →
  (fresh !! RecollectAnnotation = Some v → start !! RecollectAnnotation ≠ Some v →
     patched_annotations start fresh desired !! RecollectAnnotation = Some v) ∧
  (start !! RecollectAnnotation = Some v → fresh !! RecollectAnnotation = Some v →
     patched_annotations start fresh desired !! RecollectAnnotation = None) ∧
  (∀ k, is_cache_key k = true → patched_annotations start fresh desired !! k = desired !! k) ∧
  (∀ k, is_cache_key k = false → k ≠ GraphImageBuiltAnnotation → k ≠ RecollectAnnotation →
     k ≠ RecollectHonoredAnnotation → patched_annotations start fresh desired !! k = fresh !! k).
Proof.
  intros Hd. unfold patched_annotations. split_and!.
  - intros Hf Hs. apply lookup_union_Some_raw. right. split.
    + apply map_lookup_filter_None_2. by left.
    + apply map_lookup_filter_Some. split; [done|]. cbn. split; [done|]. naive_solver.
  - intros Hs Hf. apply lookup_union_None. split; apply map_lookup_filter_None_2.
    + by left.
    + right. intros x Hx. rewrite Hf in Hx. injection Hx as <-. cbn. naive_solver.
  - intros k Hk. rewrite lookup_union. rewrite !map_lookup_filter.
    destruct (desired !! k) as [x|]; cbn.
    + rewrite Hk. cbn. rewrite option_guard_True by done. cbn. by destruct (_ ≫= _).
    + destruct (fresh !! k); [|done]. cbn. rewrite Hk. rewrite option_guard_False; [done|]. naive_solver.
  - intros k Hk Hg Hr Hh. rewrite lookup_union. rewrite !map_lookup_filter.
    apply String.eqb_neq in Hg, Hh.
    destruct (fresh !! k) as [y|]; cbn; rewrite ?Hk, ?Hg; cbn.
    + rewrite option_guard_True by naive_solver.
      destruct (desired !! k); cbn; [|done]. rewrite ?Hk, ?Hg, ?Hh. by rewrite option_guard_False.
    + destruct (desired !! k); cbn; [|done]. rewrite ?Hk, ?Hg, ?Hh. by rewrite option_guard_False.
Qed.

Lemma patch_keeps_concurrent_recollect_witness :
  patched_annotations {[RecollectAnnotation := "1"]} {[RecollectAnnotation := "2"]} ∅ !! RecollectAnnotation = Some "2".
Proof.
  apply (patch_keeps_concurrent_recollect {[RecollectAnnotation := "1"]} {[RecollectAnnotation := "2"]} ∅ "2");
    [reflexivity|reflexivity|discriminate].
Defined.

(** * Behaviour that deviates from the intent *)

(** The disk images of a release collide.  With KubeVirt disks enabled
    and a payload that lists two of them (one per architecture), both are
    collected under the same destination, and the resolved state holds only
    the last one: the other is never mirrored. *)
Theorem kubevirt_images_share_a_destination :
  let p := mkPlatform false [ex_chan] ["amd64"; "arm64"] true in
  let imgs := collect_node (one_payload (Some [])) p "reg" "amd64" true (mkNode "4.16.1" "quay.io/rel@sha256:aa") in
  let dest := "reg/openshift/release:4.16.1-x86_64-kube-virt-container" in
  map ti_Source (List.filter (λ t, String.eqb (ti_Destination t) dest) imgs)
    = ["quay.io/kv@sha256:01"; "quay.io/kv@sha256:02"] ∧
  Source <$> mergeIntoStateWithSig ∅ imgs OriginRelease "s" "r" ∅ !! dest = Some "quay.io/kv@sha256:02".
Proof. vm_compute. done. Qed.

(** A failed component extraction is treated as success.  When the
    component images of a payload cannot be extracted, the channel's already
    mirrored component is missing from the resolved state (so it is orphaned),
    no error is reported, and the payload signature is cached, so the next
    resolve is a cache hit that does not collect the component either. *)
Theorem failed_extraction_drops_components :
  let iset := mkImageSet "is1" ∅ 1 (mkMirror (mkPlatform false [ex_chan] [] false) [] [] [] [] false) (ex_status 1) in
  let sig := @ReleaseChannelSignature ex_hash ex_chan ["amd64"] false in
  let comp := "reg/openshift/release:4.16.1-x86_64-etcd" in
  let cur := {[comp := mkImageEntry "quay.io/etcd@sha256:ee" "Mirrored" "" 0 OriginRelease sig "l" "" false false None
                false ""]} in
  let r := @resolveImageSet ex_hash (one_payload None) 0 iset ex_target cur in
  rr_state r !! comp = None ∧ rr_hadError r = false ∧
  rr_annotations r !! ReleaseDigestAnnotationKey sig = Some "quay.io/rel@sha256:aa".
Proof. vm_compute. done. Qed.
