(* ===== verification/Status.v ===== *)
(** * The status of an ImageSet

    updateImageSetStatusLocked and setReadyCondition of
    pkg/mirror/manager/manager.go.  The API server is a parameter: [get k] and
    [put k] are the answers to the k-th read and write of the retry loop. *)
From S2P Require Import Prelude Effects GoStrings ImageRef ImageState Owners ManagerState Api Resolve.

Definition conditionReady : string := "Ready".
Definition ConditionTrue : string := "True".
Definition ConditionFalse : string := "False".
Definition maxFailedImageDetails : nat := 20.

Fixpoint setReadyCondition (now : Z) (status reason message : string) (gen : Z) (conditions : list Condition)
    : list Condition :=
  match conditions with
  | [] => [mkCondition conditionReady status reason message gen now]
  | c :: cs =>
    if negb (String.eqb (cond_Type c) conditionReady) then c :: setReadyCondition now status reason message gen cs
    else
      (if negb (String.eqb (cond_Status c) status) || negb (String.eqb (cond_Reason c) reason)
          || negb (String.eqb (cond_Message c) message) || negb (cond_ObservedGeneration c =? gen)%Z
       then mkCondition (cond_Type c) status reason message gen now else c) :: cs
  end.

(** The detail of one entry, if it is permanently failed. *)
Definition failed_detail (kv : string * ImageEntry) : option FailedImageDetail :=
  let '(dest, entry) := kv in
  if negb (PermanentlyFailed entry) || String.eqb (State entry) stateMirrored then None
  else Some (mkFailedDetail (Source entry) dest (LastError entry) (OriginRef entry)).

(** Sorted by destination, so the order of the loop over the map is
    immaterial. *)
Definition failed_details (isView : gmap string ImageEntry) : list FailedImageDetail :=
  sort_by fd_Destination (omap failed_detail (map_to_list isView)).

Definition ready_message (c : counts) (totalFailed : nat) (details : list FailedImageDetail) : string :=
  let msg := "Collected " +:+ Itoa (c_total c) +:+ " images (" +:+ Itoa (c_mirrored c) +:+ " mirrored, "
             +:+ Itoa (c_pending c) +:+ " pending, " +:+ Itoa (c_failed c) +:+ " failed)" in
  let msg := if (maxFailedImageDetails <? totalFailed)%nat
             then msg +:+ " — showing " +:+ Itoa (Z.of_nat maxFailedImageDetails) +:+ " of "
                  +:+ Itoa (Z.of_nat totalFailed) +:+ " permanently failed images" else msg in
  match details with
  | d :: _ => if String.eqb (fd_Error d) "" then msg else msg +:+ "; first failure: " +:+ fd_Error d
  | [] => msg
  end.

(** Status, reason and message of the Ready condition. *)
Definition ready_condition (c : counts) (totalFailed : nat) (details : list FailedImageDetail)
    : string * string * string :=
  if (c_total c =? 0)%Z then (ConditionFalse, "Empty", "no images resolved yet")
  else (ConditionTrue, "Collected", ready_message c totalFailed details).

(** The status one attempt writes over the object it just read. *)
Definition new_status (now : Z) (isView : gmap string ImageEntry) (justResolved : bool) (latestIS : ImageSet)
    : ImageSetStatus :=
  let c := Counts isView in
  let st := is_Status latestIS in
  let all := failed_details isView in
  let details := take maxFailedImageDetails all in
  let '(status, reason, msg) := ready_condition c (length all) details in
  mkStatus (setReadyCondition now status reason msg (is_Generation latestIS) (st_Conditions st))
    (c_total c) (c_mirrored c) (c_pending c) (c_failed c) details
    (if justResolved then is_Generation latestIS else st_ObservedGeneration st)
    (if justResolved then Some now else st_LastSuccessfulPollTime st).

(** [retry.RetryOnConflict(retry.DefaultRetry, ...)]: up to five attempts, the
    next one only after a conflict.  The result is the status that was
    written. *)
Inductive update_result := Updated | Conflict | UpdateError.

Fixpoint status_attempts (steps k : nat) (get : nat → option ImageSet) (put : nat → update_result) (now : Z)
    (isView : gmap string ImageEntry) (justResolved : bool) : option ImageSetStatus :=
  match steps with
  | O => None
  | S steps =>
    match get k with
    | None => None
    | Some latestIS =>
      match put k with
      | Updated => Some (new_status now isView justResolved latestIS)
      | Conflict => status_attempts steps (S k) get put now isView justResolved
      | UpdateError => None
      end
    end
  end.

Definition updateImageSetStatusLocked (get : nat → option ImageSet) (put : nat → update_result) (now : Z)
    (isView : gmap string ImageEntry) (justResolved : bool) : option ImageSetStatus :=
  status_attempts 5 0 get put now isView justResolved.

(** Phase G: the ImageSets of the target, when anything changed. *)
Definition phaseG (get : string → nat → option ImageSet) (put : string → nat → update_result) (now : Z)
    (mt : MirrorTarget) (items : list ImageSet) (justResolved : string → bool) (m : MirrorManager)
    : MirrorManager * list (string * option ImageSetStatus) :=
  if statusDirty m then
    (set_statusDirty false m,
     map (λ iset, let name := is_Name iset in
       (name, updateImageSetStatusLocked (get name) (put name) now
                (filterByImageSet (imageState m) (owners m) (ownerMeta m) name) (justResolved name)))
       (List.filter (λ iset, containsString (mt_ImageSets mt) (is_Name iset)) items))
  else (m, []).

(** The object after the write of its status. *)
Definition with_status (st : ImageSetStatus) (iset : ImageSet) : ImageSet :=
  mkImageSet (is_Name iset) (is_Annotations iset) (is_Generation iset) (is_Mirror iset) st.

(** * Lemmas *)

Definition permanent (e : ImageEntry) : bool := PermanentlyFailed e && negb (String.eqb (State e) stateMirrored).

Lemma failed_detail_Some d e x :
  failed_detail (d, e) = Some x ↔
  permanent e = true ∧ x = mkFailedDetail (Source e) d (LastError e) (OriginRef e).
Proof.
  unfold failed_detail, permanent. destruct (PermanentlyFailed e), (String.eqb _ _); cbn; naive_solver.
Qed.

Lemma failed_details_spec v x :
  x ∈ failed_details v ↔
  ∃ e, v !! fd_Destination x = Some e ∧ permanent e = true ∧
       x = mkFailedDetail (Source e) (fd_Destination x) (LastError e) (OriginRef e).
Proof.
  unfold failed_details. rewrite sort_by_perm, list_elem_of_omap. split.
  - intros ([d e] & Hin & Hx). apply elem_of_map_to_list in Hin. apply failed_detail_Some in Hx as [Hp ->]. eauto.
  - intros (e & He & Hp & Hx). exists (fd_Destination x, e). rewrite elem_of_map_to_list. split; [done|].
    by apply failed_detail_Some.
Qed.

(** The details are counted the way the counter counts. *)
Lemma failed_count v : Z.of_nat (length (failed_details v)) = c_failed (Counts v).
Proof.
  unfold failed_details. rewrite sort_by_perm. unfold Counts.
  enough (∀ c, c_failed (map_fold (λ _, count_entry) c v) =
     c_failed c + Z.of_nat (length (omap failed_detail (map_to_list v))))%Z as -> by (cbn; lia).
  intros c. induction v as [|d e v Hd Hfr IH] using map_first_key_ind.
  { rewrite map_fold_empty, map_to_list_empty. cbn. lia. }
  rewrite map_fold_insert_first_key, map_to_list_insert_first_key by done.
  cbn [omap list_omap]. unfold failed_detail, count_entry at 1.
  change "Mirrored" with stateMirrored. fold failed_detail.
  destruct (String.eqb (State e) stateMirrored), (PermanentlyFailed e); cbn [negb orb c_failed length]; lia.
Qed.

Lemma setReadyCondition_ready now status reason msg gen conds :
  ∃ c, List.find (λ c, String.eqb (cond_Type c) conditionReady)
         (setReadyCondition now status reason msg gen conds) = Some c ∧
       cond_Status c = status ∧ cond_Reason c = reason ∧ cond_Message c = msg ∧ cond_ObservedGeneration c = gen.
Proof.
  induction conds as [|c cs (r & Hr & H)]; cbn.
  { eexists. split; [done|]. done. }
  destruct (String.eqb (cond_Type c) conditionReady) eqn:E; cbn; [|rewrite E; eauto].
  destruct (String.eqb_spec (cond_Status c) status), (String.eqb_spec (cond_Reason c) reason),
    (String.eqb_spec (cond_Message c) msg), (Z.eqb_spec (cond_ObservedGeneration c) gen); cbn;
    rewrite E; eexists; (split; [done|]); done.
Qed.

Lemma setReadyCondition_idem now now' status reason msg gen conds :
  setReadyCondition now' status reason msg gen (setReadyCondition now status reason msg gen conds)
  = setReadyCondition now status reason msg gen conds.
Proof.
  induction conds as [|c cs IH]; cbn; [by rewrite !String.eqb_refl, Z.eqb_refl|].
  destruct (String.eqb (cond_Type c) conditionReady) eqn:E; cbn; [|by rewrite E, IH].
  destruct (_ || _) eqn:Eo; cbn; rewrite E; cbn; [by rewrite !String.eqb_refl, Z.eqb_refl|by rewrite Eo].
Qed.

Lemma setReadyCondition_others now status reason msg gen conds :
  List.filter (λ c, negb (String.eqb (cond_Type c) conditionReady)) (setReadyCondition now status reason msg gen conds)
  = List.filter (λ c, negb (String.eqb (cond_Type c) conditionReady)) conds.
Proof.
  induction conds as [|c cs IH]; cbn; [done|].
  destruct (String.eqb (cond_Type c) conditionReady) eqn:E; cbn; [|by rewrite E, IH; cbn].
  destruct (_ || _); cbn; by rewrite E.
Qed.

(** What is written is computed from an object that was read. *)
Lemma status_attempts_written steps k get put now v jr st :
  status_attempts steps k get put now v jr = Some st →
  ∃ i latestIS, get i = Some latestIS ∧ put i = Updated ∧ st = new_status now v jr latestIS.
Proof.
  revert k. induction steps as [|steps IH]; intros k; cbn; [done|].
  destruct (get k) eqn:Eg; [|done]. destruct (put k) eqn:Ep; [intros [= <-]; eauto 6|apply IH|done].
Qed.

(** * Properties *)

(** The status that is written tells the truth about the view: the total
    is the number of images, the three counters add up to it, the failed
    counter is the number of permanently failed images that are not mirrored,
    the details list the first twenty of exactly those in the order of their
    destinations, and the Ready condition is False only for an empty set. *)
Theorem status_is_faithful get put now v jr st :
  updateImageSetStatusLocked get put now v jr = Some st →
  st_TotalImages st = Z.of_nat (size v) ∧
  (st_MirroredImages st + st_PendingImages st + st_FailedImages st = st_TotalImages st)%Z ∧
  (∃ all, st_FailedImageDetails st = take maxFailedImageDetails all ∧
     Z.of_nat (length all) = st_FailedImages st ∧ StronglySorted (by_name fd_Destination) all ∧
     ∀ x, x ∈ all ↔ ∃ e, v !! fd_Destination x = Some e ∧ permanent e = true ∧
       x = mkFailedDetail (Source e) (fd_Destination x) (LastError e) (OriginRef e)) ∧
  (∃ c, List.find (λ c, String.eqb (cond_Type c) conditionReady) (st_Conditions st) = Some c ∧
     (cond_Status c = ConditionFalse ↔ v = ∅)).
Proof.
  intros (i & latest & _ & _ & ->)%status_attempts_written. unfold new_status.
  destruct (ready_condition _ _ _) as [[s r] msg] eqn:Er. cbn.
  assert (Ht : c_total (Counts v) = Z.of_nat (size v)) by (unfold Counts; by rewrite map_fold_count_entry).
  split_and!; [done| | |].
  - rewrite Ht. unfold Counts. rewrite map_fold_count_entry. cbn. apply count_if_partition.
  - exists (failed_details v). split_and!; [done|apply failed_count| |apply failed_details_spec].
    apply (StronglySorted_merge_sort (by_name fd_Destination)).
  - edestruct setReadyCondition_ready as (c & Hc & Hs & _). exists c. split; [exact Hc|]. rewrite Hs.
    unfold ready_condition in Er. rewrite Ht in Er. rewrite <- map_size_empty_iff.
    destruct (Z.eqb_spec (Z.of_nat (size v)) 0); injection Er as <- _ _; split; (done || lia).
Qed.

Definition ex_view : gmap string ImageEntry :=
  <["reg/b" := mkImageEntry "src/b" "Failed" "denied" 10 OriginOperator "s" "r" "c" false true None false ""]>
  {["reg/a" := mkImageEntry "src/a" "Mirrored" "" 0 OriginOperator "s" "r" "c" false true None false ""]}.

Lemma status_is_faithful_witness :
  ∃ st, updateImageSetStatusLocked (λ _, Some ex_set) (λ k, if (k =? 0)%nat then Conflict else Updated) 7 ex_view true = Some st ∧
        st_FailedImages st = 1%Z ∧ st_TotalImages st = 2%Z.
Proof.
  eexists. split; [reflexivity|]. split; [vm_compute; reflexivity|].
  match goal with |- st_TotalImages ?x = _ =>
    destruct (status_is_faithful (λ _, Some ex_set) (λ k, if (k =? 0)%nat then Conflict else Updated) 7 ex_view true x)
      as [H _]; [reflexivity|rewrite H; vm_compute; reflexivity] end.
Defined.

(** A resolve that hit an error stays due.  The status written without
    [justResolved] (a tick without a resolve, or one whose resolve fell back to
    old entries) leaves every later decision whether to resolve as it was, so
    the retry comes with the next tick and not after a poll interval. *)
Theorem failed_resolve_stays_due get put now t v mt cur st latestIS :
  updateImageSetStatusLocked get put now v false = Some st →
  (∀ i, get i = Some latestIS) →
  shouldResolve t (with_status st latestIS) mt cur = shouldResolve t latestIS mt cur.
Proof.
  intros (i & l & Hg & _ & ->)%status_attempts_written Hl. rewrite Hl in Hg. injection Hg as <-.
  unfold new_status. destruct (ready_condition _ _ _) as [[s r] msg]. unfold shouldResolve, hasStaleCacheAnnotations.
  done.
Qed.

Lemma failed_resolve_stays_due_witness :
  let iset := mkImageSet "is1" ∅ 2 (is_Mirror ex_set) (ex_status 1) in
  ∃ st, updateImageSetStatusLocked (λ _, Some iset) (λ _, Updated) 7 ex_view false = Some st ∧
        shouldResolve 8 (with_status st iset) ex_target ex_view = true.
Proof.
  intros iset. eexists. split; [reflexivity|].
  erewrite (failed_resolve_stays_due (λ _, Some iset) (λ _, Updated) 7 8 ex_view ex_target ex_view _ iset);
    [vm_compute; reflexivity|reflexivity|reflexivity].
Defined.

(** Recording a resolve can hide an edit of the spec.  The status update
    marks the generation it reads as observed, not the one that was resolved:
    when the user edits an ImageSet while it is being resolved, the edited
    generation counts as handled although its content was never collected, and
    the ImageSet is not resolved again before the poll interval has passed (or
    ever, when polling is disabled). *)
Theorem recorded_resolve_hides_spec_edit get put now t mt v cur st edited :
  updateImageSetStatusLocked get put now v true = Some st →
  (∀ i, get i = Some edited) →
  cur ≠ ∅ → is_Annotations edited !! RecollectAnnotation = None → hasStaleCacheAnnotations edited = false →
  (∀ i, effectivePollInterval mt = Some i → (t - now < i)%Z) →
  shouldResolve t (with_status st edited) mt cur = false.
Proof.
  intros (i & l & Hg & _ & ->)%status_attempts_written Hl Hc Hr Hs Hp. rewrite Hl in Hg. injection Hg as <-.
  unfold new_status. destruct (ready_condition _ _ _) as [[s r] msg]. unfold shouldResolve, with_status, hasStaleCacheAnnotations in *.
  cbn [is_Annotations is_Status is_Generation st_ObservedGeneration st_LastSuccessfulPollTime].
  rewrite decide_False by done. rewrite Hr, bool_decide_eq_false_2 by by intros []. rewrite Z.ltb_irrefl, Hs.
  destruct (effectivePollInterval mt) as [j|]; [|done]. specialize (Hp j eq_refl). apply Z.leb_gt. lia.
Qed.

(** Generation 1 was resolved; meanwhile the user added an image: generation 2. *)
Lemma recorded_resolve_hides_spec_edit_witness :
  let edited := mkImageSet "is1" ∅ 2 (mkMirror (mkPlatform false [] [] false) [] [mkAdditionalImage "quay.io/new:1" "" ""] [] [] false)
                  (ex_status 1) in
  shouldResolve 9 edited ex_target ex_view = true ∧
  ∃ st, updateImageSetStatusLocked (λ _, Some edited) (λ _, Updated) 7 ex_view true = Some st ∧
        shouldResolve 9 (with_status st edited) ex_target ex_view = false.
Proof.
  intros edited. split; [vm_compute; reflexivity|]. eexists. split; [reflexivity|].
  apply (recorded_resolve_hides_spec_edit (λ _, Some edited) (λ _, Updated) 7 9 ex_target ex_view ex_view _ edited).
  - reflexivity.
  - reflexivity.
  - intros H. apply (f_equal (.!! "reg/a")) in H. vm_compute in H. discriminate.
  - reflexivity.
  - reflexivity.
  - intros i [= <-]. reflexivity.
Defined.
