(* ===== verification/Resources.v ===== *)
(** * Cluster resources

    pkg/mirror/resources/resources.go (mirror sets, catalog resources,
    signature ConfigMaps) and the ConfigMap the manager writes them to
    (pkg/mirror/manager/manager.go saveGlobalResources).

    A generated object is the value handed to the YAML or JSON encoder
    ([Doc]); the encoder is the interface [Marshal].  The functions over the
    packages of a catalog are in PackageIndex. *)
From S2P Require Import Prelude Effects GoStrings ImageRef ImageState Owners ManagerState Api.

(** ** Image references *)

(** [splitImageRef] of resources.go; the second component keeps its "@" or ":". *)
Definition splitRepoRef (ref : string) : string * string :=
  let '(repo, digest) := match cut "@" ref with Some (a, b) => (a, "@" +:+ b) | None => (ref, "") end in
  let '(repo, tag) :=
    match cut_last ":" repo with
    | Some (a, afterColon) => if negb (Contains afterColon "/") then (a, ":" +:+ afterColon) else (repo, "")
    | None => (repo, "")
    end in
  if negb (String.eqb digest "") then (repo, digest) else (repo, tag).

Definition repoOnly (ref : string) : string := fst (splitRepoRef ref).
Definition isDigestRef (ref : string) : bool := Contains ref "@sha256:".
Definition isTagRef (ref : string) : bool := negb (Contains ref "@") && Contains ref ":".

(** ** Mirror sets *)

(** One step of the loop over the state that both generators run; [sel] is
    [isDigestRef] or [isTagRef]. *)
Definition add_mirror (sel : string → bool) (dest : string) (e : ImageEntry) (mm : gmap string (gset string))
    : gmap string (gset string) :=
  if negb (String.eqb (State e) "Mirrored") then mm
  else if negb (sel (Source e)) then mm
  else
    let srcRepo := repoOnly (Source e) in
    let destRepo := repoOnly dest in
    if String.eqb srcRepo destRepo then mm
    else <[srcRepo := {[destRepo]} ∪ default ∅ (mm !! srcRepo)]> mm.

Definition mirror_map (sel : string → bool) (state : gmap string ImageEntry) : gmap string (gset string) :=
  map_fold (add_mirror sel) ∅ state.

(** The entries in the order they are written: sources and mirrors sorted. *)
Definition mirror_list (mm : gmap string (gset string)) : list (string * list string) :=
  map (λ src, (src, sort_strings (elements (default ∅ (mm !! src))))) (sort_strings (elements (dom mm))).

(** ** Catalog resources *)

Record CatalogInfo := mkCatalogInfo { ci_SourceCatalog : string; ci_TargetImage : string; ci_DisplayName : string }.

(** A ConfigMap with one release signature. *)
Record SignatureCM := mkSignatureCM { sc_Name : string; sc_DataKey : string; sc_Data : string }.

(** The objects that are marshalled. *)
Inductive Doc :=
| DocIDMS (name : string) (mirrors : list (string * list string))
| DocITMS (name : string) (mirrors : list (string * list string))
| DocCatalogSource (name namespace image displayName : string) (secrets : list string)
| DocClusterCatalog (name ref : string)
| DocSignature (cm : SignatureCM)
| DocIndex (resources : list string).

(** [yaml.Marshal] and [json.MarshalIndent]; [None] is an error. *)
Class Marshal := marshal : Doc → option string.

(** The path before the first character of [cs] ([strings.IndexAny]). *)
Fixpoint before_any (cs : list ascii) (s : string) : string :=
  match s with
  | "" => ""
  | String c s' => if existsb (λ d, bool_decide (d = c)) cs then "" else String c (before_any cs s')
  end.

(** The tag the source catalog names, "" when it has none. *)
Definition catalogTag (catalog : string) : string := snd (strip_tag (fst (strip_digest catalog))).

Definition CatalogTargetImage (registry : string) (op : Operator) : string :=
  let tag := if String.eqb (op_TargetTag op) "" then catalogTag (op_Catalog op) else op_TargetTag op in
  let tag := if String.eqb tag "" then "latest" else tag in
  if negb (String.eqb (op_TargetCatalog op) "") then registry +:+ "/" +:+ op_TargetCatalog op +:+ ":" +:+ tag
  else
    let path := match SplitN2 (op_Catalog op) "/" with [_; rest] => rest | _ => op_Catalog op end in
    registry +:+ "/" +:+ before_any [":"%char; "@"%char] path +:+ ":" +:+ tag.

(** [strings.NewReplacer(":", "-", "/", "-", " ", "-")] *)
Fixpoint label_safe (s : string) : string :=
  match s with
  | "" => ""
  | String c s => String (if existsb (Ascii.eqb c) [":"%char; "/"%char; " "%char] then "-"%char else c) (label_safe s)
  end.

Definition CatalogSlug (source : string) : string :=
  let '(repo, tagOrDigest) := splitRepoRef source in
  let base := List.last (Split "/" repo) "unknown" in
  if negb (String.eqb tagOrDigest "") && negb (HasPrefix tagOrDigest "@")
  then base +:+ "-" +:+ label_safe (TrimPrefix tagOrDigest ":")
  else base.

Section generate.
Context `{Y : Marshal}.

Definition GenerateIDMS (name : string) (state : gmap string ImageEntry) : option string :=
  marshal (DocIDMS name (mirror_list (mirror_map isDigestRef state))).
Definition GenerateITMS (name : string) (state : gmap string ImageEntry) : option string :=
  marshal (DocITMS name (mirror_list (mirror_map isTagRef state))).

Definition GenerateCatalogSource (name namespace : string) (catalog : CatalogInfo) (pullSecretName : string)
    : option string :=
  marshal (DocCatalogSource name namespace (ci_TargetImage catalog) (ci_DisplayName catalog)
    (if String.eqb pullSecretName "" then [] else [pullSecretName])).

Definition GenerateClusterCatalog (name : string) (catalog : CatalogInfo) : option string :=
  marshal (DocClusterCatalog name (ci_TargetImage catalog)).

(** ** Signature ConfigMaps *)

(** How the generation of signatures ends: the document, an error, or the
    run-time panic of [hashPart[:12]] on a short digest. *)
Inductive sigResult := SigOk (doc : string) | SigErr | SigPanic.

Definition signature_cm (digest sig : string) : option SignatureCM :=
  let hashPart := TrimPrefix digest "sha256:" in
  if (String.length hashPart <? 12)%nat then None
  else Some (mkSignatureCM ("sha256-" +:+ take_bytes 12 hashPart +:+ "-1") ("sha256-" +:+ hashPart +:+ "-1") sig).

Fixpoint signature_docs (signatures : gmap string string) (digests docs : list string) : sigResult :=
  match digests with
  | [] => SigOk (Join docs ("---" +:+ newline))
  | d :: digests =>
    match signature_cm d (default "" (signatures !! d)) with
    | None => SigPanic
    | Some cm =>
      match marshal (DocSignature cm) with
      | None => SigErr
      | Some doc => signature_docs signatures digests (docs ++ [doc])
      end
    end
  end.

Definition GenerateSignatureConfigMaps (signatures : gmap string string) : sigResult :=
  if decide (signatures = ∅) then SigOk ("# No release signatures available" +:+ newline)
  else signature_docs signatures (sort_strings (elements (dom signatures))) [].

(** [decode] is base64; an undecodable value is an error wherever it stands. *)
Definition GenerateSignatureConfigMapsBase64 (decode : string → option string) (signatures : gmap string string)
    : sigResult :=
  let raw := omap decode signatures in
  if bool_decide (dom raw = dom signatures) then GenerateSignatureConfigMaps raw else SigErr.

(** ** The resources ConfigMap (manager.go) *)

(** The last operator entry of the target's ImageSets for every catalog. *)
Definition opsBySource (mt : MirrorTarget) (items : list ImageSet) : gmap string Operator :=
  index_by op_Catalog
    (List.filter (λ op, negb (String.eqb (op_Catalog op) ""))
      (concat (map (λ iset, mi_Operators (is_Mirror iset))
        (List.filter (λ iset, containsString (mt_ImageSets mt) (is_Name iset)) items)))).

Definition addCatalog (origin catalog originRef : string) (cats : gset string) : gset string :=
  if negb (String.eqb origin OriginOperator) then cats
  else
    let catalog := if String.eqb catalog "" then CatalogFromOriginRef originRef else catalog in
    if String.eqb catalog "" then cats else {[catalog]} ∪ cats.

Definition sourceCatalogs (m : MirrorManager) : gset string :=
  map_fold (λ dest e cats,
    map_fold (λ _ meta, addCatalog (sm_Origin meta) (sm_Catalog meta) (sm_OriginRef meta))
      (addCatalog (Origin e) (Catalog e) (OriginRef e) cats) (default ∅ (ownerMeta m !! dest)))
    ∅ (imageState m).

Definition catalogOperator (catSource : string) : Operator := mkOperator catSource "" "" false false false [].

(** The first catalog visited wins its slug; [cats] is the order of the visit. *)
Definition add_slug (registry : string) (ops : gmap string Operator) (catalogs : gmap string CatalogInfo)
    (catSource : string) : gmap string CatalogInfo :=
  let slug := CatalogSlug catSource in
  match catalogs !! slug with
  | Some _ => catalogs
  | None =>
    <[slug := mkCatalogInfo catSource (CatalogTargetImage registry (default (catalogOperator catSource) (ops !! catSource)))
                slug]> catalogs
  end.

Definition catalog_infos (mt : MirrorTarget) (items : list ImageSet) (cats : list string) : gmap string CatalogInfo :=
  foldl (add_slug (mt_Registry mt) (opsBySource mt items)) ∅ cats.

Definition catalogsource_key (slug : string) : string := "catalogsource-" +:+ slug +:+ ".yaml".
Definition clustercatalog_key (slug : string) : string := "clustercatalog-" +:+ slug +:+ ".yaml".

(** An object that cannot be marshalled is skipped, the ClusterCatalog with
    its CatalogSource. *)
Definition add_catalog_docs (mt : MirrorTarget) (namespace : string) (slug : string) (cat : CatalogInfo)
    (data : gmap string string) : gmap string string :=
  let name := mt_Name mt +:+ "-" +:+ slug in
  match GenerateCatalogSource name namespace cat (mt_AuthSecret mt) with
  | None => data
  | Some cs =>
    let data := <[catalogsource_key slug := cs]> data in
    match GenerateClusterCatalog name cat with
    | None => data
    | Some cc => <[clustercatalog_key slug := cc]> data
    end
  end.

Definition is_catalog_key (key : string) : bool := HasPrefix key "catalogsource-" || HasPrefix key "clustercatalog-".

(** The list index.json carries. *)
Definition resource_index (data : gmap string string) : list string :=
  sort_strings (["idms.yaml"; "itms.yaml"] ++ List.filter is_catalog_key (elements (dom data))).

(** [None]: one of the mirror sets cannot be generated. *)
Definition global_resources (mt : MirrorTarget) (items : list ImageSet) (namespace : string) (cats : list string)
    (m : MirrorManager) : option (gmap string string) :=
  match GenerateIDMS (mt_Name mt) (imageState m), GenerateITMS (mt_Name mt) (imageState m) with
  | Some idms, Some itms =>
    let data := map_fold (add_catalog_docs mt namespace) (<["idms.yaml" := idms]> {["itms.yaml" := itms]})
                  (catalog_infos mt items cats) in
    Some (match marshal (DocIndex (resource_index data)) with
          | Some ix => <["index.json" := ix]> data
          | None => data
          end)
  | _, _ => None
  end.

Definition ResourcesConfigMapName (mtName : string) : string := "oc-mirror-" +:+ mtName +:+ "-resources".

(** The labels of the ConfigMap are not part of the model. *)
Definition saveGlobalResources (mt : MirrorTarget) (items : list ImageSet) (namespace : string) (cats : list string)
    (m : MirrorManager) : API unit :=
  match global_resources mt items namespace cats m with
  | None => fail ErrOther
  | Some data =>
    let cmName := ResourcesConfigMapName (mt_Name mt) in
    r ← attempt (api_get cmName);
    match r with
    | inl ErrNotFound => api_create cmName (mkConfigMap ∅ None None None None None data (Some (mt_Name mt)))
    | inl e => fail e
    | inr existing => api_update cmName (with_Data data existing)
    end
  end.
End generate.

(** * Lemmas *)

(** ** References *)

Lemma repoOnly_stripTagOrDigest ref : repoOnly ref = stripTagOrDigest ref.
Proof.
  unfold repoOnly, splitRepoRef, stripTagOrDigest, strip_digest, strip_tag.
  destruct (cut "@" ref) as [[a b]|]; destruct (cut_last ":" _) as [[c d]|]; cbn; try destruct (negb (Contains d "/")); done.
Qed.

Lemma sort_strings_elem l x : x ∈ sort_strings l ↔ x ∈ l.
Proof. by rewrite sort_strings_perm. Qed.

Lemma sort_strings_NoDup l : NoDup l → NoDup (sort_strings l).
Proof. by rewrite sort_strings_perm. Qed.

Lemma sort_strings_sorted l : StronglySorted String.le (sort_strings l).
Proof. apply (StronglySorted_merge_sort String.le). Qed.

(** ** Mirror sets *)

(** The image [e] at [dest] contributes mirror [mirror] to [src]. *)
Definition contributes (sel : string → bool) (src mirror dest : string) (e : ImageEntry) : Prop :=
  State e = "Mirrored" ∧ sel (Source e) = true ∧ repoOnly (Source e) = src ∧ repoOnly dest = mirror ∧ src ≠ mirror.

Lemma add_mirror_spec sel dest e mm src mirror :
  mirror ∈ default ∅ (add_mirror sel dest e mm !! src) ↔
  mirror ∈ default ∅ (mm !! src) ∨ contributes sel src mirror dest e.
Proof.
  unfold add_mirror, contributes.
  destruct (String.eqb_spec (State e) "Mirrored") as [Em|Em]; cbn; [|naive_solver].
  destruct (sel (Source e)); cbn; [|naive_solver].
  destruct (String.eqb_spec (repoOnly (Source e)) (repoOnly dest)) as [Er|Er]; [naive_solver congruence|].
  destruct (decide (repoOnly (Source e) = src)) as [<-|Hne].
  - rewrite lookup_insert_eq. cbn. rewrite elem_of_union, elem_of_singleton. naive_solver congruence.
  - rewrite lookup_insert_ne by done. naive_solver.
Qed.

Lemma mirror_map_spec sel st src mirror :
  mirror ∈ default ∅ (mirror_map sel st !! src) ↔ ∃ dest e, st !! dest = Some e ∧ contributes sel src mirror dest e.
Proof.
  unfold mirror_map. induction st as [|d e st Hd Hf IH] using map_first_key_ind.
  { rewrite map_fold_empty. rewrite lookup_empty. cbn. split; [by intros ?%elem_of_empty|naive_solver]. }
  rewrite map_fold_insert_first_key by done. rewrite add_mirror_spec, IH. split.
  - intros [(d' & e' & H1 & H2)|H]; [exists d', e'|exists d, e]; split; try done.
    + rewrite lookup_insert_ne; [done|]. by intros ->; rewrite Hd in H1.
    + by rewrite lookup_insert_eq.
  - intros (d' & e' & [[-> ->]|[? H1]]%lookup_insert_Some & H2); [by right|left; eauto].
Qed.

Lemma mirror_map_nonempty sel st src ms : mirror_map sel st !! src = Some ms → ms ≠ ∅.
Proof.
  revert src ms. unfold mirror_map. apply (range_inv (λ mm, ∀ src ms, mm !! src = Some ms → ms ≠ ∅)); [done|].
  intros d e mm _ IH src ms. unfold add_mirror. split_ifs; eauto.
  intros [[<- <-]|[? ?]]%lookup_insert_Some; [set_solver|eauto].
Qed.

Lemma mirror_list_elem mm src ms :
  (src, ms) ∈ mirror_list mm ↔ is_Some (mm !! src) ∧ ms = sort_strings (elements (default ∅ (mm !! src))).
Proof.
  unfold mirror_list. rewrite elem_of_map. split.
  - intros (x & Hx & [= -> ->]). split; [|done]. by rewrite sort_strings_elem, elem_of_elements, elem_of_dom in Hx.
  - intros [Hs ->]. exists src. split; [|done]. by rewrite sort_strings_elem, elem_of_elements, elem_of_dom.
Qed.

Lemma mirror_list_sources mm : map fst (mirror_list mm) = sort_strings (elements (dom mm)).
Proof. unfold mirror_list. rewrite map_map. cbn. apply map_id. Qed.

(** What a mirror set says: the sources are listed once, in order, each with
    its mirrors, once and in order. *)
Definition mirror_set_ok (sel : string → bool) (st : gmap string ImageEntry) (l : list (string * list string)) : Prop :=
  StronglySorted String.le (map fst l) ∧ NoDup (map fst l) ∧
  (∀ src ms, (src, ms) ∈ l → ms ≠ [] ∧ StronglySorted String.le ms ∧ NoDup ms) ∧
  (∀ src mirror, (∃ ms, (src, ms) ∈ l ∧ mirror ∈ ms) ↔
                 ∃ dest e, st !! dest = Some e ∧ contributes sel src mirror dest e).

Lemma mirror_list_ok sel st : mirror_set_ok sel st (mirror_list (mirror_map sel st)).
Proof.
  unfold mirror_set_ok. rewrite mirror_list_sources. split_and!.
  - apply sort_strings_sorted.
  - apply sort_strings_NoDup, NoDup_elements.
  - intros src ms [[x Hx] ->]%mirror_list_elem. rewrite Hx. cbn. split_and!.
    + intros E. apply (mirror_map_nonempty _ _ _ _ Hx), leibniz_equiv, elements_empty_iff, Permutation_nil_r.
      by rewrite <- E, sort_strings_perm.
    + apply sort_strings_sorted.
    + apply sort_strings_NoDup, NoDup_elements.
  - intros src mirror. rewrite <- mirror_map_spec. split.
    + intros (ms & [Hs ->]%mirror_list_elem & H). by rewrite sort_strings_elem, elem_of_elements in H.
    + intros H. exists (sort_strings (elements (default ∅ (mirror_map sel st !! src)))). split.
      * apply mirror_list_elem. split; [|done]. destruct (mirror_map sel st !! src); [done|]. by apply elem_of_empty in H.
      * by rewrite sort_strings_elem, elem_of_elements.
Qed.

(** ** Catalog resources *)

Lemma catalog_infos_spec mt items cats slug info :
  catalog_infos mt items cats !! slug = Some info →
  ∃ cat, cat ∈ cats ∧ slug = CatalogSlug cat ∧
    info = mkCatalogInfo cat (CatalogTargetImage (mt_Registry mt) (default (catalogOperator cat) (opsBySource mt items !! cat))) slug.
Proof.
  revert slug info. unfold catalog_infos.
  apply (foldl_inv (λ seen m, ∀ slug info, m !! slug = Some info → ∃ cat, cat ∈ seen ∧ slug = CatalogSlug cat ∧
    info = mkCatalogInfo cat (CatalogTargetImage (mt_Registry mt) (default (catalogOperator cat) (opsBySource mt items !! cat))) slug)).
  { intros ? ?. by rewrite lookup_empty. }
  intros seen c m IH _ _ slug info. unfold add_slug.
  assert (∀ slug info, m !! slug = Some info → ∃ cat, cat ∈ seen ++ [c] ∧ slug = CatalogSlug cat ∧
    info = mkCatalogInfo cat (CatalogTargetImage (mt_Registry mt) (default (catalogOperator cat) (opsBySource mt items !! cat))) slug) as Hold.
  { intros s i Hi. destruct (IH s i Hi) as (cat & ? & ? & ?). exists cat. rewrite elem_of_app. auto. }
  destruct (m !! CatalogSlug c) as [x|]; [apply Hold|].
  intros [[<- <-]|[_ H]]%lookup_insert_Some; [|by apply Hold].
  exists c. split; [rewrite elem_of_app; right; apply list_elem_of_singleton; done|done].
Qed.

Lemma catalog_infos_covers mt items cats cat :
  cat ∈ cats → is_Some (catalog_infos mt items cats !! CatalogSlug cat).
Proof.
  unfold catalog_infos. revert cat.
  apply (foldl_inv (λ seen m, ∀ cat, cat ∈ seen → is_Some (m !! CatalogSlug cat))); [by intros ? ?%elem_of_nil|].
  intros seen c m IH _ _ cat. rewrite elem_of_app, list_elem_of_singleton. unfold add_slug.
  destruct (m !! CatalogSlug c) as [x|] eqn:E; [intros [?| ->]; [auto|by eexists]|].
  intros Hc. destruct (decide (CatalogSlug c = CatalogSlug cat)) as [->|Hne]; [by rewrite lookup_insert_eq|].
  rewrite lookup_insert_ne by done. destruct Hc as [?| ->]; [auto|done].
Qed.

#[export] Instance catalogsource_key_inj : Inj (=) (=) catalogsource_key.
Proof.
  intros a b E. unfold catalogsource_key in E. apply app_inv_head_s in E.
  by apply (app_inv_tail_s ".yaml") in E.
Qed.
#[export] Instance clustercatalog_key_inj : Inj (=) (=) clustercatalog_key.
Proof.
  intros a b E. unfold clustercatalog_key in E. apply app_inv_head_s in E.
  by apply (app_inv_tail_s ".yaml") in E.
Qed.
Lemma catalog_keys_ne a b : catalogsource_key a ≠ clustercatalog_key b.
Proof. discriminate. Qed.

Lemma is_catalog_key_source slug : is_catalog_key (catalogsource_key slug) = true.
Proof. unfold is_catalog_key, catalogsource_key. by rewrite HasPrefix_app. Qed.
Lemma is_catalog_key_cluster slug : is_catalog_key (clustercatalog_key slug) = true.
Proof. unfold is_catalog_key, clustercatalog_key. rewrite HasPrefix_app. apply orb_true_r. Qed.

Section documents.
Context `{Y : Marshal} (mt : MirrorTarget) (namespace : string).

(** The document of catalog [cat] under key [k], if there is one. *)
Definition catalog_doc (slug : string) (cat : CatalogInfo) (k : string) : option string :=
  let name := mt_Name mt +:+ "-" +:+ slug in
  let cs := GenerateCatalogSource name namespace cat (mt_AuthSecret mt) in
  if String.eqb k (catalogsource_key slug) then cs
  else if String.eqb k (clustercatalog_key slug) then _ ← cs; GenerateClusterCatalog name cat
  else None.

Lemma add_catalog_docs_lookup slug cat data k :
  add_catalog_docs mt namespace slug cat data !! k =
  match catalog_doc slug cat k with Some v => Some v | None => data !! k end.
Proof.
  unfold add_catalog_docs, catalog_doc. destruct (GenerateCatalogSource _ _ _ _) as [cs|]; cbn.
  2: { by destruct (String.eqb k (catalogsource_key slug)), (String.eqb k (clustercatalog_key slug)). }
  destruct (String.eqb_spec k (catalogsource_key slug)) as [->|H1].
  { destruct (GenerateClusterCatalog _ _) as [cc|]; [rewrite lookup_insert_ne by done|]; by rewrite lookup_insert_eq. }
  destruct (String.eqb_spec k (clustercatalog_key slug)) as [->|H2].
  - destruct (GenerateClusterCatalog _ _) as [cc|]; [by rewrite lookup_insert_eq|by rewrite lookup_insert_ne].
  - destruct (GenerateClusterCatalog _ _) as [cc|]; by rewrite ?lookup_insert_ne.
Qed.

Lemma catalog_doc_slug slug1 slug2 cat1 cat2 k :
  is_Some (catalog_doc slug1 cat1 k) → is_Some (catalog_doc slug2 cat2 k) → slug1 = slug2.
Proof.
  assert (Hk : ∀ slug cat, is_Some (catalog_doc slug cat k) → k = catalogsource_key slug ∨ k = clustercatalog_key slug).
  { intros slug cat H. unfold catalog_doc in H. destruct (String.eqb_spec k (catalogsource_key slug)); [by left|].
    destruct (String.eqb_spec k (clustercatalog_key slug)); [by right|by destruct H]. }
  intros [E1|E1]%Hk [E2|E2]%Hk; rewrite E1 in E2; try done; by apply (inj _) in E2.
Qed.

Lemma catalog_docs_lookup infos base k v :
  map_fold (add_catalog_docs mt namespace) base infos !! k = Some v ↔
  (∃ slug cat, infos !! slug = Some cat ∧ catalog_doc slug cat k = Some v) ∨
  (base !! k = Some v ∧ ∀ slug cat, infos !! slug = Some cat → catalog_doc slug cat k = None).
Proof.
  induction infos as [|s cat infos Hs Hf IH] using map_first_key_ind.
  { rewrite map_fold_empty. split; [|intros [(? & ? & ? & _)|[? _]]]; [right; split|..]; try done; intros *; by rewrite lookup_empty. }
  rewrite map_fold_insert_first_key by done. rewrite add_catalog_docs_lookup.
  destruct (catalog_doc s cat k) as [w|] eqn:E.
  - split.
    + intros [= <-]. left. exists s, cat. by rewrite lookup_insert_eq.
    + intros [(s' & c' & H1 & H2)|[_ H]].
      * assert (s = s') as <- by (eapply catalog_doc_slug; eauto). rewrite lookup_insert_eq in H1. congruence.
      * rewrite (H s cat) in E; [done|apply lookup_insert_eq].
  - rewrite IH. split.
    + intros [(s' & c' & H1 & H2)|[H1 H2]]; [left; exists s', c'; split; [|done]|right; split; [done|]].
      * rewrite lookup_insert_ne; [done|]. by intros ->; rewrite Hs in H1.
      * intros s' c' [[<- <-]|[_ H]]%lookup_insert_Some; [done|eauto].
    + intros [(s' & c' & [[<- <-]|[? H1]]%lookup_insert_Some & H2)|[H1 H2]]; [congruence|left; eauto|right; split; [done|]].
      intros s' c' H. apply (H2 s' c'). rewrite lookup_insert_ne; [done|]. by intros ->; rewrite Hs in H.
Qed.

Lemma catalog_doc_key slug cat k v : catalog_doc slug cat k = Some v → is_catalog_key k = true.
Proof.
  unfold catalog_doc. destruct (String.eqb_spec k (catalogsource_key slug)) as [->|]; [intros; apply is_catalog_key_source|].
  destruct (String.eqb_spec k (clustercatalog_key slug)) as [->|]; [intros; apply is_catalog_key_cluster|done].
Qed.
End documents.

(** ** Writing the ConfigMap *)

Section saving.
Context `{Y : Marshal}.

(** The write happens as a whole or not at all. *)
Lemma saveGlobalResources_cases mt items namespace cats m c :
  let r := saveGlobalResources mt items namespace cats m c in
  let name := ResourcesConfigMapName (mt_Name mt) in
  (fst r = inr tt ∧ ∃ data cm, global_resources mt items namespace cats m = Some data ∧ cm_Data cm = data ∧
     cl_cms (snd r) = <[name := cm]> (cl_cms c)) ∨
  ((∃ e, fst r = inl e) ∧ cl_cms (snd r) = cl_cms c ∧
   (healthy c → global_resources mt items namespace cats m = None)).
Proof.
  cbn. unfold saveGlobalResources. destruct (global_resources mt items namespace cats m) as [data|]; [|right; by eauto].
  set (name := ResourcesConfigMapName (mt_Name mt)). rewrite attempt_bind.
  pose proof (api_get_cms name c) as Hc. pose proof (api_get_healthy name c) as Hh.
  assert (Hg : (fst (api_get name c) = inl ErrOther ∧ ¬ healthy c) ∨
     fst (api_get name c) = match cl_cms c !! name with Some cm => inr cm | None => inl ErrNotFound end).
  { unfold api_get. destruct (call_cases (λ cms : gmap string ConfigMap, match cms !! name with
      Some cm => (inr cm, cms) | None => (inl ErrNotFound, cms) end) c) as [[E Hn]|E]; rewrite E; [by left|].
    right. cbn. by destruct (cl_cms c !! name). }
  destruct (api_get name c) as [r c1]. cbn in Hc, Hh, Hg.
  destruct Hg as [[-> Hn]| ->]; [right; cbn; split_and!; [eauto|done|by intros ?]|].
  unfold api_create, api_update.
  destruct (cl_cms c !! name) as [old|] eqn:Eo; cbn;
    match goal with |- context [call ?f c1] => destruct (call_cases f c1) as [[E Hn]|E]; rewrite E end; cbn;
    rewrite ?Hc, ?Eo; cbn.
  - right. split_and!; [by eauto|done|by intros [_ ?]%Hh].
  - left. split; [done|]. by exists data, (with_Data data old).
  - right. split_and!; [by eauto|done|by intros [_ ?]%Hh].
  - left. split; [done|]. by exists data, (mkConfigMap ∅ None None None None None data (Some (mt_Name mt))).
Qed.
End saving.

(** ** The parts of a catalog reference *)

Lemma before_any_stop c path rest :
  c ∈ [":"%char; "@"%char] → has_char ":" path = false → has_char "@" path = false →
  before_any [":"%char; "@"%char] (path +:+ String c rest) = path.
Proof.
  intros Hc. induction path as [|x path IH]; intros H1 H2.
  - cbn. rewrite !elem_of_cons in Hc. destruct Hc as [->|[->|?%elem_of_nil]]; done.
  - rewrite app_cons_s. cbn in *. rewrite orb_false_iff in H1, H2. destruct H1 as [H1 ?], H2 as [H2 ?].
    rewrite H1, H2. cbn. f_equal. auto.
Qed.

Lemma before_any_none path :
  has_char ":" path = false → has_char "@" path = false → before_any [":"%char; "@"%char] path = path.
Proof.
  induction path as [|x path IH]; [done|]. cbn. rewrite !orb_false_iff. intros [H1 ?] [H2 ?].
  rewrite H1, H2. cbn. f_equal. auto.
Qed.

(** Removing a digest and a tag from "prefix:tag@digest" and its shorter forms. *)
Lemma strip_digest_suffix ref digest :
  has_char "@" ref = false → strip_digest (ref +:+ String "@" digest) = (ref, digest).
Proof. intros. unfold strip_digest. by rewrite cut_char_app. Qed.

Lemma strip_digest_none ref : has_char "@" ref = false → strip_digest ref = (ref, "").
Proof. intros H. unfold strip_digest. by rewrite (proj2 (cut_char_None _ _) H). Qed.

Lemma strip_tag_suffix ref tag :
  has_char ":" tag = false → has_char "/" tag = false → strip_tag (ref +:+ String ":" tag) = (ref, tag).
Proof. intros H1 H2. unfold strip_tag. rewrite cut_last_char_app by done. by rewrite Contains_char, H2. Qed.

Lemma strip_tag_none host path :
  has_char ":" path = false → strip_tag (host +:+ String "/" path) = (host +:+ String "/" path, "").
Proof.
  intros Hp. unfold strip_tag.
  rewrite (cut_last_suffix ":" host (String "/" path)) by (cbn; exact Hp).
  destruct (cut_last ":" host) as [[a b]|]; [|done].
  rewrite Contains_char, has_char_app. cbn. by rewrite orb_true_r.
Qed.

Lemma repoOnly_tagged repo tag :
  has_char "@" repo = false → has_char "@" tag = false → has_char ":" tag = false → has_char "/" tag = false →
  splitRepoRef (repo +:+ ":" +:+ tag) = (repo, ":" +:+ tag).
Proof.
  intros H1 H2 H3 H4. unfold splitRepoRef. change (":" +:+ tag) with (String ":" tag).
  rewrite (proj2 (cut_char_None _ _)) by (apply has_char_app_false; split; [done|cbn; exact H2]).
  rewrite cut_last_char_app by done. by rewrite Contains_char, H4.
Qed.

(** ** The catalogs of the state *)

(** An operator image whose record names catalog [cat]. *)
Definition names_catalog (cat origin catalog originRef : string) : Prop :=
  origin = OriginOperator ∧ cat ≠ "" ∧ cat = if String.eqb catalog "" then CatalogFromOriginRef originRef else catalog.

Lemma addCatalog_spec origin catalog originRef cats cat :
  cat ∈ addCatalog origin catalog originRef cats ↔ names_catalog cat origin catalog originRef ∨ cat ∈ cats.
Proof.
  unfold addCatalog, names_catalog. destruct (String.eqb_spec origin OriginOperator) as [->|Hne]; cbn; [|naive_solver].
  set (x := if String.eqb catalog "" then _ else _). destruct (String.eqb_spec x "") as [->|Hx]; [naive_solver|].
  rewrite elem_of_union, elem_of_singleton. naive_solver.
Qed.

(** A loop that only adds collects what each step adds. *)
Lemma map_fold_union {V} (f : string → V → gset string → gset string) (P : string → V → string → Prop) m :
  (∀ k v acc x, x ∈ f k v acc ↔ P k v x ∨ x ∈ acc) →
  ∀ acc x, x ∈ map_fold f acc m ↔ (∃ k v, m !! k = Some v ∧ P k v x) ∨ x ∈ acc.
Proof.
  intros Hf. induction m as [|k v m Hk Hfk IH] using map_first_key_ind; intros acc x.
  { rewrite map_fold_empty. split; [by right|intros [(? & ? & H & _)|?]; [by rewrite lookup_empty in H|done]]. }
  rewrite map_fold_insert_first_key by done. rewrite Hf, IH. split.
  - intros [?|[(k' & v' & H1 & ?)|?]]; [left; exists k, v; by rewrite lookup_insert_eq| |by right].
    left. exists k', v'. rewrite lookup_insert_ne; [done|]. by intros ->; rewrite Hk in H1.
  - intros [(k' & v' & [[<- <-]|[? ?]]%lookup_insert_Some & ?)|?]; eauto 6.
Qed.

Lemma sourceCatalogs_spec m cat :
  cat ∈ sourceCatalogs m ↔ ∃ dest e, imageState m !! dest = Some e ∧
    (names_catalog cat (Origin e) (Catalog e) (OriginRef e) ∨
     ∃ n meta, default ∅ (ownerMeta m !! dest) !! n = Some meta ∧
       names_catalog cat (sm_Origin meta) (sm_Catalog meta) (sm_OriginRef meta)).
Proof.
  unfold sourceCatalogs.
  rewrite (map_fold_union _ (λ dest e cat, names_catalog cat (Origin e) (Catalog e) (OriginRef e) ∨
     ∃ n meta, default ∅ (ownerMeta m !! dest) !! n = Some meta ∧
       names_catalog cat (sm_Origin meta) (sm_Catalog meta) (sm_OriginRef meta))).
  { split; [intros [?|?%elem_of_empty]; done|by left]. }
  intros dest e acc x.
  rewrite (map_fold_union _ (λ _ meta cat, names_catalog cat (sm_Origin meta) (sm_Catalog meta) (sm_OriginRef meta)))
    by (intros; apply addCatalog_spec).
  rewrite addCatalog_spec. naive_solver.
Qed.

(** ** The published data *)

Section published.
Context `{Y : Marshal} (marshal_total : ∀ d, is_Some (marshal d)).

Lemma catalog_doc_source mt namespace slug cat :
  catalog_doc mt namespace slug cat (catalogsource_key slug) =
  GenerateCatalogSource (mt_Name mt +:+ "-" +:+ slug) namespace cat (mt_AuthSecret mt).
Proof. unfold catalog_doc. by rewrite String.eqb_refl. Qed.

Lemma global_resources_lookup mt items namespace cats m data :
  global_resources mt items namespace cats m = Some data →
  ∀ k v, data !! k = Some v ↔
    k = "idms.yaml" ∧ GenerateIDMS (mt_Name mt) (imageState m) = Some v ∨
    k = "itms.yaml" ∧ GenerateITMS (mt_Name mt) (imageState m) = Some v ∨
    k = "index.json" ∧ marshal (DocIndex (resource_index (delete "index.json" data))) = Some v ∨
    ∃ slug cat, catalog_infos mt items cats !! slug = Some cat ∧ catalog_doc mt namespace slug cat k = Some v.
Proof.
  unfold global_resources. destruct (GenerateIDMS _ _) as [idms|]; [|done]. destruct (GenerateITMS _ _) as [itms|]; [|done].
  set (d0 := map_fold _ _ _).
  assert (Hd : ∀ k v, d0 !! k = Some v ↔ k = "idms.yaml" ∧ idms = v ∨ k = "itms.yaml" ∧ itms = v ∨
    ∃ slug cat, catalog_infos mt items cats !! slug = Some cat ∧ catalog_doc mt namespace slug cat k = Some v).
  { intros k v. unfold d0. rewrite catalog_docs_lookup. rewrite lookup_insert_Some, lookup_singleton_Some. split.
    - intros [?|[[[<- <-]|(_ & <- & <-)] _]]; auto.
    - intros [[-> ->]|[[-> ->]|?]]; [right|right|by left].
      + split; [by left|]. intros slug cat _. destruct (catalog_doc _ _ _ _ _) eqn:E; [|done]. by apply catalog_doc_key in E.
      + split; [by right|]. intros slug cat _. destruct (catalog_doc _ _ _ _ _) eqn:E; [|done]. by apply catalog_doc_key in E. }
  assert (Hi : d0 !! "index.json" = None).
  { destruct (d0 !! "index.json") eqn:E; [|done]. apply Hd in E as [[? _]|[[? _]|(? & ? & _ & E%catalog_doc_key)]]; done. }
  destruct (marshal_total (DocIndex (resource_index d0))) as [ix Eix]. rewrite Eix. intros [= <-] k v.
  rewrite delete_insert_id, Eix by done. rewrite lookup_insert_Some, Hd. split.
  - intros [[<- <-]|[_ [[-> ->]|[[-> ->]|?]]]]; auto.
  - intros [[-> [= ->]]|[[-> [= ->]]|[[-> [= ->]]|H]]].
    + right. split; [done|]. by left.
    + right. split; [done|]. by right; left.
    + by left.
    + right. split; [|by right; right]. intros <-. by destruct H as (? & ? & _ & E%catalog_doc_key).
Qed.

Lemma resource_index_elem data k :
  k ∈ resource_index data ↔ k = "idms.yaml" ∨ k = "itms.yaml" ∨ is_Some (data !! k) ∧ is_catalog_key k = true.
Proof.
  unfold resource_index. rewrite sort_strings_elem, elem_of_app, elem_of_filter_bool, elem_of_elements, elem_of_dom.
  rewrite !elem_of_cons, elem_of_nil. tauto.
Qed.
End published.

Section catalog_location.
Context (host path tag digest : string).
Context (host_slash : has_char "/" host = false) (host_at : has_char "@" host = false).
Context (path_colon : has_char ":" path = false) (path_at : has_char "@" path = false).
Context (tag_colon : has_char ":" tag = false) (tag_at : has_char "@" tag = false) (tag_slash : has_char "/" tag = false).

Abbreviation src := (host +:+ String "/" path).

Lemma src_no_at : has_char "@" src = false.
Proof. rewrite has_char_app_false. by split. Qed.

Lemma catalogTag_tagged : catalogTag (src +:+ String ":" tag) = tag.
Proof.
  unfold catalogTag. rewrite strip_digest_none; [by cbn [fst]; rewrite strip_tag_suffix|].
  rewrite has_char_app_false. split; [apply src_no_at|done].
Qed.

Lemma catalogTag_tagged_digest : catalogTag ((src +:+ String ":" tag) +:+ String "@" digest) = tag.
Proof.
  unfold catalogTag. rewrite strip_digest_suffix; [by cbn [fst]; rewrite strip_tag_suffix|].
  rewrite has_char_app_false. split; [apply src_no_at|done].
Qed.

Lemma catalogTag_untagged : catalogTag src = "".
Proof. unfold catalogTag. rewrite strip_digest_none by apply src_no_at. cbn [fst]. by rewrite strip_tag_none. Qed.

Lemma catalogTag_digest : catalogTag (src +:+ String "@" digest) = "".
Proof. unfold catalogTag. rewrite strip_digest_suffix by apply src_no_at. cbn [fst]. by rewrite strip_tag_none. Qed.

(** The location for a source "host/path" followed by nothing, a tag or a digest. *)
Lemma CatalogTargetImage_derived registry op rest t :
  has_char "@" registry = false → op_TargetTag op = "" → op_TargetCatalog op = "" →
  op_Catalog op = src +:+ rest → (rest = "" ∨ ∃ c r, rest = String c r ∧ c ∈ [":"%char; "@"%char]) →
  has_char ":" t = false → has_char "@" t = false → has_char "/" t = false →
  (if String.eqb (catalogTag (op_Catalog op)) "" then "latest" else catalogTag (op_Catalog op)) = t →
  splitRepoRef (CatalogTargetImage registry op) = (registry +:+ "/" +:+ path, ":" +:+ t).
Proof.
  intros Hr H1 H2 Hc Hrest G1 G2 G3 Ht. unfold CatalogTargetImage. rewrite H1, H2. cbn [String.eqb negb].
  rewrite Ht, Hc. unfold SplitN2. rewrite <- (app_assoc_s host), (app_cons_s _ path), cut_char_app by done.
  assert (before_any [":"%char; "@"%char] (path +:+ rest) = path) as ->.
  { destruct Hrest as [->|(c & r & -> & ?)]; [rewrite app_nil_r_s; by apply before_any_none|by apply before_any_stop]. }
  replace (registry +:+ "/" +:+ path +:+ ":" +:+ t) with ((registry +:+ "/" +:+ path) +:+ ":" +:+ t)
    by by rewrite <- !app_assoc_s.
  apply repoOnly_tagged; try done. rewrite !has_char_app_false. by split_and!.
Qed.
End catalog_location.

(** * Properties *)

(** The mirror sets are exact: the IDMS and the ITMS list a mirror for a
    source repository if and only if an image of that repository, referenced
    by digest (IDMS) or by tag (ITMS), is Mirrored to a destination in that
    mirror repository; sources and mirrors are listed once and in order, so
    the document does not depend on the order of map iteration, and no source
    is listed without a mirror or as its own mirror. *)
Theorem mirror_sets_exact `{Marshal} name st :
  (∃ l, GenerateIDMS name st = marshal (DocIDMS name l) ∧ mirror_set_ok isDigestRef st l) ∧
  (∃ l, GenerateITMS name st = marshal (DocITMS name l) ∧ mirror_set_ok isTagRef st l).
Proof. split; (eexists; split; [reflexivity|apply mirror_list_ok]). Qed.

(** A Mirrored image that workloads reference by digest is redirected to the
    repository it was pushed to: the IDMS lists, for the repository of the
    source "name@sha256:hex", the repository of its computed destination. *)
Theorem IDMS_redirects_pinned `{Marshal} name' st reg name hex e :
  has_char "@" reg = false → has_char "@" name = false →
  has_char "@" hex = false → has_char ":" hex = false → has_char "/" hex = false →
  st !! ComponentDestination reg (pinned name hex) = Some e →
  Source e = pinned name hex → State e = "Mirrored" →
  let mirror := reg +:+ "/" +:+ ImageNamePath (pinned name hex) in
  fst (strip_tag name) ≠ mirror →
  ∃ l ms, GenerateIDMS name' st = marshal (DocIDMS name' l) ∧ (fst (strip_tag name), ms) ∈ l ∧ mirror ∈ ms.
Proof.
  intros Hr Hn H1 H2 H3 He Hs Hm mirror Hne.
  destruct (mirror_list_ok isDigestRef st) as (_ & _ & _ & Hl).
  destruct (proj2 (Hl (fst (strip_tag name)) mirror)) as (ms & ? & ?).
  - exists (ComponentDestination reg (pinned name hex)), e. split; [done|]. split_and!; try done.
    + rewrite Hs. unfold isDigestRef, Contains. by rewrite cut_pinned.
    + rewrite Hs, repoOnly_stripTagOrDigest. unfold stripTagOrDigest, pinned.
      change ("@sha256:" +:+ hex) with (String "@" ("sha256:" +:+ hex)). rewrite strip_digest_suffix by done.
      by destruct (strip_tag name).
    + rewrite ComponentDestination_pinned by done. unfold repoOnly.
      change (":sha256-" +:+ hex) with (":" +:+ ("sha256-" +:+ hex)). fold mirror.
      rewrite repoOnly_tagged; [done|..].
      * unfold mirror. rewrite !has_char_app_false. split_and!; try done. by apply ImageNamePath_pinned_no_at.
      * rewrite has_char_app_false. done.
      * rewrite has_char_app_false. done.
      * rewrite has_char_app_false. done.
  - eexists _, _. split; [reflexivity|]. eauto.
Qed.

(** An image mirrored from a registry into the mirror registry. *)
Definition ex_mirrored (src : string) : ImageEntry :=
  mkImageEntry src "Mirrored" "" 0 OriginOperator "sig" "quay.io/cat:v1 [op.v1]" "" false false None false "".

Lemma IDMS_redirects_pinned_witness :
  ∃ l ms, @GenerateIDMS (λ _, Some "doc") "mt" {["reg/org/app:sha256-ab" := ex_mirrored "quay.io/org/app@sha256:ab"]} = Some "doc" ∧
    ("quay.io/org/app", ms) ∈ (l : list (string * list string)) ∧ "reg/org/app" ∈ ms.
Proof.
  destruct (@IDMS_redirects_pinned (λ _, Some "doc") "mt"
    {["reg/org/app:sha256-ab" := ex_mirrored "quay.io/org/app@sha256:ab"]} "reg" "quay.io/org/app" "ab"
    (ex_mirrored "quay.io/org/app@sha256:ab")) as (l & ms & E & H1 & H2); try reflexivity; [discriminate|].
  exists l, ms. split; [exact E|split; [exact H1|exact H2]].
Defined.

(** The resources ConfigMap: an error leaves every ConfigMap as it was; on
    success only this ConfigMap changes, and its data are the IDMS, the ITMS,
    the index, and CatalogSource and ClusterCatalog documents.  Every catalog
    some operator image (or an owner's own record of it) was resolved from
    has its slug published, with the image at the location the target's
    operator entry gives it; and the index lists exactly the other keys. *)
Theorem saveGlobalResources_exact `{Marshal} mt items namespace cats m c :
  (∀ d, is_Some (marshal d)) → (∀ cat, cat ∈ cats ↔ cat ∈ sourceCatalogs m) →
  let r := saveGlobalResources mt items namespace cats m c in
  (∀ e, fst r = inl e → cl_cms (snd r) = cl_cms c) ∧
  (fst r = inr tt → ∃ cm, cl_cms (snd r) = <[ResourcesConfigMapName (mt_Name mt) := cm]> (cl_cms c) ∧
    (cm_Data cm !! "idms.yaml" = GenerateIDMS (mt_Name mt) (imageState m)) ∧
    (cm_Data cm !! "itms.yaml" = GenerateITMS (mt_Name mt) (imageState m)) ∧
    (∀ cat, cat ∈ sourceCatalogs m → ∃ cat', cat' ∈ sourceCatalogs m ∧ CatalogSlug cat' = CatalogSlug cat ∧
       cm_Data cm !! catalogsource_key (CatalogSlug cat) =
         GenerateCatalogSource (mt_Name mt +:+ "-" +:+ CatalogSlug cat) namespace
           (mkCatalogInfo cat' (CatalogTargetImage (mt_Registry mt) (default (catalogOperator cat') (opsBySource mt items !! cat')))
              (CatalogSlug cat)) (mt_AuthSecret mt)) ∧
    (∃ ix, cm_Data cm !! "index.json" = marshal (DocIndex ix) ∧ StronglySorted String.le ix ∧
       ∀ k, k ∈ ix ↔ is_Some (cm_Data cm !! k) ∧ k ≠ "index.json")).
Proof.
  intros Ht Hcats r.
  destruct (saveGlobalResources_cases mt items namespace cats m c) as [[E (data & cm & Hd & Hcm & Hc)]|[(e & E) (Hc & _)]];
    fold r in E, Hc; rewrite E; (split; [intros ? [=]|intros [=]]); [|done].
  exists cm. rewrite Hcm. pose proof (global_resources_lookup Ht _ _ _ _ _ _ Hd) as Hl.
  assert (Hkeys : is_Some (GenerateIDMS (mt_Name mt) (imageState m)) ∧ is_Some (GenerateITMS (mt_Name mt) (imageState m)))
    by (split; apply Ht).
  destruct Hkeys as [[idms Ei] [itms Et]]. split_and!.
  - exact Hc.
  - rewrite Ei. apply Hl. by left.
  - rewrite Et. apply Hl. by right; left.
  - intros cat Hcat. apply Hcats in Hcat as Hin.
    destruct (catalog_infos_covers mt items cats cat Hin) as [info Hinfo].
    destruct (catalog_infos_spec _ _ _ _ _ Hinfo) as (cat' & Hin' & Hslug & ->). exists cat'.
    split; [by apply Hcats|]. split; [done|].
    match goal with |- _ = ?g => destruct g as [v|] eqn:Eg end; [|by destruct (Ht (DocCatalogSource
      (mt_Name mt +:+ "-" +:+ CatalogSlug cat) namespace (CatalogTargetImage (mt_Registry mt)
        (default (catalogOperator cat') (opsBySource mt items !! cat'))) (CatalogSlug cat)
      (if String.eqb (mt_AuthSecret mt) "" then [] else [mt_AuthSecret mt]))) as [? E']; unfold GenerateCatalogSource in Eg; cbn in Eg; rewrite E' in Eg].
    apply Hl. right. right. right. exists (CatalogSlug cat). eexists. split; [exact Hinfo|]. by rewrite catalog_doc_source.
  - exists (resource_index (delete "index.json" data)). split_and!.
    + destruct (Ht (DocIndex (resource_index (delete "index.json" data)))) as [ix Eix]. rewrite Eix. apply Hl.
      right. right. by left.
    + apply sort_strings_sorted.
    + intros k. rewrite resource_index_elem. rewrite lookup_delete_is_Some. split.
      * intros [->|[->|[[? ?] _]]]; [split; [|done]; eexists; apply Hl; by left|split; [|done]; eexists; apply Hl; by right; left|done].
      * intros [[v Hv] Hne]. apply Hl in Hv as Hv'. destruct Hv' as [[-> _]|[[-> _]|[[-> _]|(? & ? & _ & E'%catalog_doc_key)]]]; auto.
        right. right. split; [|done]. split; [done|by exists v].
Qed.

Definition ex_res_manager : MirrorManager :=
  mkManager "tok" false [] ∅ ∅ {["reg/org/app:sha256-ab" := ex_mirrored "quay.io/org/app@sha256:ab"]} ∅ ∅ ∅ None false false false
    false 10.
Definition ex_res_target : MirrorTarget := mkMirrorTarget "mt" "reg" ["is1"] 1 50 10 None None ∅ 1 "" false None None.

Lemma saveGlobalResources_exact_witness :
  ∃ cm c', @saveGlobalResources (λ _, Some "doc") ex_res_target [] "ns" ["quay.io/cat:v1"] ex_res_manager (mkCluster ∅ []) = (inr tt, c') ∧
    cl_cms c' = {["oc-mirror-mt-resources" := cm]} ∧ cm_Data cm !! "catalogsource-cat-v1.yaml" = Some "doc".
Proof.
  destruct (@saveGlobalResources_exact (λ _, Some "doc") ex_res_target [] "ns" ["quay.io/cat:v1"] ex_res_manager (mkCluster ∅ []))
    as [_ H].
  - intros d. by exists "doc".
  - intros cat. change (sourceCatalogs ex_res_manager) with ({["quay.io/cat:v1"]} : gset string).
    by rewrite elem_of_singleton, list_elem_of_singleton.
  - destruct H as (cm & E & _ & _ & Hcat & _); [vm_compute; reflexivity|].
    destruct (Hcat "quay.io/cat:v1") as (cat' & _ & _ & Hk).
    { change (sourceCatalogs ex_res_manager) with ({["quay.io/cat:v1"]} : gset string). by apply elem_of_singleton. }
    exists cm. eexists. split; [apply injective_projections; [vm_compute; reflexivity|reflexivity]|].
    split; [exact E|exact Hk].
Defined.

(** The filtered catalog image of an entry without overrides sits at the
    repository path of its source catalog, under the source's own tag, or
    "latest" when the source has none; reading the reference back gives this
    repository and tag. *)
Theorem CatalogTargetImage_spec registry op host path tag digest :
  has_char "@" registry = false → op_TargetTag op = "" → op_TargetCatalog op = "" →
  has_char "/" host = false → has_char "@" host = false →
  has_char ":" path = false → has_char "@" path = false →
  has_char ":" tag = false → has_char "@" tag = false → has_char "/" tag = false → tag ≠ "" →
  let at_tag t := splitRepoRef (CatalogTargetImage registry op) = (registry +:+ "/" +:+ path, ":" +:+ t) in
  let src := host +:+ "/" +:+ path in
  (op_Catalog op = src +:+ ":" +:+ tag ∨ op_Catalog op = (src +:+ ":" +:+ tag) +:+ "@" +:+ digest → at_tag tag) ∧
  (op_Catalog op = src ∨ op_Catalog op = src +:+ "@" +:+ digest → at_tag "latest").
Proof.
  intros Hr H1 H2 Hh1 Hh2 Hp1 Hp2 Ht1 Ht2 Ht3 Ht at_tag src. subst src at_tag.
  change ("/" +:+ path) with (String "/" path). cbv beta. assert (String.eqb tag "" = false) as Hne by by apply String.eqb_neq.
  split; intros [E|E].
  - apply (CatalogTargetImage_derived host path) with (rest := ":" +:+ tag); try done; [right; eexists _, _; by split; [|left]|].
    rewrite E. change (":" +:+ tag) with (String ":" tag). rewrite catalogTag_tagged by done. by rewrite Hne.
  - apply (CatalogTargetImage_derived host path) with (rest := ":" +:+ tag +:+ "@" +:+ digest); try done;
      [by rewrite E, <- app_assoc_s|right; eexists _, _; by split; [|left]|].
    rewrite E. change (":" +:+ tag) with (String ":" tag). change ("@" +:+ digest) with (String "@" digest).
    rewrite catalogTag_tagged_digest by done. by rewrite Hne.
  - apply (CatalogTargetImage_derived host path) with (rest := ""); try done; [by rewrite app_nil_r_s|by left|].
    by rewrite E, catalogTag_untagged.
  - apply (CatalogTargetImage_derived host path) with (rest := "@" +:+ digest); try done;
      [right; eexists _, _; split; [done|right; by left]|].
    rewrite E. change ("@" +:+ digest) with (String "@" digest). by rewrite catalogTag_digest.
Qed.

Lemma CatalogTargetImage_spec_witness :
  splitRepoRef (CatalogTargetImage "reg:5000" (catalogOperator "quay.io:443/redhat/index:v4.21@sha256:ab")) =
  ("reg:5000/redhat/index", ":v4.21").
Proof.
  apply (CatalogTargetImage_spec "reg:5000" (catalogOperator "quay.io:443/redhat/index:v4.21@sha256:ab")
    "quay.io:443" "redhat/index" "v4.21" "sha256:ab"); try reflexivity; [discriminate|right; reflexivity].
Defined.

(** ** What the mirror sets miss *)

(** An image referenced by neither tag nor digest is mirrored and listed in
    no mirror set, so pulls of it are never redirected. *)
Lemma untagged_image_not_listed src dest :
  has_char ":" src = false → has_char "@" src = false →
  let st := {[dest := ex_mirrored src]} in
  mirror_list (mirror_map isDigestRef st) = [] ∧ mirror_list (mirror_map isTagRef st) = [].
Proof.
  intros H1 H2 st. unfold st, mirror_map. rewrite !map_fold_singleton. unfold add_mirror. cbn.
  unfold isDigestRef, isTagRef. rewrite !Contains_char, H1, H2. cbn.
  replace (Contains src "@sha256:") with false; [by split|].
  unfold Contains. by rewrite (cut_None "@" "sha256:" src H2).
Qed.

(** A mirrored Helm chart is listed in the ITMS with its download URL as an
    image repository. *)
Lemma helm_chart_listed_in_ITMS :
  mirror_list (mirror_map isTagRef {["reg/charts/repo/app:1.0" := ex_mirrored "helm://https://charts.io/app?version=1.0"]}) =
  [("helm://https://charts.io/app?version=1.0", ["reg/charts/repo/app"])].
Proof. vm_compute. reflexivity. Qed.

(** Two catalogs with the same slug: which one gets a CatalogSource depends on
    the order in which the map of catalogs is visited. *)
Lemma same_slug_one_CatalogSource mt items cat1 cat2 :
  CatalogSlug cat1 = CatalogSlug cat2 →
  (∃ i, catalog_infos mt items [cat1; cat2] = {[CatalogSlug cat1 := i]} ∧ ci_SourceCatalog i = cat1) ∧
  (∃ i, catalog_infos mt items [cat2; cat1] = {[CatalogSlug cat1 := i]} ∧ ci_SourceCatalog i = cat2).
Proof.
  intros E. unfold catalog_infos, add_slug. cbn [foldl]. rewrite !lookup_empty, <- E, !lookup_insert_eq, !insert_empty.
  split; (eexists; split; [reflexivity|reflexivity]).
Qed.
