(* ===== verification/Export.v ===== *)
(** * The content of an export

    pkg/mirror/export (manifest.go, buildspec.go, resources.go) and the
    one-shot collectors of pkg/mirror/collector.go: a MirrorExport resolves the
    content an ImageSet would mirror into a list of images to copy, a list of
    images to build and the resources of the disconnected cluster.  Upstream is
    the parameter of [Resolve]. *)
From S2P Require Import Prelude GoStrings HelmSource ImageRef ImageState Owners ManagerState Api Resolve Resources.

(** ** One-shot collection (collector.go) *)

Section collect.
Context (up : Upstream).

(** A channel that cannot be resolved is logged and skipped. *)
Definition CollectReleases (m : Mirror) (registry : string) : list TargetImage :=
  concat (map (λ rel, default [] (CollectReleasesForChannel up (mi_Platform m) registry rel ∅)) (pf_Channels (mi_Platform m))).

Definition entry_image (registry : string) (b : BundleImage) : TargetImage :=
  let ti := toTargetImage (bi_Image b) (ComponentDestination registry (bi_Image b)) None in
  mkTargetImage (ti_Source ti) (ti_Destination ti) (ti_State ti) (bi_Label b) (bi_IsBundle b).

Definition CollectOperatorEntry (registry : string) (op : Operator) : option (list TargetImage) :=
  images ← up_catalog up (op_Catalog op) (op_Packages op);
  Some (map (entry_image registry) images).

Definition CollectOperators (m : Mirror) (registry : string) : list TargetImage :=
  concat (map (λ op, default [] (CollectOperatorEntry registry op)) (mi_Operators m)).

Definition helm_images (registry : string) (repo : Repository) (chart : Chart) : list TargetImage :=
  match up_chart up (repo_URL repo) chart with
  | None => []
  | Some res => map (λ img, toTargetImage img (registry +:+ "/" +:+ img) None) (hr_Images res)
  end.

Definition CollectHelm (m : Mirror) (registry : string) : list TargetImage :=
  concat (map (λ repo, concat (map (helm_images registry repo) (repo_Charts repo))) (mi_Helm m)).

Definition CollectTargetImages (m : Mirror) (registry : string) : list TargetImage :=
  BlockImages
    (CollectReleases m registry ++ CollectOperators m registry ++ CollectAdditional registry (mi_AdditionalImages m) None
     ++ CollectHelm m registry) (mi_BlockedImages m).

(** ** The manifest *)

Record ManifestEntry := mkManifestEntry { mf_Source : string; mf_Destination : string; mf_Origin : string; mf_BundleRef : string }.
Record Manifest := mkManifest { mf_Images : list ManifestEntry }.

Definition tagOrigin (origin : string) (images : list TargetImage) : list ManifestEntry :=
  map (λ img, mkManifestEntry (ti_Source img) (ti_Destination img) origin (ti_BundleRef img)) images.

Definition blockEntries (entries : list ManifestEntry) (blocked : list string) : list ManifestEntry :=
  if decide (blocked = []) then entries
  else
    let blockedPaths : gset string := list_to_set (map ImageNamePath blocked) in
    List.filter (λ e, negb (bool_decide (ImageNamePath (mf_Source e) ∈ blockedPaths))) entries.

Definition BuildManifest (m : Mirror) (destRegistry : string) : Manifest :=
  mkManifest (blockEntries
    (tagOrigin OriginRelease (CollectReleases m destRegistry) ++ tagOrigin OriginOperator (CollectOperators m destRegistry)
     ++ tagOrigin OriginAdditional (CollectAdditional destRegistry (mi_AdditionalImages m) None)
     ++ tagOrigin OriginHelm (CollectHelm m destRegistry)) (mi_BlockedImages m)).
End collect.

(** The first entry of a destination wins. *)
Definition manifest_state (state : gmap string ImageEntry) (e : ManifestEntry) : gmap string ImageEntry :=
  match state !! mf_Destination e with
  | Some _ => state
  | None => <[mf_Destination e := mkImageEntry (mf_Source e) "Mirrored" "" 0 (mf_Origin e) "" "" "" false false None false ""]> state
  end.
Definition ToImageState (mf : Manifest) : gmap string ImageEntry := foldl manifest_state ∅ (mf_Images mf).

(** ** What has to be built (buildspec.go) *)

Record CatalogBuildEntry := mkCatalogBuild {
  cb_SourceCatalog : string; cb_TargetRef : string; cb_Full : bool; cb_Packages : list IncludePackage;
}.
Record GraphBuildSpec := mkGraphBuild { gb_Enabled : bool; gb_TargetRef : string }.
Record BuildSpec := mkBuildSpec { bs_Catalogs : list CatalogBuildEntry; bs_Graph : option GraphBuildSpec }.

Definition named_operators (m : Mirror) : list Operator := List.filter (λ op, negb (String.eqb (op_Catalog op) "")) (mi_Operators m).

Definition catalog_build (destRegistry : string) (op : Operator) : CatalogBuildEntry :=
  mkCatalogBuild (op_Catalog op) (CatalogTargetImage destRegistry op) (op_Full op) (if op_Full op then [] else op_Packages op).

Definition BuildSpecFor (m : Mirror) (destRegistry : string) : BuildSpec :=
  mkBuildSpec (map (catalog_build destRegistry) (named_operators m))
    (if pf_Graph (mi_Platform m) then Some (mkGraphBuild true (destRegistry +:+ "/openshift/graph-image:latest")) else None).

(** ** The resources (resources.go) *)

Section render.
Context `{Y : Marshal}.

Definition render_catalog (name namespace destRegistry : string) (out : gmap string string) (op : Operator) : option (gmap string string) :=
  let slug := CatalogSlug (op_Catalog op) in
  let cat := mkCatalogInfo (op_Catalog op) (CatalogTargetImage destRegistry op) (op_Catalog op) in
  cs ← GenerateCatalogSource (name +:+ "-" +:+ slug) namespace cat "";
  cc ← GenerateClusterCatalog (name +:+ "-" +:+ slug) cat;
  Some (<[clustercatalog_key slug := cc]> (<[catalogsource_key slug := cs]> out)).

Fixpoint render_catalogs (name namespace destRegistry : string) (ops : list Operator) (out : gmap string string)
    : option (gmap string string) :=
  match ops with
  | [] => Some out
  | op :: ops => out ← render_catalog name namespace destRegistry out op; render_catalogs name namespace destRegistry ops out
  end.

(** [None] is an error. *)
Definition RenderResources (name namespace : string) (m : Mirror) (mf : Manifest) (destRegistry : string) : option (gmap string string) :=
  let state := ToImageState mf in
  idms ← GenerateIDMS name state;
  itms ← GenerateITMS name state;
  render_catalogs name namespace destRegistry (named_operators m) (<["itms.yaml" := itms]> {["idms.yaml" := idms]}).
End render.

(** * Lemmas *)

(** ** What a resolve from scratch adds *)

Abbreviation dests := (map ti_Destination).

Definition adds (s s' : section_state) (D : list string) : Prop :=
  ∀ d, is_Some (ss_state s' !! d) ↔ is_Some (ss_state s !! d) ∨ d ∈ D.

Lemma adds_iff s s' D d : adds s s' D → is_Some (ss_state s' !! d) ↔ is_Some (ss_state s !! d) ∨ d ∈ D.
Proof. intros Ha. apply Ha. Qed.

Lemma adds_nothing s s' : ss_state s' = ss_state s → adds s s' [].
Proof. intros E d. rewrite E, elem_of_nil. naive_solver. Qed.

Lemma adds_foldl {A} (f : section_state → A → section_state) (g : A → list string) l s :
  (∀ s x, x ∈ l → adds s (f s x) (g x)) → adds s (foldl f s l) (concat (map g l)).
Proof.
  revert s. induction l as [|x l IH]; intros s Hf d; cbn; [rewrite elem_of_nil; naive_solver|].
  rewrite (adds_iff _ _ _ d (IH (f s x) (λ s x Hin, Hf s x (list_elem_of_further _ _ _ Hin)))), (adds_iff _ _ _ d (Hf s x (list_elem_of_here _ _))), elem_of_app.
  naive_solver.
Qed.

Lemma merge_adds dst images origin sig originRef prev d :
  is_Some (mergeIntoStateWithSig dst images origin sig originRef prev !! d) ↔ is_Some (dst !! d) ∨ d ∈ dests images.
Proof.
  destruct (decide (d ∈ ti_Destination <$> images)) as [Hin|Hout].
  - destruct (mergeIntoState_in dst images origin sig originRef prev d Hin) as (img & _ & _ & ->). naive_solver.
  - rewrite (mergeIntoState_notin dst images origin sig originRef prev d Hout). naive_solver.
Qed.

Lemma tag_catalog_dom catalog images st d :
  is_Some (foldl (tag_catalog catalog) st images !! d) ↔ is_Some (st !! d).
Proof.
  revert st. induction images as [|ti images IH]; intros st; [done|]. cbn. rewrite IH. unfold tag_catalog.
  destruct (st !! ti_Destination ti) as [e|] eqn:E; [|done]. destruct (String.eqb _ _); [|done].
  destruct (decide (ti_Destination ti = d)) as [<-|Hne]; [rewrite lookup_insert_eq, E; naive_solver|by rewrite lookup_insert_ne].
Qed.

Section scratch.
Context `{Hash : HashJSON} (up : Upstream).

(** Every payload the channel resolves to passes the signature check. *)
Definition channel_verified (ch : ReleaseChannel) : Prop :=
  ∀ arch nodes, ResolveReleasePayloadNodes up ch arch = Some nodes → verifyReleaseNodes up ch nodes = nodes.

Lemma probe_spec ch archs byArch acc :
  channel_verified ch → (∀ a ns, byArch !! a = Some ns → ResolveReleasePayloadNodes up ch a = Some ns) →
  match probe_archs up ch archs byArch acc with
  | ProbeError => ∃ a, a ∈ archs ∧ ResolveReleasePayloadNodes up ch a = None
  | Rejected => False
  | Probed byArch' verified =>
    (∀ a ns, byArch' !! a = Some ns → ResolveReleasePayloadNodes up ch a = Some ns) ∧
    (verified = [] → acc = [] ∧ ∀ a, a ∈ archs → ResolveReleasePayloadNodes up ch a = Some [])
  end.
Proof.
  intros Hv. revert byArch acc. induction archs as [|a archs IH]; intros byArch acc Hby; cbn.
  { split; [done|]. intros ->. split; [done|]. by intros a ?%elem_of_nil. }
  destruct (ResolveReleasePayloadNodes up ch a) as [nodes|] eqn:Ea; [|exists a; split; [left|done]].
  rewrite (Hv a nodes Ea). destruct (bool_decide (nodes = []) && negb (bool_decide (nodes = []))) eqn:Eb; [by destruct (bool_decide (nodes = []))|].
  specialize (IH (<[a := nodes]> byArch) (acc ++ nodes)).
  assert (Hins : ∀ a0 ns, <[a:=nodes]> byArch !! a0 = Some ns → ResolveReleasePayloadNodes up ch a0 = Some ns).
  { intros a0 ns. rewrite lookup_insert_Some. intros [[<- <-]|[_ Hl]]; [done|by apply Hby]. }
  specialize (IH Hins). destruct (probe_archs up ch archs _ _) as [| |by' ver]; [|done|].
  - destruct IH as (a' & Ha' & E'). exists a'. split; [by right|done].
  - destruct IH as [IH1 IH2]. split; [done|]. intros E. destruct (IH2 E) as [[-> ->]%app_nil IHa]. split; [done|].
    intros a' [->|Ha']%elem_of_cons; [done|by apply IHa].
Qed.

Lemma collect_archs_agree p registry rel byArch first archs :
  (∀ a ns, byArch !! a = Some ns → ResolveReleasePayloadNodes up rel a = Some ns) →
  collect_archs up p registry rel byArch first archs = collect_archs up p registry rel ∅ first archs.
Proof.
  intros Hby. revert first. induction archs as [|a archs IH]; intros first; [done|]. cbn. rewrite lookup_empty, IH.
  destruct (byArch !! a) as [ns|] eqn:E; [|done]. by rewrite (Hby a ns E).
Qed.

Lemma collect_archs_none p registry rel first archs a :
  a ∈ archs → ResolveReleasePayloadNodes up rel a = None → collect_archs up p registry rel ∅ first archs = None.
Proof.
  revert first. induction archs as [|b archs IH]; intros first; [by intros ?%elem_of_nil|]. cbn. rewrite lookup_empty.
  intros [<-|Ha]%elem_of_cons E; [by rewrite E|]. destruct (ResolveReleasePayloadNodes up rel b); [|done]. cbn. by rewrite IH.
Qed.

Lemma collect_archs_nil p registry rel first archs :
  (∀ a, a ∈ archs → ResolveReleasePayloadNodes up rel a = Some []) → collect_archs up p registry rel ∅ first archs = Some [].
Proof.
  revert first. induction archs as [|b archs IH]; intros first Ha; [done|]. cbn. rewrite lookup_empty, (Ha b) by left. cbn.
  rewrite IH; [done|]. intros a Hin. apply Ha. by right.
Qed.

Lemma set_annotation_state key v s : ss_state (set_annotation key v s) = ss_state s.
Proof. unfold set_annotation. by destruct (String.eqb _ _). Qed.

Lemma channel_adds iset registry s ch :
  channel_verified ch →
  adds s (resolveReleaseChannel up iset registry ∅ true s ch)
    (dests (default [] (CollectReleasesForChannel up (mi_Platform (is_Mirror iset)) registry ch ∅))).
Proof.
  intros Hv. unfold resolveReleaseChannel. cbv zeta. set (p := mi_Platform (is_Mirror iset)).
  pose proof (probe_spec ch (ReleaseArchitectures p) ∅ [] Hv (λ a ns E, ltac:(rewrite lookup_empty in E; discriminate E))) as Hp.
  unfold CollectReleasesForChannel. destruct (probe_archs up ch _ ∅ []) as [| |byArch ver].
  - destruct Hp as (a & Ha & E). rewrite (collect_archs_none p registry ch true _ a Ha E). by apply adds_nothing.
  - done.
  - destruct Hp as [Hby Hnil]. destruct ver as [|n ver].
    + destruct (Hnil eq_refl) as [_ Ha]. rewrite (collect_archs_nil p registry ch true _ Ha). by apply adds_nothing.
    + cbn [negb andb]. rewrite (collect_archs_agree p registry ch byArch true _ Hby).
      destruct (collect_archs up p registry ch ∅ true _) as [images|]; cbn [default]; [|by apply adds_nothing].
      intros d. rewrite set_annotation_state. apply merge_adds.
Qed.

(** The digest of the catalog can be read, is signed where that is asked for,
    and names what the tag names. *)
Definition catalog_stable (op : Operator) : Prop :=
  ∃ digest, up_catalogDigest up (op_Catalog op) = Some digest ∧
    (op_SignatureVerification op = true → up_catalogSigned up op digest = true) ∧
    up_catalog up (default (op_Catalog op) (up_pin up (op_Catalog op) digest)) (op_Packages op) = up_catalog up (op_Catalog op) (op_Packages op).

Lemma operator_adds registry s op :
  catalog_stable op → adds s (resolveOperator up registry ∅ true s op) (dests (default [] (CollectOperatorEntry up registry op))).
Proof.
  intros (digest & Ed & Hs & Ec). unfold resolveOperator, CollectOperatorEntry. cbv zeta. rewrite Ed, Ec.
  assert (op_SignatureVerification op && negb (up_catalogSigned up op digest) = false) as ->.
  { destruct (op_SignatureVerification op); [|done]. by rewrite Hs. }
  cbn [negb andb]. destruct (up_catalog up (op_Catalog op) (op_Packages op)) as [images|]; cbn [mbind option_bind default]; [|by apply adds_nothing].
  intros d. rewrite set_annotation_state. cbn [ss_state with_state]. rewrite tag_catalog_dom, merge_adds.
  cbn [id]. rewrite !map_map. done.
Qed.

(** The destination of a chart that was resolved. *)
Definition chart_dest (registry : string) (rc : Repository * Chart) : list string :=
  match up_chart up (repo_URL (fst rc)) (snd rc) with
  | None => []
  | Some res => [ChartDestination registry (repo_Name (fst rc)) (ch_Name (snd rc)) (hr_Version res)]
  end.

Lemma chart_adds registry s rc :
  adds s (resolveHelmChart up registry ∅ s rc) (dests (helm_images up registry (fst rc) (snd rc)) ++ chart_dest registry rc).
Proof.
  destruct rc as [repo chart]. unfold resolveHelmChart, helm_images, chart_dest. cbn [fst snd].
  destruct (up_chart up (repo_URL repo) chart) as [res|]; [|by apply adds_nothing].
  intros d. cbn [ss_state with_state]. rewrite !merge_adds, elem_of_app, !map_map. cbn. naive_solver.
Qed.

Definition all_charts (m : Mirror) : list (Repository * Chart) := concat (map (λ repo, map (λ c, (repo, c)) (repo_Charts repo)) (mi_Helm m)).
Definition chart_dests (registry : string) (m : Mirror) : list string := concat (map (chart_dest registry) (all_charts m)).

Lemma resolveGraph_state now iset mt s : ss_state (resolveGraphImage up now iset mt true s) = ss_state s.
Proof. unfold resolveGraphImage. repeat case_match; done. Qed.

Lemma dests_concat {A} (f : A → list TargetImage) l d :
  d ∈ dests (concat (map f l)) ↔ d ∈ concat (map (λ x, dests (f x)) l).
Proof. by rewrite concat_map, map_map. Qed.

Lemma elem_of_concat_pairs {A} (f g : A → list string) l d :
  d ∈ concat (map (λ x, f x ++ g x) l) ↔ d ∈ concat (map f l) ∨ d ∈ concat (map g l).
Proof. induction l as [|x l IH]; cbn; [rewrite elem_of_nil; naive_solver|]. rewrite !elem_of_app, IH. naive_solver. Qed.

Lemma helm_dests registry m d :
  d ∈ concat (map (λ rc, dests (helm_images up registry (fst rc) (snd rc))) (all_charts m)) ↔ d ∈ dests (CollectHelm up m registry).
Proof.
  unfold CollectHelm, all_charts. induction (mi_Helm m) as [|repo l IH]; [done|]. cbn.
  rewrite map_app, concat_app, map_app, !elem_of_app, IH, map_map. cbn [fst snd]. by rewrite <- (dests_concat (helm_images up registry repo)).
Qed.

(** The images of a mirror, by origin. *)
Definition collected (m : Mirror) (registry : string) : list TargetImage :=
  CollectReleases up m registry ++ CollectOperators up m registry ++ CollectAdditional registry (mi_AdditionalImages m) None
  ++ CollectHelm up m registry.

Lemma sections_add now iset mt :
  is_Some (is_Annotations iset !! RecollectAnnotation) →
  (∀ ch, ch ∈ pf_Channels (mi_Platform (is_Mirror iset)) → channel_verified ch) →
  (∀ op, op ∈ mi_Operators (is_Mirror iset) → catalog_stable op) →
  ∀ d, is_Some (ss_state (resolve_sections up now iset mt ∅) !! d) ↔
    d ∈ dests (collected (is_Mirror iset) (mt_Registry mt)) ∨ d ∈ chart_dests (mt_Registry mt) (is_Mirror iset).
Proof.
  intros Hrec Hch Hop d. unfold resolve_sections. cbv zeta. rewrite bool_decide_true by done. rewrite resolveGraph_state.
  unfold resolveHelmCharts, resolveOperatorSection, resolveReleaseSection. set (registry := mt_Registry mt). set (m := is_Mirror iset) in *.
  rewrite (adds_iff _ _ _ d (adds_foldl _ _ _ _ (λ s rc _, chart_adds registry s rc))). cbn [ss_state with_state]. rewrite merge_adds.
  rewrite (adds_iff _ _ _ d (adds_foldl _ _ _ _ (λ s op Hin, operator_adds registry s op (Hop op Hin)))).
  rewrite (adds_iff _ _ _ d (adds_foldl _ _ _ _ (λ s ch Hin, channel_adds iset registry s ch (Hch ch Hin)))).
  cbn [ss_state]. rewrite map_filter_empty, lookup_empty, elem_of_concat_pairs. fold (all_charts m). rewrite helm_dests.
  unfold collected, chart_dests, CollectReleases, CollectOperators. rewrite !map_app, !elem_of_app, !dests_concat.
  assert (¬ is_Some (@None ImageEntry)) by (intros [? ?]; discriminate). tauto.
Qed.
End scratch.

(** ** Blocking *)

(** The name of a repository, without tag or digest. *)
Definition bare (b : string) : Prop := ∃ path, splitImageRef b = (path, "", "").

Lemma path_blocked source b :
  ImageBlocked source b = true → ImageNamePath source = ImageNamePath b.
Proof.
  unfold ImageBlocked, ImageNamePath. destruct (splitImageRef source) as [[p t] d], (splitImageRef b) as [[p' t'] d'].
  by destruct (String.eqb_spec p p').
Qed.

Lemma bare_blocked source b : bare b → ImageBlocked source b = bool_decide (ImageNamePath source = ImageNamePath b).
Proof.
  intros [path Eb]. unfold ImageBlocked, ImageNamePath. rewrite Eb. destruct (splitImageRef source) as [[p t] d].
  destruct (String.eqb_spec p path) as [->|Hne]; cbn; [by rewrite bool_decide_true|by rewrite bool_decide_false].
Qed.

Definition blocked_path (blocked : list string) (source : string) : bool :=
  bool_decide (ImageNamePath source ∈ (list_to_set (map ImageNamePath blocked) : gset string)).

Lemma blocked_path_spec blocked source : blocked_path blocked source = true ↔ ∃ b, b ∈ blocked ∧ ImageNamePath source = ImageNamePath b.
Proof.
  unfold blocked_path. rewrite bool_decide_eq_true, elem_of_list_to_set, elem_of_map. naive_solver.
Qed.

Lemma matches_spec source blocked : imageMatchesAnyBlocked source blocked = true ↔ ∃ b, b ∈ blocked ∧ ImageBlocked source b = true.
Proof. unfold imageMatchesAnyBlocked. rewrite existsb_elem. naive_solver. Qed.

Lemma matches_blocked source blocked : imageMatchesAnyBlocked source blocked = true → blocked_path blocked source = true.
Proof. intros (b & Hb & E)%matches_spec. apply blocked_path_spec. exists b. split; [done|]. by apply path_blocked. Qed.

Lemma bare_matches source blocked : Forall bare blocked → imageMatchesAnyBlocked source blocked = blocked_path blocked source.
Proof.
  intros Hb. apply eq_bool_prop_intro. split; intros H%Is_true_true; apply Is_true_true; [by apply matches_blocked|].
  apply blocked_path_spec in H as (b & Hin & E). apply matches_spec. exists b. split; [done|].
  rewrite bare_blocked; [by apply bool_decide_true|]. by eapply Forall_forall in Hb.
Qed.

(** What both lists say of an image. *)
Abbreviation entry_pair := (λ e, (mf_Source e, mf_Destination e)).
Abbreviation image_pair := (λ i, (ti_Source i, ti_Destination i)).

Lemma tagOrigin_pairs origin images : map entry_pair (tagOrigin origin images) = map image_pair images.
Proof. unfold tagOrigin. by rewrite map_map. Qed.

Lemma filter_pairs {A B C} (f : A → C) (g : B → C) (p : C → bool) (pa : A → bool) (pb : B → bool) la lb :
  (∀ a, pa a = p (f a)) → (∀ b, pb b = p (g b)) → map f la = map g lb → map f (List.filter pa la) = map g (List.filter pb lb).
Proof.
  intros Ha Hb. revert lb. induction la as [|a la IH]; intros [|b lb]; cbn; try done.
  intros [= E Hl]. rewrite Ha, Hb, E. destruct (p (g b)); cbn; [rewrite E; f_equal|]; by apply IH.
Qed.

Lemma sublist_map {A B} (f : A → B) l1 l2 : l1 `sublist_of` l2 → map f l1 `sublist_of` map f l2.
Proof. induction 1; cbn; by constructor. Qed.

Lemma filter_sublist_weaker {A} (p q : A → bool) l : (∀ x, p x = true → q x = true) → List.filter p l `sublist_of` List.filter q l.
Proof.
  intros Hpq. induction l as [|x l IH]; cbn; [constructor|]. specialize (Hpq x).
  destruct (p x), (q x); try (by constructor); try done. by specialize (Hpq eq_refl).
Qed.

Section manifest.
Context (up : Upstream) (m : Mirror) (registry : string).

(** The manifest before blocking. *)
Definition unblocked : list ManifestEntry :=
  tagOrigin OriginRelease (CollectReleases up m registry) ++ tagOrigin OriginOperator (CollectOperators up m registry)
  ++ tagOrigin OriginAdditional (CollectAdditional registry (mi_AdditionalImages m) None) ++ tagOrigin OriginHelm (CollectHelm up m registry).

Lemma unblocked_pairs : map entry_pair unblocked = map image_pair (collected up m registry).
Proof. unfold unblocked, collected. by rewrite !map_app, !tagOrigin_pairs. Qed.

Lemma manifest_images : mf_Images (BuildManifest up m registry) =
  if decide (mi_BlockedImages m = []) then unblocked
  else List.filter (λ e, negb (blocked_path (mi_BlockedImages m) (mf_Source e))) unblocked.
Proof. done. Qed.

Lemma target_images : CollectTargetImages up m registry =
  if decide (mi_BlockedImages m = []) then collected up m registry
  else List.filter (λ i, negb (imageMatchesAnyBlocked (ti_Source i) (mi_BlockedImages m))) (collected up m registry).
Proof. done. Qed.

Lemma blocked_pairs (p : string → bool) :
  map entry_pair (List.filter (λ e, p (mf_Source e)) unblocked) = map image_pair (List.filter (λ i, p (ti_Source i)) (collected up m registry)).
Proof. by apply (filter_pairs _ _ (λ c, p (fst c))); [..|apply unblocked_pairs]. Qed.
End manifest.

(** ** Resources *)

Lemma ToImageState_lookup es st d :
  foldl manifest_state st es !! d =
  match st !! d with
  | Some e => Some e
  | None => (λ e, mkImageEntry (mf_Source e) "Mirrored" "" 0 (mf_Origin e) "" "" "" false false None false "")
              <$> List.find (λ e, String.eqb (mf_Destination e) d) es
  end.
Proof.
  revert st. induction es as [|e es IH]; intros st; cbn; [by destruct (st !! d)|]. rewrite IH. unfold manifest_state.
  destruct (String.eqb_spec (mf_Destination e) d) as [<-|Hne].
  - destruct (st !! mf_Destination e) eqn:E; [by rewrite E|by rewrite lookup_insert_eq].
  - destruct (st !! mf_Destination e); [done|by rewrite lookup_insert_ne].
Qed.

Section documents.
Context `{Y : Marshal} (name namespace registry : string).

Definition slug_of (op : Operator) : string := CatalogSlug (op_Catalog op).

(** The two documents of an operator entry. *)
Definition op_docs (op : Operator) (cs cc : string) : Prop :=
  let target := cb_TargetRef (catalog_build registry op) in
  marshal (DocCatalogSource (name +:+ "-" +:+ slug_of op) namespace target (op_Catalog op) []) = Some cs ∧
  marshal (DocClusterCatalog (name +:+ "-" +:+ slug_of op) target) = Some cc.

Lemma render_catalog_spec out op out' :
  render_catalog name namespace registry out op = Some out' →
  ∃ cs cc, op_docs op cs cc ∧ out' = <[clustercatalog_key (slug_of op) := cc]> (<[catalogsource_key (slug_of op) := cs]> out).
Proof.
  unfold render_catalog, GenerateCatalogSource, GenerateClusterCatalog. cbn [ci_TargetImage ci_DisplayName].
  intros (cs & E1 & (cc & E2 & [= <-])%bind_Some)%bind_Some. by exists cs, cc.
Qed.

(** What the documents of a list of entries are, the last entry of a slug
    winning. *)
Definition rendered (ops : list Operator) (base out : gmap string string) : Prop :=
  (∀ op, op ∈ ops → ∃ op' cs cc, op' ∈ ops ∧ slug_of op' = slug_of op ∧ op_docs op' cs cc ∧
     out !! catalogsource_key (slug_of op) = Some cs ∧ out !! clustercatalog_key (slug_of op) = Some cc) ∧
  (∀ k, (∀ op, op ∈ ops → k ≠ catalogsource_key (slug_of op) ∧ k ≠ clustercatalog_key (slug_of op)) → out !! k = base !! k).

Lemma render_catalogs_spec ops base out : render_catalogs name namespace registry ops base = Some out → rendered ops base out.
Proof.
  revert base. induction ops as [|op ops IH]; intros base; cbn.
  { intros [= <-]. split; [by intros op ?%elem_of_nil|done]. }
  intros (base' & E & Hr)%bind_Some. apply render_catalog_spec in E as (cs & cc & Hd & ->). apply IH in Hr as [H1 H2]. split.
  - intros op0 Hin0. destruct (decide (slug_of op0 ∈ map slug_of ops)) as [Hs|Hs].
    + apply elem_of_map in Hs as (op1 & Hop1 & E1). destruct (H1 op1 Hop1) as (op' & cs' & cc' & Hin & Es & Hd' & L1 & L2).
      exists op', cs', cc'. rewrite E1. split_and!; [by right|congruence|done|done|done].
    + apply elem_of_cons in Hin0 as [->|Hin0]; [|destruct Hs; apply elem_of_map; by exists op0].
      exists op, cs, cc. split_and!; [left|done|done|..].
      * rewrite H2, lookup_insert_ne, lookup_insert_eq; [done|by intros ?%eq_sym%catalog_keys_ne|].
        intros op1 Hop1. split; [intros E%(inj catalogsource_key)|apply catalog_keys_ne]. destruct Hs. apply elem_of_map. by exists op1.
      * rewrite H2, lookup_insert_eq; [done|]. intros op1 Hop1. split; [by intros ?%eq_sym%catalog_keys_ne|].
        intros E%(inj clustercatalog_key). destruct Hs. apply elem_of_map. by exists op1.
  - intros k Hk. rewrite H2 by (intros op1 Hop1; apply Hk; by right). destruct (Hk op (list_elem_of_here _ _)) as [K1 K2].
    by rewrite !lookup_insert_ne by congruence.
Qed.
End documents.

(** * Theorems *)

(** C27: an export asks the same question as an ImageSet.  When every payload
    and catalog passes its signature check and no image is blocked, the
    destinations of the manifest and those of the chart archives are exactly
    the destinations the manager would queue when it resolves the same content
    from scratch; channels, catalogs and charts that cannot be resolved are
    left out by both. *)
Theorem export_matches_live `{HashJSON} up now iset mt :
  is_Some (is_Annotations iset !! RecollectAnnotation) → mi_BlockedImages (is_Mirror iset) = [] →
  (∀ ch, ch ∈ pf_Channels (mi_Platform (is_Mirror iset)) → channel_verified up ch) →
  (∀ op, op ∈ mi_Operators (is_Mirror iset) → catalog_stable up op) →
  ∀ d, is_Some (rr_state (resolveImageSet up now iset mt ∅) !! d) ↔
    d ∈ map mf_Destination (mf_Images (BuildManifest up (is_Mirror iset) (mt_Registry mt))) ∨
    d ∈ chart_dests up (mt_Registry mt) (is_Mirror iset).
Proof.
  intros Hrec Hb Hch Hop d. unfold resolveImageSet. cbv zeta. cbn [rr_state]. rewrite Hb. unfold filterBlockedImages.
  rewrite decide_True by done. rewrite (sections_add up now iset mt Hrec Hch Hop d).
  rewrite manifest_images, Hb, decide_True by done.
  assert (E : map mf_Destination (unblocked up (is_Mirror iset) (mt_Registry mt)) = dests (collected up (is_Mirror iset) (mt_Registry mt))).
  { rewrite <- (map_map entry_pair snd), unblocked_pairs. apply map_map. }
  by rewrite E.
Qed.

(** The manifest of an export never lists an image the collectors would not
    deliver, and lists them all, in order, when the blocked images are given by
    repository. *)
Theorem manifest_within_collection up m registry :
  map entry_pair (mf_Images (BuildManifest up m registry)) `sublist_of` map image_pair (CollectTargetImages up m registry) ∧
  (Forall bare (mi_BlockedImages m) →
   map entry_pair (mf_Images (BuildManifest up m registry)) = map image_pair (CollectTargetImages up m registry)).
Proof.
  rewrite manifest_images, target_images. destruct (decide (mi_BlockedImages m = [])) as [_|_].
  { by rewrite unblocked_pairs. }
  rewrite (blocked_pairs up m registry (λ s, negb (blocked_path (mi_BlockedImages m) s))). split.
  - apply sublist_map, filter_sublist_weaker. intros i Hi. apply negb_true_iff in Hi. apply negb_true_iff.
    destruct (imageMatchesAnyBlocked _ _) eqn:E; [|done]. apply matches_blocked in E. congruence.
  - intros Hb. f_equal. apply filter_ext. intros i. by rewrite (bare_matches _ _ Hb).
Qed.

(** The artifacts of an export fit together.  The mirror sets map exactly
    the repositories of the manifest, every operator entry has a CatalogSource
    and a ClusterCatalog that name an image the build spec says to build from a
    catalog with the same slug, and there are no other documents. *)
Theorem artifacts_consistent `{Marshal} name namespace m mf registry out :
  RenderResources name namespace m mf registry = Some out →
  (∃ l, marshal (DocIDMS name l) = out !! "idms.yaml" ∧ mirror_set_ok isDigestRef (ToImageState mf) l) ∧
  (∃ l, marshal (DocITMS name l) = out !! "itms.yaml" ∧ mirror_set_ok isTagRef (ToImageState mf) l) ∧
  (∀ op, op ∈ named_operators m → ∃ op' cs cc, catalog_build registry op' ∈ bs_Catalogs (BuildSpecFor m registry) ∧
     slug_of op' = slug_of op ∧ op_docs name namespace registry op' cs cc ∧
     out !! catalogsource_key (slug_of op) = Some cs ∧ out !! clustercatalog_key (slug_of op) = Some cc) ∧
  (∀ k, is_Some (out !! k) → k = "idms.yaml" ∨ k = "itms.yaml" ∨
     ∃ op, op ∈ named_operators m ∧ (k = catalogsource_key (slug_of op) ∨ k = clustercatalog_key (slug_of op))).
Proof.
  unfold RenderResources. cbv zeta. intros (idms & E1 & (itms & E2 & Hr)%bind_Some)%bind_Some.
  apply render_catalogs_spec in Hr as [H1 H2].
  assert (Hk : ∀ k, k = "idms.yaml" ∨ k = "itms.yaml" → ∀ op, op ∈ named_operators m → k ≠ catalogsource_key (slug_of op) ∧ k ≠ clustercatalog_key (slug_of op)).
  { intros k [->| ->] op _; split; discriminate. }
  split_and!.
  - eexists. split; [|apply mirror_list_ok]. rewrite H2 by (apply Hk; by left). exact E1.
  - eexists. split; [|apply mirror_list_ok]. rewrite H2 by (apply Hk; by right). exact E2.
  - intros op Hin. destruct (H1 op Hin) as (op' & cs & cc & Hin' & Es & Hd & L1 & L2). exists op', cs, cc. split; [|done].
    unfold BuildSpecFor. cbn [bs_Catalogs]. apply elem_of_map. by exists op'.
  - intros k Hs.
    destruct (decide (Exists (λ op, k = catalogsource_key (slug_of op) ∨ k = clustercatalog_key (slug_of op)) (named_operators m))) as [He|He].
    { apply Exists_exists in He as (op & Hin & He). right. right. by exists op. }
    rewrite H2 in Hs; [|intros op Hin; split; intros E; apply He, Exists_exists; exists op; (split; [done|by auto])].
    destruct Hs as [v [[<- _]|[_ [<- _]%lookup_singleton_Some]]%lookup_insert_Some]; auto.
Qed.

(** ** Examples *)

(** An upstream with one payload, one catalog with one image and one chart. *)
Definition ex_upstream (signed : bool) (catalog : option (list BundleImage)) : Upstream :=
  mkUpstream (λ _ _, Some [mkNode "4.16.1" "quay.io/rel@sha256:aa"]) (λ _, signed) (λ _ _, Some [("etcd", "quay.io/etcd@sha256:bb")])
    (λ _ _, Some []) (λ _, Some "sha256:cc") (λ _ _, true) (λ _ _, None) (λ _ _, catalog)
    (λ _ _, Some (mkHelmRes ["docker.io/web:1"] "1.2.0" "dd")) None (λ l, Join l ",") id (λ _, None) (λ _, "t").
Definition ex_mirror (blocked : list string) : Mirror :=
  mkMirror (mkPlatform true [ex_chan] ["amd64"] false) [ex_op [ex_pkg "p"]]
    [mkAdditionalImage "quay.io/tools/cli:v1" "" ""; mkAdditionalImage "quay.io/tools/cli:v2" "" ""]
    [mkRepository "https://charts" "repo" [mkChart "web" ""]] blocked false.
Definition ex_export_set : ImageSet := mkImageSet "is1" {[RecollectAnnotation := "now"]} 1 (ex_mirror []) (ex_status 1).
Definition ex_bundles_of : option (list BundleImage) := Some [mkBundleImage "quay.io/p@sha256:ee" "p.v1" true].

Lemma export_matches_live_witness :
  is_Some (rr_state (@resolveImageSet ex_hash (ex_upstream true ex_bundles_of) 0 ex_export_set ex_target ∅) !! "reg/p:sha256-ee") ∧
  length (mf_Images (BuildManifest (ex_upstream true ex_bundles_of) (ex_mirror []) "reg")) = 6.
Proof.
  split; [|vm_compute; reflexivity].
  apply (@export_matches_live ex_hash (ex_upstream true ex_bundles_of) 0 ex_export_set ex_target).
  - by eexists.
  - reflexivity.
  - intros ch _ arch nodes. unfold ResolveReleasePayloadNodes. cbn [up_nodes ex_upstream]. intros [= <-].
    unfold verifyReleaseNodes. destruct (rc_SkipSignatureVerification ch); reflexivity.
  - intros op _. exists "sha256:cc". split_and!; reflexivity.
  - left. vm_compute. do 2 right. left.
Defined.

Lemma manifest_within_collection_example :
  map entry_pair (mf_Images (BuildManifest (ex_upstream true None) (ex_mirror ["tools/cli"]) "reg"))
  = map image_pair (CollectTargetImages (ex_upstream true None) (ex_mirror ["tools/cli"]) "reg").
Proof. apply manifest_within_collection. repeat constructor. by eexists. Qed.

Definition ex_text : Marshal := λ doc,
  Some (match doc with
        | DocIDMS _ l | DocITMS _ l => Join (map fst l) ","
        | DocCatalogSource name _ image _ _ | DocClusterCatalog name image => name +:+ "=" +:+ image
        | _ => ""
        end).

Definition ex_rendered : option (gmap string string) :=
  @RenderResources ex_text "exp" "ns" (ex_mirror []) (BuildManifest (ex_upstream true ex_bundles_of) (ex_mirror []) "reg") "reg".

Lemma artifacts_consistent_witness :
  default ∅ ex_rendered !! "catalogsource-cat-v1.yaml" = Some "exp-cat-v1=reg/cat:v1" ∧
  is_Some (default ∅ ex_rendered !! "clustercatalog-cat-v1.yaml").
Proof.
  assert (E : ex_rendered = Some (default ∅ ex_rendered)).
  { assert (Hs : match ex_rendered with Some _ => True | None => False end) by (vm_compute; exact I). by destruct ex_rendered. }
  destruct (@artifacts_consistent ex_text _ _ _ _ _ _ E) as (_ & _ & H & _).
  split; [vm_compute; reflexivity|].
  destruct (H (ex_op [ex_pkg "p"])) as (op' & cs & cc & _ & _ & _ & _ & L2); [left|]. exists cc. exact L2.
Defined.

(** ** Behaviour that deviates from the intent *)

(** A blocked image given with its tag blocks every tag of its repository in an
    export, and only that tag in a mirror. *)
Lemma blocked_tag_blocks_repository :
  let m := ex_mirror ["tools/cli:v1"] in
  map mf_Source (mf_Images (BuildManifest (ex_upstream true None) m "reg")) = ["quay.io/rel@sha256:aa"; "quay.io/etcd@sha256:bb"; "docker.io/web:1"] ∧
  map ti_Source (CollectTargetImages (ex_upstream true None) m "reg")
  = ["quay.io/rel@sha256:aa"; "quay.io/etcd@sha256:bb"; "quay.io/tools/cli:v2"; "docker.io/web:1"].
Proof. split; vm_compute; reflexivity. Qed.

(** A release whose signature cannot be verified is exported; the manager would
    not mirror it. *)
Lemma unsigned_release_exported :
  let up := ex_upstream false None in
  "reg/openshift/release-images:4.16.1-x86_64" ∈ map mf_Destination (mf_Images (BuildManifest up (ex_mirror []) "reg")) ∧
  rr_state (@resolveImageSet ex_hash up 0 ex_export_set ex_target ∅) !! "reg/openshift/release-images:4.16.1-x86_64" = None.
Proof. split; [vm_compute; left|vm_compute; reflexivity]. Qed.

(** A catalog that cannot be resolved leaves no trace in the manifest, while the
    resources and the build spec still refer to it. *)
Lemma unresolved_catalog_exported :
  let mf := BuildManifest (ex_upstream true None) (ex_mirror []) "reg" in
  List.filter (λ e, String.eqb (mf_Origin e) OriginOperator) (mf_Images mf) = [] ∧
  map cb_TargetRef (bs_Catalogs (BuildSpecFor (ex_mirror []) "reg")) = ["reg/cat:v1"].
Proof. split; vm_compute; reflexivity. Qed.
