(* ===== verification/Reconcile.v ===== *)
(** * The manager's reconcile loop

    [reconcile] of pkg/mirror/manager/manager.go in its phases, with the
    loading and flushing of the partitioned state (manager_resolve.go
    loadPartitionedState, manager.go flushPartitionedState).  Where the code
    releases the lock, [gap] stands for the critical sections that run
    meanwhile.  Starting a worker pod is a parameter: [start k] is the name
    of the pod created for the k-th batch, [None] an error of the API server.
    Phase H writes the ConfigMap of Resources. *)
From S2P Require Import Prelude Effects GoStrings ImageRef ImageState Owners ManagerState Api Resolve Status Resources.

(** ** Phase A: loading *)

Record loaded := mkLoaded {
  ld_state : gmap string ImageEntry;
  ld_owners : gmap string (list string);
  ld_meta : gmap string (gmap string specMeta);
  ld_digests : gmap string (gmap string string);
}.

Definition load_entry (isName dest : string) (oe : option ImageEntry) (l : loaded) : loaded :=
  match oe with
  | None => l
  | Some e =>
    mkLoaded (<[dest := mergeLoadedEntry (ld_state l !! dest) e]> (ld_state l))
      (addOwner dest isName (ld_owners l)) (setOwnerMeta dest isName (specMetaOf e) (ld_meta l)) (ld_digests l)
  end.

Definition load_imageset (mt : MirrorTarget) (l : loaded) (iset : ImageSet) : API loaded :=
  if negb (containsString (mt_ImageSets mt) (is_Name iset)) then mret l
  else
    r ← attempt (LoadWithCatalogDigests (is_Name iset));
    match r with
    | inl _ => mret l
    | inr (isState, digests) =>
      let digests := if bool_decide (digests = ∅) && negb (bool_decide (isState = ∅))
                     then catalogDigestsOf (is_Annotations iset) else digests in
      let l := mkLoaded (ld_state l) (ld_owners l) (ld_meta l) (<[is_Name iset := digests]> (ld_digests l)) in
      mret (map_fold (load_entry (is_Name iset)) l isState)
    end.

Fixpoint load_all (mt : MirrorTarget) (l : loaded) (items : list ImageSet) : API loaded :=
  match items with
  | [] => mret l
  | iset :: items => l ← load_imageset mt l iset; load_all mt l items
  end.

Definition loadPartitionedState (mt : MirrorTarget) (items : list ImageSet)
    (order : gmap string (gmap string ImageEntry) → list string) (m : MirrorManager) : API MirrorManager :=
  _ ← attempt (MigrateConsolidatedToPerImageSet (mt_Name mt) (Some (mt_Name mt)) order);
  l ← load_all mt (mkLoaded ∅ ∅ ∅ ∅) items;
  mret (set_catalogDigests (ld_digests l) (set_ownerMeta (ld_meta l)
         (set_owners (ld_owners l) (set_imageState (ld_state l) m)))).

(** ** Phase B: resolving *)

Section phases.
Context `{Hash : HashJSON}.

Record resolved_sets := mkResolvedSets { rs_just : gmap string bool; rs_error : gmap string bool }.

(** [justResolvedISes[name] && !hadErrorISes[name]] *)
Definition just_resolved (rs : resolved_sets) (name : string) : bool :=
  default false (rs_just rs !! name) && negb (default false (rs_error rs !! name)).

(** Integrating the result of one resolve, under the lock again. *)
Definition integrate_resolve (iset : ImageSet) (isViewEmpty recollect : bool) (r : ResolveResult) (m : MirrorManager)
    : MirrorManager :=
  let newPerISState := mergeWorkerUpdates (rr_state r) (imageState m) in
  let m := set_statusDirty true m in
  let m := if rr_stateChanged r || isViewEmpty then
      let '(st, ows, _) := mergeResolvedIntoConsolidated (imageState m) (owners m) newPerISState (is_Name iset) in
      set_stateDirty true
        (set_ownerMeta (recordOwnerMeta (is_Name iset) newPerISState (ownerMeta m)) (set_owners ows (set_imageState st m)))
    else m in
  let m := if recollect then
      let '(m', changed) := resetFailedForRecollectLocked (is_Name iset) m in
      if changed then set_statusDirty true (set_stateDirty true m') else m'
    else m in
  let '(m, changed) := setCatalogDigestsLocked (is_Name iset) (catalogDigestsOf (rr_annotations r)) m in
  if changed then set_stateDirty true m else m.

(** One ImageSet; [gap1] runs while the force-resync annotation is cleared,
    [gap2] during the resolve. *)
Definition phaseB_one (up : string → Upstream) (now : Z) (gap1 gap2 : string → MirrorManager → MirrorManager)
    (mt : MirrorTarget) (acc : MirrorManager * resolved_sets) (iset : ImageSet) : MirrorManager * resolved_sets :=
  let '(m, rs) := acc in
  let name := is_Name iset in
  if negb (containsString (mt_ImageSets mt) name) then acc
  else
    let m := if bool_decide (is_Some (is_Annotations iset !! ForceResyncAnnotation)) then
        let '(m', changed) := resetImageSetToPendingLocked name m in
        gap1 name (if changed then set_statusDirty true (set_stateDirty true m') else m')
      else m in
    let isView := filterByImageSet (imageState m) (owners m) (ownerMeta m) name in
    if negb (shouldResolve now iset mt isView) then (m, rs)
    else
      let r := resolveImageSet (up name) now iset mt isView in
      let m := gap2 name m in
      (integrate_resolve iset (bool_decide (isView = ∅))
         (bool_decide (is_Some (is_Annotations iset !! RecollectAnnotation))) r m,
       mkResolvedSets (<[name := true]> (rs_just rs)) (<[name := rr_hadError r]> (rs_error rs))).

Definition phaseB (up : string → Upstream) (now : Z) (gap1 gap2 : string → MirrorManager → MirrorManager)
    (mt : MirrorTarget) (items : list ImageSet) (m : MirrorManager) : MirrorManager * resolved_sets :=
  foldl (phaseB_one up now gap1 gap2 mt) (m, mkResolvedSets ∅ ∅) items.

(** ** Phase C: drift check *)

Definition checkExistInterval (mt : MirrorTarget) : Z :=
  match mt_CheckExistInterval mt with
  | Some d => if (10 * minute <=? d)%Z then d else (6 * hour)%Z
  | None => (6 * hour)%Z
  end.

(** [ks] is the order in which the sweep visits the state; the result is the
    sweep to run in the background. *)
Definition phaseC (now : Z) (mt : MirrorTarget) (ks : list string) (m : MirrorManager)
    : MirrorManager * option (list string) :=
  let due := match lastDriftCheck m with None => true | Some t => (checkExistInterval mt <? now - t)%Z end in
  if due && negb (driftSweepRunning m)
  then startDriftSweepLocked ks (set_lastDriftCheck (Some now) m)
  else (m, None).

(** ** Phase D: pending images and orphans *)

Record BatchItem := mkBatchItem { b_Source : string; b_Dest : string }.

Record sweep := mkSweep {
  sw_m : MirrorManager;
  sw_pending : list BatchItem;
  sw_bundles : list BatchItem;
  sw_orphans : gmap string ImageEntry;
}.

(** The branch for a Failed entry. *)
Definition failed_entry (now : Z) (m : MirrorManager) (dest : string) (entry : ImageEntry) : MirrorManager :=
  if (RetryCount entry <? effectiveMaxRetries m)%Z then
    if match NextRetryAt entry with Some t => (now <? t)%Z | None => false end then m
    else set_stateDirty true (put_entry dest (set_NextRetryAt None (set_State statePending entry)) m)
  else if negb (PermanentlyFailed entry) then set_stateDirty true (put_entry dest (set_PermanentlyFailed true entry) m)
  else m.

Definition phaseD_one (now : Z) (s : sweep) (dest : string) : sweep :=
  let m := sw_m s in
  let with_m m := mkSweep m (sw_pending s) (sw_bundles s) (sw_orphans s) in
  match imageState m !! dest with
  | None => s
  | Some entry =>
    if bool_decide (owners_of (owners m) dest = []) then
      mkSweep (set_stateDirty true (set_ownerMeta (delete dest (ownerMeta m)) (set_owners (delete dest (owners m))
                (set_imageState (delete dest (imageState m)) m))))
        (sw_pending s) (sw_bundles s) (<[dest := entry]> (sw_orphans s))
    else if String.eqb (State entry) stateMirrored then with_m (set_mirrored (<[dest := true]> (mirrored m)) m)
    else if mirrored_flag m dest then with_m (set_stateDirty true (put_entry dest (set_State stateMirrored entry) m))
    else if String.eqb (State entry) stateFailed then with_m (failed_entry now m dest entry)
    else if negb (String.eqb (State entry) statePending) then s
    else if in_flight m dest then s
    else
      let item := mkBatchItem (Source entry) dest in
      if IsBundleImage entry then mkSweep m (sw_pending s) (sw_bundles s ++ [item]) (sw_orphans s)
      else mkSweep m (sw_pending s ++ [item]) (sw_bundles s) (sw_orphans s)
  end.

Definition phaseD (now : Z) (ks : list string) (m : MirrorManager) : sweep :=
  foldl (phaseD_one now) (mkSweep m [] [] ∅) ks.

(** Bundle images first. *)
Definition sw_batchable (s : sweep) : list BatchItem := sw_bundles s ++ sw_pending s.

Definition appendOrphans (mt : MirrorTarget) (newOrphans : gmap string ImageEntry) : API unit :=
  let cmName := OrphansConfigMapName (mt_Name mt) in
  existing ← LoadByConfigMapName cmName;
  SaveRaw cmName (all_set newOrphans ∪ existing) (Some (mt_Name mt)).

(** A failure is only logged. *)
Definition persistOrphans (mt : MirrorTarget) (s : sweep) : API unit :=
  if decide (sw_orphans s = ∅) then mret tt
  else _ ← attempt (appendOrphans mt (sw_orphans s)); mret tt.

(** ** Phase E: dispatch *)

Definition effectiveConcurrency (mt : MirrorTarget) : Z := if (mt_Concurrency mt <=? 0)%Z then 1 else mt_Concurrency mt.
Definition effectiveBatchSize (mt : MirrorTarget) : Z := if (mt_BatchSize mt <=? 0)%Z then 50 else mt_BatchSize mt.

Definition track (podName : string) (m : MirrorManager) (item : BatchItem) : MirrorManager :=
  set_inProgress (<[b_Dest item := podName]> (inProgress m)) m.

(** The loop; [k] counts the calls of [startWorkerBatch], and [fuel] bounds
    the number of batches (the length of the list is enough). *)
Fixpoint dispatch (start : nat → option string) (concurrency : Z) (batchSize : nat) (fuel k : nat)
    (pending : list BatchItem) (activePods : gset string) (m : MirrorManager)
    : MirrorManager * list (string * list BatchItem) :=
  match fuel with
  | O => (m, [])
  | S fuel =>
    match pending with
    | [] => (m, [])
    | _ =>
      if (Z.of_nat (size activePods) <? concurrency)%Z then
        let batch := take batchSize pending in
        let rest := drop batchSize pending in
        match start k with
        | None => dispatch start concurrency batchSize fuel (S k) rest activePods m
        | Some podName =>
          let m := foldl (track podName) m batch in
          let '(m, started) := dispatch start concurrency batchSize fuel (S k) rest ({[podName]} ∪ activePods) m in
          (m, (podName, batch) :: started)
        end
      else (m, [])
    end
  end.

Definition activePods (m : MirrorManager) : gset string := map_img (inProgress m).

Definition phaseE (start : nat → option string) (mt : MirrorTarget) (pending : list BatchItem) (m : MirrorManager)
    : MirrorManager * list (string * list BatchItem) :=
  dispatch start (effectiveConcurrency mt) (Z.to_nat (effectiveBatchSize mt)) (length pending) 0 pending
    (activePods m) m.

(** ** Phase F: flush *)

(** The per-ImageSet states and the index that are written. *)
Definition flush_state (m : MirrorManager) (isName : string) : gmap string ImageEntry :=
  map_imap (λ dest entry,
    if containsString (owners_of (owners m) dest) isName then Some (ownerView (ownerMeta m) dest isName entry)
    else None) (imageState m).

Definition flush_index (m : MirrorManager) : gmap string (list string) :=
  map_imap (λ dest _,
    let names := owners_of (owners m) dest in if bool_decide (1 < length names) then Some names else None) (imageState m).

Definition countedLocked (mt : MirrorTarget) (m : MirrorManager) : gmap string ImageEntry :=
  filter (λ kv, existsb (containsString (mt_ImageSets mt)) (owners_of (owners m) (fst kv)) = true) (imageState m).

(** [true]: the summary was written. *)
Definition saveSummary (mt : MirrorTarget) (m : MirrorManager) : API bool :=
  let c := Counts (countedLocked mt m) in
  r ← attempt (SaveSummary (mt_Name mt) (mkSummary (sort_strings (mt_ImageSets mt)) c) (Some (mt_Name mt)));
  mret (match r with inr _ => true | inl _ => false end).

(** Saves every ImageSet even when one fails; [true]: all succeeded. *)
Fixpoint flush_all (mt : MirrorTarget) (m : MirrorManager) (names : list string) : API bool :=
  match names with
  | [] => mret true
  | n :: names =>
    r ← attempt (SaveWithCatalogDigests n (flush_state m n) (default ∅ (catalogDigests m !! n)) (Some (mt_Name mt)));
    ok ← flush_all mt m names;
    mret (match r with inr _ => ok | inl _ => false end)
  end.

(** [names] is the order in which the loop visits the ImageSets of the target. *)
Definition flushPartitionedState (mt : MirrorTarget) (names : list string) (m : MirrorManager)
    : API (MirrorManager * bool) :=
  ok1 ← flush_all mt m names;
  r ← attempt (SaveIndex (mt_Name mt) (flush_index m) (Some (mt_Name mt)));
  ok3 ← saveSummary mt m;
  mret (if (ok3 : bool) then set_summaryWritten true m else m,
        ok1 && (match r with inr _ => true | inl _ => false end) && ok3).

Definition phaseF (ev : nat → Env) (mt : MirrorTarget) (names : list string) (m : MirrorManager) : API MirrorManager :=
  let m := drainStatusQueueLocked ev m in
  if stateDirty m then
    r ← flushPartitionedState mt names m;
    let '(m, ok) := r in mret (if (ok : bool) then set_stateDirty false m else m)
  else if negb (summaryWritten m) then
    ok ← saveSummary mt m; mret (if (ok : bool) then set_summaryWritten true m else m)
  else mret m.

(** ** The tick *)

(** Everything a tick reads from outside. *)
Record Tick := mkTick {
  t_ev1 : nat → Env; t_ev2 : nat → Env; t_ev3 : nat → Env;
  t_now : Z;
  t_pods : option (list Pod);
  t_target : option MirrorTarget;
  t_items : option (list ImageSet);
  t_order : gmap string (gmap string ImageEntry) → list string;
  t_up : string → Upstream;
  t_gap0 : MirrorManager → MirrorManager; (* while the pods are listed, and after *)
  t_gap0' : MirrorManager → MirrorManager;
  t_gap1 : string → MirrorManager → MirrorManager;
  t_gap2 : string → MirrorManager → MirrorManager;
  t_keys : gmap string ImageEntry → list string;
  t_start : nat → option string;
  t_names : list string;
  t_get : string → nat → option ImageSet;
  t_put : string → nat → update_result;
  t_namespace : string;
  t_cats : gset string → list string; (* the order in which Phase H visits the catalogs *)
}.

(** What a tick does besides changing the manager: the destinations it has
    checked for drift, the batches it starts, its status writes. *)
Record TickResult := mkTickResult {
  tr_drift : option (list string); tr_started : list (string * list BatchItem); tr_statuses : list (string * option ImageSetStatus);
}.

(** [None] is the error of a tick that could not read its objects.  An error of
    Phase H is only logged. *)
Definition reconcile `{Y : Marshal} (t : Tick) (m : MirrorManager)
    : API (MirrorManager * option TickResult) :=
  let m := fst (cleanupFinishedWorkers (t_ev1 t) (t_gap0 t) (t_pods t) m) in
  let m := t_gap0' t m in
  let m := drainStatusQueueLocked (t_ev2 t) m in
  match t_target t, t_items t with
  | Some mt, Some items =>
    let m := set_maxRetries (mt_MaxRetries mt) m in
    m ← (if decide (imageState m = ∅) then loadPartitionedState mt items (t_order t) m else mret m);
    let '(m, dropped) := dropRemovedImageSetsLocked (mt_ImageSets mt) m in
    let m := if dropped then set_stateDirty true m else m in
    let '(m, rs) := phaseB (t_up t) (t_now t) (t_gap1 t) (t_gap2 t) mt items m in
    let '(m, drift) := phaseC (t_now t) mt (t_keys t (imageState m)) m in
    let s := phaseD (t_now t) (t_keys t (imageState m)) m in
    _ ← persistOrphans mt s;
    let '(m, started) := phaseE (t_start t) mt (sw_batchable s) (sw_m s) in
    m ← phaseF (t_ev3 t) mt (t_names t) m;
    let '(m, statuses) := phaseG (t_get t) (t_put t) (t_now t) mt items (just_resolved rs) m in
    _ ← ignore (saveGlobalResources mt items (t_namespace t) (t_cats t (sourceCatalogs m)) m);
    mret (m, Some (mkTickResult drift started statuses))
  | _, _ => mret (m, None)
  end.
End phases.

(** * Lemmas *)

(** ** Phase D *)

Definition of_dest (d : string) (l : list BatchItem) : list BatchItem :=
  List.filter (λ b, String.eqb (b_Dest b) d) l.

(** What the sweep holds about one destination, and what it only reads. *)
Record dview := mkDview {
  dv_entry : option ImageEntry; dv_owners : option (list string); dv_flag : option bool;
  dv_orphan : option ImageEntry; dv_pending : list BatchItem; dv_bundles : list BatchItem;
  dv_inProgress : gmap string string; dv_max : Z;
}.

Definition view_of (d : string) (s : sweep) : dview :=
  mkDview (imageState (sw_m s) !! d) (owners (sw_m s) !! d) (mirrored (sw_m s) !! d) (sw_orphans s !! d)
    (of_dest d (sw_pending s)) (of_dest d (sw_bundles s)) (inProgress (sw_m s)) (effectiveMaxRetries (sw_m s)).

(** The entry a failed one becomes. *)
Definition failed_next (now max : Z) (e : ImageEntry) : ImageEntry :=
  if (RetryCount e <? max)%Z then
    if match NextRetryAt e with Some t => (now <? t)%Z | None => false end then e
    else set_NextRetryAt None (set_State statePending e)
  else if negb (PermanentlyFailed e) then set_PermanentlyFailed true e else e.

Definition with_entry (v : dview) (e : ImageEntry) : dview :=
  mkDview (Some e) (dv_owners v) (dv_flag v) (dv_orphan v) (dv_pending v) (dv_bundles v) (dv_inProgress v) (dv_max v).

Definition swept (now : Z) (d : string) (v : dview) : dview :=
  match dv_entry v with
  | None => v
  | Some e =>
    if bool_decide (default [] (dv_owners v) = []) then
      mkDview None None (dv_flag v) (Some e) (dv_pending v) (dv_bundles v) (dv_inProgress v) (dv_max v)
    else if String.eqb (State e) stateMirrored then
      mkDview (Some e) (dv_owners v) (Some true) (dv_orphan v) (dv_pending v) (dv_bundles v) (dv_inProgress v) (dv_max v)
    else if default false (dv_flag v) then with_entry v (set_State stateMirrored e)
    else if String.eqb (State e) stateFailed then with_entry v (failed_next now (dv_max v) e)
    else if negb (String.eqb (State e) statePending) then v
    else if negb (String.eqb (default "" (dv_inProgress v !! d)) "") then v
    else
      let item := mkBatchItem (Source e) d in
      if IsBundleImage e
      then mkDview (Some e) (dv_owners v) (dv_flag v) (dv_orphan v) (dv_pending v) (dv_bundles v ++ [item]) (dv_inProgress v) (dv_max v)
      else mkDview (Some e) (dv_owners v) (dv_flag v) (dv_orphan v) (dv_pending v ++ [item]) (dv_bundles v) (dv_inProgress v) (dv_max v)
  end.

Lemma of_dest_app d l1 l2 : of_dest d (l1 ++ l2) = of_dest d l1 ++ of_dest d l2.
Proof. unfold of_dest. by rewrite List.filter_app. Qed.
Lemma of_dest_eq d src : of_dest d [mkBatchItem src d] = [mkBatchItem src d].
Proof. unfold of_dest. cbn. by rewrite String.eqb_refl. Qed.
Lemma of_dest_ne d d' src : d ≠ d' → of_dest d [mkBatchItem src d'] = [].
Proof. intros. unfold of_dest. cbn. by destruct (String.eqb_spec d' d). Qed.

#[local] Arguments of_dest : simpl never.
#[local] Arguments effectiveMaxRetries : simpl never.

Lemma failed_entry_spec now m d e :
  imageState m !! d = Some e →
  imageState (failed_entry now m d e) = <[d := failed_next now (effectiveMaxRetries m) e]> (imageState m) ∧
  owners (failed_entry now m d e) = owners m ∧ mirrored (failed_entry now m d e) = mirrored m ∧
  inProgress (failed_entry now m d e) = inProgress m ∧ maxRetries (failed_entry now m d e) = maxRetries m.
Proof.
  intros He. unfold failed_entry, failed_next.
  destruct (RetryCount e <? _)%Z; [destruct (match NextRetryAt e with Some _ => _ | None => _ end)|destruct (negb _)];
    (split; [|done]); msimpl; try done; symmetry; by apply insert_id.
Qed.

Lemma effectiveMax_same m m' : maxRetries m' = maxRetries m → effectiveMaxRetries m' = effectiveMaxRetries m.
Proof. unfold effectiveMaxRetries. by intros ->. Qed.

Lemma phaseD_one_same now s d : view_of d (phaseD_one now s d) = swept now d (view_of d s).
Proof.
  unfold phaseD_one, swept, view_of. cbn [dv_entry dv_owners dv_flag dv_inProgress dv_max dv_orphan dv_pending dv_bundles].
  destruct (imageState (sw_m s) !! d) as [e|] eqn:E; [|by rewrite E].
  unfold owners_of. destruct (bool_decide (default [] _ = [])).
  { cbn. by rewrite !lookup_delete_eq, lookup_insert_eq. }
  destruct (String.eqb (State e) stateMirrored); [cbn; by rewrite E, lookup_insert_eq|].
  unfold mirrored_flag. destruct (default false (mirrored (sw_m s) !! d)); [cbn; by rewrite lookup_insert_eq|].
  destruct (String.eqb (State e) stateFailed).
  { cbn. destruct (failed_entry_spec now (sw_m s) d e E) as (-> & -> & -> & -> & E5). rewrite (effectiveMax_same _ _ E5).
    by rewrite lookup_insert_eq. }
  destruct (negb (String.eqb (State e) statePending)); [by rewrite E|].
  unfold in_flight. destruct (negb (String.eqb (default "" _) "")); [by rewrite E|].
  destruct (IsBundleImage e); cbn; by rewrite E, of_dest_app, of_dest_eq.
Qed.

Lemma phaseD_one_other now s d d' : d' ≠ d → view_of d' (phaseD_one now s d) = view_of d' s.
Proof.
  intros Hne. unfold phaseD_one, view_of.
  destruct (imageState (sw_m s) !! d) as [e|] eqn:E; [|done].
  destruct (bool_decide (owners_of _ _ = [])).
  { cbn. by rewrite !lookup_delete_ne, lookup_insert_ne by done. }
  destruct (String.eqb (State e) stateMirrored); [cbn; by rewrite lookup_insert_ne by done|].
  destruct (mirrored_flag _ _); [cbn; by rewrite lookup_insert_ne by done|].
  destruct (String.eqb (State e) stateFailed).
  { cbn. destruct (failed_entry_spec now (sw_m s) d e E) as (-> & -> & -> & -> & E5). rewrite (effectiveMax_same _ _ E5).
    by rewrite lookup_insert_ne by done. }
  destruct (negb (String.eqb (State e) statePending)); [done|].
  destruct (in_flight _ _); [done|].
  destruct (IsBundleImage e); cbn; by rewrite of_dest_app, of_dest_ne, app_nil_r by done.
Qed.

Lemma phaseD_view now ks m d :
  range_order (imageState m) ks → view_of d (phaseD now ks m) = swept now d (view_of d (mkSweep m [] [] ∅)).
Proof.
  intros [Hnd Hin]. unfold phaseD.
  rewrite (foldl_pointwise view_of (phaseD_one now) (swept now));
    [|done|intros; apply phaseD_one_same|intros; by apply phaseD_one_other].
  case_decide as Hd; [done|]. rewrite Hin in Hd. apply eq_None_not_Some in Hd.
  unfold swept. cbn. by rewrite Hd.
Qed.

Lemma elem_of_of_dest b l : b ∈ l ↔ b ∈ of_dest (b_Dest b) l.
Proof. unfold of_dest. rewrite elem_of_filter_bool, String.eqb_refl. naive_solver. Qed.

(** An item per destination, at most. *)
Lemma NoDup_dests l : (∀ d, length (of_dest d l) ≤ 1) → NoDup (b_Dest <$> l).
Proof.
  induction l as [|b l IH]; intros H; cbn; constructor.
  - intros Hin. apply list_elem_of_fmap in Hin as (b' & Hd & Hb'). specialize (H (b_Dest b)).
    unfold of_dest in H. cbn in H. rewrite String.eqb_refl in H. cbn in H.
    assert (b' ∈ of_dest (b_Dest b) l) as Hx.
    { unfold of_dest. rewrite elem_of_filter_bool. split; [|done]. rewrite Hd. apply String.eqb_refl. }
    unfold of_dest in Hx. destruct (List.filter _ l); [by apply elem_of_nil in Hx|cbn in H; lia].
  - apply IH. intros d. specialize (H d). unfold of_dest in *. cbn in H.
    destruct (String.eqb (b_Dest b) d); cbn in H; lia.
Qed.

(** The entries Phase D hands to the dispatcher. *)
Definition dispatchable (m : MirrorManager) (d : string) (e : ImageEntry) : Prop :=
  owners_of (owners m) d ≠ [] ∧ State e = statePending ∧ mirrored_flag m d = false ∧ in_flight m d = false.

Lemma phaseD_items now ks m d :
  range_order (imageState m) ks →
  let s := phaseD now ks m in
  (of_dest d (sw_bundles s) = [] ∧ of_dest d (sw_pending s) = [] ∧
    (∀ e, imageState m !! d = Some e → ¬ dispatchable m d e)) ∨
  (∃ e, imageState m !! d = Some e ∧ dispatchable m d e ∧
    (of_dest d (sw_bundles s), of_dest d (sw_pending s)) =
      if IsBundleImage e then ([mkBatchItem (Source e) d], []) else ([], [mkBatchItem (Source e) d])).
Proof.
  intros Hr s. pose proof (phaseD_view now ks m d Hr) as Hv. fold s in Hv. clearbody s.
  unfold swept, view_of in Hv. cbn in Hv. unfold dispatchable, mirrored_flag, in_flight.
  destruct (imageState m !! d) as [e|] eqn:E; [|injection Hv; intros; left; by split_and!].
  fold (owners_of (owners m) d) in Hv. unfold with_entry in Hv. cbn in Hv.
  destruct (bool_decide (owners_of (owners m) d = [])) eqn:Eo;
    [apply bool_decide_eq_true_1 in Eo; left; injection Hv; intros; split_and!; [done..|naive_solver]|].
  apply bool_decide_eq_false_1 in Eo.
  destruct (String.eqb_spec (State e) stateMirrored) as [Es|Es];
    [left; injection Hv; intros; split_and!; [done..|]; intros ? [= <-]; rewrite Es; naive_solver|].
  destruct (default false (mirrored m !! d));
    [left; injection Hv; intros; split_and!; [done..|naive_solver]|].
  destruct (String.eqb_spec (State e) stateFailed) as [Es2|Es2];
    [left; injection Hv; intros; split_and!; [done..|]; intros ? [= <-]; rewrite Es2; naive_solver|].
  destruct (String.eqb_spec (State e) statePending) as [Es3|Es3]; cbn in Hv;
    [|left; injection Hv; intros; split_and!; [done..|naive_solver]].
  destruct (negb (String.eqb (default "" (inProgress m !! d)) ""));
    [left; injection Hv; intros; split_and!; [done..|naive_solver]|].
  right. exists e. split_and!; try done.
  pose proof (f_equal dv_pending Hv) as Hp. pose proof (f_equal dv_bundles Hv) as Hb.
  destruct (IsBundleImage e); cbn in Hp, Hb; by rewrite Hp, Hb.
Qed.

(** ** Phase E *)

Lemma map_img_insert_sub (ip : gmap string string) d p :
  map_img (SA := gset string) (<[d := p]> ip) ⊆ {[p]} ∪ map_img ip.
Proof.
  intros x Hx. apply elem_of_map_img in Hx as (k & Hk).
  destruct (decide (k = d)) as [->|]; [rewrite lookup_insert_eq in Hk; set_solver|].
  rewrite lookup_insert_ne in Hk by done. apply elem_of_union_r, elem_of_map_img. eauto.
Qed.

Lemma track_batch pod m batch :
  let m' := foldl (track pod) m batch in
  activePods m' ⊆ {[pod]} ∪ activePods m ∧
  (∀ d, inProgress m' !! d = if decide (d ∈ b_Dest <$> batch) then Some pod else inProgress m !! d) ∧
  imageState m' = imageState m.
Proof.
  induction batch as [|b batch IH] using rev_ind; cbn in *.
  { split_and!; [set_solver| |done]. intros d. by rewrite decide_False by apply not_elem_of_nil. }
  rewrite foldl_app. cbn. destruct IH as (H1 & H2 & H3). set (m1 := foldl (track pod) m batch) in *.
  clearbody m1. split_and!; [| |done].
  - unfold activePods in *. cbn. etransitivity; [apply map_img_insert_sub|]. set_solver.
  - intros d. cbn. rewrite fmap_app. cbn. destruct (decide (d = b_Dest b)) as [->|Hne].
    + rewrite lookup_insert_eq, decide_True by set_solver. done.
    + rewrite lookup_insert_ne, H2 by done. destruct (decide (d ∈ b_Dest <$> batch)).
      * by rewrite decide_True by set_solver.
      * by rewrite decide_False by set_solver.
Qed.

Lemma not_started d started (rest : list BatchItem) :
  concat (snd <$> started) `sublist_of` rest → d ∉ b_Dest <$> rest →
  list_find (λ pb : string * list BatchItem, d ∈ b_Dest <$> snd pb) started = None.
Proof.
  intros Hs Hd. apply list_find_None, Forall_forall. intros pb Hpb Hin. apply Hd.
  apply list_elem_of_fmap in Hin as (b & -> & Hb). apply list_elem_of_fmap_2.
  eapply elem_of_sublist; [|exact Hs]. apply list_elem_of_In, in_concat.
  exists (snd pb). split; [|by apply list_elem_of_In]. apply list_elem_of_In. by apply list_elem_of_fmap_2.
Qed.

(** The dispatch loop, from any point of it. *)
Lemma dispatch_spec start conc bs fuel k pending active m :
  let '(m', started) := dispatch start conc bs fuel k pending active m in
  concat (snd <$> started) `sublist_of` pending ∧
  (NoDup (b_Dest <$> pending) → ∀ d, inProgress m' !! d =
     match list_find (λ pb, d ∈ b_Dest <$> snd pb) started with
     | Some (_, pb) => Some (fst pb)
     | None => inProgress m !! d
     end) ∧
  (activePods m ⊆ active → ∃ active', activePods m' ⊆ active' ∧
     (Z.of_nat (size active') ≤ Z.max (Z.of_nat (size active)) conc)%Z) ∧
  imageState m' = imageState m.
Proof.
  revert k pending active m. induction fuel as [|fuel IH]; intros k pending active m; cbn.
  { split_and!; [apply sublist_nil_l|done| |done]. intros H. exists active. split; [done|lia]. }
  destruct pending as [|b pending].
  { split_and!; [done|done| |done]. intros H. exists active. split; [done|lia]. }
  destruct (Z.ltb_spec (Z.of_nat (size active)) conc) as [Hlt|Hge].
  2:{ split_and!; [apply sublist_nil_l|done| |done]. intros H. exists active. split; [done|lia]. }
  set (p := b :: pending). destruct (start k) as [pod|].
  - specialize (IH (S k) (drop bs p) ({[pod]} ∪ active) (foldl (track pod) m (take bs p))).
    destruct (track_batch pod m (take bs p)) as (Ht1 & Ht2 & Ht3).
    destruct (dispatch _ _ _ _ _ _ _ _) as [m' started]. destruct IH as (H1 & H2 & H3 & H4).
    split_and!.
    + cbn. rewrite <- (take_drop bs p) at 2. by apply sublist_app.
    + intros Hnd d. cbn. rewrite <- (take_drop bs p), fmap_app in Hnd. apply NoDup_app in Hnd as (_ & Hdis & Hnd).
      rewrite H2 by done. rewrite Ht2. destruct (decide (d ∈ b_Dest <$> take bs p)) as [Hd|Hd].
      * cbn. rewrite (not_started d started _ H1 (Hdis d Hd)). done.
      * by destruct (list_find _ started) as [[]|].
    + intros Ha. destruct H3 as (active' & Hs & Hsz); [set_solver|]. exists active'. split; [done|].
      assert (size ({[pod]} ∪ active) ≤ S (size active)) as Hu.
      { rewrite size_union_alt, size_singleton.
        pose proof (subseteq_size (active ∖ {[pod]}) active ltac:(set_solver)). lia. }
      lia.
    + by rewrite H4.
  - specialize (IH (S k) (drop bs p) active m). destruct (dispatch _ _ _ _ _ _ _ _) as [m' started].
    destruct IH as (H1 & H2 & H3 & H4). split_and!; [|intros Hnd; apply H2|done|done].
    + etransitivity; [done|apply sublist_drop].
    + rewrite <- (take_drop bs p), fmap_app in Hnd. by apply NoDup_app in Hnd as (_ & _ & ?).
Qed.

(** The number of calls is bounded by the fuel, and with a positive batch
    size the loop ends because the list is used up or the limit is reached. *)
Lemma dispatch_complete start conc bs fuel k pending active m :
  0 < bs → length pending ≤ fuel → (∀ k, is_Some (start k)) →
  let '(m', started) := dispatch start conc bs fuel k pending active m in
  concat (snd <$> started) = pending ∨
  (conc ≤ Z.of_nat (size (list_to_set (fst <$> started) ∪ active)))%Z.
Proof.
  intros Hbs Hf Hs. revert k pending active m Hf. induction fuel as [|fuel IH]; intros k pending active m Hf; cbn.
  { left. destruct pending; [done|cbn in Hf; lia]. }
  destruct pending as [|b pending]; [by left|].
  destruct (Z.ltb_spec (Z.of_nat (size active)) conc) as [Hlt|Hge].
  2:{ right. cbn. by rewrite (left_id_L ∅ (∪)). }
  destruct (Hs k) as [p ->]. set (l := b :: pending) in *.
  specialize (IH (S k) (drop bs l) ({[p]} ∪ active) (foldl (track p) m (take bs l))).
  destruct (dispatch _ _ _ _ _ _ _ _) as [m' started]. cbn.
  destruct IH as [IH|IH].
  { rewrite length_drop. lia. }
  - left. by rewrite IH, take_drop.
  - right. etransitivity; [exact IH|]. apply inj_le, subseteq_size. set_solver.
Qed.

(** ** Flushing and loading *)

Lemma flush_state_view m n : flush_state m n = filterByImageSet (imageState m) (owners m) (ownerMeta m) n.
Proof. done. Qed.

Definition saved_digests (m : MirrorManager) (n : string) : option (gmap string string) :=
  let d := default ∅ (catalogDigests m !! n) in if decide (d = ∅) then None else Some d.

Definition saved_cm (mt : MirrorTarget) (m : MirrorManager) (n : string) : ConfigMap :=
  state_cm (all_set (flush_state m n)) (saved_digests m n) (Some (mt_Name mt)).

Lemma flush_all_healthy mt m names c :
  healthy c →
  ∃ c', flush_all mt m names c = (inr true, c') ∧ healthy c' ∧
    (∀ n, n ∈ names → cl_cms c' !! ConfigMapName n = Some (saved_cm mt m n)) ∧
    (∀ n, n ∉ names → cl_cms c' !! ConfigMapName n = cl_cms c !! ConfigMapName n).
Proof.
  revert c.
  induction names as [|n names IH]; intros c Hc.
  { exists c. split_and!; [done|done|set_solver|done]. }
  destruct (saveRaw_healthy (ConfigMapName n) (all_set (flush_state m n)) (saved_digests m n) (Some (mt_Name mt)) c Hc)
    as (c1 & E1 & Hc1 & S1).
  destruct (IH c1 Hc1) as (c2 & E2 & Hc2 & S2 & O2).
  exists c2. split_and!; [|done| |].
  - cbn [flush_all]. rewrite attempt_bind. unfold SaveWithCatalogDigests. fold (saved_digests m n). rewrite E1. cbn [fst snd].
    by rewrite (bind_inr _ _ _ _ _ E2).
  - intros n' Hn'. destruct (decide (n' ∈ names)); [by apply S2|].
    rewrite O2, S1 by done. assert (n' = n) as -> by set_solver. by rewrite lookup_insert_eq.
  - intros n' Hn'. rewrite O2, S1 by set_solver. rewrite lookup_insert_ne; [done|].
    intros ?%ConfigMapName_inj. set_solver.
Qed.

Lemma SaveIndex_frame mt idx owner c :
  healthy c →
  fst (SaveIndex mt idx owner c) = inr tt ∧ healthy (snd (SaveIndex mt idx owner c)) ∧
  ∀ n, cl_cms (snd (SaveIndex mt idx owner c)) !! ConfigMapName n = cl_cms c !! ConfigMapName n.
Proof.
  intros Hc. destruct (decide (idx = ∅)) as [Hi|Hi].
  - unfold SaveIndex. rewrite decide_True, attempt_bind by done. unfold api_delete.
    match goal with |- context [call ?f c] => destruct (call_healthy f c Hc) as [E Hh] end.
    rewrite E. cbn in *. destruct (cl_cms c !! IndexConfigMapName mt); cbn in *; split_and!; try done.
    intros n. rewrite lookup_delete_ne; [done|]. intros Heq. by apply (ConfigMapName_index_ne n mt).
  - destruct (SaveIndex_healthy mt idx owner c Hc Hi) as (c' & E & Hh & Hs). rewrite E. cbn. split_and!; [done|done|].
    intros n. rewrite Hs, lookup_insert_ne; [done|]. intros Heq. by apply (ConfigMapName_index_ne n mt).
Qed.

Lemma ConfigMapName_summary_ne n mt : ConfigMapName n ≠ SummaryConfigMapName mt.
Proof.
  unfold ConfigMapName, SummaryConfigMapName. intros Eq.
  apply (f_equal (cut_last "-")) in Eq. change "-images-summary" with ("-images" +:+ "-summary") in Eq.
  rewrite app_assoc_s in Eq. change "-images" with (String "-" "images") in Eq at 1.
  change "-summary" with (String "-" "summary") in Eq.
  by rewrite !cut_last_char_app in Eq by done.
Qed.

Lemma SaveSummary_frame mt s owner c :
  healthy c →
  fst (SaveSummary mt s owner c) = inr tt ∧ healthy (snd (SaveSummary mt s owner c)) ∧
  ∀ n, cl_cms (snd (SaveSummary mt s owner c)) !! ConfigMapName n = cl_cms c !! ConfigMapName n.
Proof.
  intros Hc. unfold SaveSummary. rewrite attempt_bind.
  destruct (api_get_healthy (SummaryConfigMapName mt) c Hc) as [E Hh].
  pose proof (api_get_cms (SummaryConfigMapName mt) c) as Hcms. rewrite E.
  set (c1 := snd (api_get (SummaryConfigMapName mt) c)) in *. clearbody c1.
  destruct (cl_cms c !! SummaryConfigMapName mt) as [cm|] eqn:El.
  - case_bool_decide; [split_and!; [done|done|intros n; cbn; by rewrite Hcms]|]. unfold api_update.
    match goal with |- context [call ?f c1] => destruct (call_healthy f c1 Hh) as [E2 Hh2] end.
    rewrite E2. rewrite Hcms, El in *. cbn in *. split_and!; [done|done|]. intros n.
    rewrite lookup_insert_ne; [done|]. intros Heq. by apply (ConfigMapName_summary_ne n mt).
  - unfold api_create.
    match goal with |- context [call ?f c1] => destruct (call_healthy f c1 Hh) as [E2 Hh2] end.
    rewrite E2. rewrite Hcms, El in *. cbn in *. split_and!; [done|done|]. intros n.
    rewrite lookup_insert_ne; [done|]. intros Heq. by apply (ConfigMapName_summary_ne n mt).
Qed.

Lemma flush_healthy mt names m c :
  healthy c →
  ∃ c', flushPartitionedState mt names m c = (inr (set_summaryWritten true m, true), c') ∧ healthy c' ∧
    (∀ n, n ∈ names → cl_cms c' !! ConfigMapName n = Some (saved_cm mt m n)) ∧
    (∀ n, n ∉ names → cl_cms c' !! ConfigMapName n = cl_cms c !! ConfigMapName n).
Proof.
  intros Hc. unfold flushPartitionedState.
  destruct (flush_all_healthy mt m names c Hc) as (c1 & E1 & Hc1 & S1 & O1). rewrite (bind_inr _ _ _ _ _ E1).
  rewrite attempt_bind.
  destruct (SaveIndex_frame (mt_Name mt) (flush_index m) (Some (mt_Name mt)) c1 Hc1) as (E2 & Hc2 & S2).
  rewrite E2. set (c2 := snd (SaveIndex _ _ _ c1)) in *. clearbody c2.
  set (sm := mkSummary (sort_strings (mt_ImageSets mt)) (Counts (countedLocked mt m))).
  destruct (SaveSummary_frame (mt_Name mt) sm (Some (mt_Name mt)) c2 Hc2) as (E3 & Hc3 & S3).
  assert (E4 : saveSummary mt m c2 = (inr true, snd (SaveSummary (mt_Name mt) sm (Some (mt_Name mt)) c2))).
  { unfold saveSummary. fold sm. rewrite attempt_bind, E3. done. }
  rewrite (bind_inr _ _ _ _ _ E4). eexists. split_and!; [reflexivity|done|..];
    intros n Hn; rewrite S3, S2; [by apply S1|by apply O1].
Qed.

(** The flush leaves the migration nothing to do: it touches the ConfigMap of
    the legacy format only when an ImageSet has the target's name, and then
    writes it in the current format. *)
Lemma flush_keeps_settled mt (names : list string) m c c' :
  (∀ n, n ∈ names → cl_cms c' !! ConfigMapName n = Some (saved_cm mt m n)) →
  (∀ n, n ∉ names → cl_cms c' !! ConfigMapName n = cl_cms c !! ConfigMapName n) →
  migrate_settled (mt_Name mt) c → migrate_settled (mt_Name mt) c'.
Proof.
  intros S1 O1 Hs. unfold migrate_settled in *.
  change (ConfigMapNameForTarget (mt_Name mt)) with (ConfigMapName (mt_Name mt)) in *.
  destruct (decide (mt_Name mt ∈ names)) as [Hn|Hn].
  - rewrite (S1 _ Hn). by left.
  - by rewrite (O1 _ Hn).
Qed.

(** ** Loading what was flushed *)

Definition copy (m : MirrorManager) (n : string) : gmap string ImageEntry := json_entry <$> flush_state m n.

(** The loader after the ImageSets in [P]. *)
Definition load_inv (m : MirrorManager) (P : list string) (l : loaded) : Prop :=
  (∀ d n, n ∈ owners_of (ld_owners l) d ↔ n ∈ P ∧ is_Some (copy m n !! d)) ∧
  (∀ d n, meta_of (ld_meta l) d n = if decide (n ∈ P) then specMetaOf <$> copy m n !! d else None) ∧
  (∀ d, match ld_state l !! d with
        | Some e => ∃ n, n ∈ P ∧ copy m n !! d = Some e
        | None => ∀ n, n ∈ P → copy m n !! d = None
        end).

Lemma load_entries_spec n (st : gmap string (option ImageEntry)) l d n' :
  let l' := map_fold (load_entry n) l st in
  ld_state l' !! d = match st !! d with
    | Some (Some e) => Some (mergeLoadedEntry (ld_state l !! d) e) | _ => ld_state l !! d end ∧
  owners_of (ld_owners l') d = match st !! d with
    | Some (Some e) => owners_of (addOwner d n (ld_owners l)) d | _ => owners_of (ld_owners l) d end ∧
  meta_of (ld_meta l') d n' = match st !! d with
    | Some (Some e) => if decide (n' = n) then Some (specMetaOf e) else meta_of (ld_meta l) d n'
    | _ => meta_of (ld_meta l) d n' end.
Proof.
  intros l'. subst l'. split_and!.
  - rewrite (range_pointwise (λ k l, ld_state l !! k) (load_entry n)
      (λ k oe x, match oe with Some e => Some (mergeLoadedEntry x e) | None => x end)).
    + by destruct (st !! d) as [[]|].
    + intros k [e|] s; [|done]. cbn. by rewrite lookup_insert_eq.
    + intros k [e|] s j Hj; [|done]. cbn. by rewrite lookup_insert_ne.
  - rewrite (range_pointwise (λ k l, owners_of (ld_owners l) k) (load_entry n)
      (λ k oe x, match oe with Some e => if decide (n ∈ x) then x else x ++ [n] | None => x end)).
    + destruct (st !! d) as [[]|]; [|done|done]. rewrite owners_of_addOwner.
      destruct (decide (n ∈ owners_of (ld_owners l) d)); [rewrite decide_False|rewrite decide_True]; naive_solver.
    + intros k [e|] s; [|done]. cbn. rewrite owners_of_addOwner.
      destruct (decide (n ∈ owners_of (ld_owners s) k)); [rewrite decide_False|rewrite decide_True]; naive_solver.
    + intros k [e|] s j Hj; [|done]. cbn. rewrite owners_of_addOwner, decide_False; naive_solver.
  - rewrite (range_pointwise (λ k l, meta_of (ld_meta l) k n') (load_entry n)
      (λ k oe x, match oe with Some e => if decide (n' = n) then Some (specMetaOf e) else x | None => x end)).
    + by destruct (st !! d) as [[]|].
    + intros k [e|] s; [|done]. cbn. rewrite meta_of_setOwnerMeta.
      destruct (decide (n' = n)); [rewrite decide_True|rewrite decide_False]; naive_solver.
    + intros k [e|] s j Hj; [|done]. cbn. rewrite meta_of_setOwnerMeta, decide_False; naive_solver.
Qed.

Lemma mergeLoaded_one_of x e : mergeLoadedEntry x e = e ∨ Some (mergeLoadedEntry x e) = x.
Proof.
  unfold mergeLoadedEntry. destruct x as [ex|]; [|by left].
  destruct (_ || _); [destruct (String.eqb _ _)|destruct (_ <? _)%Z]; auto.
Qed.

Lemma load_inv_step m P l digests n :
  load_inv m P l →
  load_inv m (P ++ [n]) (map_fold (load_entry n) (mkLoaded (ld_state l) (ld_owners l) (ld_meta l) digests)
    ((λ e, Some (json_entry e)) <$> flush_state m n)).
Proof.
  intros (H1 & H2 & H3). set (l0 := mkLoaded _ _ _ digests).
  assert (Hst : ∀ d, ((λ e, Some (json_entry e)) <$> flush_state m n) !! d = Some <$> copy m n !! d).
  { intros d. unfold copy. rewrite !lookup_fmap. by destruct (flush_state m n !! d). }
  split_and!.
  - intros d n'. destruct (load_entries_spec n ((λ e, Some (json_entry e)) <$> flush_state m n) l0 d n') as (_ & -> & _).
    rewrite Hst. destruct (copy m n !! d) as [e|] eqn:E; cbn.
    + rewrite owners_of_addOwner. cbn. case_decide as Hc.
      * rewrite elem_of_app, list_elem_of_singleton, H1, elem_of_app, list_elem_of_singleton.
        split; [intros [[? ?]| ->]; eauto|]. intros [[?| ->] ?]; eauto.
      * rewrite H1, elem_of_app, list_elem_of_singleton. split; [naive_solver|].
        intros [[?| ->] Hs]; [done|]. apply H1. destruct (decide (n ∈ owners_of (ld_owners l) d)); [done|naive_solver].
    + rewrite H1, elem_of_app, list_elem_of_singleton. split; [naive_solver|].
      intros [[?| ->] [? ?]]; [eauto|congruence].
  - intros d n'. destruct (load_entries_spec n ((λ e, Some (json_entry e)) <$> flush_state m n) l0 d n') as (_ & _ & ->).
    rewrite Hst. destruct (decide (n' = n)) as [->|Hne].
    + rewrite (decide_True (P := n ∈ P ++ [n])) by set_solver.
      destruct (copy m n !! d) as [e|] eqn:E; cbn; [done|]. rewrite H2, E. by destruct (decide _).
    + assert (meta_of (ld_meta l0) d n' = if decide (n' ∈ P ++ [n]) then specMetaOf <$> copy m n' !! d else None) as Hm.
      { cbn. rewrite H2. destruct (decide (n' ∈ P)); [rewrite decide_True|rewrite decide_False]; set_solver. }
      by destruct (copy m n !! d).
  - intros d. destruct (load_entries_spec n ((λ e, Some (json_entry e)) <$> flush_state m n) l0 d "") as (-> & _ & _).
    rewrite Hst. specialize (H3 d). destruct (copy m n !! d) as [e|] eqn:E; cbn.
    + destruct (mergeLoaded_one_of (ld_state l !! d) e) as [->|Hm]; [exists n; set_solver|].
      rewrite <- Hm in H3. destruct H3 as (n1 & ? & ?). exists n1. set_solver.
    + destruct (ld_state l !! d); [destruct H3 as (n1 & ? & ?); exists n1; set_solver|].
      intros n1 [?|Hn1%list_elem_of_singleton]%elem_of_app; [auto|by subst].
Qed.

Lemma load_inv_all mt m items c l P :
  healthy c → load_inv m P l →
  (∀ iset, iset ∈ items → is_Name iset ∈ mt_ImageSets mt →
     cl_cms c !! ConfigMapName (is_Name iset) = Some (saved_cm mt m (is_Name iset))) →
  ∃ l' c', load_all mt l items c = (inr l', c') ∧
    load_inv m (P ++ List.filter (containsString (mt_ImageSets mt)) (map is_Name items)) l'.
Proof.
  revert c l P. induction items as [|iset items IH]; intros c l P Hc Hinv Hcm.
  { exists l, c. split; [done|]. cbn. by rewrite app_nil_r. }
  cbn [load_all map List.filter].
  destruct (containsString (mt_ImageSets mt) (is_Name iset)) eqn:Ec.
  - set (n := is_Name iset) in *.
    assert (∃ l1 c1, load_imageset mt l iset c = (inr l1, c1) ∧ healthy c1 ∧ cl_cms c1 = cl_cms c ∧
      load_inv m (P ++ [n]) l1) as (l1 & c1 & E1 & Hc1 & Hcms & Hi1).
    { unfold load_imageset. fold n. rewrite Ec. cbn [negb]. rewrite attempt_bind.
      unfold LoadWithCatalogDigests. rewrite attempt_bind.
      destruct (api_get_healthy (ConfigMapName n) c Hc) as [Eg Hh].
      pose proof (api_get_cms (ConfigMapName n) c) as Hcms.
      assert (Hn : cl_cms c !! ConfigMapName n = Some (saved_cm mt m n))
        by (apply Hcm; [set_solver|by apply existsb_eqb]).
      rewrite Eg, Hn.
      set (c1 := snd (api_get (ConfigMapName n) c)) in *. clearbody c1.
      rewrite !liftE_bind. unfold saved_cm at 1 2. rewrite decode_state_cm_set.
      rewrite !liftE_bind. unfold decodeDigests. cbn [saved_cm state_cm cm_digests].
      unfold saved_digests. destruct (decide _); cbn [fmap option_fmap option_map fst snd];
        (eexists _, c1; split_and!; [reflexivity|done|done|]); by apply load_inv_step. }
    rewrite (bind_inr _ _ _ _ _ E1).
    destruct (IH c1 l1 (P ++ [n]) Hc1 Hi1) as (l' & c' & E' & Hi').
    { intros is' Hin Hn. rewrite Hcms. apply Hcm; [set_solver|done]. }
    exists l', c'. split; [done|]. by rewrite <- app_assoc in Hi'.
  - assert (E1 : load_imageset mt l iset c = (inr l, c)) by (unfold load_imageset; by rewrite Ec).
    rewrite (bind_inr _ _ _ _ _ E1). apply IH; [done|done|]. intros is' Hin Hn. apply Hcm; [set_solver|done].
Qed.

(** Two owners' copies differ in spec metadata only. *)
Lemma applyTo_copy om d n n' e :
  applyTo (specMetaOf (json_entry (ownerView om d n e))) (json_entry (ownerView om d n' e))
  = json_entry (ownerView om d n e).
Proof.
  unfold ownerView. destruct e. by destruct (meta_of om d n), (meta_of om d n').
Qed.

Lemma load_inv_view m P l n :
  load_inv m P l → n ∈ P → filterByImageSet (ld_state l) (ld_owners l) (ld_meta l) n = copy m n.
Proof.
  intros (H1 & H2 & H3) Hn. apply map_eq. intros d. rewrite filterByImageSet_lookup.
  specialize (H3 d). destruct (copy m n !! d) as [x|] eqn:Ex.
  - destruct (ld_state l !! d) as [e|]; [|rewrite H3 in Ex; done]. destruct H3 as (n' & Hn' & Ee). cbn.
    assert (hasOwner (ld_owners l) d n = true) as -> by (apply hasOwner_spec, H1; eauto).
    unfold ownerView. rewrite H2, decide_True, Ex by done. cbn. f_equal.
    unfold copy in Ex, Ee. rewrite flush_state_view, lookup_fmap, filterByImageSet_lookup in Ex, Ee.
    destruct (imageState m !! d) as [e0|]; [|done]. cbn in Ex, Ee.
    destruct (hasOwner (owners m) d n), (hasOwner (owners m) d n'); try done. cbn in Ex, Ee.
    injection Ex as <-. injection Ee as <-. apply applyTo_copy.
  - destruct (ld_state l !! d) as [e|]; [|done]. cbn.
    assert (hasOwner (ld_owners l) d n = false) as ->; [|done].
    apply hasOwner_false. rewrite H1, Ex. by intros [_ []].
Qed.

(** * Properties *)

(** C4: what Phase D hands to the dispatcher is exactly the work to do, in
    any order the map is visited: an item for every owned, Pending entry that
    is neither flagged as mirrored nor in flight, with its source, never two
    items for one destination, and all operator bundle images before all
    other images. *)
Theorem phaseD_pending_exact now ks m :
  range_order (imageState m) ks →
  let s := phaseD now ks m in
  (∀ b, b ∈ sw_batchable s ↔
     ∃ e, imageState m !! b_Dest b = Some e ∧ b_Source b = Source e ∧ dispatchable m (b_Dest b) e) ∧
  NoDup (b_Dest <$> sw_batchable s) ∧
  (∃ l1 l2, sw_batchable s = l1 ++ l2 ∧
     Forall (λ b, ∃ e, imageState m !! b_Dest b = Some e ∧ IsBundleImage e = true) l1 ∧
     Forall (λ b, ∃ e, imageState m !! b_Dest b = Some e ∧ IsBundleImage e = false) l2).
Proof.
  intros Hr s. assert (Hi := λ d, phaseD_items now ks m d Hr). cbn zeta in Hi. fold s in Hi. clearbody s.
  split_and!.
  - intros b. unfold sw_batchable. rewrite elem_of_app.
    pose proof (elem_of_of_dest b (sw_bundles s)) as Hb1. pose proof (elem_of_of_dest b (sw_pending s)) as Hb2.
    destruct (Hi (b_Dest b)) as [(E1 & E2 & Hno)|(e & He & Hd & Hl)].
    + rewrite E1 in Hb1. rewrite E2 in Hb2. split; [set_solver|].
      intros (e & He & _ & Hd). by destruct (Hno e He).
    + assert (Hin : b ∈ sw_bundles s ∨ b ∈ sw_pending s ↔ b = mkBatchItem (Source e) (b_Dest b)).
      { destruct (IsBundleImage e); injection Hl as E1 E2; rewrite E1 in Hb1; rewrite E2 in Hb2; set_solver. }
      rewrite Hin. split.
      * intros Hb. exists e. split_and!; [done| |done]. by rewrite Hb.
      * intros (e' & He' & Hs & _). assert (e' = e) as -> by congruence. destruct b; cbn in *; congruence.
  - apply NoDup_dests. intros d. unfold sw_batchable. rewrite of_dest_app, length_app.
    destruct (Hi d) as [(-> & -> & _)|(e & _ & _ & Hl)]; [cbn; lia|].
    destruct (IsBundleImage e); injection Hl as -> ->; cbn; lia.
  - exists (sw_bundles s), (sw_pending s). split; [done|].
    split; apply Forall_forall; intros b Hb%elem_of_of_dest;
      destruct (Hi (b_Dest b)) as [(E1 & E2 & _)|(e & He & _ & Hl)]; rewrite ?E1, ?E2 in Hb;
      try (by apply elem_of_nil in Hb); exists e; (split; [done|]);
      destruct (IsBundleImage e); try done; injection Hl as E1 E2; rewrite ?E1, ?E2 in Hb; by apply elem_of_nil in Hb.
Qed.

Definition ex_bundle : MirrorManager :=
  set_imageState (<["reg/c:1" := mkImageEntry "src/c:1" "Pending" "" 0 OriginOperator "s" "r" "c" true false None false ""]>
    (imageState ex_manager)) (set_owners (<["reg/c:1" := ["is1"]]> (owners ex_manager)) (set_inProgress ∅ ex_manager)).

Lemma phaseD_pending_exact_witness :
  mkBatchItem "src/a:1" "reg/a:1" ∈ sw_batchable (phaseD 0 (some_order (imageState ex_bundle)) ex_bundle) ∧
  sw_batchable (phaseD 0 (some_order (imageState ex_bundle)) ex_bundle)
    = [mkBatchItem "src/c:1" "reg/c:1"; mkBatchItem "src/a:1" "reg/a:1"].
Proof.
  split; [|vm_compute; reflexivity].
  apply (phaseD_pending_exact 0 (some_order (imageState ex_bundle)) ex_bundle (some_order_ok _)).
  eexists. split_and!; [vm_compute; reflexivity|reflexivity|].
  split_and!; [discriminate|reflexivity|reflexivity|reflexivity].
Defined.

(** After Phase D the working set and the ownership table agree: the
    entries without an owner, and only those, have moved to the orphans with
    their data, and every entry that is left has an owner. *)
Theorem phaseD_orphans_exact now ks m d :
  range_order (imageState m) ks →
  let s := phaseD now ks m in
  sw_orphans s !! d = (if bool_decide (owners_of (owners m) d = []) then imageState m !! d else None) ∧
  (is_Some (imageState (sw_m s) !! d) ↔ is_Some (imageState m !! d) ∧ owners_of (owners m) d ≠ []) ∧
  (is_Some (imageState (sw_m s) !! d) → owners_of (owners (sw_m s)) d = owners_of (owners m) d).
Proof.
  intros Hr s. pose proof (phaseD_view now ks m d Hr) as Hv. fold s in Hv. clearbody s.
  pose proof (f_equal dv_orphan Hv) as H1. pose proof (f_equal dv_entry Hv) as H2.
  pose proof (f_equal dv_owners Hv) as H3. cbn in H1, H2, H3. clear Hv.
  unfold owners_of. rewrite H1, H2, H3. clear H1 H2 H3. unfold swept, with_entry. cbn.
  destruct (imageState m !! d) as [e|] eqn:E; cbn.
  2:{ rewrite ?E, lookup_empty. split_and!; [by destruct (bool_decide _)|split; [by intros []|by intros [[] _]]|done]. }
  destruct (bool_decide_reflect (default [] (owners m !! d) = [])) as [Ho|Ho]; cbn.
  { split_and!; [done|split; [by intros []|by intros [_ []]]|by intros []]. }
  repeat (match goal with |- context [if ?b then _ else _] => destruct b end; cbn);
    (split_and!; [by rewrite ?lookup_empty|by split; eauto|done]).
Qed.

Lemma phaseD_orphans_exact_witness :
  let m := set_owners {["reg/a:1" := ["is1"]]} ex_manager in
  ∃ e, sw_orphans (phaseD 0 (some_order (imageState m)) m) !! "reg/b:1" = Some e ∧ Source e = "src/b:1".
Proof.
  intros m. destruct (phaseD_orphans_exact 0 (some_order (imageState m)) m "reg/b:1" (some_order_ok _)) as [H _].
  eexists. split; [rewrite H; vm_compute; reflexivity|reflexivity].
Defined.

(** A failed image is retried exactly when its budget and its backoff
    allow it: an owned Failed entry becomes Pending iff its retry count is
    below the limit and its next-retry time (if any) has come; otherwise it
    stays Failed, and when the budget is used up it is marked permanently
    failed. *)
Theorem phaseD_retry now ks m d e :
  range_order (imageState m) ks → imageState m !! d = Some e → State e = stateFailed →
  owners_of (owners m) d ≠ [] → mirrored_flag m d = false →
  ∃ e', imageState (sw_m (phaseD now ks m)) !! d = Some e' ∧
    RetryCount e' = RetryCount e ∧
    (State e' = statePending ↔ (RetryCount e < effectiveMaxRetries m)%Z ∧
       ∀ t, NextRetryAt e = Some t → (t ≤ now)%Z) ∧
    (State e' = statePending ∨ State e' = stateFailed) ∧
    ((effectiveMaxRetries m ≤ RetryCount e)%Z → PermanentlyFailed e' = true).
Proof.
  intros Hr He Hs Ho Hf. pose proof (f_equal dv_entry (phaseD_view now ks m d Hr)) as Hv. cbn in Hv.
  unfold swept in Hv. cbn in Hv. rewrite He in Hv. fold (owners_of (owners m) d) in Hv.
  rewrite (bool_decide_eq_false_2 _ Ho), Hs in Hv. unfold mirrored_flag in Hf. rewrite Hf in Hv. cbn in Hv.
  exists (failed_next now (effectiveMaxRetries m) e). split; [done|]. unfold failed_next.
  destruct (Z.ltb_spec (RetryCount e) (effectiveMaxRetries m)).
  - destruct (NextRetryAt e) as [t|] eqn:Et; [destruct (Z.ltb_spec now t)|].
    + rewrite Hs. split_and!; [done| |by right|lia]. split; [done|]. intros [_ Hx]. specialize (Hx t eq_refl). lia.
    + cbn. split_and!; [done| |by left|lia]. split; [|done]. intros _. split; [done|]. intros ? [= <-]. lia.
    + cbn. split_and!; [done| |by left|lia]. split; [|done]. by intros _.
  - destruct (PermanentlyFailed e) eqn:Ep; cbn; rewrite ?Hs; split_and!; try done; try (by right);
      (split; [done|lia]).
Qed.

Lemma phaseD_retry_witness :
  let m := set_imageState {["d" := mkImageEntry "s" "Failed" "x" 2 OriginOperator "s" "r" "c" false false (Some 5%Z) false ""]}
    (set_owners {["d" := ["is1"]]} ex_manager) in
  ∃ e', imageState (sw_m (phaseD 7 ["d"] m)) !! "d" = Some e' ∧ State e' = statePending.
Proof.
  intros m. destruct (phaseD_retry 7 ["d"] m "d" (mkImageEntry "s" "Failed" "x" 2 OriginOperator "s" "r" "c" false false (Some 5%Z) false ""))
    as (e' & He & _ & Hp & _).
  - split; [apply NoDup_singleton|]. intros k. unfold m. cbn. rewrite list_elem_of_singleton. split.
    + intros ->. rewrite lookup_singleton_eq. eauto.
    + intros [x Hx]. apply lookup_singleton_Some in Hx as [<- _]. done.
  - reflexivity.
  - reflexivity.
  - discriminate.
  - reflexivity.
  - exists e'. split; [exact He|]. apply Hp. split; [reflexivity|]. intros t [= <-]. discriminate.
Defined.

(** C10: dispatching respects the concurrency limit and never mirrors a
    destination twice at once.  The batches that were started are disjoint
    parts of the pending list in its order; each started destination is
    tracked under the pod of its batch and no other tracking changes; and the
    number of distinct active pods afterwards exceeds the configured
    concurrency only if it did so before. *)
Theorem dispatch_bounded_and_exclusive start mt pending m :
  NoDup (b_Dest <$> pending) →
  let '(m', started) := phaseE start mt pending m in
  concat (snd <$> started) `sublist_of` pending ∧
  (∀ d, inProgress m' !! d =
     match list_find (λ pb, d ∈ b_Dest <$> snd pb) started with
     | Some (_, pb) => Some (fst pb)
     | None => inProgress m !! d end) ∧
  (Z.of_nat (size (activePods m')) ≤ Z.max (Z.of_nat (size (activePods m))) (effectiveConcurrency mt))%Z.
Proof.
  intros Hnd. unfold phaseE.
  pose proof (dispatch_spec start (effectiveConcurrency mt) (Z.to_nat (effectiveBatchSize mt)) (length pending) 0
    pending (activePods m) m) as Hs.
  destruct (dispatch _ _ _ _ _ _ _ _) as [m' started]. destruct Hs as (H1 & H2 & H3 & _).
  split_and!; [done|by apply H2|]. destruct H3 as (a' & Ha & Hsz); [done|].
  pose proof (subseteq_size _ _ Ha). lia.
Qed.

Lemma dispatch_bounded_and_exclusive_witness :
  let items := [mkBatchItem "s1" "d1"; mkBatchItem "s2" "d2"; mkBatchItem "s3" "d3"] in
  let mt := mkMirrorTarget "mt" "reg" ["is1"] 2 1 10 None None ∅ 1 "" false None None in
  let '(m', started) := phaseE (λ k, Some ("pod" +:+ Itoa (Z.of_nat k))) mt items ex_manager in
  started = [("pod0", [mkBatchItem "s1" "d1"])] ∧
  (Z.of_nat (size (activePods m')) ≤ 2)%Z.
Proof.
  intros items mt.
  assert (Hnd : NoDup (b_Dest <$> items)) by (apply (bool_decide_unpack _); vm_compute; exact I).
  pose proof (dispatch_bounded_and_exclusive (λ k, Some ("pod" +:+ Itoa (Z.of_nat k))) mt items ex_manager Hnd) as H.
  assert (E : snd (phaseE (λ k, Some ("pod" +:+ Itoa (Z.of_nat k))) mt items ex_manager) = [("pod0", [mkBatchItem "s1" "d1"])])
    by (vm_compute; reflexivity).
  destruct (phaseE _ _ _ _) as [m' started]. cbn in E. split; [exact E|].
  destruct H as (_ & _ & H). etransitivity; [exact H|]. vm_compute. discriminate.
Defined.

(** No capacity is wasted: when the pods can be created, dispatching stops
    only because every pending item was handed to a worker or because the
    concurrency limit is reached. *)
Theorem dispatch_work_conserving start mt pending m :
  (∀ k, is_Some (start k)) →
  let started := snd (phaseE start mt pending m) in
  concat (snd <$> started) = pending ∨
  (effectiveConcurrency mt ≤ Z.of_nat (size (list_to_set (fst <$> started) ∪ activePods m)))%Z.
Proof.
  intros Hs. unfold phaseE, effectiveBatchSize.
  pose proof (dispatch_complete start (effectiveConcurrency mt)
    (Z.to_nat (if (mt_BatchSize mt <=? 0)%Z then 50 else mt_BatchSize mt)) (length pending) 0 pending (activePods m) m) as H.
  destruct (dispatch _ _ _ _ _ _ _ _) as [m' started]. apply H; [|done|done].
  destruct (Z.leb_spec (mt_BatchSize mt) 0); lia.
Qed.

Lemma dispatch_work_conserving_witness :
  let items := [mkBatchItem "s1" "d1"; mkBatchItem "s2" "d2"; mkBatchItem "s3" "d3"] in
  let mt := mkMirrorTarget "mt" "reg" ["is1"] 5 2 10 None None ∅ 1 "" false None None in
  let start := λ k, Some ("pod" +:+ Itoa (Z.of_nat k)) in
  concat (snd <$> snd (phaseE start mt items ex_manager)) = items.
Proof.
  intros items mt start.
  destruct (dispatch_work_conserving start mt items ex_manager) as [H|H].
  - intros k. eexists. reflexivity.
  - exact H.
  - exfalso. revert H. vm_compute. intros H. by apply H.
Defined.

(** C2: a state that was flushed is the state a manager loads after a restart.
    When no API call fails and no unmigrated ConfigMap of the legacy format is
    left (a load whose calls succeed leaves none), writing the working set out
    and running the whole load of a new process, the migration of the legacy
    format included, gives every ImageSet of the target exactly the view it had
    (its destinations, their mirroring state and its own spec metadata, retry
    times cut to whole seconds), however the destinations are shared and in
    whatever order the ImageSets are written and read. *)
Theorem flush_then_load mt names items order m m0 c :
  healthy c → (∀ n, n ∈ names ↔ n ∈ mt_ImageSets mt) → migrate_settled (mt_Name mt) c →
  ∃ m1 c1, flushPartitionedState mt names m c = (inr (m1, true), c1) ∧
  ∃ m2 c2, loadPartitionedState mt items order m0 c1 = (inr m2, c2) ∧
    ∀ iset, iset ∈ items → is_Name iset ∈ mt_ImageSets mt →
      filterByImageSet (imageState m2) (owners m2) (ownerMeta m2) (is_Name iset) =
      json_entry <$> filterByImageSet (imageState m) (owners m) (ownerMeta m) (is_Name iset).
Proof.
  intros Hc Hn Hset. destruct (flush_healthy mt names m c Hc) as (c1 & E1 & Hc1 & S1 & O1).
  eexists _, c1. split; [exact E1|]. unfold loadPartitionedState. rewrite attempt_bind.
  destruct (Migrate_settled_noop (mt_Name mt) (Some (mt_Name mt)) order c1 Hc1
    (flush_keeps_settled mt names m c c1 S1 O1 Hset)) as [Ecms Hc1'].
  set (c1' := snd (MigrateConsolidatedToPerImageSet _ _ _ c1)) in *. clearbody c1'.
  destruct (load_inv_all mt m items c1' (mkLoaded ∅ ∅ ∅ ∅) [] Hc1') as (l & c2 & E2 & Hinv).
  - split_and!.
    + intros d n. cbn. unfold owners_of. rewrite lookup_empty. set_solver.
    + intros d n. cbn. unfold meta_of. by rewrite lookup_empty, decide_False by apply not_elem_of_nil.
    + intros d. cbn. rewrite lookup_empty. set_solver.
  - intros iset Hin Hs. rewrite Ecms. apply S1, Hn, Hs.
  - rewrite (bind_inr _ _ _ _ _ E2). eexists _, c2. split; [reflexivity|]. cbn. intros iset Hin Hs.
    rewrite <- flush_state_view.
    apply (load_inv_view m _ l (is_Name iset) Hinv). cbn. apply elem_of_filter_bool.
    split; [by apply existsb_eqb|]. apply list_elem_of_In, in_map, list_elem_of_In, Hin.
Qed.

Lemma flush_then_load_witness :
  ∃ m1 c1, flushPartitionedState ex_target ["is1"] ex_manager (mkCluster ∅ []) = (inr (m1, true), c1) ∧
  ∃ m2 c2, loadPartitionedState ex_target [ex_set] some_order ex_manager c1 = (inr m2, c2) ∧
    filterByImageSet (imageState m2) (owners m2) (ownerMeta m2) "is1" =
    json_entry <$> filterByImageSet (imageState ex_manager) (owners ex_manager) (ownerMeta ex_manager) "is1".
Proof.
  destruct (flush_then_load ex_target ["is1"] [ex_set] some_order ex_manager ex_manager (mkCluster ∅ []))
    as (m1 & c1 & E1 & m2 & c2 & E2 & H).
  - constructor.
  - done.
  - exact I.
  - exists m1, c1. split; [exact E1|]. exists m2, c2. split; [exact E2|].
    apply (H ex_set); apply list_elem_of_In; left; reflexivity.
Defined.

(** An image that an old release recorded as failed, and that was mirrored since. *)
Definition ex_legacy : ConfigMap :=
  mkConfigMap ∅ None (Some (POk {["reg/c:1" := Some (mkJsonEntry
      (mkImageEntry "src/c:1" "Failed" "denied" 3 "" "" "" "" false true None false "")
      [mkLegacyRef "is1" "operator" "s" "r"])]})) None None None ∅ None.
Definition ex_since : MirrorManager :=
  set_owners {["reg/c:1" := ["is1"]]} (set_imageState {["reg/c:1" :=
    mkImageEntry "src/c:1" "Mirrored" "" 0 OriginOperator "s" "r" "" false false None false ""]} ex_manager).

(** A ConfigMap of the legacy format that could not be deleted after its
    migration is migrated again by every restart: the first load migrates it
    but its deletion is refused (the error is only logged and the load goes
    on), the flush writes the image as Mirrored, and the next load overwrites
    the flushed state with the old one, in which the image is Failed. *)
Theorem leftover_legacy_overwrites_flushed :
  let c0 := mkCluster {[ConfigMapNameForTarget "mt" := ex_legacy]} [false; false; false; true] in
  let c1 := snd (loadPartitionedState ex_target [ex_set] some_order ex_manager c0) in
  let c2 := snd (flushPartitionedState ex_target ["is1"] ex_since c1) in
  cl_faults c1 = [] ∧
  match fst (loadPartitionedState ex_target [ex_set] some_order ex_manager c2) with
  | inr m2 => State <$> imageState m2 !! "reg/c:1"
  | inl _ => None
  end = Some "Failed".
Proof. vm_compute. done. Qed.

(** An orphan keeps its in-memory mirrored flag.  When an image that was
    mirrored loses its last owner, Phase D moves it to the orphans (whose
    images are then deleted from the registry) without clearing the flag; if
    any ImageSet later asks for the destination again, the next Phase D marks
    the new Pending entry as Mirrored and does not dispatch it, although
    nothing was mirrored. *)
Theorem orphan_readded_not_mirrored now now' ks ks' m st ows d e e' :
  range_order (imageState m) ks → range_order st ks' →
  imageState m !! d = Some e → mirrored_flag m d = true → owners_of (owners m) d = [] →
  st !! d = Some e' → State e' = statePending → owners_of ows d ≠ [] →
  let m1 := sw_m (phaseD now ks m) in
  let s2 := phaseD now' ks' (set_owners ows (set_imageState st m1)) in
  imageState m1 !! d = None ∧
  (∀ b, b ∈ sw_batchable s2 → b_Dest b ≠ d) ∧
  imageState (sw_m s2) !! d = Some (set_State stateMirrored e').
Proof.
  intros Hr Hr' He Hf Ho He' Hs Ho' m1 s2.
  pose proof (phaseD_view now ks m d Hr) as H1. fold m1 in H1.
  pose proof (f_equal dv_entry H1) as H1e. pose proof (f_equal dv_flag H1) as H1f. cbn in H1e, H1f. clear H1.
  unfold swept in H1e, H1f. cbn in H1e, H1f. rewrite He in H1e, H1f.
  fold (owners_of (owners m) d) in H1e, H1f. rewrite (bool_decide_eq_true_2 _ Ho) in H1e, H1f. cbn in H1e, H1f.
  fold m1 in H1e, H1f. unfold mirrored_flag in Hf. split; [exact H1e|]. clear H1e.
  set (m2 := set_owners ows (set_imageState st m1)) in *.
  pose proof (phaseD_view now' ks' m2 d Hr') as H2. fold s2 in H2.
  unfold swept, view_of in H2. cbn in H2. rewrite He' in H2.
  fold (owners_of ows d) in H2. rewrite (bool_decide_eq_false_2 _ Ho'), Hs, H1f, Hf in H2. cbn in H2.
  injection H2 as E1 _ _ _ E2 E3 _ _. split; [|exact E1].
  intros b Hb <-. apply elem_of_app in Hb as [Hb|Hb]; apply elem_of_of_dest in Hb;
    [rewrite E3 in Hb|rewrite E2 in Hb]; by apply elem_of_nil in Hb.
Qed.

(** An image of [is1] that was mirrored, dropped from its spec and added again. *)
Definition ex_dropped : MirrorManager :=
  set_mirrored {["reg/b:1" := true]} (set_owners {["reg/a:1" := ["is1"]]} (set_inProgress ∅ ex_manager)).
Definition ex_readded : gmap string ImageEntry :=
  {["reg/b:1" := mkImageEntry "src/b:1" "Pending" "" 0 OriginOperator "s" "r" "c" false false None false ""]}.

Lemma orphan_readded_not_mirrored_witness :
  let s2 := phaseD 2 ["reg/b:1"] (set_owners {["reg/b:1" := ["is1"]]}
              (set_imageState ex_readded (sw_m (phaseD 1 (some_order (imageState ex_dropped)) ex_dropped)))) in
  (State <$> imageState (sw_m s2) !! "reg/b:1") = Some "Mirrored" ∧ sw_batchable s2 = [].
Proof.
  split; [|vm_compute; reflexivity].
  edestruct (orphan_readded_not_mirrored 1 2 (some_order (imageState ex_dropped)) ["reg/b:1"] ex_dropped ex_readded
    {["reg/b:1" := ["is1"]]} "reg/b:1") as (_ & _ & H).
  - apply some_order_ok.
  - split; [apply NoDup_singleton|]. intros k. unfold ex_readded. rewrite list_elem_of_singleton. split.
    + intros ->. rewrite lookup_singleton_eq. eauto.
    + intros [x Hx]. apply lookup_singleton_Some in Hx as [<- _]. done.
  - reflexivity.
  - reflexivity.
  - reflexivity.
  - reflexivity.
  - reflexivity.
  - discriminate.
  - rewrite H. reflexivity.
Defined.

(** Orphans are lost when the API server refuses the call that records
    them.  Phase D has already removed the entries from the working set; if
    the read of the orphans ConfigMap fails (any error but "not found") or the
    write does, the error is only logged, the tick goes on, the ConfigMap is
    as before and no later tick knows the destinations: they are never cleaned
    up. *)
Theorem failed_orphan_write_loses_orphans mt now ks m c fs d e :
  range_order (imageState m) ks → imageState m !! d = Some e → owners_of (owners m) d = [] →
  cl_faults c = true :: fs →
  let s := phaseD now ks m in
  persistOrphans mt s c = (inr tt, mkCluster (cl_cms c) fs) ∧
  sw_orphans s !! d = Some e ∧ imageState (sw_m s) !! d = None.
Proof.
  intros Hr He Ho Hf s. pose proof (phaseD_view now ks m d Hr) as H1. fold s in H1.
  unfold swept, view_of in H1. cbn in H1. rewrite He in H1.
  fold (owners_of (owners m) d) in H1. rewrite (bool_decide_eq_true_2 _ Ho) in H1. cbn in H1.
  injection H1 as E1 _ _ E2 _ _ _ _. split_and!; [|exact E2|exact E1].
  unfold persistOrphans. rewrite decide_False by (intros H0; by rewrite H0, lookup_empty in E2).
  rewrite attempt_bind. unfold appendOrphans, LoadByConfigMapName.
  unfold mbind, M_bind, attempt, api_get, call. by rewrite Hf.
Qed.

Lemma failed_orphan_write_loses_orphans_witness :
  let s := phaseD 1 (some_order (imageState ex_dropped)) ex_dropped in
  snd (persistOrphans ex_target s (mkCluster ∅ [true])) = mkCluster ∅ [] ∧ is_Some (sw_orphans s !! "reg/b:1").
Proof.
  edestruct (failed_orphan_write_loses_orphans ex_target 1 (some_order (imageState ex_dropped)) ex_dropped
    (mkCluster ∅ [true]) [] "reg/b:1") as (H1 & H2 & _).
  - apply some_order_ok.
  - reflexivity.
  - reflexivity.
  - reflexivity.
  - intros s. split; [unfold s; rewrite H1; reflexivity|]. eexists. exact H2.
Defined.
