(* ===== verification/Tick.v ===== *)
(** * A whole tick of the manager

    What holds after [reconcile], whichever API calls failed and whatever the
    other goroutines did while the lock was released. *)
From S2P Require Import Prelude Effects GoStrings ImageRef ImageState Owners ManagerState Api Resolve Status Resources Reconcile.

(** The ownership table refers to the working set and to the ImageSets of the
    target only. *)
Definition target_wf (names : list string) (m : MirrorManager) : Prop :=
  owners_wf (imageState m) (owners m) ∧ ∀ d n, n ∈ owners_of (owners m) d → n ∈ names.

(** * Lemmas *)

Lemma target_wf_safe names m m' : safe m m' → target_wf names m → target_wf names m'.
Proof. intros (_ & _ & H3 & H4) [Hwf Hin]. split; [auto|]. intros d n Hn. eauto. Qed.

Lemma target_wf_same names m m' :
  imageState m' = imageState m → owners m' = owners m → target_wf names m → target_wf names m'.
Proof. unfold target_wf. by intros -> ->. Qed.

(** ** Dropping, loading *)

Lemma dropped_wf names m :
  owners_wf (imageState m) (owners m) → target_wf names (fst (dropRemovedImageSetsLocked names m)).
Proof.
  intros Hwf. destruct (safe_drop names m) as (_ & _ & Hd & _). split; [auto|]. intros d n.
  pose proof (drop_view names m d) as Hv. unfold owned_view in Hv. cbn zeta in Hv. unfold owners_of.
  set (ows := owners (fst (dropRemovedImageSetsLocked names m))) in *. clearbody ows.
  destruct (owners m !! d) as [ns|] eqn:E; cbn in Hv.
  2:{ injection Hv as _ _ H3. rewrite H3, E. by intros ?%elem_of_nil. }
  destruct (bool_decide_reflect (length (List.filter (containsString names) ns) = length ns)) as [Hl|_].
  - injection Hv as _ _ H3. rewrite H3, E. cbn. apply filter_bool_length_eq in Hl as [_ Hall].
    rewrite Forall_forall in Hall. intros Hn. by apply existsb_eqb, Hall.
  - destruct (bool_decide _); injection Hv as _ _ H3; rewrite H3; cbn; [by intros ?%elem_of_nil|].
    intros [Hn _]%elem_of_filter_bool. by apply existsb_eqb.
Qed.

Definition loaded_wf (names : list string) (l : loaded) : Prop :=
  owners_wf (ld_state l) (ld_owners l) ∧ ∀ d n, n ∈ owners_of (ld_owners l) d → n ∈ names.

Lemma owners_wf_add (state : gmap string ImageEntry) ows d e n :
  owners_wf state ows → owners_wf (<[d := e]> state) (addOwner d n ows).
Proof.
  intros Hwf d' ns Hn. destruct (decide (d' = d)) as [->|Hne].
  - assert (owners_of (addOwner d n ows) d = ns) as Ho by (unfold owners_of; by rewrite Hn).
    pose proof (owners_wf_NoDup _ _ d Hwf) as Hnd. rewrite owners_of_addOwner in Ho. rewrite lookup_insert_eq.
    case_decide as Hd; subst ns.
    + split_and!; [by destruct (owners_of ows d)| |done]. apply NoDup_app. split_and!; [done|set_solver|apply NoDup_singleton].
    + assert (n ∈ owners_of ows d) as Hin by (destruct (decide (n ∈ owners_of ows d)); naive_solver).
      split_and!; [intros H0; rewrite H0 in Hin; by apply elem_of_nil in Hin|done|done].
  - rewrite addOwner_lookup_ne in Hn by done. apply Hwf in Hn as (? & ? & ?). by rewrite lookup_insert_ne.
Qed.

Lemma load_entry_wf names n d oe l : n ∈ names → loaded_wf names l → loaded_wf names (load_entry n d oe l).
Proof.
  intros Hn [Hwf Hin]. destruct oe as [e|]; [|done]. split; cbn; [by apply owners_wf_add|].
  intros d' n'. rewrite owners_of_addOwner. case_decide as Hd; [|apply Hin].
  rewrite elem_of_app, list_elem_of_singleton. intros [Hx| ->]; [by eapply Hin|done].
Qed.

Lemma load_all_wf mt items l c :
  loaded_wf (mt_ImageSets mt) l →
  ∃ l' c', load_all mt l items c = (inr l', c') ∧ loaded_wf (mt_ImageSets mt) l'.
Proof.
  revert l c. induction items as [|iset items IH]; intros l c Hl; cbn; [eauto|].
  assert (∃ l1 c1, load_imageset mt l iset c = (inr l1, c1) ∧ loaded_wf (mt_ImageSets mt) l1) as (l1 & c1 & E1 & H1).
  { unfold load_imageset. destruct (containsString (mt_ImageSets mt) (is_Name iset)) eqn:Ec; cbn [negb]; [|eauto].
    rewrite attempt_bind. destruct (fst (LoadWithCatalogDigests _ c)) as [err|[st dg]]; [eauto|].
    eexists _, _. split; [reflexivity|]. apply range_inv; [done|]. intros d oe s _ Hs.
    apply load_entry_wf; [by apply existsb_eqb|done]. }
  rewrite (bind_inr _ _ _ _ _ E1). auto.
Qed.

Lemma load_wf mt items order m c :
  ∃ m' c', loadPartitionedState mt items order m c = (inr m', c') ∧ target_wf (mt_ImageSets mt) m'.
Proof.
  unfold loadPartitionedState. rewrite attempt_bind.
  set (c1 := snd (MigrateConsolidatedToPerImageSet _ _ _ c)). clearbody c1.
  destruct (load_all_wf mt items (mkLoaded ∅ ∅ ∅ ∅) c1) as (l & c2 & E & Hl).
  { split; cbn; [apply map_Forall_empty|]. intros d n. unfold owners_of. rewrite lookup_empty. by intros ?%elem_of_nil. }
  rewrite (bind_inr _ _ _ _ _ E). eexists _, c2. split; [reflexivity|]. exact Hl.
Qed.

(** ** Resolving *)

Lemma merged_wf (names : list string) state ows perIS n :
  n ∈ names → owners_wf state ows → (∀ d n, n ∈ owners_of ows d → n ∈ names) →
  let '(state', ows', _) := mergeResolvedIntoConsolidated state ows perIS n in
  owners_wf state' ows' ∧ ∀ d n, n ∈ owners_of ows' d → n ∈ names.
Proof.
  intros Hn Hwf Hin. pose proof (mergeResolved_spec state ows perIS n) as Hsp.
  pose proof (merged_owners_exact state ows perIS n Hwf) as Hex.
  destruct (mergeResolvedIntoConsolidated _ _ _ _) as [[state' ows'] orphaned].
  destruct Hsp as (Hst & How & _). destruct Hex as [_ Hoth]. split.
  - intros d ns Ens. apply (merged_owners_wf state ows perIS n) with (d := d) (ns := ns) in Hwf as (? & ? & Hs);
      [|by rewrite <- How]. split_and!; [done..|]. rewrite Hst.
    destruct (perIS !! d); [by eauto|]. by destruct Hs as [[]|?].
  - intros d n' Hn'. destruct (decide (n' = n)) as [->|Hne]; [done|]. apply (Hin d). by apply Hoth.
Qed.

Lemma integrate_wf names iset isViewEmpty recollect r m :
  is_Name iset ∈ names → target_wf names m → target_wf names (integrate_resolve iset isViewEmpty recollect r m).
Proof.
  intros Hn Hm. unfold integrate_resolve.
  set (m1 := set_statusDirty true m). assert (H1 : target_wf names m1) by done. clearbody m1.
  match goal with |- context [if recollect then _ else ?x] => set (m2 := x) end.
  assert (H2 : target_wf names m2).
  { unfold m2. destruct (_ || _); [|done].
    pose proof (merged_wf names (imageState m1) (owners m1) (mergeWorkerUpdates (rr_state r) (imageState m))
      (is_Name iset) Hn (proj1 H1) (proj2 H1)) as Hg.
    by destruct (mergeResolvedIntoConsolidated _ _ _ _) as [[st ows] o]. }
  clearbody m2.
  match goal with |- context [setCatalogDigestsLocked _ _ ?x] => set (m3 := x) end.
  assert (H3 : target_wf names m3).
  { unfold m3. destruct recollect; [|done]. pose proof (safe_recollect (is_Name iset) m2) as Hs.
    destruct (resetFailedForRecollectLocked _ _) as [m' []]; apply (target_wf_safe _ _ _ Hs H2). }
  clearbody m3. unfold setCatalogDigestsLocked. by destruct (bool_decide _).
Qed.

Section tick.
Context `{Hash : HashJSON}.

Lemma phaseB_wf up now gap1 gap2 mt items m rs :
  (∀ name m, rtc mstep m (gap1 name m)) → (∀ name m, rtc mstep m (gap2 name m)) →
  target_wf (mt_ImageSets mt) m →
  target_wf (mt_ImageSets mt) (fst (foldl (phaseB_one up now gap1 gap2 mt) (m, rs) items)).
Proof.
  intros Hg1 Hg2 Hm. apply (foldl_inv_simple (λ acc, target_wf (mt_ImageSets mt) (fst acc))); [done|].
  clear m rs Hm. intros iset [m rs] _ Hm. cbn in Hm. unfold phaseB_one.
  destruct (containsString (mt_ImageSets mt) (is_Name iset)) eqn:Ec; cbn [negb]; [|done].
  apply existsb_eqb in Ec.
  match goal with |- context [filterByImageSet (imageState ?x) _ _ _] => set (m1 := x) end.
  assert (H1 : target_wf (mt_ImageSets mt) m1).
  { unfold m1. destruct (bool_decide _); [|done]. pose proof (safe_resync (is_Name iset) m) as Hs.
    destruct (resetImageSetToPendingLocked _ _) as [m' []]; apply (target_wf_safe _ _ _ (msteps_safe _ _ (Hg1 _ _)));
      apply (target_wf_safe _ _ _ Hs Hm). }
  clearbody m1. destruct (negb _); [done|]. cbn [fst].
  apply integrate_wf; [done|]. apply (target_wf_safe _ _ _ (msteps_safe _ _ (Hg2 _ _)) H1).
Qed.

(** ** The sweep *)

Lemma phaseD_wf names now ks m :
  range_order (imageState m) ks → target_wf names m →
  let m' := sw_m (phaseD now ks m) in
  target_wf names m' ∧ (∀ d, is_Some (imageState m' !! d) → owners_of (owners m') d ≠ []) ∧
  ∀ item, item ∈ sw_batchable (phaseD now ks m) → owners_of (owners m') (b_Dest item) ≠ [].
Proof.
  intros Hr [Hwf Hin] m'.
  assert (Hitem : ∀ item, item ∈ sw_batchable (phaseD now ks m) → owners_of (owners m) (b_Dest item) ≠ []).
  { intros item Hi. assert (Hd : item ∈ of_dest (b_Dest item) (sw_bundles (phaseD now ks m)) ∨ item ∈ of_dest (b_Dest item) (sw_pending (phaseD now ks m))).
    { apply elem_of_app in Hi as [Hi|Hi]; [left|right]; unfold of_dest; apply elem_of_filter_bool; by rewrite String.eqb_refl. }
    destruct (phaseD_items now ks m (b_Dest item) Hr) as [(E1 & E2 & _)|(e & _ & [Ho _] & _)]; [|done].
    rewrite E1, E2 in Hd. by destruct Hd as [?%elem_of_nil|?%elem_of_nil]. }
  assert (Hv : ∀ d, (imageState m' !! d = None ∧ owners m' !! d = None ∧ owners_of (owners m) d = []) ∨
    (is_Some (imageState m' !! d) ∧ owners m' !! d = owners m !! d ∧ owners_of (owners m) d ≠ [])).
  { intros d. pose proof (phaseD_view now ks m d Hr) as Hv. fold m' in Hv.
    pose proof (f_equal dv_entry Hv) as H1. pose proof (f_equal dv_owners Hv) as H2. clear Hv. cbn in H1, H2.
    fold m' in H1, H2. rewrite H1, H2. clear H1 H2. unfold swept, with_entry. cbn.
    destruct (imageState m !! d) as [e|] eqn:E; cbn.
    2:{ left. rewrite E. unfold owners_of. destruct (owners m !! d) as [ns|] eqn:Eo; [|done].
        apply Hwf in Eo as (_ & _ & [? ?]). congruence. }
    fold (owners_of (owners m) d). destruct (bool_decide_reflect (owners_of (owners m) d = [])); cbn; [by left|right].
    repeat (match goal with |- context [if ?b then _ else _] => destruct b end; cbn); by eauto. }
  clearbody m'. split; [split|split].
  - intros d ns Hn. destruct (Hv d) as [(_ & H2 & _)|(H1 & H2 & _)]; [congruence|].
    rewrite H2 in Hn. apply Hwf in Hn as (? & ? & _). by split_and!.
  - intros d n. unfold owners_of. destruct (Hv d) as [(_ & -> & _)|(_ & -> & _)]; [by intros ?%elem_of_nil|apply Hin].
  - intros d [e He]. unfold owners_of. destruct (Hv d) as [(H1 & _)|(_ & -> & H3)]; [congruence|exact H3].
  - intros item Hi. apply Hitem in Hi. destruct (Hv (b_Dest item)) as [(_ & _ & ?)|(_ & E & H3)]; [done|]. unfold owners_of. rewrite E. exact H3.
Qed.

(** ** Steps that keep the table *)

Lemma drain_owners ev m : owners (drainStatusQueueLocked ev m) = owners m.
Proof.
  unfold drainStatusQueueLocked.
  destruct (drain_foldl ev (statusQueue m) (set_statusQueue [] m) 0) as (l & -> & _).
  apply (foldl_inv_simple (λ m', owners m' = owners m)); [done|].
  intros [e r] acc _ <-. apply applyStatus_frame.
Qed.

Lemma dispatch_frame start conc bs fuel k pending active m :
  let m' := fst (dispatch start conc bs fuel k pending active m) in
  imageState m' = imageState m ∧ owners m' = owners m.
Proof.
  revert k pending active m. induction fuel as [|fuel IH]; intros k pending active m; cbn; [done|].
  destruct pending as [|b pending]; [done|]. destruct (_ <? _)%Z; [|done].
  destruct (start k) as [p|]; [|apply IH].
  specialize (IH (S k) (drop bs (b :: pending)) ({[p]} ∪ active) (foldl (track p) m (take bs (b :: pending)))).
  destruct (dispatch _ _ _ _ _ _ _ _) as [m1 started]. cbn in *. destruct IH as [-> ->].
  apply (foldl_inv_simple (λ m', imageState m' = imageState m ∧ owners m' = owners m)); [done|].
  by intros x acc _ [<- <-].
Qed.

Lemma flush_all_total mt m names c : ∃ ok c', flush_all mt m names c = (inr ok, c').
Proof.
  revert c. induction names as [|n names IH]; intros c; cbn; [eexists _, _; reflexivity|].
  rewrite attempt_bind. destruct (IH (snd (SaveWithCatalogDigests n (flush_state m n)
    (default ∅ (catalogDigests m !! n)) (Some (mt_Name mt)) c))) as (ok & c' & E).
  rewrite (bind_inr _ _ _ _ _ E). eexists _, _. reflexivity.
Qed.

Lemma saveSummary_total mt m c : ∃ ok c', saveSummary mt m c = (inr ok, c').
Proof. unfold saveSummary. rewrite attempt_bind. eexists _, _. reflexivity. Qed.

Lemma flush_total mt names m c :
  ∃ m' ok c', flushPartitionedState mt names m c = (inr (m', ok), c') ∧
    imageState m' = imageState m ∧ owners m' = owners m.
Proof.
  unfold flushPartitionedState. destruct (flush_all_total mt m names c) as (ok1 & c1 & E1).
  rewrite (bind_inr _ _ _ _ _ E1), attempt_bind.
  destruct (saveSummary_total mt m (snd (SaveIndex (mt_Name mt) (flush_index m) (Some (mt_Name mt)) c1))) as (ok3 & c3 & E3).
  rewrite (bind_inr _ _ _ _ _ E3). eexists _, _, _. split; [reflexivity|]. by destruct ok3.
Qed.

Lemma phaseF_frame ev mt names m c :
  ∃ m' c', phaseF ev mt names m c = (inr m', c') ∧
    imageState m' = imageState (drainStatusQueueLocked ev m) ∧ owners m' = owners m.
Proof.
  unfold phaseF. rewrite <- (drain_owners ev m). set (m1 := drainStatusQueueLocked ev m). clearbody m1.
  destruct (stateDirty m1).
  - destruct (flush_total mt names m1 c) as (m2 & ok & c2 & E & H1 & H2).
    rewrite (bind_inr _ _ _ _ _ E). eexists _, _. split; [reflexivity|]. by destruct ok.
  - destruct (summaryWritten m1); cbn [negb]; [by eauto|].
    destruct (saveSummary_total mt m1 c) as (ok & c1 & E).
    rewrite (bind_inr _ _ _ _ _ E). eexists _, _. split; [reflexivity|]. by destruct ok.
Qed.

Lemma cleanup_safe ev gap pods m : safe m (gap m) → safe m (fst (cleanupFinishedWorkers ev gap pods m)).
Proof. intros Hg. unfold cleanupFinishedWorkers. destruct pods; [|done]. etrans; [exact Hg|]. apply safe_cleanup. Qed.

Lemma persistOrphans_total mt s c : ∃ c', persistOrphans mt s c = (inr tt, c').
Proof.
  unfold persistOrphans. case_decide; [by eexists|]. rewrite attempt_bind. by eexists.
Qed.

(** The working set a tick ends with is owned. *)
Lemma owned_after_drain ev m :
  (∀ d, is_Some (imageState m !! d) → owners_of (owners m) d ≠ []) →
  ∀ d, is_Some (imageState (drainStatusQueueLocked ev m) !! d) → owners_of (owners m) d ≠ [].
Proof.
  intros Ho d [e He]. apply Ho. destruct (safe_drain ev m) as (Hev & _). apply Hev in He as (e0 & ? & _). eauto.
Qed.

(** What runs while the lock is released are steps of the handlers. *)
Definition gaps_ok (t : Tick) : Prop :=
  (∀ m, rtc mstep m (t_gap0 t m)) ∧ (∀ m, rtc mstep m (t_gap0' t m)) ∧
  (∀ name m, rtc mstep m (t_gap1 t name m)) ∧ (∀ name m, rtc mstep m (t_gap2 t name m)).

Lemma reconcile_tail `{Marshal} t mt items m c :
  t_target t = Some mt → t_items t = Some items →
  gaps_ok t →
  (∀ st, range_order st (t_keys t st)) →
  owners_wf (imageState m) (owners m) →
  ∃ m' res c', reconcile t m c = (inr (m', Some res), c') ∧
    target_wf (mt_ImageSets mt) m' ∧ (∀ d, is_Some (imageState m' !! d) → owners_of (owners m') d ≠ []) ∧
    ∀ pod batch item, (pod, batch) ∈ tr_started res → item ∈ batch → owners_of (owners m') (b_Dest item) ≠ [].
Proof.
  intros Ht Hi (Hg0 & Hg0' & Hg1 & Hg2) Hk Hwf. unfold reconcile. rewrite Ht, Hi.
  set (m0 := set_maxRetries _ _).
  assert (H0 : owners_wf (imageState m0) (owners m0)).
  { unfold m0. set (m1 := fst (cleanupFinishedWorkers _ _ _ m)).
    change (owners_wf (imageState (drainStatusQueueLocked (t_ev2 t) (t_gap0' t m1))) (owners (drainStatusQueueLocked (t_ev2 t) (t_gap0' t m1)))).
    assert (Hs : safe m (t_gap0' t m1)); [|by apply safe_drain, Hs].
    etrans; [|apply msteps_safe, Hg0']. apply cleanup_safe, msteps_safe, Hg0. }
  clearbody m0.
  assert (∃ m1 c1, (if decide (imageState m0 = ∅) then loadPartitionedState mt items (t_order t) m0 else mret m0) c
     = (inr m1, c1) ∧ owners_wf (imageState m1) (owners m1)) as (m1 & c1 & E1 & H1).
  { case_decide; [|by eexists _, _]. destruct (load_wf mt items (t_order t) m0 c) as (m1 & c1 & E & [? _]). eauto. }
  rewrite (bind_inr _ _ _ _ _ E1). pose proof (dropped_wf (mt_ImageSets mt) m1 H1) as H2.
  destruct (dropRemovedImageSetsLocked (mt_ImageSets mt) m1) as [m2 dropped]. cbn in H2.
  set (m2' := if dropped then set_stateDirty true m2 else m2).
  assert (H2' : target_wf (mt_ImageSets mt) m2') by (unfold m2'; by destruct dropped). clearbody m2'.
  pose proof (phaseB_wf (t_up t) (t_now t) (t_gap1 t) (t_gap2 t) mt items m2' (mkResolvedSets ∅ ∅) Hg1 Hg2 H2') as H3.
  fold (phaseB (t_up t) (t_now t) (t_gap1 t) (t_gap2 t) mt items m2') in H3.
  destruct (phaseB _ _ _ _ _ _ _) as [m3 rs]. cbn in H3.
  assert (H4 : target_wf (mt_ImageSets mt) (fst (phaseC (t_now t) mt (t_keys t (imageState m3)) m3))).
  { unfold phaseC. destruct (_ && _); [|done]. unfold startDriftSweepLocked. destruct (driftSweepRunning _); [done|].
    by destruct (List.filter _ _). }
  destruct (phaseC _ _ _ _) as [m4 sw]. cbn in H4.
  destruct (phaseD_wf _ (t_now t) _ m4 (Hk (imageState m4)) H4) as (H5 & H6 & Hit).
  set (s := phaseD _ _ _) in *. clearbody s.
  destruct (persistOrphans_total mt s c1) as (c2 & E2). rewrite (bind_inr _ _ _ _ _ E2).
  unfold phaseE. pose proof (dispatch_frame (t_start t) (effectiveConcurrency mt) (Z.to_nat (effectiveBatchSize mt))
    (length (sw_batchable s)) 0 (sw_batchable s) (activePods (sw_m s)) (sw_m s)) as [F1 F2].
  pose proof (dispatch_spec (t_start t) (effectiveConcurrency mt) (Z.to_nat (effectiveBatchSize mt))
    (length (sw_batchable s)) 0 (sw_batchable s) (activePods (sw_m s)) (sw_m s)) as Hsp.
  destruct (dispatch _ _ _ _ _ _ _ _) as [m6 started]. cbn in F1, F2. destruct Hsp as [Hsub _].
  assert (Hst : ∀ pod batch item, (pod, batch) ∈ started → item ∈ batch → owners_of (owners m6) (b_Dest item) ≠ []).
  { intros pod batch item Hp Hb. rewrite F2. apply Hit. eapply sublist_subseteq; [exact Hsub|]. apply elem_of_concat_map. by exists (pod, batch). }
  destruct (phaseF_frame (t_ev3 t) mt (t_names t) m6 c2) as (m7 & c3 & E3 & G1 & G2).
  rewrite (bind_inr _ _ _ _ _ E3). unfold phaseG.
  assert (H7 : target_wf (mt_ImageSets mt) m7 ∧ (∀ d, is_Some (imageState m7 !! d) → owners_of (owners m7) d ≠ []) ∧
    ∀ pod batch item, (pod, batch) ∈ started → item ∈ batch → owners_of (owners m7) (b_Dest item) ≠ []).
  { split; [|split; [|by rewrite G2]].
    - apply (target_wf_same _ (drainStatusQueueLocked (t_ev3 t) m6)); [done|by rewrite drain_owners|].
      apply (target_wf_safe _ m6); [apply safe_drain|]. by apply (target_wf_same _ (sw_m s)).
    - rewrite G1, G2. apply owned_after_drain. rewrite F1, F2. exact H6. }
  clear -H7. destruct (statusDirty m7); rewrite bind_eq, ignore_eq; (eexists _, _, _; split; [reflexivity|]); exact H7.
Qed.

(** A tick that cannot read its objects has only run what comes before. *)
Lemma reconcile_early `{Marshal} t m c :
  t_target t = None ∨ t_items t = None → gaps_ok t →
  ∃ m', reconcile t m c = (inr (m', None), c) ∧ safe m m'.
Proof.
  intros Hn (Hg0 & Hg0' & _). unfold reconcile.
  set (m1 := drainStatusQueueLocked _ _).
  assert (Hs : safe m m1).
  { unfold m1. etrans; [|apply safe_drain]. etrans; [|apply msteps_safe, Hg0']. apply cleanup_safe, msteps_safe, Hg0. }
  exists m1. split; [|done]. destruct Hn as [-> | ->]; [done|by destruct (t_target t)].
Qed.

(** ** The manager as a whole

    The handlers and background tasks between the ticks, and the ticks, whatever
    handlers run while a tick has released the lock, whatever it reads and
    whichever API calls fail. *)
Inductive mgr_step `{Marshal} : MirrorManager → MirrorManager → Prop :=
| mgr_handler m m' : mstep m m' → mgr_step m m'
| mgr_tick t c m m' res c' :
    gaps_ok t → (∀ st, range_order st (t_keys t st)) →
    reconcile t m c = (inr (m', res), c') → mgr_step m m'.

Lemma mgr_step_owners `{Marshal} m m' :
  mgr_step m m' → owners_wf (imageState m) (owners m) → owners_wf (imageState m') (owners m').
Proof.
  intros [m1 m2 Hs|t c m1 m2 res c' Hg Hk E] Hwf; [by apply mstep_safe in Hs as (_ & _ & ? & _); auto|].
  destruct (t_target t) as [mt|] eqn:Et; [destruct (t_items t) as [items|] eqn:Ei|].
  - destruct (reconcile_tail t mt items m1 c Et Ei Hg Hk Hwf) as (m3 & res' & c3 & E' & [H1 _] & _).
    rewrite E in E'. by injection E' as -> _ _.
  - destruct (reconcile_early t m1 c (or_intror Ei) Hg) as (m3 & E' & (_ & _ & ? & _)).
    rewrite E in E'. injection E' as -> _ _. auto.
  - destruct (reconcile_early t m1 c (or_introl Et) Hg) as (m3 & E' & (_ & _ & ? & _)).
    rewrite E in E'. injection E' as -> _ _. auto.
Qed.
End tick.

(** * Properties *)

(** C1: a tick that can read its target and ImageSets always runs to its end,
    whichever other API calls fail and whatever handlers run while the lock is
    released, and takes a consistent ownership table to a consistent working set:
    every entry has an owner, every owner is an ImageSet the target still lists,
    and every owner list is duplicate-free and belongs to an entry.  Every batch it starts consists of
    destinations that an ImageSet the target still lists owns: nothing is
    dispatched for a removed ImageSet. *)
Theorem reconcile_completes_consistent `{HashJSON} `{Marshal} t mt items m c :
  t_target t = Some mt → t_items t = Some items → gaps_ok t →
  (∀ st, range_order st (t_keys t st)) →
  owners_wf (imageState m) (owners m) →
  ∃ m' res c', reconcile t m c = (inr (m', Some res), c') ∧
    owners_wf (imageState m') (owners m') ∧
    (∀ d, is_Some (imageState m' !! d) → owners_of (owners m') d ≠ []) ∧
    (∀ d n, n ∈ owners_of (owners m') d → n ∈ mt_ImageSets mt) ∧
    (∀ pod batch item, (pod, batch) ∈ tr_started res → item ∈ batch → ∃ n, n ∈ owners_of (owners m') (b_Dest item) ∧ n ∈ mt_ImageSets mt).
Proof.
  intros Ht Hi Hg Hk Hwf.
  destruct (reconcile_tail t mt items m c Ht Hi Hg Hk Hwf) as (m' & res & c' & E & [H1 H2] & H3 & H4).
  exists m', res, c'. split_and!; [done..|]. intros pod batch item Hp Hb. specialize (H4 pod batch item Hp Hb).
  destruct (owners_of (owners m') (b_Dest item)) as [|n ns] eqn:Eo; [done|]. exists n. split; [by left|]. apply (H2 (b_Dest item)). rewrite Eo. by left.
Qed.

(** A tick after a restart, with every second API call failing and a worker
    report arriving during the resolve. *)
Definition ex_tick : Tick :=
  mkTick ex_ev ex_ev ex_ev 100 (Some []) (Some ex_target) (Some [ex_set]) (λ _, []) (λ _, down) id id (λ _ m, m)
    (λ _ m, snd (handleStatusUpdate ex_ev "POST" "Bearer tok" (Some ex_success) false m))
    some_order (λ _, Some "pod-2") ["is1"] (λ _ _, Some ex_set) (λ _ _, Updated) "ns" elements.

Lemma reconcile_completes_consistent_witness :
  ∃ m' res c', @reconcile ex_hash (λ _, Some "doc") ex_tick ex_manager (mkCluster ∅ [true; false; true]) = (inr (m', Some res), c') ∧
    ∀ d n, n ∈ owners_of (owners m') d → n ∈ ["is1"].
Proof.
  destruct (@reconcile_completes_consistent ex_hash (λ _, Some "doc") ex_tick ex_target [ex_set] ex_manager (mkCluster ∅ [true; false; true]))
    as (m' & res & c' & E & _ & _ & H & _).
  - reflexivity.
  - reflexivity.
  - split; [intros m; apply rtc_refl|]. split; [intros m; apply rtc_refl|]. split; [intros name m; apply rtc_refl|].
    intros name m. apply rtc_once. constructor.
  - intros st. apply some_order_ok.
  - apply ex_manager_inv.
  - exists m', res, c'. split; [exact E|exact H].
Defined.

(** C9: the manager keeps its ownership table and its fast-path flags
    consistent with the working set.  In every interleaving of the handlers
    and background tasks (worker reports, drains, pod cleanups, recovery, drift
    results from old snapshots, force-resync, recollect, removal of ImageSets)
    with whole ticks, loading, merging, Phase D, dispatch and flush included
    and with handlers running wherever a tick releases the lock, whichever API
    calls fail, every owner list stays non-empty and duplicate-free and belongs
    to an existing entry.  Along the handlers alone, a destination flagged as
    mirrored is in the working set with State Mirrored.  (Phase D does not keep
    the latter: it leaves the flag of an orphan it removes, see
    [orphan_readded_not_mirrored].) *)
Theorem manager_keeps_invariants `{HashJSON} `{Marshal} m m' :
  (rtc mgr_step m m' → owners_wf (imageState m) (owners m) → owners_wf (imageState m') (owners m')) ∧
  (rtc mstep m m' → flag_inv m → flag_inv m').
Proof.
  split.
  - induction 1 as [|m1 m2 m3 Hs _ IH]; [done|]. intros Hwf. apply IH. by apply (mgr_step_owners m1 m2 Hs).
  - intros Hs. apply msteps_safe in Hs as (_ & ? & _). auto.
Qed.

(** A force-resync, a drain, then a tick after a restart of the API server. *)
Lemma manager_keeps_invariants_witness :
  let m1 := drainStatusQueueLocked ex_ev (fst (resetImageSetToPendingLocked "is1" ex_manager)) in
  flag_inv m1 ∧
  match fst (@reconcile ex_hash (λ _, Some "doc") ex_tick m1 (mkCluster ∅ [true; false; true])) with
  | inr (m', _) => owners_wf (imageState m') (owners m')
  | inl _ => False
  end.
Proof.
  intros m1. split.
  { apply (@manager_keeps_invariants ex_hash (λ _, Some "doc") ex_manager m1); [apply ex_steps|apply ex_manager_inv]. }
  destruct (@reconcile ex_hash (λ _, Some "doc") ex_tick m1 (mkCluster ∅ [true; false; true])) as [[e|[m' res]] c'] eqn:E; cbn [fst].
  - assert (Hx : match fst (@reconcile ex_hash (λ _, Some "doc") ex_tick m1 (mkCluster ∅ [true; false; true])) with inr _ => true | inl _ => false end = true)
      by (vm_compute; reflexivity).
    rewrite E in Hx. discriminate Hx.
  - apply (@manager_keeps_invariants ex_hash (λ _, Some "doc") ex_manager m'); [|apply ex_manager_inv].
    eapply rtc_l; [apply mgr_handler, step_resync|]. eapply rtc_l; [apply mgr_handler, (step_drain ex_ev)|].
    eapply rtc_l; [|apply rtc_refl]. eapply mgr_tick; [| |exact E].
    + split; [intros m; apply rtc_refl|]. split; [intros m; apply rtc_refl|]. split; [intros name m; apply rtc_refl|].
      intros name m. apply rtc_once. constructor.
    + apply some_order_ok.
Defined.
