(* ===== verification/Cleanup.v ===== *)
(** * Removing images from the target registry

    The cleanup part of internal/controller/mirrortarget_controller.go
    (reconcileCleanup and what it calls) and the cleanup Job itself,
    pkg/mirror/cleanup/cleanup.go.

    The controller works on the ConfigMaps of [ImageState] and on Jobs; both
    kinds of calls draw from the same fault schedule.  A Job is the name of the
    snapshot ConfigMap it was started with and its counters; deleting one takes
    effect at once.  The first eight hex digits of the SHA-256 sum that the
    names of Jobs and snapshots end in are a parameter. *)
From S2P Require Import Prelude Effects GoStrings ImageRef ImageState Owners ManagerState Api Resolve Status Reconcile.

(** ** Names *)

(** [hex(sha256(target ++ "\x00" ++ imageSet))[:8]]: eight hex digits. *)
Class NameSum := {
  sum8 : string → string → string;
  sum8_length : ∀ t n, String.length (sum8 t n) = 8;
  sum8_hex : ∀ t n c, has_char c (sum8 t n) = true → has_char c "0123456789abcdef" = true;
}.

Section with_sum.
Context `{NameSum}.

Definition cleanupJobName (targetName imageSetName : string) : string :=
  let body := "cleanup-" +:+ targetName +:+ "-" +:+ imageSetName in
  let body := if (54 <? String.length body)%nat then take_bytes 54 body else body in
  TrimRight "-" body +:+ "-" +:+ sum8 targetName imageSetName.

Definition cleanupSnapshotCMName (targetName imageSetName : string) : string :=
  let body := targetName +:+ "-cleanup-" +:+ imageSetName in
  let body := if (244 <? String.length body)%nat then take_bytes 244 body else body in
  TrimRight "-" body +:+ "-" +:+ sum8 targetName imageSetName.
End with_sum.

(** ** The state the controller works on *)

Record Job := mkJob { job_ConfigMap : string; job_Succeeded : Z; job_Failed : Z }.

(** The part of [MirrorTargetStatus] the cleanup reads and writes. *)
Record TargetStatus := mkTargetStatus {
  ts_Conditions : list Condition;
  ts_KnownImageSets : list string;
  ts_PendingCleanup : list string;
}.

Record Ctl := mkCtl { ct_cluster : Cluster; ct_jobs : gmap string Job; ct_status : TargetStatus }.

Definition ct_cms (s : Ctl) : gmap string ConfigMap := cl_cms (ct_cluster s).
Definition set_cluster (c : Cluster) (s : Ctl) : Ctl := mkCtl c (ct_jobs s) (ct_status s).
Definition set_status (st : TargetStatus) (s : Ctl) : Ctl := mkCtl (ct_cluster s) (ct_jobs s) st.
Definition set_Pending (p : list string) (s : Ctl) : Ctl :=
  set_status (mkTargetStatus (ts_Conditions (ct_status s)) (ts_KnownImageSets (ct_status s)) p) s.
Definition pending (s : Ctl) : list string := ts_PendingCleanup (ct_status s).

(** [EStale]: the requeue signal "stale cleanup job deleted". *)
Inductive ctlErr := EApi (e : apiErr) | EStale.

Abbreviation CTL := (M Ctl ctlErr).

Definition lift {A} (m : API A) : CTL A := λ s,
  let '(r, c) := m (ct_cluster s) in
  (match r with inl e => inl (EApi e) | inr a => inr a end, set_cluster c s).

Definition job_call {A} (f : gmap string Job → (apiErr + A) * gmap string Job) : CTL A := λ s,
  let c := ct_cluster s in
  match cl_faults c with
  | true :: fs => (inl (EApi ErrOther), set_cluster (mkCluster (cl_cms c) fs) s)
  | fs =>
    let '(r, jobs) := f (ct_jobs s) in
    (match r with inl e => inl (EApi e) | inr a => inr a end,
     mkCtl (mkCluster (cl_cms c) (tail fs)) jobs (ct_status s))
  end.
Definition job_get (name : string) : CTL Job := job_call (λ jobs,
  match jobs !! name with Some j => (inr j, jobs) | None => (inl ErrNotFound, jobs) end).
Definition job_create (name : string) (j : Job) : CTL unit := job_call (λ jobs,
  match jobs !! name with
  | Some _ => (inl ErrAlreadyExists, jobs)
  | None => (inr tt, <[name := j]> jobs)
  end).
Definition job_delete (name : string) : CTL unit := job_call (λ jobs,
  match jobs !! name with
  | Some _ => (inr tt, delete name jobs)
  | None => (inl ErrNotFound, jobs)
  end).

(** [_ = r.Delete(...)] or a logged error. *)
Definition delete_cm (name : string) : CTL unit := _ ← attempt (lift (api_delete name)); mret tt.

(** ** Live images *)

Record liveImages := mkLive { li_dests : gset string; li_digests : gset string }.

Definition needs (l : liveImages) (dest : string) : bool :=
  if bool_decide (dest ∈ li_dests l) then true
  else if negb (Contains dest "@sha256:") then false
  else let '(repo, digest) := repoAndDigest dest in
       negb (String.eqb digest "") && bool_decide (repo +:+ "@" +:+ digest ∈ li_digests l).

(** The body of the loop over one ImageSet's state. *)
Definition add_live (dest : string) (live : liveImages) : liveImages :=
  let '(repo, digest) := repoAndDigest dest in
  mkLive ({[dest]} ∪ li_dests live)
    (if negb (String.eqb digest "") then {[repo +:+ "@" +:+ digest]} ∪ li_digests live else li_digests live).

Fixpoint live_loop (names : list string) (exclude : string) (live : liveImages) : CTL liveImages :=
  match names with
  | [] => mret live
  | name :: names =>
    if String.eqb name exclude then live_loop names exclude live
    else
      state ← lift (Load name);
      live_loop names exclude (map_fold (λ dest _, add_live dest) live state)
  end.

Definition liveDestinations (mt : MirrorTarget) (exclude : string) : CTL liveImages :=
  live_loop (mt_ImageSets mt) exclude (mkLive ∅ ∅).

Definition CleanupPolicyAnnotation : string := "mirror.openshift.io/cleanup-policy".
Definition CleanupPolicyDelete : string := "Delete".

Definition deletes (mt : MirrorTarget) : bool :=
  String.eqb (default "" (mt_Annotations mt !! CleanupPolicyAnnotation)) CleanupPolicyDelete.

(** ** The controller's operations *)

Section controller.
Context `{NameSum}.
Implicit Types mt : MirrorTarget.

Definition createCleanupJob (mt : MirrorTarget) (imageSetName snapshotCMName : string) : CTL unit :=
  let jobName := cleanupJobName (mt_Name mt) imageSetName in
  r ← attempt (job_get jobName);
  match r with
  | inr existing =>
    if (0 <? job_Succeeded existing)%Z || (0 <? job_Failed existing)%Z then
      _ ← job_delete jobName; fail EStale
    else mret tt
  | inl _ => job_create jobName (mkJob snapshotCMName 0 0)
  end.

Definition isPendingCleanup (mt : MirrorTarget) (name : string) : CTL bool :=
  let jobName := cleanupJobName (mt_Name mt) name in
  r ← attempt (job_get jobName);
  match r with
  | inl (EApi ErrNotFound) =>
    let snapshotName := cleanupSnapshotCMName (mt_Name mt) name in
    snap ← attempt (lift (api_get snapshotName));
    match snap with
    | inr _ => _ ← attempt (createCleanupJob mt name snapshotName); mret true
    | inl _ => mret false
    end
  | inl _ => mret true
  | inr job =>
    if (0 <? job_Succeeded job)%Z then mret false
    else if (0 <? job_Failed job)%Z then _ ← attempt (job_delete jobName); mret true
    else mret true
  end.

Fixpoint still_pending (mt : MirrorTarget) (names : list string) : CTL (list string) :=
  match names with
  | [] => mret []
  | name :: names =>
    b ← isPendingCleanup mt name;
    rest ← still_pending mt names;
    mret (if (b : bool) then name :: rest else rest)
  end.

Definition checkPendingCleanups (mt : MirrorTarget) : CTL unit :=
  names ← getS pending;
  stillPending ← still_pending mt names;
  modS (set_Pending stillPending).

(** reconcileOrphans up to the point where it clears the pending-orphans
    ConfigMap; the result tells whether it does. *)
Definition handover_orphans (mt : MirrorTarget) : CTL bool :=
  orphans ← lift (LoadByConfigMapName (OrphansConfigMapName (mt_Name mt)));
  if decide (orphans = ∅) then mret false
  else if negb (deletes mt) then mret true
  else
    p ← getS pending;
    if containsString p "orphans" then mret false
    else
      live ← liveDestinations mt "";
      let orphans := filter (λ kv, needs live (fst kv) = false) orphans in
      if decide (orphans = ∅) then mret true
      else
        let snapshotName := cleanupSnapshotCMName (mt_Name mt) "orphans" in
        saved ← attempt (lift (SaveRaw snapshotName orphans (Some (mt_Name mt))));
        match saved with
        | inl _ => mret false
        | inr _ =>
          job ← attempt (createCleanupJob mt "orphans" snapshotName);
          match job with
          | inl _ => _ ← delete_cm snapshotName; mret false
          | inr _ => _ ← modS (λ s, set_Pending (pending s ++ ["orphans"]) s); mret true
          end
        end.

Definition clear_orphans (mt : MirrorTarget) : CTL unit := delete_cm (OrphansConfigMapName (mt_Name mt)).

Definition reconcileOrphans (mt : MirrorTarget) : CTL unit :=
  done ← handover_orphans mt;
  if (done : bool) then clear_orphans mt else mret tt.

(** Dropping [isName] from the index entries of its shared destinations. *)
Definition unshare (isName : string) (shared : gmap string (option ImageEntry)) (index : gmap string (list string))
    : gmap string (list string) :=
  map_fold (λ dest _, RemoveSharedRef dest isName) index shared.

Definition is_kept (index : gmap string (list string)) (live : liveImages) (dest : string) : bool :=
  IsShared index dest || needs live dest.

(** The bookkeeping after the Job exists (or nothing is exclusive). *)
Definition commit_removal (mt : MirrorTarget) (isName : string) (index : gmap string (list string))
    (shared : gmap string (option ImageEntry)) : CTL unit :=
  _ ← (if decide (shared = ∅) then mret tt
       else _ ← attempt (lift (SaveIndex (mt_Name mt) (unshare isName shared index) (Some (mt_Name mt)))); mret tt);
  delete_cm (ConfigMapName isName).

Definition partitionAndCreateCleanupJob (mt : MirrorTarget) (isName : string) : CTL bool :=
  isState ← lift (Load isName);
  index ← lift (LoadIndex (mt_Name mt));
  live ← liveDestinations mt isName;
  let exclusiveState := filter (λ kv, is_kept index live (fst kv) = false) isState in
  let shared := filter (λ kv, is_kept index live (fst kv) = true) isState in
  created ←
    (if decide (exclusiveState = ∅) then mret false
     else
       let snapshotName := cleanupSnapshotCMName (mt_Name mt) isName in
       _ ← lift (SaveRaw snapshotName exclusiveState (Some (mt_Name mt)));
       job ← attempt (createCleanupJob mt isName snapshotName);
       match job with
       | inl e => _ ← (match e with EStale => mret tt | _ => delete_cm snapshotName end); fail e
       | inr _ => mret true
       end);
  _ ← commit_removal mt isName index shared;
  mret created.

Fixpoint removed_loop (mt : MirrorTarget) (removed : list string) : CTL unit :=
  match removed with
  | [] => mret tt
  | isName :: removed =>
    p ← getS pending;
    if containsString p isName then removed_loop mt removed
    else
      created ← partitionAndCreateCleanupJob mt isName;
      _ ← (if (created : bool) then modS (λ s, set_Pending (pending s ++ [isName]) s) else mret tt);
      removed_loop mt removed
  end.

Definition reconcileRemovedImageSets (mt : MirrorTarget) (removed : list string) : CTL unit :=
  match removed with
  | [] => mret tt
  | _ => if negb (deletes mt) then mret tt else removed_loop mt removed
  end.

Definition conditionTypeCleanup : string := "Cleanup".

(** The condition at the end of reconcileCleanup. *)
Definition cleanup_condition (now : Z) (mt : MirrorTarget) (removed : list string) (st : TargetStatus) : TargetStatus :=
  let set status reason msg :=
    mkTargetStatus (setCondition now conditionTypeCleanup status reason msg (mt_Generation mt) (ts_Conditions st))
      (ts_KnownImageSets st) (ts_PendingCleanup st) in
  match ts_PendingCleanup st with
  | _ :: _ =>
    set ConditionFalse "CleanupInProgress" ("Cleaning up images for: " +:+ Join (ts_PendingCleanup st) ", ")
  | [] =>
    match removed with
    | _ :: _ => st
    | [] =>
      if existsb (λ c, String.eqb (cond_Type c) conditionTypeCleanup && String.eqb (cond_Reason c) "CleanupInProgress")
           (ts_Conditions st)
      then set ConditionTrue "CleanupComplete" "No pending cleanups" else st
    end
  end.

Definition removed_sets (mt : MirrorTarget) (st : TargetStatus) : list string :=
  List.filter (λ name, negb (containsString (mt_ImageSets mt) name)) (ts_KnownImageSets st).

Definition reconcileCleanup (now : Z) (mt : MirrorTarget) : CTL unit :=
  removed ← getS (λ s, removed_sets mt (ct_status s));
  _ ← checkPendingCleanups mt;
  _ ← reconcileOrphans mt;
  _ ← reconcileRemovedImageSets mt removed;
  modS (λ s, set_status (cleanup_condition now mt removed (ct_status s)) s).

(** Reconcile: the known ImageSets advance only when nothing is pending. *)
Definition advance_known (mt : MirrorTarget) (st : TargetStatus) : TargetStatus :=
  match ts_PendingCleanup st with
  | [] => mkTargetStatus (ts_Conditions st) (sort_strings (mt_ImageSets mt)) []
  | _ => st
  end.
End controller.

(** ** The cleanup Job (cleanup.go) *)

Record Result := mkResult { res_Deleted : Z; res_Skipped : Z; res_Failed : Z }.
#[export] Instance Result_eq_dec : EqDecision Result.
Proof. solve_decision. Defined.

Definition ClientRefreshInterval : nat := 20.

(** The loop over the state in the order [ks]: [client] numbers the registry
    clients built so far, [del] is the answer of a client to a deletion.
    [calls] lists the deletions asked for.  A [null] entry is dereferenced:
    the process panics, which [None] stands for. *)
Fixpoint delete_loop (del : nat → string → bool) (state : gmap string (option ImageEntry)) (ks : list string)
    (client count : nat) (res : Result) (calls : list (nat * string)) : option Result * list (nat * string) :=
  match ks with
  | [] => (Some res, calls)
  | dest :: ks =>
    match state !! dest with
    | None => delete_loop del state ks client count res calls
    | Some None => (None, calls)
    | Some (Some entry) =>
      if negb (String.eqb (State entry) "Mirrored") then
        delete_loop del state ks client count
          (mkResult (res_Deleted res) (res_Skipped res + 1) (res_Failed res)) calls
      else
        let client := if (0 <? count)%nat && (count mod ClientRefreshInterval =? 0)%nat then S client else client in
        delete_loop del state ks client (S count)
          (if del client dest then mkResult (res_Deleted res + 1) (res_Skipped res) (res_Failed res)
           else mkResult (res_Deleted res) (res_Skipped res) (res_Failed res + 1))
          (calls ++ [(client, dest)])
    end
  end.

Inductive RunOutcome := RunOk (res : Result) | RunFailed (res : Result) | RunPanic.

Definition deleteConfigMap (cmName : string) : API unit := _ ← attempt (api_delete cmName); mret tt.

(** [order] is the order in which Go ranges over the map. *)
Definition Run (del : nat → string → bool) (order : gmap string (option ImageEntry) → list string) (cmName : string)
    : API (RunOutcome * list (nat * string)) :=
  r ← attempt (LoadByConfigMapName cmName);
  match r with
  | inl _ => mret (RunFailed (mkResult 0 0 0), [])
  | inr state =>
    if decide (state = ∅) then _ ← deleteConfigMap cmName; mret (RunOk (mkResult 0 0 0), [])
    else
      match delete_loop del state (order state) 0 0 (mkResult 0 0 0) [] with
      | (None, calls) => mret (RunPanic, calls)
      | (Some res, calls) =>
        if (0 <? res_Failed res)%Z then mret (RunFailed res, calls)
        else _ ← deleteConfigMap cmName; mret (RunOk res, calls)
      end
  end.

(** * Lemmas *)

(** ** The names do not collide *)

Fixpoint last_char (s : string) : option ascii :=
  match s with
  | "" => None
  | String c "" => Some c
  | String _ s => last_char s
  end.

Lemma last_char_app s t : t ≠ "" → last_char (s +:+ t) = last_char t.
Proof.
  intros Ht. induction s as [|c s IH]; [done|]. rewrite app_cons_s. rewrite <- IH.
  cbn. destruct (s +:+ t) eqn:E; [|done]. destruct s; [by destruct t|done].
Qed.

Lemma last_char_has s c : last_char s = Some c → has_char c s = true.
Proof.
  induction s as [|a s IH]; [done|]. cbn. destruct s as [|b s].
  - intros [= ->]. cbn. by rewrite bool_decide_eq_true_2.
  - intros E. rewrite IH by done. by destruct (bool_decide _).
Qed.

Section names.
Context `{NameSum}.

Lemma snapshot_last_hex t n :
  ∃ c, last_char (cleanupSnapshotCMName t n) = Some c ∧ has_char c "0123456789abcdef" = true.
Proof.
  pose proof (sum8_length t n) as Hl. destruct (last_char (sum8 t n)) as [c|] eqn:E.
  - exists c. split; [|eapply sum8_hex; by apply last_char_has].
    unfold cleanupSnapshotCMName. destruct (sum8 t n) eqn:Es; [done|].
    rewrite !last_char_app; done.
  - exfalso. destruct (sum8 t n) as [|a s]; [done|]. clear Hl. revert a E.
    induction s as [|b s IH]; intros a E; [done|]. by apply (IH b).
Qed.

Lemma snapshot_ne t n s (c : ascii) :
  last_char s = Some c → has_char c "0123456789abcdef" = false → cleanupSnapshotCMName t n ≠ s.
Proof.
  intros Hc Hh E. destruct (snapshot_last_hex t n) as (c' & Hc' & Hh'). rewrite E in Hc'. congruence.
Qed.

Lemma snapshot_ConfigMapName_ne t n m : cleanupSnapshotCMName t n ≠ ConfigMapName m.
Proof. apply (snapshot_ne _ _ _ "s"); [unfold ConfigMapName; by rewrite last_char_app|done]. Qed.

Lemma snapshot_Index_ne t n m : cleanupSnapshotCMName t n ≠ IndexConfigMapName m.
Proof. apply (snapshot_ne _ _ _ "x"); [unfold IndexConfigMapName; by rewrite last_char_app|done]. Qed.

Lemma snapshot_Orphans_ne t n m : cleanupSnapshotCMName t n ≠ OrphansConfigMapName m.
Proof. apply (snapshot_ne _ _ _ "s"); [unfold OrphansConfigMapName; by rewrite last_char_app|done]. Qed.
End names.

Lemma ConfigMapName_orphans_ne n mt : ConfigMapName n ≠ OrphansConfigMapName mt.
Proof.
  unfold ConfigMapName, OrphansConfigMapName. intros Eq.
  apply (f_equal (cut_last "-")) in Eq. change "-images-orphans" with ("-images" +:+ "-orphans") in Eq.
  rewrite app_assoc_s in Eq. change "-images" with (String "-" "images") in Eq at 1.
  change "-orphans" with (String "-" "orphans") in Eq.
  by rewrite !cut_last_char_app in Eq by done.
Qed.

(** ** What is live *)

(** The state a ConfigMap holds; a missing one is an empty state. *)
Definition loaded (cms : gmap string ConfigMap) (cmName : string) : option (gmap string (option ImageEntry)) :=
  match cms !! cmName with
  | None => Some ∅
  | Some cm => match decode cm with inr st => Some st | inl _ => None end
  end.

(** Some ImageSet of the target, other than [ex], references [d]. *)
Definition live_in (mt : MirrorTarget) (ex : string) (cms : gmap string ConfigMap) (d : string) : Prop :=
  ∃ n st, n ∈ mt_ImageSets mt ∧ n ≠ ex ∧ loaded cms (ConfigMapName n) = Some st ∧ is_Some (st !! d).

(** The key of [liveImages.digests] a destination contributes. *)
Definition digest_key (d : string) : option string :=
  let '(repo, digest) := repoAndDigest d in if String.eqb digest "" then None else Some (repo +:+ "@" +:+ digest).

(** Deleting [d] could take a live image with it: [d] is live, or [d] is a
    digest reference to the manifest a live destination of the same repository
    names. *)
Definition needed (mt : MirrorTarget) (ex : string) (cms : gmap string ConfigMap) (d : string) : Prop :=
  live_in mt ex cms d ∨
  (Contains d "@sha256:" = true ∧ ∃ d', live_in mt ex cms d' ∧ digest_key d' = digest_key d).

Lemma LoadByConfigMapName_cases name c :
  cl_cms (snd (LoadByConfigMapName name c)) = cl_cms c ∧
  ∀ st, fst (LoadByConfigMapName name c) = inr st → loaded (cl_cms c) name = Some st.
Proof.
  unfold LoadByConfigMapName. rewrite attempt_bind. pose proof (api_get_cms name c) as Hc.
  unfold loaded. unfold api_get in *.
  destruct (call_cases (λ cms : gmap string ConfigMap, match cms !! name with
    Some cm => (inr cm, cms) | None => (inl ErrNotFound, cms) end) c) as [[E Hn]|E]; rewrite E in *; cbn in *.
  - split; [done|]. intros st. by cbn.
  - destruct (cl_cms c !! name) as [cm|]; cbn in *; [|split; [done|by intros ? [= ->]]].
    unfold liftE. cbn. split; [done|]. destruct (decode cm); [done|by intros ? [= ->]].
Qed.

(** ** Operations that leave the ConfigMaps alone *)

Abbreviation quiet := (quiet ct_cms).
Abbreviation triple := (triple ct_cms).

Lemma quiet_job_call {A} (f : gmap string Job → (apiErr + A) * gmap string Job) : quiet (job_call f).
Proof.
  intros s. unfold job_call, ct_cms. destruct (cl_faults (ct_cluster s)) as [|[] fs]; [|done|];
    by destruct (f (ct_jobs s)).
Qed.

Lemma quiet_lift {A} (m : API A) : (∀ c, cl_cms (snd (m c)) = cl_cms c) → quiet (lift m).
Proof. intros H s. unfold lift, ct_cms. specialize (H (ct_cluster s)). by destruct (m (ct_cluster s)). Qed.

Lemma quiet_api_get name : quiet (lift (api_get name)).
Proof. apply quiet_lift. intros c. apply api_get_cms. Qed.

#[export] Hint Resolve quiet_job_call quiet_api_get : oc.

Section quiet_ops.
Context `{NameSum}.

Lemma quiet_createCleanupJob mt n snap : quiet (createCleanupJob mt n snap).
Proof.
  unfold createCleanupJob, job_get, job_delete, job_create. apply quiet_bind; [auto with oc|].
  intros [e|j]; [auto with oc|]. destruct (_ || _); auto with oc.
Qed.

Lemma quiet_isPendingCleanup mt n : quiet (isPendingCleanup mt n).
Proof.
  unfold isPendingCleanup, job_get, job_delete. apply quiet_bind; [auto with oc|].
  intros [[[]|]|j]; try by auto with oc.
  - apply quiet_bind; [auto with oc|]. intros [e|cm]; [auto with oc|].
    apply quiet_bind; [apply quiet_attempt, quiet_createCleanupJob|auto with oc].
  - destruct (0 <? _)%Z; [auto with oc|]. destruct (0 <? _)%Z; auto with oc.
Qed.

Lemma quiet_still_pending mt names : quiet (still_pending mt names).
Proof.
  induction names as [|n names IH]; [apply quiet_ret|]. cbn.
  apply quiet_bind; [apply quiet_isPendingCleanup|]. intros b. apply quiet_bind; [done|]. intros. apply quiet_ret.
Qed.

Lemma quiet_checkPendingCleanups mt : quiet (checkPendingCleanups mt).
Proof.
  unfold checkPendingCleanups. apply quiet_bind; [auto with oc|]. intros names.
  apply quiet_bind; [apply quiet_still_pending|]. intros. by apply quiet_modS.
Qed.
End quiet_ops.

Lemma lift_eq {A} (m : API A) s :
  lift m s = (match fst (m (ct_cluster s)) with inl e => inl (EApi e) | inr a => inr a end,
              set_cluster (snd (m (ct_cluster s))) s).
Proof. unfold lift. by destruct (m (ct_cluster s)). Qed.

Lemma quiet_LoadByConfigMapName name : quiet (lift (LoadByConfigMapName name)).
Proof. apply quiet_lift. intros c. apply LoadByConfigMapName_cases. Qed.

Lemma triple_LoadByConfigMapName R `{!Reflexive R} name P :
  triple R P (lift (LoadByConfigMapName name)) (λ st cms, P cms ∧ loaded cms name = Some st).
Proof.
  intros s HP. rewrite lift_eq. destruct (LoadByConfigMapName_cases name (ct_cluster s)) as [H1 H2].
  unfold ct_cms in *. cbn. rewrite H1. split; [done|]. intros st Hst. split; [done|]. apply H2.
  by destruct (fst _); simplify_eq.
Qed.

Lemma add_live_spec dest live :
  (∀ d, d ∈ li_dests (add_live dest live) ↔ d = dest ∨ d ∈ li_dests live) ∧
  (∀ k, k ∈ li_digests (add_live dest live) ↔ digest_key dest = Some k ∨ k ∈ li_digests live).
Proof.
  unfold add_live, digest_key. destruct (repoAndDigest dest) as [repo digest]. split; intros x; cbn.
  - rewrite elem_of_union, elem_of_singleton. tauto.
  - destruct (String.eqb digest ""); cbn; [naive_solver|].
    rewrite elem_of_union, elem_of_singleton. naive_solver.
Qed.

Lemma add_state_spec (st : gmap string (option ImageEntry)) live :
  let live' := map_fold (λ dest _, add_live dest) live st in
  (∀ d, d ∈ li_dests live' ↔ is_Some (st !! d) ∨ d ∈ li_dests live) ∧
  (∀ k, k ∈ li_digests live' ↔ (∃ d, is_Some (st !! d) ∧ digest_key d = Some k) ∨ k ∈ li_digests live).
Proof.
  cbn. induction st as [|i x st Hi Hf IH] using map_first_key_ind.
  - rewrite map_fold_empty. split; intros x; (split; [tauto|]); intros [H|H]; try done.
    + by rewrite lookup_empty in H; destruct H.
    + destruct H as (d & H & _). by rewrite lookup_empty in H; destruct H.
  - rewrite map_fold_insert_first_key by done. destruct IH as [IH1 IH2].
    destruct (add_live_spec i (map_fold (λ dest _, add_live dest) live st)) as [A1 A2].
    split; intros d.
    + rewrite A1, IH1, lookup_insert_is_Some. destruct (decide (d = i)) as [->|Hne]; [tauto|].
      assert (i ≠ d) by done. tauto.
    + rewrite A2, IH2. split.
      * intros [Hk|[(d' & Hd' & Hk)|Hk]]; [left; exists i|left; exists d'|by right].
        -- by rewrite lookup_insert_eq.
        -- rewrite lookup_insert_is_Some'. tauto.
      * intros [(d' & Hd' & Hk)|Hk]; [|tauto]. rewrite lookup_insert_is_Some' in Hd'.
        destruct Hd' as [->|Hd']; [by left|right; left; by exists d'].
Qed.

(** [live] holds the destinations of [names] (other than [ex]) on top of
    [live0]. *)
Definition live_exact (cms : gmap string ConfigMap) (names : list string) (ex : string) (live0 live : liveImages) : Prop :=
  let lv d := ∃ n st, n ∈ names ∧ n ≠ ex ∧ loaded cms (ConfigMapName n) = Some st ∧ is_Some (st !! d) in
  (∀ d, d ∈ li_dests live ↔ lv d ∨ d ∈ li_dests live0) ∧
  (∀ k, k ∈ li_digests live ↔ (∃ d, lv d ∧ digest_key d = Some k) ∨ k ∈ li_digests live0).

Lemma live_exact_skip cms n names ex live0 live :
  n = ex → live_exact cms names ex live0 live → live_exact cms (n :: names) ex live0 live.
Proof.
  intros -> [H1 H2]. split; intros x; [rewrite H1|rewrite H2]; setoid_rewrite elem_of_cons; naive_solver.
Qed.

Lemma live_exact_cons cms n st names ex live0 live :
  n ≠ ex → loaded cms (ConfigMapName n) = Some st →
  live_exact cms names ex (map_fold (λ dest _, add_live dest) live0 st) live →
  live_exact cms (n :: names) ex live0 live.
Proof.
  intros Hn Hl [H1 H2]. destruct (add_state_spec st live0) as [A1 A2]. split; intros x.
  - rewrite H1, A1. setoid_rewrite elem_of_cons. naive_solver.
  - rewrite H2, A2. setoid_rewrite elem_of_cons. naive_solver.
Qed.

Lemma triple_live_loop R `{!Reflexive R, !Transitive R} names ex live0 P :
  triple R P (live_loop names ex live0) (λ live cms, P cms ∧ live_exact cms names ex live0 live).
Proof.
  revert live0 P. induction names as [|n names IH]; intros live0 P; cbn.
  - apply triple_ret; [done|]. intros cms HP. split; [done|]. split; intros x; split; try tauto;
      intros [H|H]; try done; [by destruct H as (? & ? & ?%not_elem_of_nil & _)|
                               by destruct H as (? & (? & ? & ?%not_elem_of_nil & _) & _)].
  - destruct (String.eqb_spec n ex) as [->|Hn].
    + eapply triple_weaken; [apply (IH live0 P)|done|]. intros live cms [HP H]. split; [done|].
      by apply live_exact_skip.
    + eapply triple_bind; [done|by apply triple_LoadByConfigMapName|]. intros st. cbn.
      eapply triple_weaken; [apply IH|exact (λ _ h, h)|]. intros live cms ((HP & Hl) & H). split; [done|].
      by eapply live_exact_cons.
Qed.

Lemma digest_key_ref d : Contains d "@sha256:" = true → is_Some (digest_key d).
Proof.
  unfold Contains. intros [[repo hex] Hc]%bool_decide_eq_true_1. unfold digest_key, repoAndDigest.
  rewrite Hc. by eexists.
Qed.

(** The test of the code decides [needed]. *)
Lemma needs_spec mt ex cms live d :
  live_exact cms (mt_ImageSets mt) ex (mkLive ∅ ∅) live → needs live d = true ↔ needed mt ex cms d.
Proof.
  intros [H1 H2]. assert (d ∈ li_dests live ↔ live_in mt ex cms d) as L1.
  { rewrite H1. unfold live_in. cbn. split; [intros [?|?%not_elem_of_empty]; done|by left]. }
  assert (∀ k, k ∈ li_digests live ↔ ∃ d, live_in mt ex cms d ∧ digest_key d = Some k) as L2.
  { intros k. rewrite H2. unfold live_in. cbn. split; [intros [?|?%not_elem_of_empty]; done|by left]. }
  unfold needs, needed. case_bool_decide as Hin; [naive_solver|]. rewrite L1 in Hin.
  destruct (Contains d "@sha256:") eqn:Hc; cbn; [|naive_solver].
  destruct (digest_key_ref d Hc) as [k Hk]. rewrite Hk. revert Hk. unfold digest_key at 1.
  destruct (repoAndDigest d) as [repo digest]. destruct (String.eqb digest ""); [done|]. intros [= <-]. cbn.
  case_bool_decide as Hd; rewrite L2 in Hd; naive_solver.
Qed.

Lemma needs_complete mt ex cms live d :
  live_exact cms (mt_ImageSets mt) ex (mkLive ∅ ∅) live → needs live d = false → ¬ needed mt ex cms d.
Proof. intros H Hn Hd. eapply needs_spec in Hd; [|done]. congruence. Qed.

(** ** Steps of the store a cleanup may take *)

Section steps.
Context `{NameSum} (mt : MirrorTarget) (removed : list string).
Hypothesis Hdisj : ∀ n, n ∈ removed → n ∉ mt_ImageSets mt.

(** The ConfigMaps that belong to the cleanup: the pending orphans, the index,
    the states of removed ImageSets and the snapshots. *)
Definition own_cm (k : string) : Prop :=
  k = OrphansConfigMapName (mt_Name mt) ∨ k = IndexConfigMapName (mt_Name mt) ∨
  (∃ n, n ∈ removed ∧ k = ConfigMapName n) ∨ ∃ n, k = cleanupSnapshotCMName (mt_Name mt) n.

(** A snapshot is the old one, gone, or new without anything needed. *)
Definition snapshot_ok (cms : gmap string ConfigMap) (old new : option ConfigMap) : Prop :=
  new = old ∨ new = None ∨
  ∃ st, new = Some (state_cm st None (Some (mt_Name mt))) ∧ ∀ d, is_Some (st !! d) → ¬ needed mt "" cms d.

Definition cleanup_step (cms cms' : gmap string ConfigMap) : Prop :=
  (∀ k, ¬ own_cm k → cms' !! k = cms !! k) ∧
  ∀ n, let k := cleanupSnapshotCMName (mt_Name mt) n in snapshot_ok cms (cms !! k) (cms' !! k).

Lemma live_not_own n : n ∈ mt_ImageSets mt → ¬ own_cm (ConfigMapName n).
Proof.
  intros Hn [E|[E|[(m & Hm & E)|(m & E)]]].
  - by apply ConfigMapName_orphans_ne in E.
  - by apply ConfigMapName_index_ne in E.
  - apply ConfigMapName_inj in E as ->. by apply (Hdisj m).
  - symmetry in E. by apply snapshot_ConfigMapName_ne in E.
Qed.

Lemma needed_frame ex cms cms' d :
  (∀ k, ¬ own_cm k → cms' !! k = cms !! k) → needed mt ex cms d → needed mt ex cms' d.
Proof.
  intros Hf. assert (∀ d, live_in mt ex cms d → live_in mt ex cms' d) as HL.
  { intros d' (n & st & Hn & Hx & Hl & Hd). exists n, st. split_and!; [done..| |done].
    unfold loaded in *. by rewrite Hf by by apply live_not_own. }
  intros [H1|(H1 & d' & H2 & H3)]; [left; by apply HL|right]. split; [done|]. exists d'. split; [by apply HL|done].
Qed.

Lemma needed_exclude n cms d : n ∉ mt_ImageSets mt → needed mt "" cms d → needed mt n cms d.
Proof.
  intros Hn. assert (∀ d, live_in mt "" cms d → live_in mt n cms d) as HL.
  { intros d' (n' & st & Hn' & _ & H1 & H2). exists n', st. split_and!; [done|congruence|done|done]. }
  intros [H1|(H1 & d' & H2 & H3)]; [left; by apply HL|right]. split; [done|]. exists d'. split; [by apply HL|done].
Qed.

#[local] Instance cleanup_step_refl : Reflexive cleanup_step.
Proof. intros cms. split; [done|by left]. Qed.

#[local] Instance cleanup_step_trans : Transitive cleanup_step.
Proof.
  intros c1 c2 c3 [F1 S1] [F2 S2]. split.
  - intros k Hk. by rewrite F2, F1.
  - intros n. specialize (S1 n). specialize (S2 n). cbn in *. destruct S2 as [-> |[-> |(st & -> & Hst)]].
    + done.
    + right. by left.
    + right. right. exists st. split; [done|]. intros d Hd Hn. apply (Hst d Hd). by eapply needed_frame.
Qed.

(** Steps that touch one ConfigMap. *)
Lemma step_at k cms o :
  own_cm k → (∀ n, k = cleanupSnapshotCMName (mt_Name mt) n → snapshot_ok cms (cms !! k) o) →
  cleanup_step cms (partial_alter (λ _, o) k cms).
Proof.
  intros Hk Ho. split.
  - intros k' Hk'. rewrite lookup_partial_alter_ne; [done|]. by intros ->.
  - intros n. cbn. destruct (decide (k = cleanupSnapshotCMName (mt_Name mt) n)) as [E|E].
    + rewrite <- E. rewrite lookup_partial_alter_eq. by eapply Ho.
    + rewrite lookup_partial_alter_ne by done. by left.
Qed.

Lemma step_delete k cms : own_cm k → cleanup_step cms (delete k cms).
Proof. intros Hk. apply (step_at k cms None); [done|]. intros. right. by left. Qed.

Lemma triple_delete_cm k P : own_cm k → triple cleanup_step P (delete_cm k) (λ _ _, True).
Proof.
  intros Hk. apply triple_write. intros s _. unfold delete_cm.
  unfold mbind, M_bind, attempt. rewrite lift_eq. cbn. unfold ct_cms. cbn.
  unfold api_delete. match goal with |- context [call ?f ?c] => destruct (call_cases f c) as [[-> _]| ->] end; [done|].
  cbn. destruct (cl_cms (ct_cluster s) !! k) as [cm|] eqn:E; cbn; [|done]. by apply step_delete.
Qed.

Lemma step_snapshot n cms st :
  (∀ d, is_Some (st !! d) → ¬ needed mt "" cms d) →
  cleanup_step cms (<[cleanupSnapshotCMName (mt_Name mt) n := state_cm st None (Some (mt_Name mt))]> cms).
Proof.
  intros Hst. apply (step_at _ cms (Some (state_cm st None (Some (mt_Name mt))))).
  - right. right. right. by exists n.
  - intros _ _. right. right. by exists st.
Qed.

(** Saving a snapshot: afterwards the store is a step away, error or not. *)
Lemma SaveRaw_step n st s :
  (∀ d, is_Some (st !! d) → ¬ needed mt "" (ct_cms s) d) →
  cleanup_step (ct_cms s)
    (ct_cms (snd (lift (SaveRaw (cleanupSnapshotCMName (mt_Name mt) n) st (Some (mt_Name mt))) s))).
Proof.
  intros Hst. rewrite lift_eq. unfold ct_cms in *. cbn. unfold SaveRaw.
  destruct (saveRaw_cases (cleanupSnapshotCMName (mt_Name mt) n) st None (Some (mt_Name mt)) (ct_cluster s))
    as [[_ ->]|(_ & -> & _)]; [by apply step_snapshot|done].
Qed.

Lemma SaveIndex_step idx s :
  cleanup_step (ct_cms s) (ct_cms (snd (lift (SaveIndex (mt_Name mt) idx (Some (mt_Name mt))) s))).
Proof.
  rewrite lift_eq. unfold ct_cms. cbn. unfold SaveIndex.
  assert (own_cm (IndexConfigMapName (mt_Name mt))) as Hown by (right; by left).
  destruct (decide (idx = ∅)) as [->|Hi].
  - rewrite attempt_bind. unfold api_delete.
    match goal with |- context [call ?f ?c] => destruct (call_cases f c) as [[-> _]| ->] end; [done|].
    cbn. destruct (_ !! IndexConfigMapName _); cbn; [by apply step_delete|done].
  - match goal with |- context [mbind ?k (attempt (api_get ?n)) ?c] =>
      destruct (upsert_cases n (mkConfigMap ∅ None None None (Some (POk idx)) None ∅ (Some (mt_Name mt))) c)
        as [[_ ->]|(_ & -> & _)] end; [|done].
    apply (step_at _ _ (Some _)); [done|]. intros n E. symmetry in E. by apply snapshot_Index_ne in E.
Qed.

Lemma triple_quiet_any {A} P (m : CTL A) : quiet m → triple cleanup_step P m (λ _ _, True).
Proof. intros Hq. eapply triple_weaken; [by apply (triple_quiet ct_cms cleanup_step P)|done|done]. Qed.

Lemma own_snapshot n : own_cm (cleanupSnapshotCMName (mt_Name mt) n).
Proof. right. right. right. by exists n. Qed.

(** The branch of reconcileOrphans that hands a snapshot to a Job. *)
Lemma triple_handover_orphans P : triple cleanup_step P (handover_orphans mt) (λ _ _, True).
Proof.
  unfold handover_orphans.
  eapply triple_bind; [apply _|apply triple_LoadByConfigMapName, _|]. intros orphans. cbn.
  destruct (decide _); [apply triple_quiet_any, quiet_ret|].
  destruct (negb _); [apply triple_quiet_any, quiet_ret|].
  eapply triple_bind; [apply _|apply triple_quiet, quiet_getS; apply _|]. intros p. cbn.
  destruct (containsString _ _); [apply triple_quiet_any, quiet_ret|].
  eapply triple_bind; [apply _|unfold liveDestinations; apply triple_live_loop; apply _|]. intros live. cbn.
  destruct (decide _); [apply triple_quiet_any, quiet_ret|].
  eapply triple_bind; [apply _| |].
  - apply (triple_attempt ct_cms cleanup_step _ _ (λ _ _, True)). intros s [_ Hl]. split; [|done].
    apply SaveRaw_step. intros d [e [_ Hd]%map_lookup_filter_Some]. by eapply needs_complete.
  - intros [e|[]]; [apply triple_quiet_any, quiet_ret|].
    eapply triple_bind; [apply _| |].
    + apply triple_quiet_attempt, quiet_createCleanupJob; apply _.
    + intros [e|[]].
      * eapply triple_bind; [apply _|apply triple_delete_cm, own_snapshot|].
        intros ?. apply triple_quiet_any, quiet_ret.
      * apply triple_quiet_any, quiet_bind; [by apply quiet_modS|intros; apply quiet_ret].
Qed.

Lemma triple_reconcileOrphans P : triple cleanup_step P (reconcileOrphans mt) (λ _ _, True).
Proof.
  unfold reconcileOrphans. eapply triple_bind; [apply _|apply triple_handover_orphans|]. intros [].
  - apply triple_delete_cm. by left.
  - apply triple_quiet_any, quiet_ret.
Qed.

Lemma triple_commit_removal n index shared P :
  n ∈ removed → triple cleanup_step P (commit_removal mt n index shared) (λ _ _, True).
Proof.
  intros Hn. unfold commit_removal. eapply (triple_bind _ _ _ _ _ (λ _ _, True)).
  - destruct (decide _); [apply triple_quiet_any, quiet_ret|].
    eapply triple_bind; [apply _| |intros ?; apply triple_quiet_any, quiet_ret].
    apply (triple_attempt ct_cms cleanup_step _ _ (λ _ _, True)). intros s _. split; [apply SaveIndex_step|done].
  - intros ?. apply triple_delete_cm. right. right. left. by exists n.
Qed.

Lemma triple_partition n P :
  n ∈ removed → triple cleanup_step P (partitionAndCreateCleanupJob mt n) (λ _ _, True).
Proof.
  intros Hn. unfold partitionAndCreateCleanupJob.
  eapply triple_bind; [apply _|apply triple_LoadByConfigMapName, _|]. intros isState. cbn.
  eapply (triple_bind _ _ _ _ _ (λ _ _, True)).
  { apply triple_quiet_any, quiet_lift. intros c. unfold LoadIndex. rewrite attempt_bind.
    pose proof (api_get_cms (IndexConfigMapName (mt_Name mt)) c). by destruct (fst _) as [[]|]. }
  intros index. eapply triple_bind; [apply _|unfold liveDestinations; apply triple_live_loop; apply _|].
  intros live. cbn. eapply (triple_bind _ _ _ _ _ (λ _ _, True)).
  2:{ intros created. eapply triple_bind; [apply _|by apply triple_commit_removal|].
      intros ?. apply triple_quiet_any, quiet_ret. }
  destruct (decide _); [apply triple_quiet_any, quiet_ret|].
  eapply triple_bind; [apply _| |].
  - apply triple_write. intros s [_ Hl]. apply SaveRaw_step. intros d [e [_ Hd]%map_lookup_filter_Some] Hnd.
    unfold is_kept in Hd. cbn in Hd. apply orb_false_iff in Hd as [_ Hd].
    eapply needs_complete in Hd; [|exact Hl]. apply Hd. apply needed_exclude; [by apply Hdisj|done].
  - intros ?. eapply triple_bind; [apply _|apply triple_quiet_attempt, quiet_createCleanupJob; apply _|].
    intros [e|[]]; [|apply triple_quiet_any, quiet_ret].
    eapply (triple_bind _ _ _ _ _ (λ _ _, True)); [|intros ?; apply triple_quiet_any, quiet_fail].
    destruct e; [apply triple_delete_cm, own_snapshot|apply triple_quiet_any, quiet_ret].
Qed.

Lemma triple_removed_loop names P :
  (∀ n, n ∈ names → n ∈ removed) → triple cleanup_step P (removed_loop mt names) (λ _ _, True).
Proof.
  revert P. induction names as [|n names IH]; intros P Hs; cbn; [apply triple_quiet_any, quiet_ret|].
  eapply triple_bind; [apply _|apply triple_quiet_any, quiet_getS|]. intros p.
  destruct (containsString p n); [apply IH; set_solver|].
  eapply triple_bind; [apply _|apply triple_partition; set_solver|]. intros created.
  eapply triple_bind; [apply _| |intros ?; apply IH; set_solver].
  apply triple_quiet_any. destruct created; [by apply quiet_modS|apply quiet_ret].
Qed.

End steps.

Lemma removed_sets_disjoint mt st n : n ∈ removed_sets mt st → n ∉ mt_ImageSets mt.
Proof.
  unfold removed_sets. intros [Hb _]%elem_of_filter_bool. apply negb_true_iff in Hb.
  intros Hin. unfold containsString in Hb. assert (existsb (String.eqb n) (mt_ImageSets mt) = true); [|congruence].
  apply existsb_elem. exists n. split; [done|]. apply String.eqb_refl.
Qed.

Lemma reconcileCleanup_step `{NameSum} now mt s :
  cleanup_step mt (removed_sets mt (ct_status s)) (ct_cms s) (ct_cms (snd (reconcileCleanup now mt s))).
Proof.
  unfold reconcileCleanup, getS. unfold mbind, M_bind at 1. cbn.
  set (removed := removed_sets mt (ct_status s)).
  assert (∀ n, n ∈ removed → n ∉ mt_ImageSets mt) as Hd by (intros; by eapply removed_sets_disjoint).
  pose proof (cleanup_step_trans mt removed Hd) as Ht. pose proof (cleanup_step_refl mt removed) as Hr.
  match goal with |- context [snd (?m s)] =>
    enough (triple (cleanup_step mt removed) (λ _, True) m (λ _ _, True)) as H2 by apply (H2 s I) end.
  eapply (triple_bind _ _ _ _ _ (λ _ _, True)); [by apply triple_quiet_any, quiet_checkPendingCleanups|].
  intros ?. eapply triple_bind; [done|by apply triple_reconcileOrphans|].
  intros ?. eapply (triple_bind _ _ _ _ _ (λ _ _, True)).
  - unfold reconcileRemovedImageSets. destruct removed as [|n r] eqn:E; [by apply triple_quiet_any, quiet_ret|].
    destruct (negb _); [by apply triple_quiet_any, quiet_ret|]. rewrite <- E in *. by apply triple_removed_loop.
  - intros ?. apply triple_quiet_any; [done|by apply quiet_modS].
Qed.

(** ** Runs without faults *)

Lemma lift_bind {A B} (m : API A) (k : A → CTL B) s c' a :
  m (ct_cluster s) = (inr a, c') → (lift m ≫= k) s = k a (set_cluster c' s).
Proof. intros E. unfold mbind, M_bind. rewrite lift_eq. by rewrite E. Qed.

Lemma LoadByConfigMapName_ok name c st :
  healthy c → loaded (cl_cms c) name = Some st →
  ∃ c', LoadByConfigMapName name c = (inr st, c') ∧ healthy c' ∧ cl_cms c' = cl_cms c.
Proof.
  intros Hc Hl. unfold LoadByConfigMapName. rewrite attempt_bind. destruct (api_get_healthy name c Hc) as [E Hh].
  exists (snd (api_get name c)). split_and!; [|done|apply api_get_cms]. rewrite E.
  unfold loaded in Hl. destruct (cl_cms c !! name) as [cm|]; simplify_eq; [|done].
  unfold liftE. destruct (decode cm); by simplify_eq.
Qed.

Definition loaded_index (cms : gmap string ConfigMap) (mtName : string) : option (gmap string (list string)) :=
  match cms !! IndexConfigMapName mtName with
  | None => Some ∅
  | Some cm => match decodeIndex cm with inr idx => Some idx | inl _ => None end
  end.

Lemma LoadIndex_ok mtName c idx :
  healthy c → loaded_index (cl_cms c) mtName = Some idx →
  ∃ c', LoadIndex mtName c = (inr idx, c') ∧ healthy c' ∧ cl_cms c' = cl_cms c.
Proof.
  intros Hc Hl. unfold LoadIndex. rewrite attempt_bind.
  destruct (api_get_healthy (IndexConfigMapName mtName) c Hc) as [E Hh].
  exists (snd (api_get (IndexConfigMapName mtName) c)). split_and!; [|done|apply api_get_cms]. rewrite E.
  unfold loaded_index in Hl. destruct (cl_cms c !! _) as [cm|]; simplify_eq; [|done].
  unfold liftE. destruct (decodeIndex cm); by simplify_eq.
Qed.

(** [s'] differs from [s] in the consumed fault schedule only. *)
Definition same_store (s s' : Ctl) : Prop :=
  ct_cms s' = ct_cms s ∧ ct_jobs s' = ct_jobs s ∧ ct_status s' = ct_status s.

Lemma live_loop_ok names ex live0 s :
  healthy (ct_cluster s) → (∀ n, n ∈ names → is_Some (loaded (ct_cms s) (ConfigMapName n))) →
  ∃ live s', live_loop names ex live0 s = (inr live, s') ∧ healthy (ct_cluster s') ∧ same_store s s' ∧
    live_exact (ct_cms s) names ex live0 live.
Proof.
  intros Hh Hl.
  enough (∃ live s', live_loop names ex live0 s = (inr live, s') ∧ healthy (ct_cluster s') ∧ same_store s s')
    as (live & s' & E & H1 & H2 & H3).
  { exists live, s'. split_and!; [done..|].
    assert (Reflexive (λ _ _ : gmap string ConfigMap, True)) by done.
    assert (Transitive (λ _ _ : gmap string ConfigMap, True)) by done.
    destruct (triple_live_loop (λ _ _, True) names ex live0 (λ cms, cms = ct_cms s) s eq_refl) as [_ HQ].
    rewrite E in HQ. destruct (HQ live eq_refl) as [_ HL]. cbn in HL. by rewrite <- H2. }
  revert live0 s Hh Hl. induction names as [|n names IH]; intros live0 s Hh Hl; cbn.
  { exists live0, s. done. }
  destruct (String.eqb n ex); [apply IH; [done|]; intros; apply Hl; by constructor|].
  destruct (Hl n) as [st Hst]; [by constructor|].
  destruct (LoadByConfigMapName_ok _ _ _ Hh Hst) as (c' & E & Hc' & Hcms). unfold Load.
  rewrite (lift_bind _ _ _ _ _ E).
  destruct (IH (map_fold (λ dest _, add_live dest) live0 st) (set_cluster c' s)) as (live & s' & E' & Hh' & S1 & S2).
  - done.
  - intros m Hm. unfold ct_cms. cbn. rewrite Hcms. apply Hl. by constructor.
  - exists live, s'. split_and!; [done|done|]. unfold same_store, ct_cms in *. cbn in *. by rewrite <- Hcms.
Qed.

Lemma job_call_healthy {A} (f : gmap string Job → (apiErr + A) * gmap string Job) s :
  healthy (ct_cluster s) →
  ∃ s', job_call f s = (match fst (f (ct_jobs s)) with inl e => inl (EApi e) | inr a => inr a end, s') ∧
    healthy (ct_cluster s') ∧ ct_cms s' = ct_cms s ∧ ct_jobs s' = snd (f (ct_jobs s)) ∧ ct_status s' = ct_status s.
Proof.
  intros Hh. unfold job_call. destruct (ct_cluster s) as [cms fs] eqn:Ec. cbn in *.
  assert (match fs with true :: _ => False | _ => True end) as Hf.
  { unfold healthy in Hh. cbn in Hh. destruct fs as [|[] fs]; [done| |done]. by inversion Hh. }
  exists (mkCtl (mkCluster cms (tail fs)) (snd (f (ct_jobs s))) (ct_status s)).
  split_and!; [destruct fs as [|[] fs]; [|done|]; by destruct (f (ct_jobs s))| | |done|done].
  - cbn. by eapply healthy_tail.
  - unfold ct_cms. by rewrite Ec.
Qed.

Lemma delete_cm_healthy k s :
  healthy (ct_cluster s) →
  ∃ s', delete_cm k s = (inr tt, s') ∧ healthy (ct_cluster s') ∧ ct_cms s' = delete k (ct_cms s) ∧
    ct_jobs s' = ct_jobs s ∧ ct_status s' = ct_status s.
Proof.
  intros Hh. unfold delete_cm. rewrite attempt_bind, lift_eq. cbn. unfold api_delete, ct_cms.
  match goal with |- context [call ?f ?c] => destruct (call_healthy f c Hh) as [-> Hh'] end.
  eexists. split_and!; [done|exact Hh'| |done|done]. cbn.
  destruct (_ !! k) eqn:E; cbn; [done|]. by rewrite delete_id.
Qed.

Section healthy_ops.
Context `{NameSum} (mt : MirrorTarget).

Lemma createCleanupJob_ok n snap s :
  healthy (ct_cluster s) → ct_jobs s !! cleanupJobName (mt_Name mt) n = None →
  ∃ s', createCleanupJob mt n snap s = (inr tt, s') ∧ healthy (ct_cluster s') ∧ ct_cms s' = ct_cms s ∧
    ct_jobs s' = <[cleanupJobName (mt_Name mt) n := mkJob snap 0 0]> (ct_jobs s) ∧ ct_status s' = ct_status s.
Proof.
  intros Hh Hn. unfold createCleanupJob. rewrite attempt_bind. unfold job_get.
  match goal with |- context [job_call ?f s] => destruct (job_call_healthy f s Hh) as (s1 & E1 & Hh1 & C1 & J1 & T1) end.
  rewrite E1. rewrite Hn in *. cbn in *. unfold job_create.
  match goal with |- context [job_call ?f s1] =>
    destruct (job_call_healthy f s1 Hh1) as (s2 & E2 & Hh2 & C2 & J2 & T2) end.
  rewrite J1, Hn in *. cbn in *. exists s2. split_and!; [exact E2|done|congruence|done|congruence].
Qed.

Lemma commit_removal_ok n index shared s :
  healthy (ct_cluster s) →
  ∃ s', commit_removal mt n index shared s = (inr tt, s') ∧ ct_jobs s' = ct_jobs s ∧ ct_status s' = ct_status s ∧
    ct_cms s' !! ConfigMapName n = None ∧
    ∀ k, k ≠ ConfigMapName n → k ≠ IndexConfigMapName (mt_Name mt) → ct_cms s' !! k = ct_cms s !! k.
Proof.
  intros Hh. unfold commit_removal.
  assert (∃ s1, (if decide (shared = ∅) then mret tt
       else _ ← attempt (lift (SaveIndex (mt_Name mt) (unshare n shared index) (Some (mt_Name mt)))); mret tt) s
       = (inr tt, s1) ∧ healthy (ct_cluster s1) ∧ ct_jobs s1 = ct_jobs s ∧ ct_status s1 = ct_status s ∧
       ∀ k, k ≠ IndexConfigMapName (mt_Name mt) → ct_cms s1 !! k = ct_cms s !! k) as (s1 & E1 & Hh1 & J1 & T1 & C1).
  { destruct (decide _); [by exists s|]. rewrite attempt_bind, lift_eq. cbn. eexists.
    split_and!; [done| |done|done|]; cbn.
    - unfold SaveIndex. destruct (decide _).
      + rewrite attempt_bind. unfold api_delete.
        match goal with |- context [call ?f ?c] => destruct (call_healthy f c Hh) as [-> Hh'] end.
        cbn. by destruct (_ !! IndexConfigMapName _).
      + by apply upsert_healthy.
    - intros k Hk. unfold SaveIndex, ct_cms. cbn. destruct (decide _).
      + rewrite attempt_bind. unfold api_delete.
        match goal with |- context [call ?f ?c] => destruct (call_healthy f c Hh) as [-> Hh'] end.
        cbn. destruct (_ !! IndexConfigMapName _); cbn; [by rewrite lookup_delete_ne|done].
      + match goal with |- context [mbind ?k (attempt (api_get ?nm)) ?c] =>
          destruct (upsert_cases nm (mkConfigMap ∅ None None None (Some (POk (unshare n shared index))) None ∅
            (Some (mt_Name mt))) c) as [[_ ->]|(_ & -> & _)] end; [by rewrite lookup_insert_ne|done]. }
  rewrite (bind_inr _ _ _ _ _ E1). destruct (delete_cm_healthy (ConfigMapName n) s1 Hh1) as (s2 & E2 & _ & C2 & J2 & T2).
  exists s2. split_and!; [done|congruence|congruence|by rewrite C2, lookup_delete_eq|].
  intros k Hk1 Hk2. by rewrite C2, lookup_delete_ne, C1.
Qed.
End healthy_ops.

(** ** The deletion loop *)

Definition to_delete (state : gmap string (option ImageEntry)) (dest : string) : bool :=
  match state !! dest with Some (Some e) => String.eqb (State e) "Mirrored" | _ => false end.

Definition count_calls (f : nat * string → bool) (calls : list (nat * string)) : Z :=
  Z.of_nat (length (List.filter f calls)).

Lemma count_calls_snoc f calls x : count_calls f (calls ++ [x]) = (count_calls f calls + if f x then 1 else 0)%Z.
Proof. unfold count_calls. rewrite List.filter_app, length_app. cbn. destruct (f x); cbn; lia. Qed.

Lemma refresh_client count :
  (if (0 <? count)%nat && (count mod ClientRefreshInterval =? 0)%nat then S ((count - 1) / ClientRefreshInterval)
   else (count - 1) / ClientRefreshInterval) = count / ClientRefreshInterval.
Proof.
  unfold ClientRefreshInterval. destruct count as [|n]; [done|]. change (0 <? S n) with true. cbn [andb].
  replace (S n - 1) with n by lia. generalize (Nat.div_mod_eq n 20) (Nat.div_mod_eq (S n) 20).
  generalize (Nat.mod_upper_bound n 20 ltac:(done)) (Nat.mod_upper_bound (S n) 20 ltac:(done)).
  generalize (n mod 20) (S n mod 20) (n / 20) (S n / 20). intros r r' q q'.
  destruct (Nat.eqb_spec r' 0); lia.
Qed.

Lemma delete_loop_spec del state ks client count res calls :
  (∀ d, d ∈ ks → ∃ e, state !! d = Some (Some e)) →
  count = length calls → client = (count - 1) / ClientRefreshInterval →
  (∀ i c d, calls !! i = Some (c, d) → c = i / ClientRefreshInterval) →
  res_Deleted res = count_calls (λ x, del x.1 x.2) calls →
  res_Failed res = count_calls (λ x, negb (del x.1 x.2)) calls →
  ∃ res' calls', delete_loop del state ks client count res calls = (Some res', calls') ∧
    calls'.*2 = calls.*2 ++ List.filter (to_delete state) ks ∧
    (∀ i c d, calls' !! i = Some (c, d) → c = i / ClientRefreshInterval) ∧
    res_Deleted res' = count_calls (λ x, del x.1 x.2) calls' ∧
    res_Failed res' = count_calls (λ x, negb (del x.1 x.2)) calls' ∧
    (res_Deleted res' + res_Skipped res' + res_Failed res'
     = res_Deleted res + res_Skipped res + res_Failed res + Z.of_nat (length ks))%Z.
Proof.
  revert client count res calls.
  induction ks as [|dest ks IH]; intros client count res calls Hks Hcount Hclient Hcl HD HF; cbn [delete_loop].
  { exists res, calls. cbn. rewrite app_nil_r. split_and!; [done..|lia]. }
  destruct (Hks dest) as [e He]; [by constructor|]. rewrite He.
  assert (∀ d, d ∈ ks → ∃ e, state !! d = Some (Some e)) as Hks' by (intros; apply Hks; by constructor).
  cbn [List.filter]. unfold to_delete at 1. rewrite He.
  destruct (String.eqb (State e) "Mirrored"); cbn [negb].
  - rewrite Hclient, refresh_client. set (c := count / ClientRefreshInterval).
    destruct (IH c (S count)
      (if del c dest then mkResult (res_Deleted res + 1) (res_Skipped res) (res_Failed res)
       else mkResult (res_Deleted res) (res_Skipped res) (res_Failed res + 1))
      (calls ++ [(c, dest)])) as (res' & calls' & E & E1 & E2 & E3 & E4 & E5).
    + done.
    + rewrite length_app. cbn. lia.
    + replace (S count - 1) with count by lia. done.
    + intros i c0 d Hi. apply lookup_app_Some in Hi as [Hi|[Hlen Hi]]; [by eapply Hcl|].
      destruct (i - length calls) as [|k] eqn:Ei; [|by destruct k]. injection Hi as <- <-.
      unfold c. f_equal. lia.
    + rewrite count_calls_snoc. cbn [fst snd]. destruct (del c dest); cbn [res_Deleted res_Failed negb]; lia.
    + rewrite count_calls_snoc. cbn [fst snd]. destruct (del c dest); cbn [res_Deleted res_Failed negb]; lia.
    + exists res', calls'. split_and!; [done| |done..|].
      * rewrite E1, fmap_app. cbn. by rewrite <- app_assoc.
      * rewrite E5. cbn [length]. destruct (del c dest); cbn [res_Deleted res_Skipped res_Failed]; lia.
  - destruct (IH client count (mkResult (res_Deleted res) (res_Skipped res + 1) (res_Failed res)) calls)
      as (res' & calls' & E & E1 & E2 & E3 & E4 & E5); [done..|].
    exists res', calls'. split_and!; [done..|]. rewrite E5. cbn. lia.
Qed.

Lemma deleteConfigMap_healthy k c :
  healthy c → ∃ c', deleteConfigMap k c = (inr tt, c') ∧ cl_cms c' = delete k (cl_cms c).
Proof.
  intros Hh. unfold deleteConfigMap. rewrite attempt_bind. unfold api_delete.
  match goal with |- context [call ?f ?c] => destruct (call_healthy f c Hh) as [-> Hh'] end.
  eexists. split; [done|]. cbn. destruct (_ !! k) eqn:E; cbn; [done|]. by rewrite delete_id.
Qed.

(** What a Job does when no API call fails. *)
Lemma Run_spec del order cmName c st :
  healthy c → loaded (cl_cms c) cmName = Some st → range_order st (order st) → (∀ d, st !! d ≠ Some None) →
  ∃ res calls c', Run del order cmName c = (inr ((if (0 <? res_Failed res)%Z then RunFailed else RunOk) res, calls), c') ∧
    calls.*2 = List.filter (to_delete st) (order st) ∧
    (∀ i client d, calls !! i = Some (client, d) → client = i / ClientRefreshInterval) ∧
    res_Deleted res = count_calls (λ x, del x.1 x.2) calls ∧
    res_Failed res = count_calls (λ x, negb (del x.1 x.2)) calls ∧
    (res_Deleted res + res_Skipped res + res_Failed res = Z.of_nat (size st))%Z ∧
    cl_cms c' = if (0 <? res_Failed res)%Z then cl_cms c else delete cmName (cl_cms c).
Proof.
  intros Hh Hl Ho Hnn. unfold Run. rewrite attempt_bind.
  destruct (LoadByConfigMapName_ok _ _ _ Hh Hl) as (c1 & -> & Hh1 & C1). cbn [fst snd].
  destruct (deleteConfigMap_healthy cmName c1 Hh1) as (c2 & E2 & C2).
  destruct (decide (st = ∅)) as [->|Hne].
  - exists (mkResult 0 0 0), [], c2. rewrite (bind_inr _ _ _ _ _ E2).
    assert (order ∅ = []) as -> by (apply nil_length_inv; by rewrite (range_order_length _ _ Ho), map_size_empty).
    split_and!; [done|done|done|done|done|done|]. cbn. by rewrite C2, C1.
  - destruct (delete_loop_spec del st (order st) 0 0 (mkResult 0 0 0) []) as (res & calls & -> & D1 & D2 & D3 & D4 & D5).
    + intros d Hd. apply Ho in Hd as [[e|] He]; [by exists e|by apply Hnn in He].
    + done.
    + done.
    + done.
    + done.
    + done.
    + cbn in D5. rewrite (range_order_length _ _ Ho) in D5. destruct (0 <? res_Failed res)%Z eqn:Ef.
      * exists res, calls, c1. rewrite Ef. split_and!; [done|by rewrite D1|done|done|done|lia|done].
      * exists res, calls, c2. rewrite Ef, (bind_inr _ _ _ _ _ E2).
        split_and!; [done|by rewrite D1|done|done|done|lia|by rewrite C2, C1].
Qed.

Lemma appendOrphans_cms mt new c :
  ∀ k, k ≠ OrphansConfigMapName (mt_Name mt) → cl_cms (snd (appendOrphans mt new c)) !! k = cl_cms c !! k.
Proof.
  intros k Hk. unfold appendOrphans. set (nm := OrphansConfigMapName (mt_Name mt)) in *.
  destruct (LoadByConfigMapName_cases nm c) as [H1 _]. unfold mbind, M_bind.
  destruct (LoadByConfigMapName nm c) as [[e|st] c1]; cbn in *; [by rewrite H1|]. unfold SaveRaw.
  destruct (saveRaw_cases nm (all_set new ∪ st) None (Some (mt_Name mt)) c1) as [[_ ->]|(_ & -> & _)];
    [|by rewrite H1]. by rewrite lookup_insert_ne, H1.
Qed.

(** ** A concrete cluster *)

#[local] Instance ex_sum : NameSum.
Proof.
  refine {| sum8 := λ _ _, "01234567" |}; [done|].
  intros _ _ c. cbn. repeat (case_bool_decide; [by subst|]). done.
Defined.

Definition ex_delete_target : MirrorTarget :=
  mkMirrorTarget "mt" "reg" ["is1"] 1 50 10 None None {[CleanupPolicyAnnotation := CleanupPolicyDelete]} 1 "" false None None.
Definition ex_image : ImageEntry :=
  mkImageEntry "quay.io/a" "Mirrored" "" 0 "" "" "" "" false false None false "".
Definition ex_images (dests : list string) : gmap string (option ImageEntry) :=
  list_to_map (map (λ d, (d, Some ex_image)) dests).
Definition ex_state_cm (dests : list string) : ConfigMap := state_cm (ex_images dests) None (Some "mt").

(** "is2" was removed from the target; it shares "reg/a:1" with "is1". *)
Definition ex_ctl : Ctl :=
  mkCtl (mkCluster {["is1-images" := ex_state_cm ["reg/a:1"]; "is2-images" := ex_state_cm ["reg/a:1"; "reg/b:1"]]} [])
    ∅ (mkTargetStatus [] ["is1"; "is2"] []).

(** * Properties *)

(** C6: a cleanup never endangers an image that is still needed.  Whatever API
    calls fail during [reconcileCleanup], every snapshot it leaves for a
    cleanup Job and did not find there names no destination that an ImageSet of
    the target references, and no digest reference to a manifest that such a
    destination names in the same repository; this holds for the states before
    and after the run.  Nothing but the pending orphans, the index, the states
    of removed ImageSets and the snapshots is touched. *)
Theorem reconcileCleanup_spares_needed `{NameSum} now mt s n st d :
  let s' := snd (reconcileCleanup now mt s) in
  let snap := cleanupSnapshotCMName (mt_Name mt) n in
  ct_cms s' !! snap ≠ ct_cms s !! snap → loaded (ct_cms s') snap = Some st → is_Some (st !! d) →
  ¬ needed mt "" (ct_cms s) d ∧ ¬ needed mt "" (ct_cms s') d ∧
  (∀ k, ¬ own_cm mt (removed_sets mt (ct_status s)) k → ct_cms s' !! k = ct_cms s !! k).
Proof.
  cbn zeta. intros Hch Hl Hd. destruct (reconcileCleanup_step now mt s) as [HF HS]. specialize (HS n). cbn in HS.
  assert (¬ needed mt "" (ct_cms s) d) as Hn.
  { unfold loaded in Hl. destruct HS as [?|[E|(ex & E & Hex)]]; [done|..]; rewrite E in Hl.
    - simplify_eq. rewrite lookup_empty in Hd. by destruct Hd.
    - rewrite decode_state_cm in Hl. simplify_eq. rewrite lookup_fmap in Hd. apply Hex.
      by destruct (ex !! d). }
  split_and!; [done| |done]. intros Hd'. apply Hn. eapply needed_frame; [| |exact Hd'].
  - intros m. apply removed_sets_disjoint.
  - intros k Hk. symmetry. by apply HF.
Qed.

Lemma reconcileCleanup_spares_needed_witness :
  let s' := snd (reconcileCleanup 0 ex_delete_target ex_ctl) in
  loaded (ct_cms s') (cleanupSnapshotCMName "mt" "is2") = Some (ex_images ["reg/b:1"]) ∧
  ¬ needed ex_delete_target "" (ct_cms s') "reg/b:1".
Proof.
  split; [vm_compute; reflexivity|].
  apply (reconcileCleanup_spares_needed 0 ex_delete_target ex_ctl "is2" (ex_images ["reg/b:1"]) "reg/b:1").
  - vm_compute. discriminate.
  - vm_compute. reflexivity.
  - vm_compute. by eexists.
Defined.

(** Removing an ImageSet cleans up exactly its exclusive images.  When no
    call fails and no Job of that name is left over, the Job's snapshot holds
    precisely the entries of the removed ImageSet that the index does not call
    shared and that nothing still needs; a Job is created exactly when there
    are any, and the removed ImageSet's state is gone. *)
Theorem removed_set_cleanup_exact `{NameSum} mt n s st idx :
  healthy (ct_cluster s) → (n ∉ mt_ImageSets mt) →
  loaded (ct_cms s) (ConfigMapName n) = Some st → loaded_index (ct_cms s) (mt_Name mt) = Some idx →
  (∀ m, m ∈ mt_ImageSets mt → is_Some (loaded (ct_cms s) (ConfigMapName m))) →
  ct_jobs s !! cleanupJobName (mt_Name mt) n = None →
  let snap := cleanupSnapshotCMName (mt_Name mt) n in
  ∃ created s' ex, partitionAndCreateCleanupJob mt n s = (inr created, s') ∧
    (∀ d e, ex !! d = Some e ↔ st !! d = Some e ∧ IsShared idx d = false ∧ ¬ needed mt n (ct_cms s) d) ∧
    created = bool_decide (ex ≠ ∅) ∧ ct_cms s' !! ConfigMapName n = None ∧
    (created = true →
      ct_cms s' !! snap = Some (state_cm ex None (Some (mt_Name mt))) ∧
      ct_jobs s' !! cleanupJobName (mt_Name mt) n = Some (mkJob snap 0 0)).
Proof.
  intros Hh Hn Hst Hidx Hlive Hjob snap. unfold partitionAndCreateCleanupJob.
  destruct (LoadByConfigMapName_ok _ _ _ Hh Hst) as (c1 & E1 & Hc1 & C1).
  unfold Load. rewrite (lift_bind _ _ _ _ _ E1).
  assert (loaded_index (cl_cms c1) (mt_Name mt) = Some idx) as Hidx1 by by rewrite C1.
  destruct (LoadIndex_ok _ _ _ Hc1 Hidx1) as (c2 & E2 & Hc2 & C2).
  rewrite (lift_bind _ _ (set_cluster c1 s) _ _ E2).
  assert (cl_cms c2 = ct_cms s) as C12 by (unfold ct_cms; congruence).
  destruct (live_loop_ok (mt_ImageSets mt) n (mkLive ∅ ∅) (set_cluster c2 s)) as (live & s3 & E3 & Hh3 & (S1 & S2 & S3) & HL).
  { done. }
  { intros m Hm. unfold ct_cms. cbn. rewrite C12. by apply Hlive. }
  unfold liveDestinations. change (set_cluster c2 (set_cluster c1 s)) with (set_cluster c2 s).
  rewrite (bind_inr _ _ _ _ _ E3). clear E1 E2 E3. unfold ct_cms at 2 in S1. cbn in S1, S2, S3. rewrite C12 in S1.
  unfold ct_cms in HL at 1. cbn in HL. rewrite C12 in HL.
  set (ex := filter (λ kv, is_kept idx live (fst kv) = false) st).
  set (shared := filter (λ kv, is_kept idx live (fst kv) = true) st).
  assert (∀ d e, ex !! d = Some e ↔ st !! d = Some e ∧ IsShared idx d = false ∧ ¬ needed mt n (ct_cms s) d) as Hex.
  { intros d e. unfold ex. rewrite map_lookup_filter_Some. cbn. unfold is_kept. rewrite orb_false_iff.
    rewrite <- (needs_spec mt n (ct_cms s) live d HL), not_true_iff_false. tauto. }
  destruct (decide (ex = ∅)) as [Hemp|Hne].
  - rewrite (bind_inr (mret false) _ s3 s3 false) by done.
    destruct (commit_removal_ok mt n idx shared s3 Hh3) as (s4 & E4 & J4 & T4 & C4 & _).
    rewrite (bind_inr _ _ _ _ _ E4). exists false, s4, ex. split_and!; [done|done| |done|done].
    by rewrite bool_decide_eq_false_2 by (by intros ?).
  - destruct (saveRaw_healthy snap ex None (Some (mt_Name mt)) (ct_cluster s3) Hh3) as (c4 & E4 & Hc4 & C4).
    destruct (createCleanupJob_ok mt n snap (set_cluster c4 s3)) as (s5 & E5 & Hh5 & C5 & J5 & T5); [done|by cbn; rewrite S2|].
    rewrite (bind_inr _ _ s3 s5 true).
    2:{ unfold SaveRaw. rewrite (lift_bind _ _ _ _ _ E4), attempt_bind. fold snap. by rewrite E5. }
    destruct (commit_removal_ok mt n idx shared s5 Hh5) as (s6 & E6 & J6 & T6 & C6 & F6).
    rewrite (bind_inr _ _ _ _ _ E6). exists true, s6, ex. split_and!; [done|done| |done|].
    + by rewrite bool_decide_eq_true_2.
    + intros _. split.
      * rewrite F6; [|apply snapshot_ConfigMapName_ne|apply snapshot_Index_ne].
        rewrite C5. unfold ct_cms. cbn. by rewrite C4, lookup_insert_eq.
      * by rewrite J6, J5, lookup_insert_eq.
Qed.

Lemma removed_set_cleanup_exact_witness :
  ∃ created s', partitionAndCreateCleanupJob ex_delete_target "is2" ex_ctl = (inr created, s') ∧
    ct_cms s' !! "is2-images" = None.
Proof.
  edestruct (removed_set_cleanup_exact ex_delete_target "is2" ex_ctl (ex_images ["reg/a:1"; "reg/b:1"]) ∅)
    as (created & s' & ex & H1 & _ & _ & H2 & _).
  - constructor.
  - by_vm.
  - vm_compute. reflexivity.
  - reflexivity.
  - intros m ->%list_elem_of_singleton. vm_compute. by eexists.
  - reflexivity.
  - exists created, s'. split; [exact H1|exact H2].
Defined.

(** A cleanup Job deletes exactly the mirrored images of its snapshot.  When
    the API server answers, the deletions asked for are the snapshot's entries
    in state Mirrored, each once; the counts add up to the size of the
    snapshot; the snapshot is removed exactly when no deletion failed, and kept
    for a retry otherwise; and no registry client serves more than twenty
    deletions. *)
Theorem Run_deletes_mirrored del order cmName c st :
  healthy c → loaded (cl_cms c) cmName = Some st → range_order st (order st) → (∀ d, st !! d ≠ Some None) →
  ∃ res calls c', Run del order cmName c = (inr ((if (0 <? res_Failed res)%Z then RunFailed else RunOk) res, calls), c') ∧
    NoDup calls.*2 ∧
    (∀ d, d ∈ calls.*2 ↔ ∃ e, st !! d = Some (Some e) ∧ State e = "Mirrored") ∧
    res_Deleted res = count_calls (λ x, del x.1 x.2) calls ∧
    res_Failed res = count_calls (λ x, negb (del x.1 x.2)) calls ∧
    (res_Deleted res + res_Skipped res + res_Failed res = Z.of_nat (size st))%Z ∧
    (∀ i client d, calls !! i = Some (client, d) → client = i / 20) ∧
    cl_cms c' = if (0 <? res_Failed res)%Z then cl_cms c else delete cmName (cl_cms c).
Proof.
  intros Hh Hl Ho Hnn. destruct (Run_spec del order cmName c st Hh Hl Ho Hnn) as (res & calls & c' & E & D1 & D2 & D3 & D4 & D5 & D6).
  exists res, calls, c'. split_and!; [done| | |done..].
  - rewrite D1. eapply sublist_NoDup; [|apply filter_bool_sublist]. apply Ho.
  - intros d. rewrite D1, elem_of_filter_bool. unfold to_delete. split.
    + intros [Hb _]. destruct (st !! d) as [[e|]|]; [|done|done]. exists e. split; [done|]. by apply String.eqb_eq.
    + intros (e & He & Hs). rewrite He, Hs. split; [done|]. apply Ho. by eexists.
Qed.

Lemma Run_deletes_mirrored_witness :
  ∃ res calls c', Run (λ _ _, true) some_order "snap" (mkCluster {["snap" := ex_state_cm ["reg/b:1"]]} [])
    = (inr ((if (0 <? res_Failed res)%Z then RunFailed else RunOk) res, calls), c') ∧ "reg/b:1" ∈ calls.*2.
Proof.
  edestruct (Run_deletes_mirrored (λ _ _, true) some_order "snap" (mkCluster {["snap" := ex_state_cm ["reg/b:1"]]} [])
    (ex_images ["reg/b:1"])) as (res & calls & c' & H1 & _ & H2 & _).
  - constructor.
  - vm_compute. reflexivity.
  - apply some_order_ok.
  - intros d. change (ex_images ["reg/b:1"]) with ({["reg/b:1" := Some ex_image]} : gmap string (option ImageEntry)).
    by intros [_ ?]%lookup_singleton_Some.
  - exists res, calls, c'. split; [exact H1|]. apply H2. exists ex_image. split; [vm_compute; reflexivity|reflexivity].
Defined.

(** Without the Delete policy nothing is ever deleted.  If the target does
    not carry [cleanup-policy: Delete] and no cleanup is pending, then whatever
    calls fail a cleanup run leaves every Job alone and every ConfigMap but the
    list of pending orphans. *)
Theorem no_policy_no_cleanup `{NameSum} now mt s :
  deletes mt = false → pending s = [] →
  let s' := snd (reconcileCleanup now mt s) in
  ct_jobs s' = ct_jobs s ∧ pending s' = [] ∧
  ∀ k, k ≠ OrphansConfigMapName (mt_Name mt) → ct_cms s' !! k = ct_cms s !! k.
Proof.
  intros Hd Hp. unfold reconcileCleanup. cbn zeta. rewrite getS_bind.
  set (removed := removed_sets mt (ct_status s)).
  assert (checkPendingCleanups mt s = (inr tt, s)) as E0.
  { unfold checkPendingCleanups. rewrite getS_bind, Hp. cbn. destruct s as [? ? []]. cbn in *. by subst. }
  rewrite (bind_inr _ _ _ _ _ E0). unfold reconcileRemovedImageSets. rewrite Hd. cbn [negb].
  assert (∃ r s1, reconcileOrphans mt s = (r, s1) ∧ ct_jobs s1 = ct_jobs s ∧ ct_status s1 = ct_status s ∧
    ∀ k, k ≠ OrphansConfigMapName (mt_Name mt) → ct_cms s1 !! k = ct_cms s !! k) as (r & s1 & E1 & J1 & T1 & C1).
  { unfold reconcileOrphans, handover_orphans. rewrite Hd. unfold mbind, M_bind. rewrite lift_eq.
    destruct (LoadByConfigMapName_cases (OrphansConfigMapName (mt_Name mt)) (ct_cluster s)) as [L1 _].
    destruct (LoadByConfigMapName _ (ct_cluster s)) as [[e|orph] c1]; cbn in *.
    { eexists _, _. split_and!; [done..|]. intros k _. unfold ct_cms. cbn. by rewrite L1. }
    destruct (decide _); cbn; [eexists _, _; split_and!; [done..|]; intros k _; unfold ct_cms; cbn; by rewrite L1|].
    unfold clear_orphans, delete_cm. rewrite attempt_bind, lift_eq. cbn.
    eexists _, _. split_and!; [done..|]. intros k Hk. unfold ct_cms. cbn. unfold api_delete.
    match goal with |- context [call ?f ?c] => destruct (call_cases f c) as [[-> _]| ->] end; cbn; [by rewrite L1|].
    destruct (_ !! OrphansConfigMapName _); cbn; [rewrite lookup_delete_ne by done|]; by rewrite L1. }
  assert (pending s1 = []) as P1 by (unfold pending; by rewrite T1).
  assert ((match removed with [] => mret tt | _ => mret tt end : CTL unit) = mret tt) as -> by by destruct removed.
  unfold mbind, M_bind. rewrite E1. destruct r as [e|[]]; [done|].
  cbn. split_and!; [done| |done]. unfold pending, cleanup_condition in *. cbn. rewrite P1.
  destruct removed; [|done]. by destruct (existsb _ _).
Qed.

Lemma no_policy_no_cleanup_witness :
  ct_jobs (snd (reconcileCleanup 0 ex_target ex_ctl)) = ∅ ∧ deletes ex_target = false.
Proof.
  split; [|reflexivity]. apply (no_policy_no_cleanup 0 ex_target ex_ctl); reflexivity.
Defined.

(** Orphans recorded during a handover are lost.  [reconcileOrphans] reads
    the list of pending orphans and deletes that ConfigMap unconditionally at
    its end.  Orphans the manager appends in between are in no snapshot and on
    no list afterwards: the store is the one without the append. *)
Theorem orphans_appended_during_handover_are_lost `{NameSum} mt s s1 new c2 :
  handover_orphans mt s = (inr true, s1) →
  healthy (ct_cluster s1) → appendOrphans mt new (ct_cluster s1) = (inr tt, c2) → healthy c2 →
  ct_cms (snd (clear_orphans mt (set_cluster c2 s1))) = ct_cms (snd (clear_orphans mt s1)).
Proof.
  intros _ H1 Ha H2. unfold clear_orphans.
  destruct (delete_cm_healthy (OrphansConfigMapName (mt_Name mt)) s1 H1) as (s3 & E3 & _ & C3 & _).
  destruct (delete_cm_healthy (OrphansConfigMapName (mt_Name mt)) (set_cluster c2 s1) H2) as (s4 & E4 & _ & C4 & _).
  rewrite E3, E4. cbn [snd]. rewrite C3, C4. unfold ct_cms. cbn. apply map_eq. intros k.
  destruct (decide (k = OrphansConfigMapName (mt_Name mt))) as [->|Hk]; [by rewrite !lookup_delete_eq|].
  rewrite !lookup_delete_ne by done. pose proof (appendOrphans_cms mt new (ct_cluster s1) k Hk) as E.
  by rewrite Ha in E.
Qed.

Definition ex_orphaned : Ctl :=
  mkCtl (mkCluster {["mt-images-orphans" := ex_state_cm ["reg/c:1"]]} []) ∅ (mkTargetStatus [] [] []).

Lemma orphans_appended_during_handover_are_lost_witness :
  let s1 := snd (handover_orphans ex_delete_target ex_orphaned) in
  let c2 := snd (appendOrphans ex_delete_target {["reg/d:1" := ex_image]} (ct_cluster s1)) in
  (∃ st, loaded (cl_cms c2) "mt-images-orphans" = Some st ∧ is_Some (st !! "reg/d:1")) ∧
  ct_cms (snd (clear_orphans ex_delete_target (set_cluster c2 s1))) = ct_cms (snd (clear_orphans ex_delete_target s1)).
Proof.
  split; [eexists; split; [vm_compute; reflexivity|vm_compute; by eexists]|].
  eapply (orphans_appended_during_handover_are_lost ex_delete_target ex_orphaned _ {["reg/d:1" := ex_image]}).
  - vm_compute. reflexivity.
  - constructor.
  - vm_compute. reflexivity.
  - constructor.
Defined.

(** A retried cleanup does not look at what is live.  When the Job of a
    pending cleanup is gone and its snapshot is still there, the Job is created
    again with that snapshot, and it deletes every mirrored image in it, also
    one that an ImageSet of the target references by now. *)
Theorem retried_cleanup_deletes_live `{NameSum} mt n s st del order d e :
  let snap := cleanupSnapshotCMName (mt_Name mt) n in
  healthy (ct_cluster s) → ct_jobs s !! cleanupJobName (mt_Name mt) n = None →
  is_Some (ct_cms s !! snap) → loaded (ct_cms s) snap = Some st →
  range_order st (order st) → (∀ d, st !! d ≠ Some None) →
  st !! d = Some (Some e) → State e = "Mirrored" → live_in mt "" (ct_cms s) d →
  ∃ s' o calls c', isPendingCleanup mt n s = (inr true, s') ∧
    ct_jobs s' !! cleanupJobName (mt_Name mt) n = Some (mkJob snap 0 0) ∧
    Run del order snap (ct_cluster s') = (inr (o, calls), c') ∧ d ∈ calls.*2.
Proof.
  intros snap Hh Hj [cm Hcm] Hl Ho Hnn He Hs _. unfold isPendingCleanup. rewrite attempt_bind. unfold job_get.
  match goal with |- context [job_call ?f s] => destruct (job_call_healthy f s Hh) as (s1 & E1 & Hh1 & C1 & J1 & T1) end.
  rewrite E1. rewrite Hj in *. cbn [fst snd] in *. rewrite attempt_bind, lift_eq. cbn [fst snd]. fold snap.
  destruct (api_get_healthy snap (ct_cluster s1) Hh1) as [E2 Hh2]. rewrite E2.
  change (cl_cms (ct_cluster s1)) with (ct_cms s1). rewrite C1, Hcm, attempt_bind.
  destruct (createCleanupJob_ok mt n snap (set_cluster (snd (api_get snap (ct_cluster s1))) s1))
    as (s3 & E3 & Hh3 & C3 & J3 & T3); [done|by cbn; rewrite J1|].
  rewrite E3. cbn [fst snd].
  assert (ct_cms s3 = ct_cms s) as C4.
  { rewrite C3. unfold ct_cms. cbn. rewrite api_get_cms. exact C1. }
  destruct (Run_spec del order snap (ct_cluster s3) st) as (res & calls & c' & E & D1 & _); [done| |done|done|].
  { change (cl_cms (ct_cluster s3)) with (ct_cms s3). by rewrite C4. }
  eexists s3, _, calls, c'. split_and!; [done|by rewrite J3, lookup_insert_eq|exact E|].
  rewrite D1, elem_of_filter_bool. unfold to_delete. rewrite He, Hs. split; [done|]. apply Ho. by eexists.
Qed.

(** "is1" references "reg/b:1" again while its cleanup is being retried. *)
Definition ex_retried : Ctl :=
  mkCtl (mkCluster {["is1-images" := ex_state_cm ["reg/b:1"];
                     "mt-cleanup-is2-01234567" := ex_state_cm ["reg/b:1"]]} [])
    ∅ (mkTargetStatus [] ["is1"; "is2"] ["is2"]).

Lemma retried_cleanup_deletes_live_witness :
  ∃ s' o calls c', isPendingCleanup ex_delete_target "is2" ex_retried = (inr true, s') ∧
    Run (λ _ _, true) some_order "mt-cleanup-is2-01234567" (ct_cluster s') = (inr (o, calls), c') ∧
    "reg/b:1" ∈ calls.*2.
Proof.
  edestruct (retried_cleanup_deletes_live ex_delete_target "is2" ex_retried (ex_images ["reg/b:1"])
    (λ _ _, true) some_order "reg/b:1" ex_image) as (s' & o & calls & c' & H1 & _ & H2 & H3).
  - constructor.
  - reflexivity.
  - by eexists.
  - vm_compute. reflexivity.
  - apply some_order_ok.
  - intros d. change (ex_images ["reg/b:1"]) with ({["reg/b:1" := Some ex_image]} : gmap string (option ImageEntry)).
    by intros [_ ?]%lookup_singleton_Some.
  - reflexivity.
  - reflexivity.
  - exists "is1", (ex_images ["reg/b:1"]). split_and!; [by_vm|done|vm_compute; reflexivity|vm_compute; by eexists].
  - exists s', o, calls, c'. split_and!; [exact H1|exact H2|exact H3].
Defined.
