(* ===== verification/Semver.v ===== *)
(** * Versions

    The interface of the semver package (github.com/blang/semver), which the
    release and the catalog resolver rely on: a parser and the precedence of
    versions.  Its laws are those of a strict weak order; versions that differ
    in build metadata only have the same precedence. *)
From S2P Require Import Prelude GoStrings.

Class Semver := {
  version : Type;
  ParseTolerant : string → option version;
  LT : version → version → bool;
}.

(** The precedence of semver is a strict weak order. *)
Class SemverLaws `{Semver} : Prop := {
  LT_irrefl v : LT v v = false;
  LT_trans u v w : LT u v = true → LT v w = true → LT u w = true;
  LT_weak u v w : LT u w = true → LT u v = true ∨ LT v w = true;
}.

Section versions.
Context `{SV : Semver}.

Definition GT (u v : version) : bool := LT v u.
Definition GTE (u v : version) : bool := negb (LT u v).
Definition LTE (u v : version) : bool := negb (LT v u).
End versions.

(** An instance for the examples: versions that are single numbers. *)
Definition number_semver : Semver := {| version := Z; ParseTolerant s := Atoi s; LT u v := (u <? v)%Z |}.

Lemma number_semver_laws : @SemverLaws number_semver.
Proof. split; cbn; intros; rewrite ?Z.ltb_lt, ?Z.ltb_ge in *; lia. Qed.
