(* ===== verification/CatalogGraph.v ===== *)
(** * Operator catalogs: versions, channel heads and upgrade graphs

    The first half of the filtering of pkg/mirror/catalog/resolver.go: bundle
    versions, version filters, the selection of channel heads and the repair
    of the upgrade graph of a channel.  The file-based catalog is the value
    operator-registry parses. *)
From S2P Require Import Prelude GoStrings ImageRef Api Semver.

(** ** The catalog *)

Record gvkValue := mkGVK { g_Group : string; g_Version : string; g_Kind : string }.

Definition gvkKey (g : gvkValue) : string := g_Group g +:+ "/" +:+ g_Version g +:+ "/" +:+ g_Kind g.

(** A property with its value as [json.Unmarshal] reads it into the struct the
    code uses for that type; [None] is an error. *)
Inductive Property :=
| olmPackage (version : option string)
| olmPackageRequired (packageName : option string)
| olmGVK (g : option gvkValue)
| olmGVKRequired (g : option gvkValue)
| otherProperty (type : string).

Record Bundle := mkBundle {
  bd_Name : string; bd_Package : string; bd_Image : string;
  bd_Properties : list Property; bd_RelatedImages : list string;
}.
Record ChannelEntry := mkEntry {
  ce_Name : string; ce_Replaces : string; ce_Skips : list string; ce_SkipRange : string;
}.
Record Channel := mkCatChannel { cn_Name : string; cn_Package : string; cn_Entries : list ChannelEntry }.
Record Package := mkPackage { pk_Name : string; pk_DefaultChannel : string }.
Record DeclarativeConfig := mkConfig {
  dc_Packages : list Package; dc_Channels : list Channel; dc_Bundles : list Bundle;
}.

(** ** Versions *)

Section versions.
Context `{SV : Semver}.

(** The first non-empty version of an olm.package property. *)
Fixpoint bundleVersion_of (props : list Property) : string :=
  match props with
  | [] => ""
  | olmPackage (Some v) :: props => if String.eqb v "" then bundleVersion_of props else v
  | _ :: props => bundleVersion_of props
  end.
Definition bundleVersion (b : Bundle) : string := bundleVersion_of (bd_Properties b).

Definition parseBundleSemver (bundlesByName : gmap string Bundle) (name : string) : option version :=
  match bundlesByName !! name with
  | None => None
  | Some b => let v := bundleVersion b in if String.eqb v "" then None else ParseTolerant v
  end.

(** A [has...Ver]/[...SV] pair of fields is an option. *)
Record channelVersionFilter := mkVersionFilter { vf_min : option version; vf_max : option version }.

Record pkgIncludeFilter := mkPkgFilter {
  pf_allowAllChannels : bool;
  pf_allowedChannels : gset string;
  pf_channelFilters : gmap string channelVersionFilter;
  pf_pkg : channelVersionFilter;
}.

Definition version_bound (s : string) : option version := if String.eqb s "" then None else ParseTolerant s.
Definition bounds_of (b : IncludeBundle) : channelVersionFilter :=
  mkVersionFilter (version_bound (ib_MinVersion b)) (version_bound (ib_MaxVersion b)).

Definition buildPkgIncludeFilter (inc : IncludePackage) : pkgIncludeFilter :=
  mkPkgFilter (bool_decide (ip_Channels inc = [])) (list_to_set (map ic_Name (ip_Channels inc)))
    (foldl (λ cfs ch, <[ic_Name ch := bounds_of (ic_Bundle ch)]> cfs) ∅ (ip_Channels inc))
    (bounds_of (ip_Bundle inc)).

Definition effectiveVersionFilter (f : pkgIncludeFilter) (chName : string) : channelVersionFilter :=
  let cf := default (mkVersionFilter None None) (pf_channelFilters f !! chName) in
  mkVersionFilter (match vf_min cf with Some v => Some v | None => vf_min (pf_pkg f) end)
    (match vf_max cf with Some v => Some v | None => vf_max (pf_pkg f) end).

Definition bundleMatchesVersionFilter (b : Bundle) (vf : channelVersionFilter) : bool :=
  match vf_min vf, vf_max vf with
  | None, None => true
  | _, _ =>
    let ver := bundleVersion b in
    if String.eqb ver "" then true
    else match ParseTolerant ver with
         | None => true
         | Some sv =>
           if match vf_min vf with Some m => LT sv m | None => false end then false
           else if match vf_max vf with Some m => GT sv m | None => false end then false
           else true
         end
  end.

(** ** Heads *)

(** One step of the loop of [highestVersionBundle]. *)
Definition higher (bundlesByName : gmap string Bundle) (best : string * option version) (c : string)
    : string * option version :=
  match parseBundleSemver bundlesByName c, snd best with
  | Some sv, Some bestSV => if GT sv bestSV then (c, Some sv) else best
  | Some sv, None => (c, Some sv)
  | None, None => if bool_decide (String.le (fst best) c) then best else (c, None)
  | None, Some _ => best
  end.

(** [candidates] is not empty. *)
Definition highestVersionBundle (best : string) (candidates : list string) (bundlesByName : gmap string Bundle) : string :=
  fst (foldl (higher bundlesByName) (best, parseBundleSemver bundlesByName best) candidates).

(** The names some entry replaces or skips. *)
Definition superseded (entries : list ChannelEntry) : gset string :=
  foldr (λ e acc, (if String.eqb (ce_Replaces e) "" then ∅ else {[ce_Replaces e]}) ∪ list_to_set (ce_Skips e) ∪ acc)
    ∅ entries.

Definition heads (entries : list ChannelEntry) : list string :=
  List.filter (λ n, negb (bool_decide (n ∈ superseded entries))) (map ce_Name entries).

Definition entryByName (entries : list ChannelEntry) : gmap string ChannelEntry := index_by ce_Name entries.

(** The inner loop of [channelHeadPlusN]: [n] steps down the chain. *)
Fixpoint include_chain (byName : gmap string ChannelEntry) (n : nat) (current : string) (include : gset string)
    : gset string :=
  match n with
  | O => include
  | S n =>
    match byName !! current with
    | None => include
    | Some e => if String.eqb (ce_Replaces e) "" then include
                else include_chain byName n (ce_Replaces e) ({[ce_Replaces e]} ∪ include)
    end
  end.

(** The head [channelHeadPlusN] settles on; [None] for an empty channel. *)
Definition channel_head (entries : list ChannelEntry) (bundlesByName : gmap string Bundle) : option string :=
  match heads entries with
  | [] => ce_Name <$> last entries
  | [h] => Some h
  | h :: hs => Some (highestVersionBundle h hs bundlesByName)
  end.

Definition channelHeadPlusN (ch : Channel) (previous : Z) (bundlesByName : gmap string Bundle) : list string :=
  let entries := cn_Entries ch in
  match channel_head entries bundlesByName with
  | None => []
  | Some head =>
    if (previous <=? 0)%Z then [head]
    else
      let include := include_chain (entryByName entries) (Z.to_nat previous) head {[head]} in
      List.filter (λ n, bool_decide (n ∈ include)) (map ce_Name entries)
  end.

(** ** The upgrade graph *)

(** The walk from a dropped [Replaces] to the nearest kept ancestor: the new
    [Replaces] and the extended [Skips].  Every step but the last marks
    another entry as visited, so [fuel] need not exceed their number by more
    than one. *)
Fixpoint repair_walk (fuel : nat) (byName : gmap string ChannelEntry) (kept visited : gset string) (cur : string)
    (skips : list string) : string * list string :=
  match fuel with
  | O => ("", skips)
  | S fuel =>
    if String.eqb cur "" || bool_decide (cur ∈ visited) then ("", skips)
    else if bool_decide (cur ∈ kept) then (cur, skips)
    else
      let skips := if bool_decide (cur ∈ skips) then skips else skips ++ [cur] in
      match byName !! cur with
      | None => ("", skips)
      | Some anc => repair_walk fuel byName kept ({[cur]} ∪ visited) (ce_Replaces anc) skips
      end
  end.

Definition repair_entry (original : list ChannelEntry) (kept : gset string) (e : ChannelEntry) : ChannelEntry :=
  if String.eqb (ce_Replaces e) "" || bool_decide (ce_Replaces e ∈ kept) then e
  else
    let '(newReplaces, skips) :=
      repair_walk (S (length original)) (entryByName original) kept {[ce_Name e]} (ce_Replaces e) (ce_Skips e) in
    mkEntry (ce_Name e) newReplaces skips (ce_SkipRange e).

Definition repairChannelGraph (original : list ChannelEntry) (kept : gset string) : list ChannelEntry :=
  map (repair_entry original kept) (List.filter (λ e, bool_decide (ce_Name e ∈ kept)) original).

Definition mergeChannelHeads (entries : list ChannelEntry) (bundlesByName : gmap string Bundle) : list ChannelEntry :=
  match heads entries with
  | [] | [_] => entries
  | h :: hs =>
    let top := highestVersionBundle h hs bundlesByName in
    map (λ e, if String.eqb (ce_Name e) top
              then mkEntry (ce_Name e) (ce_Replaces e)
                     (ce_Skips e ++ List.filter (λ x, negb (String.eqb x top)) (h :: hs)) (ce_SkipRange e)
              else e) entries
  end.
End versions.

(** * Lemmas *)

Section graph.
Implicit Types (entries original : list ChannelEntry) (kept visited : gset string).

Lemma elem_of_superseded x entries :
  x ∈ superseded entries ↔ ∃ e, e ∈ entries ∧ ((ce_Replaces e = x ∧ x ≠ "") ∨ x ∈ ce_Skips e).
Proof.
  induction entries as [|e entries IH]; cbn.
  { split; [by intros ?%elem_of_empty|by intros (? & ?%elem_of_nil & _)]. }
  rewrite !elem_of_union, IH, elem_of_list_to_set. setoid_rewrite elem_of_cons.
  destruct (String.eqb_spec (ce_Replaces e) "") as [E|E]; [rewrite elem_of_empty|rewrite elem_of_singleton];
    split; naive_solver.
Qed.

Lemma elem_of_heads x entries : x ∈ heads entries ↔ (x ∉ superseded entries) ∧ x ∈ map ce_Name entries.
Proof. unfold heads. by rewrite elem_of_filter_bool, negb_true_iff, bool_decide_eq_false. Qed.

Lemma NoDup_heads entries : NoDup (map ce_Name entries) → NoDup (heads entries).
Proof. intros. by eapply sublist_NoDup, filter_bool_sublist. Qed.

(** A channel with one head, said without lists. *)
Lemma heads_singleton entries h :
  NoDup (map ce_Name entries) → h ∈ map ce_Name entries → h ∉ superseded entries →
  (∀ x, x ∈ map ce_Name entries → x ≠ h → x ∈ superseded entries) → heads entries = [h].
Proof.
  intros Hnd Hh Hs Hall. apply NoDup_heads in Hnd as Hn.
  assert (Hx : ∀ x, x ∈ heads entries ↔ x = h).
  { intros x. rewrite elem_of_heads. split; [|by intros ->]. intros [Hsx Hin].
    destruct (decide (x = h)); [done|]. by destruct (Hsx (Hall x Hin n)). }
  destruct (heads entries) as [|y [|z l]].
  - assert (h ∈ []) as ?%elem_of_nil by by apply Hx. done.
  - f_equal. apply Hx. set_solver.
  - exfalso. apply NoDup_cons in Hn as [Hy _]. apply Hy. assert (y = h) by (apply Hx; set_solver).
    assert (z = h) by (apply Hx; set_solver). subst. set_solver.
Qed.

Lemma entryByName_lookup entries n e :
  NoDup (map ce_Name entries) → entryByName entries !! n = Some e ↔ e ∈ entries ∧ ce_Name e = n.
Proof. apply index_by_lookup. Qed.

Lemma repair_entry_Name original kept e : ce_Name (repair_entry original kept e) = ce_Name e.
Proof. unfold repair_entry. destruct (_ || _); [done|]. by destruct (repair_walk _ _ _ _ _ _). Qed.

Lemma repair_names original kept :
  map ce_Name (repairChannelGraph original kept) =
  List.filter (λ n, bool_decide (n ∈ kept)) (map ce_Name original).
Proof.
  unfold repairChannelGraph. rewrite map_map. setoid_rewrite repair_entry_Name.
  induction original as [|e l IH]; cbn; [done|]. destruct (bool_decide (ce_Name e ∈ kept)); cbn; by rewrite IH.
Qed.

Lemma elem_of_repair original kept e' :
  e' ∈ repairChannelGraph original kept ↔
  ∃ e, e ∈ original ∧ ce_Name e ∈ kept ∧ e' = repair_entry original kept e.
Proof.
  unfold repairChannelGraph. change (map ?f ?l) with (f <$> l). rewrite list_elem_of_fmap.
  setoid_rewrite elem_of_filter_bool. setoid_rewrite bool_decide_eq_true. naive_solver.
Qed.

(** What the walk returns: a kept name that some entry of the channel (or the
    walk's start) replaces, and skips extended by dropped names. *)
Lemma repair_walk_spec fuel byName kept visited cur skips r sk :
  repair_walk fuel byName kept visited cur skips = (r, sk) →
  (r = "" ∨ (r ∈ kept ∧ r ≠ "" ∧ (r = cur ∨ ∃ n e, byName !! n = Some e ∧ ce_Replaces e = r))) ∧
  (∃ extra, sk = skips ++ extra ∧ ∀ x, x ∈ extra → x ∉ kept).
Proof.
  revert visited cur skips. induction fuel as [|fuel IH]; intros visited cur skips; cbn.
  { intros [= <- <-]. split; [by left|]. exists []. rewrite app_nil_r. set_solver. }
  destruct (String.eqb_spec cur ""); cbn;
    [intros [= <- <-]; split; [by left|]; exists []; rewrite app_nil_r; set_solver|].
  destruct (bool_decide (cur ∈ visited));
    [intros [= <- <-]; split; [by left|]; exists []; rewrite app_nil_r; set_solver|].
  destruct (bool_decide_reflect (cur ∈ kept)) as [Hk|Hk];
    [intros [= <- <-]; split; [right; auto|]; exists []; rewrite app_nil_r; set_solver|].
  assert (Hx : ∃ extra, (if bool_decide (cur ∈ skips) then skips else skips ++ [cur]) = skips ++ extra ∧
    ∀ x, x ∈ extra → x ∉ kept).
  { destruct (bool_decide _); [exists []; rewrite app_nil_r; set_solver|exists [cur]; set_solver]. }
  destruct Hx as (extra & -> & Hex).
  destruct (byName !! cur) as [anc|] eqn:Ea; [|intros [= <- <-]; split; [by left|eauto]].
  intros Hw. apply IH in Hw as [Hr (extra' & -> & Hex')]. split.
  - destruct Hr as [->|(? & ? & [->|?])]; [by left|right..]; split_and!; eauto.
  - exists (extra ++ extra'). rewrite app_assoc. set_solver.
Qed.

(** The successor relation of the upgrade graph. *)
Definition replaces (entries : list ChannelEntry) (a b : string) : Prop :=
  b ≠ "" ∧ ∃ e, e ∈ entries ∧ ce_Name e = a ∧ ce_Replaces e = b.

(** A path with its interior. *)
Fixpoint replaces_path (entries : list ChannelEntry) (a : string) (xs : list string) (b : string) : Prop :=
  match xs with
  | [] => replaces entries a b
  | x :: xs => replaces entries a x ∧ replaces_path entries x xs b
  end.

Lemma replaces_path_app entries a xs x ys b :
  replaces_path entries a (xs ++ x :: ys) b ↔ replaces_path entries a xs x ∧ replaces_path entries x ys b.
Proof. revert a. induction xs as [|y xs IH]; intros a; cbn; [done|]. rewrite IH. naive_solver. Qed.

(** Along dropped entries the walk reaches the kept ancestor. *)
Lemma repair_walk_path original kept fuel visited cur xs k skips :
  NoDup (map ce_Name original) → length xs < fuel → cur ≠ "" →
  (match xs with [] => cur = k | x :: xs' => cur = x ∧ replaces_path original x xs' k end) →
  Forall (λ x, (x ∉ kept) ∧ (x ∉ visited) ∧ x ≠ "") xs → NoDup xs → k ∈ kept → k ∉ visited → k ≠ "" →
  ∃ sk, repair_walk fuel (entryByName original) kept visited cur skips = (k, sk) ∧ ∀ x, x ∈ xs → x ∈ sk.
Proof.
  intros Hnd. revert fuel visited cur skips. induction xs as [|x xs IH]; intros fuel visited cur skips Hf Hc Hp Hall Hn Hk Hv Hk0.
  - destruct fuel as [|fuel]; [cbn in Hf; lia|]. subst cur. cbn.
    destruct (String.eqb_spec k ""); [done|]. rewrite (bool_decide_eq_false_2 (k ∈ visited)) by done.
    rewrite bool_decide_eq_true_2 by done. exists skips. split; [done|]. by intros ? ?%elem_of_nil.
  - destruct fuel as [|fuel]; [cbn in Hf; lia|]. destruct Hp as [-> Hp].
    apply Forall_cons in Hall as [(Hxk & Hxv & Hx0) Hall]. apply NoDup_cons in Hn as [Hxn Hn]. cbn [repair_walk].
    destruct (String.eqb_spec x ""); [done|]. rewrite (bool_decide_eq_false_2 (x ∈ visited)) by done.
    rewrite bool_decide_eq_false_2 by done. cbn [orb].
    assert (∃ e, entryByName original !! x = Some e ∧ ce_Replaces e = match xs with [] => k | y :: _ => y end) as (e & -> & He).
    { destruct xs as [|y ys]; cbn in Hp.
      - destruct Hp as (_ & e & Hin & Hnm & Hr). exists e. split; [|done]. by apply entryByName_lookup.
      - destruct Hp as [(_ & e & Hin & Hnm & Hr) _]. exists e. split; [|done]. by apply entryByName_lookup. }
    set (skips' := if bool_decide (x ∈ skips) then _ else _).
    edestruct (IH fuel ({[x]} ∪ visited) (ce_Replaces e) skips') as (sk & Hw & Hsk).
    + cbn in Hf. lia.
    + rewrite He. destruct xs; [done|]. apply Forall_cons in Hall as [(_ & _ & ?) _]. done.
    + destruct xs as [|y ys]; [done|]. cbn in Hp. by destruct Hp.
    + eapply Forall_impl; [apply Forall_and; split; [exact Hall|apply (Forall_forall (λ y, y ≠ x))]|]; [set_solver|].
      intros y [(? & ? & ?) ?]. set_solver.
    + done.
    + done.
    + intros [->%elem_of_singleton|?]%elem_of_union; done.
    + done.
    + exists sk. split; [done|]. intros z [->|Hz]%elem_of_cons; [|auto].
      apply repair_walk_spec in Hw as [_ (extra & -> & _)]. apply elem_of_app. left. unfold skips'.
      destruct (bool_decide_reflect (x ∈ skips)); set_solver.
Qed.

(** More fuel than unvisited entries changes nothing. *)
Lemma repair_walk_fuel byName kept fuel fuel' visited cur skips :
  size (dom byName ∖ visited) < fuel → fuel ≤ fuel' →
  repair_walk fuel' byName kept visited cur skips = repair_walk fuel byName kept visited cur skips.
Proof.
  revert fuel' visited cur skips. induction fuel as [|fuel IH]; intros fuel' visited cur skips Hs Hf; [lia|].
  destruct fuel' as [|fuel']; [lia|]. cbn. destruct (String.eqb cur ""); [done|]. cbn [orb].
  destruct (bool_decide_reflect (cur ∈ visited)) as [Hv|Hv]; [done|]. destruct (bool_decide (cur ∈ kept)); [done|].
  destruct (byName !! cur) eqn:E; [|done]. apply IH; [|lia].
  assert (size (dom byName ∖ ({[cur]} ∪ visited)) < size (dom byName ∖ visited)); [|lia].
  apply subset_size. apply elem_of_dom_2 in E. split; [set_solver|]. intros Hsub. specialize (Hsub cur). set_solver.
Qed.

Lemma size_difference_le (X Y : gset string) : size (X ∖ Y) ≤ size X.
Proof. apply subseteq_size. set_solver. Qed.

Lemma entryByName_size original : size (dom (entryByName original)) ≤ length original.
Proof. rewrite size_dom. apply index_by_size. Qed.

(** A kept entry after the repair, when its own target is kept or the path to
    the next kept ancestor runs over dropped entries. *)
Lemma repair_entry_path original kept e xs k :
  NoDup (map ce_Name original) → e ∈ original → replaces_path original (ce_Name e) xs k →
  NoDup (ce_Name e :: xs ++ [k]) → Forall (λ x, x ∉ kept) xs → k ∈ kept →
  ce_Replaces (repair_entry original kept e) = k ∧ ∀ x, x ∈ xs → x ∈ ce_Skips (repair_entry original kept e).
Proof.
  intros Hnd He Hp Hn Hall Hk.
  assert (Hpath : ∀ a xs b, replaces_path original a xs b → b ≠ "" ∧ Forall (λ x, x ≠ "") xs).
  { clear. intros a xs. revert a. induction xs as [|x xs IH]; intros a b; cbn; [by intros [? _]|].
    intros [[? _] [? ?]%IH]. by split; [|constructor]. }
  destruct (Hpath _ _ _ Hp) as [Hk0 Hxs0].
  assert (Hr : ce_Replaces e = match xs with [] => k | x :: _ => x end).
  { assert (∀ b, replaces original (ce_Name e) b → ce_Replaces e = b) as Hb.
    { intros b (_ & e2 & H2 & Hname & Hrep). assert (e2 = e) as ->; [|done].
      assert (entryByName original !! ce_Name e = Some e2) by (by apply entryByName_lookup).
      assert (entryByName original !! ce_Name e = Some e) by (by apply entryByName_lookup). congruence. }
    destruct xs; cbn in Hp; [by apply Hb|]. apply Hb. tauto. }
  apply NoDup_cons in Hn as [Hen Hn]. apply NoDup_app in Hn as (Hnx & Hkx & _).
  unfold repair_entry. destruct xs as [|x xs].
  { rewrite Hr. destruct (String.eqb_spec k ""); [done|]. rewrite bool_decide_eq_true_2 by done. cbn.
    split; [done|]. by intros ? ?%elem_of_nil. }
  rewrite Hr. apply Forall_cons in Hxs0 as [Hx0 Hxs0]. apply Forall_cons in Hall as [Hxk Hall].
  destruct (String.eqb_spec x ""); [done|]. rewrite bool_decide_eq_false_2 by done. cbn [orb].
  set (N := S (length (x :: xs)) + S (length original)).
  rewrite <- (repair_walk_fuel _ _ (S (length original)) N);
    [|pose proof (entryByName_size original); pose proof (size_difference_le (dom (entryByName original)) {[ce_Name e]}); lia
     |unfold N; lia].
  edestruct (repair_walk_path original kept N {[ce_Name e]} x (x :: xs) k (ce_Skips e)) as (sk & -> & Hsk).
  - done.
  - unfold N. cbn. lia.
  - done.
  - split; [done|]. cbn in Hp. tauto.
  - apply Forall_cons. split; [set_solver|].
    rewrite Forall_forall in *. intros y Hy. split_and!; [auto| |auto]. set_solver.
  - done.
  - done.
  - set_solver.
  - done.
  - done.
Qed.
End graph.

(** ** Picking the highest version *)

Section picking.
Context `{SV : Semver, !SemverLaws}.

(** Not higher than: the order [higher] maximises. *)
Definition below (bbn : gmap string Bundle) (c b : string) : Prop :=
  match parseBundleSemver bbn c, parseBundleSemver bbn b with
  | Some vc, Some vb => LT vb vc = false
  | Some _, None => False
  | None, _ => True
  end.

Lemma below_trans bbn a b c : below bbn a b → below bbn b c → below bbn a c.
Proof.
  unfold below. destruct (parseBundleSemver bbn a) as [va|], (parseBundleSemver bbn b) as [vb|],
    (parseBundleSemver bbn c) as [vc|]; try done.
  intros H1 H2. destruct (LT vc va) eqn:E; [|done]. destruct (LT_weak vc vb va E); congruence.
Qed.

Lemma below_refl bbn a : below bbn a a.
Proof. unfold below. destruct (parseBundleSemver bbn a); [apply LT_irrefl|done]. Qed.

Lemma highest_spec bbn b cs :
  (highestVersionBundle b cs bbn ∈ b :: cs) ∧ ∀ c, c ∈ b :: cs → below bbn c (highestVersionBundle b cs bbn).
Proof.
  unfold highestVersionBundle.
  enough (Hg : let r := foldl (higher bbn) (b, parseBundleSemver bbn b) cs in
    snd r = parseBundleSemver bbn (fst r) ∧ fst r ∈ b :: cs ∧ ∀ c, c ∈ b :: cs → below bbn c (fst r)) by apply Hg.
  apply (foldl_inv (λ pre r, snd r = parseBundleSemver bbn (fst r) ∧ fst r ∈ b :: pre ∧
    ∀ c, c ∈ b :: pre → below bbn c (fst r))).
  { split_and!; [done|set_solver|]. intros c ->%list_elem_of_singleton. apply below_refl. }
  intros pre x [r v] (Hv & Hin & Hb) _ _. cbn in Hv, Hin, Hb. subst v.
  assert (Hcase : (higher bbn (r, parseBundleSemver bbn r) x = (r, parseBundleSemver bbn r) ∧ below bbn x r) ∨
    (higher bbn (r, parseBundleSemver bbn r) x = (x, parseBundleSemver bbn x) ∧ below bbn r x)).
  { unfold higher, below, GT. cbn. destruct (parseBundleSemver bbn x) as [vx|] eqn:Ex, (parseBundleSemver bbn r) as [vr|] eqn:Er.
    - destruct (LT vr vx) eqn:E; [right|by left]. split; [done|].
      destruct (LT vx vr) eqn:E2; [|done]. pose proof (LT_trans _ _ _ E E2). pose proof (LT_irrefl vr). congruence.
    - by right.
    - by left.
    - destruct (bool_decide _); [by left|by right]. }
  destruct Hcase as [[-> Hx]|[-> Hx]]; cbn; split_and!; [done|set_solver| |done|set_solver|].
  - intros c [->|[Hc| ->%list_elem_of_singleton]%elem_of_app]%elem_of_cons; [apply Hb; set_solver|apply Hb; set_solver|done].
  - intros c [->|[Hc| ->%list_elem_of_singleton]%elem_of_app]%elem_of_cons;
      [eapply below_trans; [apply Hb; set_solver|done]|eapply below_trans; [apply Hb; set_solver|done]|apply below_refl].
Qed.
End picking.

(** ** Head selection *)

Lemma include_chain_mono byName n cur (inc : gset string) x : x ∈ inc → x ∈ include_chain byName n cur inc.
Proof.
  revert cur inc. induction n as [|n IH]; intros cur inc Hx; cbn; [done|]. destruct (byName !! cur); [|done].
  destruct (String.eqb _ _); [done|]. apply IH. set_solver.
Qed.

Lemma include_chain_spec byName n cur inc x :
  x ∈ include_chain byName n cur inc →
  x ∈ inc ∨ ∃ a e, (a = cur ∨ a ∈ include_chain byName n cur inc) ∧ byName !! a = Some e ∧ ce_Replaces e = x ∧ x ≠ "".
Proof.
  revert cur inc. induction n as [|n IH]; intros cur inc; cbn; [by left|].
  destruct (byName !! cur) as [e|] eqn:E; [|by left].
  destruct (String.eqb_spec (ce_Replaces e) "") as [|Hne]; [by left|]. intros Hx.
  apply IH in Hx as [Hx|(a & e' & Ha & Ea & Er & ?)].
  - apply elem_of_union in Hx as [->%elem_of_singleton|Hx]; [|by left]. right. exists cur, e. auto.
  - right. exists a, e'. split_and!; [|done..]. right. destruct Ha as [->|?]; [|done]. apply include_chain_mono. set_solver.
Qed.

Section properties.
Context `{SV : Semver, !SemverLaws}.

(** The head is not superseded when the channel has any unsuperseded entry. *)
Lemma channel_head_spec entries bbn :
  heads entries ≠ [] → ∃ h, channel_head entries bbn = Some h ∧ h ∈ heads entries.
Proof.
  unfold channel_head. destruct (heads entries) as [|h [|h2 hs]] eqn:E; [done|..]; intros _.
  - exists h. split; [done|set_solver].
  - eexists. split; [done|]. apply highest_spec.
Qed.

(** What is selected: the head, and with it only names the chain leads to. *)
Lemma selection_spec ch previous bbn h :
  NoDup (map ce_Name (cn_Entries ch)) → channel_head (cn_Entries ch) bbn = Some h → h ∈ map ce_Name (cn_Entries ch) →
  h ∈ channelHeadPlusN ch previous bbn ∧
  ∀ x, x ∈ channelHeadPlusN ch previous bbn → x ≠ h →
    ∃ a, a ∈ channelHeadPlusN ch previous bbn ∧ replaces (cn_Entries ch) a x.
Proof.
  intros Hnd Hh Hin. unfold channelHeadPlusN. rewrite Hh. destruct (previous <=? 0)%Z; [split; [set_solver|]; set_solver|].
  set (inc := include_chain _ _ _ _).
  assert (Hinc : h ∈ inc) by (apply include_chain_mono; set_solver).
  split; [apply elem_of_filter_bool; split; [by apply bool_decide_eq_true_2|done]|].
  intros x [Hx Hxn]%elem_of_filter_bool Hne. apply bool_decide_eq_true_1 in Hx.
  apply include_chain_spec in Hx as [?%elem_of_singleton|(a & e & Ha & Ea & Er & Hx0)]; [done|].
  apply entryByName_lookup in Ea as [Hein Hna]; [|done]. exists a. split; [|by split; eauto].
  apply elem_of_filter_bool. split; [apply bool_decide_eq_true_2; by destruct Ha as [->|?]|].
  rewrite <- Hna. by apply list_elem_of_fmap_2.
Qed.

(** Superseding after a repair: nothing new that is kept, except ancestors
    that were superseded before. *)
Lemma superseded_repair original kept x :
  NoDup (map ce_Name original) → x ∈ kept → x ∈ superseded (repairChannelGraph original kept) → x ∈ superseded original.
Proof.
  intros Hnd Hk. rewrite !elem_of_superseded. intros (e' & (e & He & Hek & ->)%elem_of_repair & Hx).
  unfold repair_entry in Hx. destruct (String.eqb (ce_Replaces e) "" || _) eqn:Eb; [eauto|].
  destruct (repair_walk _ _ _ _ _ _) as [r sk] eqn:Ew. cbn in Hx.
  apply repair_walk_spec in Ew as [Hr (extra & -> & Hex)].
  destruct Hx as [[-> Hx0]|[Hx|Hx]%elem_of_app]; [|eauto|by destruct (Hex x Hx)].
  destruct Hr as [?|(_ & _ & [->|(n & e2 & He2 & Hr2)])]; [done|exists e; auto|].
  apply entryByName_lookup in He2 as [? _]; [|done]. exists e2. auto.
Qed.

(** Filtering a channel does not cut its upgrade graph.  If a kept entry
    reaches another kept entry by the replaces chain of the original channel,
    then after the repair the latter is still superseded, so it is no new
    channel head; and when everything between the two was dropped, the former
    replaces the latter directly and skips what was dropped, so clusters on
    the dropped versions can still upgrade. *)
Theorem repairChannelGraph_reconnects original kept a xs k :
  NoDup (map ce_Name original) → replaces_path original a xs k → NoDup (a :: xs ++ [k]) → a ∈ kept → k ∈ kept →
  k ∈ superseded (repairChannelGraph original kept) ∧
  (Forall (λ x, x ∉ kept) xs → ∃ e', e' ∈ repairChannelGraph original kept ∧ ce_Name e' = a ∧
     ce_Replaces e' = k ∧ ∀ x, x ∈ xs → x ∈ ce_Skips e').
Proof.
  intros Hnd Hp Hn Ha Hk.
  assert (Hdirect : ∀ a xs, replaces_path original a xs k → NoDup (a :: xs ++ [k]) → a ∈ kept →
    Forall (λ x, x ∉ kept) xs → ∃ e', e' ∈ repairChannelGraph original kept ∧ ce_Name e' = a ∧
     ce_Replaces e' = k ∧ ∀ x, x ∈ xs → x ∈ ce_Skips e').
  { clear -Hnd Hk. intros a xs Hp Hn Ha Hall.
    assert (∃ e, e ∈ original ∧ ce_Name e = a) as (e & He & Hea)
      by (destruct xs; cbn in Hp; [destruct Hp as (_ & e & ? & ? & _)|destruct Hp as [(_ & e & ? & ? & _) _]]; eauto).
    subst a. exists (repair_entry original kept e).
    destruct (repair_entry_path original kept e xs k Hnd He Hp Hn Hall Hk) as [H1 H2].
    split_and!; [apply elem_of_repair; eauto|apply repair_entry_Name|done|done]. }
  split; [|by apply Hdirect].
  assert (Hk0 : k ≠ "").
  { clear -Hp. revert a Hp. induction xs as [|x xs IH]; intros a Hp; cbn in Hp; [by destruct Hp|]. destruct Hp as [_ Hp]. by eapply IH. }
  remember (length xs) as n eqn:Hlen. revert a xs Hp Hn Ha Hlen.
  induction (lt_wf n) as [n _ IH]. intros a xs Hp Hn Ha ->.
  destruct (decide (Forall (λ x, x ∉ kept) xs)) as [Hall|Hex].
  - destruct (Hdirect a xs Hp Hn Ha Hall) as (e' & He' & _ & Hr & _). apply elem_of_superseded. exists e'. auto.
  - apply not_Forall_Exists in Hex; [|apply _]. apply Exists_exists in Hex as (x & Hx & Hxk).
    apply list_elem_of_split in Hx as (l1 & l2 & ->). apply replaces_path_app in Hp as [_ Hp].
    eapply (IH (length l2)); [rewrite length_app; cbn; lia|exact Hp| |by apply dec_stable|done].
    rewrite <- app_assoc in Hn. cbn in Hn. apply NoDup_cons in Hn as [_ Hn]. by apply NoDup_app in Hn as (_ & _ & ?).
Qed.

(** The default selection always gives a channel OLM accepts: for every
    channel that has an unsuperseded entry, keeping the head and the requested
    number of previous versions and repairing the graph leaves exactly one
    channel head. *)
Theorem heads_only_single_head ch previous bbn :
  NoDup (map ce_Name (cn_Entries ch)) → heads (cn_Entries ch) ≠ [] →
  ∃ h, heads (repairChannelGraph (cn_Entries ch) (list_to_set (channelHeadPlusN ch previous bbn))) = [h] ∧
       channel_head (cn_Entries ch) bbn = Some h.
Proof.
  intros Hnd Hne. destruct (channel_head_spec _ bbn Hne) as (h & Eh & [Hs Hin]%elem_of_heads).
  exists h. split; [|done].
  destruct (selection_spec ch previous bbn h Hnd Eh Hin) as [Hsel Hchain].
  set (sel := channelHeadPlusN ch previous bbn) in *. clearbody sel. apply heads_singleton.
  - rewrite repair_names. by eapply sublist_NoDup, filter_bool_sublist.
  - rewrite repair_names. apply elem_of_filter_bool. split; [apply bool_decide_eq_true_2; set_solver|done].
  - intros Hx%superseded_repair; [done|done|set_solver].
  - intros x. rewrite repair_names. intros [Hx Hxn]%elem_of_filter_bool Hxh. apply bool_decide_eq_true_1, elem_of_list_to_set in Hx.
    destruct (Hchain x Hx Hxh) as (a & Ha & Hx0 & e & He & Hea & Her).
    apply elem_of_superseded. exists (repair_entry (cn_Entries ch) (list_to_set sel) e). split.
    + apply elem_of_repair. exists e. split_and!; [done|set_solver|done].
    + left. split; [|done]. unfold repair_entry. rewrite Her, (bool_decide_eq_true_2 (x ∈ list_to_set sel)) by set_solver.
      by rewrite orb_true_r.
Qed.

(** Bundles picked by name give a channel with one head: after
    [mergeChannelHeads] exactly one entry is unsuperseded, the one with the
    highest version among the previous heads. *)
Theorem mergeChannelHeads_single_head entries bbn :
  NoDup (map ce_Name entries) → heads entries ≠ [] →
  ∃ h, heads (mergeChannelHeads entries bbn) = [h] ∧ h ∈ heads entries ∧ ∀ c, c ∈ heads entries → below bbn c h.
Proof.
  intros Hnd Hne. unfold mergeChannelHeads. destruct (heads entries) as [|h [|h2 hs]] eqn:E; [done|..].
  { exists h. split_and!; [done|set_solver|]. intros c ->%list_elem_of_singleton. apply below_refl. }
  destruct (highest_spec bbn h (h2 :: hs)) as [Htop Hmax]. set (top := highestVersionBundle _ _ _) in *. clearbody top.
  exists top. split_and!; [|done|done]. clear Hmax. set (hds := h :: h2 :: hs) in *. clearbody hds. rewrite <- E in Htop.
  apply elem_of_heads in Htop as [Hts Htn].
  set (f := λ e, if String.eqb (ce_Name e) top then _ else e).
  assert (Hf : ∀ e, ce_Name (f e) = ce_Name e ∧ ce_Replaces (f e) = ce_Replaces e ∧ ∀ x, x ∈ ce_Skips (f e) ↔
    x ∈ ce_Skips e ∨ (ce_Name e = top ∧ x ∈ hds ∧ x ≠ top)).
  { intros e. unfold f. destruct (String.eqb_spec (ce_Name e) top); cbn; split_and!; try done; intros x; [|naive_solver].
    rewrite elem_of_app, elem_of_filter_bool, negb_true_iff. destruct (String.eqb_spec x top); naive_solver. }
  clearbody f. assert (Hnames : map ce_Name (map f entries) = map ce_Name entries)
    by (rewrite map_map; apply map_ext; intros; by destruct (Hf a)).
  assert (Hsup : ∀ x, x ∈ superseded (map f entries) ↔ x ∈ superseded entries ∨ (x ∈ hds ∧ x ≠ top)).
  { intros x. rewrite !elem_of_superseded. change (map f entries) with (f <$> entries). split.
    - intros (e' & (e & -> & He)%list_elem_of_fmap & Hx). destruct (Hf e) as (_ & Hrep & Hsk). rewrite Hrep, Hsk in Hx. naive_solver.
    - apply list_elem_of_fmap in Htn as (et & Het & Hetn). intros [(e & He & Hx)|Hx].
      + exists (f e). split; [by apply list_elem_of_fmap_2|]. destruct (Hf e) as (_ & -> & Hsk). rewrite Hsk. naive_solver.
      + exists (f et). split; [by apply list_elem_of_fmap_2|]. right. apply Hf. naive_solver. }
  apply heads_singleton; rewrite ?Hnames; [done|done| |].
  - rewrite Hsup. naive_solver.
  - intros x Hx Hxt. rewrite Hsup. destruct (decide (x ∈ superseded entries)); [by left|right]. split; [|done].
    rewrite <- E. apply elem_of_heads. done.
Qed.
End properties.

(** ** Examples *)

Definition ex_bundle_of (pkg name ver : string) (deps : list Property) : Bundle :=
  mkBundle name pkg ("quay.io/" +:+ name) (olmPackage (Some ver) :: deps) [].
Definition ex_channel : Channel :=
  mkCatChannel "stable" "p" [mkEntry "p.v1" "" [] ""; mkEntry "p.v2" "p.v1" [] ""; mkEntry "p.v3" "p.v2" [] ""; mkEntry "p.v4" "p.v3" [] ""].
Definition ex_bundles : gmap string Bundle :=
  list_to_map (map (λ b, (bd_Name b, b))
    [ex_bundle_of "p" "p.v1" "1" []; ex_bundle_of "p" "p.v2" "2" []; ex_bundle_of "p" "p.v3" "3" []; ex_bundle_of "p" "p.v4" "4" []]).

Lemma repairChannelGraph_reconnects_witness :
  ∃ e', e' ∈ repairChannelGraph (cn_Entries ex_channel) {["p.v1"; "p.v4"]} ∧ ce_Name e' = "p.v4" ∧ ce_Replaces e' = "p.v1" ∧
        "p.v2" ∈ ce_Skips e'.
Proof.
  destruct (repairChannelGraph_reconnects (cn_Entries ex_channel) {["p.v1"; "p.v4"]} "p.v4" ["p.v3"; "p.v2"] "p.v1")
    as [_ H].
  - by_vm.
  - cbn. split_and!; (split; [discriminate|]);
      [exists (mkEntry "p.v4" "p.v3" [] "")|exists (mkEntry "p.v3" "p.v2" [] "")|exists (mkEntry "p.v2" "p.v1" [] "")];
      (split; [set_solver|split; reflexivity]).
  - by_vm.
  - by_vm.
  - by_vm.
  - destruct H as (e' & H1 & H2 & H3 & H4); [by_vm|]. exists e'. split_and!; [exact H1|exact H2|exact H3|]. apply H4. set_solver.
Defined.

Lemma heads_only_single_head_witness :
  heads (repairChannelGraph (cn_Entries ex_channel) (list_to_set (@channelHeadPlusN number_semver ex_channel 1 ex_bundles)))
  = ["p.v4"].
Proof.
  destruct (@heads_only_single_head number_semver number_semver_laws ex_channel 1 ex_bundles) as (h & H1 & H2).
  - by_vm.
  - vm_compute. discriminate.
  - rewrite H1. vm_compute in H2. injection H2 as <-. reflexivity.
Defined.

Lemma mergeChannelHeads_single_head_witness :
  let entries := [mkEntry "p.v1" "" [] ""; mkEntry "p.v3" "" [] ""; mkEntry "p.v2" "" [] ""] in
  heads (@mergeChannelHeads number_semver entries ex_bundles) = ["p.v3"].
Proof.
  intros entries.
  destruct (@mergeChannelHeads_single_head number_semver number_semver_laws entries ex_bundles) as (h & H1 & H2 & H3).
  - by_vm.
  - vm_compute. discriminate.
  - rewrite H1. f_equal. assert (Hb : below ex_bundles "p.v3" h) by (apply H3; by_vm).
    unfold entries in H2. apply list_elem_of_In in H2. vm_compute in H2. destruct H2 as [<-|[<-|[<-|[]]]]; [|reflexivity|];
      vm_compute in Hb; discriminate Hb.
Defined.
