(* ===== verification/CatalogFilter.v ===== *)
(** * Operator catalogs: filtering

    FilterFBC, ExtractImagesWithBundles and ResolveCatalogFull of
    pkg/mirror/catalog/resolver.go.  [order] is the order in which a range over
    a Go map used as a set visits its elements. *)
From S2P Require Import Prelude GoStrings ImageRef Api Semver CatalogGraph.

Section filter.
Context `{SV : Semver} (order : gset string → list string).

(** ** The indexes of a catalog *)

Definition catalogPkgs (cfg : DeclarativeConfig) : gset string := list_to_set (map pk_Name (dc_Packages cfg)).
Definition bundlesByPkg (cfg : DeclarativeConfig) (p : string) : list Bundle :=
  List.filter (λ b, String.eqb (bd_Package b) p) (dc_Bundles cfg).
Definition bundlesByName (cfg : DeclarativeConfig) : gmap string Bundle := index_by bd_Name (dc_Bundles cfg).
Definition channelsByPkg (cfg : DeclarativeConfig) (p : string) : list Channel :=
  List.filter (λ c, String.eqb (cn_Package c) p) (dc_Channels cfg).
Definition pkgHasChannelEntries (cfg : DeclarativeConfig) (p : string) : bool :=
  existsb (λ ch, negb (bool_decide (length (cn_Entries ch) = 0))) (channelsByPkg cfg p).

Definition provides (key : string) (prop : Property) : bool :=
  match prop with olmGVK (Some g) => String.eqb (gvkKey g) key | _ => false end.
Definition gvkProviders (cfg : DeclarativeConfig) (key : string) : gset string :=
  list_to_set (map bd_Package (List.filter (λ b, existsb (provides key) (bd_Properties b)) (dc_Bundles cfg))).

(** ** The include list *)

Definition companion_candidates (name : string) : list string :=
  [name +:+ "-dependencies"; name +:+ "-dependency"; name +:+ "-deps"] ++
  (if HasSuffix name "-operator" then [TrimSuffix name "-operator" +:+ "-dependencies"] else []).

Definition plain_include (name : string) : IncludePackage :=
  mkIncludePackage name [] "" 0 (mkIncludeBundle "" "") [].

(** The two loops that build [pkgSet] and [allIncludes]. *)
Definition add_include (acc : gset string * list IncludePackage) (inc : IncludePackage)
    : gset string * list IncludePackage :=
  let '(pkgSet, all) := acc in
  if bool_decide (ip_Name inc ∈ pkgSet) then acc else ({[ip_Name inc]} ∪ pkgSet, all ++ [inc]).

Definition add_companion (cfg : DeclarativeConfig) (acc : gset string * list IncludePackage) (inc : IncludePackage)
    : gset string * list IncludePackage :=
  let '(pkgSet, all) := acc in
  match List.find (λ c, bool_decide (c ∈ catalogPkgs cfg ∧ c ∉ pkgSet)) (companion_candidates (ip_Name inc)) with
  | Some c => ({[c]} ∪ pkgSet, all ++ [plain_include c])
  | None => acc
  end.

Definition expand_includes (cfg : DeclarativeConfig) (includes : list IncludePackage)
    : gset string * list IncludePackage :=
  foldl (add_companion cfg) (foldl add_include (∅, []) includes) includes.

(** Bundles selected by name must exist in their package. *)
Definition missing_bundle (cfg : DeclarativeConfig) (inc : IncludePackage) : option string :=
  List.find (λ n, match bundlesByName cfg !! n with
                  | Some b => negb (String.eqb (bd_Package b) (ip_Name inc))
                  | None => true end) (ip_Bundles inc).

(** [explicitFilters], [prevVersionsByPkg] and [selectedBundlesByPkg] of a
    package, from the only entry of [allIncludes] with its name. *)
Definition include_of (all : list IncludePackage) (p : string) : option IncludePackage :=
  List.find (λ inc, String.eqb (ip_Name inc) p) all.

Definition headsOnlyExplicit (cfg : DeclarativeConfig) (inc : IncludePackage) : bool :=
  let f := buildPkgIncludeFilter inc in
  pf_allowAllChannels f
  && match vf_min (pf_pkg f), vf_max (pf_pkg f) with None, None => true | _, _ => false end
  && bool_decide (pf_channelFilters f = ∅) && bool_decide (ip_Bundles inc = [])
  && pkgHasChannelEntries cfg (ip_Name inc).

(** ** The bundles and channel entries a package contributes *)

Definition entry_names (ch : Channel) : list string := map ce_Name (cn_Entries ch).

Definition mark (ch : Channel) (names : list string) : list (string * string) := map (λ n, (cn_Name ch, n)) names.

(** [currentAllowed] and the entries marked by [markChannelEntry], branch by
    branch. *)
Definition allowed_of (cfg : DeclarativeConfig) (all : list IncludePackage) (p : string)
    : list string * list (string * string) :=
  let chs := channelsByPkg cfg p in
  match include_of all p with
  | Some inc =>
    if negb (bool_decide (ip_Bundles inc = [])) then
      (sort_strings (remove_dups (ip_Bundles inc)),
       concat (map (λ ch, mark ch (List.filter (λ n, bool_decide (n ∈ ip_Bundles inc)) (entry_names ch))) chs))
    else if negb (pkgHasChannelEntries cfg p) then (map bd_Name (bundlesByPkg cfg p), [])
    else if headsOnlyExplicit cfg inc then
      let sel ch := channelHeadPlusN ch (ip_PreviousVersions inc) (bundlesByName cfg) in
      (concat (map sel chs), concat (map (λ ch, mark ch (sel ch)) chs))
    else
      let f := buildPkgIncludeFilter inc in
      let sel ch :=
        if negb (pf_allowAllChannels f) && negb (bool_decide (cn_Name ch ∈ pf_allowedChannels f)) then []
        else List.filter (λ n, match bundlesByName cfg !! n with
               | Some b => bundleMatchesVersionFilter b (effectiveVersionFilter f (cn_Name ch))
               | None => false end) (entry_names ch) in
      (concat (map sel chs), concat (map (λ ch, mark ch (sel ch)) chs))
  | None =>
    if negb (pkgHasChannelEntries cfg p) then (map bd_Name (bundlesByPkg cfg p), [])
    else (map bd_Name (bundlesByPkg cfg p),
          concat (map (λ ch, mark ch (List.filter (λ n, bool_decide (is_Some (bundlesByName cfg !! n))) (entry_names ch))) chs))
  end.

(** ** Dependencies *)

(** The packages a property asks for, in the order they are tried. *)
Definition required_by (cfg : DeclarativeConfig) (prop : Property) : list string :=
  match prop with
  | olmPackageRequired (Some n) => if String.eqb n "" then [] else [n]
  | olmGVKRequired (Some g) => order (gvkProviders cfg (gvkKey g))
  | _ => []
  end.

Definition required_of (cfg : DeclarativeConfig) (bName : string) : list string :=
  match bundlesByName cfg !! bName with
  | Some b => concat (map (required_by cfg) (bd_Properties b))
  | None => []
  end.

Record bfs := mkBfs {
  bfs_queue : list string;
  bfs_pkgSet : gset string;
  bfs_processed : gset string;
  bfs_bundles : gset string;                        (* allowedBundles *)
  bfs_entries : gset (string * string * string);    (* allowedEntries: package, channel, entry *)
}.

Definition enqueue (cfg : DeclarativeConfig) (acc : list string * gset string) (dep : string) : list string * gset string :=
  let '(queue, pkgSet) := acc in
  if bool_decide ((dep ∉ pkgSet) ∧ dep ∈ catalogPkgs cfg) then (queue ++ [dep], {[dep]} ∪ pkgSet) else acc.

Definition bfs_step (cfg : DeclarativeConfig) (all : list IncludePackage) (s : bfs) (current : string) (queue : list string)
    : bfs :=
  if bool_decide (current ∈ bfs_processed s) then mkBfs queue (bfs_pkgSet s) (bfs_processed s) (bfs_bundles s) (bfs_entries s)
  else
    let '(currentAllowed, marks) := allowed_of cfg all current in
    let '(queue, pkgSet) := foldl (enqueue cfg) (queue, bfs_pkgSet s) (concat (map (required_of cfg) currentAllowed)) in
    mkBfs queue pkgSet ({[current]} ∪ bfs_processed s) (list_to_set currentAllowed ∪ bfs_bundles s)
      (list_to_set (map (λ '(ch, n), (current, ch, n)) marks) ∪ bfs_entries s).

(** Every package is queued once, so the fuel [FilterFBC] gives is enough. *)
Fixpoint bfs_run (cfg : DeclarativeConfig) (all : list IncludePackage) (fuel : nat) (s : bfs) : bfs :=
  match fuel with
  | O => s
  | S fuel =>
    match bfs_queue s with
    | [] => s
    | current :: queue => bfs_run cfg all fuel (bfs_step cfg all s current queue)
    end
  end.

(** ** The filtered catalog *)

Definition selected_entries (s : bfs) (ch : Channel) : gset string :=
  list_to_set (List.filter (λ n, bool_decide ((cn_Package ch, cn_Name ch, n) ∈ bfs_entries s))
    (map snd (elements (bfs_entries s)))).

Definition filter_channel (cfg : DeclarativeConfig) (all : list IncludePackage) (s : bfs) (ch : Channel) : option Channel :=
  if negb (bool_decide (cn_Package ch ∈ bfs_pkgSet s)) then None
  else
    let sel := selected_entries s ch in
    if bool_decide (sel = ∅) then None
    else
      let trimmed := repairChannelGraph (cn_Entries ch) sel in
      match trimmed with
      | [] => None
      | _ =>
        let picked := match include_of all (cn_Package ch) with
                      | Some inc => negb (bool_decide (ip_Bundles inc = [])) | None => false end in
        Some (mkCatChannel (cn_Name ch) (cn_Package ch)
                (if picked then mergeChannelHeads trimmed (bundlesByName cfg) else trimmed))
      end.

Definition repoint_default (channels : list Channel) (p : Package) : Package :=
  let survived := remove_dups (map cn_Name (List.filter (λ c, String.eqb (cn_Package c) (pk_Name p)) channels)) in
  match sort_strings survived with
  | [] => p
  | n :: _ => if bool_decide (pk_DefaultChannel p ∈ survived) then p else mkPackage (pk_Name p) n
  end.

(** [inl (package, bundle)] is the error for a selected bundle the catalog
    does not have. *)
Definition FilterFBC (cfg : DeclarativeConfig) (includes : list IncludePackage)
    : (string * string) + DeclarativeConfig :=
  if decide (includes = []) then inr cfg
  else
    let '(pkgSet, all) := expand_includes cfg includes in
    match List.find (λ inc, bool_decide (is_Some (missing_bundle cfg inc))) all with
    | Some inc => inl (ip_Name inc, default "" (missing_bundle cfg inc))
    | None =>
      let queue := order pkgSet in
      let s := bfs_run cfg all (length queue + size (catalogPkgs cfg)) (mkBfs queue pkgSet ∅ ∅ ∅) in
      let channels := omap (filter_channel cfg all s) (dc_Channels cfg) in
      inr (mkConfig
        (map (repoint_default channels) (List.filter (λ p, bool_decide (pk_Name p ∈ bfs_pkgSet s)) (dc_Packages cfg)))
        channels
        (List.filter (λ b, bool_decide (bd_Name b ∈ bfs_bundles s)) (dc_Bundles cfg)))
    end.

(** ** Images *)

Record BundleImageInfo := mkImageInfo { info_Label : string; info_IsBundleImage : bool }.

Definition renderBundleRefs (names : list string) : string :=
  if bool_decide (length names ≤ 3) then Join names ", "
  else Join (take 3 names) ", " +:+ " (+" +:+ Itoa (Z.of_nat (length names) - 3) +:+ " more)".

(** Per image the set of bundles that reference it, and whether one of them
    does so as its own image. *)
Definition addRef (bundleName : string) (asBundleImage : bool) (m : gmap string (gset string * bool)) (img : string)
    : gmap string (gset string * bool) :=
  if String.eqb img "" then m
  else let '(names, isB) := default (∅, false) (m !! img) in
       <[img := ({[bundleName]} ∪ names, isB || asBundleImage)]> m.

Definition bundle_refs (m : gmap string (gset string * bool)) (b : Bundle) : gmap string (gset string * bool) :=
  foldl (addRef (bd_Name b) false) (addRef (bd_Name b) true m (bd_Image b)) (bd_RelatedImages b).

Definition ExtractImagesWithBundles (cfg : DeclarativeConfig) : gmap string BundleImageInfo :=
  (λ '(names, isB), mkImageInfo (renderBundleRefs (sort_strings (elements names))) isB)
    <$> foldl bundle_refs ∅ (dc_Bundles cfg).

(** [load] is loadFBCFromImage; [None] an error of it or of the filter. *)
Definition ResolveCatalogFull (load : string → option DeclarativeConfig) (catalogImage : string)
    (includes : list IncludePackage) : option (gmap string BundleImageInfo * DeclarativeConfig * DeclarativeConfig) :=
  match load catalogImage with
  | None => None
  | Some upstream =>
    match FilterFBC upstream includes with
    | inl _ => None
    | inr filtered => Some (ExtractImagesWithBundles filtered, filtered, upstream)
    end
  end.
End filter.

(** * Specification *)

Section spec.
Context `{SV : Semver}.

(** Bundle [n] requires package [dep], by name or by a kind it provides. *)
Definition requires (cfg : DeclarativeConfig) (n dep : string) : Prop :=
  ∃ b prop, bundlesByName cfg !! n = Some b ∧ prop ∈ bd_Properties b ∧
    match prop with
    | olmPackageRequired (Some x) => x ≠ "" ∧ dep = x
    | olmGVKRequired (Some g) => dep ∈ gvkProviders cfg (gvkKey g)
    | _ => False
    end.

(** The packages a request needs: those it names (with their companions) and
    the catalog packages that selected bundles of needed packages require. *)
Inductive needed (cfg : DeclarativeConfig) (includes : list IncludePackage) : string → Prop :=
| needed_include p : p ∈ fst (expand_includes cfg includes) → needed cfg includes p
| needed_dep p n dep : needed cfg includes p → n ∈ fst (allowed_of cfg (snd (expand_includes cfg includes)) p) →
    requires cfg n dep → dep ∈ catalogPkgs cfg → needed cfg includes dep.

(** A catalog whose channels list existing bundles of their own package. *)
Record catalog_wf (cfg : DeclarativeConfig) : Prop := {
  wf_bundles : NoDup (map bd_Name (dc_Bundles cfg));
  wf_entries : ∀ ch n, ch ∈ dc_Channels cfg → n ∈ entry_names ch →
    ∃ b, b ∈ dc_Bundles cfg ∧ bd_Name b = n ∧ bd_Package b = cn_Package ch;
  wf_channels : ∀ ch, ch ∈ dc_Channels cfg → cn_Package ch ∈ map pk_Name (dc_Packages cfg);
}.
End spec.

(** * Lemmas *)

Section lemmas.
Context `{SV : Semver} (order : gset string → list string) (order_ok : ∀ X, order X ≡ₚ elements X).
Implicit Types (cfg : DeclarativeConfig) (all : list IncludePackage).

Lemma elem_of_order X x : x ∈ order X ↔ x ∈ X.
Proof. by rewrite order_ok, elem_of_elements. Qed.

Lemma elem_of_required cfg n dep : dep ∈ required_of order cfg n ↔ requires cfg n dep.
Proof.
  unfold required_of, requires. destruct (bundlesByName cfg !! n) as [b|].
  2:{ split; [by intros ?%elem_of_nil|]. by intros (? & ? & ? & _). }
  rewrite elem_of_concat_map. split.
  - intros (prop & Hp & Hd). exists b, prop. split_and!; [done|done|].
    destruct prop as [| [x|] | |[g|]|]; cbn in Hd; try (by apply elem_of_nil in Hd).
    + destruct (String.eqb_spec x ""); [by apply elem_of_nil in Hd|]. by apply list_elem_of_singleton in Hd.
    + by apply elem_of_order.
  - intros (b' & prop & [= <-] & Hp & Hd). exists prop. split; [done|].
    destruct prop as [| [x|] | |[g|]|]; cbn in Hd |- *; try done.
    + destruct Hd as [Hx ->]. destruct (String.eqb_spec x ""); [done|]. by apply list_elem_of_singleton.
    + by apply elem_of_order.
Qed.

(** Queueing the dependencies of a package. *)
Lemma enqueue_spec cfg deps q ps :
  let '(q', ps') := foldl (enqueue cfg) (q, ps) deps in
  (∀ p, p ∈ ps' ↔ p ∈ ps ∨ (p ∈ deps ∧ p ∈ catalogPkgs cfg)) ∧
  (∀ p, p ∈ q' ↔ p ∈ q ∨ (p ∈ ps' ∧ p ∉ ps)) ∧
  length q' + size (catalogPkgs cfg ∖ ps') = length q + size (catalogPkgs cfg ∖ ps).
Proof.
  revert q ps. induction deps as [|d deps IH]; intros q ps; cbn [foldl].
  { split_and!; [set_solver..|done]. }
  unfold enqueue at 2. destruct (bool_decide_reflect ((d ∉ ps) ∧ d ∈ catalogPkgs cfg)) as [[Hd Hc]|Hn].
  - specialize (IH (q ++ [d]) ({[d]} ∪ ps)). destruct (foldl _ _ _) as [q' ps']. destruct IH as (H1 & H2 & H3).
    split_and!.
    + intros p. rewrite H1, elem_of_union, elem_of_singleton, elem_of_cons. naive_solver.
    + intros p. rewrite H2, elem_of_app, list_elem_of_singleton, not_elem_of_union, not_elem_of_singleton.
      assert (d ∈ ps') by (apply H1; left; set_solver). destruct (decide (p = d)) as [->|]; naive_solver.
    + rewrite H3, length_app. cbn.
      assert (catalogPkgs cfg ∖ ps = {[d]} ∪ catalogPkgs cfg ∖ ({[d]} ∪ ps)) as ->.
      { apply set_eq. intros p. destruct (decide (p = d)); set_solver. }
      rewrite (size_union ({[d]} : gset string)), size_singleton by set_solver. lia.
  - specialize (IH q ps). destruct (foldl _ _ _) as [q' ps']. destruct IH as (H1 & H2 & H3). split_and!; [|done|done].
    intros p. rewrite H1, elem_of_cons. destruct (decide (p = d)) as [->|]; [|tauto]. destruct (decide (d ∈ ps)); tauto.
Qed.

Record bfs_inv cfg includes (s : bfs) : Prop := {
  inv_queue : ∀ p, p ∈ bfs_pkgSet s ↔ p ∈ bfs_processed s ∨ p ∈ bfs_queue s;
  inv_bundles : ∀ n, n ∈ bfs_bundles s ↔
    ∃ p, p ∈ bfs_processed s ∧ n ∈ fst (allowed_of cfg (snd (expand_includes cfg includes)) p);
  inv_entries : ∀ p ch n, (p, ch, n) ∈ bfs_entries s ↔
    p ∈ bfs_processed s ∧ (ch, n) ∈ snd (allowed_of cfg (snd (expand_includes cfg includes)) p);
  inv_closed : ∀ p n dep, p ∈ bfs_processed s → n ∈ fst (allowed_of cfg (snd (expand_includes cfg includes)) p) →
    requires cfg n dep → dep ∈ catalogPkgs cfg → dep ∈ bfs_pkgSet s;
  inv_needed : ∀ p, p ∈ bfs_pkgSet s → needed cfg includes p;
  inv_start : ∀ p, p ∈ fst (expand_includes cfg includes) → p ∈ bfs_pkgSet s;
}.

Lemma bfs_step_inv cfg includes s current q :
  bfs_inv cfg includes s → bfs_queue s = current :: q →
  let s' := bfs_step order cfg (snd (expand_includes cfg includes)) s current q in
  bfs_inv cfg includes s' ∧
  S (length (bfs_queue s') + size (catalogPkgs cfg ∖ bfs_pkgSet s')) =
  length (bfs_queue s) + size (catalogPkgs cfg ∖ bfs_pkgSet s).
Proof.
  intros [I1 I2 I3 I4 I5 I6] Hq. unfold bfs_step. destruct (bool_decide_reflect (current ∈ bfs_processed s)) as [Hp|Hp].
  { cbn. split; [|rewrite Hq; cbn; lia]. split; cbn; try done. intros p. rewrite I1, Hq, elem_of_cons. naive_solver. }
  destruct (allowed_of cfg (snd (expand_includes cfg includes)) current) as [cur marks] eqn:Ea.
  pose proof (enqueue_spec cfg (concat (map (required_of order cfg) cur)) q (bfs_pkgSet s)) as He.
  destruct (foldl (enqueue cfg) _ _) as [q' ps'] eqn:Ef. destruct He as (H1 & H2 & H3).
  cbn [bfs_queue bfs_pkgSet bfs_processed bfs_bundles bfs_entries].
  assert (Hdeps : ∀ d, d ∈ concat (map (required_of order cfg) cur) ↔ ∃ n, n ∈ cur ∧ requires cfg n d).
  { intros d. rewrite elem_of_concat_map. by setoid_rewrite elem_of_required. }
  assert (Hcur : current ∈ bfs_pkgSet s) by (apply I1; right; rewrite Hq; set_solver).
  split; [|rewrite H3, Hq; cbn; lia]. split; cbn [bfs_queue bfs_pkgSet bfs_processed bfs_bundles bfs_entries].
  - intros p. rewrite H2, elem_of_union, elem_of_singleton. specialize (H1 p). specialize (I1 p). rewrite Hq, elem_of_cons in I1.
    destruct (decide (p ∈ bfs_pkgSet s)); naive_solver.
  - intros n. rewrite elem_of_union, elem_of_list_to_set, I2. setoid_rewrite elem_of_union. setoid_rewrite elem_of_singleton.
    split; [intros [Hn|(p & Hpp & Hn)]; [exists current; rewrite Ea; auto|eauto]|].
    intros (p & [->|Hpp] & Hn); [left; by rewrite Ea in Hn|right; eauto].
  - intros p ch n. rewrite elem_of_union, elem_of_list_to_set, I3, elem_of_union, elem_of_singleton.
    change (map ?f ?l) with (f <$> l). rewrite list_elem_of_fmap. split.
    + intros [([c x] & [= -> -> ->] & Hm)|[? ?]]; [split; [by left|by rewrite Ea]|auto].
    + intros [[->|Hpp] Hn]; [|by right]. left. rewrite Ea in Hn. by exists (ch, n).
  - intros p n dep [->%elem_of_singleton|Hpp]%elem_of_union Hn Hr Hc; apply H1.
    + right. split; [|done]. apply Hdeps. rewrite Ea in Hn. eauto.
    + left. by eapply I4.
  - intros p [Hps|[(n & Hn & Hr)%Hdeps Hc]]%H1; [auto|]. eapply needed_dep; [by apply I5|by rewrite Ea|done|done].
  - intros p Hps. apply H1. left. auto.
Qed.

Lemma bfs_run_inv cfg includes fuel s :
  bfs_inv cfg includes s → length (bfs_queue s) + size (catalogPkgs cfg ∖ bfs_pkgSet s) ≤ fuel →
  let s' := bfs_run order cfg (snd (expand_includes cfg includes)) fuel s in
  bfs_inv cfg includes s' ∧ bfs_queue s' = [].
Proof.
  revert s. induction fuel as [|fuel IH]; intros s Hi Hf; cbn.
  { split; [done|]. destruct (bfs_queue s); [done|cbn in Hf; lia]. }
  destruct (bfs_queue s) as [|current q] eqn:Eq; [done|].
  destruct (bfs_step_inv cfg includes s current q Hi Eq) as [Hi' Hm]. rewrite Eq in Hm. apply IH; [done|cbn in *; lia].
Qed.

(** The worklist ends with the needed packages, all of them processed. *)
Definition final cfg includes : bfs :=
  let '(pkgSet, all) := expand_includes cfg includes in
  bfs_run order cfg all (length (order pkgSet) + size (catalogPkgs cfg)) (mkBfs (order pkgSet) pkgSet ∅ ∅ ∅).

Lemma final_inv cfg includes : bfs_inv cfg includes (final cfg includes) ∧ bfs_queue (final cfg includes) = [].
Proof.
  unfold final. destruct (expand_includes cfg includes) as [ps all] eqn:E.
  change all with (snd (ps, all)). rewrite <- E. apply bfs_run_inv.
  - split; cbn.
    + intros p. rewrite elem_of_order. set_solver.
    + intros n. split; [set_solver|]. intros (p & ?%elem_of_empty & _). done.
    + intros p ch n. split; [set_solver|]. by intros [?%elem_of_empty _].
    + by intros p n dep ?%elem_of_empty.
    + intros p Hp. apply needed_include. by rewrite E.
    + by rewrite E.
  - cbn. pose proof (size_difference_le (catalogPkgs cfg) ps). lia.
Qed.

Lemma final_pkgs cfg includes p : p ∈ bfs_pkgSet (final cfg includes) ↔ needed cfg includes p.
Proof.
  destruct (final_inv cfg includes) as [[I1 _ _ I4 I5 I6] Hq]. split; [apply I5|].
  induction 1 as [p Hp|p n dep _ IH Hn Hr Hc]; [auto|]. eapply I4; [|done..]. apply I1 in IH as [?|Hin]; [done|].
  rewrite Hq in Hin. by apply elem_of_nil in Hin.
Qed.

Lemma final_processed cfg includes p : p ∈ bfs_processed (final cfg includes) ↔ needed cfg includes p.
Proof.
  rewrite <- final_pkgs. destruct (final_inv cfg includes) as [[I1 _ _ _ _ _] Hq]. rewrite I1, Hq. set_solver.
Qed.

Lemma FilterFBC_inr cfg includes out :
  includes ≠ [] → FilterFBC order cfg includes = inr out →
  let s := final cfg includes in
  let all := snd (expand_includes cfg includes) in
  let channels := omap (filter_channel cfg all s) (dc_Channels cfg) in
  out = mkConfig (map (repoint_default channels) (List.filter (λ p, bool_decide (pk_Name p ∈ bfs_pkgSet s)) (dc_Packages cfg)))
    channels (List.filter (λ b, bool_decide (bd_Name b ∈ bfs_bundles s)) (dc_Bundles cfg)) ∧
  ∀ inc, inc ∈ all → missing_bundle cfg inc = None.
Proof.
  intros Hne. unfold FilterFBC, final. rewrite decide_False by done.
  destruct (expand_includes cfg includes) as [ps all]. destruct (List.find _ all) eqn:Ef; [done|].
  intros [= <-]. split; [done|]. intros inc Hin. pose proof (find_none _ _ Ef inc) as Hf. rewrite <- list_elem_of_In in Hf.
  specialize (Hf Hin). apply bool_decide_eq_false_1 in Hf. by apply eq_None_not_Some.
Qed.
End lemmas.

Section results.
Context `{SV : Semver} (order : gset string → list string) (order_ok : ∀ X, order X ≡ₚ elements X).
Implicit Types (cfg out : DeclarativeConfig) (all : list IncludePackage).

Lemma elem_of_mark ch names c n : (c, n) ∈ mark ch names ↔ c = cn_Name ch ∧ n ∈ names.
Proof. unfold mark. rewrite elem_of_map. naive_solver. Qed.

Lemma elem_of_marks (sel : Channel → list string) chs c n :
  (c, n) ∈ concat (map (λ ch, mark ch (sel ch)) chs) → ∃ ch, ch ∈ chs ∧ c = cn_Name ch ∧ n ∈ sel ch.
Proof. rewrite elem_of_concat_map. intros (ch & Hch & [-> Hn]%elem_of_mark). eauto. Qed.

(** Every entry that is marked belongs to a selected bundle. *)
Lemma marked_allowed cfg all p c n :
  catalog_wf cfg → (c, n) ∈ snd (allowed_of cfg all p) → n ∈ fst (allowed_of cfg all p).
Proof.
  intros Hwf. unfold allowed_of. destruct (include_of all p) as [inc|].
  - destruct (negb (bool_decide (ip_Bundles inc = []))); cbn.
    { intros (ch & _ & _ & [Hn _]%elem_of_filter_bool)%elem_of_marks. apply bool_decide_eq_true_1 in Hn.
      unfold sort_strings. by rewrite merge_sort_Permutation, elem_of_remove_dups. }
    destruct (negb (pkgHasChannelEntries cfg p)); cbn; [by intros ?%elem_of_nil|].
    destruct (headsOnlyExplicit cfg inc); cbn;
      intros (ch & Hch & _ & Hn)%elem_of_marks; apply elem_of_concat_map; eauto.
  - destruct (negb (pkgHasChannelEntries cfg p)); cbn; [by intros ?%elem_of_nil|].
    intros (ch & Hch & _ & [_ Hn]%elem_of_filter_bool)%elem_of_marks.
    unfold channelsByPkg in Hch. apply elem_of_filter_bool in Hch as [Hp Hch]. apply String.eqb_eq in Hp.
    destruct (wf_entries cfg Hwf ch n Hch Hn) as (b & Hb & <- & Hbp).
    apply list_elem_of_fmap_2. unfold bundlesByPkg. apply elem_of_filter_bool. split; [|done]. apply String.eqb_eq. congruence.
Qed.

Lemma elem_of_selected s ch n : n ∈ selected_entries s ch ↔ (cn_Package ch, cn_Name ch, n) ∈ bfs_entries s.
Proof.
  unfold selected_entries. rewrite elem_of_list_to_set, elem_of_filter_bool, bool_decide_eq_true.
  split; [by intros []|]. intros H. split; [done|]. apply elem_of_map.
  exists (cn_Package ch, cn_Name ch, n). split; [by apply elem_of_elements|done].
Qed.

Lemma mergeChannelHeads_names entries bbn : map ce_Name (mergeChannelHeads entries bbn) = map ce_Name entries.
Proof.
  unfold mergeChannelHeads. destruct (heads entries) as [|h [|h2 hs]]; [done|done|].
  rewrite map_map. apply map_ext. intros e. by destruct (String.eqb _ _).
Qed.

(** What a surviving channel is. *)
Lemma filter_channel_Some cfg all s ch ch' :
  filter_channel cfg all s ch = Some ch' →
  cn_Name ch' = cn_Name ch ∧ cn_Package ch' = cn_Package ch ∧ cn_Package ch ∈ bfs_pkgSet s ∧ cn_Entries ch' ≠ [] ∧
  ∀ n, n ∈ entry_names ch' ↔ n ∈ entry_names ch ∧ (cn_Package ch, cn_Name ch, n) ∈ bfs_entries s.
Proof.
  unfold filter_channel. destruct (bool_decide_reflect (cn_Package ch ∈ bfs_pkgSet s)) as [Hp|]; [cbn [negb]|done].
  destruct (bool_decide _); [done|].
  destruct (repairChannelGraph (cn_Entries ch) (selected_entries s ch)) as [|e es] eqn:Er; [done|].
  set (picked := match include_of _ _ with Some _ => _ | None => _ end). intros [= <-]. cbn.
  assert (Hn : map ce_Name (if picked then mergeChannelHeads (e :: es) (bundlesByName cfg) else e :: es)
    = map ce_Name (repairChannelGraph (cn_Entries ch) (selected_entries s ch))).
  { rewrite Er. destruct picked; [apply mergeChannelHeads_names|done]. }
  split_and!; [done|done|done| |].
  - intros H0. rewrite H0, Er in Hn. done.
  - intros n. unfold entry_names. cbn. rewrite Hn, repair_names, elem_of_filter_bool, bool_decide_eq_true, elem_of_selected.
    tauto.
Qed.

Lemma repoint_Name channels p : pk_Name (repoint_default channels p) = pk_Name p.
Proof. unfold repoint_default. destruct (sort_strings _); [done|]. by destruct (bool_decide _). Qed.

Lemma repoint_survives channels p ch :
  ch ∈ channels → cn_Package ch = pk_Name p →
  ∃ ch', ch' ∈ channels ∧ cn_Package ch' = pk_Name p ∧ cn_Name ch' = pk_DefaultChannel (repoint_default channels p).
Proof.
  intros Hch Hp. unfold repoint_default.
  set (survived := remove_dups _).
  assert (Hs : ∀ n, n ∈ survived ↔ ∃ c, c ∈ channels ∧ cn_Package c = pk_Name p ∧ cn_Name c = n).
  { intros n. unfold survived. rewrite elem_of_remove_dups, elem_of_map. setoid_rewrite elem_of_filter_bool.
    setoid_rewrite String.eqb_eq. naive_solver. }
  destruct (sort_strings survived) as [|n ns] eqn:E.
  { exfalso. assert (cn_Name ch ∈ sort_strings survived) as Hin by (rewrite sort_strings_perm; apply Hs; eauto).
    rewrite E in Hin. by apply elem_of_nil in Hin. }
  assert (Hn : n ∈ survived) by (rewrite <- sort_strings_perm, E; set_solver).
  destruct (bool_decide_reflect (pk_DefaultChannel p ∈ survived)) as [Hd|]; cbn.
  - apply Hs in Hd as (c & ? & ? & ?). eauto.
  - apply Hs in Hn as (c & ? & ? & ?). eauto.
Qed.

Lemma out_packages cfg includes out p :
  includes ≠ [] → FilterFBC order cfg includes = inr out →
  p ∈ map pk_Name (dc_Packages out) ↔ p ∈ map pk_Name (dc_Packages cfg) ∧ needed cfg includes p.
Proof.
  intros Hne Hf. apply FilterFBC_inr in Hf as [-> _]; [|done]. cbn [dc_Packages]. rewrite map_map.
  setoid_rewrite repoint_Name. rewrite !elem_of_map. setoid_rewrite elem_of_filter_bool. setoid_rewrite bool_decide_eq_true.
  rewrite <- (final_pkgs order order_ok). naive_solver.
Qed.

Lemma out_bundles cfg includes out b :
  includes ≠ [] → FilterFBC order cfg includes = inr out →
  b ∈ dc_Bundles out ↔ b ∈ dc_Bundles cfg ∧
    ∃ p, needed cfg includes p ∧ bd_Name b ∈ fst (allowed_of cfg (snd (expand_includes cfg includes)) p).
Proof.
  intros Hne Hf. apply FilterFBC_inr in Hf as [-> _]; [|done]. cbn [dc_Bundles].
  rewrite elem_of_filter_bool, bool_decide_eq_true.
  destruct (final_inv order order_ok cfg includes) as [[_ I2 _ _ _ _] _]. rewrite I2.
  setoid_rewrite (final_processed order order_ok). naive_solver.
Qed.

Lemma out_channels cfg includes out ch' :
  includes ≠ [] → FilterFBC order cfg includes = inr out → ch' ∈ dc_Channels out →
  ∃ ch, ch ∈ dc_Channels cfg ∧ cn_Name ch' = cn_Name ch ∧ cn_Package ch' = cn_Package ch ∧ cn_Entries ch' ≠ [] ∧
    needed cfg includes (cn_Package ch) ∧
    ∀ n, n ∈ entry_names ch' ↔ n ∈ entry_names ch ∧
      (cn_Name ch, n) ∈ snd (allowed_of cfg (snd (expand_includes cfg includes)) (cn_Package ch)).
Proof.
  intros Hne Hf Hin. apply FilterFBC_inr in Hf as [-> _]; [|done]. cbn [dc_Channels] in Hin.
  apply list_elem_of_omap in Hin as (ch & Hch & Hs). apply filter_channel_Some in Hs as (H1 & H2 & H3 & H4 & H5).
  exists ch. apply (final_pkgs order order_ok) in H3 as H3'. split_and!; try done.
  intros n. rewrite H5. destruct (final_inv order order_ok cfg includes) as [[_ _ I3 _ _ _] _].
  rewrite I3, (final_processed order order_ok). naive_solver.
Qed.
End results.

(** * Properties *)

Section properties.
Context `{SV : Semver} (order : gset string → list string) (order_ok : ∀ X, order X ≡ₚ elements X).

(** C7: the filter computes exactly the packages the request needs, whatever
    order the maps are visited in: the packages of the result are the catalog
    packages that are requested, companions of requested ones, or required
    (by name or by a provided kind) by a selected bundle of a needed package;
    the bundles of the result are exactly those selected for needed packages. *)
Theorem FilterFBC_exact cfg includes out :
  includes ≠ [] → FilterFBC order cfg includes = inr out →
  (∀ p, p ∈ map pk_Name (dc_Packages out) ↔ p ∈ map pk_Name (dc_Packages cfg) ∧ needed cfg includes p) ∧
  (∀ b, b ∈ dc_Bundles out ↔ b ∈ dc_Bundles cfg ∧
     ∃ p, needed cfg includes p ∧ bd_Name b ∈ fst (allowed_of cfg (snd (expand_includes cfg includes)) p)).
Proof.
  intros Hne Hf. split; [intros p; by apply (out_packages order order_ok)|intros b; by apply (out_bundles order order_ok)].
Qed.

(** C8: a filtered catalog is dependency-closed: every package that a bundle
    of the result requires, by name or by a kind it provides, is in the result
    if the catalog has it. *)
Theorem FilterFBC_dependency_closed cfg includes out b dep :
  NoDup (map bd_Name (dc_Bundles cfg)) → includes ≠ [] → FilterFBC order cfg includes = inr out →
  b ∈ dc_Bundles out → requires cfg (bd_Name b) dep → dep ∈ map pk_Name (dc_Packages cfg) →
  dep ∈ map pk_Name (dc_Packages out).
Proof.
  intros Hnd Hne Hf Hb Hr Hd. apply (out_packages order order_ok cfg includes); [done..|]. split; [done|].
  apply (out_bundles order order_ok cfg includes) in Hb as [_ (p & Hp & Hn)]; [|done..].
  eapply needed_dep; [done..|]. unfold catalogPkgs. by apply elem_of_list_to_set.
Qed.

(** Filtering keeps a catalog well-formed: the channels of the result are
    non-empty and belong to packages of the result, each of their entries has
    its bundle in the result, and a package that kept any channel has a
    default channel among those it kept. *)
Theorem FilterFBC_wellformed cfg includes out :
  catalog_wf cfg → includes ≠ [] → FilterFBC order cfg includes = inr out →
  catalog_wf out ∧
  (∀ ch, ch ∈ dc_Channels out → cn_Entries ch ≠ []) ∧
  (∀ p ch, p ∈ dc_Packages out → ch ∈ dc_Channels out → cn_Package ch = pk_Name p →
     ∃ ch', ch' ∈ dc_Channels out ∧ cn_Package ch' = pk_Name p ∧ cn_Name ch' = pk_DefaultChannel p).
Proof.
  intros Hwf Hne Hf. split_and!.
  - split.
    + assert (dc_Bundles out `sublist_of` dc_Bundles cfg) as Hsub.
      { apply FilterFBC_inr in Hf as [-> _]; [|done]. apply filter_bool_sublist. }
      eapply sublist_NoDup; [apply (wf_bundles cfg Hwf)|]. by apply (fmap_sublist bd_Name).
    + intros ch' n Hch' Hn. destruct (out_channels order order_ok _ _ _ _ Hne Hf Hch') as (ch & Hch & _ & -> & _ & Hnd & He).
      destruct (proj1 (He n) Hn) as [Hn1 Hm]. destruct (wf_entries cfg Hwf ch n Hch Hn1) as (b & Hb & Hbn & Hbp).
      exists b. split_and!; [|done|done]. apply (out_bundles order order_ok cfg includes); [done..|].
      split; [done|]. exists (cn_Package ch). split; [done|]. rewrite Hbn. by eapply marked_allowed.
    + intros ch' Hch'. destruct (out_channels order order_ok _ _ _ _ Hne Hf Hch') as (ch & Hch & _ & -> & _ & Hnd & _).
      apply (out_packages order order_ok cfg includes); [done..|]. split; [by apply (wf_channels cfg Hwf)|done].
  - intros ch' Hch'. by destruct (out_channels order order_ok _ _ _ _ Hne Hf Hch') as (_ & _ & _ & _ & ? & _).
  - apply FilterFBC_inr in Hf as [-> _]; [|done]. cbn. intros p ch (p0 & Hp0 & ->)%elem_of_map Hch Hp.
    rewrite repoint_Name in *. by eapply repoint_survives.
Qed.
End properties.

(** ** One head per channel *)

Section heads_only.
Context `{SV : Semver, !SemverLaws} (order : gset string → list string) (order_ok : ∀ X, order X ≡ₚ elements X).

Definition channel_key (ch : Channel) : string * string := (cn_Package ch, cn_Name ch).

Lemma include_of_Some all p inc : include_of all p = Some inc → inc ∈ all ∧ ip_Name inc = p.
Proof. intros [Hin Hp]%find_some. split; [by apply list_elem_of_In|by apply String.eqb_eq]. Qed.

Lemma headsOnly_no_bundles cfg inc :
  headsOnlyExplicit cfg inc = true → ip_Bundles inc = [] ∧ pkgHasChannelEntries cfg (ip_Name inc) = true.
Proof.
  unfold headsOnlyExplicit. rewrite !andb_true_iff. intros [[_ Hb] Hp]. split; [by apply bool_decide_eq_true_1 in Hb|done].
Qed.

(** The entries a heads-only package keeps in a channel. *)
Lemma heads_only_selected cfg includes ch inc :
  NoDup (map channel_key (dc_Channels cfg)) → ch ∈ dc_Channels cfg → needed cfg includes (cn_Package ch) →
  include_of (snd (expand_includes cfg includes)) (cn_Package ch) = Some inc → headsOnlyExplicit cfg inc = true →
  selected_entries (final order cfg includes) ch
  = list_to_set (channelHeadPlusN ch (ip_PreviousVersions inc) (bundlesByName cfg)).
Proof.
  intros Hnd Hch Hneed Hinc Hho. apply set_eq. intros n. rewrite elem_of_selected, elem_of_list_to_set.
  destruct (final_inv order order_ok cfg includes) as [[_ _ I3 _ _ _] _]. rewrite I3, (final_processed order order_ok).
  unfold allowed_of. rewrite Hinc. destruct (headsOnly_no_bundles _ _ Hho) as [Hb Hp].
  apply include_of_Some in Hinc as [_ Hname]. rewrite Hname in Hp.
  rewrite Hb, Hp, Hho, bool_decide_eq_true_2 by done. cbn. split.
  - intros [_ (c & [Hc1 Hc]%elem_of_filter_bool & Hcn & Hn)%elem_of_marks]. apply String.eqb_eq in Hc1.
    assert (c = ch) as ->; [|done].
    apply list_elem_of_lookup in Hc as [i Hi]. apply list_elem_of_lookup in Hch as [j Hj].
    assert (i = j) as ->; [|congruence].
    eapply NoDup_lookup; [exact Hnd|..]; change (map channel_key (dc_Channels cfg)) with (channel_key <$> dc_Channels cfg);
      rewrite list_lookup_fmap.
    + rewrite Hi. cbn. unfold channel_key. by rewrite Hc1, <- Hcn.
    + rewrite Hj. done.
  - intros Hn. split; [done|]. apply elem_of_concat_map. exists ch. split; [|by apply elem_of_mark].
    apply elem_of_filter_bool. split; [by apply String.eqb_eq|done].
Qed.

(** The default selection gives channels that OLM accepts: in a catalog
    whose channels have distinct keys, distinct entry names and at least one
    unsuperseded entry, every channel that the filter keeps of a package
    requested without channels, versions or bundles has exactly one head, the
    (highest-versioned) head of the original channel. *)
Theorem FilterFBC_heads_only_single_head cfg includes out inc ch' :
  NoDup (map channel_key (dc_Channels cfg)) →
  (∀ ch, ch ∈ dc_Channels cfg → NoDup (map ce_Name (cn_Entries ch)) ∧ heads (cn_Entries ch) ≠ []) →
  includes ≠ [] → FilterFBC order cfg includes = inr out → ch' ∈ dc_Channels out →
  include_of (snd (expand_includes cfg includes)) (cn_Package ch') = Some inc → headsOnlyExplicit cfg inc = true →
  ∃ ch h, ch ∈ dc_Channels cfg ∧ channel_key ch = channel_key ch' ∧
    heads (cn_Entries ch') = [h] ∧ channel_head (cn_Entries ch) (bundlesByName cfg) = Some h.
Proof.
  intros Hnd Hch Hne Hf Hin Hinc Hho.
  apply FilterFBC_inr in Hf as [-> _]; [|done]. cbn [dc_Channels] in Hin.
  apply list_elem_of_omap in Hin as (ch & Hin & Hs).
  pose proof (filter_channel_Some _ _ _ _ _ Hs) as (H1 & H2 & H3 & _ & _).
  destruct (Hch ch Hin) as [Hnde Hhd]. rewrite H2 in Hinc.
  destruct (heads_only_single_head ch (ip_PreviousVersions inc) (bundlesByName cfg) Hnde Hhd) as (h & Hh & Hc).
  exists ch, h. split_and!; [done|unfold channel_key; by rewrite H1, H2| |done].
  apply (final_pkgs order order_ok) in H3.
  unfold filter_channel in Hs. rewrite (heads_only_selected cfg includes ch inc) in Hs by done.
  destruct (negb _); [done|]. destruct (bool_decide _); [done|].
  destruct (repairChannelGraph _ _) as [|e es] eqn:Er; [done|].
  rewrite Hinc in Hs. destruct (headsOnly_no_bundles _ _ Hho) as [Hb _]. rewrite Hb, bool_decide_eq_true_2 in Hs by done.
  cbn [negb] in Hs. injection Hs as <-. cbn [cn_Entries]. exact Hh.
Qed.
End heads_only.

(** ** Examples *)

(** Package [p] requires [q] by name; [r] is unrelated. *)
Definition ex_catalog : DeclarativeConfig :=
  mkConfig [mkPackage "p" "stable"; mkPackage "q" "beta"; mkPackage "r" "stable"]
    [ex_channel; mkCatChannel "stable" "q" [mkEntry "q.v1" "" [] ""]; mkCatChannel "stable" "r" [mkEntry "r.v1" "" [] ""]]
    [ex_bundle_of "p" "p.v1" "1" []; ex_bundle_of "p" "p.v2" "2" []; ex_bundle_of "p" "p.v3" "3" [];
     ex_bundle_of "p" "p.v4" "4" [olmPackageRequired (Some "q")]; ex_bundle_of "q" "q.v1" "1" []; ex_bundle_of "r" "r.v1" "1" []].
Definition ex_out : DeclarativeConfig :=
  mkConfig [mkPackage "p" "stable"; mkPackage "q" "stable"]
    [mkCatChannel "stable" "p" [mkEntry "p.v4" "" ["p.v3"; "p.v2"; "p.v1"] ""]; mkCatChannel "stable" "q" [mkEntry "q.v1" "" [] ""]]
    [ex_bundle_of "p" "p.v4" "4" [olmPackageRequired (Some "q")]; ex_bundle_of "q" "q.v1" "1" []].

Lemma ex_filter : @FilterFBC number_semver elements ex_catalog [plain_include "p"] = inr ex_out.
Proof. vm_compute. reflexivity. Qed.

Lemma elements_order (X : gset string) : elements X ≡ₚ elements X.
Proof. reflexivity. Qed.

Lemma FilterFBC_exact_witness : @needed number_semver ex_catalog [plain_include "p"] "q" ∧ ¬ @needed number_semver ex_catalog [plain_include "p"] "r".
Proof.
  destruct (@FilterFBC_exact number_semver elements elements_order ex_catalog [plain_include "p"] ex_out ltac:(discriminate) ex_filter)
    as [H _].
  split.
  - apply (H "q"). by_vm.
  - intros Hn. assert (Hr : "r" ∈ map pk_Name (dc_Packages ex_out)) by (apply H; split; [by_vm|exact Hn]).
    apply list_elem_of_In in Hr. vm_compute in Hr. destruct Hr as [Hr|[Hr|[]]]; discriminate Hr.
Defined.

Lemma FilterFBC_dependency_closed_witness : "q" ∈ map pk_Name (dc_Packages ex_out).
Proof.
  apply (@FilterFBC_dependency_closed number_semver elements elements_order ex_catalog [plain_include "p"] ex_out
    (ex_bundle_of "p" "p.v4" "4" [olmPackageRequired (Some "q")])).
  - by_vm.
  - discriminate.
  - apply ex_filter.
  - apply list_elem_of_In. left. reflexivity.
  - exists (ex_bundle_of "p" "p.v4" "4" [olmPackageRequired (Some "q")]), (olmPackageRequired (Some "q")).
    split_and!; [vm_compute; reflexivity|apply list_elem_of_In; right; left; reflexivity|discriminate|reflexivity].
  - by_vm.
Defined.

Lemma ex_catalog_wf : catalog_wf ex_catalog.
Proof.
  assert (H : forallb (λ ch, forallb (λ n, existsb (λ b, String.eqb (bd_Name b) n && String.eqb (bd_Package b) (cn_Package ch))
    (dc_Bundles ex_catalog)) (entry_names ch)) (dc_Channels ex_catalog) = true) by (vm_compute; reflexivity).
  split; [by_vm| |].
  - intros ch n Hch Hn. apply list_elem_of_In in Hch, Hn. rewrite forallb_forall in H. specialize (H ch Hch).
    rewrite forallb_forall in H. specialize (H n Hn). apply existsb_exists in H as (b & Hb & Hx).
    apply andb_true_iff in Hx as [H1 H2]. exists b. split_and!; [by apply list_elem_of_In|by apply String.eqb_eq..].
  - intros ch Hch. apply list_elem_of_In in Hch. cbn in Hch. destruct Hch as [<-|[<-|[<-|[]]]]; by_vm.
Defined.

Lemma FilterFBC_wellformed_witness : catalog_wf ex_out.
Proof.
  apply (@FilterFBC_wellformed number_semver elements elements_order ex_catalog [plain_include "p"] ex_out).
  - apply ex_catalog_wf.
  - discriminate.
  - apply ex_filter.
Defined.

Lemma FilterFBC_heads_only_single_head_witness :
  ∃ h, heads (cn_Entries (mkCatChannel "stable" "p" [mkEntry "p.v4" "" ["p.v3"; "p.v2"; "p.v1"] ""])) = [h].
Proof.
  destruct (@FilterFBC_heads_only_single_head number_semver number_semver_laws elements elements_order ex_catalog [plain_include "p"] ex_out
    (plain_include "p") (mkCatChannel "stable" "p" [mkEntry "p.v4" "" ["p.v3"; "p.v2"; "p.v1"] ""])) as (ch & h & _ & _ & H & _).
  - by_vm.
  - intros ch Hch. apply list_elem_of_In in Hch. cbn in Hch.
    destruct Hch as [<-|[<-|[<-|[]]]]; (split; [by_vm|vm_compute; discriminate]).
  - discriminate.
  - apply ex_filter.
  - apply list_elem_of_In. left. reflexivity.
  - vm_compute. reflexivity.
  - vm_compute. reflexivity.
  - exists h. exact H.
Defined.

(** A version range can leave a channel with several heads.  The filter
    repairs replaces chains only; an entry that was superseded by the skips of
    a dropped entry becomes a head.  Here v4 replaces v1 and skips v2 and v3:
    with a maximum version of 3 the channel, which had the single head v4,
    ends up with the heads v2 and v3, and only packages with bundles picked by
    name get their heads merged. *)
Theorem version_range_multiple_heads :
  let entries := [mkEntry "p.v1" "" [] ""; mkEntry "p.v2" "p.v1" [] ""; mkEntry "p.v3" "p.v1" [] "";
                  mkEntry "p.v4" "p.v1" ["p.v2"; "p.v3"] ""] in
  let cfg := mkConfig [mkPackage "p" "stable"] [mkCatChannel "stable" "p" entries]
    [ex_bundle_of "p" "p.v1" "1" []; ex_bundle_of "p" "p.v2" "2" []; ex_bundle_of "p" "p.v3" "3" []; ex_bundle_of "p" "p.v4" "4" []] in
  let inc := mkIncludePackage "p" [] "" 0 (mkIncludeBundle "" "3") [] in
  heads entries = ["p.v4"] ∧
  ∃ out, @FilterFBC number_semver elements cfg [inc] = inr out ∧
    map (λ ch, heads (cn_Entries ch)) (dc_Channels out) = [["p.v2"; "p.v3"]].
Proof. split; [vm_compute; reflexivity|]. eexists. split; vm_compute; reflexivity. Qed.

(** ** Images *)

(** The references of a bundle: bundle, whether as its own image, image. *)
Definition refs_of (b : Bundle) : list (string * bool * string) :=
  (bd_Name b, true, bd_Image b) :: map (λ img, (bd_Name b, false, img)) (bd_RelatedImages b).

Lemma bundle_refs_foldl m bs :
  foldl bundle_refs m bs = foldl (λ m '(n, own, img), addRef n own m img) m (concat (map refs_of bs)).
Proof.
  revert m. induction bs as [|b bs IH]; intros m; cbn; [done|]. rewrite IH, foldl_app. f_equal. unfold bundle_refs.
  generalize (addRef (bd_Name b) true m (bd_Image b)). induction (bd_RelatedImages b) as [|r rs IHr]; intros m'; cbn; [done|].
  apply IHr.
Qed.

Lemma refs_spec (ts : list (string * bool * string)) img :
  match foldl (λ m '(n, own, img), addRef n own m img) ∅ ts !! img with
  | Some (names, own) =>
    img ≠ "" ∧ (∃ n o, (n, o, img) ∈ ts) ∧ (∀ n, n ∈ names ↔ ∃ o, (n, o, img) ∈ ts) ∧ (own = true ↔ ∃ n, (n, true, img) ∈ ts)
  | None => img = "" ∨ ∀ n o, (n, o, img) ∉ ts
  end.
Proof.
  induction ts as [|[[n o] i] ts IH] using rev_ind.
  { cbn. rewrite lookup_empty. right. by intros n o ?%elem_of_nil. }
  rewrite foldl_app. cbn. set (m := foldl _ ∅ ts) in *. clearbody m. unfold addRef.
  destruct (String.eqb_spec i "") as [->|Hi].
  { destruct (m !! img) as [[names own]|] eqn:E.
    - destruct IH as (H0 & H1 & H2 & H3). setoid_rewrite elem_of_app. setoid_rewrite list_elem_of_singleton.
      split_and!; [done|naive_solver| |].
      + intros x. rewrite H2. naive_solver.
      + rewrite H3. naive_solver.
    - destruct IH as [->|IH]; [by left|]. destruct (decide (img = "")); [by left|right].
      intros x y. rewrite elem_of_app, list_elem_of_singleton. naive_solver. }
  destruct (default (∅, false) (m !! i)) as [names0 own0] eqn:Ed.
  destruct (decide (i = img)) as [<-|Hne].
  - rewrite lookup_insert_eq. setoid_rewrite elem_of_app. setoid_rewrite list_elem_of_singleton.
    assert (H : (∀ x, x ∈ names0 ↔ ∃ o, (x, o, i) ∈ ts) ∧ (own0 = true ↔ ∃ n, (n, true, i) ∈ ts)).
    { destruct (m !! i) as [[names own]|] eqn:E; cbn in Ed.
      - injection Ed as <- <-. tauto.
      - injection Ed as <- <-. destruct IH as [->|IH]; [done|]. split.
        + intros x. split; [by intros ?%elem_of_empty|]. intros (o' & Ho). by destruct (IH x o').
        + split; [done|]. intros (n' & Hn). by destruct (IH n' true). }
    destruct H as [H1 H2]. split_and!; [done|naive_solver| |].
    + intros x. rewrite elem_of_union, elem_of_singleton, H1. naive_solver.
    + rewrite orb_true_iff, H2. naive_solver.
  - rewrite lookup_insert_ne by done. destruct (m !! img) as [[names own]|] eqn:E.
    + setoid_rewrite elem_of_app. setoid_rewrite list_elem_of_singleton. destruct IH as (H0 & H1 & H2 & H3). split_and!; [done|naive_solver| |].
      * intros x. rewrite H2. naive_solver.
      * rewrite H3. naive_solver.
    + destruct IH as [->|IH]; [by left|right]. intros x y. rewrite elem_of_app, list_elem_of_singleton. naive_solver.
Qed.

Lemma elem_of_refs bs n o img :
  (n, o, img) ∈ concat (map refs_of bs) ↔
  ∃ b, b ∈ bs ∧ n = bd_Name b ∧ ((o = true ∧ img = bd_Image b) ∨ (o = false ∧ img ∈ bd_RelatedImages b)).
Proof.
  rewrite elem_of_concat_map. unfold refs_of. setoid_rewrite elem_of_cons. setoid_rewrite elem_of_map. naive_solver.
Qed.

(** The images to mirror are exactly the non-empty images the bundles of
    the filtered catalog refer to, as their own image or as a related one, and
    an image counts as a bundle image exactly when it is some bundle's own. *)
Theorem ExtractImages_exact cfg img :
  (is_Some (ExtractImagesWithBundles cfg !! img) ↔
     img ≠ "" ∧ ∃ b, b ∈ dc_Bundles cfg ∧ (img = bd_Image b ∨ img ∈ bd_RelatedImages b)) ∧
  (∀ info, ExtractImagesWithBundles cfg !! img = Some info →
     info_IsBundleImage info = true ↔ ∃ b, b ∈ dc_Bundles cfg ∧ img = bd_Image b).
Proof.
  unfold ExtractImagesWithBundles. rewrite lookup_fmap, bundle_refs_foldl.
  pose proof (refs_spec (concat (map refs_of (dc_Bundles cfg))) img) as H.
  destruct (foldl _ ∅ _ !! img) as [[names own]|]; cbn.
  - destruct H as (H0 & (n & o & (b & Hb & _ & Hi)%elem_of_refs) & _ & H3). setoid_rewrite elem_of_refs in H3. split.
    + split; [|done]. intros _. split; [done|]. exists b. naive_solver.
    + intros info [= <-]. cbn. rewrite H3. naive_solver.
  - split; [|done]. split; [by intros []|]. intros [Hi (b & Hb & Hx)]. destruct H as [->|H]; [done|].
    destruct Hx as [Hx|Hx]; [destruct (H (bd_Name b) true)|destruct (H (bd_Name b) false)]; apply elem_of_refs; exists b; naive_solver.
Qed.
