(* ===== verification/ReleaseGraph.v ===== *)
(** * Release graphs

    pkg/mirror/release/release.go: the selection of release nodes from a
    Cincinnati graph.  What FetchGraph returns is the parameter [graph]. *)
From S2P Require Import Prelude Effects GoStrings ImageRef ImageState Owners ManagerState Api Resolve Semver.

(** [Edges] as decoded: every edge should be a pair of indexes. *)
Record Graph := mkGraph { gr_Nodes : list Node; gr_Edges : list (list Z) }.

Section resolver.
Context `{SV : Semver}.

(** ** The latest node *)

Definition later (best : option Node) (node : Node) : option Node :=
  match best with
  | None => Some node
  | Some b =>
    match ParseTolerant (n_Version node) with
    | None => best
    | Some sv => match ParseTolerant (n_Version b) with
                 | None => Some node
                 | Some bestSV => if GT sv bestSV then Some node else best
                 end
    end
  end.

Definition latestNode (g : Graph) : option Node := foldl later None (gr_Nodes g).

(** ** The shortest path *)

Definition versionIdx (g : Graph) : gmap string nat :=
  foldl (λ m iv, <[n_Version (snd iv) := fst iv]> m) ∅ (imap pair (gr_Nodes g)).

(** The successors of a node, from the well-formed edges. *)
Definition in_range (g : Graph) (i : Z) : bool := (0 <=? i)%Z && (i <? Z.of_nat (length (gr_Nodes g)))%Z.
Definition adj (g : Graph) (curr : nat) : list nat :=
  omap (λ edge, match edge with
    | [a; b] => if in_range g a && in_range g b && (a =? Z.of_nat curr)%Z then Some (Z.to_nat b) else None
    | _ => None end) (gr_Edges g).

(** [queue], [visited] and [prev]; a missing [prev] is -1. *)
Definition visit (curr : nat) (acc : list nat * gset nat * gmap nat nat) (next : nat)
    : list nat * gset nat * gmap nat nat :=
  let '(queue, visited, prev) := acc in
  if bool_decide (next ∈ visited) then acc else (queue ++ [next], {[next]} ∪ visited, <[next := curr]> prev).

(** The search loop; [Some prev] is [found].  Every node enters the queue at
    most once. *)
Fixpoint search (g : Graph) (toIdx : nat) (fuel : nat) (queue : list nat) (visited : gset nat) (prev : gmap nat nat)
    : option (gmap nat nat) :=
  match fuel with
  | O => None
  | S fuel =>
    match queue with
    | [] => None
    | curr :: queue =>
      if bool_decide (curr = toIdx) then Some prev
      else let '(queue, visited, prev) := foldl (visit curr) (queue, visited, prev) (adj g curr) in
           search g toIdx fuel queue visited prev
    end
  end.

(** The loop that follows [prev] back; [None] would be an index out of range. *)
Fixpoint walk_back (prev : gmap nat nat) (fromIdx : nat) (fuel : nat) (curr : nat) (path : list nat) : option (list nat) :=
  if bool_decide (curr = fromIdx) then Some (fromIdx :: path)
  else match fuel with
       | O => None
       | S fuel => p ← prev !! curr; walk_back prev fromIdx fuel p (curr :: path)
       end.

Inductive release_error := VersionNotFound (v : string) | NoUpgradePath | BadVersion (v : string) | NoNodes | Panic.

Definition shortestPathNodes (g : Graph) (fromVersion toVersion : string) : release_error + list Node :=
  match versionIdx g !! fromVersion, versionIdx g !! toVersion with
  | None, _ => inl (VersionNotFound fromVersion)
  | _, None => inl (VersionNotFound toVersion)
  | Some fromIdx, Some toIdx =>
    match search g toIdx (S (length (gr_Nodes g))) [fromIdx] {[fromIdx]} ∅ with
    | None => inl NoUpgradePath
    | Some prev =>
      match walk_back prev fromIdx (length (gr_Nodes g)) toIdx [] with
      | None => inl Panic
      | Some path => inr (omap (λ i, gr_Nodes g !! i) path)
      end
    end
  end.

(** ** The resolution modes *)

Definition in_versions (ok : version → bool) (nodes : list Node) : list Node :=
  List.filter (λ n, match ParseTolerant (n_Version n) with Some sv => ok sv | None => false end) nodes.

Definition ResolveReleaseNodes (graph : Graph) (minVersion maxVersion : string) (full shortestPath : bool)
    : release_error + list Node :=
  if full then inr (gr_Nodes graph)
  else if String.eqb minVersion "" && negb (String.eqb maxVersion "") then
    match List.find (λ n, String.eqb (n_Version n) maxVersion) (gr_Nodes graph) with
    | Some node => inr [node]
    | None => inl (VersionNotFound maxVersion)
    end
  else if negb (String.eqb minVersion "") && negb (String.eqb maxVersion "") then
    if shortestPath then shortestPathNodes graph minVersion maxVersion
    else match ParseTolerant minVersion, ParseTolerant maxVersion with
         | None, _ => inl (BadVersion minVersion)
         | _, None => inl (BadVersion maxVersion)
         | Some minSV, Some maxSV => inr (in_versions (λ sv, GTE sv minSV && LTE sv maxSV) (gr_Nodes graph))
         end
  else if negb (String.eqb minVersion "") then
    match ParseTolerant minVersion with
    | None => inl (BadVersion minVersion)
    | Some minSV => inr (in_versions (λ sv, GTE sv minSV) (gr_Nodes graph))
    end
  else match latestNode graph with
       | None => inl NoNodes
       | Some latest => inr [latest]
       end.

(** ResolveReleasePayloadNodes for one architecture: the graph is fetched for
    the channel, the architecture and the platform type. *)
Definition resolve_nodes (fetch : string → string → string → option Graph) (rel : ReleaseChannel) (arch : string)
    : option (list Node) :=
  match fetch (rc_Name rel) arch (rc_Type rel) with
  | None => None
  | Some graph =>
    match ResolveReleaseNodes graph (rc_MinVersion rel) (rc_MaxVersion rel) (rc_Full rel) (rc_ShortestPath rel) with
    | inl _ => None
    | inr nodes => Some nodes
    end
  end.
End resolver.

(** * Specification *)

(** Paths of the graph: [i], then [path], along edges. *)
Inductive gpath (g : Graph) : nat → list nat → nat → Prop :=
| gpath_nil i : gpath g i [i] i
| gpath_snoc i path j k : gpath g i path j → k ∈ adj g j → gpath g i (path ++ [k]) k.

(** * Lemmas *)

Lemma StronglySorted_same {A} (R : relation A) l : (∀ x y, x ∈ l → y ∈ l → R x y) → StronglySorted R l.
Proof.
  intros HR. induction l as [|x l IH]; constructor.
  - apply IH. intros y z ? ?. apply HR; by right.
  - apply Forall_forall. intros y ?. apply HR; [left|by right].
Qed.

Section bfs.
Context (g : Graph) (from to : nat).
Implicit Types (queue : list nat) (visited : gset nat) (prev : gmap nat nat).

Lemma adj_range i j : j ∈ adj g i → i < length (gr_Nodes g) ∧ j < length (gr_Nodes g).
Proof.
  unfold adj. intros (edge & _ & He)%list_elem_of_omap. destruct edge as [|a [|b [|]]]; try done.
  unfold in_range in He. destruct (_ && _ && _) eqn:E; [|done]. injection He as <-. boolify. lia.
Qed.

(** The invariant of the search: depths witness that the queue is visited
    level by level. *)
Record search_inv (depth : nat → nat) queue visited prev : Prop := {
  si_from : from ∈ visited ∧ depth from = 0;
  si_prev : ∀ v, v ∈ visited → v ≠ from → ∃ u, prev !! v = Some u ∧ u ∈ visited ∧ v ∈ adj g u ∧ depth v = S (depth u);
  si_queue : ∀ v, v ∈ queue → v ∈ visited;
  si_done : ∀ u v, u ∈ visited → u ∉ queue → v ∈ adj g u → v ∈ visited ∧ depth v ≤ S (depth u);
  si_levels : StronglySorted (λ u v, depth u ≤ depth v ∧ depth v ≤ S (depth u)) queue;
  si_old : ∀ u v, u ∈ visited → u ∉ queue → v ∈ queue → depth u ≤ depth v;
  si_nodup : NoDup queue;
  si_to : to ∈ visited → to ∈ queue;
  si_range : ∀ v, v ∈ visited → v < length (gr_Nodes g);
  si_depth : ∀ v, v ∈ visited → depth v < size visited;
}.

(** Nodes that a short path reaches are visited, at most at its length. *)
Lemma search_complete depth queue visited prev path v n :
  search_inv depth queue visited prev → gpath g from path v → length path = S n →
  (∀ u, u ∈ queue → n ≤ depth u) → v ∈ visited ∧ depth v ≤ n.
Proof.
  intros Hi Hp. remember from as i eqn:Ei. revert n.
  induction Hp as [i|i path j k Hp IH Hk]; intros n Hn Hq; subst i.
  - destruct (si_from _ _ _ _ Hi). split; [done|lia].
  - rewrite length_app in Hn. cbn in Hn.
    assert (∃ m, length path = S m) as [m Em]
      by (clear -Hp; destruct Hp; [by exists 0|rewrite length_app; cbn; exists (length path); lia]).
    destruct (IH eq_refl m Em) as [Hj Hd]; [intros u Hu; specialize (Hq u Hu); lia|].
    destruct (decide (j ∈ queue)) as [Hjq|Hjq].
    + specialize (Hq j Hjq). lia.
    + destruct (si_done _ _ _ _ Hi j k Hj Hjq Hk). split; [done|lia].
Qed.

(** The inner loop appends the unvisited successors. *)
Lemma visit_spec curr ns queue visited prev :
  ∃ new, NoDup new ∧ (∀ v, v ∈ new ↔ v ∈ ns ∧ v ∉ visited) ∧
  ∃ prev', foldl (visit curr) (queue, visited, prev) ns = (queue ++ new, list_to_set new ∪ visited, prev') ∧
    ∀ v, prev' !! v = if decide (v ∈ new) then Some curr else prev !! v.
Proof.
  revert queue visited prev. induction ns as [|x ns IH]; intros queue visited prev; cbn [foldl].
  { exists []. split_and!; [constructor|set_solver|]. exists prev. rewrite app_nil_r.
    split; [f_equal; f_equal; set_solver|]. intros v. by rewrite decide_False by apply not_elem_of_nil. }
  unfold visit at 2. destruct (bool_decide_reflect (x ∈ visited)) as [Hx|Hx].
  - destruct (IH queue visited prev) as (new & H1 & H2 & prev' & H3 & H4).
    exists new. split_and!; [done| |eauto]. intros v. rewrite H2, elem_of_cons. naive_solver.
  - destruct (IH (queue ++ [x]) ({[x]} ∪ visited) (<[x := curr]> prev)) as (new & H1 & H2 & prev' & H3 & H4).
    assert (Hxn : x ∉ new) by (rewrite H2; set_solver).
    exists (x :: new). split_and!; [by constructor| |].
    + intros v. rewrite !elem_of_cons, H2, not_elem_of_union, not_elem_of_singleton. destruct (decide (v = x)); naive_solver.
    + exists prev'. split; [rewrite H3; f_equal; f_equal; [by rewrite <- app_assoc|cbn; set_solver]|].
      intros v. rewrite H4. destruct (decide (v = x)) as [->|Hne].
      * rewrite decide_False, decide_True, lookup_insert_eq by set_solver. done.
      * rewrite lookup_insert_ne by done. destruct (decide (v ∈ new)); [by rewrite decide_True by set_solver|].
        by rewrite decide_False by set_solver.
Qed.

Lemma search_step depth curr queue visited prev :
  search_inv depth (curr :: queue) visited prev → curr ≠ to →
  ∃ depth' new prev', foldl (visit curr) (queue, visited, prev) (adj g curr)
      = (queue ++ new, list_to_set new ∪ visited, prev') ∧
    search_inv depth' (queue ++ new) (list_to_set new ∪ visited) prev' ∧
    NoDup new ∧ (∀ v, v ∈ new → v ∉ visited).
Proof.
  intros Hi Hto. destruct (visit_spec curr (adj g curr) queue visited prev) as (new & Hnd & Hnew & prev' & -> & Hprev).
  pose (depth' v := if decide (v ∈ visited) then depth v else S (depth curr)).
  assert (Hold : ∀ v, v ∈ visited → depth' v = depth v) by (intros v ?; unfold depth'; by rewrite decide_True).
  assert (Hnewd : ∀ v, v ∈ new → depth' v = S (depth curr)) by (intros v [_ ?]%Hnew; unfold depth'; by rewrite decide_False).
  clearbody depth'.
  destruct Hi as [[I1a I1b] I2 I3 I4 I5 I6 I7 I8 I9 I10]. apply NoDup_cons in I7 as [I7a I7].
  apply StronglySorted_cons in I5 as [I5a I5]. rewrite Forall_forall in I5a.
  assert (Hc : curr ∈ visited) by (apply I3; set_solver).
  assert (Hin : ∀ v, v ∈ list_to_set new ∪ visited ↔ v ∈ new ∨ v ∈ visited) by set_solver.
  assert (Hle : ∀ v, v ∈ visited → depth v ≤ S (depth curr)).
  { intros v Hv. destruct (decide (v = curr)) as [->|]; [lia|]. destruct (decide (v ∈ queue)); [by apply I5a|].
    assert (depth v ≤ depth curr) by (apply I6; set_solver). lia. }
  exists depth', new, prev'. split; [done|]. split; [|split; [done|naive_solver]]. split.
  - rewrite Hin, Hold by done. auto.
  - intros v [Hv|Hv]%Hin Hne.
    + exists curr. rewrite Hprev, decide_True, Hin, (Hold curr), (Hnewd v) by done. apply Hnew in Hv as [? _]. auto.
    + destruct (I2 v Hv Hne) as (u & Hu & Huv & Hadj & Hd). exists u.
      rewrite Hprev, decide_False, Hin, !Hold by (try done; rewrite Hnew; naive_solver). auto.
  - intros v [Hv|Hv]%elem_of_app; apply Hin; [right; apply I3; set_solver|by left].
  - intros u v [Hu|Hu]%Hin Hnq Hadj; [set_solver|].
    destruct (decide (u = curr)) as [->|Hne].
    + destruct (decide (v ∈ visited)) as [Hv|Hv]; rewrite Hin.
      * rewrite (Hold v), (Hold curr) by done. auto.
      * assert (v ∈ new) by (apply Hnew; done). rewrite (Hnewd v), (Hold curr) by done. auto.
    + destruct (I4 u v Hu) as [Hv Hd]; [set_solver|done|]. rewrite Hin, !Hold by done. auto.
  - apply StronglySorted_app_2.
    + intros u v Hu Hv. rewrite (Hold u), (Hnewd v) by (try done; apply I3; set_solver).
      specialize (I5a u Hu). assert (depth u ≤ S (depth curr)) by (apply Hle, I3; set_solver). lia.
    + eapply StronglySorted_impl_in; [|exact I5]. intros u v Hu Hv. cbn. rewrite !Hold by (apply I3; set_solver). done.
    + apply StronglySorted_same. intros u v Hu Hv. rewrite !Hnewd by done. lia.
  - intros u v [Hu|Hu]%Hin Hnq Hv; [set_solver|]. rewrite (Hold u) by done.
    assert (depth u ≤ depth curr).
    { destruct (decide (u = curr)) as [->|]; [done|]. apply I6; [done|set_solver|set_solver]. }
    apply elem_of_app in Hv as [Hv|Hv]; [|rewrite (Hnewd v) by done; lia].
    rewrite (Hold v) by (apply I3; set_solver). specialize (I5a v Hv). lia.
  - apply NoDup_app. split_and!; [done| |done]. intros v Hv [_ Hn]%Hnew. apply Hn, I3. set_solver.
  - intros [Ht|Ht]%Hin; apply elem_of_app; [by right|left]. apply I8 in Ht. set_solver.
  - intros v [[Hv _]%Hnew|Hv]%Hin; [by apply adj_range in Hv as [_ ?]|auto].
  - intros v [Hv|Hv]%Hin.
    + rewrite (Hnewd v) by done. specialize (I10 curr Hc).
      rewrite (size_union (list_to_set new : gset nat)) by set_solver.
      assert (0 < size (list_to_set new : gset nat)); [|lia].
      apply Nat.neq_0_lt_0. intros H0%size_empty_inv. set_solver.
    + rewrite (Hold v) by done. specialize (I10 v Hv).
      pose proof (subseteq_size visited (list_to_set new ∪ visited) ltac:(set_solver)). lia.
Qed.

Definition all_idx : gset nat := list_to_set (seq 0 (length (gr_Nodes g))).

Lemma elem_of_all_idx v : v ∈ all_idx ↔ v < length (gr_Nodes g).
Proof. unfold all_idx. rewrite elem_of_list_to_set, elem_of_seq. lia. Qed.

(** With enough fuel the loop ends on the target or on an empty queue. *)
Lemma search_spec fuel depth queue visited prev :
  search_inv depth queue visited prev → length queue + size (all_idx ∖ visited) ≤ fuel →
  match search g to fuel queue visited prev with
  | Some prev' => ∃ depth' queue' visited', search_inv depth' (to :: queue') visited' prev'
  | None => ∃ depth' visited' prev', search_inv depth' [] visited' prev'
  end.
Proof.
  revert depth queue visited prev. induction fuel as [|fuel IH]; intros depth queue visited prev Hi Hf; cbn.
  { destruct queue; [eauto|cbn in Hf; lia]. }
  destruct queue as [|curr queue]; [eauto|]. destruct (bool_decide_reflect (curr = to)) as [->|Hne]; [eauto|].
  destruct (search_step depth curr queue visited prev Hi Hne) as (depth' & new & prev' & -> & Hi' & Hnd & Hnew).
  apply (IH depth'); [done|]. cbn in Hf.
  assert (Hsub : list_to_set new ⊆ all_idx ∖ visited).
  { intros v Hv. rewrite elem_of_list_to_set in Hv. apply elem_of_difference. split; [|auto].
    apply elem_of_all_idx, (si_range _ _ _ _ Hi'). set_solver. }
  assert (Hs : size (all_idx ∖ visited) = length new + size (all_idx ∖ (list_to_set new ∪ visited))).
  { rewrite <- (size_list_to_set (C := gset nat) new) by done.
    rewrite <- (size_union (list_to_set new : gset nat)) by set_solver. f_equal. apply set_eq. intros v.
    destruct (decide (v ∈ new)); set_solver. }
  rewrite length_app. lia.
Qed.

Lemma size_visited depth queue visited prev : search_inv depth queue visited prev → size visited ≤ length (gr_Nodes g).
Proof.
  intros Hi. transitivity (size all_idx).
  - apply subseteq_size. intros v Hv. apply elem_of_all_idx. by apply (si_range _ _ _ _ Hi).
  - unfold all_idx. rewrite size_list_to_set by apply NoDup_seq. by rewrite length_seq.
Qed.

(** Following [prev] back gives a path as long as the depth. *)
Lemma walk_back_spec depth queue visited prev fuel v acc :
  search_inv depth queue visited prev → v ∈ visited → depth v ≤ fuel →
  ∃ p, walk_back prev from fuel v acc = Some (p ++ acc) ∧ gpath g from p v ∧ length p = S (depth v).
Proof.
  intros Hi. revert v acc. induction fuel as [|fuel IH]; intros v acc Hv Hd; cbn.
  - destruct (bool_decide_reflect (v = from)) as [->|Hne].
    + exists [from]. destruct (si_from _ _ _ _ Hi) as [_ ->]. split_and!; [done|constructor|done].
    + destruct (si_prev _ _ _ _ Hi v Hv Hne) as (u & _ & _ & _ & E). lia.
  - destruct (bool_decide_reflect (v = from)) as [->|Hne].
    + exists [from]. destruct (si_from _ _ _ _ Hi) as [_ ->]. split_and!; [done|constructor|done].
    + destruct (si_prev _ _ _ _ Hi v Hv Hne) as (u & Hu & Huv & Hadj & E). rewrite Hu. cbn.
      destruct (IH u (v :: acc) Huv) as (p & Hp & Hg & Hl); [lia|]. exists (p ++ [v]).
      split_and!; [by rewrite Hp, <- app_assoc|by econstructor|]. rewrite length_app, Hl, E. cbn. lia.
Qed.

Lemma search_init : from < length (gr_Nodes g) → search_inv (λ _, 0) [from] {[from]} ∅.
Proof.
  intros Hr. split.
  - split; [set_solver|done].
  - intros v ->%elem_of_singleton. done.
  - intros v ->%list_elem_of_singleton. set_solver.
  - intros u v ->%elem_of_singleton Hn. set_solver.
  - apply StronglySorted_same. lia.
  - intros u v ->%elem_of_singleton Hn. set_solver.
  - apply NoDup_singleton.
  - intros ->%elem_of_singleton. set_solver.
  - by intros v ->%elem_of_singleton.
  - intros v _. rewrite size_singleton. lia.
Qed.
End bfs.

Lemma versionIdx_range g v i : versionIdx g !! v = Some i → ∃ n, gr_Nodes g !! i = Some n ∧ n_Version n = v.
Proof.
  unfold versionIdx. set (l := imap pair (gr_Nodes g)).
  assert (Hl : ∀ p, p ∈ l → gr_Nodes g !! fst p = Some (snd p)).
  { intros [i' n] Hp. apply elem_of_lookup_imap in Hp as (j & n' & [= -> ->] & Hn). done. }
  clearbody l. enough (∀ m : gmap string nat,
    (∀ v i, m !! v = Some i → ∃ n, gr_Nodes g !! i = Some n ∧ n_Version n = v) →
    ∀ v i, foldl (λ m iv, <[n_Version (snd iv) := fst iv]> m) m l !! v = Some i → ∃ n, gr_Nodes g !! i = Some n ∧ n_Version n = v) as H
    by (apply H; intros ? ?; by rewrite lookup_empty).
  induction l as [|p l IH]; intros m Hm; cbn; [exact Hm|]. apply IH; [intros; apply Hl; by right|].
  intros v' i'. destruct (decide (n_Version (snd p) = v')) as [<-|Hne]; [rewrite lookup_insert_eq|rewrite lookup_insert_ne by done].
  - intros [= <-]. exists (snd p). split; [|done]. apply Hl. by left.
  - apply Hm.
Qed.

Lemma gpath_range g i p j : gpath g i p j → i < length (gr_Nodes g) → Forall (λ k, k < length (gr_Nodes g)) p.
Proof.
  induction 1 as [i|i p j k Hp IH Hk]; intros Hi; [by constructor|]. apply Forall_app. split; [auto|].
  constructor; [|done]. by apply adj_range in Hk as [_ ?].
Qed.

(** * Properties *)

(** C31: [shortestPathNodes] is correct and complete: when both versions are in
    the graph it returns the nodes of a path of upgrade edges between them of
    minimal length if there is any path, and "no upgrade path" only if there
    is none; it never indexes out of range, whatever edges the service sends. *)
Theorem shortestPathNodes_correct g fromV toV i j :
  versionIdx g !! fromV = Some i → versionIdx g !! toV = Some j →
  match shortestPathNodes g fromV toV with
  | inr nodes => ∃ p, gpath g i p j ∧ Forall2 (λ k n, gr_Nodes g !! k = Some n) p nodes ∧
      ∀ p', gpath g i p' j → length p ≤ length p'
  | inl e => e = NoUpgradePath ∧ ∀ p, ¬ gpath g i p j
  end.
Proof.
  intros Hi Hj. unfold shortestPathNodes. rewrite Hi, Hj.
  assert (Hr : i < length (gr_Nodes g)) by (apply versionIdx_range in Hi as (n & Hn & _); by apply lookup_lt_Some in Hn).
  pose proof (search_spec g i j (S (length (gr_Nodes g))) (λ _, 0) [i] {[i]} ∅ (search_init g i j Hr)) as Hs.
  assert (Hlen : ∀ p, gpath g i p j → ∃ n, length p = S n)
    by (intros p Hp; destruct Hp; [by exists 0|rewrite length_app; cbn; exists (length path); lia]).
  assert (Hfuel : length [i] + size (all_idx g ∖ {[i]}) ≤ S (length (gr_Nodes g))).
  { assert (size (all_idx g ∖ {[i]}) ≤ size (all_idx g)) by (apply subseteq_size; set_solver).
    unfold all_idx in *. rewrite (size_list_to_set (C := gset nat) (seq _ _)), length_seq in * by apply NoDup_seq. cbn. lia. }
  specialize (Hs Hfuel). destruct (search _ _ _ _ _ _) as [prev|].
  - destruct Hs as (depth & queue & visited & Hinv).
    assert (Hv : j ∈ visited) by (apply (si_queue _ _ _ _ _ _ _ Hinv); set_solver).
    pose proof (size_visited _ _ _ _ _ _ _ Hinv). pose proof (si_depth _ _ _ _ _ _ _ Hinv j Hv).
    destruct (walk_back_spec _ _ _ _ _ _ _ (length (gr_Nodes g)) j [] Hinv Hv) as (p & Hw & Hp & Hl); [lia|].
    rewrite Hw, app_nil_r. exists p. split_and!; [done| |].
    + apply gpath_range in Hp; [|done]. clear -Hp. induction Hp as [|k p Hk Hp IH]; cbn; [done|].
      destruct (lookup_lt_is_Some_2 _ _ Hk) as [n Hn]. rewrite Hn. by constructor.
    + intros p' Hp'. destruct (Hlen p' Hp') as [n En]. rewrite Hl, En. apply le_n_S.
      destruct (le_lt_dec (depth j) n) as [|Hlt]; [done|].
      destruct (search_complete _ _ _ _ _ _ _ p' j n Hinv Hp' En) as [_ ?]; [|done].
      pose proof (si_levels _ _ _ _ _ _ _ Hinv) as Hlv. apply StronglySorted_cons in Hlv as [Hlv _].
      rewrite Forall_forall in Hlv. intros u [->|Hu]%elem_of_cons; [lia|]. specialize (Hlv u Hu). lia.
  - split; [done|]. intros p Hp. destruct Hs as (depth & visited & prev & Hinv). destruct (Hlen p Hp) as [n En].
    destruct (search_complete _ _ _ _ _ _ _ p j n Hinv Hp En) as [Hv _]; [by intros u ?%elem_of_nil|].
    apply (si_to _ _ _ _ _ _ _ Hinv) in Hv. by apply elem_of_nil in Hv.
Qed.

Definition ex_graph : Graph :=
  mkGraph [mkNode "4.1" "i1"; mkNode "4.2" "i2"; mkNode "4.3" "i3"; mkNode "4.4" "i4"]
    [[0; 1]; [1; 2]; [2; 3]; [0; 2]; [7; 1]; [3]]%Z.

Lemma shortestPathNodes_correct_witness :
  ∃ p, gpath ex_graph 0 p 3 ∧ Forall2 (λ k n, gr_Nodes ex_graph !! k = Some n) p [mkNode "4.1" "i1"; mkNode "4.3" "i3"; mkNode "4.4" "i4"] ∧
    ∀ p', gpath ex_graph 0 p' 3 → length p ≤ length p'.
Proof.
  pose proof (shortestPathNodes_correct ex_graph "4.1" "4.4" 0 3 ltac:(vm_compute; reflexivity) ltac:(vm_compute; reflexivity)) as H.
  assert (E : shortestPathNodes ex_graph "4.1" "4.4" = inr [mkNode "4.1" "i1"; mkNode "4.3" "i3"; mkNode "4.4" "i4"])
    by (vm_compute; reflexivity).
  rewrite E in H. exact H.
Defined.

Section latest.
Context `{SV : Semver, !SemverLaws}.

(** Not a later version than: an unparseable version is below all others. *)
Definition node_below (n b : Node) : Prop :=
  match ParseTolerant (n_Version n), ParseTolerant (n_Version b) with
  | Some vn, Some vb => LT vb vn = false
  | Some _, None => False
  | None, _ => True
  end.

#[local] Instance node_below_trans : Transitive node_below.
Proof.
  intros a b c. unfold node_below. destruct (ParseTolerant (n_Version a)) as [va|], (ParseTolerant (n_Version b)) as [vb|],
    (ParseTolerant (n_Version c)) as [vc|]; try done.
  intros H1 H2. destruct (LT vc va) eqn:E; [|done]. destruct (LT_weak vc vb va E); congruence.
Qed.

#[local] Instance node_below_refl : Reflexive node_below.
Proof. intros a. unfold node_below. destruct (ParseTolerant (n_Version a)); [apply LT_irrefl|done]. Qed.

Lemma later_cases b x : (later (Some b) x = Some b ∧ node_below x b) ∨ (later (Some b) x = Some x ∧ node_below b x).
Proof.
  unfold later, node_below, GT. destruct (ParseTolerant (n_Version x)) as [vx|] eqn:Ex, (ParseTolerant (n_Version b)) as [vb|] eqn:Eb;
    try (by left); try (by right).
  destruct (LT vb vx) eqn:E; [right|by left]. split; [done|].
  destruct (LT vx vb) eqn:E2; [|done]. pose proof (LT_trans _ _ _ E E2). pose proof (LT_irrefl vb). congruence.
Qed.

(** Without version constraints exactly one node is mirrored, the latest:
    for every non-empty graph the result is one node of the graph that no
    node with a valid version exceeds. *)
Theorem unconstrained_resolves_latest g shortestPath :
  gr_Nodes g ≠ [] →
  ∃ n, ResolveReleaseNodes g "" "" false shortestPath = inr [n] ∧ n ∈ gr_Nodes g ∧ ∀ x, x ∈ gr_Nodes g → node_below x n.
Proof.
  intros Hne. unfold ResolveReleaseNodes, latestNode. cbn.
  destruct (gr_Nodes g) as [|b ns]; [done|]. cbn.
  enough (∃ n, foldl later (Some b) ns = Some n ∧ n ∈ b :: ns ∧ ∀ x, x ∈ b :: ns → node_below x n) as (n & -> & ?) by eauto.
  apply (foldl_inv (λ pre r, ∃ n, r = Some n ∧ n ∈ b :: pre ∧ ∀ x, x ∈ b :: pre → node_below x n)).
  { exists b. split_and!; [done|set_solver|]. intros x ->%list_elem_of_singleton. done. }
  intros pre x _ (n & -> & Hn & Hall) _ _. destruct (later_cases n x) as [[-> Hx]|[-> Hx]].
  - exists n. split_and!; [done|set_solver|].
    intros y [->|[Hy| ->%list_elem_of_singleton]%elem_of_app]%elem_of_cons; [apply Hall; set_solver|apply Hall; set_solver|done].
  - exists x. split_and!; [done|set_solver|].
    intros y [->|[Hy| ->%list_elem_of_singleton]%elem_of_app]%elem_of_cons; [|..|done]; (etransitivity; [|exact Hx]); apply Hall; set_solver.
Qed.
End latest.

Lemma unconstrained_resolves_latest_witness :
  ∃ n, @ResolveReleaseNodes number_semver (mkGraph [mkNode "2" "a"; mkNode "x" "b"; mkNode "10" "c"; mkNode "9" "d"] []) "" "" false false = inr [n] ∧
       n_Image n = "c".
Proof.
  destruct (@unconstrained_resolves_latest number_semver number_semver_laws
    (mkGraph [mkNode "2" "a"; mkNode "x" "b"; mkNode "10" "c"; mkNode "9" "d"] []) false) as (n & H & _).
  - discriminate.
  - exists n. split; [exact H|]. vm_compute in H. injection H as <-. reflexivity.
Defined.
