(* ===== verification/Planner.v ===== *)
(** * Ordering a batch

    pkg/mirror/planner.go.  [blobs] is what extractBlobDigests finds for each
    source: the empty set when the manifest cannot be read and for chart
    sources. *)
From S2P Require Import Prelude GoStrings.
From Stdlib Require Import ZifyBool.

Section plan.
Context (infos : list (gset string)).

Definition blobs_of (idx : nat) : gset string := default ∅ (infos !! idx).
Definition blobFreq (b : string) : nat := length (List.filter (λ bs, bool_decide (b ∈ bs)) infos).
Definition total (f : string → nat) (bs : gset string) : nat := sum_list_with f (elements bs).

(** [score] and [tieBreaker] of a candidate. *)
Definition score_of (uploaded : gset string) (idx : nat) : nat * nat :=
  let bs := blobs_of idx in
  if bool_decide (uploaded = ∅) then (total blobFreq bs, 0)
  else (size (bs ∩ uploaded), total blobFreq (bs ∖ uploaded)).

(** The test of the inner loop; [None] is [bestIdx == -1].  The index is
    visited in increasing order, so an equal score does not win. *)
Definition better (s best : nat * nat) : bool :=
  (fst best <? fst s)%nat || ((fst s =? fst best)%nat && (snd best <? snd s)%nat).
Definition consider (uploaded : gset string) (remaining : gset nat) (best : option nat) (idx : nat) : option nat :=
  if negb (bool_decide (idx ∈ remaining)) then best
  else match best with
       | None => Some idx
       | Some b =>
         if better (score_of uploaded idx) (score_of uploaded b)
            || (bool_decide (score_of uploaded idx = score_of uploaded b) && (idx <? b)%nat) then Some idx else best
       end.

Definition pick (uploaded : gset string) (remaining : gset nat) : option nat :=
  foldl (consider uploaded remaining) None (seq 0 (length infos)).

(** The outer loop.  Each round schedules one image, so [length infos] rounds
    are enough. *)
Fixpoint plan (rounds : nat) (uploaded : gset string) (remaining : gset nat) : list nat :=
  match rounds with
  | O => []
  | S rounds =>
    match pick uploaded remaining with
    | None => []
    | Some idx => idx :: plan rounds (blobs_of idx ∪ uploaded) (remaining ∖ {[idx]})
    end
  end.

Definition plan_order : list nat := plan (length infos) ∅ (list_to_set (seq 0 (length infos))).
End plan.

Definition PlanMirrorOrder (extract : string → gset string) (sources dests : list string) : list string * list string :=
  if (length sources <=? 1)%nat then (sources, dests)
  else
    let order := plan_order (map extract sources) in
    (omap (λ i, sources !! i) order, omap (λ i, dests !! i) order).

(** * Lemmas *)

Section lemmas.
Context (infos : list (gset string)).

(** The candidate picked: no remaining one has a better score. *)
Lemma pick_spec uploaded remaining :
  (∀ i, i ∈ remaining → i < length infos) → remaining ≠ ∅ →
  ∃ b, pick infos uploaded remaining = Some b ∧ b ∈ remaining ∧
    ∀ i, i ∈ remaining → better (score_of infos uploaded i) (score_of infos uploaded b) = false.
Proof.
  intros Hr Hne. unfold pick.
  assert (H : let r := foldl (consider infos uploaded remaining) None (seq 0 (length infos)) in
    match r with
    | None => ∀ i, i ∈ seq 0 (length infos) → i ∉ remaining
    | Some b => b ∈ remaining ∧ ∀ i, i ∈ seq 0 (length infos) → i ∈ remaining →
        better (score_of infos uploaded i) (score_of infos uploaded b) = false
    end).
  { apply (foldl_inv (λ pre r, match r with
      | None => ∀ i, i ∈ pre → i ∉ remaining
      | Some b => b ∈ remaining ∧ ∀ i, i ∈ pre → i ∈ remaining →
          better (score_of infos uploaded i) (score_of infos uploaded b) = false end)); [by intros i ?%elem_of_nil|].
    intros pre x acc IH _ _. unfold consider. destruct (bool_decide_reflect (x ∈ remaining)) as [Hx|Hx]; cbn [negb].
    2:{ destruct acc as [b|].
        - destruct IH as [Hb IH]. split; [done|]. intros i [Hi| ->%list_elem_of_singleton]%elem_of_app; [auto|done].
        - intros i [Hi| ->%list_elem_of_singleton]%elem_of_app; [auto|done]. }
    unfold better in *. destruct acc as [b|].
    - destruct IH as [Hb IH]. destruct (score_of infos uploaded x) as [sx tx] eqn:Ex, (score_of infos uploaded b) as [sb tb] eqn:Eb.
      cbn [fst snd] in *.
      destruct ((sb <? sx)%nat || (sx =? sb)%nat && (tb <? tx)%nat) eqn:Ebt; cbn [orb].
      + split; [done|]. rewrite Ex. cbn [fst snd]. intros i [Hi| ->%list_elem_of_singleton]%elem_of_app Hir.
        * specialize (IH i Hi Hir). destruct (score_of infos uploaded i) as [si ti]. cbn [fst snd] in *. lia.
        * rewrite Ex. cbn [fst snd]. lia.
      + destruct (bool_decide_reflect ((sx, tx) = (sb, tb))) as [Heq|_]; cbn [andb]; [destruct (x <? b)%nat|].
        * split; [done|]. injection Heq as -> ->. rewrite Ex. cbn [fst snd].
          intros i [Hi| ->%list_elem_of_singleton]%elem_of_app Hir; [auto|rewrite Ex; cbn [fst snd]; lia].
        * split; [done|]. rewrite Eb. cbn [fst snd].
          intros i [Hi| ->%list_elem_of_singleton]%elem_of_app Hir; [auto|by rewrite Ex].
        * split; [done|]. rewrite Eb. cbn [fst snd].
          intros i [Hi| ->%list_elem_of_singleton]%elem_of_app Hir; [auto|by rewrite Ex].
    - split; [done|]. intros i [Hi| ->%list_elem_of_singleton]%elem_of_app Hir; [by destruct (IH i Hi)|].
      destruct (score_of infos uploaded x). cbn [fst snd]. lia. }
  cbn zeta in H. assert (Hseq : ∀ i, i ∈ remaining → i ∈ seq 0 (length infos)).
  { intros i Hi. apply elem_of_seq. specialize (Hr i Hi). lia. }
  destruct (foldl _ _ _) as [b|].
  - destruct H as [Hb H]. exists b. split_and!; [done|done|]. intros i Hi. auto.
  - destruct (set_choose_L remaining Hne) as [i Hi]. by destruct (H i (Hseq i Hi)).
Qed.

Lemma plan_perm rounds uploaded remaining :
  (∀ i, i ∈ remaining → i < length infos) → size remaining ≤ rounds →
  plan infos rounds uploaded remaining ≡ₚ elements remaining.
Proof.
  revert uploaded remaining. induction rounds as [|rounds IH]; intros uploaded remaining Hr Hs; cbn.
  { assert (remaining = ∅) as -> by (apply leibniz_equiv, size_empty_inv; lia). by rewrite elements_empty. }
  destruct (decide (remaining = ∅)) as [->|Hne].
  { assert (pick infos uploaded ∅ = None) as ->; [|by rewrite elements_empty]. unfold pick.
    generalize (seq 0 (length infos)). intros l. apply (foldl_inv_simple (λ r, r = None)); [done|].
    intros x acc _ ->. unfold consider. by rewrite bool_decide_eq_false_2 by apply not_elem_of_empty. }
  destruct (pick_spec uploaded remaining Hr Hne) as (b & -> & Hb & _).
  assert (Hsz : size remaining = S (size (remaining ∖ {[b]}))).
  { rewrite (union_difference_singleton_L b remaining) at 1 by done.
    rewrite (size_union ({[b]} : gset nat)), size_singleton by set_solver. lia. }
  rewrite IH; [|set_solver|lia].
  rewrite (union_difference_singleton_L b remaining) at 2 by done. by rewrite elements_union_singleton by set_solver.
Qed.

Lemma plan_order_perm : plan_order infos ≡ₚ seq 0 (length infos).
Proof.
  unfold plan_order. rewrite plan_perm.
  - apply NoDup_Permutation; [apply NoDup_elements|apply NoDup_seq|]. intros i.
    by rewrite elem_of_elements, elem_of_list_to_set.
  - intros i. rewrite elem_of_list_to_set, elem_of_seq. lia.
  - rewrite size_list_to_set by apply NoDup_seq. by rewrite length_seq.
Qed.
End lemmas.

Lemma zip_picks {A B} (l1 : list A) (l2 : list B) (order : list nat) :
  Forall (λ i, i < length l1) order → length l1 = length l2 →
  zip (omap (λ i, l1 !! i) order) (omap (λ i, l2 !! i) order) = omap (λ i, zip l1 l2 !! i) order.
Proof.
  intros Ho Hl. induction Ho as [|i order Hi Ho IH]; cbn; [done|].
  destruct (lookup_lt_is_Some_2 l1 i Hi) as [a Ha], (lookup_lt_is_Some_2 l2 i ltac:(lia)) as [b Hb].
  rewrite Ha, Hb, (lookup_zip_with pair l1 l2 i), Ha, Hb. cbn. by rewrite IH.
Qed.

Lemma omap_lookup_seq {A} (l : list A) : omap (λ i, l !! i) (seq 0 (length l)) = l.
Proof.
  induction l as [|x l IH] using rev_ind; [done|]. rewrite length_app, seq_app, omap_app. cbn.
  rewrite lookup_app_r, Nat.sub_diag by lia. cbn. f_equal. transitivity (omap (λ i, l !! i) (seq 0 (length l))); [|exact IH].
  assert (Hk : Forall (λ i, i < length l) (seq 0 (length l))) by (apply Forall_forall; intros i; rewrite elem_of_seq; lia).
  clear IH. induction Hk as [|i ks Hi Hk IHk]; cbn; [done|]. by rewrite lookup_app_l, IHk by done.
Qed.

(** * Properties *)

(** Planning only reorders a batch: whatever the manifests say, the planned
    pairs of source and destination are a permutation of the given ones, so
    every image is mirrored once and to its own destination. *)
Theorem PlanMirrorOrder_permutes extract sources dests :
  length sources = length dests →
  let '(srcs, dsts) := PlanMirrorOrder extract sources dests in
  zip srcs dsts ≡ₚ zip sources dests ∧ length srcs = length sources ∧ length dsts = length dests.
Proof.
  intros Hl. unfold PlanMirrorOrder. destruct (_ <=? 1)%nat; [done|].
  pose proof (plan_order_perm (map extract sources)) as Hp. rewrite length_map in Hp.
  set (order := plan_order _) in *. clearbody order.
  assert (Ho : Forall (λ i, i < length sources) order).
  { apply Forall_forall. intros i. rewrite Hp, elem_of_seq. lia. }
  assert (Hperm : ∀ (A : Type) (l : list A), length l = length sources → omap (λ i, l !! i) order ≡ₚ l).
  { intros A l Hll. rewrite Hp, <- Hll. by rewrite omap_lookup_seq. }
  split_and!.
  - rewrite zip_picks by done. apply Hperm. rewrite length_zip_with. lia.
  - by apply Permutation_length, Hperm.
  - by apply Permutation_length, Hperm.
Qed.

(** A chart first in the batch, and two images that share a blob. *)
Definition ex_blobs (s : string) : gset string :=
  if String.eqb s "a" then {["x"; "y"]} else if String.eqb s "b" then {["y"]} else ∅.

Lemma PlanMirrorOrder_permutes_witness :
  let '(srcs, dsts) := PlanMirrorOrder ex_blobs ["helm://c"; "b"; "a"] ["dc"; "db"; "da"] in
  zip srcs dsts ≡ₚ [("helm://c", "dc"); ("b", "db"); ("a", "da")] ∧ srcs = ["a"; "b"; "helm://c"].
Proof.
  pose proof (PlanMirrorOrder_permutes ex_blobs ["helm://c"; "b"; "a"] ["dc"; "db"; "da"] eq_refl) as H.
  assert (E : fst (PlanMirrorOrder ex_blobs ["helm://c"; "b"; "a"] ["dc"; "db"; "da"]) = ["a"; "b"; "helm://c"])
    by (vm_compute; reflexivity).
  destruct (PlanMirrorOrder _ _ _) as [srcs dsts]. split; [apply H|exact E].
Defined.
