(* ===== verification/PackageIndex.v ===== *)
(** * The packages of a catalog

    The packages responses of pkg/mirror/resources/resources.go: the summary
    of an upstream catalog from which packages, channels and versions are
    selected, and the listing of a filtered catalog. *)
From S2P Require Import Prelude GoStrings ImageRef Api Semver CatalogGraph CatalogFilter Resources.

(** ** Versions *)

(** [bundleVersion] of resources.go: the version property, else the suffix of
    the name after its last ".v" when it starts with a digit. *)
Definition is_digit (c : ascii) : bool := (48 <=? nat_of_ascii c)%nat && (nat_of_ascii c <=? 57)%nat.

Definition responseBundleVersion (b : Bundle) : string :=
  let v := bundleVersion b in
  if negb (String.eqb v "") then v
  else match cut_last ".v" (bd_Name b) with
       | Some (_, String c s) => if is_digit c then String c s else ""
       | _ => ""
       end.

Definition ConventionalBundleName (pkg version : string) : string := pkg +:+ ".v" +:+ version.

(** [fmt.Sscanf(s, "%d", &a)] with [a = 0] before: spaces are skipped, then an
    optional sign and the longest run of digits; without a digit, or when the
    number does not fit, [a] stays 0. *)
Fixpoint skip_spaces (s : string) : string :=
  match s with String " " s => skip_spaces s | _ => s end.
Fixpoint digits_prefix (s : string) : string :=
  match s with String c s => if is_digit c then String c (digits_prefix s) else "" | "" => "" end.
Definition scan_int (s : string) : Z :=
  let '(sign, s) := match skip_spaces s with
                    | String "-" s => ("-", s)
                    | String "+" s => ("", s)
                    | s => ("", s)
                    end in
  default 0%Z (Atoi (sign +:+ digits_prefix s)).

(** The [k]-th of the three numeric components of [strings.SplitN(v, ".", 4)]. *)
Definition version_part (v : string) (k : nat) : Z :=
  match Split "." v !! k with Some p => scan_int p | None => 0%Z end.

(** The comparison of [sortVersionStrings]. *)
Definition version_less (u v : string) : bool :=
  let fix go (ks : list nat) : bool :=
    match ks with
    | [] => String.ltb u v
    | k :: ks =>
      let a := version_part u k in let b := version_part v k in
      if negb (a =? b)%Z then (a <? b)%Z else go ks
    end in
  go [0; 1; 2]%nat.

(** [u] may stand before [v]. *)
Definition version_le (u v : string) : Prop := version_less v u = false.
#[export] Instance version_le_dec : RelDecision version_le.
Proof. intros u v. unfold version_le. apply _. Defined.

Definition sortVersionStrings (versions : list string) : list string := merge_sort version_le versions.

(** ** Summaries *)

Record BundleEntry := mkBundleEntry { be_Name : string; be_Version : string }.
Record ChannelSummary := mkChannelSummary {
  cs_Name : string; cs_Entries : list BundleEntry; cs_Versions : list string; cs_BundleNames : gmap string string;
}.
Record PackageSummary := mkPackageSummary {
  pks_Name : string; pks_DefaultChannel : string; pks_Channels : list ChannelSummary;
}.
Record CatalogPackagesResponse := mkPackagesResponse {
  cpr_Catalog : string; cpr_TargetImage : string; cpr_Packages : list PackageSummary;
}.

(** [bundleVersions] and [defaultChannels]; the last one of a name wins. *)
Definition bundleVersions (cfg : DeclarativeConfig) : gmap string string := responseBundleVersion <$> bundlesByName cfg.
Definition version_of (cfg : DeclarativeConfig) (name : string) : string := default "" (bundleVersions cfg !! name).
Definition defaultChannel_of (cfg : DeclarativeConfig) (pkg : string) : string :=
  from_option pk_DefaultChannel "" (index_by pk_Name (dc_Packages cfg) !! pkg).

(** [channelsByPkg[pkg]], sorted.  The channels of a package have distinct
    names, so that the order does not depend on the sorting algorithm. *)
Definition channels_of (cfg : DeclarativeConfig) (pkg : string) : list Channel :=
  sort_by cn_Name (List.filter (λ ch, String.eqb (cn_Package ch) pkg) (dc_Channels cfg)).

Definition channelHeadNames (ch : Channel) : list string :=
  match heads (cn_Entries ch), last (cn_Entries ch) with
  | [], Some e => [ce_Name e]
  | hs, _ => hs
  end.

Definition entries_for (cfg : DeclarativeConfig) (names : list string) : list BundleEntry :=
  sort_by be_Name (map (λ n, mkBundleEntry n (version_of cfg n)) names).

(** One entry of the loop that collects versions and exceptional names. *)
Definition add_version (cfg : DeclarativeConfig) (pkg : string) (acc : gset string * gmap string string) (e : ChannelEntry)
    : gset string * gmap string string :=
  let v := version_of cfg (ce_Name e) in
  if String.eqb v "" then acc
  else
    ({[v]} ∪ fst acc,
     if negb (String.eqb (ce_Name e) (ConventionalBundleName pkg v)) then
       match snd acc !! v with Some _ => snd acc | None => <[v := ce_Name e]> (snd acc) end
     else snd acc).

Definition channel_versions (cfg : DeclarativeConfig) (pkg : string) (entries : list ChannelEntry)
    : gset string * gmap string string :=
  foldl (add_version cfg pkg) (∅, ∅) entries.

Definition upstream_channel (cfg : DeclarativeConfig) (pkg : string) (ch : Channel) : ChannelSummary :=
  let '(versionSet, bundleNames) := channel_versions cfg pkg (cn_Entries ch) in
  mkChannelSummary (cn_Name ch) (entries_for cfg (channelHeadNames ch)) (sortVersionStrings (elements versionSet)) bundleNames.

Definition full_channel (cfg : DeclarativeConfig) (ch : Channel) : ChannelSummary :=
  mkChannelSummary (cn_Name ch) (entries_for cfg (map ce_Name (cn_Entries ch))) [] ∅.

Definition packages_response (channel : string → Channel → ChannelSummary) (cat : CatalogInfo) (cfg : DeclarativeConfig)
    : CatalogPackagesResponse :=
  mkPackagesResponse (ci_SourceCatalog cat) (ci_TargetImage cat)
    (map (λ pkg, mkPackageSummary pkg (defaultChannel_of cfg pkg) (map (channel pkg) (channels_of cfg pkg)))
       (sort_strings (map pk_Name (dc_Packages cfg)))).

Definition BuildUpstreamCatalogPackagesResponse (cat : CatalogInfo) (cfg : DeclarativeConfig) : CatalogPackagesResponse :=
  packages_response (upstream_channel cfg) cat cfg.
Definition BuildCatalogPackagesResponse (cat : CatalogInfo) (cfg : DeclarativeConfig) : CatalogPackagesResponse :=
  packages_response (λ _, full_channel cfg) cat cfg.

(** The bundle a selected version stands for, as [BundleNames] documents it. *)
Definition bundle_for (pkg : string) (cs : ChannelSummary) (v : string) : string :=
  default (ConventionalBundleName pkg v) (cs_BundleNames cs !! v).

(** * Lemmas *)

(** ** The order of versions *)

Lemma ltb_le u v : String.ltb u v = false ↔ String.le v u.
Proof.
  unfold String.ltb, String.le, String.leb. rewrite (String.compare_antisym v u).
  by destruct (String.compare u v).
Qed.

Lemma version_le_spec u v :
  version_le u v ↔
  let p0 x := version_part x 0 in let p1 x := version_part x 1 in let p2 x := version_part x 2 in
  (p0 u < p0 v ∨ p0 u = p0 v ∧ (p1 u < p1 v ∨ p1 u = p1 v ∧ (p2 u < p2 v ∨ p2 u = p2 v ∧ String.le u v)))%Z.
Proof.
  unfold version_le, version_less. cbn. rewrite <- (ltb_le v u).
  repeat match goal with |- context [(?a =? ?b)%Z] => destruct (Z.eqb_spec a b); cbn end;
    rewrite ?Z.ltb_ge; intuition lia.
Qed.

#[export] Instance version_le_total : Total version_le.
Proof.
  intros u v. rewrite !version_le_spec. destruct (total String.le u v);
    cbn; destruct (Z.lt_trichotomy (version_part u 0) (version_part v 0)) as [?|[?|?]],
      (Z.lt_trichotomy (version_part u 1) (version_part v 1)) as [?|[?|?]],
      (Z.lt_trichotomy (version_part u 2) (version_part v 2)) as [?|[?|?]]; intuition lia.
Qed.
#[export] Instance version_le_trans : Transitive version_le.
Proof.
  intros u v w. rewrite !version_le_spec. cbn. intros H1 H2.
  assert (String.le u v → String.le v w → String.le u w) by (intros; by etransitivity).
  intuition lia.
Qed.
#[export] Instance version_le_antisym : AntiSymm (=) version_le.
Proof.
  intros u v. rewrite !version_le_spec. cbn. intros H1 H2.
  apply (anti_symm String.le); intuition lia.
Qed.

(** ** The versions of a channel *)

Section versions.
Context (cfg : DeclarativeConfig) (pkg : string).

Definition versions_inv (seen : list ChannelEntry) (acc : gset string * gmap string string) : Prop :=
  (∀ v, v ∈ fst acc ↔ v ≠ "" ∧ ∃ e, e ∈ seen ∧ version_of cfg (ce_Name e) = v) ∧
  (∀ v n, snd acc !! v = Some n → v ≠ "" ∧ version_of cfg n = v ∧ n ∈ map ce_Name seen) ∧
  (∀ e, e ∈ seen → version_of cfg (ce_Name e) ≠ "" →
     ce_Name e ≠ ConventionalBundleName pkg (version_of cfg (ce_Name e)) → is_Some (snd acc !! version_of cfg (ce_Name e))).

Lemma versions_inv_step seen acc e :
  versions_inv seen acc → versions_inv (seen ++ [e]) (add_version cfg pkg acc e).
Proof.
  intros (H1 & H2 & H3). unfold add_version. destruct (String.eqb_spec (version_of cfg (ce_Name e)) "") as [E|E].
  - split_and!.
    + intros v. rewrite H1. setoid_rewrite elem_of_app. setoid_rewrite list_elem_of_singleton. naive_solver.
    + intros v n Hn. destruct (H2 v n Hn) as (? & ? & ?). rewrite map_app, elem_of_app. auto.
    + intros e' [?| ->%list_elem_of_singleton]%elem_of_app; [auto|done].
  - set (bn := if negb _ then _ else _).
    assert (Hbn : ∀ v n, bn !! v = Some n → snd acc !! v = Some n ∨ v = version_of cfg (ce_Name e) ∧ n = ce_Name e).
    { intros v n. unfold bn. destruct (negb _); [|auto]. destruct (snd acc !! version_of cfg (ce_Name e)); [auto|].
      intros [[<- <-]|[_ ?]]%lookup_insert_Some; auto. }
    assert (Hmono : ∀ v, is_Some (snd acc !! v) → is_Some (bn !! v)).
    { intros v. unfold bn. destruct (negb _); [|auto]. destruct (snd acc !! version_of cfg (ce_Name e)); [auto|].
      intros ?. apply lookup_insert_is_Some'. by right. }
    split_and!; cbn [fst snd].
    + intros v. rewrite elem_of_union, elem_of_singleton, H1. setoid_rewrite elem_of_app.
      setoid_rewrite list_elem_of_singleton. naive_solver.
    + intros v n [Hn|[-> ->]]%Hbn; rewrite map_app, elem_of_app; [destruct (H2 v n Hn) as (? & ? & ?); auto|].
      split_and!; [done|done|right; by left].
    + intros e' [?| ->%list_elem_of_singleton]%elem_of_app ? Hne; [auto|].
      unfold bn. rewrite (proj2 (String.eqb_neq _ _) Hne). cbn.
      destruct (snd acc !! version_of cfg (ce_Name e)) eqn:Ea; [by rewrite Ea|by rewrite lookup_insert_eq].
Qed.

Lemma channel_versions_ok entries : versions_inv entries (channel_versions cfg pkg entries).
Proof.
  unfold channel_versions. apply (foldl_inv versions_inv).
  - split_and!; cbn; [|done|by intros ? ?%elem_of_nil].
    intros v. split; [by intros ?%elem_of_empty|intros (_ & ? & ?%elem_of_nil & _); done].
  - intros. by apply versions_inv_step.
Qed.
End versions.

Lemma version_of_bundle cfg n : version_of cfg n ≠ "" → is_Some (bundlesByName cfg !! n).
Proof. unfold version_of, bundleVersions. rewrite lookup_fmap. destruct (bundlesByName cfg !! n); [by eexists|done]. Qed.

(** Every channel entry's bundle is of the channel's package. *)
Definition entries_in_package (cfg : DeclarativeConfig) : Prop :=
  ∀ ch e b, ch ∈ dc_Channels cfg → e ∈ cn_Entries ch → bundlesByName cfg !! ce_Name e = Some b → bd_Package b = cn_Package ch.

Lemma response_channel channel cat cfg ps cs :
  ps ∈ cpr_Packages (packages_response channel cat cfg) → cs ∈ pks_Channels ps →
  ∃ ch, ch ∈ dc_Channels cfg ∧ cn_Package ch = pks_Name ps ∧ cs = channel (pks_Name ps) ch.
Proof.
  unfold packages_response. cbn [cpr_Packages]. intros (pkg & _ & ->)%elem_of_map. cbn [pks_Channels pks_Name].
  intros (ch & Hch & ->)%elem_of_map. exists ch. unfold channels_of in Hch.
  rewrite sort_by_perm, elem_of_filter_bool, String.eqb_eq in Hch. naive_solver.
Qed.

(** * Properties *)

(** Selecting a version is selecting a bundle: for every version a channel of
    the upstream response offers, the bundle name it stands for (the recorded
    exception, or the conventional name) is an entry of that channel, has that
    version, and passes the check that bundles selected by name exist in their
    package; every version of an entry is offered, once, and in ascending
    order. *)
Theorem offered_version_selects_bundle cat cfg ps cs :
  entries_in_package cfg →
  ps ∈ cpr_Packages (BuildUpstreamCatalogPackagesResponse cat cfg) → cs ∈ pks_Channels ps →
  ∃ ch, ch ∈ dc_Channels cfg ∧ cn_Package ch = pks_Name ps ∧ cn_Name ch = cs_Name cs ∧
    StronglySorted version_le (cs_Versions cs) ∧ NoDup (cs_Versions cs) ∧
    (∀ e, e ∈ cn_Entries ch → version_of cfg (ce_Name e) ≠ "" → version_of cfg (ce_Name e) ∈ cs_Versions cs) ∧
    (∀ v, v ∈ cs_Versions cs →
       bundle_for (pks_Name ps) cs v ∈ map ce_Name (cn_Entries ch) ∧
       version_of cfg (bundle_for (pks_Name ps) cs v) = v ∧
       missing_bundle cfg (mkIncludePackage (pks_Name ps) [] "" 0 (mkIncludeBundle "" "") [bundle_for (pks_Name ps) cs v]) = None).
Proof.
  intros Hwf Hps Hcs. destruct (response_channel _ _ _ _ _ Hps Hcs) as (ch & Hch & Hpk & ->).
  exists ch. pose proof (channel_versions_ok cfg (pks_Name ps) (cn_Entries ch)) as (H1 & H2 & H3).
  unfold upstream_channel. destruct (channel_versions _ _ _) as [vs bn]. cbn in *.
  assert (Hv : ∀ v, v ∈ sortVersionStrings (elements vs) ↔ v ∈ vs).
  { intros v. unfold sortVersionStrings. by rewrite merge_sort_Permutation, elem_of_elements. }
  split_and!; [done|done|done| | | |].
  - apply (StronglySorted_merge_sort version_le).
  - unfold sortVersionStrings. rewrite merge_sort_Permutation. apply NoDup_elements.
  - intros e He Hne. apply Hv, H1. eauto.
  - intros v [Hne (e & He & Ev)]%Hv%H1. unfold bundle_for. cbn.
    assert (default (ConventionalBundleName (pks_Name ps) v) (bn !! v) ∈ map ce_Name (cn_Entries ch) ∧
            version_of cfg (default (ConventionalBundleName (pks_Name ps) v) (bn !! v)) = v) as [Hin Hver].
    { destruct (bn !! v) as [n|] eqn:En; cbn; [by destruct (H2 v n En) as (_ & ? & ?)|].
      destruct (decide (ce_Name e = ConventionalBundleName (pks_Name ps) v)) as [<-|Hex].
      - split; [|done]. apply elem_of_map. eauto.
      - destruct (H3 e He) as [? Hx]; [congruence|congruence|]. rewrite Ev in Hx. congruence. }
    split_and!; [done|done|]. set (n := default _ _) in *. clearbody n.
    apply elem_of_map in Hin as (e' & He' & ->).
    destruct (version_of_bundle cfg (ce_Name e')) as [b Hb]; [congruence|].
    unfold missing_bundle. cbn. rewrite Hb, (Hwf ch e' b Hch He' Hb), Hpk, String.eqb_refl. done.
Qed.

(** A channel with a conventional and an exceptional bundle name. *)
Definition ex_pi_config : DeclarativeConfig :=
  mkConfig [mkPackage "app" "stable"]
    [mkCatChannel "stable" "app" [mkEntry "app-ten" "app.v9.0.0" [] ""; mkEntry "app.v9.0.0" "" [] ""]]
    [mkBundle "app.v9.0.0" "app" "img9" [] []; mkBundle "app-ten" "app" "img10" [olmPackage (Some "10.0.0")] []].

Lemma offered_version_selects_bundle_witness :
  ∃ ps cs, cpr_Packages (BuildUpstreamCatalogPackagesResponse (mkCatalogInfo "c" "t" "d") ex_pi_config) = [ps] ∧
    pks_Channels ps = [cs] ∧ cs_Versions cs = ["9.0.0"; "10.0.0"] ∧
    version_of ex_pi_config (bundle_for "app" cs "10.0.0") = "10.0.0" ∧ bundle_for "app" cs "10.0.0" = "app-ten".
Proof.
  set (ps := mkPackageSummary "app" "stable" [upstream_channel ex_pi_config "app"
    (mkCatChannel "stable" "app" [mkEntry "app-ten" "app.v9.0.0" [] ""; mkEntry "app.v9.0.0" "" [] ""])]).
  set (cs := upstream_channel ex_pi_config "app"
    (mkCatChannel "stable" "app" [mkEntry "app-ten" "app.v9.0.0" [] ""; mkEntry "app.v9.0.0" "" [] ""])).
  destruct (offered_version_selects_bundle (mkCatalogInfo "c" "t" "d") ex_pi_config ps cs)
    as (ch & _ & _ & _ & _ & _ & _ & Hv).
  - intros ch e b [->|?%elem_of_nil]%elem_of_cons; [|done].
    intros [->|[->|?%elem_of_nil]%elem_of_cons]%elem_of_cons; [..|done]; vm_compute; by intros [= <-].
  - replace (cpr_Packages _) with [ps] by (vm_compute; reflexivity). by left.
  - by left.
  - exists ps, cs. split; [vm_compute; reflexivity|]. split; [reflexivity|]. split; [vm_compute; reflexivity|].
    split; [|vm_compute; reflexivity]. apply (Hv "10.0.0").
    replace (cs_Versions cs) with ["9.0.0"; "10.0.0"] by (vm_compute; reflexivity). right; by left.
Defined.
