(* ===== verification/BuildJobs.v ===== *)
(** * Catalog build Jobs

    pkg/mirror/catalog/builder/job.go: the names, signatures and manifests of
    the Jobs that build filtered catalogs, and the configuration the builder
    reads back from its environment (cmd/catalog-builder/main.go).  Of a
    manifest the model keeps the environment of the container. *)
From S2P Require Import Prelude GoStrings Api Resources.

(** [hex(sha256(s))]: 64 hex digits. *)
Class Sha256 := {
  sha256_hex : string → string;
  sha256_length : ∀ s, String.length (sha256_hex s) = 64;
}.

(** ** Names *)

Definition nul : string := String "000"%char "".
Definition replace_any (cs : list ascii) (r : ascii) : string → string :=
  fix go s := match s with
              | "" => ""
              | String c s => String (if existsb (λ d, bool_decide (d = c)) cs then r else c) (go s)
              end.

Definition job_slug (s : string) : string :=
  replace_any [":"; "/"; "."; "@"; "_"]%char "-"%char (ToLower s).

Section names.
Context `{Sha : Sha256}.

Definition safeJobName (prefix : string) (parts : list string) : string :=
  let suffix := take_bytes 8 (sha256_hex (Join (map (λ p, p +:+ nul) parts) "")) in
  let body := prefix +:+ "-" +:+ Join (map job_slug parts) "-" in
  let budget := 63 - 1 - 8 in
  let body := if (budget <? String.length body)%nat then take_bytes budget body else body in
  TrimRight "-" body +:+ "-" +:+ suffix.

Definition JobName (imageSetName sourceCatalog : string) : string :=
  safeJobName "catalog-build" [imageSetName; sourceCatalog].

(** ** Signatures *)

Definition sig_line (key v : string) : string := key +:+ "=" +:+ v +:+ newline.
Definition sig_line_if (key v : string) : string := if String.eqb v "" then "" else sig_line key v.

Definition sig_channel (ch : IncludeChannel) : string :=
  sig_line "ch" (ic_Name ch) +:+ sig_line_if "ch.min" (ib_MinVersion (ic_Bundle ch))
  +:+ sig_line_if "ch.max" (ib_MaxVersion (ic_Bundle ch)).

Definition sig_package (p : IncludePackage) : string :=
  sig_line "pkg" (ip_Name p) +:+ sig_line_if "pkg.min" (ib_MinVersion (ip_Bundle p))
  +:+ sig_line_if "pkg.max" (ib_MaxVersion (ip_Bundle p)) +:+ sig_line_if "pkg.defaultChannel" (ip_DefaultChannel p)
  +:+ (if (ip_PreviousVersions p =? 0)%Z then "" else sig_line "pkg.previousVersions" (Itoa (ip_PreviousVersions p)))
  +:+ Join (map sig_channel (sort_by ic_Name (ip_Channels p))) "".

Definition sig_operator (op : Operator) : string :=
  if String.eqb (op_Catalog op) "" then ""
  else
    sig_line "catalog" (op_Catalog op) +:+ sig_line "full" (if op_Full op then "true" else "false")
    +:+ (if op_SkipDependencies op then sig_line "skipDeps" "true" else "")
    +:+ sig_line_if "targetCatalog" (op_TargetCatalog op) +:+ sig_line_if "targetTag" (op_TargetTag op)
    +:+ Join (map sig_package (sort_by ip_Name (op_Packages op))) "".

(** What [BuildSignature] writes to the hash. *)
Definition sig_payload (operatorImage : string) (operators : list Operator) : string :=
  sig_line "image" operatorImage +:+ Join (map sig_operator operators) "".

Definition BuildSignature (operatorImage : string) (operators : list Operator) : string :=
  take_bytes 16 (sha256_hex (sig_payload operatorImage operators)).
End names.

(** ** The environment of the builder *)

Record EnvVar := mkEnvVar { ev_Name : string; ev_Value : string }.

Definition clusterNoProxy : list string := ["localhost"; "127.0.0.1"; ".svc"; ".svc.cluster.local"].

Definition buildEffectiveNoProxy (userNoProxy : string) : string :=
  let base := Join clusterNoProxy "," in
  if String.eqb userNoProxy "" then base else base +:+ "," +:+ userNoProxy.

Definition catalogProxyEnvVars (cfg : option ProxyConfig) : list EnvVar :=
  match cfg with
  | None => []
  | Some cfg =>
    (if String.eqb (px_HTTPProxy cfg) "" then []
     else [mkEnvVar "HTTP_PROXY" (px_HTTPProxy cfg); mkEnvVar "http_proxy" (px_HTTPProxy cfg)])
    ++ (if String.eqb (px_HTTPSProxy cfg) "" then []
        else [mkEnvVar "HTTPS_PROXY" (px_HTTPSProxy cfg); mkEnvVar "https_proxy" (px_HTTPSProxy cfg)])
    ++ (if negb (String.eqb (px_HTTPProxy cfg) "") || negb (String.eqb (px_HTTPSProxy cfg) "") then
          let noProxy := buildEffectiveNoProxy (px_NoProxy cfg) in
          [mkEnvVar "NO_PROXY" noProxy; mkEnvVar "no_proxy" noProxy;
           mkEnvVar "KUBERNETES_SERVICE_HOST" "kubernetes.default.svc.cluster.local"]
        else if negb (String.eqb (px_NoProxy cfg) "") then
          [mkEnvVar "NO_PROXY" (px_NoProxy cfg); mkEnvVar "no_proxy" (px_NoProxy cfg)]
        else [])
  end.

Definition EnvSourceCatalog : string := "SOURCE_CATALOG".
Definition EnvTargetRef : string := "TARGET_REF".
Definition EnvCatalogPackages : string := "CATALOG_PACKAGES".
Definition EnvCatalogIncludeConfig : string := "CATALOG_INCLUDE_CONFIG".
Definition EnvInsecureHosts : string := "REGISTRY_INSECURE_HOSTS".
Definition EnvDockerConfig : string := "DOCKER_CONFIG".

(** The JSON of a package list; [None] is an error. *)
Class IncludeJSON := {
  json_packages : list IncludePackage → option string;
  parse_packages : string → option (list IncludePackage);
}.

Section environment.
Context `{J : IncludeJSON}.

(** The environment [buildJobSpec] gives the container. *)
Definition buildJobEnv (mt : MirrorTarget) (sourceCatalog targetRef : string) (packages : list IncludePackage) : list EnvVar :=
  [mkEnvVar EnvSourceCatalog sourceCatalog; mkEnvVar EnvTargetRef targetRef;
   mkEnvVar EnvCatalogPackages (Join (map ip_Name packages) ",")]
  ++ (if decide (packages = []) then []
      else match json_packages packages with Some data => [mkEnvVar EnvCatalogIncludeConfig data] | None => [] end)
  ++ (if mt_Insecure mt then [mkEnvVar EnvInsecureHosts (CutBefore (mt_Registry mt) "/")] else [])
  ++ (if String.eqb (mt_AuthSecret mt) "" then [] else [mkEnvVar EnvDockerConfig "/var/run/secrets/registry"])
  ++ catalogProxyEnvVars (mt_Proxy mt)
  ++ (match mt_CABundle mt with
      | Some ca => [mkEnvVar "SSL_CERT_FILE" ("/run/secrets/ca/" +:+ (if String.eqb (ca_Key ca) "" then "ca-bundle.crt" else ca_Key ca))]
      | None => []
      end).

(** [os.Getenv]; a variable defined twice has its last value. *)
Definition getenv (env : list EnvVar) (name : string) : string :=
  foldl (λ v e, if String.eqb (ev_Name e) name then ev_Value e else v) "" env.

Definition split_words (raw : string) : list string :=
  List.filter (λ w, negb (String.eqb w "")) (map TrimSpace (Split "," raw)).

Record builderConfig := mkBuilderConfig {
  bc_source : string; bc_target : string; bc_packages : list IncludePackage; bc_insecureHosts : list string; bc_authDir : string;
}.

(** An included package given by its name only. *)
Definition named_package (name : string) : IncludePackage := mkIncludePackage name [] "" 0 (mkIncludeBundle "" "") [].

(** The configuration [main] of catalog-builder reads; [None] is exit code 1. *)
Definition builder_main (env : list EnvVar) : option builderConfig :=
  let source := getenv env EnvSourceCatalog in
  let target := getenv env EnvTargetRef in
  let includeConfigRaw := getenv env EnvCatalogIncludeConfig in
  if String.eqb source "" || String.eqb target "" then None
  else
    packages ← (if negb (String.eqb includeConfigRaw "") then parse_packages includeConfigRaw
                else Some (map named_package (split_words (getenv env EnvCatalogPackages))));
    Some (mkBuilderConfig source target packages (split_words (getenv env EnvInsecureHosts)) (getenv env EnvDockerConfig)).
End environment.

(** * Lemmas *)

Lemma take_bytes_length n s : String.length (take_bytes n s) = n `min` String.length s.
Proof. revert s. induction n as [|n IH]; intros [|c s]; cbn; [done..|]. by rewrite IH. Qed.

Lemma TrimRight_length c s : String.length (TrimRight c s) ≤ String.length s.
Proof. induction s as [|a s IH]; cbn; [done|]. destruct (_ && _); cbn; lia. Qed.

Lemma JobName_length `{Sha256} name cat : String.length (JobName name cat) ≤ 63.
Proof.
  unfold JobName, safeJobName. set (body := "catalog-build" +:+ _). rewrite !length_app_s. cbn [String.length].
  rewrite take_bytes_length, sha256_length.
  pose proof (TrimRight_length "-" (if (63 - 1 - 8 <? String.length body)%nat then take_bytes (63 - 1 - 8) body else body)) as Ht.
  destruct (Nat.ltb_spec (63 - 1 - 8) (String.length body)); [rewrite take_bytes_length in Ht|]; lia.
Qed.

(** ** Reading variables back *)

Definition getenv_from (v : string) (env : list EnvVar) (name : string) : string :=
  foldl (λ v e, if String.eqb (ev_Name e) name then ev_Value e else v) v env.

Lemma getenv_from_app v e1 e2 name : getenv_from v (e1 ++ e2) name = getenv_from (getenv_from v e1 name) e2 name.
Proof. apply foldl_app. Qed.

Lemma getenv_from_absent v env name : Forall (λ e, ev_Name e ≠ name) env → getenv_from v env name = v.
Proof.
  intros H. revert v. induction H as [|e env He _ IH]; intros v; [done|]. cbn.
  rewrite (proj2 (String.eqb_neq _ _) He). apply IH.
Qed.

Definition proxy_names : list string :=
  ["HTTP_PROXY"; "http_proxy"; "HTTPS_PROXY"; "https_proxy"; "NO_PROXY"; "no_proxy"; "KUBERNETES_SERVICE_HOST"].

Lemma proxy_env_names cfg : Forall (λ e, ev_Name e ∈ proxy_names) (catalogProxyEnvVars cfg).
Proof.
  destruct cfg as [cfg|]; [|constructor]. unfold catalogProxyEnvVars. rewrite !Forall_app.
  repeat case_match; split_and!; repeat constructor; cbn; by_vm.
Qed.

Lemma proxy_env_absent cfg name :
  name ∉ proxy_names → Forall (λ e, ev_Name e ≠ name) (catalogProxyEnvVars cfg).
Proof. intros Hn. eapply Forall_impl; [apply proxy_env_names|]. cbn. by intros e He <-. Qed.

Lemma proxy_no_proxy cfg v :
  px_HTTPProxy cfg ≠ "" ∨ px_HTTPSProxy cfg ≠ "" →
  getenv_from v (catalogProxyEnvVars (Some cfg)) "NO_PROXY" = buildEffectiveNoProxy (px_NoProxy cfg).
Proof.
  intros H. unfold catalogProxyEnvVars. rewrite !getenv_from_app.
  destruct (String.eqb_spec (px_HTTPProxy cfg) ""), (String.eqb_spec (px_HTTPSProxy cfg) ""); try (by destruct H); done.
Qed.

Lemma cluster_entries_listed user w : w ∈ clusterNoProxy → w ∈ Split "," (buildEffectiveNoProxy user).
Proof.
  intros Hw. assert (Hb : Split "," (Join clusterNoProxy ",") = clusterNoProxy) by reflexivity.
  unfold buildEffectiveNoProxy. destruct (String.eqb user ""); [by rewrite Hb|].
  change ("," +:+ user) with (String "," user). rewrite Split_app_general, elem_of_app, Hb. by left.
Qed.

Section roundtrip.
Context `{J : IncludeJSON}.

(** The segments of the environment after the three fixed variables do not
    touch a variable of another segment. *)
Lemma job_env_get mt src tgt pkgs name :
  name ∉ proxy_names → name ≠ "SSL_CERT_FILE" →
  getenv (buildJobEnv mt src tgt pkgs) name =
  getenv_from
    (getenv_from
      (getenv_from
        (getenv_from ""
          [mkEnvVar EnvSourceCatalog src; mkEnvVar EnvTargetRef tgt; mkEnvVar EnvCatalogPackages (Join (map ip_Name pkgs) ",")] name)
        (if decide (pkgs = []) then []
         else match json_packages pkgs with Some data => [mkEnvVar EnvCatalogIncludeConfig data] | None => [] end) name)
      (if mt_Insecure mt then [mkEnvVar EnvInsecureHosts (CutBefore (mt_Registry mt) "/")] else []) name)
    (if String.eqb (mt_AuthSecret mt) "" then [] else [mkEnvVar EnvDockerConfig "/var/run/secrets/registry"]) name.
Proof.
  intros Hn Hs. change (getenv ?l name) with (getenv_from "" l name). unfold buildJobEnv.
  rewrite !getenv_from_app. rewrite (getenv_from_absent _ (match mt_CABundle mt with Some _ => _ | None => _ end)).
  2: { destruct (mt_CABundle mt); repeat constructor. cbn. congruence. }
  by rewrite (getenv_from_absent _ (catalogProxyEnvVars _)) by by apply proxy_env_absent.
Qed.
End roundtrip.

(** * Properties *)

(** What a Job is created with is what its builder runs with: from the
    environment of the Job, catalog-builder reads back the source, the target
    and the full package list with its channel and version filters (the JSON
    of the list decoding to it), the insecure host of the target registry and
    the credentials directory; and when a proxy is configured every
    cluster-internal address pattern bypasses it. *)
Theorem builder_reads_back_job `{IncludeJSON} mt src tgt pkgs :
  src ≠ "" → tgt ≠ "" →
  (∀ s, json_packages pkgs = Some s → s ≠ "" ∧ parse_packages s = Some pkgs) →
  is_Some (json_packages pkgs) →
  let env := buildJobEnv mt src tgt pkgs in
  builder_main env = Some (mkBuilderConfig src tgt pkgs
    (if mt_Insecure mt then split_words (CutBefore (mt_Registry mt) "/") else [])
    (if String.eqb (mt_AuthSecret mt) "" then "" else "/var/run/secrets/registry")) ∧
  (∀ cfg w, mt_Proxy mt = Some cfg → px_HTTPProxy cfg ≠ "" ∨ px_HTTPSProxy cfg ≠ "" → w ∈ clusterNoProxy →
     w ∈ Split "," (getenv env "NO_PROXY")).
Proof.
  intros Hs Ht Hj [data Hd] env. destruct (Hj data Hd) as [Hne Hp]. split.
  - unfold builder_main, env. rewrite !job_env_get by by_vm. rewrite Hd.
    destruct (decide (pkgs = [])) as [->|Hpk], (mt_Insecure mt), (String.eqb (mt_AuthSecret mt) "") eqn:Ea; cbn -[split_words];
      rewrite ?(proj2 (String.eqb_neq _ _) Hs), ?(proj2 (String.eqb_neq _ _) Ht), ?(proj2 (String.eqb_neq _ _) Hne); cbn -[split_words];
      rewrite ?Hp; reflexivity.
  - intros cfg w Hcfg Hset Hw. unfold env. change (getenv ?l ?n) with (getenv_from "" l n). unfold buildJobEnv.
    rewrite !getenv_from_app, (getenv_from_absent _ (match mt_CABundle mt with Some _ => _ | None => _ end)).
    2: { destruct (mt_CABundle mt); repeat constructor. cbn. congruence. }
    rewrite Hcfg, proxy_no_proxy by done. by apply cluster_entries_listed.
Qed.

(** A JSON codec that numbers two package lists. *)
Definition ex_json : IncludeJSON := {|
  json_packages l := Some (if decide (l = []) then "[]" else "list");
  parse_packages s := if String.eqb s "[]" then Some [] else Some [named_package "app"] |}.

Lemma builder_reads_back_job_witness :
  @builder_main ex_json (@buildJobEnv ex_json ex_res_target "cat@sha256:ab" "reg/cat:v1" [named_package "app"]) =
  Some (mkBuilderConfig "cat@sha256:ab" "reg/cat:v1" [named_package "app"] [] "").
Proof.
  apply (@builder_reads_back_job ex_json ex_res_target "cat@sha256:ab" "reg/cat:v1" [named_package "app"]).
  - discriminate.
  - discriminate.
  - intros s [= <-]. split; [discriminate|reflexivity].
  - by eexists.
Defined.
