(* ===== verification/CatalogGate.v ===== *)
(** * The catalog build gate

    internal/controller/imageset_controller.go with the Job operations of
    pkg/mirror/catalog/builder/job.go: when a filtered catalog may be built,
    from which digest, and when it is built again.  The API server holds the
    ConfigMaps, the build Jobs and the ImageSet; every call draws from one
    schedule of faults, as in ImageState.  A run sees no other writer, except
    that the update that reports success may lose resourceVersion races. *)
From S2P Require Import Prelude Effects GoStrings ImageRef ImageState Api Resources BuildJobs.

(** ** The cluster *)

Record BuildJob := mkBuildJob {
  bj_Source : string; bj_Target : string; bj_Packages : list IncludePackage;
  bj_Succeeded : Z; bj_Active : Z; bj_Failed : Z;
}.

#[export] Instance BuildJob_eq_dec : EqDecision BuildJob.
Proof. solve_decision. Defined.

Record World := mkWorld { w_cluster : Cluster; w_jobs : gmap string BuildJob; w_is : option ImageSet }.

Abbreviation GATE := (M World apiErr).

Definition w_cms (w : World) : gmap string ConfigMap := cl_cms (w_cluster w).
Definition with_faults (fs : list bool) (w : World) : World := mkWorld (mkCluster (w_cms w) fs) (w_jobs w) (w_is w).

Definition gate_call {A} (f : World → (apiErr + A) * World) : GATE A := λ w,
  match cl_faults (w_cluster w) with
  | true :: fs => (inl ErrOther, with_faults fs w)
  | fs => f (with_faults (tail fs) w)
  end.

Definition gate_lift {A} (m : API A) : GATE A := λ w,
  let '(r, c) := m (w_cluster w) in (r, mkWorld c (w_jobs w) (w_is w)).

Definition build_get (name : string) : GATE BuildJob := gate_call (λ w,
  (match w_jobs w !! name with Some j => inr j | None => inl ErrNotFound end, w)).
Definition build_create (name : string) (j : BuildJob) : GATE unit := gate_call (λ w,
  match w_jobs w !! name with
  | Some _ => (inl ErrAlreadyExists, w)
  | None => (inr tt, mkWorld (w_cluster w) (<[name := j]> (w_jobs w)) (w_is w))
  end).
Definition build_delete (name : string) : GATE unit := gate_call (λ w,
  match w_jobs w !! name with
  | Some _ => (inr tt, mkWorld (w_cluster w) (delete name (w_jobs w)) (w_is w))
  | None => (inl ErrNotFound, w)
  end).

Definition is_get : GATE ImageSet := gate_call (λ w,
  (match w_is w with Some s => inr s | None => inl ErrNotFound end, w)).

Definition with_annotations (a : gmap string string) (s : ImageSet) : ImageSet :=
  mkImageSet (is_Name s) a (is_Generation s) (is_Mirror s) (is_Status s).
Definition with_conditions (cs : list Condition) (s : ImageSet) : ImageSet :=
  let st := is_Status s in
  mkImageSet (is_Name s) (is_Annotations s) (is_Generation s) (is_Mirror s)
    (mkStatus cs (st_TotalImages st) (st_MirroredImages st) (st_PendingImages st) (st_FailedImages st)
       (st_FailedImageDetails st) (st_ObservedGeneration st) (st_LastSuccessfulPollTime st)).

(** [r.Update]: the status is a subresource and stays. *)
Definition is_update (s : ImageSet) : GATE unit := gate_call (λ w,
  match w_is w with
  | Some cur => (inr tt, mkWorld (w_cluster w) (w_jobs w) (Some (with_annotations (is_Annotations s) cur)))
  | None => (inl ErrNotFound, w)
  end).
(** [r.Status().Update] *)
Definition is_status_update (s : ImageSet) : GATE unit := gate_call (λ w,
  match w_is w with
  | Some cur => (inr tt, mkWorld (w_cluster w) (w_jobs w)
      (Some (mkImageSet (is_Name cur) (is_Annotations cur) (is_Generation cur) (is_Mirror cur) (is_Status s))))
  | None => (inl ErrNotFound, w)
  end).

(** ** Build Jobs (job.go) *)

Inductive JobPhase := JobPhasePending | JobPhaseRunning | JobPhaseSucceeded | JobPhaseFailed | JobPhaseNotFound.
#[export] Instance JobPhase_eq_dec : EqDecision JobPhase.
Proof. solve_decision. Defined.

Definition job_phase (j : BuildJob) : JobPhase :=
  if (0 <? bj_Succeeded j)%Z then JobPhaseSucceeded
  else if (0 <? bj_Active j)%Z then JobPhaseRunning
  else if (0 <? bj_Failed j)%Z then JobPhaseFailed
  else JobPhasePending.

Definition GetBuildJobStatus (name : string) : GATE JobPhase :=
  r ← attempt (build_get name);
  match r with
  | inl ErrNotFound => mret JobPhaseNotFound
  | inl e => fail e
  | inr j => mret (job_phase j)
  end.

Definition DeleteBuildJob (name : string) : GATE unit :=
  r ← attempt (build_get name);
  match r with
  | inl ErrNotFound => mret tt
  | inl e => fail e
  | inr _ => build_delete name
  end.

(** The references regclient parses. *)
Class RegRef := {
  regref : Type;
  ref_New : string → option regref;
  SetDigest : string → regref → regref;
  CommonName : regref → string;
}.

(** ** Snapshots *)

Record mirrorSnapshot := mkSnapshot {
  sn_complete : bool; sn_knowState : bool; sn_pending : Z; sn_digests : gmap string string;
}.

Definition no_snapshot : mirrorSnapshot := mkSnapshot false false 0 ∅.

(** What the loop over the state collects. *)
Record scan := mkScan { sc_pending : Z; sc_hasOperator : bool; sc_legacy : bool; sc_sigs : gmap string bool }.

Definition scan_entry (oe : option ImageEntry) (s : scan) : scan :=
  match oe with
  | None => s
  | Some e =>
    let pending := if negb (String.eqb (State e) "Mirrored") && negb (PermanentlyFailed e) then (sc_pending s + 1)%Z else sc_pending s in
    if negb (String.eqb (Origin e) OriginOperator) then mkScan pending (sc_hasOperator s) (sc_legacy s) (sc_sigs s)
    else if String.eqb (EntrySig e) "" then mkScan pending true true (sc_sigs s)
    else match sc_sigs s !! EntrySig e with
         | Some _ => mkScan pending true (sc_legacy s) (<[EntrySig e := true]> (sc_sigs s))
         | None => mkScan pending true (sc_legacy s) (sc_sigs s)
         end
  end.

Section gate.
Context `{Hash : HashJSON} `{Sha : Sha256} `{RR : RegRef} (rfc3339 : Z → string) (err_text : apiErr → string)
  (operatorImage : string).

Definition PinDigest (catalogImage digest : string) : option string :=
  parsed ← ref_New catalogImage; Some (CommonName (SetDigest digest parsed)).

(** The operator entries with a catalog. *)
Definition catalogs_of (s : ImageSet) : list Operator :=
  List.filter (λ op, negb (String.eqb (op_Catalog op) "")) (mi_Operators (is_Mirror s)).

Definition expectedSigs (s : ImageSet) : gmap string bool :=
  foldl (λ m op, <[OperatorEntrySignature op := false]> m) ∅ (catalogs_of s).

Definition snapshot_of (s : ImageSet) (state : gmap string (option ImageEntry)) (digests : gmap string string) : mirrorSnapshot :=
  if decide (state = ∅) then no_snapshot
  else
    let sc := map_fold (λ _, scan_entry) (mkScan 0 false false (expectedSigs s)) state in
    let incomplete := mkSnapshot false true (sc_pending sc) digests in
    if (0 <? sc_pending sc)%Z || negb (sc_hasOperator sc) then incomplete
    else if negb (st_ObservedGeneration (is_Status s) =? is_Generation s)%Z then incomplete
    else if negb (sc_legacy sc) && bool_decide (false ∈ (map_to_list (sc_sigs sc)).*2) then incomplete
    else mkSnapshot true true (sc_pending sc) digests.

Definition loadMirrorSnapshot (s : ImageSet) : GATE mirrorSnapshot :=
  r ← attempt (gate_lift (LoadWithCatalogDigests (is_Name s)));
  mret (match r with inl _ => no_snapshot | inr (state, digests) => snapshot_of s state digests end).

(** The digest recorded for an entry. *)
Definition entry_digest (digests : gmap string string) (op : Operator) : option string :=
  ParseOperatorCacheDigest (default "" (digests !! CatalogDigestAnnotationKey (OperatorEntrySignature op))).

Fixpoint fingerprint_parts (digests : gmap string string) (ops : list Operator) : option (list string) :=
  match ops with
  | [] => Some []
  | op :: ops =>
    if String.eqb (op_Catalog op) "" then fingerprint_parts digests ops
    else
      digest ← entry_digest digests op;
      parts ← fingerprint_parts digests ops;
      Some ((CatalogDigestAnnotationKey (OperatorEntrySignature op) +:+ "=" +:+ digest) :: parts)
  end.

Definition catalogDigestsFingerprint (digests : gmap string string) (operators : list Operator) : string :=
  match fingerprint_parts digests operators with
  | None | Some [] => ""
  | Some parts => sha256_hex (Join (sort_strings parts) newline)
  end.

Definition pinnedCatalogRef (digests : gmap string string) (op : Operator) : option string :=
  digest ← entry_digest digests op; PinDigest (op_Catalog op) digest.

(** ** Conditions *)

Definition conditionCatalogReady : string := "CatalogReady".
Definition reasonWaitingForOperatorMirror : string := "WaitingForOperatorMirror".
Definition reasonUnbound : string := "Unbound".
Definition conditionTypeReady : string := "Ready".

Definition set_catalog_condition (now : Z) (status reason message : string) (s : ImageSet) : ImageSet :=
  with_conditions (setCondition now conditionCatalogReady status reason message (is_Generation s) (st_Conditions (is_Status s))) s.

Definition deferCatalogBuild (now : Z) (s : ImageSet) (snap : mirrorSnapshot) (verb : string) : GATE unit :=
  let msg :=
    if negb (sn_knowState snap) then
      "waiting for the manager to resolve and mirror the ImageSet before " +:+ verb +:+ " the filtered catalog"
    else if (0 <? sn_pending snap)%Z then
      "waiting for all images of the ImageSet to be mirrored (" +:+ Itoa (sn_pending snap) +:+ " pending) before " +:+ verb
      +:+ " the filtered catalog"
    else "waiting for the manager to resolve the current spec before " +:+ verb +:+ " the filtered catalog" in
  is_status_update (set_catalog_condition now "False" reasonWaitingForOperatorMirror msg s).

(** ** Rebuild triggers *)

Definition catalogBuildSigAnnotation : string := "mirror.openshift.io/catalog-build-sig".
Definition catalogBuildDigestsAnnotation : string := "mirror.openshift.io/catalog-build-digests".
Definition catalogRecollectSigAnnotation : string := "mirror.openshift.io/catalog-build-recollect-sig".
Definition catalogPollSigAnnotation : string := "mirror.openshift.io/catalog-build-poll-sig".

(** [annotations[key]] *)
Definition anno (a : gmap string string) (key : string) : string := default "" (a !! key).

(** What a decision compares with the record of the last build: the build
    signature, the fingerprint of the resolved digests, the marker of the last
    honored recollect and that of the last poll. *)
Record build_inputs := mkInputs { in_sig : string; in_fp : string; in_recollect : string; in_poll : string }.

Definition recollectForcesRebuild (i : build_inputs) (a : gmap string string) : bool :=
  negb (String.eqb (in_recollect i) "") && negb (String.eqb (in_recollect i) (anno a catalogRecollectSigAnnotation)).
Definition sigChanged (i : build_inputs) (a : gmap string string) : bool :=
  negb (String.eqb (anno a catalogBuildSigAnnotation) "") && negb (String.eqb (anno a catalogBuildSigAnnotation) (in_sig i)).
Definition contentChanged (i : build_inputs) (alreadyBuilt : bool) (a : gmap string string) : bool :=
  let lastDigests := anno a catalogBuildDigestsAnnotation in
  negb (String.eqb (in_fp i) "") && negb (String.eqb lastDigests (in_fp i)) && (negb (String.eqb lastDigests "") || alreadyBuilt).

(** [catalogNeedsRebuild] before the poll interval is considered. *)
Definition inputs_changed (i : build_inputs) (alreadyBuilt : bool) (a : gmap string string) : bool :=
  recollectForcesRebuild i a || sigChanged i a || contentChanged i alreadyBuilt a.
Definition pollForcesRebuild (i : build_inputs) (alreadyBuilt pollExpired anyActive : bool) (a : gmap string string) : bool :=
  pollExpired && negb (inputs_changed i alreadyBuilt a) && negb (String.eqb (in_poll i) (anno a catalogPollSigAnnotation))
  && negb anyActive.
Definition catalogNeedsRebuild (i : build_inputs) (alreadyBuilt pollExpired anyActive : bool) (a : gmap string string) : bool :=
  inputs_changed i alreadyBuilt a || pollForcesRebuild i alreadyBuilt pollExpired anyActive a.

(** Whether the annotations are written, and what they become. *)
Definition records (i : build_inputs) (alreadyBuilt pollExpired anyActive : bool) (a : gmap string string) : bool :=
  catalogNeedsRebuild i alreadyBuilt pollExpired anyActive a
  || negb (String.eqb (anno a catalogBuildSigAnnotation) (in_sig i))
  || (negb (String.eqb (in_fp i) "") && negb (String.eqb (anno a catalogBuildDigestsAnnotation) (in_fp i))).
Definition record_build (i : build_inputs) (alreadyBuilt pollExpired anyActive : bool) (a : gmap string string)
    : gmap string string :=
  let a1 := <[catalogBuildSigAnnotation := in_sig i]> a in
  let a2 := if String.eqb (in_fp i) "" then a1 else <[catalogBuildDigestsAnnotation := in_fp i]> a1 in
  let a3 := if recollectForcesRebuild i a then <[catalogRecollectSigAnnotation := in_recollect i]> a2 else a2 in
  if pollForcesRebuild i alreadyBuilt pollExpired anyActive a then <[catalogPollSigAnnotation := in_poll i]> a3 else a3.

(** ** The reconciler *)

(** The phase of every configured catalog, and whether a Job is active or
    exists at all. *)
Fixpoint load_phases (name : string) (ops : list Operator) (acc : gmap string JobPhase * bool * bool)
    : GATE (gmap string JobPhase * bool * bool) :=
  match ops with
  | [] => mret acc
  | op :: ops =>
    if String.eqb (op_Catalog op) "" then load_phases name ops acc
    else
      phase ← GetBuildJobStatus (JobName name (op_Catalog op));
      let '(phases, anyActive, anyJob) := acc in
      load_phases name ops
        (<[op_Catalog op := phase]> phases,
         anyActive || bool_decide (phase = JobPhasePending) || bool_decide (phase = JobPhaseRunning),
         anyJob || negb (bool_decide (phase = JobPhaseNotFound)))
  end.

Definition op_packages (op : Operator) : list IncludePackage := if op_Full op then [] else op_Packages op.

(** The Job for [op], as it is created. *)
Definition new_job (mt : MirrorTarget) (op : Operator) (pullCatalog : string) : BuildJob :=
  mkBuildJob pullCatalog (CatalogTargetImage (mt_Registry mt) op) (op_packages op) 0 0 0.

Definition EnsureCatalogBuildJob (s : ImageSet) (mt : MirrorTarget) (op : Operator) (pullCatalog : string) : GATE unit :=
  let name := JobName (is_Name s) (op_Catalog op) in
  r ← attempt (build_get name);
  match r with
  | inr _ => mret tt
  | inl ErrNotFound => build_create name (new_job mt op pullCatalog)
  | inl e => fail e
  end.

(** The loop over the catalogs; [None]: the build was put off and the function
    has returned. *)
Fixpoint build_loop (now : Z) (s : ImageSet) (mt : MirrorTarget) (snap : mirrorSnapshot) (phases : gmap string JobPhase)
    (needsRebuild alreadyReady : bool) (ops : list Operator) (acc : bool * bool) : GATE (option (bool * bool)) :=
  match ops with
  | [] => mret (Some acc)
  | op :: ops =>
    let continue := build_loop now s mt snap phases needsRebuild alreadyReady ops in
    if String.eqb (op_Catalog op) "" then continue acc
    else
      let '(allSucceeded, anyFailed) := acc in
      let jobName := JobName (is_Name s) (op_Catalog op) in
      let phase := default JobPhaseNotFound (phases !! op_Catalog op) in
      let stale := needsRebuild && (bool_decide (phase = JobPhaseSucceeded) || bool_decide (phase = JobPhaseFailed)) in
      _ ← (if stale then ignore (DeleteBuildJob jobName) else mret tt);
      let phase := if stale then JobPhaseNotFound else phase in
      if bool_decide (phase = JobPhaseNotFound) && alreadyReady then continue acc
      else
        let report phase :=
          match phase with
          | JobPhaseSucceeded => continue (allSucceeded, anyFailed)
          | JobPhaseFailed => continue (false, true)
          | _ => continue (false, anyFailed)
          end in
        if bool_decide (phase = JobPhaseNotFound) then
          if negb (sn_complete snap) then _ ← deferCatalogBuild now s snap "building"; mret None
          else
            match pinnedCatalogRef (sn_digests snap) op with
            | None =>
              _ ← is_status_update (set_catalog_condition now "False" reasonWaitingForOperatorMirror
                    "waiting for the manager to record a resolved catalog digest before building the filtered catalog" s);
              mret None
            | Some pullCatalog =>
              _ ← EnsureCatalogBuildJob s mt op pullCatalog;
              phase ← GetBuildJobStatus jobName;
              report phase
            end
        else report phase
  end.

(** [RetryOnConflict] with five attempts; [conflicts k]: the k-th update loses
    a resourceVersion race. *)
Fixpoint report_ready (now : Z) (conflicts : nat → bool) (k n : nat) : GATE unit :=
  fresh ← is_get;
  let fresh := set_catalog_condition now "True" "CatalogBuildSucceeded" "all catalog images built successfully" fresh in
  if conflicts k then
    match n with
    | O => fail ErrOther
    | S n => report_ready now conflicts (S k) n
    end
  else is_status_update fresh.

(** The condition after the loop. *)
Definition report_phases (now : Z) (conflicts : nat → bool) (s : ImageSet) (r : option (bool * bool)) : GATE unit :=
  match r with
  | None => mret tt
  | Some (allSucceeded, anyFailed) =>
    if anyFailed then
      is_status_update (set_catalog_condition now "False" "CatalogBuildFailed" "one or more catalog build jobs failed" s)
    else if allSucceeded then report_ready now conflicts 0 4
    else is_status_update (set_catalog_condition now "False" "CatalogBuildRunning" "catalog build jobs are still running" s)
  end.

Definition alreadyBuilt (s : ImageSet) : bool :=
  existsb (λ c, String.eqb (cond_Type c) conditionCatalogReady && String.eqb (cond_Status c) "True") (st_Conditions (is_Status s)).

Definition inputs_of (s : ImageSet) (snap : mirrorSnapshot) : build_inputs :=
  mkInputs (BuildSignature operatorImage (mi_Operators (is_Mirror s)))
    (catalogDigestsFingerprint (sn_digests snap) (mi_Operators (is_Mirror s)))
    (anno (is_Annotations s) RecollectHonoredAnnotation)
    (match st_LastSuccessfulPollTime (is_Status s) with Some t => rfc3339 t | None => "" end).

Definition reconcileCatalogBuildJobs (now : Z) (conflicts : nat → bool) (s : ImageSet) (mt : MirrorTarget) (pollExpired : bool)
    : GATE unit :=
  let operators := mi_Operators (is_Mirror s) in
  if decide (operators = []) then mret tt
  else
    snap ← loadMirrorSnapshot s;
    let built := alreadyBuilt s in
    ph ← load_phases (is_Name s) operators (∅, false, false);
    let '(phases, anyActive, anyJob) := ph in
    if negb (sn_complete snap) && negb built && negb anyJob then deferCatalogBuild now s snap "building"
    else
      let i := inputs_of s snap in
      let a := is_Annotations s in
      let needsRebuild := catalogNeedsRebuild i built pollExpired anyActive a in
      if needsRebuild && negb (sn_complete snap) then deferCatalogBuild now s snap "rebuilding"
      else if needsRebuild && anyActive then
        is_status_update (set_catalog_condition now "False" "CatalogBuildRunning"
          "a catalog build job is still running; the rebuild starts once it has finished" s)
      else
        let record := sn_complete snap && records i built pollExpired anyActive a in
        let s := if record then with_annotations (record_build i built pollExpired anyActive a) s else s in
        _ ← (if record then is_update s else mret tt);
        r ← build_loop now s mt snap phases needsRebuild (built && negb needsRebuild) operators (true, false);
        report_phases now conflicts s r.

(** [Unbound]: no target, or more than one; [Bound]: the only one. *)
Inductive binding := Bound (mt : MirrorTarget) | Unbound (reason : string).

Definition findOwningMirrorTarget (targets : option (list MirrorTarget)) (s : ImageSet) : binding :=
  match targets with
  | None => Unbound "failed to list MirrorTargets"
  | Some items =>
    match List.filter (λ mt, existsb (String.eqb (is_Name s)) (mt_ImageSets mt)) items with
    | [] => Unbound ("no MirrorTarget references ImageSet " +:+ is_Name s)
    | [mt] => Bound mt
    | mts => Unbound ("ImageSet " +:+ is_Name s +:+ " is referenced by multiple MirrorTargets ("
               +:+ Join (map mt_Name mts) ", " +:+ "); each ImageSet may only be in one MirrorTarget")
    end
  end.

Definition poll_minute : Z := 60 * second_ns.
Definition pollInterval (mt : MirrorTarget) : Z :=
  match mt_PollInterval mt with
  | Some d => if (0 <? d)%Z then (if (d <? 10 * poll_minute)%Z then 10 * poll_minute else d)%Z else (24 * 60 * poll_minute)%Z
  | None => (24 * 60 * poll_minute)%Z
  end.
Definition pollingEnabled (mt : MirrorTarget) : bool := match mt_PollInterval mt with None => true | Some d => (0 <? d)%Z end.
Definition pollExpired (now : Z) (mt : MirrorTarget) (s : ImageSet) : bool :=
  match st_LastSuccessfulPollTime (is_Status s) with
  | Some t => pollingEnabled mt && (pollInterval mt <=? now - t)%Z
  | None => false
  end.

(** The result is the requeue delay, if one is asked for. *)
Definition Reconcile (now : Z) (conflicts : nat → bool) (targets : option (list MirrorTarget)) : GATE (option Z) :=
  r ← attempt is_get;
  match r with
  | inl ErrNotFound => mret None
  | inl e => fail e
  | inr s =>
    match findOwningMirrorTarget targets s with
    | Unbound reason =>
      _ ← ignore (is_status_update (with_conditions
            (setCondition now conditionTypeReady "False" reasonUnbound reason (is_Generation s) (st_Conditions (is_Status s))) s));
      mret (Some poll_minute)
    | Bound mt =>
      let stale := match List.find (λ c, String.eqb (cond_Type c) conditionTypeReady) (st_Conditions (is_Status s)) with
                   | Some c => String.eqb (cond_Reason c) reasonUnbound
                   | None => false
                   end in
      let s := if stale then with_conditions (setCondition now conditionTypeReady "False" "Resolving"
                 ("bound to MirrorTarget " +:+ mt_Name mt +:+ "; waiting for its manager to resolve the images")
                 (is_Generation s) (st_Conditions (is_Status s))) s else s in
      _ ← (if stale then is_status_update s else mret tt);
      r ← attempt (reconcileCatalogBuildJobs now conflicts s mt (pollExpired now mt s));
      match r with
      | inl e =>
        _ ← ignore (is_status_update (set_catalog_condition now "False" "CatalogBuildFailed" (err_text e) s));
        mret (Some (30 * second_ns)%Z)
      | inr _ => mret (if pollingEnabled mt then Some (pollInterval mt) else None)
      end
    end
  end.
End gate.

(** ** Wake-ups *)

(** [imageStateConfigMapToRequests]: the ImageSets to reconcile when the
    ConfigMap [name] changes; [sets] and [targets] look objects up by name. *)
Definition imageStateConfigMapToRequests (sets : string → option ImageSet) (targets : string → option MirrorTarget) (name : string)
    : list string :=
  if negb (HasSuffix name "-images") then []
  else
    let owner := TrimSuffix name "-images" in
    match sets owner with
    | Some _ => [owner]
    | None => match targets owner with Some mt => mt_ImageSets mt | None => [] end
    end.

(** * Lemmas *)

(** ** Calls *)

Section calls.
Context {X : Type} (obs : World → X).
Hypothesis obs_faults : ∀ fs w, obs (with_faults fs w) = obs w.

Lemma gate_call_quiet {A} (f : World → (apiErr + A) * World) : (∀ w, obs (snd (f w)) = obs w) → quiet obs (gate_call f).
Proof.
  intros Hf w. unfold gate_call. destruct (cl_faults (w_cluster w)) as [|[] fs]; cbn; [|apply obs_faults|];
    by rewrite Hf, obs_faults.
Qed.
End calls.

Lemma jobs_quiet_call {A} (f : World → (apiErr + A) * World) :
  (∀ w, w_jobs (snd (f w)) = w_jobs w) → quiet w_jobs (gate_call f).
Proof. by apply gate_call_quiet. Qed.

Lemma build_get_quiet n : quiet w_jobs (build_get n).
Proof. apply jobs_quiet_call. intros w. cbn. by destruct (w_jobs w !! n). Qed.
Lemma is_get_quiet : quiet w_jobs is_get.
Proof. apply jobs_quiet_call. intros w. cbn. by destruct (w_is w). Qed.
Lemma is_update_quiet s : quiet w_jobs (is_update s).
Proof. apply jobs_quiet_call. intros w. cbn. by destruct (w_is w). Qed.
Lemma is_status_update_quiet s : quiet w_jobs (is_status_update s).
Proof. apply jobs_quiet_call. intros w. cbn. by destruct (w_is w). Qed.
Lemma gate_lift_quiet {A} (m : API A) : quiet w_jobs (gate_lift m).
Proof. intros w. unfold gate_lift. by destruct (m (w_cluster w)). Qed.

#[export] Hint Resolve build_get_quiet is_get_quiet is_update_quiet is_status_update_quiet gate_lift_quiet : oc.

Lemma GetBuildJobStatus_quiet n : quiet w_jobs (GetBuildJobStatus n).
Proof. unfold GetBuildJobStatus. apply quiet_bind; [auto with oc|]. intros [[]|]; auto with oc. Qed.
#[export] Hint Resolve GetBuildJobStatus_quiet : oc.

(** What a read of a Job returns. *)
Lemma build_get_cases n w :
  fst (build_get n w) = inl ErrOther ∨
  fst (build_get n w) = match w_jobs w !! n with Some j => inr j | None => inl ErrNotFound end.
Proof. unfold build_get, gate_call. destruct (cl_faults (w_cluster w)) as [|[] fs]; cbn; auto. Qed.

(** The phase [ph] is that of the Job named [j]. *)
Definition phase_in (jobs : gmap string BuildJob) (j : string) (ph : JobPhase) : Prop :=
  ph = match jobs !! j with Some b => job_phase b | None => JobPhaseNotFound end.

Lemma GetBuildJobStatus_phase n w ph : fst (GetBuildJobStatus n w) = inr ph → phase_in (w_jobs w) n ph.
Proof.
  unfold GetBuildJobStatus, phase_in. rewrite attempt_bind.
  destruct (build_get_cases n w) as [E|E]; rewrite E; [done|]. destruct (w_jobs w !! n); by intros [= <-].
Qed.

(** ** Which Jobs a run may touch *)

Definition terminal (b : BuildJob) : Prop := job_phase b = JobPhaseSucceeded ∨ job_phase b = JobPhaseFailed.

Section safety.
Context `{Hash : HashJSON} `{Sha : Sha256} `{RR : RegRef} (rfc3339 : Z → string) (operatorImage : string).
Context (s : ImageSet) (mt : MirrorTarget) (jobs0 : gmap string BuildJob).

(** A Job of the current spec, built from the digest recorded in [digests]. *)
Definition job_from (digests : gmap string string) (j : string) (b : BuildJob) : Prop :=
  ∃ op pull, op ∈ catalogs_of s ∧ j = JobName (is_Name s) (op_Catalog op) ∧
    pinnedCatalogRef digests op = Some pull ∧ b = new_job mt op pull.

(** What a run may have done so far: Jobs that were absent or terminal are
    gone or replaced by Jobs of the spec. *)
Definition jobs_inv (digests : gmap string string) (jobs : gmap string BuildJob) : Prop :=
  ∀ j, jobs !! j = jobs0 !! j ∨
    ((∀ old, jobs0 !! j = Some old → terminal old) ∧ ∀ b, jobs !! j = Some b → job_from digests j b).

Definition phases_ok (phases : gmap string JobPhase) : Prop :=
  ∀ cat ph, phases !! cat = Some ph → phase_in jobs0 (JobName (is_Name s) cat) ph.

Lemma load_phases_quiet name ops acc : quiet w_jobs (load_phases name ops acc).
Proof.
  revert acc. induction ops as [|op ops IH]; intros acc; cbn; [auto with oc|].
  destruct (String.eqb _ _); [auto|]. apply quiet_bind; [auto with oc|]. intros ph. by destruct acc as [[? ?] ?].
Qed.

Lemma load_phases_ok ops acc w phases act any :
  w_jobs w = jobs0 → phases_ok (fst (fst acc)) →
  fst (load_phases (is_Name s) ops acc w) = inr (phases, act, any) → phases_ok phases.
Proof.
  revert acc w. induction ops as [|op ops IH]; intros acc w Hw Hacc; cbn.
  { by intros [= ->]. }
  destruct (String.eqb _ _); [by apply IH|]. rewrite bind_eq.
  destruct (fst (GetBuildJobStatus _ w)) as [e|ph] eqn:E; [done|]. destruct acc as [[p a] b]. apply IH.
  - by rewrite GetBuildJobStatus_quiet.
  - cbn in *. intros cat ph' [[<- <-]|[_ H]]%lookup_insert_Some; [|eauto].
    rewrite <- Hw. by apply GetBuildJobStatus_phase in E.
Qed.

Lemma deferCatalogBuild_quiet now snap verb : quiet w_jobs (deferCatalogBuild now s snap verb).
Proof. apply is_status_update_quiet. Qed.

Lemma report_ready_quiet now conflicts k n : quiet w_jobs (report_ready now conflicts k n).
Proof.
  revert k. induction n as [|n IH]; intros k; cbn; (apply quiet_bind; [auto with oc|]); intros fresh;
    destruct (conflicts k); auto with oc.
Qed.

Lemma report_phases_quiet now conflicts r : quiet w_jobs (report_phases now conflicts s r).
Proof.
  destruct r as [[a b]|]; unfold report_phases; [|auto with oc].
  destruct b; [auto with oc|]. destruct a; [apply report_ready_quiet|auto with oc].
Qed.

(** Removing the terminal Job of a catalog. *)
Lemma DeleteBuildJob_keeps digests cat ph :
  phase_in jobs0 (JobName (is_Name s) cat) ph → ph = JobPhaseSucceeded ∨ ph = JobPhaseFailed →
  keeps w_jobs (jobs_inv digests) (DeleteBuildJob (JobName (is_Name s) cat)).
Proof.
  intros Hin Hph. unfold DeleteBuildJob. apply keeps_bind; [auto with oc|]. intros [[]|]; try auto with oc.
  intros w HI. unfold build_delete, gate_call.
  assert (Hdel : jobs_inv digests (delete (JobName (is_Name s) cat) (w_jobs w))).
  { intros j. destruct (decide (j = JobName (is_Name s) cat)) as [->|Hne].
    - right. split; [|intros ?; by rewrite lookup_delete_eq].
      intros old Hold. unfold phase_in in Hin. rewrite Hold in Hin. unfold terminal. by rewrite <- Hin.
    - rewrite lookup_delete_ne by done. apply HI. }
  destruct (cl_faults (w_cluster w)) as [|[] fs]; cbn; [|done|]; destruct (w_jobs w !! _); done.
Qed.

(** Creating the Job of a catalog. *)
Lemma EnsureCatalogBuildJob_keeps digests op pull :
  op ∈ catalogs_of s → pinnedCatalogRef digests op = Some pull →
  keeps w_jobs (jobs_inv digests) (EnsureCatalogBuildJob s mt op pull).
Proof.
  intros Hop Hpull. unfold EnsureCatalogBuildJob. apply keeps_bind; [auto with oc|]. intros [[]|]; try auto with oc.
  intros w HI. unfold build_create, gate_call. set (name := JobName (is_Name s) (op_Catalog op)).
  assert (Hins : w_jobs w !! name = None → jobs_inv digests (<[name := new_job mt op pull]> (w_jobs w))).
  { intros Hn j. destruct (decide (j = name)) as [->|Hne].
    - right. split.
      + intros old Hold. destruct (HI name) as [E|[Ht _]]; [|eauto]. congruence.
      + intros b. rewrite lookup_insert_eq. intros [= <-]. by exists op, pull.
    - rewrite lookup_insert_ne by done. apply HI. }
  destruct (cl_faults (w_cluster w)) as [|[] fs]; cbn; [|done|]; destruct (w_jobs w !! name) eqn:E; auto.
Qed.

Lemma build_loop_keeps now snap phases needsRebuild alreadyReady ops acc :
  (∀ op, op ∈ ops → op ∈ mi_Operators (is_Mirror s)) → phases_ok phases →
  keeps w_jobs (jobs_inv (sn_digests snap)) (build_loop now s mt snap phases needsRebuild alreadyReady ops acc).
Proof.
  intros Hops Hph. revert acc. induction ops as [|op ops IH]; intros acc; cbn; [auto with oc|].
  assert (IH' : ∀ acc, keeps w_jobs (jobs_inv (sn_digests snap)) (build_loop now s mt snap phases needsRebuild alreadyReady ops acc))
    by (apply IH; intros ? ?; apply Hops; by right).
  destruct (String.eqb (op_Catalog op) "") eqn:Ec; [done|]. destruct acc as [allS anyF].
  apply keeps_bind.
  { destruct (needsRebuild && _) eqn:Es; [|auto with oc]. apply andb_true_iff in Es as [_ Es].
    destruct (phases !! op_Catalog op) as [ph|] eqn:Ep; [|done]. cbn in Es.
    apply keeps_ignore, (DeleteBuildJob_keeps _ _ ph); [by apply Hph|].
    apply orb_true_iff in Es as [H|H]; apply bool_decide_eq_true_1 in H; auto. }
  intros _. destruct (bool_decide _ && alreadyReady); [done|].
  assert (Hreport : ∀ ph, keeps w_jobs (jobs_inv (sn_digests snap))
    (match ph with
     | JobPhaseSucceeded => build_loop now s mt snap phases needsRebuild alreadyReady ops (allS, anyF)
     | JobPhaseFailed => build_loop now s mt snap phases needsRebuild alreadyReady ops (false, true)
     | _ => build_loop now s mt snap phases needsRebuild alreadyReady ops (false, anyF)
     end)) by (by intros []).
  destruct (bool_decide _); [|apply Hreport].
  assert (Hput : ∀ s', keeps w_jobs (jobs_inv (sn_digests snap)) (_ ← is_status_update s'; mret (None : option (bool * bool))))
    by (intros; apply keeps_quiet, quiet_bind; auto with oc).
  destruct (negb (sn_complete snap)); [apply Hput|].
  destruct (pinnedCatalogRef (sn_digests snap) op) as [pull|] eqn:Ep; [|apply Hput].
  apply keeps_bind; [apply EnsureCatalogBuildJob_keeps; [|done]|].
  { unfold catalogs_of. rewrite elem_of_filter_bool. split; [by rewrite Ec|apply Hops; by left]. }
  intros _. apply keeps_bind; [auto with oc|done].
Qed.

(** Without a complete snapshot the loop changes no Job. *)
Lemma build_loop_incomplete now snap phases alreadyReady ops acc :
  sn_complete snap = false → quiet w_jobs (build_loop now s mt snap phases false alreadyReady ops acc).
Proof.
  intros Hc. revert acc. induction ops as [|op ops IH]; intros acc; cbn; [auto with oc|].
  destruct (String.eqb _ _); [done|]. destruct acc as [allS anyF]. apply quiet_bind; [auto with oc|]. intros _.
  destruct (bool_decide _ && alreadyReady); [done|].
  destruct (bool_decide _); [|by destruct (default _ _)]. rewrite Hc. apply quiet_bind; [apply is_status_update_quiet|auto with oc].
Qed.
End safety.

(** ** Complete snapshots *)

Definition settled (e : ImageEntry) : Prop := State e = "Mirrored" ∨ PermanentlyFailed e = true.

(** The entries of a state, nil entries aside. *)
Definition has_entry (st : gmap string (option ImageEntry)) (e : ImageEntry) : Prop := ∃ d, st !! d = Some (Some e).

Section scanning.
Context (D : gset string).

Definition scan_inv (sc : scan) : Prop := (0 ≤ sc_pending sc)%Z ∧ dom (sc_sigs sc) = D.

Lemma scan_entry_inv oe sc : scan_inv sc → scan_inv (scan_entry oe sc).
Proof.
  intros [H1 H2]. destruct oe as [e|]; [|done]. unfold scan_entry, scan_inv.
  split; [destruct (sc_sigs sc !! EntrySig e); split_ifs; cbn; lia|].
  destruct (sc_sigs sc !! EntrySig e) eqn:E; split_ifs; cbn; rewrite ?dom_insert_lookup_L; done.
Qed.

(** A flag that an entry raises or leaves alone ends up raised if some entry
    raises it. *)
Lemma scan_flag (p : scan → bool) (b : ImageEntry → bool) :
  (∀ sc, p (scan_entry None sc) = p sc) → (∀ e sc, scan_inv sc → p (scan_entry (Some e) sc) = p sc || b e) →
  ∀ st init, scan_inv init →
    scan_inv (map_fold (λ _, scan_entry) init st) ∧
    (p (map_fold (λ _, scan_entry) init st) = true ↔ p init = true ∨ ∃ e, has_entry st e ∧ b e = true).
Proof.
  intros Hn Hb st init Hi. unfold has_entry. induction st as [|d oe st Hd Hf [IH1 IH2]] using map_first_key_ind.
  { rewrite map_fold_empty. split; [done|]. setoid_rewrite lookup_empty. naive_solver. }
  rewrite map_fold_insert_first_key by done. split; [by apply scan_entry_inv|].
  assert (Hst : ∀ e, (∃ d', <[d := oe]> st !! d' = Some (Some e)) ↔ oe = Some e ∨ ∃ d', st !! d' = Some (Some e)).
  { intros e. split; [intros (d' & [[<- ->]|[? ?]]%lookup_insert_Some); eauto|].
    intros [->|[d' H]]; [exists d; by rewrite lookup_insert_eq|]. exists d'. rewrite lookup_insert_ne; [done|].
    intros ->. by rewrite Hd in H. }
  setoid_rewrite Hst. clear Hst Hf. destruct oe as [e|]; [rewrite (Hb e _ IH1), orb_true_iff, IH2|rewrite Hn, IH2]; clear; split.
  - intros [[?|(e' & ? & ?)]|?]; eauto.
  - intros [?|(e' & [[= <-]|?] & ?)]; eauto.
  - intros [?|(e' & ? & ?)]; eauto.
  - intros [?|(e' & [?|?] & ?)]; [auto|discriminate|eauto].
Qed.
End scanning.

Definition unsettled_b (e : ImageEntry) : bool := negb (String.eqb (State e) "Mirrored") && negb (PermanentlyFailed e).
Definition operator_b (e : ImageEntry) : bool := String.eqb (Origin e) OriginOperator.

Ltac scan_cases e sc :=
  unfold scan_entry, unsettled_b, operator_b;
  destruct (negb (String.eqb (State e) "Mirrored") && negb (PermanentlyFailed e)),
    (String.eqb_spec (Origin e) OriginOperator), (String.eqb_spec (EntrySig e) ""), (sc_sigs sc !! EntrySig e) eqn:?; cbn.

Lemma scan_sig e sc sg :
  is_Some (sc_sigs sc !! sg) →
  default false (sc_sigs (scan_entry (Some e) sc) !! sg) =
  default false (sc_sigs sc !! sg) || (operator_b e && String.eqb (EntrySig e) sg && negb (String.eqb sg "")).
Proof.
  intros [b Hb]. unfold scan_entry, operator_b.
  destruct (String.eqb (Origin e) OriginOperator); cbn [negb andb]; [|by rewrite orb_false_r].
  destruct (String.eqb_spec (EntrySig e) "") as [E|E].
  - cbn. destruct (String.eqb_spec (EntrySig e) sg) as [<-|]; [rewrite E|]; by rewrite orb_false_r.
  - destruct (String.eqb_spec (EntrySig e) sg) as [<-|Hne].
    + rewrite Hb. cbn. by rewrite lookup_insert_eq, (proj2 (String.eqb_neq _ _) E), orb_true_r.
    + cbn. rewrite orb_false_r. destruct (sc_sigs sc !! EntrySig e); cbn; [by rewrite lookup_insert_ne|done].
Qed.

Lemma unsettled_spec e : unsettled_b e = false ↔ settled e.
Proof.
  unfold unsettled_b, settled. rewrite andb_false_iff, !negb_false_iff, String.eqb_eq. done.
Qed.

Section completeness.
Context `{Hash : HashJSON}.

(** When a catalog may be built: there is state, nothing is pending, some image
    comes from an operator, the current generation has been resolved, and every
    operator entry of the spec has an image resolved for it (states written
    before entry signatures existed are taken as a whole). *)
Definition complete_state (s : ImageSet) (st : gmap string (option ImageEntry)) : Prop :=
  (∀ e, has_entry st e → settled e) ∧ (∃ e, has_entry st e ∧ Origin e = OriginOperator) ∧
  st_ObservedGeneration (is_Status s) = is_Generation s ∧
  ((∃ e, has_entry st e ∧ Origin e = OriginOperator ∧ EntrySig e = "") ∨
   ∀ op, op ∈ catalogs_of s → ∃ e, has_entry st e ∧ Origin e = OriginOperator ∧ EntrySig e = OperatorEntrySignature op).

Lemma expectedSigs_lookup s sg b :
  expectedSigs s !! sg = Some b → b = false ∧ ∃ op, op ∈ catalogs_of s ∧ OperatorEntrySignature op = sg.
Proof.
  unfold expectedSigs. revert sg b.
  apply (foldl_inv (λ seen m, ∀ sg b, m !! sg = Some b → b = false ∧ ∃ op, op ∈ seen ∧ OperatorEntrySignature op = sg)).
  { intros ? ?. by rewrite lookup_empty. }
  intros seen op m IH _ _ sg b [[<- <-]|[_ H]]%lookup_insert_Some.
  - split; [done|]. exists op. rewrite elem_of_app, list_elem_of_singleton. auto.
  - destruct (IH sg b H) as (-> & op' & ? & ?). split; [done|]. exists op'. rewrite elem_of_app. auto.
Qed.

Lemma expectedSigs_in s op : op ∈ catalogs_of s → expectedSigs s !! OperatorEntrySignature op = Some false.
Proof.
  intros Hop. destruct (expectedSigs s !! OperatorEntrySignature op) as [b|] eqn:E; [by apply expectedSigs_lookup in E as [-> _]|].
  exfalso. revert op Hop E. unfold expectedSigs.
  apply (foldl_inv (λ seen m, ∀ op, op ∈ seen → m !! OperatorEntrySignature op = None → False)); [by intros ? ?%elem_of_nil|].
  intros seen op m IH _ _ op'. rewrite elem_of_app, list_elem_of_singleton.
  intros Hin [H1 H2]%lookup_insert_None. destruct Hin as [?| ->]; [eauto|done].
Qed.

Lemma scan_facts s st (sc := map_fold (λ _, scan_entry) (mkScan 0 false false (expectedSigs s)) st) :
  ((0 <? sc_pending sc)%Z = false ↔ ∀ e, has_entry st e → settled e) ∧
  (sc_hasOperator sc = true ↔ ∃ e, has_entry st e ∧ Origin e = OriginOperator) ∧
  (sc_legacy sc = true ↔ ∃ e, has_entry st e ∧ Origin e = OriginOperator ∧ EntrySig e = "") ∧
  dom (sc_sigs sc) = dom (expectedSigs s) ∧
  (∀ sg, sg ∈ dom (expectedSigs s) →
     sc_sigs sc !! sg = Some true ↔ ∃ e, has_entry st e ∧ Origin e = OriginOperator ∧ EntrySig e = sg ∧ sg ≠ "").
Proof.
  set (init := mkScan 0 false false (expectedSigs s)) in *.
  assert (Hi : scan_inv (dom (expectedSigs s)) init) by done.
  destruct (scan_flag (dom (expectedSigs s)) (λ sc, (0 <? sc_pending sc)%Z) unsettled_b) with (st := st) (init := init) as [Hinv H1].
  { done. }
  { intros e sc' [Hp _]. scan_cases e sc'; destruct (Z.ltb_spec 0 (sc_pending sc')); cbn; rewrite ?Z.ltb_lt; try lia; done. }
  { done. }
  destruct (scan_flag (dom (expectedSigs s)) sc_hasOperator operator_b) with (st := st) (init := init) as [_ H2]; [done| |done|].
  { intros e sc' _. scan_cases e sc'; by destruct (sc_hasOperator sc'). }
  destruct (scan_flag (dom (expectedSigs s)) sc_legacy (λ e, operator_b e && String.eqb (EntrySig e) "")) with (st := st) (init := init)
    as [_ H3]; [done| |done|].
  { intros e sc' _. scan_cases e sc'; by destruct (sc_legacy sc'). }
  fold sc in Hinv, H1, H2, H3. split_and!.
  - rewrite <- not_true_iff_false, H1. cbn. split.
    + intros Hn e He. apply unsettled_spec. destruct (unsettled_b e) eqn:E; [|done]. destruct Hn. right. eauto.
    + intros Hall [?|(e & He & Hb)]; [done|]. apply Hall, unsettled_spec in He. congruence.
  - rewrite H2. cbn. unfold operator_b. setoid_rewrite String.eqb_eq. naive_solver.
  - rewrite H3. cbn. unfold operator_b. setoid_rewrite andb_true_iff. setoid_rewrite String.eqb_eq. naive_solver.
  - apply Hinv.
  - intros sg Hsg.
    destruct (scan_flag (dom (expectedSigs s)) (λ sc, default false (sc_sigs sc !! sg)) (λ e, operator_b e && String.eqb (EntrySig e) sg && negb (String.eqb sg "")))
      with (st := st) (init := init) as [_ H5]; [done| |done|].
    { intros e sc' [_ Hd]. assert (is_Some (sc_sigs sc' !! sg)) as [b Hb] by by rewrite <- elem_of_dom, Hd.
      apply scan_sig. by eexists. }
    fold sc in H5. apply elem_of_dom in Hsg as [b Hb].
    assert (b = false) as -> by by apply expectedSigs_lookup in Hb as [? _].
    assert (sc_sigs sc !! sg = Some true ↔ default false (sc_sigs sc !! sg) = true) as -> by by destruct (sc_sigs sc !! sg) as [[]|].
    rewrite H5. unfold operator_b. cbn. rewrite Hb. cbn.
    setoid_rewrite andb_true_iff. setoid_rewrite andb_true_iff. setoid_rewrite negb_true_iff. setoid_rewrite String.eqb_eq.
    setoid_rewrite String.eqb_neq. clear.
    split; [intros [[=]|(e & ? & [? ?] & ?)]; by exists e|intros (e & ? & ? & ? & ?); right; by exists e].
Qed.

Lemma snapshot_of_complete s st digests :
  (∀ op, op ∈ catalogs_of s → OperatorEntrySignature op ≠ "") →
  (sn_complete (snapshot_of s st digests) = true ↔ complete_state s st) ∧
  (sn_complete (snapshot_of s st digests) = true → sn_digests (snapshot_of s st digests) = digests).
Proof.
  intros Hsig. unfold snapshot_of, complete_state. destruct (decide (st = ∅)) as [->|Hne].
  { split; [|done]. split; [done|]. intros (_ & (e & (d & H) & _) & _). by rewrite lookup_empty in H. }
  destruct (scan_facts s st) as (H1 & H2 & H3 & H4 & H5). set (sc := map_fold _ _ _) in *. clearbody sc.
  assert (Hseen : false ∉ (map_to_list (sc_sigs sc)).*2 ↔
    ∀ op, op ∈ catalogs_of s → ∃ e, has_entry st e ∧ Origin e = OriginOperator ∧ EntrySig e = OperatorEntrySignature op).
  { assert (Hdom : ∀ op, op ∈ catalogs_of s → OperatorEntrySignature op ∈ dom (expectedSigs s)).
    { intros op Hop. rewrite elem_of_dom. eexists. by apply expectedSigs_in. }
    rewrite list_elem_of_fmap. split.
    - intros Hn op Hop. assert (is_Some (sc_sigs sc !! OperatorEntrySignature op)) as [b Hb] by by rewrite <- elem_of_dom, H4; auto.
      destruct b; [|destruct Hn; exists (OperatorEntrySignature op, false); by rewrite elem_of_map_to_list].
      apply H5 in Hb as (e & ? & ? & ? & _); [by exists e|auto].
    - intros Hall ((sg & b) & Eb & Hin). cbn in Eb. subst b. apply elem_of_map_to_list in Hin.
      assert (sg ∈ dom (expectedSigs s)) as Hd by (rewrite <- H4, elem_of_dom; by eexists).
      apply elem_of_dom in Hd as [b' (_ & op & Hop & <-)%expectedSigs_lookup]. destruct (Hall op Hop) as (e & ? & ? & ?).
      assert (sc_sigs sc !! OperatorEntrySignature op = Some true); [|congruence]. apply H5; [auto|]. exists e. auto. }
  clear Hne H4 H5. destruct (0 <? sc_pending sc)%Z; cbn [orb].
  { split; [|done]. split; [done|]. intros (H%H1 & _). done. }
  destruct (sc_hasOperator sc); cbn [negb]; cycle 1.
  { split; [|done]. split; [done|]. intros (_ & H%H2 & _). done. }
  destruct (Z.eqb_spec (st_ObservedGeneration (is_Status s)) (is_Generation s)) as [Hg|Hg]; cbn [negb].
  2: { split; [|done]. split; [done|]. by intros (_ & _ & ? & _). }
  destruct (sc_legacy sc); cbn [negb andb].
  { split; [|done]. split; [|done]. intros _. split_and!; [by apply H1|by apply H2|done|left; by apply H3]. }
  case_bool_decide as Hb.
  - split; [|done]. split; [done|]. intros (_ & _ & _ & [H%H3|H%Hseen]); done.
  - split; [|done]. split; [|done]. intros _. split_and!; [by apply H1|by apply H2|done|right; by apply Hseen].
Qed.
End completeness.

(** ** A whole run *)

Section run.
Context `{Hash : HashJSON} `{Sha : Sha256} `{RR : RegRef} (rfc3339 : Z → string) (operatorImage : string).
Implicit Types (s : ImageSet) (mt : MirrorTarget) (w : World).

Lemma loadMirrorSnapshot_quiet s : quiet w_jobs (loadMirrorSnapshot s).
Proof. unfold loadMirrorSnapshot. auto with oc. Qed.

(** The snapshot of a run is read from one ConfigMap. *)
Lemma loadMirrorSnapshot_complete s w snap :
  fst (loadMirrorSnapshot s w) = inr snap → sn_complete snap = true →
  ∃ cm st digests, w_cms w !! ConfigMapName (is_Name s) = Some cm ∧ decode cm = inr st ∧ decodeDigests cm = inr digests ∧
    snap = snapshot_of s st digests.
Proof.
  unfold loadMirrorSnapshot, gate_lift. rewrite attempt_bind. destruct (LoadWithCatalogDigests _ _) as [r c] eqn:E. cbn.
  intros [= <-]. destruct r as [e|[st digests]]; [done|]. intros Hc.
  unfold LoadWithCatalogDigests in E. rewrite attempt_bind in E. unfold api_get, w_cms in *.
  destruct (call_cases (λ cms : gmap string ConfigMap, match cms !! ConfigMapName (is_Name s) with
    Some cm => (inr cm, cms) | None => (inl ErrNotFound, cms) end) (w_cluster w)) as [[E' _]|E']; rewrite E' in E; [done|].
  cbn in E. destruct (cl_cms (w_cluster w) !! ConfigMapName (is_Name s)) as [cm|] eqn:Ecm; cbn in E.
  - rewrite !bind_eq in E. unfold liftE in E. cbn in E. destruct (decode cm) as [?|st'] eqn:Ed; [done|]. cbn in E.
    rewrite bind_eq in E. cbn in E. destruct (decodeDigests cm) as [?|d'] eqn:Edd; [done|]. cbn in E. injection E as -> -> _.
    by exists cm, st, digests.
  - injection E as <- <- _. done.
Qed.

Lemma reconcile_jobs_cases now conflicts s mt expired w :
  let w' := snd (reconcileCatalogBuildJobs rfc3339 operatorImage now conflicts s mt expired w) in
  w_jobs w' = w_jobs w ∨
  ∃ snap, fst (loadMirrorSnapshot s w) = inr snap ∧ sn_complete snap = true ∧ jobs_inv s mt (w_jobs w) (sn_digests snap) (w_jobs w').
Proof.
  cbn. unfold reconcileCatalogBuildJobs. case_decide; [by left|]. rewrite bind_eq.
  pose proof (loadMirrorSnapshot_quiet s w) as Hq.
  destruct (fst (loadMirrorSnapshot s w)) as [e|snap] eqn:Es; [by left|].
  set (w1 := snd (loadMirrorSnapshot s w)) in *. rewrite bind_eq.
  pose proof (load_phases_quiet (is_Name s) (mi_Operators (is_Mirror s)) (∅, false, false) w1) as Hq1.
  destruct (fst (load_phases _ _ _ w1)) as [e|[[phases anyActive] anyJob]] eqn:Ep; [left; cbn; congruence|].
  apply (load_phases_ok s (w_jobs w)) in Ep as Hph; [|done|intros ? ?; cbn; by rewrite lookup_empty].
  set (w2 := snd (load_phases _ _ _ w1)) in *.
  assert (Hw2 : w_jobs w2 = w_jobs w) by congruence.
  destruct (negb (sn_complete snap) && _ && _); [left; by rewrite deferCatalogBuild_quiet|].
  set (needs := catalogNeedsRebuild _ _ _ _ _).
  destruct (needs && negb (sn_complete snap)) eqn:En; [left; by rewrite deferCatalogBuild_quiet|].
  destruct (needs && anyActive); [left; by rewrite is_status_update_quiet|].
  set (rec := sn_complete snap && _). set (s' := if rec then _ else s).
  assert (Hs' : is_Name s' = is_Name s ∧ is_Mirror s' = is_Mirror s) by (unfold s'; by destruct rec).
  assert (Hup : quiet w_jobs (if rec then is_update s' else mret tt)) by (destruct rec; auto with oc).
  pose proof (report_phases_quiet s' now conflicts) as Htail.
  clearbody s' rec. destruct (sn_complete snap) eqn:Ec.
  - right. exists snap. split; [done|]. split; [done|].
    assert (jobs_inv s mt (w_jobs w) (sn_digests snap) = jobs_inv s' mt (w_jobs w) (sn_digests snap)) as ->.
    { unfold jobs_inv, job_from, catalogs_of. by destruct Hs' as [-> ->]. }
    apply keeps_bind with (obs := w_jobs) (I := jobs_inv s' mt (w_jobs w) (sn_digests snap)).
    + auto with oc.
    + intros _. apply keeps_bind; [|intros r; auto with oc].
      apply build_loop_keeps; [by destruct Hs' as [_ ->]|]. unfold phases_ok in *. by destruct Hs' as [-> _].
    + rewrite Hw2. by left.
  - rewrite andb_true_r in En. subst needs. left. rewrite En, <- Hw2.
    apply (quiet_bind w_jobs); [done|]. intros _. apply quiet_bind; [by apply build_loop_incomplete|done].
Qed.

(** What a change of Job [j] presupposes and amounts to. *)
Definition gate_respected (cms : gmap string ConfigMap) (s : ImageSet) (mt : MirrorTarget) (j : string)
    (before after : option BuildJob) : Prop :=
  ∃ cm st digests, cms !! ConfigMapName (is_Name s) = Some cm ∧ decode cm = inr st ∧ decodeDigests cm = inr digests ∧
    complete_state s st ∧ (∀ old, before = Some old → terminal old) ∧ ∀ b, after = Some b → job_from s mt digests j b.

Lemma reconcile_jobs_gate now conflicts s mt expired w j :
  (∀ op, op ∈ catalogs_of s → OperatorEntrySignature op ≠ "") →
  let w' := snd (reconcileCatalogBuildJobs rfc3339 operatorImage now conflicts s mt expired w) in
  w_jobs w' !! j ≠ w_jobs w !! j → gate_respected (w_cms w) s mt j (w_jobs w !! j) (w_jobs w' !! j).
Proof.
  intros Hsig w' Hne. pose proof (reconcile_jobs_cases now conflicts s mt expired w) as Hcases. cbn zeta in Hcases. fold w' in Hcases.
  destruct Hcases as [E|(snap & Hs & Hc & Hinv)]; [by rewrite E in Hne|].
  destruct (loadMirrorSnapshot_complete s w snap Hs Hc) as (cm & st & digests & H1 & H2 & H3 & ->).
  destruct (snapshot_of_complete s st digests Hsig) as [Hcomp Hd]. rewrite Hd in Hinv by done.
  exists cm, st, digests. split_and!; try done; [by apply Hcomp|..]; destruct (Hinv j) as [?|[? ?]]; done.
Qed.

Lemma is_get_cms_quiet : quiet w_cms is_get.
Proof. apply gate_call_quiet; [done|]. intros w. cbn. by destruct (w_is w). Qed.
Lemma is_status_update_cms_quiet s : quiet w_cms (is_status_update s).
Proof. apply gate_call_quiet; [done|]. intros w. cbn. by destruct (w_is w). Qed.

Lemma gate_respected_conditions cms s cs mt j before after :
  gate_respected cms (with_conditions cs s) mt j before after → gate_respected cms s mt j before after.
Proof. done. Qed.
End run.

(** ** Rebuilds settle *)

(** One run, as far as rebuilds are concerned: the annotations afterwards, and
    whether the catalog is built again. *)
Definition run_rebuild (i : build_inputs) (complete built expired active : bool) (a : gmap string string)
    : gmap string string * bool :=
  let needs := catalogNeedsRebuild i built expired active a in
  if needs && (negb complete || active) then (a, false)
  else (if complete && records i built expired active a then record_build i built expired active a else a, needs).

(** The record agrees with the inputs. *)
Definition recorded (i : build_inputs) (a : gmap string string) : Prop :=
  recollectForcesRebuild i a = false ∧ anno a catalogBuildSigAnnotation = in_sig i ∧
  (in_fp i = "" ∨ anno a catalogBuildDigestsAnnotation = in_fp i).

Lemma anno_insert_eq k v a : anno (<[k := v]> a) k = v.
Proof. unfold anno. by rewrite lookup_insert_eq. Qed.
Lemma anno_insert_ne k k' v a : k' ≠ k → anno (<[k := v]> a) k' = anno a k'.
Proof. intros. unfold anno. by rewrite lookup_insert_ne. Qed.

Lemma record_build_recorded i built expired active a : recorded i (record_build i built expired active a).
Proof.
  unfold record_build. set (poll := pollForcesRebuild _ _ _ _ _). clearbody poll. unfold recorded, recollectForcesRebuild at 1.
  destruct (recollectForcesRebuild i a) eqn:Er, poll, (String.eqb_spec (in_fp i) "") as [Ef|Ef];
    rewrite ?(anno_insert_ne catalogPollSigAnnotation) by done; rewrite ?anno_insert_eq;
    rewrite ?(anno_insert_ne catalogRecollectSigAnnotation catalogBuildSigAnnotation),
      ?(anno_insert_ne catalogRecollectSigAnnotation catalogBuildDigestsAnnotation) by done;
    rewrite ?anno_insert_eq; rewrite ?(anno_insert_ne catalogBuildDigestsAnnotation) by done;
    rewrite ?anno_insert_eq; rewrite ?(anno_insert_ne catalogBuildSigAnnotation) by done; rewrite ?String.eqb_refl, ?andb_false_r; auto.
Qed.

Lemma recorded_unchanged i built a : recorded i a → inputs_changed i built a = false.
Proof.
  intros (H1 & H2 & H3). unfold inputs_changed, sigChanged, contentChanged. rewrite H1, H2, String.eqb_refl, andb_false_r. cbn.
  destruct H3 as [->| ->]; [done|]. by rewrite String.eqb_refl, andb_false_r.
Qed.

(** Also the last poll has been honored. *)
Definition polled (i : build_inputs) (a : gmap string string) : Prop :=
  recorded i a ∧ anno a catalogPollSigAnnotation = in_poll i.

Lemma polled_no_rebuild i complete built expired active a :
  polled i a → run_rebuild i complete built expired active a = (a, false).
Proof.
  intros [Hr Hp]. unfold run_rebuild, catalogNeedsRebuild, pollForcesRebuild, records, catalogNeedsRebuild, pollForcesRebuild.
  rewrite (recorded_unchanged _ _ _ Hr), Hp, String.eqb_refl. rewrite !andb_false_r. cbn.
  destruct Hr as (_ & -> & Hf). rewrite String.eqb_refl. cbn.
  replace (negb (String.eqb (in_fp i) "") && _) with false; [by rewrite andb_false_r|].
  symmetry. destruct Hf as [->| ->]; [done|]. by rewrite String.eqb_refl, andb_false_r.
Qed.

Lemma recorded_rebuild i complete built expired active a a' :
  recorded i a → run_rebuild i complete built expired active a = (a', true) → polled i a'.
Proof.
  intros Hr. unfold run_rebuild. destruct (catalogNeedsRebuild i built expired active a) eqn:En; cbn.
  - destruct (negb complete || active) eqn:Ec; [done|]. apply orb_false_iff in Ec as [Ec _]. apply negb_false_iff in Ec as ->.
    unfold records. rewrite En. cbn. intros [= <-]. split; [apply record_build_recorded|].
    unfold catalogNeedsRebuild in En. rewrite (recorded_unchanged _ _ _ Hr) in En. cbn in En.
    unfold record_build. rewrite En. apply anno_insert_eq.
  - destruct complete; done.
Qed.

Lemma run_rebuild_recorded i complete built expired active a a' b :
  run_rebuild i complete built expired active a = (a', b) → (recorded i a ∨ b = true) → recorded i a'.
Proof.
  unfold run_rebuild. intros E H. destruct (catalogNeedsRebuild i built expired active a && _) eqn:En.
  { injection E as <- <-. by destruct H. }
  injection E as <- <-. destruct (complete && records _ _ _ _ _) eqn:Er; [apply record_build_recorded|].
  destruct H as [?|Hn]; [done|]. rewrite Hn in En. cbn in En. apply orb_false_iff in En as [Ec _].
  apply negb_false_iff in Ec as ->. unfold records in Er. by rewrite Hn in Er.
Qed.

(** ** A rebuild is recorded before it starts *)

(** The annotations of the stored ImageSet. *)
Definition w_annos (w : World) : option (gmap string string) := is_Annotations <$> w_is w.

Lemma annos_quiet_call {A} (f : World → (apiErr + A) * World) :
  (∀ w, w_annos (snd (f w)) = w_annos w) → quiet w_annos (gate_call f).
Proof. by apply gate_call_quiet. Qed.

Lemma annos_build_get n : quiet w_annos (build_get n).
Proof. by apply annos_quiet_call. Qed.
Lemma annos_build_create n b : quiet w_annos (build_create n b).
Proof. apply annos_quiet_call. intros w. by destruct (w_jobs w !! n). Qed.
Lemma annos_build_delete n : quiet w_annos (build_delete n).
Proof. apply annos_quiet_call. intros w. by destruct (w_jobs w !! n). Qed.
Lemma annos_is_get : quiet w_annos is_get.
Proof. by apply annos_quiet_call. Qed.
Lemma annos_is_status_update s : quiet w_annos (is_status_update s).
Proof. apply annos_quiet_call. intros w. unfold w_annos. by destruct (w_is w) eqn:E; cbn; rewrite ?E. Qed.
Lemma annos_gate_lift {A} (m : API A) : quiet w_annos (gate_lift m).
Proof. intros w. unfold gate_lift. by destruct (m (w_cluster w)). Qed.
#[export] Hint Resolve annos_build_get annos_build_create annos_build_delete annos_is_get annos_is_status_update annos_gate_lift : oc.

Section recorded_first.
Context `{Hash : HashJSON} `{Sha : Sha256} `{RR : RegRef} (rfc3339 : Z → string) (operatorImage : string).
Implicit Types (s : ImageSet) (mt : MirrorTarget) (w : World).

Lemma annos_status n : quiet w_annos (GetBuildJobStatus n).
Proof. unfold GetBuildJobStatus. apply quiet_bind; [auto with oc|]. intros [[]|]; auto with oc. Qed.
Lemma annos_delete n : quiet w_annos (DeleteBuildJob n).
Proof. unfold DeleteBuildJob. apply quiet_bind; [auto with oc|]. intros [[]|]; auto with oc. Qed.
Lemma annos_ensure s mt op pull : quiet w_annos (EnsureCatalogBuildJob s mt op pull).
Proof. unfold EnsureCatalogBuildJob. apply quiet_bind; [auto with oc|]. intros [[]|]; auto with oc. Qed.
Lemma annos_phases name ops acc : quiet w_annos (load_phases name ops acc).
Proof.
  revert acc. induction ops as [|op ops IH]; intros acc; cbn; [auto with oc|].
  destruct (String.eqb _ _); [auto|]. apply quiet_bind; [apply annos_status|]. intros ph. by destruct acc as [[? ?] ?].
Qed.
Lemma annos_report now conflicts s r : quiet w_annos (report_phases now conflicts s r).
Proof.
  assert (Hready : ∀ n k, quiet w_annos (report_ready now conflicts k n)).
  { induction n as [|n IH]; intros k; cbn; (apply quiet_bind; [auto with oc|]); intros fresh; destruct (conflicts k); auto with oc. }
  destruct r as [[a b]|]; unfold report_phases; [|auto with oc]. destruct b; [auto with oc|]. destruct a; auto with oc.
Qed.

Lemma annos_loop now s mt snap phases needs ready ops acc : quiet w_annos (build_loop now s mt snap phases needs ready ops acc).
Proof.
  revert acc. induction ops as [|op ops IH]; intros acc; cbn; [auto with oc|].
  destruct (String.eqb _ _); [done|]. destruct acc as [allS anyF]. apply quiet_bind.
  { destruct (needs && _); [|auto with oc]. unfold ignore. apply quiet_bind; [apply quiet_attempt, annos_delete|auto with oc]. }
  intros _. destruct (bool_decide _ && ready); [done|].
  destruct (bool_decide _); [|by destruct (if needs && _ then _ else _)].
  destruct (negb _); [apply quiet_bind; [apply annos_is_status_update|auto with oc]|].
  destruct (pinnedCatalogRef _ _); [|apply quiet_bind; [apply annos_is_status_update|auto with oc]].
  apply quiet_bind; [apply annos_ensure|]. intros _. apply quiet_bind; [apply annos_status|]. by intros [].
Qed.

(** Without a rebuild no Job is touched that exists. *)
Lemma loop_keeps_jobs now s mt snap phases ready ops acc j b :
  keeps w_jobs (λ jobs, jobs !! j = Some b) (build_loop now s mt snap phases false ready ops acc).
Proof.
  revert acc. induction ops as [|op ops IH]; intros acc; cbn; [auto with oc|].
  destruct (String.eqb _ _); [done|]. destruct acc as [allS anyF]. apply keeps_bind; [auto with oc|]. intros _.
  destruct (bool_decide _ && ready); [done|]. destruct (bool_decide _); [|by destruct (default _ _)].
  destruct (negb _); [apply keeps_quiet, quiet_bind; [apply is_status_update_quiet|auto with oc]|].
  destruct (pinnedCatalogRef _ _); [|apply keeps_quiet, quiet_bind; [apply is_status_update_quiet|auto with oc]].
  apply keeps_bind.
  { unfold EnsureCatalogBuildJob. apply keeps_bind; [auto with oc|]. intros [[]|]; try auto with oc.
    intros w Hw. unfold build_create, gate_call. destruct (cl_faults (w_cluster w)) as [|[] fs]; cbn; [|done|];
      (destruct (w_jobs w !! JobName _ _) eqn:E; cbn; [done|]); rewrite lookup_insert_ne; try done; congruence. }
  intros _. apply keeps_bind; [auto with oc|]. by intros [].
Qed.
Lemma annos_failed_update s w : (∀ u, fst (is_update s w) ≠ inr u) → w_annos (snd (is_update s w)) = w_annos w.
Proof.
  unfold is_update, gate_call, w_annos. destruct (cl_faults (w_cluster w)) as [|[] fs]; cbn; [|done|];
    (destruct (w_is w) eqn:E; cbn; rewrite ?E; [intros H; by destruct (H tt)|done]).
Qed.
Lemma annos_snapshot s : quiet w_annos (loadMirrorSnapshot s).
Proof. unfold loadMirrorSnapshot. apply quiet_bind; [auto with oc|]. intros [|[? ?]]; auto with oc. Qed.
Lemma is_update_annos s w : fst (is_update s w) = inr tt → w_annos (snd (is_update s w)) = Some (is_Annotations s).
Proof.
  unfold is_update, gate_call, w_annos. destruct (cl_faults (w_cluster w)) as [|[] fs]; cbn; [|done|];
    destruct (w_is w); cbn; done.
Qed.

(** A Job that existed is gone or replaced. *)
Definition replaces (w w' : World) : bool := negb (bool_decide (map_Forall (λ j old, w_jobs w' !! j = Some old) (w_jobs w))).

Lemma replaces_false w w' : (∀ j old, w_jobs w !! j = Some old → w_jobs w' !! j = Some old) → replaces w w' = false.
Proof. intros H. unfold replaces. rewrite bool_decide_eq_true_2; [done|exact H]. Qed.
Lemma replaces_same w w' : w_jobs w' = w_jobs w → replaces w w' = false.
Proof. intros E. apply replaces_false. by rewrite E. Qed.

(** What a run of the gate does: it leaves the annotations and every Job, or it
    has read a complete state, records as [run_rebuild] says, and replaces a Job
    only when that is a rebuild. *)
Definition gate_effect (s : ImageSet) (expired : bool) (a : option (gmap string string)) (w w' : World) (snaps : mirrorSnapshot → Prop) : Prop :=
  (w_annos w' = a ∧ replaces w w' = false) ∨
  ∃ snap active, snaps snap ∧ sn_complete snap = true ∧
    let '(a', again) := run_rebuild (inputs_of rfc3339 operatorImage s snap) true (alreadyBuilt s) expired active (is_Annotations s) in
    w_annos w' = Some a' ∧ (again = false → replaces w w' = false).

Lemma jobs_effect now conflicts s mt expired w :
  let w' := snd (reconcileCatalogBuildJobs rfc3339 operatorImage now conflicts s mt expired w) in
  gate_effect s expired (w_annos w) w w' (λ snap, fst (loadMirrorSnapshot s w) = inr snap).
Proof.
  cbn zeta. unfold gate_effect, reconcileCatalogBuildJobs.
  case_decide; [left; split; [done|by apply replaces_same]|]. rewrite bind_eq.
  pose proof (loadMirrorSnapshot_quiet s w) as Hq. pose proof (annos_snapshot s w) as Ha.
  destruct (fst (loadMirrorSnapshot s w)) as [e|snap]; [left; split; [done|by apply replaces_same]|]. set (w1 := snd (loadMirrorSnapshot s w)) in *.
  rewrite bind_eq. pose proof (load_phases_quiet (is_Name s) (mi_Operators (is_Mirror s)) (∅, false, false) w1) as Hq1.
  pose proof (annos_phases (is_Name s) (mi_Operators (is_Mirror s)) (∅, false, false) w1) as Ha1.
  destruct (fst (load_phases _ _ _ w1)) as [e|[[phases active] anyJob]]; [left; cbn; split; [congruence|apply replaces_same; congruence]|].
  set (w2 := snd (load_phases _ _ _ w1)) in *.
  assert (Hw2 : w_jobs w2 = w_jobs w ∧ w_annos w2 = w_annos w) by (split; congruence). destruct Hw2 as [Hj Hann]. clearbody w2.
  assert (Hquiet : ∀ (m : GATE unit), quiet w_jobs m → quiet w_annos m → w_annos (snd (m w2)) = w_annos w ∧ replaces w (snd (m w2)) = false).
  { intros m H1 H2. split; [by rewrite H2|]. apply replaces_same. by rewrite H1. }
  destruct (negb (sn_complete snap) && _ && _); [left; apply Hquiet; [apply deferCatalogBuild_quiet|apply annos_is_status_update]|].
  set (i := inputs_of _ _ s snap). set (needs := catalogNeedsRebuild _ _ _ _ _).
  destruct (needs && negb (sn_complete snap)) eqn:E1; [left; apply Hquiet; [apply deferCatalogBuild_quiet|apply annos_is_status_update]|].
  destruct (needs && active) eqn:E2; [left; apply Hquiet; [apply is_status_update_quiet|apply annos_is_status_update]|].
  set (rec := sn_complete snap && records i (alreadyBuilt s) expired active (is_Annotations s)). set (s' := if rec then _ else s).
  destruct rec eqn:Erec; rewrite bind_eq.
  - apply andb_true_iff in Erec as [Ec Er]. pose proof (is_update_annos s' w2) as Hup. pose proof (is_update_quiet s' w2) as Huq.
    pose proof (annos_failed_update s' w2) as Hfail. set (w3 := snd (is_update s' w2)) in *.
    destruct (fst (is_update s' w2)) as [e|[]]; [left; cbn; split; [rewrite Hfail by done; congruence|apply replaces_same; congruence]|].
    right. exists snap, active. split; [done|]. split; [done|]. unfold run_rebuild. fold i. fold needs. cbn [negb orb].
    rewrite E2. cbn [andb]. rewrite Er. split.
    + etransitivity; [apply (quiet_bind w_annos); [apply annos_loop|intros r; apply annos_report]|by apply Hup].
    + intros Hn. rewrite Hn. apply replaces_false. intros j old Hold.
      apply (keeps_bind w_jobs (λ jobs, jobs !! j = Some old)); [apply loop_keeps_jobs|intros r; apply keeps_quiet, report_phases_quiet|].
      by rewrite Huq, Hj.
  - left. cbn [fst snd mret M_ret]. assert (Hn : needs = false).
    { destruct needs eqn:En; [|done]. exfalso. cbn in E1, E2. apply negb_false_iff in E1. apply andb_false_iff in Erec as [?|Hr]; [congruence|].
      unfold records in Hr. apply orb_false_iff in Hr as [[Hr _]%orb_false_iff _]. change (needs = false) in Hr. congruence. }
    split.
    + rewrite <- Hann. apply (quiet_bind w_annos); [apply annos_loop|intros r; apply annos_report].
    + rewrite Hn. apply replaces_false. intros j old Hold.
      apply (keeps_bind w_jobs (λ jobs, jobs !! j = Some old)); [apply loop_keeps_jobs|intros r; apply keeps_quiet, report_phases_quiet|].
      by rewrite Hj.
Qed.
End recorded_first.

(** ** A run without faults *)

Definition calm (w : World) : Prop := healthy (w_cluster w).

(** Two worlds that differ in the schedule and the ImageSet only. *)
Definition same_store (w w' : World) : Prop := w_jobs w' = w_jobs w ∧ w_cms w' = w_cms w ∧ (is_Some (w_is w) ↔ is_Some (w_is w')).

#[export] Instance same_store_trans : Transitive same_store.
Proof. intros w1 w2 w3 (? & ? & ?) (? & ? & ?). unfold same_store. split_and!; try congruence. naive_solver. Qed.

Lemma gate_call_calm {A} (f : World → (apiErr + A) * World) w :
  calm w → ∃ w1, gate_call f w = f w1 ∧ calm w1 ∧ w_jobs w1 = w_jobs w ∧ w_cms w1 = w_cms w ∧ w_is w1 = w_is w.
Proof.
  unfold calm, healthy, gate_call. destruct (cl_faults (w_cluster w)) as [|[] fs] eqn:E; intros H.
  - eexists. split; [done|]. cbn. by split_and!.
  - by inversion H.
  - eexists. split; [done|]. cbn. split_and!; try done. by inversion H.
Qed.

Section calm_runs.
Context `{Hash : HashJSON} `{Sha : Sha256} `{RR : RegRef} (rfc3339 : Z → string) (operatorImage : string).
Implicit Types (s : ImageSet) (mt : MirrorTarget) (w : World).

Lemma build_get_calm n w :
  calm w → ∃ w', build_get n w = (match w_jobs w !! n with Some b => inr b | None => inl ErrNotFound end, w') ∧ calm w' ∧ same_store w w'.
Proof.
  intros Hw. destruct (gate_call_calm (λ w, (match w_jobs w !! n with Some j => inr j | None => inl ErrNotFound end, w)) w Hw)
    as (w1 & E & ? & H1 & H2 & H3). exists w1. unfold build_get. rewrite E, H1. split; [done|]. split; [done|].
  unfold same_store. by rewrite H1, H2, H3.
Qed.

Lemma GetBuildJobStatus_calm n w :
  calm w → ∃ w' ph, GetBuildJobStatus n w = (inr ph, w') ∧ phase_in (w_jobs w) n ph ∧ calm w' ∧ same_store w w'.
Proof.
  intros Hw. destruct (build_get_calm n w Hw) as (w' & E & Hw' & Hs). unfold GetBuildJobStatus. rewrite attempt_bind, E.
  exists w'. unfold phase_in. cbn. destruct (w_jobs w !! n); eauto 6.
Qed.

Lemma DeleteBuildJob_calm n w :
  calm w → ∃ w', DeleteBuildJob n w = (inr tt, w') ∧ calm w' ∧ w_jobs w' = delete n (w_jobs w) ∧ w_cms w' = w_cms w ∧
    (is_Some (w_is w) ↔ is_Some (w_is w')).
Proof.
  intros Hw. destruct (build_get_calm n w Hw) as (w1 & E & Hw1 & (H1 & H2 & H3)). unfold DeleteBuildJob. rewrite attempt_bind, E. cbn.
  destruct (w_jobs w !! n) as [b|] eqn:Eb; cbn; [|exists w1; rewrite delete_id by done; by split_and!].
  unfold build_delete. match goal with |- context [gate_call ?f w1] => destruct (gate_call_calm f w1 Hw1) as (w2 & E2 & ? & G1 & G2 & G3) end.
  rewrite E2, G1, H1, Eb. eexists. split; [done|]. cbn. unfold w_cms in *. cbn. split_and!; [done|congruence|congruence|].
  by rewrite G3.
Qed.

Lemma EnsureCatalogBuildJob_calm s mt op pull w :
  let n := JobName (is_Name s) (op_Catalog op) in
  calm w → w_jobs w !! n = None →
  ∃ w', EnsureCatalogBuildJob s mt op pull w = (inr tt, w') ∧ calm w' ∧ w_jobs w' = <[n := new_job mt op pull]> (w_jobs w) ∧
    w_cms w' = w_cms w ∧ (is_Some (w_is w) ↔ is_Some (w_is w')).
Proof.
  intros n Hw Hn. destruct (build_get_calm n w Hw) as (w1 & E & Hw1 & (H1 & H2 & H3)). unfold EnsureCatalogBuildJob. fold n.
  rewrite attempt_bind, E, Hn. cbn.
  unfold build_create. match goal with |- context [gate_call ?f w1] => destruct (gate_call_calm f w1 Hw1) as (w2 & E2 & ? & G1 & G2 & G3) end.
  rewrite E2, G1, H1, Hn. eexists. split; [done|]. cbn. unfold w_cms in *. cbn. split_and!; [done|congruence|congruence|].
  by rewrite G3.
Qed.

(** The Jobs the loop is about to start over: absent, or finished and to be
    built again. *)
Definition restartable (needs : bool) (jobs : gmap string BuildJob) (phases : gmap string JobPhase) s op : Prop :=
  phases !! op_Catalog op = Some JobPhaseNotFound ∧ jobs !! JobName (is_Name s) (op_Catalog op) = None ∨
  needs = true ∧ (phases !! op_Catalog op = Some JobPhaseSucceeded ∨ phases !! op_Catalog op = Some JobPhaseFailed).

(** Clearing the way for the Job of [op]. *)
Lemma restart_clears needs phases s op w :
  calm w → restartable needs (w_jobs w) phases s op →
  let n := JobName (is_Name s) (op_Catalog op) in
  let ph := default JobPhaseNotFound (phases !! op_Catalog op) in
  let stale := needs && (bool_decide (ph = JobPhaseSucceeded) || bool_decide (ph = JobPhaseFailed)) in
  ∃ w1, (if stale then ignore (DeleteBuildJob n) else mret tt) w = (inr tt, w1) ∧
    (if stale then JobPhaseNotFound else ph) = JobPhaseNotFound ∧ calm w1 ∧ w_jobs w1 !! n = None ∧
    (∀ j, j ≠ n → w_jobs w1 !! j = w_jobs w !! j) ∧ w_cms w1 = w_cms w.
Proof.
  intros Hw Hre n ph stale. destruct Hre as [[Hp Hn]|[Hneed Hp]].
  - assert (Hs : stale = false) by (unfold stale, ph; rewrite Hp; cbn; by rewrite andb_false_r). rewrite Hs. exists w.
    unfold ph. rewrite Hp. by split_and!.
  - assert (Hs : stale = true) by (unfold stale, ph; rewrite Hneed; by destruct Hp as [->| ->]). rewrite Hs.
    destruct (DeleteBuildJob_calm n w Hw) as (w1 & E & ? & Hj & Hcm & _). exists w1. rewrite ignore_eq, E. cbn. rewrite Hj.
    split_and!; try done; [by rewrite lookup_delete_eq|]. intros j Hne. by rewrite lookup_delete_ne.
Qed.

Lemma build_loop_starts now s mt snap phases needs ops acc w :
  sn_complete snap = true → calm w →
  NoDup (map (λ op, JobName (is_Name s) (op_Catalog op)) (List.filter (λ op, negb (String.eqb (op_Catalog op) "")) ops)) →
  (∀ op, op ∈ ops → op_Catalog op ≠ "" → is_Some (pinnedCatalogRef (sn_digests snap) op) ∧ restartable needs (w_jobs w) phases s op) →
  ∃ acc' w', build_loop now s mt snap phases needs false ops acc w = (inr (Some acc'), w') ∧ calm w' ∧ w_cms w' = w_cms w ∧
    (∀ op, op ∈ ops → op_Catalog op ≠ "" →
       w_jobs w' !! JobName (is_Name s) (op_Catalog op) = new_job mt op <$> pinnedCatalogRef (sn_digests snap) op) ∧
    (∀ j, (∀ op, op ∈ ops → op_Catalog op ≠ "" → j ≠ JobName (is_Name s) (op_Catalog op)) → w_jobs w' !! j = w_jobs w !! j).
Proof.
  intros Hc. revert acc w. induction ops as [|op ops IH]; intros acc w Hw Hnd Hall.
  { exists acc, w. split_and!; try done. by intros ? ?%elem_of_nil. }
  cbn [build_loop]. cbn [List.filter] in Hnd. destruct (String.eqb_spec (op_Catalog op) "") as [Ec|Ec]; cbn [negb] in Hnd.
  { destruct (IH acc w Hw Hnd) as (acc' & w' & E & G1 & G2 & G3 & G4); [intros; apply Hall; [by right|done]|].
    exists acc', w'. split_and!; try done.
    - intros op' [->|?]%elem_of_cons ?; [done|by apply G3].
    - intros j Hj. apply G4. intros op' Hop'. apply Hj. by right. }
  destruct acc as [allS anyF]. cbn [map] in Hnd. apply NoDup_cons in Hnd as [Hni Hnd].
  destruct (Hall op) as [[pull Hpull] Hre]; [by left|done|]. set (n := JobName (is_Name s) (op_Catalog op)) in *.
  destruct (restart_clears needs phases s op w Hw Hre) as (w1 & E1 & Hph & Hw1 & Hn1 & Hother1 & Hcm1). fold n in E1, Hn1, Hother1.
  rewrite (bind_inr _ _ _ _ _ E1), Hph.
  rewrite bool_decide_eq_true_2 by done. cbn [andb]. rewrite Hc, Hpull. cbn [negb].
  destruct (EnsureCatalogBuildJob_calm s mt op pull w1 Hw1 Hn1) as (w2 & E2 & Hw2 & Hj2 & Hcm2 & _). rewrite (bind_inr _ _ _ _ _ E2).
  destruct (GetBuildJobStatus_calm n w2 Hw2) as (w3 & ph & E3 & _ & Hw3 & (Hj3 & Hcm3 & _)). fold n. rewrite (bind_inr _ _ _ _ _ E3).
  assert (Hjobs3 : w_jobs w3 !! n = Some (new_job mt op pull) ∧ ∀ j, j ≠ n → w_jobs w3 !! j = w_jobs w !! j).
  { rewrite Hj3, Hj2. fold n. split; [by rewrite lookup_insert_eq|]. intros j Hne. rewrite lookup_insert_ne by done. auto. }
  assert (Hne : ∀ op', op' ∈ ops → op_Catalog op' ≠ "" → JobName (is_Name s) (op_Catalog op') ≠ n).
  { intros op' Hop' Hc' Heq. apply Hni. apply elem_of_map. exists op'. split; [|done]. rewrite elem_of_filter_bool.
    split; [|done]. apply negb_true_iff. by apply String.eqb_neq. }
  assert (Hgo : ∀ acc, ∃ acc' w', build_loop now s mt snap phases needs false ops acc w3 = (inr (Some acc'), w') ∧ calm w' ∧ w_cms w' = w_cms w ∧
    (∀ op', op' ∈ op :: ops → op_Catalog op' ≠ "" →
       w_jobs w' !! JobName (is_Name s) (op_Catalog op') = new_job mt op' <$> pinnedCatalogRef (sn_digests snap) op') ∧
    (∀ j, (∀ op', op' ∈ op :: ops → op_Catalog op' ≠ "" → j ≠ JobName (is_Name s) (op_Catalog op')) → w_jobs w' !! j = w_jobs w !! j)).
  { intros acc. destruct (IH acc w3 Hw3 Hnd) as (acc' & w' & E & G1 & G2 & G3 & G4).
    - intros op' Hop' Hc'. destruct (Hall op') as [? Hre']; [by right|done|]. split; [done|]. destruct Hre' as [[? ?]|?]; [left|by right].
      split; [done|]. rewrite (proj2 Hjobs3) by auto. done.
    - exists acc', w'. split_and!; [done|done|congruence| |].
      + intros op' [->|?]%elem_of_cons ?; [|by apply G3]. fold n. rewrite G4, (proj1 Hjobs3), Hpull; [done|].
        intros op' ? ? ?. by apply (Hne op').
      + intros j Hj. rewrite G4; [apply Hjobs3; apply (Hj op); [by left|done]|]. intros op' ?. apply Hj. by right. }
  destruct ph; apply Hgo.
Qed.

(** Reading the phases. *)
Lemma load_phases_calm name ops acc w :
  calm w → (∀ op b, op ∈ ops → op_Catalog op ≠ "" → w_jobs w !! JobName name (op_Catalog op) = Some b → terminal b) →
  ∃ phases any w', load_phases name ops acc w = (inr (phases, snd (fst acc), any), w') ∧ calm w' ∧ same_store w w' ∧
    (∀ op, op ∈ ops → op_Catalog op ≠ "" → ∃ ph, phases !! op_Catalog op = Some ph ∧ phase_in (w_jobs w) (JobName name (op_Catalog op)) ph) ∧
    (∀ cat, (∀ op, op ∈ ops → op_Catalog op ≠ "" → op_Catalog op ≠ cat) → phases !! cat = fst (fst acc) !! cat).
Proof.
  revert acc w. induction ops as [|op ops IH]; intros [[p act] any] w Hw Ht; cbn [load_phases].
  { exists p, any, w. split_and!; try done. by intros ? ?%elem_of_nil. }
  destruct (String.eqb_spec (op_Catalog op) "") as [Ec|Ec].
  { destruct (IH (p, act, any) w Hw) as (p' & any' & w' & E & G1 & G2 & G3 & G4); [intros; eapply Ht; eauto; by right|].
    exists p', any', w'. split_and!; try done.
    - intros op' [->|?]%elem_of_cons ?; [done|by apply G3].
    - intros cat Hcat. apply G4. intros op' ?. apply Hcat. by right. }
  destruct (GetBuildJobStatus_calm (JobName name (op_Catalog op)) w Hw) as (w1 & ph & E1 & Hph & Hw1 & Hs1).
  rewrite (bind_inr _ _ _ _ _ E1).
  assert (Hact : act || bool_decide (ph = JobPhasePending) || bool_decide (ph = JobPhaseRunning) = act).
  { unfold phase_in in Hph. destruct (w_jobs w !! JobName name (op_Catalog op)) as [b|] eqn:Eb.
    - destruct (Ht op b) as [H|H]; [by left|done|done|..]; subst ph; rewrite H; cbn; by rewrite !orb_false_r.
    - subst ph. cbn. by rewrite !orb_false_r. }
  rewrite Hact. destruct Hs1 as (Hj & Hcm & His).
  destruct (IH (<[op_Catalog op := ph]> p, act, any || negb (bool_decide (ph = JobPhaseNotFound))) w1 Hw1) as (p' & any' & w' & E & G1 & G2 & G3 & G4).
  { intros op' b ? ?. rewrite Hj. apply Ht; [by right|done]. }
  exists p', any', w'. split_and!; [done|done|by etransitivity| |].
  - intros op' Hop' Hne. destruct (decide (op_Catalog op' ∈ map op_Catalog ops)) as [(op2 & H2 & Eq)%elem_of_map|Hno].
    + destruct (G3 op2 H2) as (ph' & ? & Hph'); [congruence|]. rewrite <- Eq, Hj in *. eauto.
    + apply elem_of_cons in Hop' as [->|Hop']; [|destruct Hno; apply elem_of_map; eauto]. exists ph. split; [|done].
      rewrite G4; [cbn; by rewrite lookup_insert_eq|]. intros op2 ? ? Eq. apply Hno, elem_of_map. eauto.
  - intros cat Hcat. rewrite G4; [|intros op' ?; apply Hcat; by right]. cbn. rewrite lookup_insert_ne; [done|].
    apply Hcat; [by left|done].
Qed.
Lemma loadMirrorSnapshot_calm s w cm st digests :
  calm w → w_cms w !! ConfigMapName (is_Name s) = Some cm → decode cm = inr st → decodeDigests cm = inr digests →
  ∃ w', loadMirrorSnapshot s w = (inr (snapshot_of s st digests), w') ∧ calm w' ∧ same_store w w'.
Proof.
  intros Hw Hcm Hd Hdd. unfold loadMirrorSnapshot, gate_lift. rewrite attempt_bind. cbv beta.
  assert (Hload : LoadWithCatalogDigests (is_Name s) (w_cluster w) = (inr (st, digests), mkCluster (w_cms w) (tail (cl_faults (w_cluster w))))).
  { unfold LoadWithCatalogDigests. rewrite attempt_bind. unfold api_get. rewrite (proj1 (call_healthy _ _ Hw)). unfold w_cms in *. rewrite Hcm. cbn.
    rewrite !liftE_bind, Hd. cbn. rewrite liftE_bind, Hdd. done. }
  rewrite Hload. eexists. split; [done|]. split.
  - unfold calm, healthy in *. cbn. by destruct Hw.
  - done.
Qed.

(** A run that finds the state complete and nothing active starts every Job. *)
Lemma reconcile_jobs_starts now conflicts s mt expired w cm st digests :
  calm w → is_Some (w_is w) →
  w_cms w !! ConfigMapName (is_Name s) = Some cm → decode cm = inr st → decodeDigests cm = inr digests →
  (∀ op, op ∈ catalogs_of s → OperatorEntrySignature op ≠ "") → complete_state s st →
  NoDup (map (λ op, JobName (is_Name s) (op_Catalog op)) (catalogs_of s)) →
  (∀ op, op ∈ catalogs_of s → is_Some (pinnedCatalogRef digests op)) →
  let needs := catalogNeedsRebuild (inputs_of rfc3339 operatorImage s (snapshot_of s st digests)) (alreadyBuilt s) expired false (is_Annotations s) in
  (∀ op b, op ∈ catalogs_of s → w_jobs w !! JobName (is_Name s) (op_Catalog op) = Some b → terminal b ∧ needs = true) →
  alreadyBuilt s = false ∨ needs = true →
  ∀ op, op ∈ catalogs_of s →
    w_jobs (snd (reconcileCatalogBuildJobs rfc3339 operatorImage now conflicts s mt expired w)) !! JobName (is_Name s) (op_Catalog op)
    = new_job mt op <$> pinnedCatalogRef digests op.
Proof.
  intros Hw His Hcm Hd Hdd Hsig Hcomp Hnd Hpin needs Hjobs Hready op Hop.
  destruct (snapshot_of_complete s st digests Hsig) as [Hc Hdig]. apply Hc in Hcomp. specialize (Hdig Hcomp). clear Hc.
  unfold reconcileCatalogBuildJobs. rewrite decide_False by (intros E; unfold catalogs_of in Hop; rewrite E in Hop; by apply elem_of_nil in Hop).
  destruct (loadMirrorSnapshot_calm s w cm st digests Hw Hcm Hd Hdd) as (w1 & E1 & Hw1 & Hj1 & Hcm1 & His1).
  rewrite (bind_inr _ _ _ _ _ E1). set (snap := snapshot_of s st digests) in *.
  assert (Hcat : ∀ op, op ∈ mi_Operators (is_Mirror s) → op_Catalog op ≠ "" → op ∈ catalogs_of s).
  { intros op' ? ?. unfold catalogs_of. rewrite elem_of_filter_bool. split; [|done]. apply negb_true_iff. by apply String.eqb_neq. }
  destruct (load_phases_calm (is_Name s) (mi_Operators (is_Mirror s)) (∅, false, false) w1 Hw1) as (phases & any & w2 & E2 & Hw2 & (Hj2 & Hcm2 & His2) & Hph & _).
  { intros op' b H1 H2. rewrite Hj1. intros Hb. by apply (Hjobs op' b (Hcat op' H1 H2) Hb). }
  rewrite (bind_inr _ _ _ _ _ E2). cbn [fst snd]. rewrite Hcomp. cbn [negb andb]. rewrite andb_false_r.
  fold needs. rewrite ?andb_false_r. set (rec := records _ _ _ _ _). set (s' := if rec then _ else s).
  assert (Hs' : is_Name s' = is_Name s ∧ is_Mirror s' = is_Mirror s) by (unfold s'; by destruct rec).
  assert (∃ w3, (if rec then is_update s' else mret tt) w2 = (inr tt, w3) ∧ calm w3 ∧ w_jobs w3 = w_jobs w) as (w3 & E3 & Hw3 & Hj3).
  { destruct rec; [|exists w2; split_and!; [done|done|congruence]]. unfold is_update.
    match goal with |- context [gate_call ?f w2] => destruct (gate_call_calm f w2 Hw2) as (w3 & E & ? & G1 & G2 & G3) end.
    rewrite E, G3. destruct (w_is w2) eqn:Ei; [|exfalso; apply His1, His2 in His; by destruct His].
    eexists. split; [done|]. cbn. split; [done|congruence]. }
  clearbody s' rec. rewrite (bind_inr _ _ _ _ _ E3).
  assert (Hbn : alreadyBuilt s && negb needs = false) by (destruct Hready as [->| ->]; [done|by rewrite andb_false_r]). rewrite Hbn.
  destruct Hs' as [Hn Hm]. rewrite <- Hn in *.
  destruct (build_loop_starts now s' mt snap phases needs (mi_Operators (is_Mirror s)) (true, false) w3) as (acc' & w4 & E4 & _ & _ & G & _); try done.
  - intros op' H1 H2. rewrite Hdig. split; [by apply Hpin, Hcat|]. destruct (Hph op' H1 H2) as (ph & Hp & Hin). unfold phase_in in Hin.
    unfold restartable. rewrite Hj3, Hp. rewrite Hj1 in Hin. destruct (w_jobs w !! JobName (is_Name s') (op_Catalog op')) as [b|] eqn:Eb.
    + right. destruct (Hjobs op' b (Hcat op' H1 H2) Eb) as [Ht Hneed]. split; [done|]. subst ph. destruct Ht as [-> | ->]; auto.
    + left. by subst ph.
  - rewrite (bind_inr _ _ _ _ _ E4), report_phases_quiet. rewrite Hdig in G. unfold catalogs_of in Hop.
    apply elem_of_filter_bool in Hop as [Hne Hop]. apply G; [done|]. apply negb_true_iff in Hne. by apply String.eqb_neq.
Qed.
End calm_runs.

(** ** Sequences of runs *)

Section settle.
Context `{Hash : HashJSON} `{Sha : Sha256} `{RR : RegRef} (rfc3339 : Z → string) (err_text : apiErr → string) (operatorImage : string).

(** A run of the controller with the time, the conflicts and the targets it
    meets, in the world it finds; in between, Jobs run, finish, fail, or are
    removed when their time to live is over, and calls may fail. *)
Record gate_run := mkGateRun { gr_now : Z; gr_conflicts : nat → bool; gr_targets : option (list MirrorTarget); gr_world : World }.
Definition gate_after (r : gate_run) : World :=
  snd (Reconcile rfc3339 err_text operatorImage (gr_now r) (gr_conflicts r) (gr_targets r) (gr_world r)).

(** The inputs of a build, as far as a state to build from is stored, are [i]. *)
Definition same_inputs (i : build_inputs) (w : World) : Prop :=
  ∀ s cm st digests, w_is w = Some s → w_cms w !! ConfigMapName (is_Name s) = Some cm → decode cm = inr st → decodeDigests cm = inr digests →
    inputs_of rfc3339 operatorImage s (snapshot_of s st digests) = i.

(** Nobody else changes the annotations, and the inputs are [i]. *)
Fixpoint undisturbed (i : build_inputs) (annos : option (gmap string string)) (runs : list gate_run) : Prop :=
  match runs with
  | [] => True
  | r :: runs => w_annos (gr_world r) = annos ∧ same_inputs i (gr_world r) ∧ undisturbed i (w_annos (gate_after r)) runs
  end.

Lemma reconcile_effect i r : same_inputs i (gr_world r) →
  (w_annos (gate_after r) = w_annos (gr_world r) ∧ replaces (gr_world r) (gate_after r) = false) ∨
  ∃ a built expired active, w_annos (gr_world r) = Some a ∧
    let '(a', again) := run_rebuild i true built expired active a in
    w_annos (gate_after r) = Some a' ∧ (again = false → replaces (gr_world r) (gate_after r) = false).
Proof.
  destruct r as [now conflicts targets w]. unfold gate_after. cbn [gr_now gr_conflicts gr_targets gr_world]. intros Hin.
  unfold Reconcile. rewrite attempt_bind.
  assert (Hget : ∀ s, fst (is_get w) = inr s → w_is w = Some s).
  { intros s. unfold is_get, gate_call. destruct (cl_faults (w_cluster w)) as [|[] fs]; cbn; destruct (w_is w); congruence. }
  pose proof (is_get_quiet w) as Hq. pose proof (annos_is_get w) as Hqa. pose proof (is_get_cms_quiet w) as Hqc.
  destruct (is_get w) as [r w1]. cbn in Hget, Hq, Hqa, Hqc.
  destruct r as [[]|s]; [left; cbn; split; [done|by apply replaces_same]..|].
  specialize (Hget s eq_refl). cbn [fst snd]. destruct (findOwningMirrorTarget targets s) as [mt|reason].
  2: { left. rewrite bind_eq, ignore_eq. cbn. split; [by rewrite annos_is_status_update|]. apply replaces_same. by rewrite is_status_update_quiet. }
  set (stale := match List.find _ _ with Some _ => _ | None => _ end). set (s' := if stale then _ else s).
  assert (Hs' : ∃ cs, s' = with_conditions cs s).
  { unfold s'. destruct stale; [by eexists|]. exists (st_Conditions (is_Status s)). by destruct s as [? ? ? ? []]. }
  clearbody s'. rewrite bind_eq.
  assert (Hup : quiet w_jobs (if stale then is_status_update s' else mret tt)) by (destruct stale; auto with oc).
  assert (Hupa : quiet w_annos (if stale then is_status_update s' else mret tt)) by (destruct stale; auto with oc).
  assert (Hupc : quiet w_cms (if stale then is_status_update s' else mret tt))
    by (destruct stale; [apply is_status_update_cms_quiet|auto with oc]).
  specialize (Hup w1). specialize (Hupa w1). specialize (Hupc w1). set (w2 := snd ((if stale then is_status_update s' else mret tt) w1)) in *.
  destruct (fst _) as [e|[]]; [left; cbn; split; [congruence|apply replaces_same; congruence]|]. rewrite attempt_bind.
  pose proof (jobs_effect rfc3339 operatorImage now conflicts s' mt (pollExpired now mt s') w2) as He. cbn zeta in He.
  set (run := reconcileCatalogBuildJobs _ _ _ _ _ _ _ _) in *.
  match goal with |- context [snd (?k (snd run))] => set (rest := k : GATE (option Z)) end.
  assert (Hend : w_jobs (snd (rest (snd run))) = w_jobs (snd run) ∧ w_annos (snd (rest (snd run))) = w_annos (snd run)).
  { unfold rest. destruct (fst run); [|done]. rewrite bind_eq, ignore_eq. cbn. by rewrite is_status_update_quiet, annos_is_status_update. }
  destruct Hend as [Hej Hea]. assert (Hrep : ∀ x, replaces w2 (snd run) = x → replaces w (snd (rest (snd run))) = x).
  { intros x <-. unfold replaces. by rewrite Hej, Hup, Hq. }
  destruct He as [[Ha Hr]|(snap & active & Hsnap & Hc & He)]; [left; split; [congruence|by apply Hrep]|]. right.
  destruct (loadMirrorSnapshot_complete s' w2 snap Hsnap Hc) as (cm & st & digests & H1 & H2 & H3 & ->). destruct Hs' as [cs ->].
  specialize (Hin s cm st digests Hget). rewrite <- Hqc, <- Hupc in Hin. specialize (Hin H1 H2 H3).
  exists (is_Annotations s), (alreadyBuilt (with_conditions cs s)), (pollExpired now mt (with_conditions cs s)), active.
  split; [unfold w_annos; by rewrite Hget|].
  change (inputs_of rfc3339 operatorImage (with_conditions cs s) (snapshot_of (with_conditions cs s) st digests)) with
    (inputs_of rfc3339 operatorImage s (snapshot_of s st digests)) in He. rewrite Hin in He.
  change (is_Annotations (with_conditions cs s)) with (is_Annotations s) in He. destruct (run_rebuild _ _ _ _ _ _) as [a' again].
  destruct He as [He1 He2]. split; [congruence|]. intros Hag. by apply Hrep, He2.
Qed.

(** The runs of a sequence that replace a Job. *)
Definition replacing (runs : list gate_run) : list gate_run := List.filter (λ r, replaces (gr_world r) (gate_after r)) runs.

Lemma replacing_polled i a runs : polled i a → undisturbed i (Some a) runs → replacing runs = [].
Proof.
  intros Hp. induction runs as [|r runs IH]; [done|]. intros (Ha & Hi & Hu). cbn.
  destruct (reconcile_effect i r Hi) as [[E ->]|(a0 & built & expired & active & E & He)]; [apply IH; congruence|].
  rewrite Ha in E. injection E as <-. rewrite polled_no_rebuild in He by done. destruct He as [E ->]; [|done]. apply IH. by rewrite <- E.
Qed.

Lemma replacing_recorded i a runs : recorded i a → undisturbed i (Some a) runs → length (replacing runs) ≤ 1.
Proof.
  revert a. induction runs as [|r runs IH]; intros a Hr; [cbn; lia|]. intros (Ha & Hi & Hu). cbn.
  destruct (reconcile_effect i r Hi) as [[E ->]|(a0 & built & expired & active & E & He)]; [apply (IH a); [done|congruence]|].
  rewrite Ha in E. injection E as <-. destruct (run_rebuild i true built expired active a) as [a' again] eqn:Er. destruct He as [E He].
  rewrite E in Hu. destruct again.
  - assert (replacing runs = []) as Hz by (apply (replacing_polled i a'); [by eapply recorded_rebuild|done]). fold (replacing runs).
    rewrite Hz. destruct (replaces _ _); cbn; lia.
  - rewrite He by done. apply (IH a'); [|done]. eapply run_rebuild_recorded; eauto.
Qed.

Lemma replacing_bounded i annos runs : undisturbed i annos runs → length (replacing runs) ≤ 2.
Proof.
  revert annos. induction runs as [|r runs IH]; intros annos; [cbn; lia|]. intros (Ha & Hi & Hu). cbn. fold (replacing runs).
  destruct (reconcile_effect i r Hi) as [[E ->]|(a & built & expired & active & E & He)]; [by eapply IH|].
  destruct (run_rebuild i true built expired active a) as [a' again] eqn:Er. destruct He as [E' He]. rewrite E' in Hu. destruct again.
  - assert (length (replacing runs) ≤ 1) as Hz by (apply (replacing_recorded i a'); [eapply run_rebuild_recorded; eauto|done]).
    destruct (replaces _ _); cbn; lia.
  - rewrite He by done. by apply (IH _ Hu).
Qed.
End settle.

(** * Properties *)

(** C15: no catalog is built too early, whichever API calls fail.  The signatures of
    the operator entries, being hashes, are not empty.  When a Job is not the same after a run of the ImageSet controller as before it, exactly one
    MirrorTarget lists the ImageSet; the state ConfigMap the run read shows every
    image of the ImageSet Mirrored or permanently failed, for the current
    generation of the spec, with an image for each operator entry (a state with
    an operator image from before entry signatures were stored is taken as a
    whole); a Job of this name that was there when the run began had finished;
    and one that is there when it ends pulls the catalog pinned to the digest
    stored with that state, pushes to the location of the operator entry, and
    filters with its packages.  (It says nothing of Jobs that come and go within
    the run: of two entries with one catalog the second deletes the Job the first
    has just started, [same_catalog_deletes_running].) *)
Theorem catalog_build_gate `{HashJSON} `{Sha256} `{RegRef} rfc3339 err_text operatorImage now conflicts targets w j :
  let w' := snd (Reconcile rfc3339 err_text operatorImage now conflicts targets w) in
  (∀ s op, w_is w = Some s → op ∈ catalogs_of s → OperatorEntrySignature op ≠ "") →
  w_jobs w' !! j ≠ w_jobs w !! j →
  ∃ s mt, w_is w = Some s ∧ findOwningMirrorTarget targets s = Bound mt ∧
    gate_respected (w_cms w) s mt j (w_jobs w !! j) (w_jobs w' !! j).
Proof.
  cbn zeta. intros Hsig. unfold Reconcile. rewrite attempt_bind.
  assert (Hget : ∀ s, fst (is_get w) = inr s → w_is w = Some s).
  { intros s. unfold is_get, gate_call. destruct (cl_faults (w_cluster w)) as [|[] fs]; cbn; destruct (w_is w); congruence. }
  pose proof (is_get_quiet w) as Hq. pose proof (is_get_cms_quiet w) as Hqc.
  destruct (is_get w) as [r w1]. cbn in Hget, Hq, Hqc. destruct r as [[]|s]; [cbn; congruence..|].
  specialize (Hget s eq_refl). cbn [fst snd]. destruct (findOwningMirrorTarget targets s) as [mt|reason] eqn:Eb.
  2: { rewrite bind_eq, ignore_eq. cbn. rewrite is_status_update_quiet. congruence. }
  set (stale := match List.find _ _ with Some _ => _ | None => _ end). set (s' := if stale then _ else s).
  assert (Hs' : ∀ cms before after, gate_respected cms s' mt j before after → gate_respected cms s mt j before after)
    by (unfold s'; by destruct stale).
  assert (Hsig' : ∀ op, op ∈ catalogs_of s' → OperatorEntrySignature op ≠ "").
  { intros op Hop. apply (Hsig s); [done|]. revert Hop. unfold s'. by destruct stale. }
  clearbody s'. rewrite bind_eq.
  assert (Hup : quiet w_jobs (if stale then is_status_update s' else mret tt)) by (destruct stale; auto with oc).
  assert (Hupc : quiet w_cms (if stale then is_status_update s' else mret tt))
    by (destruct stale; [apply is_status_update_cms_quiet|auto with oc]).
  specialize (Hup w1). specialize (Hupc w1). set (w2 := snd ((if stale then is_status_update s' else mret tt) w1)) in *.
  destruct (fst _) as [e|[]]; [cbn; congruence|]. rewrite attempt_bind.
  set (run := reconcileCatalogBuildJobs _ _ _ _ _ _ _ _).
  assert (Hend : w_jobs (snd ((match fst run with
      | inl e => _ ← ignore (is_status_update (set_catalog_condition now "False" "CatalogBuildFailed" (err_text e) s'));
                 mret (Some (30 * second_ns)%Z)
      | inr _ => mret (if pollingEnabled mt then Some (pollInterval mt) else None)
      end : GATE (option Z)) (snd run))) = w_jobs (snd run)).
  { destruct (fst run); [|done]. rewrite bind_eq, ignore_eq. cbn. apply is_status_update_quiet. }
  rewrite Hend. intros Hne. exists s, mt. split_and!; [done|done|]. apply Hs'. rewrite <- Hqc, <- Hupc, <- Hq, <- Hup.
  apply reconcile_jobs_gate; [done|]. by rewrite Hup, Hq.
Qed.

(** C17: rebuilds settle.  In any sequence of runs of the ImageSet controller,
    whichever calls fail and whatever happens to the Jobs and the status in
    between, as long as nobody else changes the annotations of the ImageSet and
    the inputs of a build (the operator image, the operator entries, the digests
    stored with the state, the recollect marker, the time of the last poll) stay
    the same, at most two runs remove or replace a Job that exists: one because
    the inputs differ from the recorded build, and one because the poll interval
    expired.  (A Job that its time to live has removed may be created again; such
    runs replace nothing and are not counted.) *)
Theorem rebuilds_settle `{HashJSON} `{Sha256} `{RegRef} rfc3339 err_text operatorImage i annos runs :
  undisturbed rfc3339 err_text operatorImage i annos runs →
  length (replacing rfc3339 err_text operatorImage runs) ≤ 2.
Proof. apply replacing_bounded. Qed.

(** C16: the gate opens.  When no call fails, the state is complete, each entry's
    digest is stored with it, and the catalog has not been built yet or its
    inputs changed, then the run ends with a new Job for every operator entry,
    pinned to that digest.  The entries have different Job names, and a Job that
    is left from an earlier build has finished and the inputs have changed since:
    a finished Job, also a failed one, whose inputs are the recorded ones is not
    replaced.  The signatures of the entries, being hashes, are not empty. *)
Theorem catalog_build_starts `{HashJSON} `{Sha256} `{RegRef} rfc3339 operatorImage now conflicts s mt expired w cm st digests :
  calm w → is_Some (w_is w) →
  w_cms w !! ConfigMapName (is_Name s) = Some cm → decode cm = inr st → decodeDigests cm = inr digests →
  (∀ op, op ∈ catalogs_of s → OperatorEntrySignature op ≠ "") → complete_state s st →
  NoDup (map (λ op, JobName (is_Name s) (op_Catalog op)) (catalogs_of s)) →
  (∀ op, op ∈ catalogs_of s → is_Some (pinnedCatalogRef digests op)) →
  let needs := catalogNeedsRebuild (inputs_of rfc3339 operatorImage s (snapshot_of s st digests)) (alreadyBuilt s) expired false (is_Annotations s) in
  (∀ op b, op ∈ catalogs_of s → w_jobs w !! JobName (is_Name s) (op_Catalog op) = Some b → terminal b ∧ needs = true) →
  alreadyBuilt s = false ∨ needs = true →
  ∀ op, op ∈ catalogs_of s →
    w_jobs (snd (reconcileCatalogBuildJobs rfc3339 operatorImage now conflicts s mt expired w)) !! JobName (is_Name s) (op_Catalog op)
    = new_job mt op <$> pinnedCatalogRef digests op.
Proof. intros. by eapply reconcile_jobs_starts. Qed.

(** ** Examples *)

Definition zeros64 : string := "0000000000000000000000000000000000000000000000000000000000000000".
#[refine] Definition ex_sha : Sha256 := {| sha256_hex s := take_bytes 64 (s +:+ zeros64) |}.
Proof. intros s. rewrite take_bytes_length, length_app_s. change (String.length zeros64) with 64. lia. Defined.
Definition ex_ref : RegRef := {| regref := string; ref_New := Some; SetDigest d r := r +:+ "@" +:+ d; CommonName r := r |}.

Definition ex_gate_op (tag : string) : Operator := mkOperator "quay.io/cat:v1" "" tag false false false [ex_pkg "app"].
Definition ex_gate_set (ops : list Operator) (annos : gmap string string) (cs : list Condition) : ImageSet :=
  mkImageSet "is1" annos 1 (mkMirror (mkPlatform false [] [] false) ops [] [] [] false) (mkStatus cs 1 1 0 0 [] 1 None).
Definition ex_gate_state : gmap string (option ImageEntry) :=
  {["reg/app" := Some (mkImageEntry "quay.io/app" "Mirrored" "" 0 OriginOperator "quay.io/cat:v1app" "" "" false false None false "")]}.
Definition ex_gate_digests : gmap string string :=
  {["mirror.openshift.io/catalog-digest-quay.io/cat:v1app" := "v5:sha256:ab"]}.
Definition ex_gate_cms : gmap string ConfigMap := {["is1-images" := state_cm ex_gate_state (Some ex_gate_digests) None]}.
Definition ex_world (faults : list bool) (jobs : gmap string BuildJob) (s : ImageSet) : World :=
  mkWorld (mkCluster ex_gate_cms faults) jobs (Some s).
Definition ex_job_name : string := @JobName ex_sha "is1" "quay.io/cat:v1".
Definition ex_reconcile (w : World) : World :=
  snd (@Reconcile ex_hash ex_sha ex_ref (λ _, "t") (λ _, "error") "operator:v2" 100 (λ _, false) (Some [ex_res_target]) w).

(** A world after an earlier build with another operator image. *)
Definition ex_built : ImageSet :=
  ex_gate_set [ex_gate_op ""] {[catalogBuildSigAnnotation := "old"]} [mkCondition conditionCatalogReady "True" "" "" 1 0].
Definition ex_old_job : BuildJob := mkBuildJob "quay.io/cat:v1@sha256:00" "reg/cat:v1" [ex_pkg "app"] 1 0 0.

Definition ex_stale_world : World := ex_world [] {[ex_job_name := ex_old_job]} ex_built.

Lemma catalog_build_gate_witness :
  ∃ s mt, findOwningMirrorTarget (Some [ex_res_target]) s = Bound mt ∧
    @gate_respected ex_hash ex_sha ex_ref ex_gate_cms s mt ex_job_name (w_jobs ex_stale_world !! ex_job_name)
      (w_jobs (ex_reconcile ex_stale_world) !! ex_job_name).
Proof.
  destruct (@catalog_build_gate ex_hash ex_sha ex_ref (λ _, "t") (λ _, "error") "operator:v2" 100 (λ _, false) (Some [ex_res_target])
    ex_stale_world ex_job_name) as (s & mt & _ & H1 & H2).
  - intros s op [= <-] [->|?%elem_of_nil]%elem_of_cons; [discriminate|done].
  - by_vm.
  - exists s, mt. split; [exact H1|exact H2].
Defined.

(** The rebuild, then a run that finds its Job failed. *)
Definition ex_first_run : gate_run := mkGateRun 100 (λ _, false) (Some [ex_res_target]) ex_stale_world.
Definition ex_failed_world : World :=
  let w := ex_reconcile ex_stale_world in mkWorld (w_cluster w) (fmap (λ b, mkBuildJob (bj_Source b) (bj_Target b) (bj_Packages b) 0 0 4) (w_jobs w)) (w_is w).
Definition ex_second_run : gate_run := mkGateRun 200 (λ _, false) (Some [ex_res_target]) ex_failed_world.

Lemma ex_same_inputs w : w_cms w = ex_gate_cms → (∀ s, w_is w = Some s → is_Name s = "is1" ∧ is_Mirror s = is_Mirror ex_built ∧
    anno (is_Annotations s) RecollectHonoredAnnotation = "" ∧ st_LastSuccessfulPollTime (is_Status s) = None) →
  @same_inputs ex_hash ex_sha (λ _, "t") "operator:v2" (@inputs_of ex_hash ex_sha (λ _, "t") "operator:v2" ex_built (@snapshot_of ex_hash ex_built ex_gate_state ex_gate_digests)) w.
Proof.
  intros Hc Hs s cm st digests His Hcm Hd Hdd. destruct (Hs s His) as (Hn & Hm & Ha & Hp). rewrite Hc, Hn in Hcm.
  change (Some (state_cm ex_gate_state (Some ex_gate_digests) None) = Some cm) in Hcm. injection Hcm as <-. cbn in Hdd. injection Hdd as <-.
  assert (decode (state_cm ex_gate_state (Some ex_gate_digests) None) = inr ex_gate_state) as E by by_vm. rewrite E in Hd. injection Hd as <-.
  assert (∀ s, sn_digests (@snapshot_of ex_hash s ex_gate_state ex_gate_digests) = ex_gate_digests) as Hsn.
  { intros s0. unfold snapshot_of. rewrite decide_False by by_vm. cbv zeta. by repeat match goal with |- context [if ?b then _ else _] => destruct b end. }
  unfold inputs_of. rewrite !Hsn, Hm, Ha, Hp. done.
Qed.

Lemma rebuilds_settle_witness :
  length (@replacing ex_hash ex_sha ex_ref (λ _, "t") (λ _, "error") "operator:v2" [ex_first_run; ex_second_run]) ≤ 2 ∧
  @replaces (gr_world ex_first_run) (@gate_after ex_hash ex_sha ex_ref (λ _, "t") (λ _, "error") "operator:v2" ex_first_run) = true.
Proof.
  split; [|by_vm]. eapply (@rebuilds_settle ex_hash ex_sha ex_ref (λ _, "t") (λ _, "error") "operator:v2"
    (@inputs_of ex_hash ex_sha (λ _, "t") "operator:v2" ex_built (@snapshot_of ex_hash ex_built ex_gate_state ex_gate_digests)) (Some (is_Annotations ex_built))).
  split; [reflexivity|]. split; [apply ex_same_inputs; [reflexivity|]; intros s [= <-]; done|]. split; [reflexivity|].
  split; [|exact I]. apply ex_same_inputs; [vm_compute; reflexivity|]. intros s Hs. assert (w_is (gr_world ex_second_run) = Some s) as E by exact Hs. clear Hs.
  vm_compute in E. injection E as <-. done.
Defined.

Lemma catalog_build_starts_witness :
  w_jobs (snd (@reconcileCatalogBuildJobs ex_hash ex_sha ex_ref (λ _, "t") "operator:v2" 100 (λ _, false) ex_built ex_res_target false
    ex_stale_world)) !! ex_job_name =
  Some (mkBuildJob "quay.io/cat:v1@sha256:ab" "reg/cat:v1" [ex_pkg "app"] 0 0 0).
Proof.
  apply (@catalog_build_starts ex_hash ex_sha ex_ref (λ _, "t") "operator:v2" 100 (λ _, false) ex_built ex_res_target false
    ex_stale_world (state_cm ex_gate_state (Some ex_gate_digests) None) ex_gate_state
    ex_gate_digests) with (op := ex_gate_op "").
  - by constructor.
  - by eexists.
  - apply lookup_singleton_eq.
  - by_vm.
  - reflexivity.
  - intros op [->|?%elem_of_nil]%elem_of_cons; [discriminate|done].
  - assert (∀ e, has_entry ex_gate_state e → e = mkImageEntry "quay.io/app" "Mirrored" "" 0 OriginOperator "quay.io/cat:v1app" "" "" false false None false "") as He.
    { intros e [d Hd]. unfold ex_gate_state in Hd. apply lookup_singleton_Some in Hd as [_ Hd]. by injection Hd as <-. }
    assert (has_entry ex_gate_state (mkImageEntry "quay.io/app" "Mirrored" "" 0 OriginOperator "quay.io/cat:v1app" "" "" false false None false "")) as Hin.
    { exists "reg/app". reflexivity. }
    split; [|split; [|split; [reflexivity|right]]].
    + intros e ->%He. by left.
    + eexists. split; [exact Hin|reflexivity].
    + intros op [->|?%elem_of_nil]%elem_of_cons; [|done]. eexists. split; [exact Hin|split; reflexivity].
  - apply NoDup_singleton.
  - intros op [->|?%elem_of_nil]%elem_of_cons; [by eexists|done].
  - intros op b [->|?%elem_of_nil]%elem_of_cons; [|done]. intros E. assert (b = ex_old_job) as ->; [|by split; [left|by_vm]].
    change (Some ex_old_job = Some b) in E. by injection E.
  - right. by_vm.
  - by left.
Defined.

(** ** Lost rebuilds *)

(** When the delete of the finished Job fails the run goes on as if it had
    happened: the finished Job is taken for the rebuild, CatalogReady is set,
    and, since the new inputs were recorded, no later run builds the catalog. *)
Lemma failed_delete_loses_rebuild :
  let w := ex_world [false; false; false; false; false; true] {[ex_job_name := ex_old_job]} ex_built in
  let w' := ex_reconcile w in
  w_jobs w' = {[ex_job_name := ex_old_job]} ∧
  (alreadyBuilt <$> w_is w') = Some true ∧ w_jobs (ex_reconcile w') = {[ex_job_name := ex_old_job]} ∧
  w_jobs (ex_reconcile ex_stale_world) =
    {[ex_job_name := mkBuildJob "quay.io/cat:v1@sha256:ab" "reg/cat:v1" [ex_pkg "app"] 0 0 0]}.
Proof. cbv zeta. by_vm. Qed.

(** Two operator entries of one catalog with different target tags share a Job
    name: only the first entry's catalog is built. *)
Lemma same_catalog_built_once :
  let w := ex_world [] ∅ (ex_gate_set [ex_gate_op "a"; ex_gate_op "b"] ∅ []) in
  bj_Target <$> w_jobs (ex_reconcile w) = {[ex_job_name := "reg/cat:a"]}.
Proof. cbv zeta. by_vm. Qed.

(** And when both are built again, the second entry deletes the Job the first
    one has just started. *)
Lemma same_catalog_deletes_running :
  let w := ex_world [] {[ex_job_name := ex_old_job]}
    (ex_gate_set [ex_gate_op "a"; ex_gate_op "b"] {[catalogBuildSigAnnotation := "old"]} [mkCondition conditionCatalogReady "True" "" "" 1 0]) in
  bj_Target <$> w_jobs (ex_reconcile w) = {[ex_job_name := "reg/cat:b"]}.
Proof. cbv zeta. by_vm. Qed.
