(* ===== verification/CatalogImage.v ===== *)
(** * Catalog images

    How a file-based catalog is read out of the layers of an image and how
    the filtered catalog image is put together (pkg/mirror/catalog/resolver.go:
    loadFBCFromImage, classifySourceLayers, buildFBCLayer and the layer part of
    BuildFilteredCatalogImage).  Registry transfers, compression and digests
    are left out; a layer is the sequence of its tar entries.  Parsing and
    printing of a catalog file are the interface [FBC] of operator-registry. *)
From S2P Require Import Prelude GoStrings Api Semver CatalogGraph CatalogFilter.

(** ** Layers *)

Inductive typeflag := TypeReg | TypeDir | TypeOther.

(** A tar entry; [te_Data] is [None] when the stream ends before [te_Size]
    bytes. *)
Record tarEntry := mkTarEntry { te_Name : string; te_Type : typeflag; te_Size : Z; te_Data : option string }.

(** What reading a layer blob gives: an error, bytes that are not gzip, or the
    entries of a tar stream, which may break off with an error. *)
Inductive blob := Unreadable | NotGzip | Tar (entries : list tarEntry) (broken : bool).

Definition configsPath : string := "configs/".
Definition cachePath : string := "tmp/cache/".
Definition maxFBCFileSize : Z := 512 * 2 ^ 20.

(** [None] is errIncompleteFBC. *)
Definition readFBCFile (e : tarEntry) : option string := if (maxFBCFileSize <? te_Size e)%Z then None else te_Data e.

Definition entry_name (e : tarEntry) : string := TrimPrefix (te_Name e) "./".
Definition is_reg (e : tarEntry) : bool := match te_Type e with TypeReg => true | _ => false end.
Definition is_dir (e : tarEntry) : bool := match te_Type e with TypeDir => true | _ => false end.

(** ** Reading a catalog *)

Abbreviation files := (gmap string string).

Fixpoint extract_entries (entries : list tarEntry) (fs : files) : option files :=
  match entries with
  | [] => Some fs
  | e :: entries =>
    let name := entry_name e in
    if negb (HasPrefix name configsPath) then extract_entries entries fs
    else if negb (is_reg e) then extract_entries entries fs
    else data ← readFBCFile e; extract_entries entries (<[name := data]> fs)
  end.

(** [Unreadable] is handled by the caller. *)
Definition extractFBCLayer (b : blob) (fs : files) : option files :=
  match b with
  | Tar entries broken => fs ← extract_entries entries fs; if (broken : bool) then None else Some fs
  | _ => Some fs
  end.

(** The loop over the layers; an unreadable one is skipped. *)
Fixpoint load_layers (layers : list blob) (fs : files) : option files :=
  match layers with
  | [] => Some fs
  | Unreadable :: layers => load_layers layers fs
  | b :: layers => fs ← extractFBCLayer b fs; load_layers layers fs
  end.

(** [declcfg.LoadFS] on the files under configs/, and [declcfg.WriteYAML]. *)
Class FBC := {
  LoadFS : files → option DeclarativeConfig;
  WriteYAML : DeclarativeConfig → option string;
}.

Section images.
Context `{F : FBC}.

Definition parseExtractedFBC (fs : files) : option DeclarativeConfig := if decide (fs = ∅) then None else LoadFS fs.

Definition loadFBCFromImage (layers : list blob) : option DeclarativeConfig :=
  fs ← load_layers layers ∅; parseExtractedFBC fs.

(** ** Classifying layers *)

(** The state of the loop of [classifyAndExtractFBC]. *)
Record classify := mkClassify { cl_fs : files; cl_sawAny : bool; cl_fbcOnly : bool }.

Fixpoint classify_entries (entries : list tarEntry) (c : classify) : option classify :=
  match entries with
  | [] => Some c
  | e :: entries =>
    let name := entry_name e in
    if is_dir e then classify_entries entries c
    else
      fs ← (if is_reg e && HasPrefix name configsPath
            then data ← readFBCFile e; Some (<[name := data]> (cl_fs c)) else Some (cl_fs c));
      if negb (HasPrefix name configsPath) && negb (HasPrefix name cachePath)
      then classify_entries entries (mkClassify fs (cl_sawAny c) false)
      else if negb (is_reg e) then classify_entries entries (mkClassify fs (cl_sawAny c) false)
      else classify_entries entries (mkClassify fs true (cl_fbcOnly c))
  end.

(** The kept layers and the files under configs/; [None]: some layer's FBC
    content is incomplete. *)
Fixpoint classifySourceLayers (layers : list blob) (kept : list blob) (fs : files) : option (list blob * files) :=
  match layers with
  | [] => Some (kept, fs)
  | Tar entries broken :: layers =>
    c ← classify_entries entries (mkClassify fs false true);
    if (broken : bool) then None
    else classifySourceLayers layers (if cl_sawAny c && cl_fbcOnly c then kept else kept ++ [Tar entries broken]) (cl_fs c)
  | b :: layers => classifySourceLayers layers (kept ++ [b]) fs
  end.

(** ** The filtered image *)

(** The configuration written for one package; of packages with the same name
    the last one. *)
Definition package_config (cfg : DeclarativeConfig) (name : string) : DeclarativeConfig :=
  mkConfig (option_list (index_by pk_Name (dc_Packages cfg) !! name))
    (List.filter (λ c, String.eqb (cn_Package c) name) (dc_Channels cfg))
    (List.filter (λ b, String.eqb (bd_Package b) name) (dc_Bundles cfg)).

Definition package_names (cfg : DeclarativeConfig) : list string :=
  sort_strings (elements (dom (index_by pk_Name (dc_Packages cfg)))).

Definition dir_entry (name : string) : tarEntry := mkTarEntry name TypeDir 0 (Some "").
Definition file_entry (name data : string) : tarEntry := mkTarEntry name TypeReg (Z.of_nat (String.length data)) (Some data).

Definition catalog_path (pkg : string) : string := "configs/" +:+ pkg +:+ "/catalog.yaml".

Fixpoint package_entries (cfg : DeclarativeConfig) (names : list string) : option (list tarEntry) :=
  match names with
  | [] => Some []
  | name :: names =>
    yaml ← WriteYAML (package_config cfg name);
    rest ← package_entries cfg names;
    Some (dir_entry ("configs/" +:+ name +:+ "/") :: file_entry (catalog_path name) yaml :: rest)
  end.

Definition buildFBCLayer (cfg : DeclarativeConfig) : option (list tarEntry) :=
  rest ← package_entries cfg (package_names cfg);
  Some ([dir_entry "configs/"; file_entry "configs/.wh..wh..opq" "";
         dir_entry "tmp/"; dir_entry "tmp/cache/"; file_entry "tmp/cache/.wh..wh..opq" ""] ++ rest).

(** The layers of the image that is pushed, with the filtered catalog. *)
Definition BuildFilteredCatalogImage `{SV : Semver} (order : gset string → list string) (layers : list blob)
    (includes : list IncludePackage) : option (list blob * DeclarativeConfig) :=
  r ← classifySourceLayers layers [] ∅;
  let '(kept, fs) := r : list blob * files in
  cfg ← parseExtractedFBC fs;
  match FilterFBC order cfg includes with
  | inl _ => None
  | inr filtered => layer ← buildFBCLayer filtered; Some (kept ++ [Tar layer false], filtered)
  end.
End images.

(** * Specification: OCI layers *)

(** The directory of a path, with its slash, and the last component. *)
Definition dir_base (name : string) : string * string :=
  match cut_last "/" name with Some (d, b) => (d +:+ "/", b) | None => ("", name) end.

Definition opaque_base : string := ".wh..wh..opq".

(** The entry [e] hides path [p] of the layers below: an opaque whiteout the
    contents of its directory, a whiteout the path it names, a file whatever
    was below its own path. *)
Definition hides (e : tarEntry) (p : string) : bool :=
  if is_dir e then false
  else
    let '(d, b) := dir_base (entry_name e) in
    if String.eqb b opaque_base then HasPrefix p d
    else match strip_prefix ".wh." b with
         | Some x => String.eqb p (d +:+ x) || HasPrefix p (d +:+ x +:+ "/")
         | None => HasPrefix p (entry_name e +:+ "/")
         end.

Definition is_whiteout (e : tarEntry) : bool := HasPrefix (snd (dir_base (entry_name e))) ".wh.".

(** The files a layer adds. *)
Definition layer_files (entries : list tarEntry) : files :=
  foldl (λ fs e, if is_dir e || is_whiteout e then fs else <[entry_name e := default "" (te_Data e)]> fs) ∅ entries.

Definition apply_layer (fs : files) (entries : list tarEntry) : files :=
  layer_files entries ∪ filter (λ kv, existsb (λ e, hides e (fst kv)) entries = false) fs.

(** The file system of an image; layers that are not tar add nothing. *)
Definition blob_entries (b : blob) : list tarEntry := match b with Tar entries _ => entries | _ => [] end.
Definition image_files (layers : list blob) : files := foldl apply_layer ∅ (map blob_entries layers).

(** * Lemmas *)

#[local] Arguments entry_name : simpl never.
#[local] Arguments HasPrefix : simpl never.
#[local] Arguments readFBCFile : simpl never.
#[local] Arguments dir_base : simpl never.

(** ** Both readers see the same files *)

Lemma classify_extract entries c :
  cl_fs <$> classify_entries entries c = extract_entries entries (cl_fs c).
Proof.
  revert c. induction entries as [|e entries IH]; intros c; [done|]. cbn.
  destruct (HasPrefix (entry_name e) configsPath) eqn:Ep; unfold is_reg, is_dir; destruct (te_Type e); cbn; rewrite ?IH; try done.
  - destruct (readFBCFile e); cbn; [by rewrite IH|done].
  - by destruct (negb (HasPrefix (entry_name e) cachePath)); rewrite IH.
  - by destruct (negb (HasPrefix (entry_name e) cachePath)); rewrite IH.
Qed.

Lemma classify_load layers kept fs : snd <$> classifySourceLayers layers kept fs = load_layers layers fs.
Proof.
  revert kept fs. induction layers as [|[| |entries broken] layers IH]; intros kept fs; cbn; [done|apply IH..|].
  pose proof (classify_extract entries (mkClassify fs false true)) as Hc. cbn in Hc. rewrite <- Hc.
  destruct (classify_entries entries _) as [c|]; [|done]. cbn. by destruct broken.
Qed.

(** ** Paths *)

Lemma dir_base_prefix pre r : ∃ d, fst (dir_base (pre +:+ "/" +:+ r)) = pre +:+ "/" +:+ d.
Proof.
  unfold dir_base. destruct (cut_last "/" r) as [[x y]|] eqn:E.
  - replace (pre +:+ "/" +:+ r) with ((pre +:+ "/") +:+ r) by by rewrite <- app_assoc_s.
    rewrite (cut_last_prefix _ _ _ _ _ E). cbn. exists (x +:+ "/"). by rewrite <- !app_assoc_s.
  - apply cut_last_char_None in E. change ("/" +:+ r) with (String "/" r). rewrite cut_last_char_app by done. exists "". done.
Qed.

Lemma dir_base_app name : let '(d, b) := dir_base name in name = d +:+ b.
Proof.
  unfold dir_base. destruct (cut_last "/" name) as [[d b]|] eqn:E; [|done]. apply cut_last_Some in E as ->. by rewrite app_assoc_s.
Qed.

Lemma HasPrefix_trans p a b : HasPrefix p (a +:+ b) = true → HasPrefix p a = true.
Proof. rewrite !HasPrefix_spec. intros (r & ->). exists (b +:+ r). by rewrite app_assoc_s. Qed.

(** A file below a directory hides nothing outside it. *)
Lemma hides_below pre e p :
  HasPrefix (entry_name e) (pre +:+ "/") = true → HasPrefix p (pre +:+ "/") = false → hides e p = false.
Proof.
  intros [r Hr]%HasPrefix_spec Hp. unfold hides. destruct (is_dir e); [done|].
  rewrite <- app_assoc_s in Hr. destruct (dir_base_prefix pre r) as [d Hd]. rewrite <- Hr in Hd.
  destruct (dir_base (entry_name e)) as [d' b]. cbn in Hd. subst d'.
  assert (Hno : ∀ x, HasPrefix p ((pre +:+ "/" +:+ d) +:+ x) = false).
  { intros x. apply not_true_iff_false. intros H%HasPrefix_trans. rewrite app_assoc_s in H. apply HasPrefix_trans in H. congruence. }
  destruct (String.eqb b opaque_base); [specialize (Hno ""); by rewrite app_nil_r_s in Hno|].
  destruct (strip_prefix ".wh." b) as [x|].
  - rewrite (Hno (x +:+ "/")), orb_false_r. apply String.eqb_neq. intros ->. specialize (Hno x).
    apply not_true_iff_false in Hno. apply Hno. rewrite <- (app_nil_r_s (_ +:+ x)) at 1. apply HasPrefix_app.
  - rewrite Hr. apply not_true_iff_false. intros H. rewrite app_assoc_s, <- app_assoc_s in H. apply HasPrefix_trans in H. congruence.
Qed.

(** ** Layers that are left out *)

(** Directories aside, only regular files of the catalog or its cache. *)
Definition fbc_only (entries : list tarEntry) : Prop :=
  ∀ e, e ∈ entries → is_dir e = true ∨
    HasPrefix (entry_name e) configsPath = true ∨ HasPrefix (entry_name e) cachePath = true.

Lemma classify_skippable entries c c' :
  classify_entries entries c = Some c' → cl_fbcOnly c' = true → cl_fbcOnly c = true ∧ fbc_only entries.
Proof.
  revert c. induction entries as [|e entries IH]; intros c; cbn.
  { intros [= ->] ?. split; [done|]. by intros ? ?%elem_of_nil. }
  assert (Hcons : (is_dir e = true ∨ HasPrefix (entry_name e) configsPath = true ∨ HasPrefix (entry_name e) cachePath = true) →
    fbc_only entries → fbc_only (e :: entries)) by (by intros ? ? ? [->|?]%elem_of_cons; auto).
  destruct (is_dir e); [intros E H; destruct (IH _ E H); auto|].
  destruct (if is_reg e && _ then _ else _) as [fs|]; [|done]. cbn.
  destruct (HasPrefix (entry_name e) configsPath) eqn:E1, (HasPrefix (entry_name e) cachePath) eqn:E2; cbn;
    try (destruct (is_reg e); cbn); intros E H; destruct (IH _ E H) as [? ?]; try done; auto.
Qed.

Definition outside (p : string) : Prop := HasPrefix p configsPath = false ∧ HasPrefix p cachePath = false.

(** The files a layer adds, on top of [fs]. *)
Definition add_files (fs : files) (entries : list tarEntry) : files :=
  foldl (λ fs e, if is_dir e || is_whiteout e then fs else <[entry_name e := default "" (te_Data e)]> fs) fs entries.

Lemma add_files_fbc_only fs entries p : fbc_only entries → outside p → add_files fs entries !! p = fs !! p.
Proof.
  intros He [H1 H2]. unfold add_files. apply (foldl_inv_simple (λ fs' : files, fs' !! p = fs !! p)); [done|].
  intros e acc Hin Hacc. destruct (is_dir e || is_whiteout e) eqn:Ed; [done|]. apply orb_false_iff in Ed as [Ed _].
  rewrite lookup_insert_ne; [done|]. intros <-. destruct (He e Hin) as [?|[?|?]]; congruence.
Qed.

Lemma apply_lookup fs entries (p : string) :
  apply_layer fs entries !! p =
  match add_files ∅ entries !! p with
  | Some v => Some v
  | None => if existsb (λ e, hides e p) entries then None else fs !! p
  end.
Proof.
  unfold apply_layer, layer_files. fold (add_files ∅ entries). rewrite lookup_union.
  destruct (add_files ∅ entries !! p) as [v|]; [by rewrite union_Some_l|].
  rewrite (left_id_L None (∪)). rewrite map_lookup_filter. destruct (fs !! p) as [v|]; cbn; [|by destruct (existsb _ _)].
  case_guard; [|destruct (existsb _ _); done]. destruct (existsb _ _); done.
Qed.

Lemma apply_same fs1 fs2 entries (p : string) : fs1 !! p = fs2 !! p → apply_layer fs1 entries !! p = apply_layer fs2 entries !! p.
Proof. intros E. by rewrite !apply_lookup, E. Qed.

Lemma apply_fbc_only fs entries p : fbc_only entries → outside p → apply_layer fs entries !! p = fs !! p.
Proof.
  intros He Hp. rewrite apply_lookup, add_files_fbc_only, lookup_empty by done.
  assert (existsb (λ e, hides e p) entries = false) as ->; [|done].
  apply existsb_not_elem. intros e Hin. destruct Hp as [H1 H2]. destruct (He e Hin) as [Hd|[Hc|Hc]].
  - unfold hides. by rewrite Hd.
  - by apply (hides_below "configs").
  - by apply (hides_below "tmp/cache").
Qed.

Definition image_from (fs : files) (layers : list blob) : files := foldl apply_layer fs (map blob_entries layers).

Lemma image_from_same fs1 fs2 layers (p : string) : fs1 !! p = fs2 !! p → image_from fs1 layers !! p = image_from fs2 layers !! p.
Proof.
  revert fs1 fs2. induction layers as [|b layers IH]; intros fs1 fs2 E; [done|]. apply IH. by apply apply_same.
Qed.

(** The kept layers are the image outside the catalog and its cache. *)
Lemma kept_outside layers kept fs kept' fs' p :
  classifySourceLayers layers kept fs = Some (kept', fs') → outside p →
  ∃ new, kept' = kept ++ new ∧ ∀ f, image_from f layers !! p = image_from f new !! p.
Proof.
  intros E Hp. revert kept fs E. induction layers as [|b layers IH]; intros kept fs; cbn [classifySourceLayers].
  { intros [= -> ->]. exists []. split; [by rewrite app_nil_r|done]. }
  assert (Hkeep : ∀ fs, classifySourceLayers layers (kept ++ [b]) fs = Some (kept', fs') →
    ∃ new, kept' = kept ++ new ∧ ∀ f, image_from f (b :: layers) !! p = image_from f new !! p).
  { intros fs1 E. destruct (IH _ _ E) as (new & -> & Hnew). exists (b :: new). split; [by rewrite <- app_assoc|].
    intros f. apply Hnew. }
  destruct b as [| |entries broken]; [apply Hkeep..|].
  destruct (classify_entries entries _) as [c|] eqn:Ec; [|done]. cbn. destruct broken; [done|].
  destruct (cl_sawAny c && cl_fbcOnly c) eqn:Es; [|apply Hkeep].
  apply andb_true_iff in Es as [_ Es]. apply (classify_skippable _ _ _ Ec) in Es as [_ Honly].
  intros E. destruct (IH _ _ E) as (new & -> & Hnew). exists new. split; [done|]. intros f.
  change (image_from (apply_layer f entries) layers !! p = image_from f new !! p).
  rewrite <- Hnew. apply image_from_same. by apply apply_fbc_only.
Qed.

(** ** The catalog layer *)

Section layer.
Context `{F : FBC}.

#[export] Instance catalog_path_inj : Inj (=) (=) catalog_path.
Proof. intros a b E. unfold catalog_path in E. apply app_inv_head_s in E. by apply app_inv_tail_s in E. Qed.

Lemma dir_base_catalog pkg : dir_base (catalog_path pkg) = ("configs/" +:+ pkg +:+ "/", "catalog.yaml").
Proof.
  unfold dir_base, catalog_path. replace ("configs/" +:+ pkg +:+ "/catalog.yaml") with (("configs/" +:+ pkg) +:+ String "/" "catalog.yaml")
    by by rewrite <- app_assoc_s.
  rewrite cut_last_char_app by done. by rewrite <- app_assoc_s.
Qed.

Lemma entry_name_configs r data : entry_name (file_entry ("configs/" +:+ r) data) = "configs/" +:+ r.
Proof. done. Qed.

Lemma package_entries_files cfg names rest fs (p y : string) :
  package_entries cfg names = Some rest → NoDup names →
  add_files fs rest !! p = Some y ↔
  (∃ pkg, pkg ∈ names ∧ p = catalog_path pkg ∧ WriteYAML (package_config cfg pkg) = Some y) ∨
  (fs !! p = Some y ∧ ∀ pkg, pkg ∈ names → p ≠ catalog_path pkg).
Proof.
  revert rest fs. induction names as [|n names IH]; intros rest fs; cbn [package_entries].
  { intros [= <-] _. split; [intros ?; right; split; [done|by intros ? ?%elem_of_nil]|].
    intros [(? & ?%elem_of_nil & _)|[? _]]; done. }
  destruct (WriteYAML (package_config cfg n)) as [yaml|] eqn:Ey; [|done]. cbn.
  destruct (package_entries cfg names) as [rest'|]; [|done]. cbn. intros [= <-] [Hn Hnd]%NoDup_cons.
  set (d := dir_entry _). set (f := file_entry _ _).
  assert (Hadd : add_files fs (d :: f :: rest') = add_files (<[catalog_path n := yaml]> fs) rest').
  { unfold add_files. cbn [foldl]. assert (En : entry_name f = catalog_path n) by done.
    unfold is_whiteout at 2. rewrite En, dir_base_catalog. done. }
  rewrite Hadd, (IH rest' _ eq_refl Hnd). split.
  - intros [(pkg & ? & ? & ?)|[[[<- <-]|[? ?]]%lookup_insert_Some Hno]].
    + left. exists pkg. split_and!; [by right|done|done].
    + left. exists n. split_and!; [by left|done|done].
    + right. split; [done|]. intros pkg [->|?]%elem_of_cons; [congruence|auto].
  - intros [(pkg & [->|?]%elem_of_cons & -> & ?)|[? Hno]].
    + right. rewrite lookup_insert_eq. split; [congruence|]. intros pkg ? ->%(inj catalog_path). done.
    + left. eauto.
    + right. rewrite lookup_insert_ne; [|intros <-; apply (Hno n); [by left|done]]. split; [done|]. intros pkg ?. apply Hno. by right.
Qed.

Lemma package_names_NoDup cfg : NoDup (package_names cfg).
Proof. unfold package_names. rewrite sort_strings_perm. apply NoDup_elements. Qed.

Lemma elem_of_package_names cfg n : n ∈ package_names cfg ↔ n ∈ map pk_Name (dc_Packages cfg).
Proof. unfold package_names. by rewrite sort_strings_perm, elem_of_elements, elem_of_dom, index_by_is_Some. Qed.

Lemma package_entries_in cfg names rest e :
  package_entries cfg names = Some rest → e ∈ rest →
  is_dir e = true ∨ ∃ pkg yaml, e = file_entry (catalog_path pkg) yaml.
Proof.
  revert rest. induction names as [|n names IH]; intros rest; cbn [package_entries].
  { intros [= <-] ?%elem_of_nil. done. }
  destruct (WriteYAML _) as [yaml|]; [|done]. cbn. destruct (package_entries cfg names) as [rest'|]; [|done]. cbn.
  intros [= <-]. rewrite !elem_of_cons. intros [->|[->|?]]; [by left|right; eauto|eauto].
Qed.

(** Applying the layer of a filtered catalog: /configs is the catalog, the
    cache is gone, the rest is untouched. *)
Lemma FBCLayer_lookup cfg layer fs p :
  buildFBCLayer cfg = Some layer →
  (outside p → apply_layer fs layer !! p = fs !! p) ∧
  (HasPrefix p cachePath = true → HasPrefix p configsPath = false → apply_layer fs layer !! p = None) ∧
  (HasPrefix p configsPath = true → ∀ y, apply_layer fs layer !! p = Some y ↔
     ∃ pkg, pkg ∈ map pk_Name (dc_Packages cfg) ∧ p = catalog_path pkg ∧ WriteYAML (package_config cfg pkg) = Some y).
Proof.
  unfold buildFBCLayer. destruct (package_entries cfg (package_names cfg)) as [rest|] eqn:Er; [|done]. cbn. intros [= <-].
  set (opq1 := file_entry "configs/.wh..wh..opq" ""). set (opq2 := file_entry "tmp/cache/.wh..wh..opq" "").
  set (layer := _ :: _).
  assert (Hadd : add_files ∅ layer = add_files ∅ rest) by reflexivity.
  assert (Hfiles : ∀ y, add_files ∅ layer !! p = Some y ↔
    ∃ pkg, pkg ∈ map pk_Name (dc_Packages cfg) ∧ p = catalog_path pkg ∧ WriteYAML (package_config cfg pkg) = Some y).
  { intros y. rewrite Hadd, (package_entries_files _ _ _ ∅ _ _ Er (package_names_NoDup cfg)). setoid_rewrite elem_of_package_names.
    rewrite lookup_empty. naive_solver. }
  assert (Hnone : HasPrefix p configsPath = false → add_files ∅ layer !! p = None).
  { intros Hp. destruct (add_files ∅ layer !! p) as [y|]; [|done]. destruct (proj1 (Hfiles y) eq_refl) as (pkg & _ & -> & _).
    exfalso. apply not_true_iff_false in Hp. apply Hp. apply (HasPrefix_app "configs/"). }
  assert (Hhide : ∀ e, e ∈ [opq1; opq2] → hides e p = true → existsb (λ e, hides e p) layer = true).
  { intros e He Hh. apply existsb_elem. exists e. split; [|done]. unfold layer. set_solver. }
  split_and!.
  - intros Hp. apply apply_fbc_only; [|done]. intros e He. unfold layer in He. rewrite !elem_of_cons in He.
    destruct He as [->|[->|[->|[->|[->|He]]]]]; [by left|right; by left|by left|by left|right; by right|].
    destruct (package_entries_in _ _ _ _ Er He) as [?|(pkg & yaml & ->)]; [by left|]. right. left. apply (HasPrefix_app "configs/").
  - intros Hc Hp. rewrite apply_lookup, (Hnone Hp), (Hhide opq2); [done|right; by left|exact Hc].
  - intros Hp y. rewrite apply_lookup. destruct (add_files ∅ layer !! p) as [y'|]; [apply Hfiles|].
    rewrite (Hhide opq1); [apply Hfiles|by left|exact Hp].
Qed.
End layer.

(** * Properties *)

(** The builder filters the catalog the manager resolved: reading the layers
    with classification, as the builder does, and without, as the manager
    does, fails on the same images and yields the same files under /configs. *)
Theorem catalog_read_alike layers :
  match classifySourceLayers layers [] ∅, load_layers layers ∅ with
  | Some (_, fs), Some fs' => fs = fs'
  | None, None => True
  | _, _ => False
  end.
Proof.
  pose proof (classify_load layers [] ∅) as E. destruct (classifySourceLayers layers [] ∅) as [[kept fs]|]; cbn in E; by rewrite <- E.
Qed.

(** C18: The image that is pushed serves the filtered catalog and nothing else: in
    its file system, under the overlay semantics of OCI layers, /configs
    consists of one file per package of the filtered catalog, with the
    package, its channels and its bundles; the cache of the unfiltered catalog
    is gone; and every other file is the one of the source image. *)
Theorem filtered_image_serves_filtered_catalog `{FBC} `{Semver} order layers includes built filtered p :
  BuildFilteredCatalogImage order layers includes = Some (built, filtered) →
  (HasPrefix p configsPath = true → ∀ y, image_files built !! p = Some y ↔
     ∃ pkg, pkg ∈ map pk_Name (dc_Packages filtered) ∧ p = catalog_path pkg ∧ WriteYAML (package_config filtered pkg) = Some y) ∧
  (HasPrefix p cachePath = true → HasPrefix p configsPath = false → image_files built !! p = None) ∧
  (outside p → image_files built !! p = image_files layers !! p) ∧
  ∃ cfg, loadFBCFromImage layers = Some cfg ∧ FilterFBC order cfg includes = inr filtered.
Proof.
  unfold BuildFilteredCatalogImage. destruct (classifySourceLayers layers [] ∅) as [[kept fs]|] eqn:Ec; [|done]. cbn.
  destruct (parseExtractedFBC fs) as [cfg|] eqn:Ep; [|done]. cbn. destruct (FilterFBC order cfg includes) as [?|f] eqn:Ef; [done|].
  destruct (buildFBCLayer f) as [layer|] eqn:El; [|done]. cbn. intros [= <- <-].
  assert (Hb : image_files (kept ++ [Tar layer false]) = apply_layer (image_files kept) layer).
  { unfold image_files. by rewrite map_app, foldl_app. }
  rewrite Hb. destruct (FBCLayer_lookup f layer (image_files kept) p El) as (H1 & H2 & H3). split_and!; [done|done| |].
  - intros Hp. rewrite H1 by done. destruct (kept_outside _ _ _ _ _ p Ec Hp) as (new & -> & Hnew). symmetry. apply (Hnew ∅).
  - exists cfg. split; [|done]. unfold loadFBCFromImage. pose proof (classify_load layers [] ∅) as E. rewrite Ec in E. cbn in E.
    by rewrite <- E.
Qed.

(** A source image with a binary and the catalog of two packages, read by a
    parser that recognises it. *)
Definition ex_ci_config : DeclarativeConfig :=
  mkConfig [mkPackage "a" "stable"; mkPackage "b" "stable"] [mkCatChannel "stable" "a" [mkEntry "a.v1" "" [] ""];
    mkCatChannel "stable" "b" [mkEntry "b.v1" "" [] ""]] [mkBundle "a.v1" "a" "img-a" [] []; mkBundle "b.v1" "b" "img-b" [] []].
Definition ex_fbc : FBC := {| LoadFS _ := Some ex_ci_config; WriteYAML c := Some (Join (map bd_Name (dc_Bundles c)) ",") |}.
Definition ex_layers : list blob :=
  [Tar [file_entry "bin/opm" "elf"; file_entry "configs/a/catalog.yaml" "a"] false; Tar [file_entry "configs/b/catalog.yaml" "b"] false].

Lemma filtered_image_serves_filtered_catalog_witness :
  ∃ built filtered, @BuildFilteredCatalogImage ex_fbc number_semver elements ex_layers [mkIncludePackage "a" [] "" 0 (mkIncludeBundle "" "") []]
    = Some (built, filtered) ∧ length built = 2 ∧ image_files built !! "bin/opm" = image_files ex_layers !! "bin/opm".
Proof.
  destruct (@BuildFilteredCatalogImage ex_fbc number_semver elements ex_layers [mkIncludePackage "a" [] "" 0 (mkIncludeBundle "" "") []])
    as [[built filtered]|] eqn:E; [|vm_compute in E; discriminate].
  exists built, filtered. split; [reflexivity|]. split.
  - assert (length <$> (fst <$> Some (built, filtered)) = Some 2) as Hl; [|by injection Hl]. rewrite <- E. vm_compute. reflexivity.
  - apply (@filtered_image_serves_filtered_catalog ex_fbc number_semver elements ex_layers [mkIncludePackage "a" [] "" 0 (mkIncludeBundle "" "") []]
      built filtered "bin/opm" E). split; reflexivity.
Defined.

(** ** Partial catalogs *)

(** A layer that cannot be read is as good as absent: the catalog is read
    from the others without an error. *)
Lemma unreadable_layer_ignored layers1 layers2 fs : load_layers (layers1 ++ Unreadable :: layers2) fs = load_layers (layers1 ++ layers2) fs.
Proof.
  revert fs. induction layers1 as [|b layers1 IH]; intros fs; [done|]. destruct b; cbn; rewrite ?IH; try done.
  destruct (extract_entries entries fs) as [fs1|]; [|done]. cbn. destruct broken; [done|apply IH].
Qed.

(** A file removed by a whiteout of a later layer is not in the file system of
    the image, but it is in the catalog that is read from it. *)
Lemma whiteout_not_applied :
  let layers := [Tar [file_entry "configs/a/catalog.yaml" "a"] false; Tar [file_entry "configs/.wh.a" ""] false] in
  image_files layers !! "configs/a/catalog.yaml" = None ∧
  (load_layers layers ∅ ≫= (.!! "configs/a/catalog.yaml")) = Some "a".
Proof. cbv zeta. split; vm_compute; reflexivity. Qed.
