(* ===== verification/Registry.v ===== *)
(** * The registry client

    pkg/mirror/client: the cache of clients (cache.go), their configuration, the
    plain-HTTP and HTTPS legs of insecure registries, copying images with their
    signatures, existence checks and deletions, and the buffering of large blobs
    (client.go).  regclient is the interface [RegLib]; what it and the
    registries promise is [RegLaws]. *)
From S2P Require Import Prelude Effects GoStrings ImageRef Api.

(** ** Client configuration *)

Inductive TLSConf := TLSUndefined | TLSEnabled | TLSInsecure | TLSDisabled.
Record Host := mkHost { h_Name : string; h_TLS : TLSConf; h_BlobMax : Z; h_BlobChunk : Z }.
(** [WithDockerCreds] or [WithDockerCredsFile]. *)
Inductive Creds := DockerCreds | DockerCredsFile (path : string).
(** What a regclient is built from. *)
Record RegClient := mkRegClient { rg_Creds : Creds; rg_Hosts : gmap string Host }.

Definition largeBlobThreshold : Z := 100 * 1024 * 1024.
Definition streamChunkSize : Z := 16 * 1024 * 1024.

Definition destHostConfig (name : string) (tls : TLSConf) (monolithic : bool) : Host :=
  if monolithic then mkHost name tls (-1) 0 else mkHost name tls largeBlobThreshold streamChunkSize.

Definition newRegClient (authConfigPath : string) (hostMap : gmap string Host) : RegClient :=
  mkRegClient (if String.eqb authConfigPath "" then DockerCreds else DockerCredsFile (authConfigPath +:+ "/config.json")) hostMap.

(** The loops over hosts: empty names are skipped. *)
Definition add_hosts (tls : TLSConf) (monolithic : bool) (hosts : list string) (hostMap : gmap string Host) : gmap string Host :=
  foldl (λ m h, if String.eqb h "" then m else <[h := destHostConfig h tls monolithic]> m) hostMap hosts.

(** The two clients of a MirrorClient: [rc] and [rcFallback]. *)
Record Legs := mkLegs { lg_rc : RegClient; lg_rcFallback : option RegClient }.

Definition newMirrorClient (insecureHosts : list string) (authConfigPath : string) (destHosts : list string) (monolithic : bool) : Legs :=
  let hostMap := add_hosts TLSDisabled monolithic insecureHosts (add_hosts TLSUndefined monolithic destHosts ∅) in
  mkLegs (newRegClient authConfigPath hostMap)
    (if decide (insecureHosts = []) then None
     else Some (newRegClient authConfigPath (add_hosts TLSInsecure monolithic insecureHosts hostMap))).

(** A client and what its [newBuffered] builds, which is [None] for clients not
    built by [NewMirrorClient]. *)
Record MirrorClient := mkClient { mc_legs : Legs; mc_newBuffered : option Legs }.

Definition NewMirrorClient (insecureHosts : list string) (authConfigPath : string) (destHosts : list string) : MirrorClient :=
  mkClient (newMirrorClient insecureHosts authConfigPath destHosts false)
    (Some (newMirrorClient insecureHosts authConfigPath destHosts true)).

Definition bufferedClient (c : MirrorClient) : Legs := default (mc_legs c) (mc_newBuffered c).

(** ** The cache of clients *)

Record ClientCache := mkCache {
  cc_cache : gmap string MirrorClient;
  cc_lastRefresh : gmap string Z;
  cc_refreshAfter : Z;
}.

Definition NewClientCacheWithInterval (refreshAfter : Z) : ClientCache := mkCache ∅ ∅ refreshAfter.
Definition NewClientCache : ClientCache := NewClientCacheWithInterval (5 * 60 * 10 ^ 9).

Definition cacheKey (insecureHosts : list string) (authConfigPath : string) : string :=
  authConfigPath +:+ String "000"%char (Join (sort_strings insecureHosts) ",").

(** [RefreshClient] at time [now]; the same steps end [GetOrCreate]. *)
Definition RefreshClient (now : Z) (insecureHosts : list string) (authConfigPath : string) (cc : ClientCache) : MirrorClient * ClientCache :=
  let key := cacheKey insecureHosts authConfigPath in
  let client := NewMirrorClient insecureHosts authConfigPath [] in
  (client, mkCache (<[key := client]> (cc_cache cc)) (<[key := now]> (cc_lastRefresh cc)) (cc_refreshAfter cc)).

(** A key that is not in [lastRefresh] reads as the zero time, which no entry
    of the cache has. *)
Definition GetOrCreate (now : Z) (insecureHosts : list string) (authConfigPath : string) (cc : ClientCache) : MirrorClient * ClientCache :=
  let key := cacheKey insecureHosts authConfigPath in
  match cc_cache cc !! key, cc_lastRefresh cc !! key with
  | Some existing, Some last => if (now - last <? cc_refreshAfter cc)%Z then (existing, cc) else RefreshClient now insecureHosts authConfigPath cc
  | _, _ => RefreshClient now insecureHosts authConfigPath cc
  end.

(** ** regclient *)

(** types/ref. *)
Record Ref := mkRef { rf_Scheme : string; rf_Registry : string; rf_Repository : string; rf_Path : string; rf_Tag : string; rf_Digest : string }.
#[export] Instance Ref_eq_dec : EqDecision Ref.
Proof. solve_decision. Defined.
Definition with_tag (r : Ref) (tag digest : string) : Ref :=
  mkRef (rf_Scheme r) (rf_Registry r) (rf_Repository r) (rf_Path r) tag digest.
(** The repository a reference points into. *)
Abbreviation Repo := (string * string * string * string)%type.
Definition repo (r : Ref) : Repo := (rf_Scheme r, rf_Registry r, rf_Repository r, rf_Path r).

(** types/descriptor. *)
Record Descriptor := mkDesc { d_MediaType : string; d_Digest : string; d_Size : Z; d_Annotations : gmap string string }.
(** A manifest list or an image. *)
Inductive Manifest := MList (entries : list Descriptor) | MImage (config : Descriptor) (layers : list Descriptor).
(** The parts of an image configuration the code reads or replaces. *)
Record History := mkHistory { hi_Created : string; hi_CreatedBy : string; hi_Comment : string }.
Record ImageConf := mkConf {
  ic_Created : string; ic_DiffIDs : list string; ic_Labels : gmap string string; ic_Cmd : list string; ic_History : list History;
}.
#[export] Instance Descriptor_eq_dec : EqDecision Descriptor.
Proof. solve_decision. Defined.
#[export] Instance Manifest_eq_dec : EqDecision Manifest.
Proof. solve_decision. Defined.
(** The image options the code passes. *)
Inductive ImageOpt := ImageWithPlatforms (platforms : list string) | ImageWithBlobReaderHook.
(** A stream: the bytes it yields, whether it breaks off with an error after
    them, and whether it can be rewound. *)
Record Reader := mkReader { rd_Data : string; rd_Broken : bool; rd_Seekable : bool }.

(** [io.ReadAll] *)
Definition ReadAll (r : Reader) : option string := if rd_Broken r then None else Some (rd_Data r).

Definition IsList (m : Manifest) : bool := match m with MList _ => true | _ => false end.
Definition GetLayers (m : Manifest) : option (list Descriptor) := match m with MList _ => None | MImage _ layers => Some layers end.
Definition GetManifestList (m : Manifest) : option (list Descriptor) := match m with MList l => Some l | MImage _ _ => None end.

(** The calls, over the state of the network.  [lib_left] is the stream a
    [BlobPut] leaves; [ctx_done] says that the deadline has passed. *)
Class RegLib := {
  Net : Type;
  LibErr : Type;
  lib_NotFound : LibErr → bool;   (* errors.Is(err, errs.ErrNotFound) *)
  ctx_done : Net → bool;
  ref_New : string → option Ref;
  CommonName : Ref → string;
  SetDigest : Ref → string → Ref;
  ManifestDigest : Manifest → string;
  FromBytes : string → string;    (* the digest of bytes *)
  GetPlatformDesc : Manifest → string → option Descriptor;
  lib_ImageCopy : RegClient → list ImageOpt → Ref → Ref → M Net LibErr unit;
  lib_ManifestHead : RegClient → Ref → M Net LibErr string;
  lib_ManifestGet : RegClient → Ref → M Net LibErr Manifest;
  lib_ManifestPut : RegClient → Ref → Manifest → M Net LibErr unit;
  lib_ManifestDelete : RegClient → Ref → M Net LibErr unit;
  lib_TagDelete : RegClient → Ref → M Net LibErr unit;
  lib_ReferrerList : RegClient → Ref → M Net LibErr (list string);
  lib_BlobHead : RegClient → Ref → Descriptor → M Net LibErr unit;
  lib_BlobGet : RegClient → Ref → Descriptor → M Net LibErr Reader;
  lib_BlobPut : RegClient → Ref → Descriptor → Reader → M Net LibErr Descriptor;
  lib_left : RegClient → Ref → Descriptor → Reader → Net → Reader;
  lib_BlobCopy : RegClient → Ref → Ref → Descriptor → M Net LibErr unit;
  lib_ImageConfig : RegClient → Ref → string → M Net LibErr ImageConf;
}.

(** ** Errors *)

Inductive Err `{RegLib} :=
  | Lib (e : LibErr)
  | Msg (what : string)
  | Wrap (what : string) (e : Err)
  | Both (primary fallback : Err).

(** [errors.Is(err, errs.ErrNotFound)] *)
Fixpoint is_NotFound `{RegLib} (e : Err) : bool :=
  match e with
  | Lib e => lib_NotFound e
  | Msg _ => false
  | Wrap _ e => is_NotFound e
  | Both p f => is_NotFound p || is_NotFound f
  end.

Section client.
Context `{L : RegLib}.

(** A call into the library. *)
Definition lib {A} (m : M Net LibErr A) : M Net Err A := λ w, let '(r, w') := m w in (match r with inl e => inl (Lib e) | inr a => inr a end, w').
(** [if err != nil { return fmt.Errorf(what, err) }] *)
Definition wrap {A} (what : string) (m : M Net Err A) : M Net Err A :=
  λ w, let '(r, w') := m w in (match r with inl e => inl (Wrap what e) | inr a => inr a end, w').
Definition parse_ref (what s : string) : M Net Err Ref :=
  match ref_New s with Some r => mret r | None => fail (Msg what) end.

(** ** The two legs *)

Inductive leg := Primary | Fallback.

Definition fallbackError (primary fallback : Err) : Err := Both primary fallback.

Definition withFallback {T} (c : Legs) (call : leg → RegClient → M Net Err T) : M Net Err T := λ w,
  match call Primary (lg_rc c) w with
  | (inr v, w1) => (inr v, w1)
  | (inl err, w1) =>
    match lg_rcFallback c with
    | None => (inl err, w1)
    | Some fb =>
      if ctx_done w1 then (inl err, w1)
      else match call Fallback fb w1 with
           | (inr fv, w2) => (inr fv, w2)
           | (inl ferr, w2) => (inl (fallbackError err ferr), w2)
           end
    end
  end.

(** ** Copying images *)

Definition DownloadToOCILayout (c : Legs) (src ociDir : string) (platforms : list string) : M Net Err unit :=
  srcRef ← parse_ref "failed to parse source reference" src;
  dstRef ← parse_ref "failed to build ocidir reference" ("ocidir://" +:+ ociDir +:+ ":source");
  let opts := if decide (platforms = []) then [] else [ImageWithPlatforms platforms] in
  wrap "failed to download to OCI layout" (withFallback c (λ _ rc, lib (lib_ImageCopy rc opts srcRef dstRef))).

(** The referrers are copied one by one; errors are only logged. *)
Fixpoint copy_referrers (rc : RegClient) (srcRef destRef : Ref) (digests : list string) : M Net Err unit :=
  match digests with
  | [] => mret tt
  | d :: digests =>
    _ ← ignore (lib (lib_ImageCopy rc [] (SetDigest srcRef d) (SetDigest destRef d)));
    copy_referrers rc srcRef destRef digests
  end.

Definition copyReferrersBestEffort (rc : RegClient) (srcRef destRef : Ref) : M Net Err unit :=
  srcDigest ← (if String.eqb (rf_Digest srcRef) ""
               then r ← attempt (lib (lib_ManifestHead rc srcRef)); mret (match r with inl _ => "" | inr d => d end)
               else mret (rf_Digest srcRef));
  if String.eqb srcDigest "" then mret tt
  else
    rl ← attempt (lib (lib_ReferrerList rc (SetDigest srcRef srcDigest)));
    match rl with inl _ => mret tt | inr digests => copy_referrers rc srcRef destRef digests end.

(** [strings.Replace(d, ":", "-", 1)] *)
Definition dash_digest (d : string) : string := match cut ":" d with Some (a, b) => a +:+ "-" +:+ b | None => d end.

(** The destination with the synthesised tag. *)
Definition tagged_dest (srcRef destRef : Ref) : Ref :=
  if negb (String.eqb (rf_Digest srcRef) "") && String.eqb (rf_Tag srcRef) "" && String.eqb (rf_Tag destRef) ""
  then with_tag destRef (dash_digest (rf_Digest srcRef)) (rf_Digest destRef) else destRef.

Definition sigTag (digest : string) : string := "sha256-" +:+ TrimPrefix digest "sha256:" +:+ ".sig".

Definition copyImageWith (rc : RegClient) (src dest : string) (opts : list ImageOpt) : M Net Err string :=
  srcRef ← parse_ref "failed to parse source reference" src;
  destRef0 ← parse_ref "failed to parse destination reference" dest;
  let destRef := tagged_dest srcRef destRef0 in
  _ ← wrap "failed to copy image" (lib (lib_ImageCopy rc opts srcRef destRef));
  let effectiveDest := CommonName destRef in
  _ ← copyReferrersBestEffort rc srcRef destRef;
  _ ← (if String.eqb (rf_Digest srcRef) "" then mret tt
       else let tag := sigTag (rf_Digest srcRef) in
            ignore (lib (lib_ImageCopy rc [] (with_tag srcRef tag "") (with_tag destRef tag ""))));
  mret effectiveDest.

Definition copyImage (c : Legs) (src dest : string) (opts : list ImageOpt) : M Net Err string :=
  withFallback c (λ _ rc, copyImageWith rc src dest opts).

Definition CopyImage (c : MirrorClient) (src dest : string) : M Net Err string := copyImage (mc_legs c) src dest [].
Definition CopyImageBuffered (c : MirrorClient) (src dest : string) : M Net Err string :=
  copyImage (bufferedClient c) src dest [ImageWithBlobReaderHook].

(** ** Looking at images *)

Definition checkExistWith (rc : RegClient) (image : string) : M Net Err bool :=
  r ← parse_ref "invalid reference" image;
  h ← attempt (lib (lib_ManifestHead rc r));
  match h with
  | inl err => if is_NotFound err then mret false else fail (Wrap "manifest head" err)
  | inr _ => mret true
  end.

Definition CheckExist (c : Legs) (image : string) : M Net Err bool := withFallback c (λ _ rc, checkExistWith rc image).

Definition getDigestWith (rc : RegClient) (image : string) : M Net Err string :=
  r ← parse_ref "invalid reference" image; lib (lib_ManifestHead rc r).

Definition GetDigest (c : Legs) (image : string) : M Net Err string := withFallback c (λ _ rc, getDigestWith rc image).

(** Errors count as absent; the fallback is asked even when the deadline has
    passed. *)
Definition BlobExists (c : Legs) (r : Ref) (d : Descriptor) : M Net Err bool :=
  h ← attempt (lib (lib_BlobHead (lg_rc c) r d));
  match h with
  | inr _ => mret true
  | inl _ =>
    match lg_rcFallback c with
    | None => mret false
    | Some fb => h ← attempt (lib (lib_BlobHead fb r d)); mret (match h with inr _ => true | inl _ => false end)
    end
  end.

(** ** Manifests and blobs *)

Definition ManifestHead (c : Legs) (r : Ref) : M Net Err string := withFallback c (λ _ rc, lib (lib_ManifestHead rc r)).
Definition ManifestGet (c : Legs) (r : Ref) : M Net Err Manifest := withFallback c (λ _ rc, lib (lib_ManifestGet rc r)).
Definition ManifestPut (c : Legs) (r : Ref) (m : Manifest) : M Net Err unit := withFallback c (λ _ rc, lib (lib_ManifestPut rc r m)).
Definition BlobGet (c : Legs) (r : Ref) (d : Descriptor) : M Net Err Reader := withFallback c (λ _ rc, lib (lib_BlobGet rc r d)).
Definition BlobCopy (c : Legs) (src dst : Ref) (d : Descriptor) : M Net Err unit := withFallback c (λ _ rc, lib (lib_BlobCopy rc src dst d)).
Definition ImageConfig (c : Legs) (r : Ref) : M Net Err ImageConf := withFallback c (λ _ rc, lib (lib_ImageConfig rc r "linux/amd64")).

(** The second leg gets the stream from its start when it can be rewound, and
    what the first leg left of it otherwise. *)
Definition BlobPut (c : Legs) (r : Ref) (d : Descriptor) (rdr : Reader) : M Net Err Descriptor := λ w,
  let left := lib_left (lg_rc c) r d rdr w in
  withFallback c (λ l rc, lib (lib_BlobPut rc r d (match l with Primary => rdr | Fallback => if rd_Seekable rdr then rdr else left end))) w.

(** ** Deleting images *)

Definition gone (what : string) (m : M Net LibErr unit) : M Net Err unit :=
  r ← attempt (lib m);
  match r with
  | inr _ => mret tt
  | inl err => if is_NotFound err then mret tt else fail (Wrap what err)
  end.

Definition deleteManifestWith (rc : RegClient) (image : string) : M Net Err unit :=
  r ← parse_ref "failed to parse reference" image;
  if String.eqb (rf_Digest r) "" then gone "failed to delete tag" (lib_TagDelete rc r)
  else gone "failed to delete manifest" (lib_ManifestDelete rc r).

Definition DeleteManifest (c : Legs) (image : string) : M Net Err unit := withFallback c (λ _ rc, deleteManifestWith rc image).
End client.

(** ** Buffering large blobs *)

(** The buffer directory: open temporary files, the next name, and which of the
    coming system calls fail. *)
Record TempFS := mkTemp { tf_Files : gmap nat string; tf_Next : nat; tf_Faults : list bool }.
Inductive buffer_err := CreateFailed | BufferFailed | SeekFailed.

Definition sys_fault : M TempFS buffer_err bool := λ s,
  match tf_Faults s with [] => (inr false, s) | b :: l => (inr b, mkTemp (tf_Files s) (tf_Next s) l) end.
Definition temp_write (f : nat) (data : string) : M TempFS buffer_err unit :=
  modS (λ s, mkTemp (<[f := data]> (tf_Files s)) (tf_Next s) (tf_Faults s)).
Definition temp_remove (f : nat) : M TempFS buffer_err unit :=
  modS (λ s, mkTemp (delete f (tf_Files s)) (tf_Next s) (tf_Faults s)).

Definition CreateTemp : M TempFS buffer_err nat :=
  b ← sys_fault;
  if (b : bool) then fail CreateFailed
  else f ← getS tf_Next; _ ← modS (λ s, mkTemp (<[f := ""]> (tf_Files s)) (S (tf_Next s)) (tf_Faults s)); mret f.

(** [io.Copy(f, br)]: the bytes that arrived are in the file also when the
    source breaks off; a write may fail. *)
Definition copy_to_temp (f : nat) (r : Reader) : M TempFS buffer_err Z :=
  b ← sys_fault;
  if (b : bool) then fail BufferFailed
  else _ ← temp_write f (rd_Data r);
       if rd_Broken r then fail BufferFailed else mret (Z.of_nat (String.length (rd_Data r))).

(** A blob reader: its descriptor, its bytes, and the temporary file its
    [Close] removes. *)
Record BReader := mkBReader { br_Desc : Descriptor; br_Reader : Reader; br_Temp : option nat }.

Definition with_size (d : Descriptor) (n : Z) : Descriptor := mkDesc (d_MediaType d) (d_Digest d) n (d_Annotations d).

Definition bufferLargeBlobs (br : BReader) : M TempFS buffer_err BReader :=
  let d := br_Desc br in
  if (0 <? d_Size d)%Z && (d_Size d <=? largeBlobThreshold)%Z then mret br
  else
    f ← CreateTemp;
    r ← attempt (copy_to_temp f (br_Reader br));
    match r with
    | inl e => _ ← temp_remove f; fail e
    | inr n =>
      b ← sys_fault;
      if (b : bool) then _ ← temp_remove f; fail SeekFailed
      else data ← getS (λ s, default "" (tf_Files s !! f));
           mret (mkBReader (if (d_Size d <=? 0)%Z then with_size d n else d) (mkReader data false true) (Some f))
    end.

(** [tempFileReader.Close] *)
Definition br_Close (br : BReader) : M TempFS buffer_err unit :=
  match br_Temp br with Some f => temp_remove f | None => mret tt end.

(** * What the registries promise *)

(** What the repositories hold: the digest of each tag, manifests and blobs by
    digest. *)
Record Contents := mkContents {
  ct_Tags : gmap (Repo * string) string;
  ct_Manifests : gmap (Repo * string) Manifest;
  ct_Blobs : gmap (Repo * string) string;
}.

(** The digest of what a reference points at. *)
Definition resolves (c : Contents) (r : Ref) : option string :=
  if String.eqb (rf_Digest r) "" then ct_Tags c !! (repo r, rf_Tag r)
  else match ct_Manifests c !! (repo r, rf_Digest r) with Some _ => Some (rf_Digest r) | None => None end.

(** Nothing is lost, and only repository [rp] changes, there only tags in [T]. *)
Definition touches (rp : Repo) (T : string → Prop) (c c' : Contents) : Prop :=
  ct_Manifests c ⊆ ct_Manifests c' ∧ ct_Blobs c ⊆ ct_Blobs c' ∧
  (∀ rp' t, rp' ≠ rp ∨ ¬ T t → ct_Tags c' !! (rp', t) = ct_Tags c !! (rp', t)) ∧
  (∀ rp' d, rp' ≠ rp → ct_Manifests c' !! (rp', d) = ct_Manifests c !! (rp', d) ∧ ct_Blobs c' !! (rp', d) = ct_Blobs c !! (rp', d)).

(** The tags a write to [r] can move: its own, unless it names a digest. *)
Definition own_tag (r : Ref) : string → Prop := λ t, rf_Digest r = "" ∧ t = rf_Tag r.

(** A tag the referrers of a manifest are listed under where the registry has no
    referrers API: the digest of the manifest with a dash. *)
Definition fallback_tag (t : string) : Prop := HasPrefix t "sha256-" = true ∨ HasPrefix t "sha512-" = true.

Class RegLaws `{L : RegLib} := {
  contents : Net → Contents;
  (* whether the registry of a repository lists referrers itself *)
  referrers_api : Repo → Prop;
  SetDigest_spec : ∀ r d, SetDigest r d = with_tag r "" d;
  (* the digest of a reference is what follows the at sign *)
  ref_digest : ∀ s r, ref_New s = Some r → extractDigest s ≠ "" → rf_Digest r = extractDigest s;
  common_name_digest : ∀ s r d r', ref_New s = Some r → HasPrefix d "sha256:" = true →
    ref_New (CommonName (SetDigest r d)) = Some r' → rf_Digest r' = d;
  platform_desc : ∀ m p d, GetPlatformDesc m p = Some d → ∃ l, m = MList l ∧ d ∈ l;
  (* reads *)
  head_quiet : ∀ rc r w, contents (snd (lib_ManifestHead rc r w)) = contents w;
  head_found : ∀ rc r w d, fst (lib_ManifestHead rc r w) = inr d → resolves (contents w) r = Some d;
  head_missing : ∀ rc r w e, fst (lib_ManifestHead rc r w) = inl e → lib_NotFound e = true → resolves (contents w) r = None;
  get_quiet : ∀ rc r w, contents (snd (lib_ManifestGet rc r w)) = contents w;
  get_found : ∀ rc r w m, fst (lib_ManifestGet rc r w) = inr m →
    resolves (contents w) r = Some (ManifestDigest m) ∧ ∀ l d, m = MList l → d ∈ l → d_Digest d ≠ "";
  refs_quiet : ∀ rc r w, contents (snd (lib_ReferrerList rc r w)) = contents w;
  refs_valid : ∀ rc r w l, fst (lib_ReferrerList rc r w) = inr l → "" ∉ l;
  config_quiet : ∀ rc r p w, contents (snd (lib_ImageConfig rc r p w)) = contents w;
  blob_head_quiet : ∀ rc r d w, contents (snd (lib_BlobHead rc r d w)) = contents w;
  blob_head_found : ∀ rc r d w a, fst (lib_BlobHead rc r d w) = inr a → is_Some (ct_Blobs (contents w) !! (repo r, d_Digest d));
  blob_get_quiet : ∀ rc r d w, contents (snd (lib_BlobGet rc r d w)) = contents w;
  blob_get_found : ∀ rc r d w rdr data, fst (lib_BlobGet rc r d w) = inr rdr → ReadAll rdr = Some data → FromBytes data = d_Digest d;
  (* writes *)
  (* an image with a subject is added to the subject's referrers *)
  copy_touches : ∀ rc opts src dst w, touches (repo dst) (λ t, own_tag dst t ∨ fallback_tag t ∧ ¬ referrers_api (repo dst))
    (contents w) (contents (snd (lib_ImageCopy rc opts src dst w)));
  copy_done : ∀ rc opts src dst w a, fst (lib_ImageCopy rc opts src dst w) = inr a →
    is_Some (resolves (contents w) src) ∧
    (rf_Digest dst = "" → ¬ fallback_tag (rf_Tag dst) ∨ referrers_api (repo dst) →
     resolves (contents (snd (lib_ImageCopy rc opts src dst w))) dst = resolves (contents w) src);
  blob_put_touches : ∀ rc r d rdr w, touches (repo r) (λ _, False) (contents w) (contents (snd (lib_BlobPut rc r d rdr w)));
  blob_put_done : ∀ rc r d rdr w a, fst (lib_BlobPut rc r d rdr w) = inr a →
    FromBytes (rd_Data rdr) = d_Digest d ∧ ct_Blobs (contents (snd (lib_BlobPut rc r d rdr w))) !! (repo r, d_Digest d) = Some (rd_Data rdr);
  put_touches : ∀ rc r m w, touches (repo r) (own_tag r) (contents w) (contents (snd (lib_ManifestPut rc r m w)));
  (* a tag is moved in one step, also by a put that reports an error *)
  put_moves : ∀ rc r m w, rf_Digest r = "" →
    resolves (contents (snd (lib_ManifestPut rc r m w))) r = resolves (contents w) r ∨
    resolves (contents (snd (lib_ManifestPut rc r m w))) r = Some (ManifestDigest m) ∧
    ct_Manifests (contents (snd (lib_ManifestPut rc r m w))) !! (repo r, ManifestDigest m) = Some m;
  put_done : ∀ rc r m w a, fst (lib_ManifestPut rc r m w) = inr a → rf_Digest r = "" →
    resolves (contents (snd (lib_ManifestPut rc r m w))) r = Some (ManifestDigest m) ∧
    ct_Manifests (contents (snd (lib_ManifestPut rc r m w))) !! (repo r, ManifestDigest m) = Some m;
  (* deletions *)
  tag_delete_touches : ∀ rc r w, rf_Digest r = "" → touches (repo r) (own_tag r) (contents w) (contents (snd (lib_TagDelete rc r w)));
  tag_delete_done : ∀ rc r w, rf_Digest r = "" → match fst (lib_TagDelete rc r w) with inr _ => True | inl e => lib_NotFound e = true end →
    resolves (contents (snd (lib_TagDelete rc r w))) r = None;
  delete_done : ∀ rc r w, rf_Digest r ≠ "" → match fst (lib_ManifestDelete rc r w) with inr _ => True | inl e => lib_NotFound e = true end →
    resolves (contents (snd (lib_ManifestDelete rc r w))) r = None;
  delete_frame : ∀ rc r w rp t, rp ≠ repo r ∨ ct_Tags (contents w) !! (rp, t) ≠ Some (rf_Digest r) →
    ct_Tags (contents (snd (lib_ManifestDelete rc r w))) !! (rp, t) = ct_Tags (contents w) !! (rp, t);
}.

(** * Lemmas *)

(** ** Configuration *)

Lemma add_hosts_lookup tls mono hosts m k :
  add_hosts tls mono hosts m !! k = if decide (k ∈ hosts ∧ k ≠ "") then Some (destHostConfig k tls mono) else m !! k.
Proof.
  unfold add_hosts. revert m. induction hosts as [|h hosts IH]; intros m; cbn [foldl].
  { rewrite decide_False; [done|]. intros [Hk _]. by apply elem_of_nil in Hk. }
  rewrite IH. destruct (decide (k ∈ hosts ∧ k ≠ "")) as [[Hin Hk]|Hn].
  { rewrite decide_True; [done|]. split; [by right|done]. }
  destruct (String.eqb_spec h "") as [->|Hh].
  - rewrite decide_False; [done|]. intros [[->|?]%elem_of_cons ?]; tauto.
  - destruct (decide (k = h)) as [->|Hk].
    + rewrite lookup_insert_eq, decide_True; [done|]. split; [left|done].
    + rewrite lookup_insert_ne, decide_False by (done || (intros [[->|?]%elem_of_cons ?]; tauto)). done.
Qed.

Lemma add_hosts_perm tls mono h1 h2 m : h1 ≡ₚ h2 → add_hosts tls mono h1 m = add_hosts tls mono h2 m.
Proof. intros Hp. apply map_eq. intros k. rewrite !add_hosts_lookup. apply decide_ext. by rewrite Hp. Qed.

Lemma NewMirrorClient_perm h1 h2 auth dest : h1 ≡ₚ h2 → NewMirrorClient h1 auth dest = NewMirrorClient h2 auth dest.
Proof.
  intros Hp. assert (Hn : (h1 = []) ↔ (h2 = [])).
  { split; intros ->; [by apply Permutation_nil in Hp|by apply Permutation_sym, Permutation_nil in Hp]. }
  unfold NewMirrorClient, newMirrorClient. rewrite !(add_hosts_perm _ _ _ _ _ Hp). by rewrite !(decide_ext _ _ _ _ Hn).
Qed.

(** ** The key of the cache *)

(** Host names have no commas and paths no NUL. *)
Definition clean (hosts : list string) (auth : string) : Prop :=
  Forall (λ h, h ≠ "" ∧ has_char "," h = false) hosts ∧ has_char "000" auth = false.

Lemma Join_inj c l1 l2 : Forall (λ h, h ≠ "" ∧ has_char c h = false) l1 → Forall (λ h, h ≠ "" ∧ has_char c h = false) l2 →
  Join l1 (String c "") = Join l2 (String c "") → l1 = l2.
Proof.
  assert (Hne : ∀ l, Forall (λ h, h ≠ "" ∧ has_char c h = false) l → l ≠ [] → Join l (String c "") ≠ "").
  { intros l Hl Hn. apply Join_nonempty; [done|]. intros ->. by inversion_clear Hl as [|? ? []]. }
  assert (Hsplit : ∀ l, Forall (λ h, h ≠ "" ∧ has_char c h = false) l → l ≠ [] → Split c (Join l (String c "")) = l).
  { intros l Hl Hn. apply Split_Join; [done|]. eapply Forall_impl; [exact Hl|]. by intros ? []. }
  intros H1 H2 E. destruct (decide (l1 = [])) as [->|N1], (decide (l2 = [])) as [->|N2]; [done|by destruct (Hne l2)|by destruct (Hne l1)|].
  by rewrite <- (Hsplit l1), <- (Hsplit l2), E.
Qed.

Lemma cacheKey_inj h1 a1 h2 a2 : clean h1 a1 → clean h2 a2 → cacheKey h1 a1 = cacheKey h2 a2 → h1 ≡ₚ h2 ∧ a1 = a2.
Proof.
  intros [Hh1 Ha1] [Hh2 Ha2] E. unfold cacheKey in E. apply (f_equal (cut (String "000" ""))) in E.
  rewrite !cut_char_app in E by done. simplify_eq. split; [|done].
  enough (sort_strings h1 = sort_strings h2) as E' by (rewrite <- (sort_strings_perm h1), E'; apply sort_strings_perm).
  apply (Join_inj ","); [by rewrite sort_strings_perm..|done].
Qed.

(** Every client of the cache is the one its key stands for, and has a time. *)
Definition cache_ok (cc : ClientCache) : Prop :=
  ∀ k c, cc_cache cc !! k = Some c → is_Some (cc_lastRefresh cc !! k) ∧
    ∃ hosts auth, clean hosts auth ∧ k = cacheKey hosts auth ∧ c = NewMirrorClient hosts auth [].

Lemma RefreshClient_ok now hosts auth cc : clean hosts auth → cache_ok cc → cache_ok (snd (RefreshClient now hosts auth cc)).
Proof.
  intros Hc Hok k c. cbn. intros [[<- <-]|[Hk Hl]]%lookup_insert_Some.
  - split; [rewrite lookup_insert_eq; eauto|]. by exists hosts, auth.
  - rewrite lookup_insert_ne by done. by apply Hok.
Qed.

Lemma GetOrCreate_ok now hosts auth cc : clean hosts auth → cache_ok cc → cache_ok (snd (GetOrCreate now hosts auth cc)).
Proof.
  intros Hc Hok. pose proof (RefreshClient_ok now hosts auth cc Hc Hok) as Hr.
  unfold GetOrCreate. cbv zeta. by repeat case_match.
Qed.

(** ** The legs *)

Section laws.
Context `{RL : RegLaws}.

(** A postcondition of both legs is one of the operation, when a failed first
    leg keeps what the second one needs. *)
Lemma withFallback_spec {T} c (call : leg → RegClient → M Net Err T) (P : Net → Prop) (Q : Net → T → Net → Prop) :
  (∀ l rc w v w', P w → call l rc w = (inr v, w') → Q w v w') →
  (∀ l rc w e w', P w → call l rc w = (inl e, w') → P w' ∧ ∀ v w2, Q w' v w2 → Q w v w2) →
  ∀ w v w', P w → withFallback c call w = (inr v, w') → Q w v w'.
Proof.
  intros Hok Herr w v w' HP. unfold withFallback. destruct (call Primary _ w) as [[e|v1] w1] eqn:E1.
  - destruct (Herr _ _ _ _ _ HP E1) as [HP1 Hw]. destruct (lg_rcFallback c) as [fb|]; [|done]. destruct (ctx_done w1); [done|].
    destruct (call Fallback fb w1) as [[e2|v2] w2] eqn:E2; [done|]. intros [= <- <-]. eapply Hw, Hok; eauto.
  - intros [= <- <-]. eapply Hok; eauto.
Qed.

(** What both legs keep is kept, however the operation ends. *)
Lemma withFallback_keeps {T} c (call : leg → RegClient → M Net Err T) (R : relation Net) `{!Reflexive R, !Transitive R} :
  (∀ l rc w, R w (snd (call l rc w))) → ∀ w, R w (snd (withFallback c call w)).
Proof.
  intros Hcall w. unfold withFallback. pose proof (Hcall Primary (lg_rc c) w) as H1. destruct (call Primary _ w) as [[e|v] w1]; [|done].
  destruct (lg_rcFallback c) as [fb|]; [|done]. destruct (ctx_done w1); [done|].
  pose proof (Hcall Fallback fb w1) as H2. destruct (call Fallback fb w1) as [[e2|v2] w2]; cbn in *; by etransitivity.
Qed.

Lemma lib_eq {A} (m : M Net LibErr A) w : lib m w = (match fst (m w) with inl e => inl (Lib e) | inr a => inr a end, snd (m w)).
Proof. unfold lib. by destruct (m w). Qed.

Lemma wrap_eq {A} what (m : M Net Err A) w : wrap what m w = (match fst (m w) with inl e => inl (Wrap what e) | inr a => inr a end, snd (m w)).
Proof. unfold wrap. by destruct (m w). Qed.

Lemma parse_bind {A} what s (k : Ref → M Net Err A) w :
  (parse_ref what s ≫= k) w = match ref_New s with Some r => k r w | None => (inl (Msg what), w) end.
Proof. unfold parse_ref. by destruct (ref_New s). Qed.

#[export] Instance touches_refl rp T : Reflexive (touches rp T).
Proof. intros c. by split_and!. Qed.
#[export] Instance touches_trans rp T : Transitive (touches rp T).
Proof.
  intros c1 c2 c3 (A1 & A2 & A3 & A4) (B1 & B2 & B3 & B4). split_and!; [by etransitivity..| |].
  - intros rp' t Hr. by rewrite B3, A3.
  - intros rp' d Hr. destruct (A4 rp' d Hr) as [<- <-]. by apply B4.
Qed.
Lemma touches_mono rp (T T' : string → Prop) c c' : (∀ t, T t → T' t) → touches rp T c c' → touches rp T' c c'.
Proof. intros HT (A1 & A2 & A3 & A4). split_and!; [done..| |done]. intros rp' t [?|Ht]; apply A3; [by left|]. right. intros ?. apply Ht. by apply HT. Qed.

(** A reference into another repository, or with a tag that is not touched,
    keeps its meaning. *)
Lemma touches_resolves rp T c c' r : touches rp T c c' → repo r ≠ rp → resolves c' r = resolves c r.
Proof.
  intros (_ & _ & H3 & H4) Hr. unfold resolves. destruct (String.eqb (rf_Digest r) ""); [apply H3; by left|].
  by destruct (H4 (repo r) (rf_Digest r) Hr) as [-> _].
Qed.
Lemma touches_tag rp (T : string → Prop) c c' r : touches rp T c c' → rf_Digest r = "" → ¬ T (rf_Tag r) → resolves c' r = resolves c r.
Proof. intros (_ & _ & H3 & _) Hd Ht. unfold resolves. rewrite Hd. cbn. apply H3. by right. Qed.

(** Calls that only read. *)
Definition reads : relation Net := λ w w', contents w' = contents w.
#[export] Instance reads_refl : Reflexive reads.
Proof. done. Qed.
#[export] Instance reads_trans : Transitive reads.
Proof. intros w1 w2 w3. unfold reads. congruence. Qed.

(** Reading a manifest or a blob through the legs. *)
Lemma ManifestGet_reads c r w : reads w (snd (ManifestGet c r w)).
Proof. unfold ManifestGet. apply (withFallback_keeps _ _ reads). intros _ rc w1. rewrite lib_eq. apply get_quiet. Qed.
Lemma BlobGet_reads c r d w : reads w (snd (BlobGet c r d w)).
Proof. unfold BlobGet. apply (withFallback_keeps _ _ reads). intros _ rc w1. rewrite lib_eq. apply blob_get_quiet. Qed.

(** ** Copies *)

(** The tags of referrers, at a registry that needs them. *)
Definition referrer_tag (destRef : Ref) : string → Prop := λ t, fallback_tag t ∧ ¬ referrers_api (repo destRef).

(** The tags a copy may move at its destination: the image's, its signature's,
    and those of referrers. *)
Definition copy_tags (srcRef destRef : Ref) : string → Prop :=
  λ t, t = rf_Tag destRef ∨ (rf_Digest srcRef ≠ "" ∧ t = sigTag (rf_Digest srcRef)) ∨ referrer_tag destRef t.

(** A tag that nothing but the copy of the image itself moves. *)
Definition own_only (srcRef destRef : Ref) : Prop :=
  ¬ (rf_Digest srcRef ≠ "" ∧ rf_Tag destRef = sigTag (rf_Digest srcRef)) ∧
  (¬ fallback_tag (rf_Tag destRef) ∨ referrers_api (repo destRef)).

Definition netmoves (rp : Repo) (T : string → Prop) : relation Net := λ w w', touches rp T (contents w) (contents w').
#[export] Instance netmoves_refl rp T : Reflexive (netmoves rp T).
Proof. intros w. unfold netmoves. reflexivity. Qed.
#[export] Instance netmoves_trans rp T : Transitive (netmoves rp T).
Proof. intros w1 w2 w3. unfold netmoves. apply touches_trans. Qed.

(** A step of a sequence of calls. *)
Lemma moves_bind {A B} (R : relation Net) `{!Transitive R} (m : M Net Err A) (k : A → M Net Err B) w :
  (∀ w, R w (snd (m w))) → (∀ a w, R w (snd (k a w))) → R w (snd ((m ≫= k) w)).
Proof. intros Hm Hk. rewrite bind_eq. specialize (Hm w). destruct (fst (m w)) as [e|a]; [done|]. by etransitivity; [|apply Hk]. Qed.

Lemma with_tag_repo r t d : repo (with_tag r t d) = repo r.
Proof. done. Qed.

Lemma tagged_dest_spec srcRef destRef : repo (tagged_dest srcRef destRef) = repo destRef ∧ rf_Digest (tagged_dest srcRef destRef) = rf_Digest destRef.
Proof. unfold tagged_dest. by destruct (_ && _ && _). Qed.

Lemma referrers_moves rc srcRef destRef digests w :
  "" ∉ digests → netmoves (repo destRef) (referrer_tag destRef) w (snd (copy_referrers rc srcRef destRef digests w)).
Proof.
  revert w. induction digests as [|d digests IH]; intros w Hd; [apply netmoves_refl|]. cbn [copy_referrers].
  apply not_elem_of_cons in Hd as [Hd Hds]. apply moves_bind; [apply _| |intros _ w'; by apply IH].
  intros w'. rewrite ignore_eq, lib_eq. cbn. rewrite !SetDigest_spec. unfold netmoves.
  eapply touches_mono; [|rewrite <- (with_tag_repo destRef "" d); apply copy_touches]. intros t [[E _]|Ht]; [by cbn in E|done].
Qed.

Lemma bestEffort_moves rc srcRef destRef w :
  netmoves (repo destRef) (referrer_tag destRef) w (snd (copyReferrersBestEffort rc srcRef destRef w)).
Proof.
  unfold copyReferrersBestEffort. apply moves_bind; [apply _| |].
  - intros w'. destruct (String.eqb _ _); [|apply netmoves_refl]. rewrite attempt_bind, lib_eq. cbn. unfold netmoves. by rewrite head_quiet.
  - intros d w'. destruct (String.eqb d ""); [apply netmoves_refl|]. rewrite attempt_bind, lib_eq.
    destruct (lib_ReferrerList _ _ w') as [[e|l] w2] eqn:El; cbn;
      pose proof (refs_quiet rc (SetDigest srcRef d) w') as Hq; rewrite El in Hq; cbn in Hq.
    + unfold netmoves. by rewrite Hq.
    + pose proof (refs_valid rc (SetDigest srcRef d) w' l) as Hv. rewrite El in Hv. specialize (Hv eq_refl).
      pose proof (referrers_moves rc srcRef destRef l w2 Hv) as Hm. unfold netmoves in *. by rewrite Hq in Hm.
Qed.

(** Everything after the image itself moves at most the signature's tag and
    those of referrers. *)
Definition copy_rest (rc : RegClient) (srcRef destRef : Ref) : M Net Err string :=
  _ ← copyReferrersBestEffort rc srcRef destRef;
  _ ← (if String.eqb (rf_Digest srcRef) "" then mret tt
       else let tag := sigTag (rf_Digest srcRef) in
            ignore (lib (lib_ImageCopy rc [] (with_tag srcRef tag "") (with_tag destRef tag ""))));
  mret (CommonName destRef).

Lemma rest_moves rc srcRef destRef w :
  netmoves (repo destRef) (λ t, (rf_Digest srcRef ≠ "" ∧ t = sigTag (rf_Digest srcRef)) ∨ referrer_tag destRef t) w (snd (copy_rest rc srcRef destRef w)).
Proof.
  unfold copy_rest. apply moves_bind; [apply _| |].
  - intros w'. eapply touches_mono; [|apply bestEffort_moves]. intros t Ht. by right.
  - intros _ w'. apply moves_bind; [apply _| |by intros]. intros w2.
    destruct (String.eqb_spec (rf_Digest srcRef) ""); [apply netmoves_refl|]. rewrite ignore_eq, lib_eq. cbn. unfold netmoves.
    eapply touches_mono; [|rewrite <- (with_tag_repo destRef (sigTag (rf_Digest srcRef)) ""); apply copy_touches].
    intros t [[_ Ht]|Ht]; [left; by split|by right].
Qed.

Lemma rest_result rc srcRef destRef w : fst (copy_rest rc srcRef destRef w) = inr (CommonName destRef).
Proof.
  unfold copy_rest. rewrite bind_eq.
  assert (Hr : fst (copyReferrersBestEffort rc srcRef destRef w) = inr tt).
  { unfold copyReferrersBestEffort. rewrite bind_eq.
    assert (∃ d, fst ((if String.eqb (rf_Digest srcRef) "" then r ← attempt (lib (lib_ManifestHead rc srcRef)); mret (match r with inl _ => "" | inr d => d end)
               else mret (rf_Digest srcRef)) w) = inr d) as [d ->].
    { destruct (String.eqb _ _); [|by eexists]. rewrite attempt_bind. by eexists. }
    destruct (String.eqb d ""); [done|]. rewrite attempt_bind. destruct (fst (lib _ _)) as [e|l]; [done|].
    match goal with |- fst (_ ?x) = _ => generalize x end. induction l as [|a l IH]; intros x; [done|].
    cbn [copy_referrers]. rewrite bind_eq, ignore_eq. apply IH. }
  rewrite Hr, bind_eq. destruct (String.eqb _ _); [done|]. by rewrite ignore_eq.
Qed.

Lemma copyImageWith_eq rc src dest opts srcRef destRef0 w :
  ref_New src = Some srcRef → ref_New dest = Some destRef0 →
  copyImageWith rc src dest opts w =
  (wrap "failed to copy image" (lib (lib_ImageCopy rc opts srcRef (tagged_dest srcRef destRef0))) ≫= λ _, copy_rest rc srcRef (tagged_dest srcRef destRef0)) w.
Proof. intros Es Ed. unfold copyImageWith, parse_ref. by rewrite Es, Ed. Qed.

Lemma copyImageWith_moves rc src dest opts srcRef destRef0 w :
  ref_New src = Some srcRef → ref_New dest = Some destRef0 →
  let destRef := tagged_dest srcRef destRef0 in
  netmoves (repo destRef) (copy_tags srcRef destRef) w (snd (copyImageWith rc src dest opts w)).
Proof.
  intros Es Ed destRef. rewrite (copyImageWith_eq _ _ _ _ _ _ _ Es Ed). fold destRef. apply moves_bind; [apply _| |].
  - intros w'. rewrite wrap_eq, lib_eq. cbn. eapply touches_mono; [|apply copy_touches]. intros t [[_ ->]|Ht]; [by left|by right; right].
  - intros _ w'. eapply touches_mono; [|apply rest_moves]. intros t Ht. by right.
Qed.

Lemma copyImageWith_done rc src dest opts srcRef destRef0 w out w' :
  ref_New src = Some srcRef → ref_New dest = Some destRef0 → rf_Digest destRef0 = "" → repo srcRef ≠ repo destRef0 →
  let destRef := tagged_dest srcRef destRef0 in
  copyImageWith rc src dest opts w = (inr out, w') →
  out = CommonName destRef ∧ is_Some (resolves (contents w) srcRef) ∧
  (own_only srcRef destRef → resolves (contents w') destRef = resolves (contents w) srcRef).
Proof.
  intros Es Ed Hd Hr destRef. rewrite (copyImageWith_eq _ _ _ _ _ _ _ Es Ed). fold destRef.
  destruct (tagged_dest_spec srcRef destRef0) as [_ Hdd]. fold destRef in Hdd. rewrite Hd in Hdd.
  rewrite bind_eq, wrap_eq, lib_eq. cbn. destruct (fst (lib_ImageCopy rc opts srcRef destRef w)) as [e|a] eqn:Ec; [done|].
  destruct (copy_done _ _ _ _ _ _ Ec) as [Hs Hdone]. set (w1 := snd (lib_ImageCopy rc opts srcRef destRef w)) in *.
  intros E. pose proof (rest_result rc srcRef destRef w1) as H1. pose proof (rest_moves rc srcRef destRef w1) as H2.
  rewrite E in H1, H2. cbn in H1, H2. split; [by simplify_eq|]. split; [done|]. intros [Ht Hf].
  rewrite <- (Hdone Hdd Hf). apply (touches_tag _ _ _ _ _ H2 Hdd). intros [?|[? ?]]; [done|]. by destruct Hf.
Qed.

(** ** Deletions *)

Lemma gone_spec what (m : M Net LibErr unit) w :
  snd (gone what m w) = snd (m w) ∧ ∀ a, fst (gone what m w) = inr a → match fst (m w) with inr _ => True | inl e => lib_NotFound e = true end.
Proof.
  unfold gone. rewrite attempt_bind, lib_eq. cbn. destruct (fst (m w)) as [e|[]]; cbn; [|done]. by destruct (lib_NotFound e).
Qed.

Lemma delete_eq rc image r w : ref_New image = Some r →
  deleteManifestWith rc image w =
  (if String.eqb (rf_Digest r) "" then gone "failed to delete tag" (lib_TagDelete rc r) else gone "failed to delete manifest" (lib_ManifestDelete rc r)) w.
Proof. intros E. unfold deleteManifestWith, parse_ref. by rewrite E. Qed.
End laws.

(** * Theorems *)

(** Calls on the cache, with the time they are made at. *)
Inductive cache_call := CGet (now : Z) (hosts : list string) (auth : string) | CRefresh (now : Z) (hosts : list string) (auth : string).
Definition cache_apply (cc : ClientCache) (c : cache_call) : ClientCache :=
  match c with CGet now hosts auth => snd (GetOrCreate now hosts auth cc) | CRefresh now hosts auth => snd (RefreshClient now hosts auth cc) end.
Definition call_clean (c : cache_call) : Prop := match c with CGet _ hosts auth | CRefresh _ hosts auth => clean hosts auth end.

(** The cache never hands out another caller's client.  After any sequence
    of calls, a client that is asked for has exactly the configuration of a
    client built for these hosts and credentials, in whatever order the hosts
    are given; it speaks plain HTTP or skips verification for the given hosts
    only; and it is younger than the refresh interval. *)
Theorem cache_serves_requested refreshAfter calls now hosts auth :
  (0 < refreshAfter)%Z → Forall call_clean calls → clean hosts auth →
  let '(client, cc) := GetOrCreate now hosts auth (foldl cache_apply (NewClientCacheWithInterval refreshAfter) calls) in
  client = NewMirrorClient hosts auth [] ∧
  (∃ last, cc_lastRefresh cc !! cacheKey hosts auth = Some last ∧ (now - last < refreshAfter)%Z) ∧
  (∀ rc h, rc = lg_rc (mc_legs client) ∨ lg_rcFallback (mc_legs client) = Some rc → h ∉ hosts → rg_Hosts rc !! h = None).
Proof.
  intros Hpos Hcalls Hc. set (cc0 := foldl _ _ _).
  assert (Hok : cache_ok cc0 ∧ cc_refreshAfter cc0 = refreshAfter).
  { apply (foldl_inv_simple (λ cc, cache_ok cc ∧ cc_refreshAfter cc = refreshAfter)).
    - split; [|done]. intros k c. cbn. by rewrite lookup_empty.
    - intros call cc Hin [Hok Hr]. rewrite Forall_forall in Hcalls. specialize (Hcalls call Hin). destruct call as [n h a|n h a]; cbn.
      + split; [by apply GetOrCreate_ok|]. unfold GetOrCreate. cbv zeta. by repeat case_match.
      + split; [by apply RefreshClient_ok|done]. }
  destruct Hok as [Hok Hr]. clearbody cc0.
  assert (Hconf : ∀ rc h, rc = lg_rc (mc_legs (NewMirrorClient hosts auth [])) ∨ lg_rcFallback (mc_legs (NewMirrorClient hosts auth [])) = Some rc →
    h ∉ hosts → rg_Hosts rc !! h = None).
  { intros rc h Hrc Hh. assert (Hn : ∀ tls m, add_hosts tls false hosts m !! h = m !! h) by (intros; rewrite add_hosts_lookup, decide_False; [done|tauto]).
    destruct Hrc as [->|Hrc]; cbn in *; [by rewrite Hn, lookup_empty|]. case_decide; [done|]. injection Hrc as <-. cbn. by rewrite !Hn, lookup_empty. }
  assert (Hnew : let '(client, cc) := RefreshClient now hosts auth cc0 in client = NewMirrorClient hosts auth [] ∧
    ∃ last, cc_lastRefresh cc !! cacheKey hosts auth = Some last ∧ (now - last < refreshAfter)%Z).
  { cbn. split; [done|]. exists now. rewrite lookup_insert_eq. split; [done|lia]. }
  unfold GetOrCreate. cbv zeta. destruct (cc_cache cc0 !! cacheKey hosts auth) as [client|] eqn:E1; [|destruct Hnew as [Hnew1 Hnew2]; cbn in *; by auto].
  destruct (cc_lastRefresh cc0 !! cacheKey hosts auth) as [last|] eqn:E2; [|destruct Hnew as [Hnew1 Hnew2]; cbn in *; by auto].
  destruct (now - last <? cc_refreshAfter cc0)%Z eqn:E3; [|destruct Hnew as [Hnew1 Hnew2]; cbn in *; by auto].
  apply Z.ltb_lt in E3. rewrite Hr in E3.
  destruct (Hok _ _ E1) as [_ (h' & a' & Hc' & Ek & ->)]. apply cacheKey_inj in Ek as [Hp <-]; [|done..].
  rewrite (NewMirrorClient_perm h' hosts) by done. eauto.
Qed.

(** C13: a copy delivers the image and nothing else.  For a destination that is
    given without a digest, in another repository than the source, and whatever
    fails: a copy changes nothing but the destination repository, where no
    manifest and no blob is lost and only these tags move: the one of the image
    (synthesised from the digest when source and destination have none), the one
    of its signature and, at a registry without the referrers API, tags sha256-
    or sha512- under which referrers are listed there.  When it succeeds, the
    source had an image, and the reference it returns points at that image's
    manifest, unless its tag is the signature's or, at such a registry, one under
    which referrers are listed. *)
Theorem copyImage_delivers `{RL : RegLaws} c src dest opts srcRef destRef0 w :
  ref_New src = Some srcRef → ref_New dest = Some destRef0 → rf_Digest destRef0 = "" → repo srcRef ≠ repo destRef0 →
  let destRef := tagged_dest srcRef destRef0 in
  let '(r, w') := copyImage c src dest opts w in
  netmoves (repo destRef) (copy_tags srcRef destRef) w w' ∧
  ∀ out, r = inr out → out = CommonName destRef ∧ is_Some (resolves (contents w) srcRef) ∧
    (own_only srcRef destRef → resolves (contents w') destRef = resolves (contents w) srcRef).
Proof.
  intros Es Ed Hd Hr destRef. destruct (tagged_dest_spec srcRef destRef0) as [Hrepo _]. fold destRef in Hrepo.
  assert (Hm : ∀ w, netmoves (repo destRef) (copy_tags srcRef destRef) w (snd (copyImage c src dest opts w))).
  { intros w1. unfold copyImage. apply withFallback_keeps; [apply netmoves_refl|apply netmoves_trans|].
    intros _ rc w2. by apply copyImageWith_moves. }
  specialize (Hm w). destruct (copyImage c src dest opts w) as [r w'] eqn:E. split; [done|]. intros out ->.
  revert E. unfold copyImage.
  apply (withFallback_spec c (λ _ rc, copyImageWith rc src dest opts) (λ _, True) (λ w out w', out = CommonName destRef ∧ is_Some (resolves (contents w) srcRef) ∧
    (own_only srcRef destRef → resolves (contents w') destRef = resolves (contents w) srcRef))); [| |done].
  - intros _ rc w1 v w2 _ E1. by eapply copyImageWith_done.
  - intros _ rc w1 e w2 _ E1. split; [done|]. intros v w3.
    pose proof (copyImageWith_moves rc src dest opts srcRef destRef0 w1 Es Ed) as Hm1. rewrite E1 in Hm1. cbn in Hm1.
    rewrite (touches_resolves _ _ _ _ srcRef Hm1); [done|]. fold destRef. by rewrite Hrepo.
Qed.

(** An answer about an image is never made up from an error: it is given
    only when a registry gave it, and it is the truth; asking changes nothing. *)
Theorem CheckExist_truthful `{RL : RegLaws} c image w :
  let '(r, w') := CheckExist c image w in
  contents w' = contents w ∧ ∀ b, r = inr b → ∃ ref, ref_New image = Some ref ∧ (b = true ↔ is_Some (resolves (contents w) ref)).
Proof.
  assert (Hq : ∀ rc w, contents (snd (checkExistWith rc image w)) = contents w).
  { intros rc w1. unfold checkExistWith. rewrite parse_bind. destruct (ref_New image) as [r|]; [|done]. rewrite attempt_bind, lib_eq. cbn.
    pose proof (head_quiet rc r w1) as Hh. destruct (fst (lib_ManifestHead rc r w1)) as [e|d]; [|done]. by destruct (is_NotFound _). }
  destruct (CheckExist c image w) as [r w'] eqn:E. unfold CheckExist in E. split.
  { pose proof (withFallback_keeps c (λ _ rc, checkExistWith rc image) reads (λ _ rc w, Hq rc w) w) as Hk. by rewrite E in Hk. }
  intros b ->. revert E.
  apply (withFallback_spec c (λ _ rc, checkExistWith rc image) (λ _, True) (λ w b _, ∃ ref, ref_New image = Some ref ∧ (b = true ↔ is_Some (resolves (contents w) ref)))); [| |done].
  - intros _ rc w1 v w2 _. unfold checkExistWith. rewrite parse_bind. destruct (ref_New image) as [r|]; [|done]. rewrite attempt_bind, lib_eq. cbn.
    destruct (fst (lib_ManifestHead rc r w1)) as [e|d] eqn:Eh; cbn.
    + destruct (lib_NotFound e) eqn:En; [|done]. intros [= <- <-]. exists r. rewrite (head_missing _ _ _ _ Eh En). split; [done|].
      by split; [|intros []].
    + intros [= <- <-]. exists r. rewrite (head_found _ _ _ _ Eh). split; [done|]. split; [by eexists|done].
  - intros _ rc w1 e w2 _ E1. split; [done|]. intros b' w3. pose proof (Hq rc w1) as Hq1. rewrite E1 in Hq1. cbn in Hq1. by rewrite Hq1.
Qed.

(** A deletion removes what it names.  Deleting a tag leaves every other
    tag, every manifest and every blob alone, also those the tag shared;
    deleting by digest leaves every tag of another manifest alone; a success
    means that the reference is gone, and deleting twice succeeds as once. *)
Theorem DeleteManifest_exact `{RL : RegLaws} c image ref w :
  ref_New image = Some ref →
  let '(r, w') := DeleteManifest c image w in
  (r = inr tt → resolves (contents w') ref = None) ∧
  (rf_Digest ref = "" → netmoves (repo ref) (own_tag ref) w w') ∧
  (rf_Digest ref ≠ "" → ∀ rp t, rp ≠ repo ref ∨ ct_Tags (contents w) !! (rp, t) ≠ Some (rf_Digest ref) →
     ct_Tags (contents w') !! (rp, t) = ct_Tags (contents w) !! (rp, t)).
Proof.
  intros Er. destruct (DeleteManifest c image w) as [r w'] eqn:E. unfold DeleteManifest in E. split_and!.
  - intros ->. revert E.
    apply (withFallback_spec c (λ _ rc, deleteManifestWith rc image) (λ _, True) (λ _ _ w', resolves (contents w') ref = None)); [|done..].
    intros _ rc w1 [] w2 _. rewrite (delete_eq _ _ _ _ Er). destruct (String.eqb_spec (rf_Digest ref) "") as [Hd|Hd]; intros E1.
    + destruct (gone_spec "failed to delete tag" (lib_TagDelete rc ref) w1) as [Hs Hf]. rewrite E1 in Hs, Hf. cbn in Hs, Hf. rewrite Hs.
      apply tag_delete_done; [done|]. by eapply Hf.
    + destruct (gone_spec "failed to delete manifest" (lib_ManifestDelete rc ref) w1) as [Hs Hf]. rewrite E1 in Hs, Hf. cbn in Hs, Hf. rewrite Hs.
      apply delete_done; [done|]. by eapply Hf.
  - intros Hd. pose proof (withFallback_keeps c (λ _ rc, deleteManifestWith rc image) (netmoves (repo ref) (own_tag ref))) as Hk.
    specialize (Hk ltac:(intros ? rc w1; cbn beta; rewrite (delete_eq _ _ _ _ Er), Hd; cbn; rewrite (proj1 (gone_spec _ _ _)); by apply tag_delete_touches) w).
    by rewrite E in Hk.
  - intros Hd rp t Hrt. apply String.eqb_neq in Hd.
    set (R := λ w1 w2, rp ≠ repo ref ∨ ct_Tags (contents w1) !! (rp, t) ≠ Some (rf_Digest ref) → ct_Tags (contents w2) !! (rp, t) = ct_Tags (contents w1) !! (rp, t)).
    assert (Reflexive R) by done.
    assert (Transitive R).
    { intros w1 w2 w3 T1 T2 Hor. unfold R in *. rewrite (T2 ltac:(by rewrite (T1 Hor))). by apply T1. }
    pose proof (withFallback_keeps c (λ _ rc, deleteManifestWith rc image) R) as Hk.
    specialize (Hk ltac:(intros ? rc w1 Hor; cbn beta; rewrite (delete_eq _ _ _ _ Er), Hd, (proj1 (gone_spec _ _ _)); by apply delete_frame) w).
    rewrite E in Hk. by apply Hk.
Qed.

(** Buffering a blob keeps its bytes, leaves no file behind when it fails, and
    closing the reader removes the file it made. *)
Theorem bufferLargeBlobs_clean br s :
  br_Temp br = None → (∀ n, tf_Next s ≤ n → tf_Files s !! n = None) →
  let '(r, s') := bufferLargeBlobs br s in
  match r with
  | inl _ => tf_Files s' = tf_Files s
  | inr br' =>
    rd_Data (br_Reader br') = rd_Data (br_Reader br) ∧ d_Digest (br_Desc br') = d_Digest (br_Desc br) ∧
    (br_Temp br' ≠ None → rd_Broken (br_Reader br) = false ∧ rd_Seekable (br_Reader br') = true) ∧
    tf_Files (snd (br_Close br' s')) = tf_Files s
  end.
Proof.
  intros Ht Hnew. unfold bufferLargeBlobs. destruct (_ && _); [cbn; unfold br_Close; rewrite Ht; split_and!; [done|done|by intros []|done]|].
  destruct s as [fs n faults]. cbn in Hnew. specialize (Hnew n (le_n _)).
  assert (Hdel : ∀ v w, delete n (<[n := v]> (<[n := w]> fs)) = fs) by (intros; rewrite insert_insert_eq; by apply delete_insert_id).
  assert (Hdel1 : ∀ w, delete n (<[n := w]> fs) = fs) by (intros; by apply delete_insert_id).
  destruct faults as [|[] [|[] [|[] ?]]]; unfold CreateTemp, copy_to_temp, attempt, sys_fault, temp_write, temp_remove, getS, modS, fail, mret, M_ret, mbind, M_bind; cbn; try destruct (rd_Broken (br_Reader br)) eqn:Eb; cbn;
    rewrite ?lookup_insert_eq; cbn; rewrite ?Hdel, ?Hdel1; try done; repeat split; try done; by destruct (_ <=? _)%Z.
Qed.

(** ** Examples *)

(** Registries in memory.  The digest of a blob is the blob itself; a client
    that does not speak plain HTTP is refused. *)
Definition mem_digest (m : Manifest) : string :=
  match m with MList l => "sha256:list," +:+ Join (map d_Digest l) "," | MImage c l => "sha256:" +:+ Join (map d_Digest (c :: l)) "," end.
Definition mem_ref (s : string) : option Ref :=
  let '(name, digest) := match cut "@sha256:" s with Some (name, hex) => (name, "sha256:" +:+ hex) | None => (s, "") end in
  let '(registry, rest) := default ("", name) (cut "/" name) in
  let '(path, tag) := default (rest, "") (cut ":" rest) in
  if has_char "@" name then None else Some (mkRef "" registry path "" (if String.eqb digest "" then tag else "") digest).

Definition plain_http (rc : RegClient) (r : Ref) : bool :=
  match rg_Hosts rc !! rf_Registry r with Some h => match h_TLS h with TLSInsecure => false | _ => true end | None => true end.

(** A write that may be refused and an error that says "not found". *)
Definition mem_write (rc : RegClient) (r : Ref) (f : Contents → bool + Contents) : M Contents bool unit := λ c,
  if plain_http rc r then match f c with inl e => (inl e, c) | inr c' => (inr tt, c') end else (inl false, c).
Definition mem_read {A} (rc : RegClient) (r : Ref) (f : Contents → option A) : M Contents bool A := λ c,
  if plain_http rc r then (match f c with Some a => inr a | None => inl true end, c) else (inl false, c).

(** Add what is not there yet. *)
Definition add_new {V} (k : Repo * string) (v : V) (m : gmap (Repo * string) V) : gmap (Repo * string) V :=
  match m !! k with Some _ => m | None => <[k := v]> m end.

Definition image_blobs (m : Manifest) : list Descriptor := match m with MList _ => [] | MImage cfg layers => cfg :: layers end.
Definition copy_blobs (from to : Repo) (ds : list Descriptor) (bs : gmap (Repo * string) string) : gmap (Repo * string) string :=
  foldl (λ bs d, match bs !! (from, d_Digest d) with Some x => add_new (to, d_Digest d) x bs | None => bs end) bs ds.

Definition mem_copy (src dst : Ref) (c : Contents) : bool + Contents :=
  match resolves c src with
  | None => inl true
  | Some d =>
    match ct_Manifests c !! (repo src, d) with
    | None => inl true
    | Some m =>
      let ms := add_new (repo dst, d) m (ct_Manifests c) in
      let bs := copy_blobs (repo src) (repo dst) (image_blobs m) (ct_Blobs c) in
      if String.eqb (rf_Digest dst) "" then inr (mkContents (<[(repo dst, rf_Tag dst) := d]> (ct_Tags c)) ms bs)
      else if String.eqb (rf_Digest dst) d then inr (mkContents (ct_Tags c) ms bs) else inl false
    end
  end.

Definition mem_put (r : Ref) (m : Manifest) (c : Contents) : bool + Contents :=
  let d := mem_digest m in
  if decide (default m (ct_Manifests c !! (repo r, d)) = m)
  then inr (mkContents (if String.eqb (rf_Digest r) "" then <[(repo r, rf_Tag r) := d]> (ct_Tags c) else ct_Tags c)
              (add_new (repo r, d) m (ct_Manifests c)) (ct_Blobs c))
  else inl false.

Definition mem_blob_put (r : Ref) (d : Descriptor) (data : string) (c : Contents) : bool + Contents :=
  if decide (data = d_Digest d ∧ default data (ct_Blobs c !! (repo r, d_Digest d)) = data)
  then inr (mkContents (ct_Tags c) (ct_Manifests c) (add_new (repo r, d_Digest d) data (ct_Blobs c))) else inl false.

Definition mem_untag (r : Ref) (c : Contents) : bool + Contents :=
  match ct_Tags c !! (repo r, rf_Tag r) with
  | None => inl true
  | Some _ => inr (mkContents (delete (repo r, rf_Tag r) (ct_Tags c)) (ct_Manifests c) (ct_Blobs c))
  end.
Definition mem_delete (r : Ref) (c : Contents) : bool + Contents :=
  match ct_Manifests c !! (repo r, rf_Digest r) with
  | None => inl true
  | Some _ => inr (mkContents (filter (λ kv, ¬ (fst (fst kv) = repo r ∧ snd kv = rf_Digest r)) (ct_Tags c))
                    (delete (repo r, rf_Digest r) (ct_Manifests c)) (ct_Blobs c))
  end.

Definition mem_lib : RegLib := {|
  Net := Contents; LibErr := bool; lib_NotFound := id; ctx_done _ := false; ref_New := mem_ref;
  CommonName r := rf_Registry r +:+ "/" +:+ rf_Repository r +:+ (if String.eqb (rf_Tag r) "" then "@" +:+ rf_Digest r else ":" +:+ rf_Tag r);
  SetDigest r d := with_tag r "" d; ManifestDigest := mem_digest; FromBytes := id;
  GetPlatformDesc m _ := match m with MList (d :: _) => Some d | _ => None end;
  lib_ImageCopy rc _ src dst := mem_write rc dst (mem_copy src dst);
  lib_ManifestHead rc r := mem_read rc r (λ c, resolves c r);
  lib_ManifestGet rc r := mem_read rc r (λ c, d ← resolves c r; m ← ct_Manifests c !! (repo r, d); if decide (mem_digest m = d ∧ "" ∉ map d_Digest (default [] (GetManifestList m))) then Some m else None);
  lib_ManifestPut rc r m := mem_write rc r (mem_put r m);
  lib_ManifestDelete rc r := mem_write rc r (mem_delete r);
  lib_TagDelete rc r := mem_write rc r (mem_untag r);
  lib_ReferrerList rc r := mem_read rc r (λ _, Some []);
  lib_BlobHead rc r d := mem_read rc r (λ c, _ ← ct_Blobs c !! (repo r, d_Digest d); Some tt);
  lib_BlobGet rc r d := mem_read rc r (λ c, x ← ct_Blobs c !! (repo r, d_Digest d); if decide (x = d_Digest d) then Some (mkReader x false true) else None);
  lib_BlobPut rc r d rdr := _ ← mem_write rc r (mem_blob_put r d (rd_Data rdr)); mret d;
  lib_left _ _ _ rdr _ := rdr;
  lib_BlobCopy rc src dst d := mem_write rc dst (λ c, match ct_Blobs c !! (repo src, d_Digest d) with Some x => mem_blob_put dst d x c | None => inl true end);
  lib_ImageConfig rc r _ := mem_read rc r (λ c, d ← resolves c r; m ← ct_Manifests c !! (repo r, d); Some (mkConf "" (map d_Digest (default [] (GetLayers m))) ∅ [] []));
|}.

Lemma mem_write_eq rc r f c :
  mem_write rc r f c = if plain_http rc r then match f c with inl e => (inl e, c) | inr c' => (inr tt, c') end else (inl false, c).
Proof. done. Qed.

(** A write keeps a relation when accepted writes do. *)
Lemma mem_write_rel (R : relation Contents) `{!Reflexive R} rc r f c : (∀ c', f c = inr c' → R c c') → R c (snd (mem_write rc r f c)).
Proof. intros Hf. unfold mem_write. destruct (plain_http rc r); [|done]. destruct (f c); [done|]. by apply Hf. Qed.
Lemma mem_write_ok rc r f c a : fst (mem_write rc r f c) = inr a → f c = inr (snd (mem_write rc r f c)).
Proof. unfold mem_write. destruct (plain_http rc r); [|done]. by destruct (f c). Qed.
Lemma mem_read_quiet {A} rc r (f : Contents → option A) c : snd (mem_read rc r f c) = c.
Proof. unfold mem_read. by destruct (plain_http rc r). Qed.
Lemma mem_read_ok {A} rc r (f : Contents → option A) c a : fst (mem_read rc r f c) = inr a → f c = Some a.
Proof. unfold mem_read. destruct (plain_http rc r); [|done]. cbn. destruct (f c); [by intros [= ->]|done]. Qed.
Lemma mem_read_missing {A} rc r (f : Contents → option A) c e : fst (mem_read rc r f c) = inl e → e = true → f c = None.
Proof. unfold mem_read. destruct (plain_http rc r); [|intros [= <-]; done]. cbn. by destruct (f c). Qed.

Lemma add_new_lookup {V} (m : gmap (Repo * string) V) k v k' :
  add_new k v m !! k' = if decide (k = k') then Some (default v (m !! k')) else m !! k'.
Proof.
  unfold add_new. destruct (decide (k = k')) as [->|Hk]; destruct (m !! _) as [x|] eqn:E; try done; [by rewrite lookup_insert_eq|by rewrite lookup_insert_ne].
Qed.
Lemma add_new_sub {V} (m : gmap (Repo * string) V) k v : m ⊆ add_new k v m.
Proof. unfold add_new. destruct (m !! k) eqn:E; [done|by apply insert_subseteq]. Qed.

(** Only repository [rp] gains something. *)
Definition gains {V} (rp : Repo) (m m' : gmap (Repo * string) V) : Prop := m ⊆ m' ∧ ∀ rp' d, rp' ≠ rp → m' !! (rp', d) = m !! (rp', d).

Lemma gains_refl {V} (rp : Repo) (m : gmap (Repo * string) V) : gains rp m m.
Proof. done. Qed.
Lemma gains_add {V} (rp : Repo) (d : string) (v : V) (m m' : gmap (Repo * string) V) : gains rp m m' → gains rp m (add_new (rp, d) v m').
Proof.
  intros [Hs Hr]. split; [etransitivity; [exact Hs|apply add_new_sub]|]. intros rp' d' Hne. rewrite add_new_lookup, decide_False by congruence. by apply Hr.
Qed.
Lemma gains_copy from to ds bs : gains to bs (copy_blobs from to ds bs).
Proof. unfold copy_blobs. apply foldl_inv_simple; [apply gains_refl|]. intros d acc _ Hg. destruct (acc !! _); [by apply gains_add|done]. Qed.

(** A write into one repository. *)
Lemma mem_touches r (T : string → Prop) c ts ms bs :
  (∀ rp t, rp ≠ repo r ∨ ¬ T t → ts !! (rp, t) = ct_Tags c !! (rp, t)) →
  gains (repo r) (ct_Manifests c) ms → gains (repo r) (ct_Blobs c) bs → touches (repo r) T c (mkContents ts ms bs).
Proof. intros Ht [Hm1 Hm2] [Hb1 Hb2]. split_and!; [done..|]. intros rp d Hr. cbn. by rewrite Hm2, Hb2. Qed.

#[local] Hint Resolve gains_refl gains_add gains_copy : core.

Lemma own_tag_insert (ts : gmap (Repo * string) string) r d rp t : rf_Digest r = "" → rp ≠ repo r ∨ ¬ own_tag r t →
  <[(repo r, rf_Tag r) := d]> ts !! (rp, t) = ts !! (rp, t).
Proof. intros Hd Hor. apply lookup_insert_ne. intros [= <- <-]. destruct Hor as [?|Ho]; [done|]. by apply Ho. Qed.

Lemma mem_copy_spec src dst c c' : mem_copy src dst c = inr c' →
  touches (repo dst) (own_tag dst) c c' ∧ is_Some (resolves c src) ∧ resolves c' dst = resolves c src.
Proof.
  unfold mem_copy. destruct (resolves c src) as [d|] eqn:Er; [|done]. destruct (ct_Manifests c !! (repo src, d)) as [m|] eqn:Em; [|done].
  destruct (String.eqb_spec (rf_Digest dst) "") as [Hd|Hd].
  - intros [= <-]. split_and!; [|by eexists|].
    + apply mem_touches; [|auto..]. intros. by apply own_tag_insert.
    + unfold resolves. rewrite Hd. cbn. by rewrite lookup_insert_eq.
  - destruct (String.eqb_spec (rf_Digest dst) d) as [He|]; [|done]. intros [= <-]. split_and!; [|by eexists|].
    + apply mem_touches; auto.
    + unfold resolves. apply String.eqb_neq in Hd. rewrite Hd. cbn. rewrite add_new_lookup, decide_True by congruence. by rewrite He.
Qed.

Lemma mem_put_spec r m c c' : mem_put r m c = inr c' →
  touches (repo r) (own_tag r) c c' ∧ (rf_Digest r = "" → resolves c' r = Some (mem_digest m) ∧ ct_Manifests c' !! (repo r, mem_digest m) = Some m).
Proof.
  unfold mem_put. cbv zeta. case_decide as Hm; [|done]. intros [= <-]. split.
  - apply mem_touches; [|auto..]. intros rp t Hor. destruct (String.eqb_spec (rf_Digest r) ""); [|done]. by apply own_tag_insert.
  - intros Hd. unfold resolves. cbn. rewrite Hd. cbn. by rewrite lookup_insert_eq, add_new_lookup, decide_True, Hm by done.
Qed.

Lemma mem_blob_put_spec r d data c c' : mem_blob_put r d data c = inr c' →
  touches (repo r) (λ _, False) c c' ∧ data = d_Digest d ∧ ct_Blobs c' !! (repo r, d_Digest d) = Some data.
Proof.
  unfold mem_blob_put. case_decide as Hd; [|done]. destruct Hd as [Hd Hb]. intros [= <-]. split_and!; [|done|].
  - apply mem_touches; auto.
  - cbn. by rewrite add_new_lookup, decide_True, Hb by done.
Qed.

Lemma mem_untag_spec r c c' : mem_untag r c = inr c' →
  touches (repo r) (λ t, t = rf_Tag r) c c' ∧ ct_Tags c' !! (repo r, rf_Tag r) = None.
Proof.
  unfold mem_untag. destruct (ct_Tags c !! _); [|done]. intros [= <-]. split; [|apply lookup_delete_eq].
  apply mem_touches; [|auto..]. intros rp t Hor. apply lookup_delete_ne. intros [= <- <-]. by destruct Hor as [?|[]].
Qed.

Lemma mem_delete_spec r c c' : mem_delete r c = inr c' →
  ct_Manifests c' !! (repo r, rf_Digest r) = None ∧
  ∀ rp t, rp ≠ repo r ∨ ct_Tags c !! (rp, t) ≠ Some (rf_Digest r) → ct_Tags c' !! (rp, t) = ct_Tags c !! (rp, t).
Proof.
  unfold mem_delete. destruct (ct_Manifests c !! _); [|done]. intros [= <-]. split; [apply lookup_delete_eq|].
  intros rp t Hor. cbn. rewrite map_lookup_filter. destruct (ct_Tags c !! (rp, t)) as [d|]; [|done]. cbn.
  case_guard as Hg; [done|]. exfalso. destruct Hg as [-> ->]. by destruct Hor.
Qed.

Lemma mem_ref_spec s r : mem_ref s = Some r →
  rf_Digest r = extractDigest s ∧ has_char "@" (rf_Registry r) = false ∧ has_char "@" (rf_Repository r) = false.
Proof.
  unfold mem_ref, extractDigest.
  destruct (match cut "@sha256:" s with Some (name, hex) => _ | None => _ end) as [name digest] eqn:Ec.
  destruct (default ("", name) (cut "/" name)) as [registry rest] eqn:Er. destruct (default (rest, "") (cut ":" rest)) as [path tag] eqn:Ep.
  destruct (has_char "@" name) eqn:Ha; [done|]. intros [= <-]. cbn.
  assert (Hrest : has_char "@" registry = false ∧ has_char "@" rest = false).
  { destruct (cut "/" name) as [[x y]|] eqn:E; cbn in Er; injection Er as <- <-; [|done].
    apply cut_Some in E as ->. apply has_char_app_false in Ha as [? Ha]. by apply has_char_app_false in Ha as [_ ?]. }
  destruct Hrest as [Hreg Hrest]. split_and!; [|done|].
  - destruct (cut "@sha256:" s) as [[n hex]|]; by injection Ec as <- <-.
  - destruct (cut ":" rest) as [[x y]|] eqn:E; cbn in Ep; injection Ep as <- <-; [|done].
    apply cut_Some in E as ->. by apply has_char_app_false in Hrest as [? _].
Qed.

(** The name of a reference with a digest reads back with that digest. *)
Lemma mem_common_name r d r' :
  has_char "@" (rf_Registry r) = false → has_char "@" (rf_Repository r) = false → HasPrefix d "sha256:" = true →
  mem_ref (rf_Registry r +:+ "/" +:+ rf_Repository r +:+ "@" +:+ d) = Some r' → rf_Digest r' = d.
Proof.
  intros Hreg Hrepo Hd E. apply mem_ref_spec in E as [-> _]. apply HasPrefix_spec in Hd as [hex ->]. unfold extractDigest.
  replace (rf_Registry r +:+ "/" +:+ rf_Repository r +:+ "@" +:+ "sha256:" +:+ hex) with ((rf_Registry r +:+ "/" +:+ rf_Repository r) +:+ String "@" "sha256:" +:+ hex)
    by by rewrite <- !app_assoc_s.
  rewrite cut_app; [done|]. by rewrite !has_char_app, Hreg, Hrepo.
Qed.

#[refine] Definition mem_laws : @RegLaws mem_lib := {| contents := (λ c : Contents, c) : @Net mem_lib → Contents; referrers_api _ := True |}.
Proof.
  all: cbn [Net LibErr lib_NotFound SetDigest ManifestDigest FromBytes GetPlatformDesc lib_ImageCopy lib_ManifestHead lib_ManifestGet lib_ManifestPut lib_ManifestDelete
    lib_TagDelete lib_ReferrerList lib_BlobHead lib_BlobGet lib_BlobPut lib_ImageConfig ref_New CommonName mem_lib].
  - done.
  - intros s r E _. by apply mem_ref_spec in E as [? _].
  - intros s r d r' E Hd. apply mem_ref_spec in E as (_ & H1 & H2). cbn. by apply mem_common_name.
  - intros [[|x l]|] p d; cbn; [done| |done]. intros [= <-]. exists (x :: l). split; [done|left].
  - intros. apply mem_read_quiet.
  - intros rc r w d E. by apply mem_read_ok in E.
  - intros rc r w e E He. by apply mem_read_missing in E.
  - intros. apply mem_read_quiet.
  - intros rc r w m E%mem_read_ok. apply bind_Some in E as (d & -> & (m' & _ & E)%bind_Some).
    case_decide as Hc; [|done]. destruct Hc as [Hd Hl]. simplify_eq. split; [done|]. intros l d -> Hin Hd. apply Hl, elem_of_map. by exists d.
  - intros. apply mem_read_quiet.
  - intros rc r w l E%mem_read_ok. injection E as <-. apply not_elem_of_nil.
  - intros. apply mem_read_quiet.
  - intros. apply mem_read_quiet.
  - intros rc r d w a E%mem_read_ok. apply bind_Some in E as (x & -> & _). by eexists.
  - intros. apply mem_read_quiet.
  - intros rc r d w rdr data E%mem_read_ok. apply bind_Some in E as (x & _ & E). case_decide; [|done]. simplify_eq. cbn. congruence.
  - intros rc opts src dst w. apply (mem_write_rel (touches _ _)). intros c' E.
    eapply touches_mono; [|exact (proj1 (mem_copy_spec _ _ _ _ E))]. intros t Ht. by left.
  - intros rc opts src dst w a E. apply mem_write_ok in E. apply mem_copy_spec in E as (_ & ? & ?). done.
  - intros rc r d rdr w. rewrite bind_eq. pose proof (mem_write_rel (touches (repo r) (λ _, False)) rc r (mem_blob_put r d (rd_Data rdr)) w
      (λ c' E, proj1 (mem_blob_put_spec _ _ _ _ _ E))) as Hw. by destruct (fst (mem_write _ _ _ _)).
  - intros rc r d rdr w a. rewrite bind_eq. destruct (fst (mem_write _ _ _ _)) as [e|u] eqn:E; [done|]. intros _.
    apply mem_write_ok in E. exact (proj2 (mem_blob_put_spec _ _ _ _ _ E)).
  - intros rc r m w. apply (mem_write_rel (touches _ _)). intros c' E. exact (proj1 (mem_put_spec _ _ _ _ E)).
  - intros rc r m w Hd. unfold mem_write. destruct (plain_http rc r); [|by left]. destruct (mem_put r m w) as [e|c'] eqn:E; [by left|].
    right. by apply (proj2 (mem_put_spec _ _ _ _ E)).
  - intros rc r m w a E. apply mem_write_ok in E. exact (proj2 (mem_put_spec _ _ _ _ E)).
  - intros rc r w Hd. apply (mem_write_rel (touches _ _)). intros c' E. apply mem_untag_spec in E as [E _].
    eapply touches_mono; [|exact E]. by intros t ->.
  - intros rc r w Hd. unfold resolves. rewrite Hd. cbn [String.eqb]. unfold mem_write. destruct (plain_http rc r); [|done].
    destruct (mem_untag r w) as [e|c'] eqn:E; cbn.
    + unfold mem_untag in E. destruct (ct_Tags w !! _); [done|]. done.
    + intros _. exact (proj2 (mem_untag_spec _ _ _ E)).
  - intros rc r w Hd. apply String.eqb_neq in Hd. unfold resolves. rewrite Hd. unfold mem_write. destruct (plain_http rc r); [|done].
    destruct (mem_delete r w) as [e|c'] eqn:E; cbn.
    + unfold mem_delete in E. by destruct (ct_Manifests w !! _).
    + intros _. apply mem_delete_spec in E as [-> _]. done.
  - intros rc r w rp t Hor. unfold mem_write. destruct (plain_http rc r); [|done].
    destruct (mem_delete r w) as [e|c'] eqn:E; [done|]. by apply mem_delete_spec in E as [_ ->].
Defined.

Lemma cache_serves_requested_witness :
  let cc := cache_apply NewClientCache (CGet 0 ["b:5000"; "a"] "/auth") in
  fst (GetOrCreate (4 * 60 * 10 ^ 9) ["a"; "b:5000"] "/auth" cc) = NewMirrorClient ["a"; "b:5000"] "/auth" [].
Proof.
  assert (Hc : ∀ l, l ⊆ ["a"; "b:5000"] → clean l "/auth").
  { intros l Hl. split; [|reflexivity]. apply Forall_forall. intros h Hh%Hl. by repeat (apply elem_of_cons in Hh as [->|Hh]); [..|apply elem_of_nil in Hh]. }
  pose proof (cache_serves_requested (5 * 60 * 10 ^ 9) [CGet 0 ["b:5000"; "a"] "/auth"] (4 * 60 * 10 ^ 9) ["a"; "b:5000"] "/auth") as Hs.
  cbv zeta. cbn [foldl] in Hs. change (NewClientCacheWithInterval (5 * 60 * 10 ^ 9)) with NewClientCache in Hs.
  destruct (GetOrCreate _ _ _ _) as [client cc]. apply Hs; [lia| |by apply Hc].
  constructor; [|constructor]. apply Hc. set_solver.
Defined.

(** An outcome, computed without the errors' type. *)
Lemma outcome {E A} (r : E + A) a : match r with inr b => Some b | inl _ => None end = Some a → r = inr a.
Proof. by destruct r as [|b]; [|intros [= ->]]. Qed.

(** A source registry with one signed image. *)
Definition ex_image : Manifest := MImage (mkDesc "" "cfg" 3 ∅) [mkDesc "" "layer" 5 ∅].
Definition ex_net : Contents :=
  let src := ("", "quay.io", "app", "") in
  mkContents {[(src, "v1") := mem_digest ex_image; (src, "sha256-list,x.sig") := mem_digest (MList [])]}
    {[(src, mem_digest ex_image) := ex_image; (src, mem_digest (MList [])) := MList []]} ∅.
Definition ex_legs : Legs := newMirrorClient ["reg"] "" [] false.

Lemma copyImage_delivers_witness :
  let w' := snd (@copyImage mem_lib ex_legs "quay.io/app:v1" "reg/mirror/app:v1" [] ex_net) in
  resolves w' (mkRef "" "reg" "mirror/app" "" "v1" "") = Some (mem_digest ex_image).
Proof.
  pose proof (@copyImage_delivers mem_lib mem_laws ex_legs "quay.io/app:v1" "reg/mirror/app:v1" [] (mkRef "" "quay.io" "app" "" "v1" "")
    (mkRef "" "reg" "mirror/app" "" "v1" "") ex_net eq_refl eq_refl eq_refl ltac:(done)) as Hd.
  cbv zeta. assert (Hr : fst (@copyImage mem_lib ex_legs "quay.io/app:v1" "reg/mirror/app:v1" [] ex_net) = inr "reg/mirror/app:v1") by (apply outcome; vm_compute; reflexivity).
  destruct (copyImage _ _ _ _ _) as [r w']. cbn in Hr. destruct Hd as [_ Hd].
  destruct (Hd _ Hr) as (_ & _ & Hres). refine (eq_trans (Hres _) _); [split; [by intros [[] _]|by right]|]. vm_compute. reflexivity.
Defined.

Lemma CheckExist_truthful_witness :
  fst (@CheckExist mem_lib ex_legs "quay.io/app:v2" ex_net) = inr false ∧ resolves ex_net (mkRef "" "quay.io" "app" "" "v2" "") = None.
Proof.
  assert (Hf : fst (@CheckExist mem_lib ex_legs "quay.io/app:v2" ex_net) = inr false) by (apply outcome; vm_compute; reflexivity). split; [done|].
  pose proof (@CheckExist_truthful mem_lib mem_laws ex_legs "quay.io/app:v2" ex_net) as Ht. destruct (CheckExist _ _ _) as [r w']. cbn in Hf.
  destruct Ht as [_ Ht]. destruct (Ht _ Hf) as (ref & Er & Hb). vm_compute in Er. injection Er as <-.
  apply eq_None_not_Some. intros Hs. apply Hb in Hs. discriminate Hs.
Defined.

Lemma DeleteManifest_exact_witness :
  let w' := snd (@DeleteManifest mem_lib ex_legs "quay.io/app:v1" ex_net) in
  resolves w' (mkRef "" "quay.io" "app" "" "v1" "") = None ∧
  resolves w' (mkRef "" "quay.io" "app" "" "" (mem_digest ex_image)) = Some (mem_digest ex_image).
Proof.
  pose proof (@DeleteManifest_exact mem_lib mem_laws ex_legs "quay.io/app:v1" (mkRef "" "quay.io" "app" "" "v1" "") ex_net eq_refl) as Hd.
  cbv zeta. assert (Hr : fst (@DeleteManifest mem_lib ex_legs "quay.io/app:v1" ex_net) = inr tt) by (apply outcome; vm_compute; reflexivity).
  split; [|vm_compute; reflexivity].
  destruct (DeleteManifest _ _ _) as [r w']. cbn in Hr. destruct Hd as (Hd & _). by apply Hd.
Defined.
