(* ===== verification/Signatures.v ===== *)
(** * Signatures

    OpenPGP signatures of release payloads (pkg/release/signature.go, verify.go),
    cosign signatures of images (pkg/mirror/cosign/verify.go), and what the
    manager does with them (pkg/mirror/manager: verifyReleaseNodes through
    [Resolve], downloadSignaturesForNodes, verifyOperatorCatalogSignature,
    signatureErrNoLock).  The cryptography is the interfaces [OpenPGP] and
    [Cosign]; what a valid signature means is stated by [OpenPGPLaws] and
    [CosignLaws]. *)
From S2P Require Import Prelude Effects GoStrings ImageRef ImageState Api Resolve Registry.

(** [json.Unmarshal] of a signed payload and its
    [Critical.Image.DockerManifestDigest], empty when it is missing; [None]:
    the bytes do not parse. *)
Class SigPayload := { payload_digest : string → option string }.

(** ** Release signatures *)

(** [strings.ReplaceAll] of one character. *)
Fixpoint replace_char (a b : ascii) (s : string) : string :=
  match s with "" => "" | String c s => String (if Ascii.eqb c a then b else c) (replace_char a b s) end.

Definition signatureBaseURL : string := "https://mirror.openshift.com/pub/openshift-v4/signatures/openshift/release".
Definition signature_url (releaseDigest : string) : string :=
  signatureBaseURL +:+ "/" +:+ replace_char ":" "=" releaseDigest +:+ "/signature-1".

(** The answer to the [n]-th request: a status and a body, which may break off. *)
Class HTTP := { http_get : nat → string → option (Z * option string) }.

Inductive sig_err := DownloadFailed | StatusError (code : Z) | BodyError | EmptyBody
  | ParseSignature | NotSigned | ContentError | BadSignature | Untrusted | NoPacket | Expired | ParsePayload | WrongDigest (signed : string).

(** The limit of the reader. *)
Definition maxSignatureSize : N := 64 * 1024.

Definition DownloadSignature `{HTTP} (releaseDigest : string) : M nat sig_err string := λ n,
  (match http_get n (signature_url releaseDigest) with
   | None => inl DownloadFailed
   | Some (code, body) =>
     if negb (code =? 200)%Z then inl (StatusError code)
     else match body with
          | None => inl BodyError
          | Some data =>
            let data := LimitReader maxSignatureSize data in
            if String.eqb data "" then inl EmptyBody else inr data
          end
   end, S n).

(** openpgp: what [ReadMessage] reports once the body has been read. *)
Record Packet := mkPacket { pk_CreationTime : Z; pk_SigLifetimeSecs : option Z }.
Class OpenPGP := {
  Key : Type;
  Message : Type;
  ReadMessage : string → list Key → option Message;
  md_IsSigned : Message → bool;
  md_Body : Message → option string;
  md_SignatureError : Message → option string;
  md_SignedBy : Message → option Key;
  md_Signature : Message → option Packet;
}.

Section release.
Context `{P : SigPayload, G : OpenPGP}.

(** [time.Now().After(CreationTime.Add(lifetime))] *)
Definition expired (now : Z) (p : Packet) : bool :=
  match pk_SigLifetimeSecs p with Some l => (pk_CreationTime p + l * 10 ^ 9 <? now)%Z | None => false end.

Definition verifySignatureAgainst (now : Z) (sigData releaseDigest : string) (keyring : list Key) : sig_err + unit :=
  match ReadMessage sigData keyring with
  | None => inl ParseSignature
  | Some md =>
    if negb (md_IsSigned md) then inl NotSigned
    else match md_Body md with
    | None => inl ContentError
    | Some content =>
      match md_SignatureError md, md_SignedBy md, md_Signature md with
      | Some _, _, _ => inl BadSignature
      | None, None, _ => inl Untrusted
      | None, Some _, None => inl NoPacket
      | None, Some _, Some p =>
        if expired now p then inl Expired
        else match payload_digest content with
             | None => inl ParsePayload
             | Some d => if String.eqb d releaseDigest then inr tt else inl (WrongDigest d)
             end
      end
    end
  end.

(** The keys embedded in the program. *)
Context (verificationKeyring : list Key).

Definition VerifySignature (now : Z) (sigData releaseDigest : string) : sig_err + unit :=
  verifySignatureAgainst now sigData releaseDigest verificationKeyring.

(** One turn of the loop of verifyReleaseNodes: the digest was downloaded with
    request [n] and verified. *)
Definition release_signed `{HTTP} (now : Z) (n : nat) (digest : string) : bool :=
  match fst (DownloadSignature digest n) with
  | inl _ => false
  | inr data => match VerifySignature now data digest with inl _ => false | inr _ => true end
  end.
End release.

(** The signer of a body.  [vouched k content]: the holder of [k] signed
    [content]. *)
Class OpenPGPLaws `{OpenPGP} := {
  vouched : Key → string → Prop;
  message_authentic : ∀ data keyring md content k,
    ReadMessage data keyring = Some md → md_IsSigned md = true → md_Body md = Some content →
    md_SignatureError md = None → md_SignedBy md = Some k → k ∈ keyring ∧ vouched k content;
}.

(** ** The ConfigMap with the signatures *)

(** The [BinaryData] of the ConfigMap, which may not exist, with the faults of
    the coming API calls, and the number of the next HTTP request. *)
Record SigWorld := mkSigWorld { sw_cm : option (gmap string string); sw_faults : list bool; sw_http : nat }.

(** The loop over the nodes: the signatures that are not stored yet. *)
Fixpoint new_signatures `{HTTP} (existing : gmap string string) (nodes : list Node) (n : nat) (acc : gmap string string) : gmap string string * nat :=
  match nodes with
  | [] => (acc, n)
  | node :: nodes =>
    let digest := extractDigest (n_Image node) in
    if String.eqb digest "" then new_signatures existing nodes n acc
    else
      let key := replace_char ":" "-" digest in
      match existing !! key with
      | Some _ => new_signatures existing nodes n acc
      | None =>
        match DownloadSignature digest n with
        | (inl _, n') => new_signatures existing nodes n' acc
        | (inr data, n') => new_signatures existing nodes n' (<[key := data]> acc)
        end
      end
  end.

Definition sig_fault (w : SigWorld) : bool * SigWorld :=
  match sw_faults w with [] => (false, w) | b :: l => (b, mkSigWorld (sw_cm w) l (sw_http w)) end.

(** Create and Update fail without effect; Create fails when the ConfigMap
    exists and Update when it does not.  Every error is ignored. *)
Definition downloadSignaturesForNodes `{HTTP} (nodes : list Node) (w : SigWorld) : SigWorld :=
  if decide (nodes = []) then w
  else
    let '(b, w) := sig_fault w in
    let found := if (b : bool) then None else sw_cm w in
    let existing := default ∅ found in
    let '(newSigs, n) := new_signatures existing nodes (sw_http w) ∅ in
    let w := mkSigWorld (sw_cm w) (sw_faults w) n in
    if decide (newSigs = ∅) then w
    else
      let merged := newSigs ∪ existing in
      let '(b, w) := sig_fault w in
      match found, sw_cm w with
      | None, None => if (b : bool) then w else mkSigWorld (Some merged) (sw_faults w) (sw_http w)
      | None, Some _ => w
      | Some _, Some _ => if (b : bool) then w else mkSigWorld (Some merged) (sw_faults w) (sw_http w)
      | Some _, None => w
      end.

(** ** cosign *)

Definition signatureAnnotationKey : string := "dev.cosignproject.cosign/signature".
Definition certificateAnnotationKey : string := "dev.sigstore.cosign/certificate".

Class Cosign := {
  PubKey : Type;
  Verifier : Type;
  UnmarshalPEMToPublicKey : string → option PubKey;
  LoadVerifier : PubKey → option Verifier;
  CheckSignature : Verifier → string → string → bool;      (* signature, payload *)
  DecodeBase64 : string → option string;
  UnmarshalCertificatesFromPEM : string → option (list PubKey);
}.
Class CosignLaws `{Cosign} := {
  attests : PubKey → string → Prop;
  check_authentic : ∀ k v sig payload, LoadVerifier k = Some v → CheckSignature v sig payload = true → attests k payload;
}.

Section cosign.
Context `{L : RegLib, P : SigPayload, CS : Cosign}.

Definition of_option {A} (what : string) (o : option A) : M Net Err A := match o with Some a => mret a | None => fail (Msg what) end.

Definition signatureRef (imageRef imageDigest : string) : M Net Err Ref :=
  r ← parse_ref "parse image reference" imageRef;
  let hex := TrimPrefix imageDigest "sha256:" in
  if String.eqb hex "" || String.eqb hex imageDigest then fail (Msg "not a sha256 digest")
  else mret (with_tag r ("sha256-" +:+ hex +:+ ".sig") "").

(** The steps both checks of a layer begin with: the signature and the payload
    of the layer, which must name the digest of the image. *)
Definition layer_payload (c : Legs) (sigRef : Ref) (imageDigest : string) (layer : Descriptor) : M Net Err (string * string) :=
  sigB64 ← of_option "signature layer without annotation" (d_Annotations layer !! signatureAnnotationKey);
  if String.eqb sigB64 "" then fail (Msg "signature layer without annotation")
  else
    sigBytes ← of_option "decode signature" (DecodeBase64 sigB64);
    rdr ← wrap "fetch signature payload" (BlobGet c sigRef layer);
    payload ← of_option "read signature payload" (ReadAll rdr);
    d ← of_option "parse signature payload" (payload_digest payload);
    if negb (String.eqb d imageDigest) then fail (Msg "signature payload digest does not match")
    else mret (sigBytes, payload).

Definition verifyLayerSignature (c : Legs) (sigRef : Ref) (verifier : Verifier) (imageDigest : string) (layer : Descriptor) : M Net Err unit :=
  '(sigBytes, payload) ← layer_payload c sigRef imageDigest layer;
  if CheckSignature verifier sigBytes payload then mret tt else fail (Msg "signature verification failed").

Definition verifySignaturePresence (c : Legs) (sigRef : Ref) (imageDigest : string) (layer : Descriptor) : M Net Err unit :=
  '(sigBytes, payload) ← layer_payload c sigRef imageDigest layer;
  let certPEM := default "" (d_Annotations layer !! certificateAnnotationKey) in
  if String.eqb certPEM "" then mret tt
  else match UnmarshalCertificatesFromPEM certPEM with
       | Some (cert :: _) =>
         verifier ← of_option "load verifier for embedded certificate key" (LoadVerifier cert);
         if CheckSignature verifier sigBytes payload then mret tt else fail (Msg "signature does not match embedded certificate")
       | _ => fail (Msg "parse embedded certificate")
       end.

(** The loop over the layers: the first that passes decides. *)
Fixpoint first_valid (check : Descriptor → M Net Err unit) (layers : list Descriptor) (lastErr : Err) : M Net Err unit :=
  match layers with
  | [] => fail (Wrap "no valid signature found" lastErr)
  | layer :: layers =>
    r ← attempt (check layer);
    match r with inl e => first_valid check layers e | inr _ => mret tt end
  end.

(** The layers of the signature manifest. *)
Definition signature_layers (c : Legs) (sigRef : Ref) : M Net Err (list Descriptor) :=
  m ← wrap "fetch signature manifest" (ManifestGet c sigRef);
  layers ← of_option "get signature layers" (GetLayers m);
  if decide (layers = []) then fail (Msg "no signatures found") else mret layers.

Definition VerifyImageSignature (c : Legs) (imageRef imageDigest publicKeyPEM : string) : M Net Err unit :=
  pubKey ← of_option "parse cosign public key" (UnmarshalPEMToPublicKey publicKeyPEM);
  verifier ← of_option "load verifier for public key" (LoadVerifier pubKey);
  sigRef ← wrap "build signature reference" (signatureRef imageRef imageDigest);
  layers ← signature_layers c sigRef;
  first_valid (verifyLayerSignature c sigRef verifier imageDigest) layers (Msg "").

Definition HasValidSignature (c : Legs) (imageRef imageDigest : string) : M Net Err unit :=
  sigRef ← wrap "build signature reference" (signatureRef imageRef imageDigest);
  layers ← signature_layers c sigRef;
  first_valid (verifySignaturePresence c sigRef imageDigest) layers (Msg "").

(** ** The manager's clients and checks *)

Definition insecureHostsFor (mt : MirrorTarget) : list string :=
  if negb (mt_Insecure mt) then []
  else let host := CutBefore (mt_Registry mt) "/" in if String.eqb host "" then [] else [host].

Definition registryClientFor (mirrorClient : MirrorClient) (authConfigPath : string) (mt : MirrorTarget) : MirrorClient :=
  let hosts := insecureHostsFor mt in
  if decide (hosts = []) then mirrorClient else NewMirrorClient hosts authConfigPath [].

(** [secret]: the data of the Secret named by the reference, when it can be
    read; [key]: the key of the reference. *)
Definition verifyOperatorCatalogSignature (mirrorClient : MirrorClient) (authConfigPath : string) (mt : MirrorTarget)
    (secret : option (gmap string string)) (key : string) (op : Operator) (catalogDigest : string) : M Net Err unit :=
  data ← of_option "get public key secret" secret;
  pubKeyPEM ← of_option "secret has no key" (data !! key);
  VerifyImageSignature (mc_legs (registryClientFor mirrorClient authConfigPath mt)) (op_Catalog op) catalogDigest pubKeyPEM.

(** The result of the check and the cache after it; [None]: there is no digest
    to check. *)
Definition signatureErrNoLock (now : Z) (insecureHosts : list string) (authConfigPath dest : string) (cc : ClientCache) (w : Net) :
    option (Err + unit) * ClientCache * Net :=
  let digest := destinationDigest dest in
  if String.eqb digest "" then (None, cc, w)
  else
    let '(checkClient, cc) := GetOrCreate now insecureHosts authConfigPath cc in
    let '(r, w) := HasValidSignature (mc_legs checkClient) dest digest w in
    (Some r, cc, w).
End cosign.

(** * Lemmas *)

Section verified.
Context `{P : SigPayload, GL : OpenPGPLaws, W : HTTP} (keyring : list Key).

(** What a verified digest stands for. *)
Definition trusted (now : Z) (digest : string) : Prop :=
  ∃ k content, k ∈ keyring ∧ vouched k content ∧ payload_digest content = Some digest.

Lemma verify_trusted now data digest : verifySignatureAgainst now data digest keyring = inr tt → trusted now digest.
Proof.
  unfold verifySignatureAgainst. destruct (ReadMessage data keyring) as [md|] eqn:Er; [|done].
  destruct (md_IsSigned md) eqn:Es; [|done]. cbn. destruct (md_Body md) as [content|] eqn:Eb; [|done].
  destruct (md_SignatureError md) eqn:Ee; [done|]. destruct (md_SignedBy md) as [k|] eqn:Ek; [|done].
  destruct (md_Signature md) as [p|]; [|done]. destruct (expired now p); [done|].
  destruct (payload_digest content) as [d|] eqn:Ed; [|done]. destruct (String.eqb_spec d digest) as [->|]; [|done]. intros _.
  destruct (message_authentic data keyring md content k) as [Hk Hv]; [done..|]. by exists k, content.
Qed.

Lemma release_signed_trusted now n digest : release_signed keyring now n digest = true → trusted now digest.
Proof.
  unfold release_signed, VerifySignature. destruct (fst (DownloadSignature digest n)) as [e|data]; [done|].
  destruct (verifySignatureAgainst now data digest keyring) as [e|[]] eqn:E; [done|]. intros _. by eapply verify_trusted.
Qed.

End verified.

(** ** Stored signatures *)

Section stored.
Context `{W : HTTP}.

Lemma new_signatures_spec existing nodes n acc :
  let out := fst (new_signatures existing nodes n acc) in
  (∀ k, is_Some (acc !! k) → is_Some (out !! k)) ∧
  (∀ k, is_Some (out !! k) → is_Some (acc !! k) ∨ existing !! k = None) ∧
  ∀ node, node ∈ nodes → extractDigest (n_Image node) ≠ "" →
    is_Some (existing !! replace_char ":" "-" (extractDigest (n_Image node))) ∨
    is_Some (out !! replace_char ":" "-" (extractDigest (n_Image node))) ∨
    ∃ m e, fst (DownloadSignature (extractDigest (n_Image node)) m) = inl e.
Proof.
  revert n acc. induction nodes as [|node nodes IH]; intros n acc; cbn [new_signatures].
  { split_and!; [done|by left|]. by intros ? ?%elem_of_nil. }
  set (digest := extractDigest (n_Image node)). destruct (String.eqb_spec digest "") as [Hd|Hd].
  { destruct (IH n acc) as (I1 & I2 & I3). split_and!; [done..|]. intros x [->|Hx]%elem_of_cons; [done|by apply I3]. }
  destruct (existing !! replace_char ":" "-" digest) as [v|] eqn:Ee.
  { destruct (IH n acc) as (I1 & I2 & I3). split_and!; [done..|]. intros x [->|Hx]%elem_of_cons; [left; fold digest; rewrite Ee; by eexists|by apply I3]. }
  destruct (DownloadSignature digest n) as [[e|data] n'] eqn:Ed.
  { destruct (IH n' acc) as (I1 & I2 & I3). split_and!; [done..|]. intros x [->|Hx]%elem_of_cons; [|by apply I3].
    intros _. right. right. exists n, e. fold digest. by rewrite Ed. }
  set (key := replace_char ":" "-" digest) in *. destruct (IH n' (<[key := data]> acc)) as (I1 & I2 & I3).
  assert (Hkey : is_Some (<[key := data]> acc !! key)) by (rewrite lookup_insert_eq; by eexists). split_and!.
  - intros k Hk. apply I1. destruct (decide (key = k)) as [<-|Hne]; [done|]. by rewrite lookup_insert_ne.
  - intros k Hk. destruct (decide (key = k)) as [<-|Hne]; [by right|]. apply I2 in Hk. by rewrite lookup_insert_ne in Hk.
  - intros x [->|Hx]%elem_of_cons; [|by apply I3]. intros _. right. left. by apply I1.
Qed.

Lemma sig_fault_cm w : sw_cm (snd (sig_fault w)) = sw_cm w.
Proof. unfold sig_fault. by destruct (sw_faults w). Qed.
End stored.

(** ** Checking layers *)

Section layers.
Context `{RL : RegLaws, P : SigPayload, CL : CosignLaws}.

Lemma of_option_bind {A B} what (o : option A) (k : A → M Net Err B) w :
  (of_option what o ≫= k) w = match o with Some a => k a w | None => (inl (Msg what), w) end.
Proof. by destruct o. Qed.

Lemma wrap_snd {A} what (m : M Net Err A) w : snd (wrap what m w) = snd (m w).
Proof. by rewrite wrap_eq. Qed.

Lemma layer_payload_spec c sigRef digest layer w :
  reads w (snd (layer_payload c sigRef digest layer w)) ∧
  ∀ s p, fst (layer_payload c sigRef digest layer w) = inr (s, p) → payload_digest p = Some digest.
Proof.
  unfold layer_payload. rewrite of_option_bind. destruct (d_Annotations layer !! _) as [b64|]; [|done].
  destruct (String.eqb b64 ""); [done|]. rewrite of_option_bind. destruct (DecodeBase64 b64) as [sig|]; [|done].
  rewrite bind_eq. pose proof (BlobGet_reads c sigRef layer w) as Hr. rewrite wrap_snd.
  destruct (fst (wrap _ _ _)) as [e|rdr]; [done|]. rewrite of_option_bind. destruct (ReadAll rdr) as [p|]; [|done].
  rewrite of_option_bind. destruct (payload_digest p) as [d|] eqn:Ed; [|done].
  destruct (String.eqb_spec d digest) as [->|]; [|done]. cbn. split; [done|]. by intros s p' [= _ <-].
Qed.

Lemma verifyLayer_spec c sigRef k v digest layer w : LoadVerifier k = Some v →
  reads w (snd (verifyLayerSignature c sigRef v digest layer w)) ∧
  (fst (verifyLayerSignature c sigRef v digest layer w) = inr tt → ∃ p, payload_digest p = Some digest ∧ attests k p).
Proof.
  intros Hv. unfold verifyLayerSignature. rewrite bind_eq. destruct (layer_payload_spec c sigRef digest layer w) as [Hr Hp].
  destruct (fst (layer_payload c sigRef digest layer w)) as [e|[s p]]; [done|]. specialize (Hp _ _ eq_refl).
  destruct (CheckSignature v s p) eqn:Ec; [|done]. split; [done|]. intros _. exists p. split; [done|]. by eapply check_authentic.
Qed.

Lemma presence_spec c sigRef digest layer w :
  reads w (snd (verifySignaturePresence c sigRef digest layer w)) ∧
  (fst (verifySignaturePresence c sigRef digest layer w) = inr tt → ∃ p, payload_digest p = Some digest ∧
     (default "" (d_Annotations layer !! certificateAnnotationKey) ≠ "" → ∃ k, attests k p)).
Proof.
  unfold verifySignaturePresence. rewrite bind_eq. destruct (layer_payload_spec c sigRef digest layer w) as [Hr Hp].
  destruct (fst (layer_payload c sigRef digest layer w)) as [e|[s p]]; [done|]. specialize (Hp _ _ eq_refl). cbv zeta.
  destruct (String.eqb_spec (default "" (d_Annotations layer !! certificateAnnotationKey)) "") as [->|Hc].
  { split; [done|]. intros _. by exists p. }
  destruct (UnmarshalCertificatesFromPEM _) as [[|k ks]|]; [done| |done]. rewrite of_option_bind.
  destruct (LoadVerifier k) as [v|] eqn:Ev; [|done]. destruct (CheckSignature v s p) eqn:Ec; [|done].
  split; [done|]. intros _. exists p. split; [done|]. intros _. exists k. by eapply check_authentic.
Qed.

Lemma first_valid_spec (check : Descriptor → M Net Err unit) (Q : Prop) layers last w :
  (∀ d w, reads w (snd (check d w)) ∧ (fst (check d w) = inr tt → Q)) →
  reads w (snd (first_valid check layers last w)) ∧ (fst (first_valid check layers last w) = inr tt → Q).
Proof.
  intros Hc. revert last w. induction layers as [|d layers IH]; intros last w; [done|]. cbn [first_valid]. rewrite attempt_bind.
  destruct (Hc d w) as [H1 H2]. destruct (fst (check d w)) as [e|[]]; [|by auto].
  destruct (IH e (snd (check d w))) as [I1 I2]. split; [by etransitivity|done].
Qed.

(** A layer that passes wins, whatever the others hold. *)
Lemma first_valid_complete (check : Descriptor → M Net Err unit) layers last w d :
  d ∈ layers → (∀ w, fst (check d w) = inr tt) → fst (first_valid check layers last w) = inr tt.
Proof.
  intros Hin Hd. revert last w. induction layers as [|x layers IH]; intros last w; [by apply elem_of_nil in Hin|]. cbn [first_valid].
  rewrite attempt_bind. apply elem_of_cons in Hin as [->|Hin]; [by rewrite Hd|].
  destruct (fst (check x w)) as [e|[]]; [by apply IH|done].
Qed.

Lemma signature_layers_reads c r w : reads w (snd (signature_layers c r w)).
Proof.
  unfold signature_layers. rewrite bind_eq. pose proof (ManifestGet_reads c r w) as Hr. rewrite wrap_snd.
  destruct (fst (wrap _ _ _)) as [e|m]; [done|]. rewrite of_option_bind. destruct (GetLayers m) as [l|]; [|done]. by destruct (decide _).
Qed.

Lemma signatureRef_same imageRef digest w : snd (signatureRef imageRef digest w) = w.
Proof. unfold signatureRef. rewrite parse_bind. destruct (ref_New imageRef); [|done]. cbv zeta. by destruct (_ || _). Qed.

(** Both checks, from the reference on. *)
Lemma from_ref (check : Ref → Descriptor → M Net Err unit) (Q : Prop) c imageRef digest w :
  (∀ r d w, reads w (snd (check r d w)) ∧ (fst (check r d w) = inr tt → Q)) →
  let m := sigRef ← wrap "build signature reference" (signatureRef imageRef digest);
           layers ← signature_layers c sigRef; first_valid (check sigRef) layers (Msg "") in
  reads w (snd (m w)) ∧ (fst (m w) = inr tt → Q).
Proof.
  intros Hc m. unfold m. rewrite bind_eq, wrap_snd, signatureRef_same. destruct (fst (wrap _ _ _)) as [e|r]; [done|].
  rewrite bind_eq. pose proof (signature_layers_reads c r w) as Hr. destruct (fst (signature_layers c r w)) as [e|layers]; [done|].
  destruct (first_valid_spec (check r) Q layers (Msg "") (snd (signature_layers c r w)) (Hc r)) as [I1 I2].
  split; [by etransitivity|done].
Qed.
End layers.

(** * Theorems *)

(** C14: a catalog passes its check only with the configured key.  When the
    verification succeeds, the public key that was given signed a payload that
    names exactly the digest the catalog is read at, and nothing in any registry
    has changed; and a broken signature beside a valid one does no harm. *)
Theorem catalog_signature_binds `{RegLaws, SigPayload, CosignLaws} mirrorClient auth mt secret key op digest w :
  let c := mc_legs (registryClientFor mirrorClient auth mt) in
  (let '(r, w') := verifyOperatorCatalogSignature mirrorClient auth mt secret key op digest w in
   contents w' = contents w ∧
   (r = inr tt → ∃ data pem k payload, secret = Some data ∧ data !! key = Some pem ∧ UnmarshalPEMToPublicKey pem = Some k ∧
      attests k payload ∧ payload_digest payload = Some digest)) ∧
  (∀ data pem k v sigRef layers w1 d, secret = Some data → data !! key = Some pem → UnmarshalPEMToPublicKey pem = Some k → LoadVerifier k = Some v →
     fst (signatureRef (op_Catalog op) digest w) = inr sigRef → signature_layers c sigRef w = (inr layers, w1) →
     d ∈ layers → (∀ w, fst (verifyLayerSignature c sigRef v digest d w) = inr tt) →
     fst (verifyOperatorCatalogSignature mirrorClient auth mt secret key op digest w) = inr tt).
Proof.
  intros c. split.
  - unfold verifyOperatorCatalogSignature. rewrite of_option_bind. destruct secret as [data|]; [|done].
    rewrite of_option_bind. destruct (data !! key) as [pem|] eqn:Ek; [|done].
    unfold VerifyImageSignature. rewrite of_option_bind. destruct (UnmarshalPEMToPublicKey pem) as [k|] eqn:Ep; [|done].
    rewrite of_option_bind. destruct (LoadVerifier k) as [v|] eqn:Ev; [|done].
    pose proof (from_ref (λ r d, verifyLayerSignature c r v digest d) (∃ p, payload_digest p = Some digest ∧ attests k p) c (op_Catalog op) digest w
      (λ r d w, verifyLayer_spec c r k v digest d w Ev)) as [Hr Hok].
    fold c. match goal with |- let '(_, _) := ?x in _ => rewrite (surjective_pairing x) end.
    split; [exact Hr|]. intros Hv. destruct (Hok Hv) as (p & Hp & Ha).
    exists data, pem, k, p. by split_and!.
  - intros data pem k v sigRef layers w1 d -> Ek Ep Ev Er El Hin Hd. unfold verifyOperatorCatalogSignature.
    rewrite of_option_bind, of_option_bind, Ek. unfold VerifyImageSignature. rewrite of_option_bind, Ep, of_option_bind, Ev. fold c.
    rewrite bind_eq, wrap_eq, Er. cbn. rewrite signatureRef_same, bind_eq, El. cbn. by apply (first_valid_complete _ _ _ _ d).
Qed.

(** The check for signed images looks at the digest of the image itself:
    a destination that passes has a signature document that names the digest
    its reference stands for, signed by the key of its certificate when it
    carries one; destinations without a digest are not checked. *)
Theorem signature_presence_binds `{RegLaws, SigPayload, CosignLaws} now hosts auth dest cc w :
  let '(r, cc', w') := signatureErrNoLock now hosts auth dest cc w in
  contents w' = contents w ∧
  (destinationDigest dest = "" ↔ r = None) ∧
  (r = Some (inr tt) → ∃ payload, payload_digest payload = Some (destinationDigest dest)).
Proof.
  unfold signatureErrNoLock. destruct (String.eqb_spec (destinationDigest dest) "") as [Hd|Hd]; [done|].
  destruct (GetOrCreate now hosts auth cc) as [client cc'].
  pose proof (from_ref (λ r d, verifySignaturePresence (mc_legs client) r (destinationDigest dest) d) (∃ p, payload_digest p = Some (destinationDigest dest))
    (mc_legs client) dest (destinationDigest dest) w) as Hf.
  rewrite (surjective_pairing (HasValidSignature _ _ _ _)). destruct Hf as [Hr Hok].
  { intros ref d w1. destruct (presence_spec (mc_legs client) ref (destinationDigest dest) d w1) as [P1 P2]. split; [done|].
    intros Hc. destruct (P2 Hc) as (p & Hp & _). by exists p. }
  split; [exact Hr|]. split; [done|]. intros [= Hv]. exact (Hok Hv).
Qed.

(** Published signatures are never lost.  Whatever calls fail, a signature
    that is stored stays as it is; when none fails, every payload whose
    signature can be downloaded has one stored afterwards. *)
Theorem stored_signatures_grow `{HTTP} nodes w :
  let w' := downloadSignaturesForNodes nodes w in
  (∀ cm k v, sw_cm w = Some cm → cm !! k = Some v → ∃ cm', sw_cm w' = Some cm' ∧ cm' !! k = Some v) ∧
  (sw_faults w = [] → ∀ node, node ∈ nodes → extractDigest (n_Image node) ≠ "" →
     (∃ cm', sw_cm w' = Some cm' ∧ is_Some (cm' !! replace_char ":" "-" (extractDigest (n_Image node)))) ∨
     ∃ m e, fst (DownloadSignature (extractDigest (n_Image node)) m) = inl e).
Proof.
  cbv zeta. unfold downloadSignaturesForNodes. destruct (decide (nodes = [])) as [->|_].
  { split; [eauto|]. by intros _ ? ?%elem_of_nil. }
  split.
  - intros cm k v Ecm Hk. destruct (sig_fault w) as [b w1] eqn:E1. pose proof (sig_fault_cm w) as Hw1. rewrite E1, Ecm in Hw1. cbn [snd] in Hw1. rewrite Hw1.
    set (found := if b then None else Some cm).
    pose proof (new_signatures_spec (default ∅ found) nodes (sw_http w1) ∅) as (_ & H2 & _).
    destruct (new_signatures (default ∅ found) nodes (sw_http w1) ∅) as [new n]. cbn in H2.
    destruct (decide (new = ∅)); cbn [sw_cm]; [eauto|].
    destruct (sig_fault (mkSigWorld (Some cm) (sw_faults w1) n)) as [b2 w2] eqn:E2.
    pose proof (sig_fault_cm (mkSigWorld (Some cm) (sw_faults w1) n)) as Hw2. rewrite E2 in Hw2. cbn in Hw2. rewrite Hw2.
    destruct b; cbn [found]; [eauto|]. destruct b2; [eauto|]. cbn. exists (new ∪ cm). split; [done|].
    rewrite lookup_union_r; [done|]. apply eq_None_not_Some. intros Hs. destruct (H2 k Hs) as [[x Hx]|Hn]; [by rewrite lookup_empty in Hx|].
    cbn in Hn. congruence.
  - destruct w as [cm0 faults n0]. cbn [sw_faults sw_cm]. intros -> node Hin Hd. cbn.
    pose proof (new_signatures_spec (default ∅ cm0) nodes n0 ∅) as (_ & _ & H3). specialize (H3 node Hin Hd).
    destruct (new_signatures (default ∅ cm0) nodes n0 ∅) as [new n]. cbn in H3. destruct H3 as [H3|[H3|H3]]; [| |by right].
    + left. destruct cm0 as [cm|]; cbn in H3; [|by rewrite lookup_empty in H3; destruct H3].
      destruct (decide (new = ∅)); cbn; eexists; (split; [done|]); [done|]. apply lookup_union_is_Some. by right.
    + left. destruct (decide (new = ∅)) as [->|Hn]; [by rewrite lookup_empty in H3; destruct H3|]. cbn.
      destruct cm0 as [cm|]; cbn; eexists; (split; [done|]); apply lookup_union_is_Some; by left.
Qed.

(** ** Behaviour that deviates from the intent *)

(** Signing is modelled by the text of the message: [k|digest] is a message of
    key [k], and a payload is its digest. *)
Definition ex_payload : SigPayload := {| payload_digest p := if String.eqb p "" then None else Some p |}.
Definition ex_pgp : OpenPGP := {|
  Key := string; Message := string * string * bool;
  ReadMessage data keyring := '(k, body) ← cut "|" data; Some (k, body, existsb (String.eqb k) keyring);
  md_IsSigned _ := true; md_Body m := Some (snd (fst m)); md_SignatureError _ := None;
  md_SignedBy m := if snd m then Some (fst (fst m)) else None;
  md_Signature _ := Some (mkPacket 0 None);
|}.
#[refine] Definition ex_pgp_laws : @OpenPGPLaws ex_pgp := {| vouched := (λ k content, ∃ data, cut "|" data = Some (k, content)) : @Key ex_pgp → string → Prop |}.
Proof.
  intros data keyring md content k Hr _ Hb _ Hs. cbn in Hr. apply bind_Some in Hr as ([k' body] & Ec & [= <-]). cbn in Hb, Hs. simplify_eq.
  destruct (existsb (String.eqb k') keyring) eqn:Ex; [|done]. injection Hs as <-. split; [|by exists data].
  apply existsb_elem in Ex as (x & Hx & <-%String.eqb_eq). done.
Defined.

(** A server that answers the first request with a valid signature and the
    second with something else. *)
Definition ex_http : HTTP := {| http_get n _ := Some (200%Z, Some (if n =? 0 then "redhat|sha256:aa" else "mallory|sha256:aa")) |}.

(** The stored signature is downloaded again and not verified: it can be another
    one than the one that was checked. *)
Theorem stored_signature_unverified :
  let node := mkNode "4.16.1" "quay.io/rel@sha256:aa" in
  @release_signed ex_payload ex_pgp ["redhat"] ex_http 0 0 "sha256:aa" = true ∧
  match sw_cm (@downloadSignaturesForNodes ex_http [node] (mkSigWorld None [] 1)) with
  | Some cm => cm !! "sha256-aa" = Some "mallory|sha256:aa"
  | None => False
  end ∧
  @VerifySignature ex_payload ex_pgp ["redhat"] 0 "mallory|sha256:aa" "sha256:aa" = inl Untrusted.
Proof. split_and!; vm_compute; reflexivity. Qed.

(** When the ConfigMap cannot be read, the signatures that were downloaded are
    dropped: it is created instead of updated, and the error is ignored. *)
Theorem unread_configmap_drops_signatures :
  let node := mkNode "4.16.1" "quay.io/rel@sha256:aa" in
  match sw_cm (@downloadSignaturesForNodes ex_http [node] (mkSigWorld (Some ∅) [true] 0)) with
  | Some cm => cm !! "sha256-aa" = None
  | None => False
  end.
Proof. vm_compute. reflexivity. Qed.

(** ** Examples *)

(** A key signs a payload by prefixing it with its name. *)
Definition ex_cosign : Cosign := {|
  PubKey := string; Verifier := string; UnmarshalPEMToPublicKey := Some; LoadVerifier := Some;
  CheckSignature v sig payload := String.eqb sig (v +:+ payload); DecodeBase64 := Some;
  UnmarshalCertificatesFromPEM pem := Some [pem];
|}.
#[refine] Definition ex_cosign_laws : @CosignLaws ex_cosign := {| attests := (λ k payload, ∃ sig, sig = k +:+ payload) : @PubKey ex_cosign → string → Prop |}.
Proof. intros k v sig payload _ _. by eexists. Defined.

(** A catalog with a foreign and a valid signature. *)
Definition ex_sig_layer (sig : string) : Descriptor := mkDesc "" "sha256:cc" 9 {[signatureAnnotationKey := sig]}.
Definition ex_sig_manifest : Manifest := MImage (mkDesc "" "c" 1 ∅) [ex_sig_layer "eve"; ex_sig_layer "alicesha256:cc"].
Definition ex_signed_net : Contents :=
  let r := ("", "quay.io", "cat", "") in
  mkContents {[(r, "sha256-cc.sig") := mem_digest ex_sig_manifest]} {[(r, mem_digest ex_sig_manifest) := ex_sig_manifest]}
    {[(r, "sha256:cc") := "sha256:cc"]}.
Definition ex_signed_op : Operator := mkOperator "quay.io/cat:v1" "" "" false false true [].
Definition ex_client : MirrorClient := NewMirrorClient [] "" [].

Lemma catalog_signature_binds_witness :
  ∃ (data : gmap string string) pem k payload, Some {["pub" := "alice"]} = Some data ∧ data !! "pub" = Some pem ∧ @UnmarshalPEMToPublicKey ex_cosign pem = Some k ∧
    @attests _ ex_cosign_laws k payload ∧ @payload_digest ex_payload payload = Some "sha256:cc".
Proof.
  pose proof (@catalog_signature_binds mem_lib mem_laws ex_payload ex_cosign ex_cosign_laws ex_client "" ex_target (Some {["pub" := "alice"]}) "pub"
    ex_signed_op "sha256:cc" ex_signed_net) as [Hb _].
  assert (Hr : fst (@verifyOperatorCatalogSignature mem_lib ex_payload ex_cosign ex_client "" ex_target (Some {["pub" := "alice"]}) "pub"
    ex_signed_op "sha256:cc" ex_signed_net) = inr tt) by (apply outcome; vm_compute; reflexivity).
  destruct (verifyOperatorCatalogSignature _ _ _ _ _ _ _ _) as [r w']. cbn in Hr. destruct Hb as [_ Hb]. exact (Hb Hr).
Defined.

Lemma signature_presence_binds_witness :
  ∃ payload, @payload_digest ex_payload payload = Some (destinationDigest "quay.io/cat:sha256-cc").
Proof.
  pose proof (@signature_presence_binds mem_lib mem_laws ex_payload ex_cosign ex_cosign_laws 0 [] "" "quay.io/cat:sha256-cc" NewClientCache ex_signed_net) as Hb.
  assert (Hr : match fst (fst (@signatureErrNoLock mem_lib ex_payload ex_cosign 0 [] "" "quay.io/cat:sha256-cc" NewClientCache ex_signed_net)) with
    Some (inr _) => true | _ => false end = true) by (vm_compute; reflexivity).
  destruct (signatureErrNoLock _ _ _ _ _ _) as [[[[e|[]]|] cc'] w']; try discriminate Hr. destruct Hb as (_ & _ & Hb). by apply Hb.
Defined.

Lemma stored_signatures_grow_witness :
  let w := mkSigWorld (Some {["sha256-bb" := "old"]}) [true] 0 in
  ∃ cm', sw_cm (@downloadSignaturesForNodes ex_http [mkNode "4.16.1" "quay.io/rel@sha256:aa"] w) = Some cm' ∧ cm' !! "sha256-bb" = Some "old".
Proof.
  intros w. destruct (@stored_signatures_grow ex_http [mkNode "4.16.1" "quay.io/rel@sha256:aa"] w) as [Hg _].
  by apply (Hg {["sha256-bb" := "old"]}).
Defined.
