(* ===== verification/ReleasePayload.v ===== *)
(** * Release graphs and payloads

    pkg/mirror/release/release.go: fetching the Cincinnati graph of a channel,
    and reading the component images and the KubeVirt disk images out of a
    release payload.  The choice of nodes in a graph is [ReleaseGraph].  JSON and
    YAML documents and archives are the interfaces [Documents] and [Archive]. *)
From S2P Require Import Prelude Effects GoStrings ImageRef ImageState Api Resolve Semver CatalogGraph CatalogFilter ReleaseGraph CatalogImage Registry Signatures.

(** ** The update service *)

Definition OcpUpdateURL : string := "https://api.openshift.com/api/upgrades_info/v1/graph".
Definition OkdUpdateURL : string := "https://origin-release.ci.openshift.org/graph".
Definition UpdateURLForType (platformType : string) : string := if String.eqb platformType "okd" then OkdUpdateURL else OcpUpdateURL.

(** The parsed documents: the graph of an update service, the tags of an image
    stream, the stream of the boot images ConfigMap, and the images of each
    architecture in it (reference, digest reference). *)
Class Documents := {
  parse_graph : string → option Graph;
  parse_imageStream : string → option (list (string * string));
  parse_bootimages : string → option string;
  parse_stream : string → option (gmap string (gmap string (string * string)));
}.

(** The bytes of a layer as an archive. *)
Class Archive := { open_layer : string → blob }.

(** The limit of the reader of a graph. *)
Definition maxGraphSize : N := 10 * 1024 * 1024.

Section release.
Context `{D : Documents}.

(** [get url channel arch]: the answer to the query, its status and its body. *)
Definition FetchGraph (get : string → string → option string → option (Z * option string)) (channel : string) (arch : list string)
    (platformType : string) : option Graph :=
  match get (UpdateURLForType platformType) channel (head arch) with
  | None => None
  | Some (code, body) =>
    if negb (code =? 200)%Z then None
    else data ← body; parse_graph (LimitReader maxGraphSize data)
  end.

Definition ResolveRelease `{SV : Semver} (get : string → string → option string → option (Z * option string)) (channel minVersion maxVersion : string)
    (arch : list string) (full shortestPath : bool) (platformType : string) : option (list string) :=
  graph ← FetchGraph get channel arch platformType;
  match ResolveReleaseNodes graph minVersion maxVersion full shortestPath with inl _ => None | inr nodes => Some (NodeImages nodes) end.

Definition ResolveLatestVersion `{SV : Semver} (get : string → string → option string → option (Z * option string)) (channel : string)
    (arch : list string) (platformType : string) : option string :=
  graph ← FetchGraph get channel arch platformType;
  n ← latestNode graph; Some (n_Version n).

(** ** Layers *)

Context `{A : Archive}.

(** A stream that breaks off gives an archive that breaks off. *)
Definition layer_blob (rdr : Reader) : blob :=
  match open_layer (rd_Data rdr) with Tar entries broken => Tar entries (broken || rd_Broken rdr) | b => b end.

(** How the search of a layer ends. *)
Inductive scan {X : Type} := ScanError | NotThere | Found (x : X).
Arguments scan : clear implicits.

(** The loop over the entries: the first whose name has the suffix decides. *)
Fixpoint scan_entries {X} (suffix : string) (parse : string → option X) (entries : list tarEntry) (broken : bool) : scan X :=
  match entries with
  | [] => if broken then ScanError else NotThere
  | e :: entries =>
    if negb (HasSuffix (te_Name e) suffix) then scan_entries suffix parse entries broken
    else match te_Data e ≫= parse with Some x => Found x | None => ScanError end
  end.

Definition scan_blob {X} (suffix : string) (parse : string → option X) (b : blob) : scan X :=
  match b with Tar entries broken => scan_entries suffix parse entries broken | _ => ScanError end.

Definition components_of (tags : list (string * string)) : list (string * string) := List.filter (λ t, negb (String.eqb (snd t) "")) tags.

Definition scanLayerForImageReferences (rdr : Reader) : scan (list (string * string)) :=
  scan_blob "image-references" (λ data, components_of <$> parse_imageStream data) (layer_blob rdr).

(** ** KubeVirt images *)

Definition MultiArch : string := "multi".
Definition archMap (a : string) : string :=
  if String.eqb a "amd64" then "x86_64" else if String.eqb a "arm64" then "aarch64" else a.

(** [None] is the nil map of the multi-architecture payload. *)
Fixpoint want_arches (arches : list string) (acc : gset string) : option (gset string) :=
  match arches with
  | [] => Some acc
  | a :: arches => if String.eqb a MultiArch then None else want_arches arches (acc ∪ {[archMap a]})
  end.

Definition wanted (want : option (gset string)) (arch : string) : bool :=
  match want with None => true | Some s => bool_decide (s = ∅) || bool_decide (arch ∈ s) end.

Definition kubevirt_ref (images : gmap string (string * string)) : option string :=
  '(image, digestRef) ← images !! "kubevirt";
  let kvRef := if String.eqb digestRef "" then image else digestRef in
  if String.eqb kvRef "" then None else Some kvRef.

(** [ks] is the order the map of architectures is enumerated in. *)
Definition collectKubeVirtRefs (ks : gmap string (gmap string (string * string)) → list string)
    (stream : gmap string (gmap string (string * string))) (want : option (gset string)) : list string :=
  omap (λ archName, if wanted want archName then stream !! archName ≫= kubevirt_ref else None) (ks stream).

Definition scanLayerForKubeVirtImages (ks : gmap string (gmap string (string * string)) → list string) (arches : list string) (rdr : Reader) : scan (list string) :=
  scan_blob "installer_coreos-bootimages.yaml"
    (λ data, s ← parse_bootimages data; if String.eqb s "" then None
             else stream ← parse_stream s; Some (collectKubeVirtRefs ks stream (want_arches arches ∅))) (layer_blob rdr).

(** ** Payloads *)

Context `{L : RegLib}.

(** The manifest of the platform, and the reference its blobs are read from. *)
Definition platformManifest (c : Legs) (imgRef : Ref) (m : Manifest) (arch : string) : M Net Err (Ref * Manifest) :=
  if negb (IsList m) then mret (imgRef, m)
  else
    desc ← (if String.eqb arch MultiArch
            then match GetManifestList m with
                 | Some (first :: _) => mret (default first (GetPlatformDesc m "linux/amd64"))
                 | _ => fail (Msg "empty manifest list")
                 end
            else match GetPlatformDesc m ("linux/" +:+ arch) with Some d => mret d | None => fail (Msg "no manifest found") end);
    let imgRef := with_tag imgRef "" (d_Digest desc) in
    pm ← wrap "failed to get platform manifest" (ManifestGet c imgRef);
    mret (imgRef, pm).

(** The layers from the last to the first; a layer that cannot be read or
    searched is skipped. *)
Fixpoint scan_layers {X} (c : Legs) (imgRef : Ref) (search : Reader → scan X) (layers : list Descriptor) : M Net Err X :=
  match layers with
  | [] => fail (Msg "not found in any layer")
  | layer :: layers =>
    r ← attempt (BlobGet c imgRef layer);
    match r with
    | inl _ => scan_layers c imgRef search layers
    | inr rdr => match search rdr with Found x => mret x | _ => scan_layers c imgRef search layers end
    end
  end.

(** The part both extractions share. *)
Definition extract {X} (c : Legs) (payloadImage arch : string) (needLayers : bool) (search : Reader → scan X) : M Net Err X :=
  imgRef ← parse_ref "failed to parse payload image reference" payloadImage;
  m ← wrap "failed to get manifest" (ManifestGet c imgRef);
  '(imgRef, m) ← platformManifest c imgRef m arch;
  match GetLayers m with
  | None => fail (Msg "failed to get layers from manifest")
  | Some layers =>
    if needLayers && bool_decide (layers = []) then fail (Msg "release payload has no layers")
    else scan_layers c imgRef search (rev layers)
  end.

Definition ExtractComponentImages (c : Legs) (payloadImage arch : string) : M Net Err (list (string * string)) :=
  extract c payloadImage arch true scanLayerForImageReferences.

Definition ExtractKubeVirtImages (ks : gmap string (gmap string (string * string)) → list string) (c : Legs) (payloadImage : string)
    (arches : list string) : M Net Err (list string) :=
  extract c payloadImage (default "amd64" (head arches)) false (scanLayerForKubeVirtImages ks arches).
End release.
Arguments scan : clear implicits.

(** * Lemmas *)

Section authentic.
Context `{D : Documents, A : Archive, RL : RegLaws}.

(** [layer] is a layer of the image with this manifest digest, or of an image
    it lists. *)
Definition layer_of (digest : string) (layer : Descriptor) : Prop :=
  (∃ cfg ls, ManifestDigest (MImage cfg ls) = digest ∧ layer ∈ ls) ∨
  (∃ l desc cfg ls, ManifestDigest (MList l) = digest ∧ desc ∈ l ∧ ManifestDigest (MImage cfg ls) = d_Digest desc ∧ layer ∈ ls).

(** A stream a client got for a layer.  The library compares the digest at its
    end: a stream that ends without an error has the bytes of the layer. *)
Definition stream_of (c : Legs) (layer : Descriptor) (rdr : Reader) : Prop :=
  (∃ r w, fst (BlobGet c r layer w) = inr rdr) ∧ (rd_Broken rdr = false → FromBytes (rd_Data rdr) = d_Digest layer).

(** A manifest that is fetched by digest has that digest. *)
Lemma ManifestGet_digest c r w m : rf_Digest r ≠ "" → fst (ManifestGet c r w) = inr m →
  ManifestDigest m = rf_Digest r ∧ ∀ l d, m = MList l → d ∈ l → d_Digest d ≠ "".
Proof.
  intros Hd E. destruct (ManifestGet c r w) as [x w'] eqn:Em. cbn in E. subst x. revert Em. unfold ManifestGet.
  apply (withFallback_spec c (λ _ rc, lib (lib_ManifestGet rc r)) (λ _, True)
    (λ _ m _, ManifestDigest m = rf_Digest r ∧ ∀ l d, m = MList l → d ∈ l → d_Digest d ≠ "")); [|done..].
  intros _ rc w1 m1 w2 _. rewrite lib_eq. destruct (fst (lib_ManifestGet rc r w1)) as [e|m2] eqn:Eg; [done|]. intros [= <- _].
  apply get_found in Eg as [Eg Hl]. split; [|done]. unfold resolves in Eg. apply String.eqb_neq in Hd. rewrite Hd in Eg.
  destruct (ct_Manifests _ !! _); by simplify_eq.
Qed.

Lemma BlobGet_stream c r d w rdr : fst (BlobGet c r d w) = inr rdr → stream_of c d rdr.
Proof.
  intros E. split; [by exists r, w|]. intros Hb. destruct (BlobGet c r d w) as [x w'] eqn:Eb. cbn in E. subst x. revert Eb Hb. unfold BlobGet.
  apply (withFallback_spec c (λ _ rc, lib (lib_BlobGet rc r d)) (λ _, True)
    (λ _ rdr _, rd_Broken rdr = false → FromBytes (rd_Data rdr) = d_Digest d)); [|done..].
  intros _ rc w1 m1 w2 _. rewrite lib_eq. destruct (fst (lib_BlobGet rc r d w1)) as [e|m2] eqn:Eg; [done|]. intros [= <- _] Hb.
  eapply blob_get_found; [exact Eg|]. unfold ReadAll. by rewrite Hb.
Qed.

(** A search ends at a layer whose stream has what is searched. *)
Lemma scan_layers_spec {X} c r (search : Reader → scan X) layers w :
  reads w (snd (scan_layers c r search layers w)) ∧
  ∀ x, fst (scan_layers c r search layers w) = inr x → ∃ layer rdr, layer ∈ layers ∧ stream_of c layer rdr ∧ search rdr = Found x.
Proof.
  revert w. induction layers as [|d layers IH]; intros w; [done|]. cbn [scan_layers]. rewrite attempt_bind.
  pose proof (BlobGet_reads c r d w) as Hr. destruct (IH (snd (BlobGet c r d w))) as [I1 I2].
  assert (Hrec : reads w (snd (scan_layers c r search layers (snd (BlobGet c r d w)))) ∧ ∀ x,
    fst (scan_layers c r search layers (snd (BlobGet c r d w))) = inr x →
    ∃ layer rdr, layer ∈ d :: layers ∧ stream_of c layer rdr ∧ search rdr = Found x).
  { split; [by etransitivity|]. intros x Hx. destruct (I2 x Hx) as (layer & rdr & Hin & Hrest). exists layer, rdr. split; [by right|done]. }
  destruct (fst (BlobGet c r d w)) as [e|rdr] eqn:Eb; [done|]. destruct (search rdr) as [| |y] eqn:Es; [done..|].
  split; [done|]. intros x [= <-]. exists d, rdr. split_and!; [left|by eapply BlobGet_stream|done].
Qed.

Lemma platformManifest_spec c imgRef m arch w :
  reads w (snd (platformManifest c imgRef m arch w)) ∧
  ∀ r' m', (∀ l d, m = MList l → d ∈ l → d_Digest d ≠ "") → fst (platformManifest c imgRef m arch w) = inr (r', m') →
    m' = m ∨ ∃ l desc, m = MList l ∧ desc ∈ l ∧ ManifestDigest m' = d_Digest desc.
Proof.
  unfold platformManifest. destruct m as [l|cfg ls]; cbn [IsList negb]; [|split; [done|]; intros r' m' _ [= <- <-]; by left].
  set (pick := if String.eqb arch MultiArch then _ else _ : M Net Err Descriptor). rewrite bind_eq.
  assert (Hp : snd (pick w) = w ∧ ∀ d, fst (pick w) = inr d → d ∈ l).
  { unfold pick. destruct (String.eqb arch MultiArch); cbn [GetManifestList].
    - destruct l as [|first l]; [done|]. split; [done|]. intros d [= <-].
      destruct (GetPlatformDesc (MList (first :: l)) "linux/amd64") as [d|] eqn:Eg; cbn; [|left].
      apply platform_desc in Eg as (l' & [= <-] & Hin). done.
    - destruct (GetPlatformDesc (MList l) _) as [d|] eqn:Eg; [|done]. split; [done|]. intros d' [= <-]. by apply platform_desc in Eg as (l' & [= <-] & Hin). }
  destruct Hp as [Hs Hp]. rewrite Hs. destruct (fst (pick w)) as [e|desc]; [done|]. specialize (Hp desc eq_refl).
  rewrite bind_eq, wrap_eq. cbn [fst snd]. set (r2 := with_tag imgRef "" (d_Digest desc)). pose proof (ManifestGet_reads c r2 w) as Hr.
  destruct (fst (ManifestGet c r2 w)) as [e|pm] eqn:Eg; [done|]. split; [done|]. intros r' m' Hv [= <- <-]. right. exists l, desc.
  split_and!; [done..|]. apply (ManifestGet_digest c r2 w pm); [|done]. by apply (Hv l).
Qed.

(** What is extracted from a payload given by digest is read from a layer of
    that very payload. *)
Lemma extract_spec {X} c payload r arch need (search : Reader → scan X) w :
  ref_New payload = Some r → rf_Digest r ≠ "" →
  reads w (snd (extract c payload arch need search w)) ∧
  ∀ x, fst (extract c payload arch need search w) = inr x →
    ∃ layer rdr, layer_of (rf_Digest r) layer ∧ stream_of c layer rdr ∧ search rdr = Found x.
Proof.
  intros Er Hd. unfold extract. rewrite parse_bind, Er, bind_eq, wrap_eq. cbn [fst snd].
  pose proof (ManifestGet_reads c r w) as H1. destruct (fst (ManifestGet c r w)) as [e|m] eqn:Em; [done|].
  destruct (ManifestGet_digest c r w m Hd Em) as [Hm Hv]. set (w1 := snd (ManifestGet c r w)) in *.
  rewrite bind_eq. destruct (platformManifest_spec c r m arch w1) as [H2 Hpm]. destruct (fst (platformManifest c r m arch w1)) as [e|[r' m']] eqn:Ep.
  { split; [by etransitivity|done]. }
  specialize (Hpm r' m' Hv eq_refl). set (w2 := snd (platformManifest c r m arch w1)) in *.
  destruct m' as [l|cfg ls]; cbn [GetLayers]; [split; [by etransitivity|done]|].
  destruct (need && bool_decide (ls = [])); [split; [by etransitivity|done]|].
  destruct (scan_layers_spec c r' search (rev ls) w2) as [H3 Hs]. split; [etransitivity; [|exact H3]; by etransitivity|].
  intros x Hx. destruct (Hs x Hx) as (layer & rdr & Hin & Hrest). exists layer, rdr. split; [|done].
  apply list_elem_of_In, in_rev, list_elem_of_In in Hin.
  destruct Hpm as [<-|(l & desc & -> & Hdesc & Hdig)]; [left; by exists cfg, ls|right; by exists l, desc, cfg, ls].
Qed.
End authentic.

(** ** The live upstream *)

Section live.
Context `{D : Documents, A : Archive, RL : RegLaws, P : SigPayload, GL : OpenPGPLaws, W : HTTP}.

Definition to_option {E X} (r : E + X) : option X := match r with inr x => Some x | inl _ => None end.

(** The upstream of [Resolve] with signatures verified and payloads read as the
    code does; [net] is the state of the registries a payload is read in. *)
Definition payload_upstream (keyring : list Key) (now : Z) (req : string → nat) (ks : gmap string (gmap string (string * string)) → list string)
    (c : Legs) (net : string → Net) (up : Upstream) : Upstream :=
  mkUpstream (up_nodes up) (λ d, release_signed keyring now (req d) d)
    (λ img arch, to_option (fst (ExtractComponentImages c img arch (net img))))
    (λ img arches, to_option (fst (ExtractKubeVirtImages ks c img arches (net img))))
    (up_catalogDigest up) (up_catalogSigned up) (up_pin up) (up_catalog up) (up_chart up) (up_graph up) (up_resolvedSig up) (up_redactURL up)
    (up_time up) (up_format up).

(** [src] is listed by a file in a stream that was served for a layer of the
    payload with this digest. *)
Definition listed_in (c : Legs) (ks : gmap string (gmap string (string * string)) → list string) (arches : list string) (digest src : string) : Prop :=
  ∃ layer rdr, layer_of digest layer ∧ stream_of c layer rdr ∧
    ((∃ comps name, scanLayerForImageReferences rdr = Found comps ∧ (name, src) ∈ comps) ∨
     (∃ refs, scanLayerForKubeVirtImages ks arches rdr = Found refs ∧ src ∈ refs)).

Lemma node_images keyring now req ks c net up p registry a kv n img :
  extractDigest (n_Image n) ≠ "" →
  img ∈ collect_node (payload_upstream keyring now req ks c net up) p registry a kv n →
  ti_Source img = n_Image n ∨ listed_in c ks (ReleaseArchitectures p) (extractDigest (n_Image n)) (ti_Source img).
Proof.
  intros Hd. unfold collect_node. cbv zeta. intros [->|Hin]%elem_of_cons; [by left|]. right. cbn [up_components payload_upstream] in Hin.
  destruct (ref_New (n_Image n)) as [r|] eqn:Er.
  2:{ exfalso. unfold ExtractComponentImages, extract in Hin. rewrite parse_bind, Er in Hin. by apply elem_of_nil in Hin. }
  pose proof (ref_digest _ _ Er Hd) as Erd. rewrite <- Erd in *.
  destruct (extract_spec c (n_Image n) r a true scanLayerForImageReferences (net (n_Image n)) Er Hd) as [_ Hc].
  unfold ExtractComponentImages in Hin. destruct (fst (extract c (n_Image n) a true _ _)) as [e|comps]; cbn in Hin; [by apply elem_of_nil in Hin|].
  destruct (Hc comps eq_refl) as (layer & rdr & Hl & Hb & Hs). apply elem_of_app in Hin as [Hin|Hin].
  - apply elem_of_map in Hin as ([name x] & Hx & ->). exists layer, rdr. split_and!; [done..|]. left. by exists comps, name.
  - destruct (kv && pf_KubeVirtContainer p); [|by apply elem_of_nil in Hin]. unfold ExtractKubeVirtImages in Hin.
    destruct (extract_spec c (n_Image n) r (default "amd64" (head (ReleaseArchitectures p))) false
      (scanLayerForKubeVirtImages ks (ReleaseArchitectures p)) (net (n_Image n)) Er Hd) as [_ Hk].
    destruct (fst (extract c (n_Image n) _ false _ _)) as [e|refs]; cbn in Hin; [by apply elem_of_nil in Hin|].
    destruct (Hk refs eq_refl) as (layer' & rdr' & Hl' & Hb' & Hs'). apply elem_of_map in Hin as (x & Hx & ->).
    exists layer', rdr'. split_and!; [done..|]. right. by exists refs.
Qed.
End live.

(** * Theorems *)

(** C11: release content is traced to what Red Hat signed.  Unless the channel
    opts out of verification, every image collected for a release channel is a
    payload whose digest is named by a document signed with an embedded key, or
    is listed in a stream that was served for a layer which this digest fixes,
    over the digests of manifest lists, manifests and layers; for every
    architecture, and whatever is served in between.  Such a stream has the bytes
    of the layer when it ends without an error; one that is cut off or altered
    ends with an error, but the code may have found the list before the end and
    not see it ([digest_not_checked_before_use]). *)
Theorem release_content_authentic `{HashJSON, Documents, Archive, RegLaws, SigPayload, OpenPGPLaws, HTTP}
    keyring now req ks c net up iset registry ch byArch vs images img :
  let up := payload_upstream keyring now req ks c net up in
  rc_SkipSignatureVerification ch = false →
  probe_archs up ch (ReleaseArchitectures (mi_Platform (is_Mirror iset))) ∅ [] = Probed byArch vs →
  CollectReleasesForChannel up (mi_Platform (is_Mirror iset)) registry ch byArch = Some images → img ∈ images →
  ∃ payload k content, k ∈ keyring ∧ vouched k content ∧ payload_digest content = Some (extractDigest payload) ∧
    (ti_Source img = payload ∨ listed_in c ks (ReleaseArchitectures (mi_Platform (is_Mirror iset))) (extractDigest payload) (ti_Source img)).
Proof.
  intros up' Hs Hp Hc Hi.
  apply (probe_verified (λ n, extractDigest (n_Image n) ≠ "" ∧ up_signed up' (extractDigest (n_Image n)) = true)) in Hp as [Hsig Hall];
    [|intros ns n Hn; by apply verified_signed in Hn as (_ & ? & ?)|intros a ns n; by rewrite lookup_empty].
  apply collect_archs_nodes with (img := img) in Hc as (a & ns & n & kv & Ha & Hn & Him); [|by auto|done].
  destruct (Hsig a ns n Ha Hn) as [Hd Hv].
  apply release_signed_trusted in Hv as (k & content & Hk & Hvo & Hpd). exists (n_Image n), k, content. split_and!; [done..|].
  eapply node_images; [done|exact Him].
Qed.

(** The KubeVirt images of a payload are exactly those of the requested
    architectures: the digest reference of an architecture, or its reference
    where there is none; every architecture counts for the multi-architecture
    payload and when none is given. *)
Theorem kubevirt_refs_exact ks stream arches :
  range_order stream (ks stream) →
  ∀ ref, ref ∈ collectKubeVirtRefs ks stream (want_arches arches ∅) ↔
    ∃ arch images, stream !! arch = Some images ∧ kubevirt_ref images = Some ref ∧
      (arches = [] ∨ MultiArch ∈ arches ∨ arch ∈ map archMap arches).
Proof.
  intros Ho ref. assert (Hw : ∀ arch, wanted (want_arches arches ∅) arch = true ↔ arches = [] ∨ MultiArch ∈ arches ∨ arch ∈ map archMap arches).
  { intros arch. assert (Hacc : ∀ acc, wanted (want_arches arches acc) arch = true ↔
      (arches = [] ∧ acc = ∅) ∨ MultiArch ∈ arches ∨ arch ∈ acc ∨ arch ∈ map archMap arches).
    { induction arches as [|a arches IH]; intros acc; cbn [want_arches map].
      - cbn [wanted]. rewrite orb_true_iff, !bool_decide_eq_true. set_solver.
      - destruct (String.eqb_spec a MultiArch) as [->|Ha]; [split; [intros _; right; left; left|done]|]. rewrite IH. set_solver. }
    rewrite Hacc. set_solver. }
  unfold collectKubeVirtRefs. rewrite list_elem_of_omap. destruct Ho as [_ Hks]. split.
  - intros (arch & Hin & E). destruct (wanted _ arch) eqn:Ew; [|done]. apply bind_Some in E as (images & Hl & Hk). apply Hw in Ew. eauto 6.
  - intros (arch & images & Hl & Hk & Ha). exists arch. split; [apply Hks; by eexists|]. apply Hw in Ha. by rewrite Ha, Hl.
Qed.

(** ** Behaviour that deviates from the intent *)

(** Archives with one file [name=content], or with one per line of [&]; an image
    stream with one component. *)
Definition ex_archive : Archive := {| open_layer s :=
  Tar (omap (λ f, '(name, data) ← cut "=" f; Some (mkTarEntry name TypeReg 0 (Some data))) (Split "&" s)) false |}.
Definition ex_documents : Documents := {|
  parse_graph _ := None; parse_imageStream s := Some [("etcd", s)]; parse_bootimages := Some; parse_stream _ := None |}.

Definition ex_desc (data : string) : Descriptor := mkDesc "" data 0 ∅.
Definition ex_base_layer : string := "manifests/image-references=quay.io/placeholder".
Definition ex_top_layer : string := "release-manifests/image-references=quay.io/etcd@sha256:e1".
(** A payload: the layer of the operator it is built from, and the layer with
    the release manifests. *)
Definition ex_payload_image : Manifest := MImage (ex_desc "cfg") [ex_desc ex_base_layer; ex_desc ex_top_layer].
Definition ex_payload_ref : string := "quay.io/rel@" +:+ mem_digest ex_payload_image.
(** The registry, without the blobs in [missing]. *)
Definition ex_payload_net (missing : list string) : Contents :=
  let r := ("", "quay.io", "rel", "") in
  mkContents ∅ {[(r, mem_digest ex_payload_image) := ex_payload_image]}
    (list_to_map (map (λ d, ((r, d), d)) (List.filter (λ d, negb (existsb (String.eqb d) missing)) [ex_base_layer; ex_top_layer]))).
Definition ex_extract (L : RegLib) (net : @Net L) : option (list (string * string)) :=
  to_option (fst (@ExtractComponentImages ex_documents ex_archive L (newMirrorClient [] "" [] false) ex_payload_ref "amd64" net)).

(** When the layer with the release manifests cannot be fetched, the file of the
    same name in a layer below is taken for the release's, without an error. *)
Theorem unreadable_layer_falls_through :
  ex_extract mem_lib (ex_payload_net []) = Some [("etcd", "quay.io/etcd@sha256:e1")] ∧
  ex_extract mem_lib (ex_payload_net [ex_top_layer]) = Some [("etcd", "quay.io/placeholder")].
Proof. split; vm_compute; reflexivity. Qed.

(** The digest of a stream is known at its end only, and the search ends before
    it: a registry that serves another file for the layer, in a stream that ends
    with the error of a digest that does not match, is believed. *)
Definition tampering_lib : RegLib := {|
  Net := Contents; LibErr := bool; lib_NotFound := id; ctx_done _ := false; ref_New := mem_ref;
  CommonName := @CommonName mem_lib; SetDigest := @SetDigest mem_lib; ManifestDigest := mem_digest; FromBytes := id; GetPlatformDesc := @GetPlatformDesc mem_lib;
  lib_ImageCopy := @lib_ImageCopy mem_lib; lib_ManifestHead := @lib_ManifestHead mem_lib; lib_ManifestGet := @lib_ManifestGet mem_lib;
  lib_ManifestPut := @lib_ManifestPut mem_lib; lib_ManifestDelete := @lib_ManifestDelete mem_lib; lib_TagDelete := @lib_TagDelete mem_lib;
  lib_ReferrerList := @lib_ReferrerList mem_lib; lib_BlobHead := @lib_BlobHead mem_lib;
  lib_BlobGet rc r d := mem_read rc r (λ _, Some (mkReader "release-manifests/image-references=evil.io/etcd" true true));
  lib_BlobPut := @lib_BlobPut mem_lib; lib_left := @lib_left mem_lib; lib_BlobCopy := @lib_BlobCopy mem_lib; lib_ImageConfig := @lib_ImageConfig mem_lib |}.

Theorem digest_not_checked_before_use : ex_extract tampering_lib (ex_payload_net []) = Some [("etcd", "evil.io/etcd")].
Proof. vm_compute. reflexivity. Qed.

(** ** Examples *)

Definition ex_release_net (_ : string) : @Net mem_lib := ex_payload_net [].
Definition ex_release_http : HTTP := {| http_get _ _ := Some (200%Z, Some ("redhat|" +:+ mem_digest ex_payload_image)) |}.
Definition ex_order (m : gmap string (gmap string (string * string))) : list string := some_order m.
Definition ex_base_upstream : Upstream :=
  mkUpstream (λ _ _, Some [mkNode "4.16.1" ex_payload_ref]) (λ _, false) (λ _ _, None) (λ _ _, None) (λ _, None) (λ _ _, false) (λ _ _, None)
    (λ _ _, None) (λ _ _, None) None (λ l, Join l ",") id (λ _, None) (λ _, "t").

Lemma release_content_authentic_witness :
  ∃ payload k content, k ∈ ["redhat"] ∧ @vouched _ ex_pgp_laws k content ∧ @payload_digest ex_payload content = Some (extractDigest payload) ∧
    ("quay.io/etcd@sha256:e1" = payload ∨
     @listed_in ex_documents ex_archive mem_lib (newMirrorClient [] "" [] false) ex_order ["amd64"] (extractDigest payload) "quay.io/etcd@sha256:e1").
Proof.
  set (up := @payload_upstream ex_documents ex_archive mem_lib ex_payload ex_pgp ex_release_http ["redhat"] 0 (λ _, 0) ex_order
    (newMirrorClient [] "" [] false) ex_release_net ex_base_upstream).
  set (img := toTargetImage "quay.io/etcd@sha256:e1" (releaseComponentDestination "reg" (releaseTagFor "4.16.1" "amd64") "etcd" "quay.io/etcd@sha256:e1") None).
  apply (@release_content_authentic ex_hash ex_documents ex_archive mem_lib mem_laws ex_payload ex_pgp ex_pgp_laws ex_release_http ["redhat"] 0 (λ _, 0)
    ex_order (newMirrorClient [] "" [] false) ex_release_net ex_base_upstream ex_set "reg" ex_chan {["amd64" := [mkNode "4.16.1" ex_payload_ref]]}
    [mkNode "4.16.1" ex_payload_ref] (collect_node up (mi_Platform (is_Mirror ex_set)) "reg" "amd64" true (mkNode "4.16.1" ex_payload_ref)) img).
  - reflexivity.
  - vm_compute. reflexivity.
  - vm_compute. reflexivity.
  - vm_compute. right. left.
Defined.

Lemma kubevirt_refs_exact_witness :
  let stream : gmap string (gmap string (string * string)) := {["x86_64" := {["kubevirt" := ("i", "quay.io/kv@sha256:01")]}; "aarch64" := {["kubevirt" := ("j", "")]}]} in
  "quay.io/kv@sha256:01" ∈ collectKubeVirtRefs ex_order stream (want_arches ["amd64"] ∅).
Proof.
  intros stream. apply (kubevirt_refs_exact ex_order stream ["amd64"]); [apply some_order_ok|].
  exists "x86_64", {["kubevirt" := ("i", "quay.io/kv@sha256:01")]}. split_and!; [reflexivity|reflexivity|]. right. right. left.
Defined.
