(* ===== verification/ImagePush.v ===== *)
(** * Building and pushing images

    The images the operator builds itself: the filtered catalog image
    (pkg/mirror/catalog/resolver.go, BuildFilteredCatalogImage, with the layers
    of [CatalogImage]) and the update graph image (pkg/mirror/graph/builder.go).
    Both read a base image from a local layout, copy its layers, push a layer of
    their own, a configuration and, last, the manifest.  Archives are symbolic:
    [Packer] gives the bytes and the digest of a list of tar entries.  The
    temporary directory of the layout is not removed in the model. *)
From S2P Require Import Prelude Effects GoStrings Api Semver CatalogGraph CatalogFilter CatalogImage ReleasePayload Registry.

Class Packer := {
  pack : list tarEntry → string;          (* gzip of the tar stream *)
  diff_id : list tarEntry → string;       (* digest of the tar stream *)
  conf_bytes : ImageConf → option string; (* JSON of an image configuration *)
}.

(** ** Copying blobs *)

Section push.
Context `{L : RegLib, A : Archive, PK : Packer}.

(** copyBlobOnce and blobGetAndPut. *)
Definition blobGetAndPut (c : Legs) (src dst : Ref) (d : Descriptor) : M Net Err unit :=
  rdr ← wrap "BlobGet" (BlobGet c src d);
  _ ← wrap "BlobPut" (BlobPut c dst d rdr);
  mret tt.

(** blobCopyWithRetry: [n] attempts are left; [done] says
    that the caller's context has ended, as opposed to that of the attempt. *)
Fixpoint blobCopyWithRetry (done : Net → bool) (c : Legs) (src dst : Ref) (d : Descriptor) (n : nat) (lastErr : option Err) : M Net Err unit :=
  match n with
  | O => match lastErr with None => mret tt | Some e => fail e end
  | S n =>
    stop ← (match lastErr with None => mret false | Some _ => getS done end);
    if (stop : bool) then fail (Msg "context ended")
    else
      r ← attempt (blobGetAndPut c src dst d);
      match r with
      | inr _ => mret tt
      | inl e => ended ← getS done; if (ended : bool) then fail (Msg "context ended") else blobCopyWithRetry done c src dst d n (Some e)
      end
  end.

(** resolvePlatformManifest and resolveManifestList. *)
Definition resolveManifestList (c : Legs) (localRef : Ref) (m : Manifest) : M Net Err (Ref * Manifest) :=
  if negb (IsList m) then mret (localRef, m)
  else match GetPlatformDesc m "linux/amd64" with
       | None => fail (Msg "no linux/amd64 manifest")
       | Some desc =>
         let localRef := with_tag localRef "" (d_Digest desc) in
         resolved ← wrap "failed to get platform manifest" (ManifestGet c localRef);
         mret (localRef, resolved)
       end.

(** The base image in the local layout: where its blobs are, its configuration
    and its layers with their diff ids, of which there must be as many. *)
Definition open_base (c : Legs) (image tmpDir : string) : M Net Err (Ref * ImageConf * list (Descriptor * string)) :=
  _ ← wrap "failed to download base image" (DownloadToOCILayout c image tmpDir ["linux/amd64"]);
  localRef ← parse_ref "failed to build local OCI layout ref" ("ocidir://" +:+ tmpDir +:+ ":source");
  m ← wrap "failed to get local manifest" (ManifestGet c localRef);
  '(localRef, m) ← resolveManifestList c localRef m;
  conf ← wrap "failed to get local image config" (ImageConfig c localRef);
  match GetLayers m with
  | None => fail (Msg "failed to get source layers")
  | Some layers =>
    if negb (length (ic_DiffIDs conf) =? length layers) then fail (Msg "manifest/config mismatch")
    else mret (localRef, conf, zip layers (ic_DiffIDs conf))
  end.

Definition layer_desc (data : string) : Descriptor :=
  mkDesc "application/vnd.oci.image.layer.v1.tar+gzip" (FromBytes data) (Z.of_nat (String.length data)) ∅.
Definition config_desc (data : string) : Descriptor :=
  mkDesc "application/vnd.oci.image.config.v1+json" (FromBytes data) (Z.of_nat (String.length data)) ∅.
(** [bytes.NewReader] *)
Definition bytes_reader (data : string) : Reader := mkReader data false true.

(** ** The update graph image *)

Definition graphBaseImage : string := "registry.access.redhat.com/ubi9/ubi:latest".
Definition graphDataDir : string := "/var/lib/cincinnati-graph-data".
Definition graphDataMountPath : string := "/var/lib/cincinnati/graph-data".
Definition TargetImage (registry : string) : string := registry +:+ "/openshift/graph-image:latest".

(** [filepath.Join] below a rooted directory: the components of the cleaned
    path. *)
Fixpoint clean_path (todo done : list string) : list string :=
  match todo with
  | [] => done
  | x :: todo =>
    if String.eqb x "" || String.eqb x "." then clean_path todo done
    else if String.eqb x ".." then clean_path todo (take (length done - 1) done)
    else clean_path todo (done ++ [x])
  end.
Definition filepath_Join (dir name : string) : string := "/" +:+ Join (clean_path (Split "/" dir ++ Split "/" name) []) "/".

(** The archive of the graph data: a status and a body. *)
Definition maxGraphData : N := 64 * 1024 * 1024.
Definition downloadGraphData (answer : option (Z * option string)) : M Net Err string :=
  match answer with
  | None => fail (Msg "fetch graph data")
  | Some (code, body) =>
    if negb (code =? 200)%Z then fail (Msg "fetch graph data: HTTP status")
    else match body with
         | None => fail (Msg "read response body")
         | Some data => let data := LimitReader maxGraphData data in
                        if String.eqb data "" then fail (Msg "empty response body") else mret data
         end
  end.

(** The entries under graphDataDir; the content of regular files only. *)
Fixpoint reroot (entries : list tarEntry) : option (list tarEntry) :=
  match entries with
  | [] => Some []
  | e :: entries =>
    data ← (if is_reg e then te_Data e else Some "");
    rest ← reroot entries;
    Some (mkTarEntry (filepath_Join graphDataDir (te_Name e)) (te_Type e) (te_Size e) (Some data) :: rest)
  end.

Definition buildGraphDataLayer (archive : string) : option (list tarEntry) :=
  match open_layer archive with
  | Tar entries false => reroot entries
  | _ => None
  end.

(** The same loop as [blobCopyWithRetry]. *)
Definition copyBlobWithRetry (done : Net → bool) (c : Legs) (src dst : Ref) (d : Descriptor) (maxAttempts : nat) : M Net Err unit :=
  blobCopyWithRetry done c src dst d maxAttempts None.

(** The layers of the base image, one after the other. *)
Fixpoint copy_base (done : Net → bool) (c : Legs) (src dst : Ref) (layers : list Descriptor) : M Net Err unit :=
  match layers with
  | [] => mret tt
  | layer :: layers => _ ← wrap "copy base layer" (copyBlobWithRetry done c src dst layer 3); copy_base done c src dst layers
  end.

Definition graph_conf (now : string) (diff : string) (conf : ImageConf) : ImageConf :=
  mkConf (ic_Created conf) (ic_DiffIDs conf ++ [diff]) (ic_Labels conf)
    ["/bin/bash"; "-c"; "exec cp -rp " +:+ graphDataDir +:+ "/* " +:+ graphDataMountPath]
    (ic_History conf ++ [mkHistory now "oc-mirror-operator: graph-data image" "Cincinnati graph-data for OSUS"]).

(** [tmp] is the directory [os.MkdirTemp] gives. *)
Definition BuildAndPush (done : Net → bool) (c : Legs) (answer : option (Z * option string)) (tmp : option string) (now registry : string) : M Net Err string :=
  archive ← wrap "download graph data" (downloadGraphData answer);
  match buildGraphDataLayer archive with
  | None => fail (Msg "build graph data layer")
  | Some entries =>
    let layerData := pack entries in
    destRef ← parse_ref "parse target reference" (TargetImage registry);
    match tmp with
    | None => fail (Msg "create temp dir for OCI layout")
    | Some tmpDir =>
      '(localRef, conf, base) ← open_base c graphBaseImage tmpDir;
      _ ← copy_base done c localRef destRef (map fst base);
      _ ← wrap "push graph data layer" (BlobPut c destRef (layer_desc layerData) (bytes_reader layerData));
      match conf_bytes (graph_conf now (diff_id entries) conf) with
      | None => fail (Msg "serialize image config")
      | Some configData =>
        _ ← wrap "push image config" (BlobPut c destRef (config_desc configData) (bytes_reader configData));
        let m := MImage (config_desc configData) (map fst base ++ [layer_desc layerData]) in
        _ ← wrap "push graph image manifest" (ManifestPut c destRef m);
        mret (ManifestDigest m)
      end
    end
  end.

(** ** The filtered catalog image *)

(** classifySourceLayers with the descriptors and diff ids of the layers. *)
Fixpoint classify_layers (c : Legs) (localRef : Ref) (layers kept : list (Descriptor * string)) (fs : files) : M Net Err (list (Descriptor * string) * files) :=
  match layers with
  | [] => mret (kept, fs)
  | l :: layers =>
    r ← attempt (BlobGet c localRef (fst l));
    match r with
    | inl _ => classify_layers c localRef layers (kept ++ [l]) fs
    | inr rdr =>
      match layer_blob rdr with
      | Tar entries broken =>
        match classify_entries entries (mkClassify fs false true) with
        | None => fail (Msg "incomplete FBC content")
        | Some cl =>
          if (broken : bool) then fail (Msg "incomplete FBC content")
          else classify_layers c localRef layers (if cl_sawAny cl && cl_fbcOnly cl then kept else kept ++ [l]) (cl_fs cl)
        end
      | _ => classify_layers c localRef layers (kept ++ [l]) fs
      end
    end
  end.

Definition catalog_conf (packages : nat) (diffs : list string) (conf : ImageConf) : ImageConf :=
  mkConf (ic_Created conf) diffs (<["operators.operatorframework.io.index.configs.v1" := "/configs"]> (ic_Labels conf))
    ["serve"; "/configs"; "--cache-dir=/tmp/cache"; "--cache-enforce-integrity=false"]
    (ic_History conf ++ [mkHistory (ic_Created conf) "oc-mirror-operator: filtered FBC overlay"
                           ("filtered to " +:+ Itoa (Z.of_nat packages) +:+ " packages")]).

(** The upload of one kept layer, unless the target has it. *)
Definition upload_layer (done : Net → bool) (c : Legs) (localRef destRef : Ref) (layer : Descriptor) : M Net Err unit :=
  there ← BlobExists c destRef layer;
  if (there : bool) then mret tt else wrap "failed to upload source layer" (blobCopyWithRetry done c localRef destRef layer 3 None).

(** The group of uploads, in the order they come to run; all of them run, the
    first error is returned. *)
Fixpoint upload_group (done : Net → bool) (c : Legs) (localRef destRef : Ref) (layers : list Descriptor) (err : option Err) : M Net Err unit :=
  match layers with
  | [] => match err with None => mret tt | Some e => fail e end
  | layer :: layers =>
    r ← attempt (upload_layer done c localRef destRef layer);
    upload_group done c localRef destRef layers (match err, r with Some e, _ => Some e | None, inl e => Some e | None, inr _ => None end)
  end.

(** A blob of the image itself, unless the target has it. *)
Definition push_blob (what : string) (c : Legs) (destRef : Ref) (d : Descriptor) (data : string) : M Net Err unit :=
  there ← BlobExists c destRef d;
  if (there : bool) then mret tt else _ ← wrap what (BlobPut c destRef d (bytes_reader data)); mret tt.

(** [sched] is the order in which the uploads run. *)
Definition BuildFilteredCatalogImage `{SV : Semver, F : FBC} (order : gset string → list string) (sched : list Descriptor → list Descriptor)
    (done : Net → bool) (c : Legs) (tmp : option string) (sourceCatalogImage targetRef : string) (includes : list IncludePackage) : M Net Err string :=
  destRef ← parse_ref "failed to parse target reference" targetRef;
  match tmp with
  | None => fail (Msg "failed to create temp dir for OCI layout")
  | Some tmpDir =>
    '(localRef, conf, src) ← open_base c sourceCatalogImage tmpDir;
    '(kept, fs) ← classify_layers c localRef src [] ∅;
    match parseExtractedFBC fs with
    | None => fail (Msg "failed to parse FBC")
    | Some cfg =>
      match FilterFBC order cfg includes with
      | inl _ => fail (Msg "failed to filter FBC")
      | inr filtered =>
        match buildFBCLayer filtered with
        | None => fail (Msg "failed to build FBC layer")
        | Some entries =>
          let layerData := pack entries in
          match conf_bytes (catalog_conf (length (dc_Packages filtered)) (map snd kept ++ [diff_id entries]) conf) with
          | None => fail (Msg "failed to serialize image config")
          | Some configData =>
            let m := MImage (config_desc configData) (map fst kept ++ [layer_desc layerData]) in
            head ← attempt (ManifestHead c destRef);
            if match head with inr d => String.eqb d (ManifestDigest m) | inl _ => false end then mret (ManifestDigest m)
            else
              _ ← upload_group done c localRef destRef (sched (map fst kept)) None;
              _ ← push_blob "failed to push FBC layer blob" c destRef (layer_desc layerData) layerData;
              _ ← push_blob "failed to push image config blob" c destRef (config_desc configData) configData;
              _ ← wrap "failed to push catalog manifest" (ManifestPut c destRef m);
              mret (ManifestDigest m)
          end
        end
      end
    end
  end.
End push.

(** * Lemmas *)

Section laws.
Context `{RL : RegLaws, A : Archive, PK : Packer}.

(** ** The calls at the destination *)

Lemma BlobPut_moves c r d rdr w : netmoves (repo r) (λ _, False) w (snd (BlobPut c r d rdr w)).
Proof. unfold BlobPut. apply withFallback_keeps; [apply _..|]. intros l rc w1. rewrite lib_eq. apply blob_put_touches. Qed.

Lemma BlobPut_done c r d rdr w a : fst (BlobPut c r d rdr w) = inr a → is_Some (ct_Blobs (contents (snd (BlobPut c r d rdr w))) !! (repo r, d_Digest d)).
Proof.
  destruct (BlobPut c r d rdr w) as [x w'] eqn:E. cbn. intros ->. revert E. unfold BlobPut.
  match goal with |- withFallback c ?call w = _ → _ =>
    apply (withFallback_spec c call (λ _, True) (λ _ _ w', is_Some (ct_Blobs (contents w') !! (repo r, d_Digest d)))); [|done..] end.
  intros l rc w1 v w2 _. rewrite lib_eq. match goal with |- context [lib_BlobPut rc r d ?x w1] => set (rd := x) end.
  destruct (fst (lib_BlobPut rc r d rd w1)) as [e|v'] eqn:Ep; [done|]. intros [= _ <-]. apply blob_put_done in Ep as [_ ->]. by eexists.
Qed.

Lemma ManifestPut_moves c r m w : netmoves (repo r) (own_tag r) w (snd (ManifestPut c r m w)).
Proof. unfold ManifestPut. apply withFallback_keeps; [apply _..|]. intros l rc w1. rewrite lib_eq. apply put_touches. Qed.

Lemma ManifestPut_done c r m w a : rf_Digest r = "" → fst (ManifestPut c r m w) = inr a →
  resolves (contents (snd (ManifestPut c r m w))) r = Some (ManifestDigest m).
Proof.
  intros Hd. destruct (ManifestPut c r m w) as [x w'] eqn:E. cbn. intros ->. revert E. unfold ManifestPut.
  apply (withFallback_spec c (λ _ rc, lib (lib_ManifestPut rc r m)) (λ _, True) (λ _ _ w', resolves (contents w') r = Some (ManifestDigest m))); [|done..].
  intros l rc w1 v w2 _. rewrite lib_eq. destruct (fst (lib_ManifestPut rc r m w1)) as [e|v'] eqn:Ep; [done|]. intros [= _ <-].
  by destruct (put_done _ _ _ _ _ Ep Hd).
Qed.

(** A put that fails has either not moved the tag or moved it to the manifest. *)
Lemma ManifestPut_effect c r m w : rf_Digest r = "" →
  let x' := contents (snd (ManifestPut c r m w)) in
  resolves x' r = resolves (contents w) r ∨ resolves x' r = Some (ManifestDigest m) ∧ ct_Manifests x' !! (repo r, ManifestDigest m) = Some m.
Proof.
  intros Hd x'. set (R := λ w w' : Net, ct_Manifests (contents w) ⊆ ct_Manifests (contents w') ∧
    (resolves (contents w') r = resolves (contents w) r ∨
     resolves (contents w') r = Some (ManifestDigest m) ∧ ct_Manifests (contents w') !! (repo r, ManifestDigest m) = Some m)).
  assert (Reflexive R) by (intros w1; split; [done|by left]).
  assert (Transitive R).
  { intros w1 w2 w3 [S1 H1] [S2 H2]. split; [by etransitivity|]. destruct H2 as [->|?]; [|by right]. destruct H1 as [->|[? Hm]]; [by left|].
    right. split; [done|]. by eapply lookup_weaken. }
  apply (withFallback_keeps c (λ _ rc, lib (lib_ManifestPut rc r m)) R). intros _ rc w1. rewrite lib_eq. split; [apply put_touches|by apply put_moves].
Qed.

(** The manifest a reference is read as is the one it points at. *)
Lemma ManifestGet_found c r w m : fst (ManifestGet c r w) = inr m →
  resolves (contents w) r = Some (ManifestDigest m) ∧ ∀ l d, m = MList l → d ∈ l → d_Digest d ≠ "".
Proof.
  intros E. destruct (ManifestGet c r w) as [x w'] eqn:Em. cbn in E. subst x. revert Em. unfold ManifestGet.
  apply (withFallback_spec c (λ _ rc, lib (lib_ManifestGet rc r)) (λ _, True)
    (λ w m _, resolves (contents w) r = Some (ManifestDigest m) ∧ ∀ l d, m = MList l → d ∈ l → d_Digest d ≠ "")); [| |done].
  - intros _ rc w1 m1 w2 _. rewrite lib_eq. destruct (fst (lib_ManifestGet rc r w1)) as [e|m2] eqn:Eg; [done|]. intros [= <- _]. by apply get_found in Eg.
  - intros _ rc w1 e w2 _. rewrite lib_eq. intros [= _ <-]. by rewrite get_quiet.
Qed.

(** ** The base image *)

(** The manifests that are read of the image with this digest, for the platform
    catalogs are read for, and its layers. *)
Inductive manifests_read (digest : string) : list Manifest → list Descriptor → Prop :=
  | read_image cfg ls : ManifestDigest (MImage cfg ls) = digest → manifests_read digest [MImage cfg ls] ls
  | read_list l desc cfg ls :
    ManifestDigest (MList l) = digest → GetPlatformDesc (MList l) "linux/amd64" = Some desc → ManifestDigest (MImage cfg ls) = d_Digest desc →
    manifests_read digest [MList l; MImage cfg ls] ls.

Lemma resolveManifestList_read c r m w r' m' ls :
  (∀ l d, m = MList l → d ∈ l → d_Digest d ≠ "") → fst (resolveManifestList c r m w) = inr (r', m') → GetLayers m' = Some ls →
  ∃ ms, manifests_read (ManifestDigest m) ms ls.
Proof.
  intros Hv. unfold resolveManifestList. destruct m as [l|cf ls0]; cbn [IsList negb].
  - destruct (GetPlatformDesc (MList l) "linux/amd64") as [desc|] eqn:Eg; [|done]. cbv zeta. rewrite bind_eq, wrap_eq. cbn [fst snd].
    set (r2 := with_tag r "" (d_Digest desc)). destruct (fst (ManifestGet c r2 w)) as [e|m2] eqn:E2; [done|]. intros [= <- <-] Hls.
    destruct m2 as [|cf ls2]; [done|]. injection Hls as ->. exists [MList l; MImage cf ls]. apply (read_list _ l desc); [done..|].
    apply (ManifestGet_digest c r2 w (MImage cf ls)); [|done]. apply platform_desc in Eg as (l' & [= <-] & Hin). by apply (Hv l).
  - intros [= <- <-] [= <-]. eexists. by constructor.
Qed.

(** The directory of the layout is the build's own. *)
Definition layout_apart (tmp : option string) (src : string) (dst : Ref) : Prop :=
  ∀ tmpDir r, tmp = Some tmpDir → ref_New ("ocidir://" +:+ tmpDir +:+ ":source") = Some r →
    rf_Tag r = "source" ∧ rf_Digest r = "" ∧ repo r ≠ repo dst ∧ ∀ sr, ref_New src = Some sr → repo r ≠ repo sr.

Lemma Download_done c src tmpDir platforms dst sr w lr :
  layout_apart (Some tmpDir) src dst → ref_New src = Some sr → ref_New ("ocidir://" +:+ tmpDir +:+ ":source") = Some lr →
  fst (DownloadToOCILayout c src tmpDir platforms w) = inr tt →
  is_Some (resolves (contents w) sr) ∧ resolves (contents (snd (DownloadToOCILayout c src tmpDir platforms w))) lr = resolves (contents w) sr.
Proof.
  intros Hl Es El. destruct (Hl tmpDir lr eq_refl El) as (Ht & Hd & _ & Hne). specialize (Hne sr Es).
  unfold DownloadToOCILayout. rewrite parse_bind, Es, parse_bind, El, wrap_eq. cbn [fst snd]. set (opts := if decide _ then _ else _).
  destruct (withFallback c _ w) as [[e|[]] w'] eqn:E; [done|]. intros _. cbn [snd]. revert E.
  apply (withFallback_spec c (λ _ rc, lib (lib_ImageCopy rc opts sr lr)) (λ _, True)
    (λ w _ w', is_Some (resolves (contents w) sr) ∧ resolves (contents w') lr = resolves (contents w) sr)); [| |done].
  - intros _ rc w1 v w2 _. rewrite lib_eq. destruct (fst (lib_ImageCopy rc opts sr lr w1)) as [e|a] eqn:Ec; [done|]. intros [= _ <-].
    destruct (copy_done _ _ _ _ _ _ Ec) as [Hs Hr]. split; [done|]. apply Hr; [done|]. left. rewrite Ht. by intros [].
  - intros _ rc w1 e w2 _. rewrite lib_eq. intros [= _ <-]. split; [done|]. intros v w3.
    by rewrite (touches_resolves _ _ _ _ sr (copy_touches rc opts sr lr w1)).
Qed.

(** The layers a base image is opened with are those of the image the source
    reference points at. *)
Lemma open_base_source c src tmpDir dst sr w localRef conf base :
  layout_apart (Some tmpDir) src dst → ref_New src = Some sr →
  fst (open_base c src tmpDir w) = inr (localRef, conf, base) →
  ∃ ds ms, resolves (contents w) sr = Some ds ∧ manifests_read ds ms (map fst base) ∧ ic_DiffIDs conf = map snd base.
Proof.
  intros Hl Es. unfold open_base. rewrite bind_eq, wrap_eq. cbn [fst snd].
  destruct (fst (DownloadToOCILayout c src tmpDir _ w)) as [e|[]] eqn:Ed; [done|]. rewrite parse_bind.
  destruct (ref_New ("ocidir://" +:+ tmpDir +:+ ":source")) as [lr|] eqn:El; [|done].
  destruct (Download_done c src tmpDir ["linux/amd64"] dst sr w lr Hl Es El Ed) as [[ds Hds] Hlr].
  set (w1 := snd (DownloadToOCILayout c src tmpDir _ w)) in *. rewrite bind_eq, wrap_eq. cbn [fst snd].
  destruct (fst (ManifestGet c lr w1)) as [e|m] eqn:Em; [done|]. apply ManifestGet_found in Em as [Em Hv].
  rewrite Hlr, Hds in Em. injection Em as ->. rewrite bind_eq.
  destruct (fst (resolveManifestList c lr m _)) as [e|[r' m']] eqn:Er; [done|]. rewrite bind_eq, wrap_eq. cbn [fst snd].
  destruct (fst (ImageConfig c r' _)) as [e|cf]; [done|]. destruct (GetLayers m') as [ls|] eqn:Els; [|done].
  destruct (Nat.eqb_spec (length (ic_DiffIDs cf)) (length ls)) as [Hlen|]; [|done]. cbn [negb]. intros [= <- <- <-].
  destruct (resolveManifestList_read c lr m _ r' m' ls Hv Er Els) as [ms Hms]. exists (ManifestDigest m), ms.
  change (map fst (zip ls (ic_DiffIDs cf))) with ((zip ls (ic_DiffIDs cf)).*1). change (map snd (zip ls (ic_DiffIDs cf))) with ((zip ls (ic_DiffIDs cf)).*2).
  rewrite fst_zip, snd_zip by lia. done.
Qed.

Lemma ManifestHead_spec c r w : reads w (snd (ManifestHead c r w)) ∧ ∀ d, fst (ManifestHead c r w) = inr d → resolves (contents w) r = Some d.
Proof.
  assert (Hk : ∀ (l : leg) rc w, reads w (snd (lib (lib_ManifestHead rc r) w))) by (intros _ rc w1; rewrite lib_eq; apply head_quiet).
  split; [unfold ManifestHead; by apply (withFallback_keeps _ _ reads (λ l rc, Hk l rc))|]. intros d.
  destruct (ManifestHead c r w) as [x w'] eqn:E. cbn. intros ->. revert E. unfold ManifestHead.
  apply (withFallback_spec c (λ _ rc, lib (lib_ManifestHead rc r)) (λ _, True) (λ w d _, resolves (contents w) r = Some d)); [| |done].
  - intros _ rc w1 v w2 _. rewrite lib_eq. destruct (fst (lib_ManifestHead rc r w1)) as [e|v'] eqn:Eh; [done|]. intros [= <- _]. by apply head_found in Eh.
  - intros l rc w1 e w2 _ E1. split; [done|]. intros v w3. pose proof (Hk l rc w1) as Hq. rewrite E1 in Hq. cbn in Hq. unfold reads in Hq. by rewrite Hq.
Qed.

Lemma BlobExists_spec c r d w : reads w (snd (BlobExists c r d w)) ∧ ∃ b, fst (BlobExists c r d w) = inr b ∧
  (b = true → is_Some (ct_Blobs (contents w) !! (repo r, d_Digest d))).
Proof.
  unfold BlobExists. rewrite attempt_bind, lib_eq. cbn [fst snd]. pose proof (blob_head_quiet (lg_rc c) r d w) as H1.
  destruct (fst (lib_BlobHead (lg_rc c) r d w)) as [e|a] eqn:E1; [|split; [done|]; exists true; split; [done|]; intros _; by eapply blob_head_found].
  destruct (lg_rcFallback c) as [fb|]; [|split; [done|by exists false]]. rewrite attempt_bind, lib_eq. cbn [fst snd]. set (w1 := snd (lib_BlobHead (lg_rc c) r d w)) in *.
  pose proof (blob_head_quiet fb r d w1) as H2. split; [unfold reads; cbn; by rewrite H2|].
  destruct (fst (lib_BlobHead fb r d w1)) as [e2|a2] eqn:E2; [by exists false|]. exists true. split; [done|]. intros _.
  apply blob_head_found in E2. by rewrite H1 in E2.
Qed.

(** ** What a push may do at its destination *)

Section dest.
Context (dst : Ref) (x0 : Contents).

(** The tags of the destination are those of [x0]. *)
Definition same_tags (x : Contents) : Prop := ∀ t, ct_Tags x !! (repo dst, t) = ct_Tags x0 !! (repo dst, t).
(** ... and these blobs are there. *)
Definition at_dst (ds : list Descriptor) (x : Contents) : Prop :=
  same_tags x ∧ ∀ d, d ∈ ds → is_Some (ct_Blobs x !! (repo dst, d_Digest d)).

(** A step that touches no tag of the destination. *)
Lemma at_dst_step ds rp T x x' : touches rp T x x' → (rp ≠ repo dst ∨ ∀ t, ¬ T t) → at_dst ds x → at_dst ds x'.
Proof.
  intros (_ & Hb & Ht & _) Hor [Hs Hds]. split.
  - intros t. rewrite Ht, Hs; [done|]. destruct Hor as [?|Hn]; [left; by apply not_eq_sym|right; by apply Hn].
  - intros d Hd. destruct (Hds d Hd) as [v Hv]. exists v. by eapply lookup_weaken.
Qed.

Lemma reads_at_dst ds w w' : reads w w' → at_dst ds (contents w) → at_dst ds (contents w').
Proof. by intros ->. Qed.

Lemma leads_reads {B} ds (m : M Net Err B) : (∀ w, reads w (snd (m w))) → leads contents (at_dst ds) m (λ _, at_dst ds).
Proof. intros Hm w Hw. by rewrite (Hm w). Qed.

Lemma leads_put ds c d rdr : leads contents (at_dst ds) (BlobPut c dst d rdr) (or_error (at_dst ds) (λ _, at_dst (d :: ds))).
Proof.
  intros w Hw. pose proof (BlobPut_moves c dst d rdr w) as Hm. pose proof (BlobPut_done c dst d rdr w) as Hd.
  assert (Hx : at_dst ds (contents (snd (BlobPut c dst d rdr w)))) by (eapply at_dst_step; [exact Hm|right; tauto|done]).
  unfold or_error. destruct (fst (BlobPut c dst d rdr w)) as [e|a]; [done|]. destruct Hx as [Hs Hb]. split; [done|].
  intros d' [->|Hd']%elem_of_cons; [by eapply Hd|by apply Hb].
Qed.

Lemma leads_wrap {B} P what (m : M Net Err B) (I : Contents → Prop) Q : leads contents P m (or_error I Q) → leads contents P (wrap what m) (or_error I Q).
Proof. intros Hm w Hw. specialize (Hm w Hw). rewrite wrap_eq. cbn. by destruct (fst (m w)). Qed.

Lemma at_dst_weaken ds ds' x : ds ⊆ ds' → at_dst ds' x → at_dst ds x.
Proof. intros Hs [Ht Hb]. split; [done|]. intros d Hd. by apply Hb, Hs. Qed.

Lemma leads_getput ds c src d : leads contents (at_dst ds) (blobGetAndPut c src dst d) (or_error (at_dst ds) (λ _, at_dst (d :: ds))).
Proof.
  unfold blobGetAndPut. apply (leads_bind _ _ _ _ (λ _, at_dst ds)).
  - apply (leads_weaken _ (at_dst ds) _ _ (λ _, at_dst ds)); [|done|by intros []]. apply leads_reads. intros w. rewrite wrap_eq. apply BlobGet_reads.
  - intros rdr. apply (leads_bind _ _ _ _ (λ _, at_dst (d :: ds))); [eapply leads_weaken; [apply leads_wrap, leads_put|done|by intros []]|]. intros _. by apply leads_ret.
Qed.

Lemma leads_retry ds done c src d n lastErr : (lastErr = None → n ≠ 0) →
  leads contents (at_dst ds) (blobCopyWithRetry done c src dst d n lastErr) (or_error (at_dst ds) (λ _, at_dst (d :: ds))).
Proof.
  revert lastErr. induction n as [|n IH]; intros lastErr Hn; cbn [blobCopyWithRetry].
  { destruct lastErr as [e|]; [by apply leads_fail|by destruct (Hn eq_refl)]. }
  apply (leads_bind _ _ _ _ (λ _, at_dst ds)).
  { destruct lastErr; [|by apply leads_ret]. intros w Hw. exact Hw. }
  intros stop. destruct stop; [by apply leads_fail|].
  apply (leads_bind _ _ _ _ (λ r x, or_error (at_dst ds) (λ _, at_dst (d :: ds)) r x)).
  { eapply leads_attempt; [apply leads_getput|]. done. }
  intros [e|a]; [|by apply leads_ret]. cbn [or_error]. apply (leads_bind _ _ _ _ (λ _, at_dst ds)); [intros w Hw; exact Hw|].
  intros ended. destruct ended; [by apply leads_fail|]. by apply IH.
Qed.

Lemma leads_copy_base ds done c src layers :
  leads contents (at_dst ds) (copy_base done c src dst layers) (or_error (same_tags) (λ _, at_dst (layers ++ ds))).
Proof.
  revert ds. induction layers as [|d layers IH]; intros ds; cbn [copy_base]; [by apply leads_ret|].
  apply (leads_bind _ _ _ _ (λ _, at_dst (d :: ds))).
  - eapply leads_weaken; [apply leads_wrap, leads_retry; done|done|]. intros [e|a] x; cbn; [by intros []|done].
  - intros _. eapply leads_weaken; [apply IH|done|]. intros [e|a] x; cbn; [done|]. apply at_dst_weaken. set_solver.
Qed.

Lemma leads_exists ds c d : leads contents (at_dst ds) (BlobExists c dst d) (or_error (λ _, False) (λ b x, at_dst ds x ∧ (b = true → at_dst (d :: ds) x))).
Proof.
  intros w Hw. destruct (BlobExists_spec c dst d w) as (Hr & b & -> & Hb). cbn. rewrite Hr. split; [done|]. intros Ht. destruct Hw as [Hs Hds].
  split; [done|]. intros d' [->|Hd']%elem_of_cons; [by apply Hb|by apply Hds].
Qed.

(** Skip what is there, copy what is not. *)
Lemma leads_unless ds c d (m : M Net Err unit) : leads contents (at_dst ds) m (or_error (at_dst ds) (λ _, at_dst (d :: ds))) →
  leads contents (at_dst ds) (there ← BlobExists c dst d; if (there : bool) then mret tt else m) (or_error (at_dst ds) (λ _, at_dst (d :: ds))).
Proof.
  intros Hm. apply (leads_bind _ _ _ _ (λ b x, at_dst ds x ∧ (b = true → at_dst (d :: ds) x))).
  - eapply leads_weaken; [apply (leads_exists ds c d)|done|]. by intros [].
  - intros [|]; [apply leads_ret; intros x [_ Hx]; by apply Hx|]. eapply leads_weaken; [exact Hm|by intros x []|done].
Qed.

Lemma leads_group ds done c src layers err :
  leads contents (at_dst ds) (upload_group done c src dst layers err) (or_error same_tags (λ _ x, err = None ∧ at_dst (layers ++ ds) x)).
Proof.
  revert ds err. induction layers as [|d layers IH]; intros ds err; cbn [upload_group].
  { destruct err; [apply leads_fail; by intros x []|]. by apply leads_ret. }
  apply (leads_bind _ _ _ _ (λ r x, or_error (at_dst ds) (λ _, at_dst (d :: ds)) r x)).
  { eapply leads_attempt; [apply leads_unless, leads_wrap, leads_retry; done|]. done. }
  intros r. destruct r as [e|a]; cbn [or_error].
  - eapply leads_weaken; [apply IH|done|]. intros [e'|u] x; cbn; [done|]. destruct err; by intros [].
  - eapply leads_weaken; [apply (IH (d :: ds))|done|]. intros [e'|u] x; cbn; [done|]. destruct err; [by intros []|]. intros [_ Hx]. split; [done|]. revert Hx. apply at_dst_weaken. set_solver.
Qed.

(** Reads followed by anything. *)
Lemma leads_then {B C} ds (m : M Net Err B) (k : B → M Net Err C) Q :
  (∀ w, reads w (snd (m w))) → (∀ e x, at_dst ds x → Q (inl e) x) → (∀ b, leads contents (at_dst ds) (k b) Q) → leads contents (at_dst ds) (m ≫= k) Q.
Proof.
  intros Hm He Hk. apply (leads_bind _ _ _ _ (λ _, at_dst ds)); [|done].
  eapply leads_weaken; [by apply (leads_reads ds m)|done|]. intros [e|b] x Hx; [by apply He|done].
Qed.

Lemma resolveManifestList_reads c r m w : reads w (snd (resolveManifestList c r m w)).
Proof.
  unfold resolveManifestList. destruct (negb (IsList m)); [done|]. destruct (GetPlatformDesc m _) as [d|]; [|done].
  apply moves_bind; [apply _| |by intros]. intros w1. rewrite wrap_eq. apply ManifestGet_reads.
Qed.

Lemma ImageConfig_reads c r w : reads w (snd (ImageConfig c r w)).
Proof. unfold ImageConfig. apply (withFallback_keeps _ _ reads). intros _ rc w1. rewrite lib_eq. apply config_quiet. Qed.

Lemma Download_moves c image tmpDir platforms w : (∀ r, ref_New ("ocidir://" +:+ tmpDir +:+ ":source") = Some r → repo r ≠ repo dst) →
  ∀ ds, at_dst ds (contents w) → at_dst ds (contents (snd (DownloadToOCILayout c image tmpDir platforms w))).
Proof.
  intros Hl ds Hw. unfold DownloadToOCILayout. rewrite parse_bind. destruct (ref_New image) as [sr|]; [|done].
  rewrite parse_bind. destruct (ref_New ("ocidir://" +:+ tmpDir +:+ ":source")) as [dr|] eqn:Ed; [|done]. specialize (Hl dr eq_refl).
  rewrite wrap_eq. cbn [snd]. set (opts := if decide _ then _ else _).
  pose proof (withFallback_keeps c (λ _ rc, lib (lib_ImageCopy rc opts sr dr)) (netmoves (repo dr) (λ t, own_tag dr t ∨ fallback_tag t ∧ ¬ referrers_api (repo dr)))) as Hk.
  specialize (Hk ltac:(intros l rc w1; cbn beta; rewrite lib_eq; apply copy_touches) w).
  eapply at_dst_step; [exact Hk|by left|done].
Qed.

Lemma leads_open_base ds c image tmpDir : (∀ r, ref_New ("ocidir://" +:+ tmpDir +:+ ":source") = Some r → repo r ≠ repo dst) →
  leads contents (at_dst ds) (open_base c image tmpDir) (λ _, at_dst ds).
Proof.
  intros Hl. unfold open_base. apply (leads_bind _ _ _ _ (λ _, at_dst ds)).
  { intros w Hw. rewrite wrap_eq. cbn [fst snd]. pose proof (Download_moves c image tmpDir ["linux/amd64"] w Hl ds Hw) as Hd.
    by destruct (fst (DownloadToOCILayout _ _ _ _ w)). }
  intros _. apply leads_then; [intros w; unfold parse_ref; by destruct (ref_New _)|done|]. intros r.
  apply leads_then; [intros w; rewrite wrap_eq; apply ManifestGet_reads|done|]. intros m.
  apply leads_then; [intros w; apply resolveManifestList_reads|done|]. intros [r' m'].
  apply leads_then; [intros w; rewrite wrap_eq; apply ImageConfig_reads|done|]. intros conf.
  destruct (GetLayers m') as [layers|]; [|by apply leads_fail]. destruct (negb _); [by apply leads_fail|by apply leads_ret].
Qed.

Lemma classify_reads c r layers kept fs w : reads w (snd (classify_layers c r layers kept fs w)).
Proof.
  revert kept fs w. induction layers as [|l layers IH]; intros kept fs w; [done|]. cbn [classify_layers]. rewrite attempt_bind.
  pose proof (BlobGet_reads c r (fst l) w) as Hr.
  destruct (fst (BlobGet c r (fst l) w)) as [e|rdr]; [by etransitivity; [|apply IH]|].
  destruct (layer_blob rdr) as [| |entries broken]; [by etransitivity; [|apply IH]..|].
  destruct (classify_entries entries _) as [cl|]; [|done]. destruct broken; [done|]. by etransitivity; [|apply IH].
Qed.

(** ** The outcome of a push *)

(** All blobs of an image are in the repository. *)
Definition image_ready (x : Contents) (m : Manifest) : Prop :=
  match m with MList _ => False | MImage cfg layers => ∀ d, d ∈ cfg :: layers → is_Some (ct_Blobs x !! (repo dst, d_Digest d)) end.

(** The tag points at an image that is there with all its blobs. *)
Definition whole_image (x : Contents) : Prop :=
  ∃ m, resolves x dst = Some (ManifestDigest m) ∧ ct_Manifests x !! (repo dst, ManifestDigest m) = Some m ∧ image_ready x m.

Definition push_ok (r : Err + string) (x : Contents) : Prop :=
  (same_tags x ∨ whole_image x ∧ ∀ t, t ≠ rf_Tag dst → ct_Tags x !! (repo dst, t) = ct_Tags x0 !! (repo dst, t)) ∧
  ∀ d, r = inr d → resolves x dst = Some d.

Lemma push_error e x ds : at_dst ds x → push_ok (inl e) x.
Proof. intros [Hs _]. split; [by left|done]. Qed.

(** The last step: the manifest, when all its blobs are there. *)
Lemma leads_manifest c what cfg layers ds : rf_Digest dst = "" → cfg :: layers ⊆ ds →
  leads contents (at_dst ds) (_ ← wrap what (ManifestPut c dst (MImage cfg layers)); mret (ManifestDigest (MImage cfg layers))) push_ok.
Proof.
  intros Hd Hsub w Hw. rewrite bind_eq, wrap_eq. cbn [fst snd]. pose proof (ManifestPut_moves c dst (MImage cfg layers) w) as (_ & Hb & Ht & _).
  pose proof (ManifestPut_done c dst (MImage cfg layers) w) as Hok. destruct Hw as [Hs Hds].
  assert (Hready : image_ready (contents (snd (ManifestPut c dst (MImage cfg layers) w))) (MImage cfg layers)).
  { intros d Hin. destruct (Hds d (Hsub d Hin)) as [v Hv]. exists v. by eapply lookup_weaken. }
  assert (Hfirst : ∀ t, t ≠ rf_Tag dst → ct_Tags (contents (snd (ManifestPut c dst (MImage cfg layers) w))) !! (repo dst, t) = ct_Tags x0 !! (repo dst, t)).
  { intros t Hne. rewrite Ht, Hs; [done|]. right. by intros [_ ?]. }
  assert (Hor : same_tags (contents (snd (ManifestPut c dst (MImage cfg layers) w))) ∨ whole_image (contents (snd (ManifestPut c dst (MImage cfg layers) w))) ∧
    ∀ t, t ≠ rf_Tag dst → ct_Tags (contents (snd (ManifestPut c dst (MImage cfg layers) w))) !! (repo dst, t) = ct_Tags x0 !! (repo dst, t)).
  { destruct (ManifestPut_effect c dst (MImage cfg layers) w Hd) as [He|[He Hm]]; [left|right; split; [by eexists|done]].
    intros t. destruct (decide (t = rf_Tag dst)) as [->|Hne]; [|by apply Hfirst]. unfold resolves in He. rewrite Hd in He. cbn in He. by rewrite He, Hs. }
  destruct (fst (ManifestPut c dst (MImage cfg layers) w)) as [e|a]; cbn; (split; [exact Hor|]); [done|].
  intros d [= <-]. by eapply Hok.
Qed.
End dest.

(** ** The layers of the catalog image *)

(** [b] is what reading the layer [d] gives: an archive with the bytes of the
    layer, or something that is none or could not be read. *)
Definition streamed (c : Legs) (d : Descriptor) (b : blob) : Prop :=
  match b with
  | Tar _ _ => ∃ data, FromBytes data = d_Digest d ∧ open_layer data = b
  | _ => ∃ r w, match fst (BlobGet c r d w) with inl _ => b = Unreadable | inr rdr => b = open_layer (rd_Data rdr) end
  end.

(** The classification is the one of the streams that were read; [ps] are the
    layers that are kept, with their streams. *)
Lemma classify_streams c r layers kept fs w kept' fs' :
  fst (classify_layers c r layers kept fs w) = inr (kept', fs') →
  ∃ bs ps, Forall2 (streamed c) (map fst layers) bs ∧ ps `sublist_of` zip layers bs ∧ kept' = kept ++ map fst ps ∧
    ∀ keptb, classifySourceLayers bs keptb fs = Some (keptb ++ map snd ps, fs').
Proof.
  revert kept fs w. induction layers as [|l layers IH]; intros kept fs w; cbn [classify_layers].
  { intros [= <- <-]. exists [], []. split_and!; [constructor|done|by rewrite app_nil_r|]. intros keptb. cbn. by rewrite app_nil_r. }
  rewrite attempt_bind.
  assert (Hkeep : ∀ b fs fs1 w, streamed c (fst l) b → (∀ keptb bs, classifySourceLayers (b :: bs) keptb fs = classifySourceLayers bs (keptb ++ [b]) fs1) →
    fst (classify_layers c r layers (kept ++ [l]) fs1 w) = inr (kept', fs') →
    ∃ bs ps, Forall2 (streamed c) (map fst (l :: layers)) bs ∧ ps `sublist_of` zip (l :: layers) bs ∧ kept' = kept ++ map fst ps ∧
      ∀ keptb, classifySourceLayers bs keptb fs = Some (keptb ++ map snd ps, fs')).
  { intros b fs0 fs1 w1 Hb Heq E. destruct (IH _ _ _ E) as (bs & ps & F1 & Hsub & -> & Hc). exists (b :: bs), ((l, b) :: ps). split_and!.
    - by constructor.
    - cbn. by apply sublist_skip.
    - cbn. by rewrite <- app_assoc.
    - intros keptb. cbn [map snd]. by rewrite Heq, Hc, <- app_assoc. }
  destruct (fst (BlobGet c r (fst l) w)) as [e|rdr] eqn:Eb; [apply (Hkeep Unreadable); [exists r, w; by rewrite Eb|done]|].
  assert (Hst : streamed c (fst l) (layer_blob rdr) ∨ ∃ entries, layer_blob rdr = Tar entries true).
  { unfold layer_blob, streamed. destruct (open_layer (rd_Data rdr)) as [| |entries broken] eqn:Eo; [left; exists r, w; by rewrite Eb..|].
    destruct broken; [right; by eexists|]. destruct (rd_Broken rdr) eqn:Hb; [right; by eexists|]. left. exists (rd_Data rdr).
    split; [|done]. by apply (BlobGet_stream c r (fst l) w rdr Eb). }
  destruct (layer_blob rdr) as [| |entries broken] eqn:El; [destruct Hst as [Hst|[? ?]]; [by apply (Hkeep Unreadable fs fs)|done]|destruct Hst as [Hst|[? ?]]; [by apply (Hkeep NotGzip fs fs)|done]|].
  destruct (classify_entries entries _) as [cl|] eqn:Ec; [|done]. destruct broken; [done|]. destruct Hst as [Hst|[? ?]]; [|done].
  destruct (cl_sawAny cl && cl_fbcOnly cl) eqn:Es.
  - intros E. destruct (IH _ _ _ E) as (bs & ps & F1 & Hsub & -> & Hc). exists (Tar entries false :: bs), ps. split_and!; [by constructor| |done|].
    + cbn. by apply sublist_cons.
    + intros keptb. cbn. rewrite Ec. cbn. by rewrite Es, Hc.
  - apply (Hkeep (Tar entries false) fs (cl_fs cl)); [done|]. intros keptb bs. cbn. rewrite Ec. cbn. by rewrite Es.
Qed.
End laws.

(** * Theorems *)

Section theorems.
Context `{RL : RegLaws, A : Archive, PK : Packer}.

Lemma layout_not_dst tmpDir src dst r : layout_apart (Some tmpDir) src dst → ref_New ("ocidir://" +:+ tmpDir +:+ ":source") = Some r → repo r ≠ repo dst.
Proof. intros Hl Er. by destruct (Hl tmpDir r eq_refl Er) as (_ & _ & ? & _). Qed.

Lemma leads_parse {B} P what str r (k : Ref → M Net Err B) Q :
  ref_New str = Some r → leads contents P (k r) Q → leads contents P (parse_ref what str ≫= k) Q.
Proof. intros Er Hk w Hw. rewrite parse_bind, Er. by apply Hk. Qed.

Lemma leads_error {B} dst x0 e ds : leads contents (at_dst dst x0 ds) (fail e : M Net Err B) (λ r x, match r with inl e => push_ok dst x0 (inl e) x | inr _ => True end).
Proof. intros w Hw. by eapply push_error. Qed.

(** A step of a push that only adds blobs. *)
Lemma leads_push {B C} dst x0 ds ds' (m : M Net Err B) (k : B → M Net Err C) (Q : Err + C → Contents → Prop) :
  leads contents (at_dst dst x0 ds) m (or_error (same_tags dst x0) (λ _, at_dst dst x0 ds')) → (∀ e x, same_tags dst x0 x → Q (inl e) x) →
  (∀ b, leads contents (at_dst dst x0 ds') (k b) Q) → leads contents (at_dst dst x0 ds) (m ≫= k) Q.
Proof.
  intros Hm He Hk. apply (leads_bind _ _ _ _ (λ _, at_dst dst x0 ds')); [|done].
  eapply leads_weaken; [exact Hm|done|]. intros [e|b] x Hx; [by apply He|done].
Qed.

Lemma error_ok dst x0 e x : same_tags dst x0 x → push_ok dst x0 (inl e) x.
Proof. intros Hs. split; [by left|done]. Qed.

Lemma put_step dst x0 ds what c d rdr :
  leads contents (at_dst dst x0 ds) (wrap what (BlobPut c dst d rdr)) (or_error (same_tags dst x0) (λ _, at_dst dst x0 (d :: ds))).
Proof. eapply leads_weaken; [apply leads_wrap, leads_put|done|]. intros [e|a] x; cbn; [by intros []|done]. Qed.

Lemma graph_push done c answer tmp now registry dst x0 :
  ref_New (TargetImage registry) = Some dst → rf_Digest dst = "" → layout_apart tmp graphBaseImage dst →
  leads contents (at_dst dst x0 []) (BuildAndPush done c answer tmp now registry) (push_ok dst x0).
Proof.
  intros Er Hd Hl. unfold BuildAndPush. apply leads_then; [|intros e x; apply push_error|].
  { intros w. rewrite wrap_eq. unfold downloadGraphData. destruct answer as [[code [body|]]|]; [|by destruct (negb _)|done].
    destruct (negb _); [done|]. cbv zeta. by destruct (String.eqb _ ""). }
  intros archive. destruct (buildGraphDataLayer archive) as [entries|]; [|apply leads_fail; intros x; apply push_error].
  apply (leads_parse _ _ _ dst); [done|]. destruct tmp as [tmpDir|]; [|apply leads_fail; intros x; apply push_error].
  apply (leads_bind _ _ _ _ (λ _, at_dst dst x0 [])).
  { eapply leads_weaken; [apply (leads_open_base dst x0 []); intros r; by apply (layout_not_dst tmpDir _ dst r Hl)|done|]. intros [e|b] x; [apply push_error|done]. }
  intros [[localRef conf] base]. eapply leads_push; [apply leads_copy_base|apply error_ok|]. intros _. rewrite app_nil_r.
  eapply leads_push; [apply put_step|apply error_ok|]. intros _.
  destruct (conf_bytes _) as [configData|]; [|apply leads_fail; intros x; apply push_error].
  eapply leads_push; [apply put_step|apply error_ok|]. intros _. apply leads_manifest; [done|]. set_solver.
Qed.

(** The graph image is published whole or not at all.  Whatever fails, the
    tag of the graph image moves only once the configuration and every layer of
    the new image are in the repository, no other tag moves, and a build that
    succeeds leaves the tag at the digest it returns. *)
Theorem graph_image_published_whole done c answer tmp now registry dst w :
  ref_New (TargetImage registry) = Some dst → rf_Digest dst = "" → layout_apart tmp graphBaseImage dst →
  let '(r, w') := BuildAndPush done c answer tmp now registry w in push_ok dst (contents w) r (contents w').
Proof.
  intros Er Hd Hl. pose proof (graph_push done c answer tmp now registry dst (contents w) Er Hd Hl w) as Hp.
  destruct (BuildAndPush _ _ _ _ _ _ w) as [r w']. apply Hp. split; [done|]. by intros ? ?%elem_of_nil.
Qed.

Context `{SV : Semver, F : FBC}.

Lemma push_blob_step dst x0 ds what c d data :
  leads contents (at_dst dst x0 ds) (push_blob what c dst d data) (or_error (same_tags dst x0) (λ _, at_dst dst x0 (d :: ds))).
Proof.
  unfold push_blob. eapply leads_weaken; [apply leads_unless|done|intros [e|a] x; cbn; [by intros []|done]].
  apply (leads_bind _ _ _ _ (λ _, at_dst dst x0 (d :: ds))); [|intros _; by apply leads_ret].
  eapply leads_weaken; [apply leads_wrap, leads_put|done|by intros []].
Qed.

Lemma catalog_push order sched done c tmp src target includes dst x0 :
  (∀ l, sched l ≡ₚ l) → ref_New target = Some dst → rf_Digest dst = "" → layout_apart tmp src dst →
  leads contents (at_dst dst x0 []) (BuildFilteredCatalogImage order sched done c tmp src target includes) (push_ok dst x0).
Proof.
  intros Hsched Er Hd Hl. unfold BuildFilteredCatalogImage. apply (leads_parse _ _ _ dst); [done|].
  destruct tmp as [tmpDir|]; [|apply leads_fail; intros x; apply push_error].
  apply (leads_bind _ _ _ _ (λ _, at_dst dst x0 [])).
  { eapply leads_weaken; [apply (leads_open_base dst x0 []); intros r; by apply (layout_not_dst tmpDir _ dst r Hl)|done|]. intros [e|b] x; [apply push_error|done]. }
  intros [[localRef conf] base]. apply leads_then; [intros w; apply classify_reads|intros e x; apply push_error|]. intros [kept fs].
  destruct (parseExtractedFBC fs) as [cfg|]; [|apply leads_fail; intros x; apply push_error].
  destruct (FilterFBC order cfg includes) as [e|filtered]; [apply leads_fail; intros x; apply push_error|].
  destruct (buildFBCLayer filtered) as [entries|]; [|apply leads_fail; intros x; apply push_error]. cbv zeta.
  destruct (conf_bytes _) as [configData|]; [|apply leads_fail; intros x; apply push_error].
  set (m := MImage _ _). apply (leads_bind _ _ _ _ (λ h x, at_dst dst x0 [] x ∧ ∀ d, h = inr d → resolves x dst = Some d)).
  { intros w Hw. unfold attempt. destruct (ManifestHead_spec c dst w) as [Hr Hh]. destruct (ManifestHead c dst w) as [h w']. cbn in *.
    unfold reads in Hr. rewrite Hr. split; [done|]. intros d ->. by apply Hh. }
  intros h. destruct (match h with inr d => String.eqb d (ManifestDigest m) | inl _ => false end) eqn:Eh.
  { apply leads_ret. intros x [[Hs _] Hh]. split; [by left|]. intros d [= <-]. destruct h as [e|d]; [done|]. apply String.eqb_eq in Eh. subst d. by apply Hh. }
  eapply leads_weaken; [|by intros x [Hx _]; exact Hx|done].
  eapply leads_push; [|apply error_ok|].
  { eapply leads_weaken; [apply leads_group|done|]. intros [e|a] x; cbn; [done|]. by intros [_ ?]. }
  intros _. eapply leads_push; [apply push_blob_step|apply error_ok|]. intros _.
  eapply leads_push; [apply push_blob_step|apply error_ok|]. intros _. apply leads_manifest; [done|].
  rewrite app_nil_r, Hsched. set_solver.
Qed.

(** What a build that succeeds has pushed: [bs] are the streams of the layers of
    the image the source points at, [ps] the layers that are kept. *)
Definition built_from (order : gset string → list string) (c : Legs) (x : Contents) (src : Ref) (includes : list IncludePackage) (d : string) : Prop :=
  ∃ ds ms ls bs ps entries filtered conf configData,
    resolves x src = Some ds ∧ manifests_read ds ms (map fst ls) ∧ Forall2 (streamed c) (map fst ls) bs ∧ ps `sublist_of` zip ls bs ∧
    CatalogImage.BuildFilteredCatalogImage order bs includes = Some (map snd ps ++ [Tar entries false], filtered) ∧
    ic_DiffIDs conf = map snd (map fst ps) ++ [diff_id entries] ∧ conf_bytes conf = Some configData ∧
    d = ManifestDigest (MImage (config_desc configData) (map fst (map fst ps) ++ [layer_desc (pack entries)])).

Lemma catalog_content order sched done c tmp src sr target includes dst w d w' :
  layout_apart tmp src dst → ref_New src = Some sr →
  BuildFilteredCatalogImage order sched done c tmp src target includes w = (inr d, w') → built_from order c (contents w) sr includes d.
Proof.
  intros Hl Es. unfold BuildFilteredCatalogImage. rewrite parse_bind. destruct (ref_New target) as [dst'|]; [|done]. intros E. destruct tmp as [tmpDir|]; [|done].
  rewrite bind_eq in E. destruct (fst (open_base c src tmpDir w)) as [e|[[localRef conf] base]] eqn:Eo; [done|].
  destruct (open_base_source c src tmpDir dst sr w localRef conf base Hl Es Eo) as (ds & ms & Hds & Hms & _).
  rewrite bind_eq in E. destruct (fst (classify_layers c localRef base [] ∅ _)) as [e|[kept fs]] eqn:Ek; [done|].
  apply classify_streams in Ek as (bs & ps & Hst & Hsub & -> & Hc). cbn [app] in E.
  destruct (parseExtractedFBC fs) as [cfg|] eqn:Ep; [|done]. destruct (FilterFBC order cfg includes) as [e|filtered] eqn:Ef; [done|].
  destruct (buildFBCLayer filtered) as [entries|] eqn:Eb; [|done]. cbv zeta in E.
  set (conf' := catalog_conf _ _ _) in E. destruct (conf_bytes conf') as [configData|] eqn:Ec; [|done].
  exists ds, ms, base, bs, ps, entries, filtered, conf', configData. split_and!; [done..| |done|done|].
  - unfold CatalogImage.BuildFilteredCatalogImage. rewrite (Hc []). cbn. rewrite Ep. cbn. by rewrite Ef, Eb.
  - set (m := MImage _ _) in *. revert E. rewrite attempt_bind. match goal with |- context [if ?b then _ else _] => destruct b end; [by intros [= <- _]|].
    rewrite bind_eq. destruct (fst (upload_group _ _ _ _ _ _ _)); [done|]. rewrite bind_eq. destruct (fst (push_blob _ _ _ _ _ _)); [done|].
    rewrite bind_eq. destruct (fst (push_blob _ _ _ _ _ _)); [done|]. rewrite bind_eq. destruct (fst (wrap _ _ _)); [done|]. by intros [= <- _].
Qed.

(** A build loses nothing, and keeps what a reference elsewhere points at. *)
Definition keeps (sr : Ref) : relation Net := λ w w',
  resolves (contents w') sr = resolves (contents w) sr ∧
  ct_Manifests (contents w) ⊆ ct_Manifests (contents w') ∧ ct_Blobs (contents w) ⊆ ct_Blobs (contents w').
#[export] Instance keeps_refl sr : Reflexive (keeps sr).
Proof. done. Qed.
#[export] Instance keeps_trans sr : Transitive (keeps sr).
Proof. intros w1 w2 w3 (? & ? & ?) (? & ? & ?). split_and!; [congruence|by etransitivity..]. Qed.
Lemma reads_keeps sr w w' : reads w w' → keeps sr w w'.
Proof. unfold reads, keeps. by intros ->. Qed.
Lemma touches_keeps sr rp T w w' : repo sr ≠ rp → touches rp T (contents w) (contents w') → keeps sr w w'.
Proof. intros Hr Hm. split; [by apply (touches_resolves _ _ _ _ _ Hm)|]. by destruct Hm as (? & ? & _). Qed.
Lemma netmoves_keeps sr rp T w w' : repo sr ≠ rp → netmoves rp T w w' → keeps sr w w'.
Proof. apply touches_keeps. Qed.

(** An image that is there stays there as long as its tag does. *)
Lemma whole_image_kept sr dst w w' : rf_Digest dst = "" →
  keeps sr w w' → same_tags dst (contents w) (contents w') → whole_image dst (contents w) → whole_image dst (contents w').
Proof.
  intros Hd (_ & Hm & Hb) Hs (m & Hr & Hin & Hready). exists m. split_and!.
  - unfold resolves in *. rewrite Hd in *. cbn in *. by rewrite Hs.
  - by eapply lookup_weaken.
  - destruct m as [|cfg ls]; [done|]. intros d Hin'. destruct (Hready d Hin') as [v Hv]. exists v. by eapply lookup_weaken.
Qed.

Section keeping.
Context (sr dst : Ref) (Hne : repo sr ≠ repo dst).

Lemma attempt_keeps {B} (m : M Net Err B) w : keeps sr w (snd (m w)) → keeps sr w (snd (attempt m w)).
Proof. unfold attempt. by destruct (m w). Qed.
Lemma wrap_keeps {B} what (m : M Net Err B) w : keeps sr w (snd (m w)) → keeps sr w (snd (wrap what m w)).
Proof. by rewrite wrap_eq. Qed.

Lemma BlobPut_keeps c d rdr w : keeps sr w (snd (BlobPut c dst d rdr w)).
Proof. by eapply netmoves_keeps, BlobPut_moves. Qed.
Lemma BlobExists_keeps c d w : keeps sr w (snd (BlobExists c dst d w)).
Proof. apply reads_keeps, BlobExists_spec. Qed.

Lemma retry_keeps done c src d n lastErr w : keeps sr w (snd (blobCopyWithRetry done c src dst d n lastErr w)).
Proof.
  revert lastErr w. induction n as [|n IH]; intros lastErr w; cbn [blobCopyWithRetry]; [by destruct lastErr|].
  apply moves_bind; [apply _|intros w1; by destruct lastErr|]. intros stop w1. destruct stop; [done|].
  apply moves_bind; [apply _| |].
  - intros w2. apply attempt_keeps. unfold blobGetAndPut. apply moves_bind; [apply _|intros w3; apply wrap_keeps, reads_keeps, BlobGet_reads|].
    intros rdr w3. apply moves_bind; [apply _|intros w4; apply wrap_keeps, BlobPut_keeps|done].
  - intros [e|[]] w2; [|done]. apply moves_bind; [apply _|done|]. intros ended w3. destruct ended; [done|apply IH].
Qed.

Lemma group_keeps done c src layers err w : keeps sr w (snd (upload_group done c src dst layers err w)).
Proof.
  revert err w. induction layers as [|d layers IH]; intros err w; cbn [upload_group]; [by destruct err|].
  apply moves_bind; [apply _| |intros r w1; apply IH]. intros w1. apply attempt_keeps. unfold upload_layer.
  apply moves_bind; [apply _|intros w2; apply BlobExists_keeps|]. intros there w2. destruct there; [done|apply wrap_keeps, retry_keeps].
Qed.

Lemma push_blob_keeps what c d data w : keeps sr w (snd (push_blob what c dst d data w)).
Proof.
  unfold push_blob. apply moves_bind; [apply _|intros w1; apply BlobExists_keeps|]. intros there w1. destruct there; [done|].
  apply moves_bind; [apply _|intros w2; apply wrap_keeps, BlobPut_keeps|done].
Qed.

Lemma open_base_keeps c src tmpDir w : layout_apart (Some tmpDir) src dst → ref_New src = Some sr → keeps sr w (snd (open_base c src tmpDir w)).
Proof.
  intros Hl Es. unfold open_base. apply moves_bind; [apply _| |].
  - intros w1. apply wrap_keeps. unfold DownloadToOCILayout. rewrite parse_bind, Es, parse_bind.
    destruct (ref_New ("ocidir://" +:+ tmpDir +:+ ":source")) as [lr|] eqn:El; [|done]. destruct (Hl tmpDir lr eq_refl El) as (_ & _ & _ & Hlr).
    apply wrap_keeps, (withFallback_keeps _ _ (keeps sr)). intros _ rc w2. rewrite lib_eq.
    eapply touches_keeps; [|apply copy_touches]. by apply not_eq_sym, Hlr.
  - intros _ w1. rewrite parse_bind. destruct (ref_New ("ocidir://" +:+ tmpDir +:+ ":source")) as [lr|]; [|done]. apply reads_keeps. cbv beta.
    apply (moves_bind reads); [intros w2; rewrite wrap_eq; apply ManifestGet_reads|]. intros m w2.
    apply (moves_bind reads); [intros w3; apply resolveManifestList_reads|]. intros [r' m'] w3.
    apply (moves_bind reads); [intros w4; rewrite wrap_eq; apply ImageConfig_reads|]. intros conf w4.
    destruct (GetLayers m'); [by destruct (negb _)|done].
Qed.

Lemma build_keeps order sched done c tmp src target includes w :
  ref_New target = Some dst → layout_apart tmp src dst → ref_New src = Some sr →
  keeps sr w (snd (BuildFilteredCatalogImage order sched done c tmp src target includes w)).
Proof.
  intros Er Hl Es. unfold BuildFilteredCatalogImage. rewrite parse_bind, Er. destruct tmp as [tmpDir|]; [|done].
  apply moves_bind; [apply _|intros w1; by apply open_base_keeps|]. intros [[localRef conf] base] w1.
  apply moves_bind; [apply _|intros w2; apply reads_keeps, classify_reads|]. intros [kept fs] w2.
  destruct (parseExtractedFBC fs) as [cfg|]; [|done]. destruct (FilterFBC order cfg includes) as [e|filtered]; [done|].
  destruct (buildFBCLayer filtered) as [entries|]; [|done]. cbv zeta. destruct (conf_bytes _) as [configData|]; [|done].
  apply moves_bind; [apply _|intros w3; apply attempt_keeps, reads_keeps, ManifestHead_spec|]. intros h w3.
  destruct (match h with inr d => _ | inl _ => false end); [done|].
  apply moves_bind; [apply _|intros w4; apply group_keeps|]. intros _ w4. apply moves_bind; [apply _|intros w5; apply push_blob_keeps|]. intros _ w5.
  apply moves_bind; [apply _|intros w6; apply push_blob_keeps|]. intros _ w6. apply moves_bind; [apply _| |done]. intros w7.
  by eapply wrap_keeps, netmoves_keeps, ManifestPut_moves.
Qed.
End keeping.

End theorems.

(** ** Paths of the graph data *)

Lemma clean_path_below todo pre acc : Forall (λ x, x ≠ "..") todo → pre `prefix_of` acc → pre `prefix_of` clean_path todo acc.
Proof.
  intros Ht. revert acc. induction Ht as [|x todo Hx _ IH]; intros acc Hp; [done|]. cbn [clean_path].
  destruct (String.eqb x "" || String.eqb x "."); [by apply IH|]. apply String.eqb_neq in Hx. rewrite Hx. apply IH. by apply prefix_app_r.
Qed.

(** Every file of the archive whose name does not climb lands below the graph
    data directory. *)
Theorem graph_files_below name :
  Forall (λ x, x ≠ "..") (Split "/" name) → ∃ rest, filepath_Join graphDataDir name = "/" +:+ Join (["var"; "lib"; "cincinnati-graph-data"] ++ rest) "/".
Proof.
  intros Hn. unfold filepath_Join. assert (Hsplit : ∀ todo, clean_path (Split "/" graphDataDir ++ todo) [] = clean_path todo ["var"; "lib"; "cincinnati-graph-data"]) by done.
  rewrite Hsplit. destruct (clean_path_below (Split "/" name) ["var"; "lib"; "cincinnati-graph-data"] ["var"; "lib"; "cincinnati-graph-data"] Hn) as [rest ->]; [done|].
  by exists rest.
Qed.

(** ** Behaviour that deviates from the intent *)

(** A name that climbs leaves the directory. *)
Theorem climbing_name_escapes : filepath_Join graphDataDir "../../../etc/passwd" = "/etc/passwd".
Proof. reflexivity. Qed.

(** ** Examples *)

Definition ex_packer : Packer := {|
  pack entries := Join (map (λ e, te_Name e +:+ "=" +:+ default "" (te_Data e)) entries) "&";
  diff_id entries := Join (map te_Name entries) "&"; conf_bytes c := Some (Join (ic_DiffIDs c) ",") |}.

Definition ex_catalog_source : Manifest := MImage (ex_desc "c") [ex_desc "bin/opm=elf&configs/a/catalog.yaml=a"; ex_desc "configs/b/catalog.yaml=b"].
Definition ex_source_net (repository tag : string) (m : Manifest) : Contents :=
  let r := ("", "quay.io", repository, "") in
  mkContents {[(r, tag) := mem_digest m]} {[(r, mem_digest m) := m]} (list_to_map (map (λ d, ((r, d_Digest d), d_Digest d)) (image_blobs m))).
Definition ex_target_ref : Ref := mkRef "" "reg" "cat" "" "v1" "".
Definition ex_plain : Legs := newMirrorClient [] "" [] false.
Definition ex_catalog_run : (@Err mem_lib + string) * Contents :=
  @BuildFilteredCatalogImage mem_lib ex_archive ex_packer number_semver ex_fbc elements (@rev _) (λ _, false) ex_plain (Some "/tmp/b") "quay.io/cat:v1" "reg/cat:v1"
    [plain_include "a"] (ex_source_net "cat" "v1" ex_catalog_source).

Lemma mem_layout_apart : @layout_apart mem_lib (Some "/tmp/b") "quay.io/cat:v1" ex_target_ref.
Proof. intros t r [= <-] [= <-]. unfold repo. cbn. split_and!; [done..|]. intros sr [= <-]. by cbn. Qed.


Definition ex_ubi_net : Contents :=
  let m := MImage (ex_desc "c") [ex_desc "bin/bash=elf"] in
  let r := ("", "registry.access.redhat.com", "ubi9/ubi", "") in
  mkContents {[(r, "latest") := mem_digest m]} {[(r, mem_digest m) := m]} (list_to_map (map (λ d, ((r, d_Digest d), d_Digest d)) (image_blobs m))).
Definition ex_graph_ref : Ref := mkRef "" "reg" "openshift/graph-image" "" "latest" "".
Definition ex_graph_run : (@Err mem_lib + string) * Contents :=
  @BuildAndPush mem_lib ex_archive ex_packer (λ _, false) ex_plain (Some (200%Z, Some "channels/4.16.yaml=x")) (Some "/tmp/b") "now" "reg" ex_ubi_net.

Lemma graph_image_published_whole_witness :
  match ex_graph_run with
  | (inr d, w') => resolves w' ex_graph_ref = Some d
  | (inl _, _) => False
  end.
Proof.
  pose proof (@graph_image_published_whole mem_lib mem_laws ex_archive ex_packer (λ _, false) ex_plain (Some (200%Z, Some "channels/4.16.yaml=x")) (Some "/tmp/b")
    "now" "reg" ex_graph_ref ex_ubi_net eq_refl eq_refl) as Hp.
  assert (Hl : @layout_apart mem_lib (Some "/tmp/b") graphBaseImage ex_graph_ref).
  { intros t r [= <-] [= <-]. unfold repo. cbn. split_and!; [done..|]. intros sr [= <-]. by cbn. }
  specialize (Hp Hl).
  assert (Hr : match fst ex_graph_run with inr _ => true | inl _ => false end = true) by (vm_compute; reflexivity).
  unfold ex_graph_run in *. destruct (BuildAndPush _ _ _ _ _ _ _) as [[e|d] w']; [discriminate Hr|]. destruct Hp as [_ Hd]. by apply Hd.
Defined.
