(* ===== verification/CatalogFetch.v ===== *)
(** * Reading catalogs and blob lists from registries

    The network half of pkg/mirror/catalog/resolver.go (the digest of a
    catalog, the download of its layers, [ResolveCatalog], [ResolveCatalogFull])
    and of pkg/mirror/planner.go ([extractBlobDigests]), over the registry
    client of [Registry].  The upstream of [Resolve] with catalogs read this
    way is [catalog_upstream]. *)
From S2P Require Import Prelude Effects GoStrings ImageRef ImageState Api Resolve Semver CatalogGraph CatalogFilter CatalogImage Planner Registry Signatures ReleasePayload ImagePush.

Section fetch.
Context `{F : FBC, A : Archive, SV : Semver, L : RegLib} (order : gset string → list string).

(** ** Catalogs *)

(** The resolver without a client is [None]. *)
Definition GetCatalogDigest (client : option Legs) (catalogImage : string) : M Net Err string :=
  parsed ← parse_ref "parse catalog image reference" catalogImage;
  if negb (String.eqb (rf_Digest parsed) "") then mret (rf_Digest parsed)
  else match client with None => fail (Msg "no client configured") | Some c => GetDigest c catalogImage end.

(** [PinDigest] on the references of the client. *)
Definition pin_digest (catalogImage digest : string) : option string :=
  parsed ← ref_New catalogImage; Some (CommonName (SetDigest parsed digest)).

(** The files of the layers; one that cannot be downloaded is skipped. *)
Fixpoint fetch_layers (c : Legs) (imgRef : Ref) (layers : list Descriptor) (fs : files) : M Net Err files :=
  match layers with
  | [] => mret fs
  | layer :: layers =>
    r ← attempt (BlobGet c imgRef layer);
    match r with
    | inl _ => fetch_layers c imgRef layers fs
    | inr rdr => match extractFBCLayer (layer_blob rdr) fs with
                 | None => fail (Msg "layer")
                 | Some fs => fetch_layers c imgRef layers fs
                 end
    end
  end.

Definition fetchFBC (c : Legs) (catalogImage : string) : M Net Err DeclarativeConfig :=
  imgRef ← parse_ref "failed to parse image reference" catalogImage;
  m ← wrap "failed to get manifest" (ManifestGet c imgRef);
  '(imgRef, m) ← resolveManifestList c imgRef m;
  match GetLayers m with
  | None => fail (Msg "failed to get layers")
  | Some layers =>
    fs ← fetch_layers c imgRef layers ∅;
    if decide (fs = ∅) then fail (Msg "no FBC config files found")
    else match LoadFS fs with Some cfg => mret cfg | None => fail (Msg "load FBC") end
  end.

Definition LoadFBC (client : option Legs) (catalogImage : string) : M Net Err DeclarativeConfig :=
  match client with None => fail (Msg "registry client is required for LoadFBC") | Some c => fetchFBC c catalogImage end.

(** [None]: nothing, without an error. *)
Definition ResolveCatalogFull_net (client : option Legs) (catalogImage : string) (includes : list IncludePackage)
    : M Net Err (option (gmap string BundleImageInfo * DeclarativeConfig * DeclarativeConfig)) :=
  _ ← parse_ref "failed to parse catalog image reference" catalogImage;
  match client with
  | None => mret None
  | Some c =>
    upstream ← wrap "failed to load FBC" (fetchFBC c catalogImage);
    match FilterFBC order upstream includes with
    | inl _ => fail (Msg "failed to filter FBC")
    | inr filtered => mret (Some (ExtractImagesWithBundles filtered, filtered, upstream))
    end
  end.

(** In the order of the map. *)
Definition ExtractImages (cfg : DeclarativeConfig) : list string := (map_to_list (ExtractImagesWithBundles cfg)).*1.

Definition ResolveCatalog (client : option Legs) (catalogImage : string) (packages : list string) : M Net Err (list string) :=
  _ ← parse_ref "failed to parse catalog image reference" catalogImage;
  match client with
  | None => mret []
  | Some c =>
    if decide (packages = []) then mret [catalogImage]
    else
      cfg ← wrap "failed to load FBC" (fetchFBC c catalogImage);
      match FilterFBC order cfg (List.map (λ p, mkIncludePackage p [] "" 0 (mkIncludeBundle "" "") []) packages) with
      | inl _ => fail (Msg "failed to filter FBC")
      | inr filtered => mret (catalogImage :: ExtractImages filtered)
      end
  end.

(** ** Blobs *)

Definition add_digest (d : Descriptor) (blobs : gset string) : gset string :=
  if String.eqb (d_Digest d) "" then blobs else {[d_Digest d]} ∪ blobs.

Definition collectBlobs (m : Manifest) (blobs : gset string) : gset string :=
  match m with MList _ => blobs | MImage cfg layers => foldl (λ bs l, add_digest l bs) (add_digest cfg blobs) layers end.

Fixpoint platform_blobs (c : Legs) (srcRef : Ref) (descs : list Descriptor) (blobs : gset string) : M Net Err (gset string) :=
  match descs with
  | [] => mret blobs
  | d :: descs =>
    let blobs := add_digest d blobs in
    r ← attempt (ManifestGet c (with_tag srcRef "" (d_Digest d)));
    match r with
    | inl _ => platform_blobs c srcRef descs blobs
    | inr m => platform_blobs c srcRef descs (collectBlobs m blobs)
    end
  end.

Definition extractBlobDigests (c : Legs) (src : string) : M Net Err (gset string) :=
  srcRef ← parse_ref "" src;
  m ← ManifestGet c srcRef;
  match m with
  | MList descs => platform_blobs c srcRef descs ∅
  | MImage _ _ => mret (collectBlobs m ∅)
  end.

(** ** The upstream of a resolve *)

(** [net]: the state of the registries a catalog is probed and read in. *)
Definition catalog_upstream (c : Legs) (probe net : string → Net) (up : Upstream) : Upstream :=
  mkUpstream (up_nodes up) (up_signed up) (up_components up) (up_kubevirt up)
    (λ img, to_option (fst (GetCatalogDigest (Some c) img (probe img)))) (up_catalogSigned up) pin_digest
    (λ img includes, match fst (ResolveCatalogFull_net (Some c) img includes (net img)) with
                     | inr (Some (images, _, _)) =>
                       Some (List.map (λ p, mkBundleImage (fst p) (info_Label (snd p)) (info_IsBundleImage (snd p))) (map_to_list images))
                     | inr None => Some []
                     | inl _ => None
                     end)
    (up_chart up) (up_graph up) (up_resolvedSig up) (up_redactURL up) (up_time up) (up_format up).
End fetch.

(** * Lemmas *)

Section authentic.
Context `{F : FBC, A : Archive, SV : Semver, RL : RegLaws} (order : gset string → list string).

(** What was downloaded of a layer: nothing that could be used, or bytes with its
    digest. *)
Definition served (d : Descriptor) (b : option string) : Prop := match b with None => True | Some data => FromBytes data = d_Digest d end.
Definition downloaded (b : option string) : blob := match b with None => Unreadable | Some data => open_layer data end.

(** [cfg] is what the image with this digest gives, from the manifests [ms] and the downloads [bs]. *)
Definition loaded (digest : string) (cfg : DeclarativeConfig) (ms : list Manifest) (bs : list (option string)) : Prop :=
  ∃ ls, manifests_read digest ms ls ∧ Forall2 served ls bs ∧ loadFBCFromImage (map downloaded bs) = Some cfg.

(** No two manifests and no two downloads with the same digest. *)
Definition no_collision (ms1 ms2 : list Manifest) (bs1 bs2 : list (option string)) : Prop :=
  (∀ m1 m2, m1 ∈ ms1 → m2 ∈ ms2 → ManifestDigest m1 = ManifestDigest m2 → m1 = m2) ∧
  (∀ x y, Some x ∈ bs1 → Some y ∈ bs2 → FromBytes x = FromBytes y → x = y).

Lemma load_layers_cons b bs fs fs1 : extractFBCLayer b fs = Some fs1 → load_layers (b :: bs) fs = load_layers bs fs1.
Proof. intros E. destruct b; cbn in *; [by injection E as ->|by injection E as ->|]. by rewrite E. Qed.

(** A layer that was read to the end has the bytes of its digest; one whose
    stream breaks off ends the read, unless it is no archive and is skipped. *)
Lemma fetched_layer c r d w rdr fs fs1 : fst (BlobGet c r d w) = inr rdr → extractFBCLayer (layer_blob rdr) fs = Some fs1 →
  ∃ b, served d b ∧ ∀ bs, load_layers (map downloaded (b :: bs)) fs = load_layers (map downloaded bs) fs1.
Proof.
  intros Eb Ex. apply BlobGet_stream in Eb as [_ Hw]. unfold layer_blob in Ex.
  destruct (rd_Broken rdr) eqn:Hb.
  - exists None. split; [done|]. intros bs. cbn. destruct (open_layer (rd_Data rdr)) as [| |entries broken]; [by injection Ex as ->..|].
    rewrite orb_true_r in Ex. cbn in Ex. by destruct (extract_entries entries fs).
  - exists (Some (rd_Data rdr)). split; [by apply Hw|]. intros bs. cbn [map downloaded].
    apply load_layers_cons. destruct (open_layer (rd_Data rdr)) as [| |entries broken]; [done..|]. by rewrite orb_false_r in Ex.
Qed.

Lemma fetch_layers_spec c r layers fs w fs' :
  fst (fetch_layers c r layers fs w) = inr fs' → ∃ bs, Forall2 served layers bs ∧ load_layers (map downloaded bs) fs = Some fs'.
Proof.
  revert fs w. induction layers as [|d layers IH]; intros fs w; cbn [fetch_layers].
  { intros [= <-]. exists []. by split. }
  rewrite attempt_bind. destruct (fst (BlobGet c r d w)) as [e|rdr] eqn:Eb.
  - intros E. destruct (IH _ _ E) as (bs & Hs & Hl). exists (None :: bs). split; [by constructor|done].
  - destruct (extractFBCLayer (layer_blob rdr) fs) as [fs1|] eqn:Ex; [|done]. intros E. destruct (IH _ _ E) as (bs & Hs & Hl).
    destruct (fetched_layer c r d w rdr fs fs1 Eb Ex) as (b & Hb & Hbs). exists (b :: bs). split; [by constructor|]. by rewrite Hbs.
Qed.

Lemma fetchFBC_spec c image r w cfg :
  ref_New image = Some r → rf_Digest r ≠ "" → fst (fetchFBC c image w) = inr cfg → ∃ ms bs, loaded (rf_Digest r) cfg ms bs.
Proof.
  intros Er Hd. unfold fetchFBC. rewrite parse_bind, Er, bind_eq, wrap_eq. cbn [fst snd].
  destruct (fst (ManifestGet c r w)) as [e|m] eqn:Em; [done|]. destruct (ManifestGet_digest c r w m Hd Em) as [<- Hv].
  set (w1 := snd (ManifestGet c r w)). rewrite bind_eq.
  destruct (fst (resolveManifestList c r m w1)) as [e|[r' m']] eqn:Ep; [done|].
  destruct (GetLayers m') as [ls|] eqn:Els; [|done]. destruct (resolveManifestList_read c r m w1 r' m' ls Hv Ep Els) as [ms Hms]. rewrite bind_eq.
  destruct (fst (fetch_layers c r' ls ∅ _)) as [e|fs] eqn:Ef; [done|]. destruct (fetch_layers_spec _ _ _ _ _ _ Ef) as (bs & Hs & Hl).
  destruct (decide (fs = ∅)) as [|Hne] eqn:Ed; [done|]. destruct (LoadFS fs) as [cfg'|] eqn:Eload; [|done]. intros [= <-].
  exists ms, bs, ls. split_and!; [done..|]. unfold loadFBCFromImage, parseExtractedFBC. rewrite Hl. cbn. by rewrite Ed.
Qed.

Lemma manifests_read_unique digest ms1 ls1 ms2 ls2 :
  manifests_read digest ms1 ls1 → manifests_read digest ms2 ls2 →
  (∀ m1 m2, m1 ∈ ms1 → m2 ∈ ms2 → ManifestDigest m1 = ManifestDigest m2 → m1 = m2) → ls1 = ls2.
Proof.
  intros [c1 l1 D1|x1 d1 c1 l1 D1 P1 I1] [c2 l2 D2|x2 d2 c2 l2 D2 P2 I2] Hm.
  - assert (MImage c1 l1 = MImage c2 l2) as E; [|by injection E]. apply Hm; [by left|by left|congruence].
  - assert (MImage c1 l1 = MList x2) as E; [|done]. apply Hm; [by left|by left|congruence].
  - assert (MList x1 = MImage c2 l2) as E; [|done]. apply Hm; [by left|by left|congruence].
  - assert (MList x1 = MList x2) as [= <-]. { apply Hm; [by left|by left|congruence]. }
    rewrite P1 in P2. injection P2 as <-.
    assert (MImage c1 l1 = MImage c2 l2) as E; [|by injection E]. apply Hm; [right; by left|right; by left|congruence].
Qed.

(** The digest decides what is read, where everything could be read. *)
Lemma loaded_unique digest cfg1 ms1 bs1 cfg2 ms2 bs2 :
  loaded digest cfg1 ms1 bs1 → loaded digest cfg2 ms2 bs2 → no_collision ms1 ms2 bs1 bs2 → None ∉ bs1 → None ∉ bs2 → cfg1 = cfg2.
Proof.
  intros (ls1 & Hl1 & Hs1 & E1) (ls2 & Hl2 & Hs2 & E2) [Hm Hb] H1 H2.
  pose proof (manifests_read_unique _ _ _ _ _ Hl1 Hl2 Hm) as <-.
  enough (bs1 = bs2) as <- by congruence. clear -Hs1 Hs2 H1 H2 Hb. revert bs2 Hs2 H2 Hb.
  induction Hs1 as [|d b ls bs Hd _ IH]; intros bs2 Hs2 H2 Hb; [by inversion Hs2|]. inversion Hs2 as [|d' b' ls' bs' Hd' Hs']; subst.
  apply not_elem_of_cons in H1 as [Hn1 H1]. apply not_elem_of_cons in H2 as [Hn2 H2]. f_equal.
  - destruct b as [x|], b' as [y|]; [|done..]. cbn in Hd, Hd'. f_equal. apply Hb; [by left|by left|congruence].
  - apply IH; [done..|]. intros x y Hx Hy. apply Hb; by right.
Qed.

(** A digest that is asked for is the one the reference has. *)
Lemma GetDigest_resolves c image r w d : ref_New image = Some r → fst (GetDigest c image w) = inr d → resolves (contents w) r = Some d.
Proof.
  intros Er E. destruct (GetDigest c image w) as [x w'] eqn:Em. cbn in E. subst x. revert Em. unfold GetDigest.
  apply (withFallback_spec c (λ _ rc, getDigestWith rc image) (λ w1, contents w1 = contents w) (λ w1 d _, resolves (contents w1) r = Some d)); [| |done].
  - intros _ rc w1 v w2 Hc. unfold getDigestWith. rewrite parse_bind, Er, lib_eq. destruct (fst (lib_ManifestHead rc r w1)) as [e|d'] eqn:Eh; [done|].
    intros [= <- _]. by apply head_found in Eh.
  - intros _ rc w1 e w2 Hc. unfold getDigestWith. rewrite parse_bind, Er, lib_eq. intros [= _ <-]. rewrite head_quiet. split; [done|]. done.
Qed.

Lemma ResolveCatalogFull_net_spec c pinned r includes w images filtered cfg :
  ref_New pinned = Some r → rf_Digest r ≠ "" →
  fst (ResolveCatalogFull_net order (Some c) pinned includes w) = inr (Some (images, filtered, cfg)) →
  (∃ ms bs, loaded (rf_Digest r) cfg ms bs) ∧ FilterFBC order cfg includes = inr filtered ∧ images = ExtractImagesWithBundles filtered.
Proof.
  intros Er Hd. unfold ResolveCatalogFull_net. rewrite parse_bind, Er, bind_eq, wrap_eq. cbn [fst snd].
  destruct (fst (fetchFBC c pinned w)) as [e|up] eqn:Ef; [done|]. destruct (FilterFBC order up includes) as [e|fl] eqn:Efl; [done|].
  intros [= <- <- <-]. split; [by apply (fetchFBC_spec c pinned r w)|done].
Qed.

Lemma elem_of_rendered (m : gmap string BundleImageInfo) img :
  img ∈ map bi_Image (List.map (λ p, mkBundleImage (fst p) (info_Label (snd p)) (info_IsBundleImage (snd p))) (map_to_list m)) ↔ is_Some (m !! img).
Proof.
  rewrite map_map. cbn. rewrite list_elem_of_In, in_map_iff. setoid_rewrite <- list_elem_of_In. split.
  - intros ([k v] & <- & Hin). apply elem_of_map_to_list in Hin. eauto.
  - intros [v Hv]. exists (img, v). by rewrite elem_of_map_to_list.
Qed.

(** C37: a catalog is resolved as it was probed.  The digest the manager probes,
    a SHA-256, is the one the reference has at that time, and what is mirrored after
    [pin_digest] has pinned the reference to it, whenever it is read, are the
    images of the filtered catalog that stands behind this digest: what the
    catalog is loaded from are the layers this digest fixes, each with the bytes
    of its digest or, when it could not be downloaded or is no archive, left out;
    two reads in which no layer was left out read the same catalog, unless two
    of their manifests or layers have the same digest. *)
Theorem catalog_resolved_as_probed c probe net up image r d pinned includes images :
  let U := catalog_upstream order c probe net up in
  ref_New image = Some r → HasPrefix d "sha256:" = true →
  up_catalogDigest U image = Some d → up_pin U image d = Some pinned →
  up_catalog U pinned includes = Some images →
  (if String.eqb (rf_Digest r) "" then resolves (contents (probe image)) r = Some d else rf_Digest r = d) ∧
  ∃ ms bs cfg filtered, loaded d cfg ms bs ∧ FilterFBC order cfg includes = inr filtered ∧
    (∀ img, img ∈ map bi_Image images ↔ is_Some (ExtractImagesWithBundles filtered !! img)) ∧
    (None ∉ bs → ∀ cfg' ms' bs', loaded d cfg' ms' bs' → None ∉ bs' → no_collision ms' ms bs' bs → cfg' = cfg).
Proof.
  intros U Er Hd Ed Epin Ei. subst U. cbn in Ed, Epin, Ei. split.
  - revert Ed. unfold GetCatalogDigest. rewrite parse_bind, Er. destruct (String.eqb_spec (rf_Digest r) "") as [E|E]; cbn [negb].
    + destruct (fst (GetDigest c image (probe image))) as [e|d'] eqn:Eg; [done|]. intros [= ->]. by apply (GetDigest_resolves c image).
    + by intros [= ->].
  - unfold pin_digest in Epin. rewrite Er in Epin. cbn in Epin. injection Epin as Epin.
    destruct (ref_New pinned) as [r'|] eqn:Er'.
    2:{ unfold ResolveCatalogFull_net in Ei. rewrite parse_bind, Er' in Ei. done. }
    assert (rf_Digest r' = d) as Hr' by (apply (common_name_digest image r d r'); [done|done|by rewrite Epin]).
    assert (d ≠ "") as Hne by (intros ->; discriminate Hd). rewrite <- Hr' in Hne |- *.
    destruct (fst (ResolveCatalogFull_net order (Some c) pinned includes (net pinned))) as [e|[[[im fl] cfg]|]] eqn:Ef; [done| |].
    + injection Ei as <-. destruct (ResolveCatalogFull_net_spec c pinned r' includes (net pinned) im fl cfg Er' Hne Ef) as ((ms & bs & Hl) & Hf & ->).
      exists ms, bs, cfg, fl. split; [done|]. split; [done|]. split; [apply elem_of_rendered|].
      intros Hu cfg' ms' bs' Hl' Hu' Hc. by apply (loaded_unique (rf_Digest r') cfg' ms' bs' cfg ms bs).
    + exfalso. revert Ef. unfold ResolveCatalogFull_net. rewrite parse_bind, Er', bind_eq, wrap_eq. cbn [fst snd].
      destruct (fst (fetchFBC c pinned (net pinned))) as [|cfg]; [done|]. by destruct (FilterFBC order cfg includes).
Qed.
End authentic.

(** ** Examples *)

Definition ex_probe_net (_ : string) : Contents := ex_source_net "cat" "v1" ex_catalog_source.
(** Later the tag is gone. *)
Definition ex_read_net (_ : string) : Contents := let c := ex_probe_net "" in mkContents ∅ (ct_Manifests c) (ct_Blobs c).
Definition ex_pinned : string := "quay.io/cat@" +:+ mem_digest ex_catalog_source.
Definition ex_catalog_images : list BundleImage :=
  default [] (up_catalog (@catalog_upstream ex_fbc ex_archive number_semver mem_lib elements ex_plain ex_probe_net ex_read_net ex_base_upstream) ex_pinned [plain_include "a"]).

Lemma catalog_resolved_as_probed_witness :
  resolves (ex_probe_net "quay.io/cat:v1") (mkRef "" "quay.io" "cat" "" "v1" "") = Some (mem_digest ex_catalog_source) ∧
  map bi_Image ex_catalog_images = ["img-a"] ∧
  ∃ ms bs cfg, @loaded ex_fbc ex_archive mem_lib (mem_digest ex_catalog_source) cfg ms bs.
Proof.
  assert (Hi : up_catalog (@catalog_upstream ex_fbc ex_archive number_semver mem_lib elements ex_plain ex_probe_net ex_read_net ex_base_upstream)
    ex_pinned [plain_include "a"] = Some ex_catalog_images) by (vm_compute; reflexivity).
  destruct (@catalog_resolved_as_probed ex_fbc ex_archive number_semver mem_lib mem_laws elements ex_plain ex_probe_net ex_read_net ex_base_upstream
    "quay.io/cat:v1" (mkRef "" "quay.io" "cat" "" "v1" "") (mem_digest ex_catalog_source) ex_pinned
    [plain_include "a"] ex_catalog_images) as (Hd & ms & bs & cfg & filtered & Hl & _).
  - vm_compute; reflexivity.
  - reflexivity.
  - vm_compute; reflexivity.
  - vm_compute; reflexivity.
  - exact Hi.
  - split; [exact Hd|]. split; [vm_compute; reflexivity|]. by exists ms, bs, cfg.
Defined.
