(* ===== verification/Deploy.v ===== *)
(** * The objects of a MirrorTarget

    What internal/controller/mirrortarget_controller.go creates for a target:
    the manager's Deployment and Service, service accounts, roles and network
    policies, the resource API, and the Route, Ingress or HTTPRoute in front of
    it.

    The API server and the helpers of controller-runtime are the class [Kube];
    what is relied on of them is [KubeLaws].  Security contexts, resource
    requests, node selectors and tolerations are left out; a field the kubelet
    fills in has the value it fills in. *)
From S2P Require Import Prelude Effects GoStrings ImageRef ImageState Api Resources BuildJobs.

(** ** Objects *)

Abbreviation Labels := (gmap string string).

Record VolumeMount := mkVolumeMount { vm_Name : string; vm_MountPath : string }.
Inductive VolumeSource :=
| VSecret (name : string) (items : list (string * string))
| VConfigMap (name : string) (items : list (string * string))
| VEmptyDir (sizeLimit : string)
| VEphemeral (storageClass size : string).
Record Volume := mkVolume { vo_Name : string; vo_Source : VolumeSource }.

(** A probe is the path and the name of the port. *)
Record Container := mkContainer {
  co_Name : string; co_Image : string; co_Args : list string; co_Env : list EnvVar; co_Mounts : list VolumeMount;
  co_Ports : list (string * Z); co_Probes : list (string * string);
}.
Record PodTemplate := mkPodTemplate {
  pt_Labels : Labels; pt_ServiceAccountName : string; pt_Container : Container; pt_Volumes : list Volume;
}.
(** [ds_Strategy] is "" for the default, a rolling update. *)
Record DeploymentSpec := mkDeploymentSpec { ds_Replicas : Z; ds_Strategy : string; ds_Selector : Labels; ds_Template : PodTemplate }.

(** Without a target port, it is the port itself. *)
Record ServicePort := mkServicePort { sp_Name : string; sp_Port : Z; sp_TargetPort : option Z }.
Record ServiceSpec := mkServiceSpec { ss_Selector : Labels; ss_Ports : list ServicePort }.

Record PolicyRule := mkPolicyRule {
  pr_APIGroups : list string; pr_Resources : list string; pr_ResourceNames : list string; pr_Verbs : list string;
}.

(** No [from] admits every source. *)
Record IngressRule := mkIngressRule { ir_From : list Labels; ir_Ports : list Z }.
Record NetworkPolicySpec := mkNetworkPolicySpec { np_PodSelector : Labels; np_Ingress : list IngressRule }.

(** [rt_Other]: what else the spec of a Route has. *)
Record RouteSpec := mkRouteSpec {
  rt_Service : string; rt_TargetPort : string; rt_Termination : string; rt_InsecurePolicy : string; rt_Host : option string;
  rt_Other : gmap string string;
}.
Record IngressSpec := mkIngressSpec { ig_Host : string; ig_Path : string; ig_Service : string; ig_Port : Z; ig_Class : option string }.
Record HTTPRouteSpec := mkHTTPRouteSpec {
  hr_ParentName : string; hr_ParentNamespace : option string; hr_Service : string; hr_Port : Z; hr_Hostnames : list string;
}.

Inductive Body :=
| BServiceAccount
| BRole (rules : list PolicyRule)
| BRoleBinding (roleName : string) (subjects : list (string * string))
| BDeployment (spec : DeploymentSpec)
| BService (spec : ServiceSpec)
| BNetworkPolicy (spec : NetworkPolicySpec)
| BRoute (spec : RouteSpec)
| BIngress (spec : IngressSpec)
| BHTTPRoute (spec : HTTPRouteSpec).

Record OwnerReference := mkOwnerReference { or_Name : string; or_Controller : bool }.

(** [ob_Body] is [None] in an object that was just allocated. *)
Record Object := mkObject { ob_Labels : Labels; ob_Owners : list OwnerReference; ob_Body : option Body }.
Definition emptyObject : Object := mkObject ∅ [] None.

(** Kind, namespace, name. *)
Abbreviation Key := (string * string * string)%type.

Inductive kubeErr := KNotFound | KNoMatch | KErr (msg : string).

(** ** The API server and controller-runtime *)

Class Kube := {
  kube : Type;
  objects : kube → gmap Key Object;
  CreateOrUpdate : Key → (Object → string + Object) → M kube string unit;
  GetObject : Key → M kube kubeErr Object;
  DeleteObject : Key → M kube kubeErr unit;
  SetControllerReference : string → Object → string + Object;
  SetOwnerReference : string → Object → string + Object;
}.

(** An update stores what the callback makes of the stored object, or fails and
    stores nothing; setting an owner changes neither labels nor content. *)
Class KubeLaws `{Kube} : Prop := {
  CreateOrUpdate_ok k key f :
    let '(r, k') := CreateOrUpdate key f k in
    match r with
    | inr _ => ∃ o, f (default emptyObject (objects k !! key)) = inr o ∧ objects k' = <[key := o]> (objects k)
    | inl _ => objects k' = objects k
    end;
  GetObject_ok k key :
    let '(r, k') := GetObject key k in
    objects k' = objects k ∧ (∀ o, r = inr o → objects k !! key = Some o) ∧ (r = inl KNotFound → objects k !! key = None);
  DeleteObject_ok k key :
    let '(r, k') := DeleteObject key k in
    match r with
    | inr _ => objects k' = delete key (objects k)
    | inl (KErr _) => objects k' = objects k
    | inl _ => objects k !! key = None ∧ objects k' = objects k
    end;
  SetControllerReference_ok name o o' :
    SetControllerReference name o = inr o' → ob_Labels o' = ob_Labels o ∧ ob_Body o' = ob_Body o;
  SetOwnerReference_ok name o o' :
    SetOwnerReference name o = inr o' → ob_Labels o' = ob_Labels o ∧ ob_Body o' = ob_Body o;
}.

(** ** The target *)

Record GatewayReference := mkGatewayRef { gw_Name : string; gw_Namespace : string }.
Record ExposeConfig := mkExpose { xp_Type : string; xp_Host : string; xp_IngressClassName : string; xp_GatewayRef : option GatewayReference }.

Definition ExposeTypeRoute : string := "Route".
Definition ExposeTypeIngress : string := "Ingress".
Definition ExposeTypeGatewayAPI : string := "GatewayAPI".
Definition ExposeTypeService : string := "Service".

(** A MirrorTarget with the fields only this controller reads, and the
    environment of the controller. *)
Record TargetSpec := mkTargetSpec { tg_mt : MirrorTarget; tg_Namespace : string; tg_Expose : option ExposeConfig }.
Record OperatorEnv := mkOperatorEnv { MANAGER_IMAGE : string; OPERATOR_IMAGE : string; WORKER_IMAGE : string }.

(** ** The pod of the manager *)

Definition clusterNoProxy : list string := ["localhost"; "127.0.0.1"; ".svc"; ".svc.cluster.local"].

Definition buildEffectiveNoProxy (userNoProxy : string) : string :=
  let base := Join clusterNoProxy "," in if String.eqb userNoProxy "" then base else base +:+ "," +:+ userNoProxy.

Definition proxyEnvVars (cfg : option ProxyConfig) : list EnvVar :=
  match cfg with
  | None => []
  | Some cfg =>
    (if String.eqb (px_HTTPProxy cfg) "" then []
     else [mkEnvVar "HTTP_PROXY" (px_HTTPProxy cfg); mkEnvVar "http_proxy" (px_HTTPProxy cfg)])
    ++ (if String.eqb (px_HTTPSProxy cfg) "" then []
        else [mkEnvVar "HTTPS_PROXY" (px_HTTPSProxy cfg); mkEnvVar "https_proxy" (px_HTTPSProxy cfg)])
    ++ (if negb (String.eqb (px_HTTPProxy cfg) "") || negb (String.eqb (px_HTTPSProxy cfg) "") then
          let noProxy := buildEffectiveNoProxy (px_NoProxy cfg) in
          [mkEnvVar "NO_PROXY" noProxy; mkEnvVar "no_proxy" noProxy;
           mkEnvVar "KUBERNETES_SERVICE_HOST" "kubernetes.default.svc.cluster.local"]
        else if negb (String.eqb (px_NoProxy cfg) "") then
          [mkEnvVar "NO_PROXY" (px_NoProxy cfg); mkEnvVar "no_proxy" (px_NoProxy cfg)]
        else [])
  end.

Definition ca_key (ref : CABundleRef) : string := if String.eqb (ca_Key ref) "" then "ca-bundle.crt" else ca_Key ref.

Definition caBundleEnvVars (ref : option CABundleRef) : list EnvVar :=
  match ref with None => [] | Some ref => [mkEnvVar "SSL_CERT_FILE" ("/run/secrets/ca/" +:+ ca_key ref)] end.

Definition managerContainerEnv (env : OperatorEnv) (t : TargetSpec) : list EnvVar :=
  [mkEnvVar "POD_NAMESPACE" (tg_Namespace t); mkEnvVar "OPERATOR_IMAGE" (OPERATOR_IMAGE env); mkEnvVar "WORKER_IMAGE" (WORKER_IMAGE env)]
  ++ (if String.eqb (mt_AuthSecret (tg_mt t)) "" then [] else [mkEnvVar "DOCKER_CONFIG" "/docker-config"])
  ++ proxyEnvVars (mt_Proxy (tg_mt t)) ++ caBundleEnvVars (mt_CABundle (tg_mt t)).

Definition managerContainerVolumeMounts (mt : MirrorTarget) : list VolumeMount :=
  (if String.eqb (mt_AuthSecret mt) "" then [] else [mkVolumeMount "dockerconfig" "/docker-config"])
  ++ (match mt_CABundle mt with None => [] | Some _ => [mkVolumeMount "ca-bundle" "/run/secrets/ca"] end).

Definition managerPodVolumes (mt : MirrorTarget) : list Volume :=
  (if String.eqb (mt_AuthSecret mt) "" then []
   else [mkVolume "dockerconfig" (VSecret (mt_AuthSecret mt) [(".dockerconfigjson", "config.json")])])
  ++ (match mt_CABundle mt with
      | None => []
      | Some ref => [mkVolume "ca-bundle" (VConfigMap (ca_ConfigMapName ref) [(ca_key ref, ca_key ref)])]
      end).

(** ** What each object is to be *)

Definition manager_labels (name : string) : Labels :=
  {["app" := "oc-mirror-manager"; "mirrortarget" := name; "app.kubernetes.io/component" := "manager";
    "app.kubernetes.io/name" := "oc-mirror"; "app.kubernetes.io/instance" := name;
    "oc-mirror.openshift.io/mirrortarget" := name]}.

Definition manager_deployment (env : OperatorEnv) (t : TargetSpec) : DeploymentSpec :=
  let mt := tg_mt t in
  mkDeploymentSpec 1 "Recreate" (manager_labels (mt_Name mt))
    (mkPodTemplate (manager_labels (mt_Name mt)) (mt_Name mt +:+ "-coordinator")
      (mkContainer "manager" (MANAGER_IMAGE env) ["--mirrortarget"; mt_Name mt; "--namespace"; tg_Namespace t]
        (managerContainerEnv env t) (managerContainerVolumeMounts mt) [("status", 8080%Z); ("metrics", 9090%Z)]
        [("/healthz", "metrics"); ("/readyz", "metrics")])
      (managerPodVolumes mt)).

Definition manager_selector (name : string) : Labels := {["app" := "oc-mirror-manager"; "mirrortarget" := name]}.
Definition worker_selector (name : string) : Labels := {["app" := "oc-mirror-worker"; "mirrortarget" := name]}.

Definition manager_service (name : string) : ServiceSpec :=
  mkServiceSpec (manager_selector name) [mkServicePort "http" 8080 None; mkServicePort "metrics" 9090 None].

Definition resourceApiName : string := "oc-mirror-resource-api".
Definition resource_service : ServiceSpec :=
  mkServiceSpec {["app" := resourceApiName]} [mkServicePort "resources" 8081 None].

Definition coordinator_rules : list PolicyRule :=
  [mkPolicyRule ["mirror.openshift.io"] ["imagesets"] [] ["get"; "list"; "watch"; "update"; "patch"];
   mkPolicyRule ["mirror.openshift.io"] ["mirrortargets"] [] ["get"; "list"; "watch"];
   mkPolicyRule ["mirror.openshift.io"] ["imagesets/status"] [] ["get"; "update"; "patch"];
   mkPolicyRule ["mirror.openshift.io"] ["mirrortargets/finalizers"] [] ["update"];
   mkPolicyRule [""] ["pods"] [] ["get"; "list"; "watch"; "create"; "delete"];
   mkPolicyRule [""] ["secrets"] [] ["get"; "list"; "watch"; "create"; "update"];
   mkPolicyRule [""] ["configmaps"] [] ["get"; "list"; "watch"; "create"; "update"; "patch"; "delete"];
   mkPolicyRule [""] ["persistentvolumeclaims"] [] ["get"; "list"; "create"; "delete"]].

Definition resource_rules : list PolicyRule :=
  [mkPolicyRule [""] ["configmaps"] [] ["get"; "list"; "watch"];
   mkPolicyRule ["mirror.openshift.io"] ["mirrortargets"; "imagesets"] [] ["get"; "list"; "watch"]].

Definition resource_deployment (env : OperatorEnv) (ns : string) : DeploymentSpec :=
  mkDeploymentSpec 1 "" {["app" := resourceApiName]}
    (mkPodTemplate {["app" := resourceApiName]} resourceApiName
      (mkContainer "api" (MANAGER_IMAGE env) ["resource-api"; "--namespace"; ns] [mkEnvVar "POD_NAMESPACE" ns] [] [("", 8081%Z)] []) []).

(** The two policies: name and content. *)
Definition network_policies (name : string) : list (string * NetworkPolicySpec) :=
  [(name +:+ "-manager-ingress",
    mkNetworkPolicySpec (manager_selector name)
      [mkIngressRule [worker_selector name] [8080%Z]; mkIngressRule [] [9090%Z]]);
   (name +:+ "-worker-ingress-deny", mkNetworkPolicySpec (worker_selector name) [])].

Definition managed_by : Labels := {["app.kubernetes.io/managed-by" := "oc-mirror-operator"]}.

(** ** Creating them *)

Section controller.
Context `{Kube} (env : OperatorEnv).

(** The callbacks of [CreateOrUpdate]: the owner first, then labels and spec.
    [None] leaves a field alone. *)
Definition mutate (set_owner : Object → string + Object) (labels : option Labels) (body : option Body → option Body)
    (o : Object) : string + Object :=
  match set_owner o with
  | inl e => inl e
  | inr o => inr (mkObject (default (ob_Labels o) labels) (ob_Owners o) (body (ob_Body o)))
  end.

(** [fmt.Errorf("...: %w", err)] *)
Definition wrap {A} (msg : string) (m : M kube string A) : M kube string A := λ k,
  match m k with (inl e, k) => (inl (msg +:+ ": " +:+ e), k) | r => r end.

Definition ensureCoordinatorRBAC (t : TargetSpec) : M kube string unit :=
  let name := mt_Name (tg_mt t) in
  let coordinatorName := name +:+ "-coordinator" in
  let workerName := name +:+ "-worker" in
  let ctl := SetControllerReference name in
  _ ← wrap "failed to create coordinator ServiceAccount"
        (CreateOrUpdate ("ServiceAccount", tg_Namespace t, coordinatorName) (mutate ctl None (λ _, Some BServiceAccount)));
  _ ← wrap "failed to create worker ServiceAccount"
        (CreateOrUpdate ("ServiceAccount", tg_Namespace t, workerName) (mutate ctl None (λ _, Some BServiceAccount)));
  _ ← wrap "failed to create coordinator Role"
        (CreateOrUpdate ("Role", tg_Namespace t, coordinatorName) (mutate ctl None (λ _, Some (BRole coordinator_rules))));
  wrap "failed to create coordinator RoleBinding"
    (CreateOrUpdate ("RoleBinding", tg_Namespace t, coordinatorName)
      (mutate ctl None (λ _, Some (BRoleBinding coordinatorName [(coordinatorName, tg_Namespace t)])))).

Fixpoint ensure_policies (t : TargetSpec) (policies : list (string * NetworkPolicySpec)) : M kube string unit :=
  match policies with
  | [] => mret tt
  | (name, spec) :: policies =>
    _ ← wrap ("failed to ensure NetworkPolicy " +:+ name)
          (CreateOrUpdate ("NetworkPolicy", tg_Namespace t, name) (λ _,
            inr (mkObject managed_by [mkOwnerReference (mt_Name (tg_mt t)) true] (Some (BNetworkPolicy spec)))));
    ensure_policies t policies
  end.

(** [r.Delete] where an object that is gone is no error. *)
Definition delete_gone (msg : string) (key : Key) : M kube string unit := λ k,
  match DeleteObject key k with
  | (inr _, k) | (inl KNotFound, k) => (inr tt, k)
  | (inl KNoMatch, k) => (inl (msg +:+ ": no match"), k)
  | (inl (KErr e), k) => (inl (msg +:+ ": " +:+ e), k)
  end.

Definition ensureNetworkPolicies (t : TargetSpec) : M kube string unit :=
  let name := mt_Name (tg_mt t) in
  _ ← ensure_policies t (network_policies name);
  let obsolete := name +:+ "-worker-egress" in
  delete_gone ("failed to delete obsolete NetworkPolicy " +:+ obsolete) ("NetworkPolicy", tg_Namespace t, obsolete).

Definition ensureResourceRBAC (t : TargetSpec) : M kube string unit :=
  let own := SetOwnerReference (mt_Name (tg_mt t)) in
  let ns := tg_Namespace t in
  _ ← CreateOrUpdate ("ServiceAccount", ns, resourceApiName) (mutate own None (λ _, Some BServiceAccount));
  _ ← CreateOrUpdate ("Role", ns, resourceApiName) (mutate own None (λ _, Some (BRole resource_rules)));
  CreateOrUpdate ("RoleBinding", ns, resourceApiName)
    (mutate own None (λ _, Some (BRoleBinding resourceApiName [(resourceApiName, ns)]))).

Definition ensureResourceAPI (t : TargetSpec) : M kube string unit :=
  let own := SetOwnerReference (mt_Name (tg_mt t)) in
  let ns := tg_Namespace t in
  let labels : Labels := {["app" := resourceApiName]} in
  _ ← ensureResourceRBAC t;
  _ ← wrap "failed to ensure resource api deployment"
        (CreateOrUpdate ("Deployment", ns, resourceApiName) (mutate own (Some labels) (λ _, Some (BDeployment (resource_deployment env ns)))));
  CreateOrUpdate ("Service", ns, resourceApiName)
    (mutate own (Some labels) (λ _, Some (BService (mkServiceSpec labels [mkServicePort "" 8081 (Some 8081%Z)])))).

(** The manager's Deployment and the two Services of [Reconcile]. *)
Definition ensureManagerDeployment (t : TargetSpec) : M kube string unit :=
  let name := mt_Name (tg_mt t) in
  CreateOrUpdate ("Deployment", tg_Namespace t, name +:+ "-manager")
    (mutate (SetControllerReference name) (Some (manager_labels name)) (λ _, Some (BDeployment (manager_deployment env t)))).

Definition ensureManagerService (t : TargetSpec) : M kube string unit :=
  let name := mt_Name (tg_mt t) in
  CreateOrUpdate ("Service", tg_Namespace t, name +:+ "-manager")
    (mutate (SetControllerReference name) (Some (manager_labels name)) (λ _, Some (BService (manager_service name)))).

Definition ensureResourcesService (t : TargetSpec) : M kube string unit :=
  let name := mt_Name (tg_mt t) in
  CreateOrUpdate ("Service", tg_Namespace t, name +:+ "-resources")
    (mutate (SetControllerReference name) (Some {["app" := resourceApiName; "mirrortarget" := name]}) (λ _, Some (BService resource_service))).

(** ** Exposure *)

(** [hasRouteAPI] and [hasGatewayAPI]: the API exists when the probe is found
    or not found. *)
Definition has_api (kind : string) : M kube string bool := λ k,
  match GetObject (kind, "default", "__probe__") k with
  | (inr _, k) | (inl KNotFound, k) => (inr true, k)
  | (inl _, k) => (inr false, k)
  end.
Definition hasRouteAPI : M kube string bool := has_api "Route".
Definition hasGatewayAPI : M kube string bool := has_api "HTTPRoute".

Definition resources_labels (name : string) : Labels := {["app" := "oc-mirror-resources"; "mirrortarget" := name]}.

Definition route_spec (t : TargetSpec) (svcName : string) (old : option Body) : RouteSpec :=
  let other := match old with Some (BRoute r) => rt_Other r | _ => ∅ end in
  mkRouteSpec svcName "resources" "edge" "Redirect"
    (match tg_Expose t with
     | Some e => if String.eqb (xp_Host e) "" then None else Some (xp_Host e)
     | None => None
     end) other.

Definition ensureRoute (t : TargetSpec) (svcName : string) : M kube string unit :=
  let name := mt_Name (tg_mt t) in
  wrap "failed to create/update Route"
    (CreateOrUpdate ("Route", tg_Namespace t, name +:+ "-resources")
      (mutate (SetControllerReference name) (Some (resources_labels name)) (λ old, Some (BRoute (route_spec t svcName old))))).

Definition ensureIngress (t : TargetSpec) (svcName : string) : M kube string unit :=
  let name := mt_Name (tg_mt t) in
  let host := match tg_Expose t with Some e => xp_Host e | None => "" end in
  let ingressClass := match tg_Expose t with Some e => xp_IngressClassName e | None => "" end in
  if String.eqb host "" then fail "ingress exposure requires a host to be set in spec.expose.host"
  else
    wrap "failed to create/update Ingress"
      (CreateOrUpdate ("Ingress", tg_Namespace t, name +:+ "-resources")
        (mutate (SetControllerReference name) (Some (resources_labels name)) (λ _,
          Some (BIngress (mkIngressSpec host "/resources" svcName 8081
            (if String.eqb ingressClass "" then None else Some ingressClass)))))).

Definition ensureHTTPRoute (t : TargetSpec) (svcName : string) : M kube string unit :=
  let name := mt_Name (tg_mt t) in
  match tg_Expose t with
  | Some e =>
    match xp_GatewayRef e with
    | Some gw =>
      if String.eqb (gw_Name gw) "" then fail "gatewayAPI exposure requires spec.expose.gatewayRef.name to be set"
      else
        installed ← hasGatewayAPI;
        if negb installed then
          fail "gatewayAPI exposure requested but the Gateway API (HTTPRoute CRD) is not installed in this cluster"
        else
          wrap "failed to create/update HTTPRoute"
            (CreateOrUpdate ("HTTPRoute", tg_Namespace t, name +:+ "-resources")
              (mutate (SetControllerReference name) (Some (resources_labels name)) (λ _,
                Some (BHTTPRoute (mkHTTPRouteSpec (gw_Name gw) (if String.eqb (gw_Namespace gw) "" then None else Some (gw_Namespace gw))
                  svcName 8081 (if String.eqb (xp_Host e) "" then [] else [xp_Host e]))))))
    | None => fail "gatewayAPI exposure requires spec.expose.gatewayRef.name to be set"
    end
  | None => fail "gatewayAPI exposure requires spec.expose.gatewayRef.name to be set"
  end.

(** [_ = r.Delete(...)]: the result is not looked at. *)
Definition delete_ignored (key : Key) : M kube string unit := λ k, (inr tt, snd (DeleteObject key k)).
Definition deleteRoute (t : TargetSpec) := delete_ignored ("Route", tg_Namespace t, mt_Name (tg_mt t) +:+ "-resources").
Definition deleteIngress (t : TargetSpec) := delete_ignored ("Ingress", tg_Namespace t, mt_Name (tg_mt t) +:+ "-resources").
Definition deleteHTTPRoute (t : TargetSpec) := delete_ignored ("HTTPRoute", tg_Namespace t, mt_Name (tg_mt t) +:+ "-resources").

Definition unless (c : bool) (m : M kube string unit) : M kube string unit := if c then mret tt else m.

Definition expose_type (t : TargetSpec) : M kube string string :=
  match tg_Expose t with
  | Some e => if negb (String.eqb (xp_Type e) "") then mret (xp_Type e)
              else route ← hasRouteAPI; mret (if (route : bool) then ExposeTypeRoute else ExposeTypeService)
  | None => route ← hasRouteAPI; mret (if (route : bool) then ExposeTypeRoute else ExposeTypeService)
  end.

Definition reconcileExposure (t : TargetSpec) : M kube string unit :=
  exposeType ← expose_type t;
  let svcName := mt_Name (tg_mt t) +:+ "-resources" in
  _ ← unless (String.eqb exposeType ExposeTypeRoute) (deleteRoute t);
  _ ← unless (String.eqb exposeType ExposeTypeIngress) (deleteIngress t);
  _ ← unless (String.eqb exposeType ExposeTypeGatewayAPI) (deleteHTTPRoute t);
  if String.eqb exposeType ExposeTypeRoute then ensureRoute t svcName
  else if String.eqb exposeType ExposeTypeIngress then ensureIngress t svcName
  else if String.eqb exposeType ExposeTypeGatewayAPI then ensureHTTPRoute t svcName
  else mret tt.

(** The objects [Reconcile] ensures before the exposure, in its order. *)
Definition ensure_objects (t : TargetSpec) : M kube string unit :=
  _ ← ensureCoordinatorRBAC t;
  _ ← ensureNetworkPolicies t;
  _ ← ensureResourceAPI t;
  _ ← ensureManagerDeployment t;
  _ ← ensureManagerService t;
  ensureResourcesService t.
End controller.

(** * Lemmas *)

(** ** Names *)

Lemma has_suffix_app s a : HasSuffix (s +:+ a) a = true.
Proof.
  unfold HasSuffix. rewrite length_app_s. apply andb_true_iff. split; [apply Nat.leb_le; lia|].
  replace (String.length s + String.length a - String.length a) with (String.length s) by lia.
  apply String.eqb_eq. induction s as [|c s IH]; [|done]. rewrite app_nil_l_s. cbn [String.length].
  induction a as [|c a IH]; [done|]. cbn. by rewrite IH.
Qed.

Lemma suffix_ne s a w : HasSuffix w a = false → w ≠ s +:+ a.
Proof. intros Hf ->. by rewrite has_suffix_app in Hf. Qed.

(** Keys of different kinds differ, and so do names with different suffixes. *)
Ltac key_ne :=
  let E := fresh in
  intros E; repeat apply pair_equal_spec in E as [E ?]; try discriminate; simplify_eq;
  match goal with
  | E : ?s +:+ _ = ?s +:+ _ |- _ => apply app_inv_head_s in E; discriminate
  | E : ?s +:+ _ = resourceApiName |- _ => by eapply suffix_ne; [|symmetry; exact E]
  | E : resourceApiName = ?s +:+ _ |- _ => by eapply suffix_ne; [|exact E]
  end.

(** ** Sequences of updates *)

Section sequences.
Context `{KubeLaws}.

(** On success the object at [key] has the content [b]. *)
Definition body_at (k : kube) (key : Key) : option Body := objects k !! key ≫= ob_Body.
Definition establishes {A} (key : Key) (b : Body) (m : M kube string A) : Prop :=
  ∀ k a, fst (m k) = inr a → body_at (snd (m k)) key = Some b.
(** Whatever happens, the object at [key] stays. *)
Definition leaves {A} (key : Key) (m : M kube string A) : Prop := ∀ k, objects (snd (m k)) !! key = objects k !! key.

Lemma establishes_here {A B} key b (m : M kube string A) (f : A → M kube string B) :
  establishes key b m → (∀ a, leaves key (f a)) → establishes key b (m ≫= f).
Proof.
  intros Hm Hf k x. rewrite bind_eq. specialize (Hm k). destruct (fst (m k)) as [e|a]; cbn; [done|].
  intros _. unfold body_at. rewrite Hf. by apply (Hm a).
Qed.

Lemma establishes_later {A B} key b (m : M kube string A) (f : A → M kube string B) :
  (∀ a, establishes key b (f a)) → establishes key b (m ≫= f).
Proof. intros Hf k x. rewrite bind_eq. destruct (fst (m k)) as [e|a]; cbn; [done|]. apply Hf. Qed.

Lemma leaves_bind {A B} key (m : M kube string A) (f : A → M kube string B) :
  leaves key m → (∀ a, leaves key (f a)) → leaves key (m ≫= f).
Proof. intros Hm Hf k. rewrite bind_eq. destruct (fst (m k)) as [e|a]; cbn; [apply Hm|]. by rewrite Hf. Qed.

Lemma leaves_ret {A} key (a : A) : leaves key (mret a).
Proof. by intros k. Qed.
Lemma leaves_fail {A} key e : leaves (A := A) key (fail e).
Proof. by intros k. Qed.

Lemma leaves_update key key' f : key' ≠ key → leaves key (CreateOrUpdate key' f).
Proof.
  intros Hne k. pose proof (CreateOrUpdate_ok k key' f) as Hu. destruct (CreateOrUpdate key' f k) as [[e|[]] k']; cbn.
  - by rewrite Hu.
  - destruct Hu as (o & _ & ->). by rewrite lookup_insert_ne.
Qed.

Lemma establishes_update key b f :
  (∀ o o', f o = inr o' → ob_Body o' = Some b) → establishes key b (CreateOrUpdate key f).
Proof.
  intros Hf k a Ha. pose proof (CreateOrUpdate_ok k key f) as Hu. destruct (CreateOrUpdate key f k) as [[e|[]] k']; cbn in *; [done|].
  destruct Hu as (o & Ho & E). unfold body_at. rewrite E, lookup_insert_eq. cbn. by eapply Hf.
Qed.

Lemma mutate_body set_owner labels body b o o' :
  mutate set_owner labels (λ _, body) o = inr o' → body = Some b → ob_Body o' = Some b.
Proof. unfold mutate. destruct (set_owner o); [done|]. by intros [= <-]. Qed.

Lemma leaves_wrap {A} key msg (m : M kube string A) : leaves key m → leaves key (wrap msg m).
Proof. intros Hm k. specialize (Hm k). unfold wrap. destruct (m k) as [[e|a] k']; done. Qed.
Lemma establishes_wrap {A} key b msg (m : M kube string A) : establishes key b m → establishes key b (wrap msg m).
Proof. intros Hm k a. specialize (Hm k). unfold wrap. destruct (m k) as [[e|x] k']; cbn in *; [done|]. intros _. by apply (Hm x). Qed.

Lemma leaves_delete key key' k : key' ≠ key → objects (snd (DeleteObject key' k)) !! key = objects k !! key.
Proof.
  intros Hne. pose proof (DeleteObject_ok k key') as Hd.
  destruct (DeleteObject key' k) as [[[]|[]] k']; cbn.
  - by destruct Hd as [_ ->].
  - by destruct Hd as [_ ->].
  - by rewrite Hd.
  - by rewrite Hd, lookup_delete_ne.
Qed.
Lemma leaves_delete_gone key msg key' : key' ≠ key → leaves key (delete_gone msg key').
Proof.
  intros Hne k. pose proof (leaves_delete key key' k Hne) as Hd. unfold delete_gone.
  destruct (DeleteObject key' k) as [[[]|[]] k']; done.
Qed.
Lemma leaves_delete_ignored key key' : key' ≠ key → leaves key (delete_ignored key').
Proof. intros Hne k. by apply leaves_delete. Qed.

Lemma leaves_get key key' k : objects (snd (GetObject key' k)) !! key = objects k !! key.
Proof. pose proof (GetObject_ok k key') as Hg. destruct (GetObject key' k) as [r k']. cbn. by destruct Hg as [-> _]. Qed.
Lemma leaves_has_api key kind : leaves key (has_api kind).
Proof.
  intros k. pose proof (leaves_get key (kind, "default", "__probe__") k) as Hg. unfold has_api.
  destruct (GetObject _ k) as [[[]|o] k']; done.
Qed.
End sequences.

#[export] Hint Resolve leaves_ret leaves_fail leaves_wrap leaves_has_api : oc.

(** The walk through a sequence for one key. *)
Ltac walk_leaves :=
  repeat first
    [ apply leaves_ret | apply leaves_fail | apply leaves_has_api
    | apply leaves_bind; [|intros ?]
    | apply leaves_wrap
    | apply leaves_update; key_ne
    | apply leaves_delete_gone; key_ne
    | apply leaves_delete_ignored; key_ne ].
Ltac walk_establishes :=
  first
    [ apply establishes_update; intros ? ? ?; by eapply mutate_body
    | apply establishes_wrap; apply establishes_update; intros ? ? ?; by eapply mutate_body
    | apply establishes_wrap; apply establishes_update; by intros ? ? [= <-]
    | apply establishes_here; [walk_establishes|intros _; walk_leaves; fail]
    | apply establishes_later; intros _; walk_establishes ].

(** ** What is ensured *)

(** The content each managed object has to have. *)
Definition desired (env : OperatorEnv) (t : TargetSpec) : list (Key * Body) :=
  let name := mt_Name (tg_mt t) in
  let ns := tg_Namespace t in
  let coordinator := name +:+ "-coordinator" in
  [(("ServiceAccount", ns, coordinator), BServiceAccount);
   (("ServiceAccount", ns, name +:+ "-worker"), BServiceAccount);
   (("Role", ns, coordinator), BRole coordinator_rules);
   (("RoleBinding", ns, coordinator), BRoleBinding coordinator [(coordinator, ns)]);
   (("NetworkPolicy", ns, name +:+ "-manager-ingress"), BNetworkPolicy (mkNetworkPolicySpec (manager_selector name)
      [mkIngressRule [worker_selector name] [8080%Z]; mkIngressRule [] [9090%Z]]));
   (("NetworkPolicy", ns, name +:+ "-worker-ingress-deny"), BNetworkPolicy (mkNetworkPolicySpec (worker_selector name) []));
   (("ServiceAccount", ns, resourceApiName), BServiceAccount);
   (("Role", ns, resourceApiName), BRole resource_rules);
   (("RoleBinding", ns, resourceApiName), BRoleBinding resourceApiName [(resourceApiName, ns)]);
   (("Deployment", ns, resourceApiName), BDeployment (resource_deployment env ns));
   (("Service", ns, resourceApiName), BService (mkServiceSpec {["app" := resourceApiName]} [mkServicePort "" 8081 (Some 8081%Z)]));
   (("Deployment", ns, name +:+ "-manager"), BDeployment (manager_deployment env t));
   (("Service", ns, name +:+ "-manager"), BService (manager_service name));
   (("Service", ns, name +:+ "-resources"), BService resource_service)].

Lemma ensure_objects_establishes `{KubeLaws} env t key b : (key, b) ∈ desired env t → establishes key b (ensure_objects env t).
Proof.
  intros Hin. unfold ensure_objects, ensureCoordinatorRBAC, ensureNetworkPolicies, ensureResourceAPI, ensureResourceRBAC,
    ensureManagerDeployment, ensureManagerService, ensureResourcesService, network_policies, ensure_policies.
  unfold desired in Hin. repeat (apply elem_of_cons in Hin as [Hin|Hin]; [injection Hin as -> ->; walk_establishes|]).
  by apply not_elem_of_nil in Hin.
Qed.

Definition obsolete_policy (t : TargetSpec) : Key := ("NetworkPolicy", tg_Namespace t, mt_Name (tg_mt t) +:+ "-worker-egress").

Lemma ensure_objects_leaves `{KubeLaws} env t key :
  key ∉ map fst (desired env t) → key ≠ obsolete_policy t → leaves key (ensure_objects env t).
Proof.
  intros Hk Ho. unfold ensure_objects, ensureCoordinatorRBAC, ensureNetworkPolicies, ensureResourceAPI, ensureResourceRBAC,
    ensureManagerDeployment, ensureManagerService, ensureResourcesService, network_policies, ensure_policies.
  assert (Hu : ∀ key' f, key' ∈ map fst (desired env t) → leaves key (CreateOrUpdate key' f)).
  { intros key' f Hin. apply leaves_update. by intros ->. }
  repeat first
    [ apply leaves_ret | apply leaves_bind; [|intros ?] | apply leaves_wrap
    | apply Hu; cbn; repeat (apply elem_of_cons; first [left; reflexivity|right])
    | apply leaves_delete_gone; intros E; apply Ho; symmetry; exact E ].
Qed.

Lemma ensureNetworkPolicies_obsolete `{KubeLaws} t k a :
  fst (ensureNetworkPolicies t k) = inr a → objects (snd (ensureNetworkPolicies t k)) !! obsolete_policy t = None.
Proof.
  unfold ensureNetworkPolicies. rewrite bind_eq. destruct (fst (ensure_policies _ _ k)); [done|].
  set (k1 := snd _). unfold delete_gone. pose proof (DeleteObject_ok k1 (obsolete_policy t)) as Hd. fold (obsolete_policy t).
  destruct (DeleteObject _ k1) as [[[]|[]] k']; cbn; try done.
  - intros _. by destruct Hd as [? ->].
  - intros _. by rewrite Hd, lookup_delete_eq.
Qed.

Lemma ensure_objects_obsolete `{KubeLaws} env t k a :
  fst (ensure_objects env t k) = inr a → objects (snd (ensure_objects env t k)) !! obsolete_policy t = None.
Proof.
  unfold ensure_objects. rewrite bind_eq. destruct (fst (ensureCoordinatorRBAC t k)); [done|].
  set (k1 := snd (ensureCoordinatorRBAC t k)). rewrite bind_eq. pose proof (ensureNetworkPolicies_obsolete t k1) as Ho.
  destruct (fst (ensureNetworkPolicies t k1)) as [|x]; [done|]. specialize (Ho x eq_refl). set (k2 := snd (ensureNetworkPolicies t k1)) in *.
  assert (Hl : leaves (obsolete_policy t) (_ ← ensureResourceAPI env t; _ ← ensureManagerDeployment env t; _ ← ensureManagerService t; ensureResourcesService t)).
  { unfold ensureResourceAPI, ensureResourceRBAC, ensureManagerDeployment, ensureManagerService, ensureResourcesService, obsolete_policy. walk_leaves. }
  intros _. by rewrite Hl.
Qed.

(** ** Exposure *)

(** The kinds of objects that expose the resource API. *)
Definition exposure_kinds : list (string * string) :=
  [(ExposeTypeRoute, "Route"); (ExposeTypeIngress, "Ingress"); (ExposeTypeGatewayAPI, "HTTPRoute")].

(** No deletion fails for another reason than that the object is gone. *)
Definition deletes_work `{Kube} : Prop := ∀ k key e, fst (DeleteObject key k) ≠ inl (KErr e).

Lemma delete_ignored_gone `{KubeLaws} k key : deletes_work → objects (snd (delete_ignored key k)) !! key = None.
Proof.
  intros Hw. unfold delete_ignored. cbn. specialize (Hw k key). pose proof (DeleteObject_ok k key) as Hd.
  destruct (DeleteObject key k) as [[[]|[]] k']; cbn in *.
  - by destruct Hd as [? ->].
  - by destruct Hd as [? ->].
  - by destruct (Hw msg).
  - by rewrite Hd, lookup_delete_eq.
Qed.

(** The service an exposing object leads to. *)
Definition backend (b : Body) : option string :=
  match b with
  | BRoute r => Some (rt_Service r)
  | BIngress i => Some (ig_Service i)
  | BHTTPRoute h => Some (hr_Service h)
  | _ => None
  end.

Definition exposure_key (t : TargetSpec) (kind : string) : Key := (kind, tg_Namespace t, mt_Name (tg_mt t) +:+ "-resources").
Definition exposed_at `{Kube} (t : TargetSpec) (k : kube) (kind : string) : Prop :=
  ∃ b, body_at k (exposure_key t kind) = Some b ∧ backend b = Some (mt_Name (tg_mt t) +:+ "-resources").
Definition absent_at `{Kube} (t : TargetSpec) (k : kube) (kind : string) : Prop := objects k !! exposure_key t kind = None.

Section exposure.
Context `{KubeLaws} (t : TargetSpec).

(** The conditional deletion of one kind. *)
Lemma delete_unless (keep : bool) kind k :
  let m := unless keep (delete_ignored (exposure_key t kind)) in
  fst (m k) = inr tt ∧ (keep = false → deletes_work → absent_at t (snd (m k)) kind) ∧
  (∀ kind', kind' ≠ kind → objects (snd (m k)) !! exposure_key t kind' = objects k !! exposure_key t kind').
Proof.
  destruct keep; cbn; [done|]. split_and!; [done|intros _ ?; by apply delete_ignored_gone|].
  intros kind' Hne. apply leaves_delete. intros E. unfold exposure_key in E. congruence.
Qed.

(** Each way of exposing writes its own kind of object only. *)
Definition exposes (kind : string) (m : M kube string unit) : Prop :=
  ∀ k, (fst (m k) = inr tt → exposed_at t (snd (m k)) kind) ∧
    ∀ kind', kind' ≠ kind → objects (snd (m k)) !! exposure_key t kind' = objects k !! exposure_key t kind'.

Lemma exposes_update kind msg f :
  (∀ o o', f o = inr o' → ∃ b, ob_Body o' = Some b ∧ backend b = Some (mt_Name (tg_mt t) +:+ "-resources")) →
  exposes kind (wrap msg (CreateOrUpdate (exposure_key t kind) f)).
Proof.
  intros Hf k. unfold wrap. pose proof (CreateOrUpdate_ok k (exposure_key t kind) f) as Hu.
  destruct (CreateOrUpdate _ f k) as [[e|[]] k']; cbn.
  - split; [done|]. intros kind' _. by rewrite Hu.
  - destruct Hu as (o & Ho & E). destruct (Hf _ _ Ho) as (b & Hb & Hs). split.
    + intros _. exists b. unfold body_at. rewrite E, lookup_insert_eq. cbn. by rewrite Hb.
    + intros kind' Hne. rewrite E. apply lookup_insert_ne. intros Ek. unfold exposure_key in Ek. congruence.
Qed.

Lemma exposes_route : exposes "Route" (ensureRoute t (mt_Name (tg_mt t) +:+ "-resources")).
Proof.
  apply exposes_update. intros o o'. unfold mutate. destruct (SetControllerReference _ o); [done|]. intros [= <-]. by eexists.
Qed.
Lemma exposes_ingress : exposes "Ingress" (ensureIngress t (mt_Name (tg_mt t) +:+ "-resources")).
Proof.
  unfold ensureIngress. destruct (String.eqb _ ""); [by intros k|].
  apply exposes_update. intros o o'. unfold mutate. destruct (SetControllerReference _ o); [done|]. intros [= <-]. by eexists.
Qed.
Lemma exposes_httproute : exposes "HTTPRoute" (ensureHTTPRoute t (mt_Name (tg_mt t) +:+ "-resources")).
Proof.
  unfold ensureHTTPRoute. destruct (tg_Expose t) as [e|]; [|by intros k]. destruct (xp_GatewayRef e) as [gw|]; [|by intros k].
  destruct (String.eqb (gw_Name gw) ""); [by intros k|]. intros k. rewrite bind_eq.
  pose proof (λ key, leaves_has_api key "HTTPRoute" k) as Hl. fold hasGatewayAPI in Hl.
  destruct (fst (hasGatewayAPI k)) as [err|installed]; cbn [fst snd].
  { split; [done|]. intros kind' _. apply Hl. }
  destruct installed; cbn [negb]; [|split; [done|intros kind' _; apply Hl]].
  match goal with |- context [wrap ?msg (CreateOrUpdate _ ?f)] => destruct (exposes_update "HTTPRoute" msg f) with (k := snd (hasGatewayAPI k)) as [H1 H2] end.
  - intros o o'. unfold mutate. destruct (SetControllerReference _ o); [done|]. intros [= <-]. by eexists.
  - split; [exact H1|]. intros kind' Hne. etransitivity; [by apply H2|apply Hl].
Qed.
End exposure.

(** What [reconcileExposure] decides on. *)
Definition wants (ty kind : string) : bool := existsb (λ p, String.eqb (fst p) ty && String.eqb (snd p) kind) exposure_kinds.

Lemma wants_true ty kind : wants ty kind = true ↔ (ty, kind) ∈ exposure_kinds.
Proof.
  unfold wants. rewrite existsb_elem. split.
  - intros ([a b] & Hin & [Ha%String.eqb_eq Hb%String.eqb_eq]%andb_true_iff). cbn in Ha, Hb. by subst.
  - intros Hin. exists (ty, kind). split; [done|]. cbn. by rewrite !String.eqb_refl.
Qed.

Lemma wants_unique ty kind kind' : wants ty kind = true → (ty, kind') ∈ exposure_kinds → kind = kind'.
Proof. rewrite wants_true. unfold exposure_kinds. rewrite !elem_of_cons, !elem_of_nil. naive_solver. Qed.

Lemma reconcileExposure_spec `{KubeLaws} t k :
  fst (reconcileExposure t k) = inr tt →
  ∃ ty, fst (expose_type t k) = inr ty ∧ let k' := snd (reconcileExposure t k) in
    ∀ kind, kind ∈ map snd exposure_kinds → if wants ty kind then exposed_at t k' kind else (deletes_work → absent_at t k' kind).
Proof.
  unfold reconcileExposure. rewrite bind_eq. destruct (fst (expose_type t k)) as [|ty] eqn:Ety; [done|].
  set (k0 := snd (expose_type t k)). clearbody k0. intros Hok. exists ty. split; [done|]. revert Hok. cbv zeta.
  set (name := mt_Name (tg_mt t) +:+ "-resources").
  destruct (delete_unless t (String.eqb ty ExposeTypeRoute) "Route" k0) as (E1 & G1 & F1).
  rewrite (bind_eq (unless (String.eqb ty ExposeTypeRoute) _)). change (deleteRoute t) with (delete_ignored (exposure_key t "Route")).
  rewrite E1. set (k1 := snd (unless (String.eqb ty ExposeTypeRoute) _ k0)) in *. clearbody k1.
  destruct (delete_unless t (String.eqb ty ExposeTypeIngress) "Ingress" k1) as (E2 & G2 & F2).
  rewrite (bind_eq (unless (String.eqb ty ExposeTypeIngress) _)). change (deleteIngress t) with (delete_ignored (exposure_key t "Ingress")).
  rewrite E2. set (k2 := snd (unless (String.eqb ty ExposeTypeIngress) _ k1)) in *. clearbody k2.
  destruct (delete_unless t (String.eqb ty ExposeTypeGatewayAPI) "HTTPRoute" k2) as (E3 & G3 & F3).
  rewrite (bind_eq (unless (String.eqb ty ExposeTypeGatewayAPI) _)). change (deleteHTTPRoute t) with (delete_ignored (exposure_key t "HTTPRoute")).
  rewrite E3. set (k3 := snd (unless (String.eqb ty ExposeTypeGatewayAPI) _ k2)) in *. clearbody k3.
  assert (A1 : String.eqb ty ExposeTypeRoute = false → deletes_work → absent_at t k3 "Route").
  { intros E Hw. unfold absent_at. rewrite F3, F2 by done. by apply G1. }
  assert (A2 : String.eqb ty ExposeTypeIngress = false → deletes_work → absent_at t k3 "Ingress").
  { intros E Hw. unfold absent_at. rewrite F3 by done. by apply G2. }
  clear E1 G1 F1 E2 G2 F2 E3 F3.
  assert (Hkinds : ∀ kind, kind ∈ map snd exposure_kinds → kind = "Route" ∨ kind = "Ingress" ∨ kind = "HTTPRoute").
  { intros kind Hin. cbn in Hin. set_solver. }
  assert (Hin : ∀ m kind0, exposes t kind0 m → fst (m k3) = inr tt → (∀ kind, wants ty kind = true → kind = kind0) →
    wants ty kind0 = true → (∀ kind, kind ∈ map snd exposure_kinds → kind ≠ kind0 → deletes_work → absent_at t k3 kind) →
    ∀ kind, kind ∈ map snd exposure_kinds → if wants ty kind then exposed_at t (snd (m k3)) kind else (deletes_work → absent_at t (snd (m k3)) kind)).
  { intros m kind0 Hm Hok Hu Hk0 Ha kind Hin. destruct (Hm k3) as [X Y]. destruct (wants ty kind) eqn:Ew.
    - rewrite (Hu kind Ew). by apply X.
    - intros Hw. unfold absent_at. assert (kind ≠ kind0) by congruence. rewrite Y by done. by apply Ha. }
  destruct (String.eqb_spec ty ExposeTypeRoute) as [->|N1]; [|destruct (String.eqb_spec ty ExposeTypeIngress) as [->|N2];
    [|destruct (String.eqb_spec ty ExposeTypeGatewayAPI) as [->|N3]]].
  - intros Hok. apply Hin with "Route"; [apply exposes_route|done| |done|].
    + intros kind Hk. apply (wants_unique _ _ _ Hk). unfold exposure_kinds. set_solver.
    + intros kind [->|[->| ->]]%Hkinds ?; [done|by apply A2|by apply G3].
  - intros Hok. apply Hin with "Ingress"; [apply exposes_ingress|done| |done|].
    + intros kind Hk. apply (wants_unique _ _ _ Hk). unfold exposure_kinds. set_solver.
    + intros kind [->|[->| ->]]%Hkinds ?; [by apply A1|done|by apply G3].
  - intros Hok. apply Hin with "HTTPRoute"; [apply exposes_httproute|done| |done|].
    + intros kind Hk. apply (wants_unique _ _ _ Hk). unfold exposure_kinds. set_solver.
    + intros kind [->|[->| ->]]%Hkinds ?; [by apply A1|by apply A2|done].
  - intros _ kind Hk. assert (wants ty kind = false) as ->.
    { destruct (wants ty kind) eqn:Ew; [|done]. apply wants_true in Ew. unfold exposure_kinds in Ew. set_solver. }
    apply Hkinds in Hk as [->|[->| ->]]; [by apply A1|by apply A2|by apply G3].
Qed.

(** The type that is configured, or what the cluster offers. *)
Lemma expose_type_spec `{Kube} t k ty : fst (expose_type t k) = inr ty →
  let configured := from_option xp_Type "" (tg_Expose t) in
  if String.eqb configured "" then ∃ route, fst (hasRouteAPI k) = inr route ∧ ty = (if (route : bool) then ExposeTypeRoute else ExposeTypeService)
  else ty = configured.
Proof.
  unfold expose_type. destruct (tg_Expose t) as [e|]; cbn [from_option].
  - destruct (String.eqb (xp_Type e) ""); cbn [negb]; [|by intros [= <-]]. rewrite bind_eq.
    destruct (hasRouteAPI k) as [[err|route] k']; cbn; [done|]. intros [= <-]. by exists route.
  - rewrite bind_eq. destruct (hasRouteAPI k) as [[err|route] k']; cbn; [done|]. intros [= <-]. by exists route.
Qed.

(** * Theorems *)

(** After the objects of a target were ensured, each of them has exactly
    the content it is meant to have, whatever it had before, the network policy
    of earlier versions is gone, and no other object was touched. *)
Theorem objects_reconciled `{KubeLaws} env t k :
  fst (ensure_objects env t k) = inr tt →
  let k' := snd (ensure_objects env t k) in
  (∀ key b, (key, b) ∈ desired env t → body_at k' key = Some b) ∧
  objects k' !! obsolete_policy t = None ∧
  (∀ key, key ∉ map fst (desired env t) → key ≠ obsolete_policy t → objects k' !! key = objects k !! key).
Proof.
  intros Hok. cbv zeta. split_and!.
  - intros key b Hin. by apply (ensure_objects_establishes env t key b Hin k tt).
  - by apply (ensure_objects_obsolete env t k tt).
  - intros key Hk Ho. by apply ensure_objects_leaves.
Qed.

(** The resource API is exposed in one way.  When the exposure was
    reconciled and stale objects can be deleted, the object of the chosen kind
    exists and leads to the Service of the target, and no object of the other
    kinds is left; exposure by the Service alone leaves none. *)
Theorem exposure_exclusive `{KubeLaws} t k :
  deletes_work → fst (reconcileExposure t k) = inr tt →
  ∃ ty, fst (expose_type t k) = inr ty ∧
    let k' := snd (reconcileExposure t k) in
    ∀ kind, kind ∈ map snd exposure_kinds → if wants ty kind then exposed_at t k' kind else absent_at t k' kind.
Proof.
  intros Hw Hok. destruct (reconcileExposure_spec t k Hok) as (ty & E & H1). exists ty. split; [done|]. intros k' kind Hin. specialize (H1 kind Hin).
  destruct (wants ty kind); auto.
Qed.

(** ** Examples *)

(** An API server that never fails; an object has at most one controller. *)
Definition ex_set_owner (controller : bool) (name : string) (o : Object) : string + Object :=
  if controller && existsb (λ r, or_Controller r && negb (String.eqb (or_Name r) name)) (ob_Owners o) then inl "already owned"
  else inr (mkObject (ob_Labels o)
    (List.filter (λ r, negb (String.eqb (or_Name r) name)) (ob_Owners o) ++ [mkOwnerReference name controller]) (ob_Body o)).

Definition ex_kube : Kube := {|
  kube := gmap Key Object;
  objects k := k;
  CreateOrUpdate key f k := match f (default emptyObject (k !! key)) with inl e => (inl e, k) | inr o => (inr tt, <[key := o]> k) end;
  GetObject key k := (match k !! key with Some o => inr o | None => inl KNotFound end, k);
  DeleteObject key k := match k !! key with Some _ => (inr tt, delete key k) | None => (inl KNotFound, k) end;
  SetControllerReference := ex_set_owner true;
  SetOwnerReference := ex_set_owner false;
|}.

Lemma ex_kube_laws : @KubeLaws ex_kube.
Proof.
  split.
  - intros k key f. cbn. destruct (f _) eqn:E; [done|]. eauto.
  - intros k key. cbn. split; [done|]. split; [intros o|]; case_match eqn:E; intros Eq; try discriminate.
    + injection Eq as <-. reflexivity.
    + reflexivity.
  - intros k key. cbn in k |- *. destruct (k !! key) eqn:E; [reflexivity|]. by split.
  - intros name o o'. cbn. unfold ex_set_owner. case_match; [done|]. by intros [= <-].
  - intros name o o'. cbn. unfold ex_set_owner. by intros [= <-].
Qed.

Definition ex_env : OperatorEnv := mkOperatorEnv "manager:v1" "operator:v1" "worker:v1".
Definition ex_tspec : TargetSpec :=
  mkTargetSpec (mkMirrorTarget "t" "reg.example/mirror" ["s"] 4 0 3 None None ∅ 1 "pull" true
    (Some (mkProxy "http://proxy:3128" "" "corp")) (Some (mkCABundle "ca" ""))) "ns"
    (Some (mkExpose "Ingress" "mirror.example" "" None)).
Definition ex_objects : @kube ex_kube :=
  {[("NetworkPolicy", "ns", "t-worker-egress") := emptyObject;
    ("Route", "ns", "t-resources") := emptyObject;
    ("ConfigMap", "ns", "other") := emptyObject]}.

Lemma objects_reconciled_witness :
  let k' := snd (@ensure_objects ex_kube ex_env ex_tspec ex_objects) in
  @body_at ex_kube k' ("Service", "ns", "t-manager") = Some (BService (manager_service "t")) ∧
  @objects ex_kube k' !! (("ConfigMap", "ns", "other") : Key) = Some emptyObject.
Proof.
  destruct (@objects_reconciled ex_kube ex_kube_laws ex_env ex_tspec ex_objects) as (H1 & _ & H3); [vm_compute; reflexivity|].
  cbv zeta. split.
  - apply H1. unfold desired. do 12 right. left.
  - rewrite H3; [reflexivity| |discriminate]. intros Hin. apply list_elem_of_In in Hin. vm_compute in Hin. intuition discriminate.
Defined.

Lemma exposure_exclusive_witness :
  let k' := snd (@reconcileExposure ex_kube ex_tspec ex_objects) in
  @exposed_at ex_kube ex_tspec k' "Ingress" ∧ @absent_at ex_kube ex_tspec k' "Route".
Proof.
  destruct (@exposure_exclusive ex_kube ex_kube_laws ex_tspec ex_objects) as (ty & E & Hk).
  - intros k key e. cbn in k |- *. destruct (k !! key); discriminate.
  - vm_compute. reflexivity.
  - cbv zeta in Hk |- *. injection E as <-. split.
    + apply (Hk "Ingress"). cbn. right. left.
    + apply (Hk "Route"). cbn. left.
Defined.
