(* ===== verification/ExportJob.v ===== *)
(** * Exports

    internal/controller/mirrorexport_controller.go, the Job operations of
    pkg/mirror/export/builder/job.go and the binary the Job runs
    (cmd/export-builder/main.go).  The artifacts ConfigMap is in the cluster of
    [ImageState], the objects of the Job's access rights are in [Kube].  Calls
    draw from the schedule of faults; the two calls that delete a stale Job
    have a schedule of their own. *)
From S2P Require Import Prelude Effects GoStrings HelmSource ImageRef ImageState Owners ManagerState Api Resolve Status Resources Export BuildJobs CatalogGate Deploy.

(** ** The API type (mirrorexport_types.go) *)

Record MirrorExportSource := mkExportSource {
  xs_Registry : string; xs_Insecure : bool; xs_AuthSecret : string; xs_CABundle : option CABundleRef;
}.
Record MirrorExportSpec := mkExportSpec {
  xe_Mirror : Mirror; xe_Source : option MirrorExportSource; xe_Registry : string; xe_Insecure : bool;
}.
Record MirrorExportStatus := mkExportStatus {
  xt_Conditions : list Condition; xt_TotalImages : Z; xt_ArtifactsConfigMap : string; xt_LastRenderedSignature : string;
}.
Record MirrorExport := mkExport { me_Name : string; me_Generation : Z; me_Spec : MirrorExportSpec; me_Status : MirrorExportStatus }.

(** [encoding/json] on the documents of an export; [None] is an error. *)
Class ExportJSON := {
  json_mirror : Mirror → option string;
  parse_mirror : string → option Mirror;
  json_manifest : Manifest → option string;
  parse_manifest : string → option Manifest;
  json_buildspec : BuildSpec → option string;
}.

(** ** The Job (job.go) *)

(** [ej_Wrote]: a pod of the Job has written the artifacts.  It is not part of
    the object in the API server and no definition of the controller reads it. *)
Record ExportJob := mkExportJob {
  ej_Signature : string; ej_ServiceAccountName : string; ej_Env : list EnvVar; ej_Mounts : list VolumeMount; ej_Volumes : list Volume;
  ej_Succeeded : Z; ej_Active : Z; ej_Failed : Z; ej_Wrote : bool;
}.

Definition EnvMirrorSpec : string := "MIRROR_SPEC".
Definition EnvDestRegistry : string := "DEST_REGISTRY".
Definition EnvExportName : string := "EXPORT_NAME".
Definition EnvArtifactsConfigMap : string := "ARTIFACTS_CONFIGMAP".
Definition EnvPodNamespace : string := "POD_NAMESPACE".

Definition hostOnly (registry : string) : string := CutBefore registry "/".

Section job.
Context `{Sha : Sha256} (namespace : string).

Definition ExportJobName (exportName : string) : string := safeJobName "export-build" [exportName].

Definition print_bool (b : bool) : string := if b then "true" else "false".

(** What [Signature] writes to the hash. *)
Definition sig_text (spec : MirrorExportSpec) (mirrorSpecJSON : string) : string :=
  sig_line "mirror" mirrorSpecJSON +:+ sig_line "dest.registry" (xe_Registry spec) +:+ sig_line "dest.insecure" (print_bool (xe_Insecure spec))
  +:+ match xe_Source spec with
      | None => ""
      | Some src => sig_line "src.registry" (xs_Registry src) +:+ sig_line "src.insecure" (print_bool (xs_Insecure src))
                    +:+ sig_line "src.authSecret" (xs_AuthSecret src)
      end.

Definition Signature (spec : MirrorExportSpec) (mirrorSpecJSON : string) : string :=
  take_bytes 16 (sha256_hex (sig_text spec mirrorSpecJSON)).

(** The part of the environment, the mounts and the volumes a source adds. *)
Definition source_env (src : MirrorExportSource) : list EnvVar :=
  (if String.eqb (xs_AuthSecret src) "" then [] else [mkEnvVar EnvDockerConfig "/var/run/secrets/registry"])
  ++ match xs_CABundle src with
     | None => []
     | Some ca => [mkEnvVar "SSL_CERT_FILE" ("/run/secrets/ca/" +:+ ca_key ca)]
     end
  ++ (if xs_Insecure src && negb (String.eqb (xs_Registry src) "") then [mkEnvVar EnvInsecureHosts (hostOnly (xs_Registry src))] else []).
Definition source_mounts (src : MirrorExportSource) : list VolumeMount :=
  (if String.eqb (xs_AuthSecret src) "" then [] else [mkVolumeMount "registry-auth" "/var/run/secrets/registry"])
  ++ match xs_CABundle src with None => [] | Some _ => [mkVolumeMount "ca-bundle" "/run/secrets/ca"] end.
Definition source_volumes (src : MirrorExportSource) : list Volume :=
  (if String.eqb (xs_AuthSecret src) "" then []
   else [mkVolume "registry-auth" (VSecret (xs_AuthSecret src) [(".dockerconfigjson", "config.json")])])
  ++ match xs_CABundle src with
     | None => []
     | Some ca => [mkVolume "ca-bundle" (VConfigMap (ca_ConfigMapName ca) [(ca_key ca, ca_key ca)])]
     end.

Definition buildJobSpec (name : string) (spec : MirrorExportSpec) (serviceAccountName artifactsConfigMap mirrorSpecJSON : string) : ExportJob :=
  mkExportJob (Signature spec mirrorSpecJSON) serviceAccountName
    ([mkEnvVar EnvMirrorSpec mirrorSpecJSON; mkEnvVar EnvDestRegistry (xe_Registry spec); mkEnvVar EnvExportName name;
      mkEnvVar EnvArtifactsConfigMap artifactsConfigMap; mkEnvVar EnvPodNamespace namespace]
     ++ from_option source_env [] (xe_Source spec))
    ([mkVolumeMount "blob-buffer" "/tmp/blob-buffer"] ++ from_option source_mounts [] (xe_Source spec))
    ([mkVolume "blob-buffer" (VEmptyDir "10Gi")] ++ from_option source_volumes [] (xe_Source spec))
    0 0 0 false.
End job.

(** ** The binary (cmd/export-builder) *)

Record exportConfig := mkExportConfig {
  xc_Mirror : Mirror; xc_Registry : string; xc_Name : string; xc_ConfigMap : string; xc_Namespace : string;
  xc_insecureHosts : list string; xc_authDir : string;
}.

Section binary.
Context `{J : ExportJSON} `{Y : Marshal}.

(** What [main] reads; [None] is exit code 1. *)
Definition export_config (env : list EnvVar) : option exportConfig :=
  let mirrorSpecRaw := getenv env EnvMirrorSpec in
  let destRegistry := getenv env EnvDestRegistry in
  let exportName := getenv env EnvExportName in
  let artifactsConfigMap := getenv env EnvArtifactsConfigMap in
  let namespace := getenv env EnvPodNamespace in
  if String.eqb mirrorSpecRaw "" || String.eqb destRegistry "" || String.eqb exportName "" || String.eqb artifactsConfigMap ""
     || String.eqb namespace "" then None
  else
    mirrorSpec ← parse_mirror mirrorSpecRaw;
    Some (mkExportConfig mirrorSpec destRegistry exportName artifactsConfigMap namespace (split_words (getenv env EnvInsecureHosts))
            (getenv env EnvDockerConfig)).

(** The data of the artifacts ConfigMap. *)
Definition artifacts (up : Upstream) (name namespace : string) (m : Mirror) (destRegistry : string) : option (gmap string string) :=
  let manifest := BuildManifest up m destRegistry in
  rendered ← RenderResources name namespace m manifest destRegistry;
  manifestJSON ← json_manifest manifest;
  buildSpecJSON ← json_buildspec (BuildSpecFor m destRegistry);
  Some (<["buildspec.json" := buildSpecJSON]> (<["manifest.json" := manifestJSON]> rendered)).

Definition with_data (data : gmap string string) (cm : ConfigMap) : ConfigMap :=
  mkConfigMap (cm_Annotations cm) (cm_digests cm) (cm_images_gz cm) (cm_images_plain cm) (cm_index_gz cm) (cm_index_plain cm) data
    (cm_owner cm).

Definition writeArtifacts (name : string) (data : gmap string string) : API unit :=
  cm ← api_get name;
  api_update name (with_data data cm).

(** [net]: upstream as the binary reaches it, by its insecure hosts and its
    credentials. *)
Definition export_main (net : list string → string → Upstream) (env : list EnvVar) : API unit :=
  match export_config env with
  | None => fail ErrOther
  | Some c =>
    match artifacts (net (xc_insecureHosts c) (xc_authDir c)) (xc_Name c) (xc_Namespace c) (xc_Mirror c) (xc_Registry c) with
    | None => fail ErrOther
    | Some data => writeArtifacts (xc_ConfigMap c) data
    end
  end.
End binary.

(** ** The controller *)

Definition ArtifactsConfigMapName (exportName : string) : string := exportName +:+ "-artifacts".
Definition exportServiceAccountName (exportName : string) : string := exportName +:+ "-export".

Inductive xerr := XApi (e : apiErr) | XText (msg : string).

Section controller.
Context `{Kube} `{J : ExportJSON} `{Sha : Sha256} (namespace : string) (err_text : apiErr → string) (now : Z).

Record EWorld := mkEWorld {
  ew_cluster : Cluster; ew_kube : kube; ew_jobs : gmap string ExportJob; ew_dfaults : list bool; ew_me : option MirrorExport;
}.

Abbreviation EX := (M EWorld xerr).

Definition set_ew_cluster (c : Cluster) (w : EWorld) : EWorld := mkEWorld c (ew_kube w) (ew_jobs w) (ew_dfaults w) (ew_me w).
Definition set_ew_kube (k : kube) (w : EWorld) : EWorld := mkEWorld (ew_cluster w) k (ew_jobs w) (ew_dfaults w) (ew_me w).
Definition set_ew_jobs (j : gmap string ExportJob) (w : EWorld) : EWorld := mkEWorld (ew_cluster w) (ew_kube w) j (ew_dfaults w) (ew_me w).
Definition set_ew_dfaults (l : list bool) (w : EWorld) : EWorld := mkEWorld (ew_cluster w) (ew_kube w) (ew_jobs w) l (ew_me w).
Definition set_ew_me (m : option MirrorExport) (w : EWorld) : EWorld := mkEWorld (ew_cluster w) (ew_kube w) (ew_jobs w) (ew_dfaults w) m.

Definition on_api {A} (m : API A) : EX A := λ w,
  let '(r, c) := m (ew_cluster w) in (match r with inl e => inl (XApi e) | inr a => inr a end, set_ew_cluster c w).
Definition on_objects {A} (m : M kube string A) : EX A := λ w,
  let '(r, k) := m (ew_kube w) in (match r with inl e => inl (XText e) | inr a => inr a end, set_ew_kube k w).

(** A call on the Jobs or on the MirrorExport: it draws a fault, then runs. *)
Definition x_call {A} (f : EWorld → (apiErr + A) * EWorld) : EX A := λ w,
  let cms := cl_cms (ew_cluster w) in
  match cl_faults (ew_cluster w) with
  | true :: fs => (inl (XApi ErrOther), set_ew_cluster (mkCluster cms fs) w)
  | fs =>
    let '(r, w) := f (set_ew_cluster (mkCluster cms (tail fs)) w) in (match r with inl e => inl (XApi e) | inr a => inr a end, w)
  end.
(** The same with the schedule of the deletion. *)
Definition d_call {A} (f : EWorld → (apiErr + A) * EWorld) : EX A := λ w,
  match ew_dfaults w with
  | true :: fs => (inl (XApi ErrOther), set_ew_dfaults fs w)
  | fs => let '(r, w) := f (set_ew_dfaults (tail fs) w) in (match r with inl e => inl (XApi e) | inr a => inr a end, w)
  end.

Definition find_job (name : string) (w : EWorld) : (apiErr + ExportJob) * EWorld :=
  (match ew_jobs w !! name with Some j => inr j | None => inl ErrNotFound end, w).
Definition remove_job (name : string) (w : EWorld) : (apiErr + unit) * EWorld :=
  match ew_jobs w !! name with Some _ => (inr tt, set_ew_jobs (delete name (ew_jobs w)) w) | None => (inl ErrNotFound, w) end.
Definition add_job (name : string) (j : ExportJob) (w : EWorld) : (apiErr + unit) * EWorld :=
  match ew_jobs w !! name with Some _ => (inl ErrAlreadyExists, w) | None => (inr tt, set_ew_jobs (<[name := j]> (ew_jobs w)) w) end.

Definition export_phase (j : ExportJob) : JobPhase :=
  if (0 <? ej_Succeeded j)%Z then JobPhaseSucceeded
  else if (0 <? ej_Active j)%Z then JobPhaseRunning
  else if (0 <? ej_Failed j)%Z then JobPhaseFailed
  else JobPhasePending.

Definition GetExportJobStatus (name : string) : EX JobPhase :=
  r ← attempt (x_call (find_job name));
  match r with
  | inl (XApi ErrNotFound) => mret JobPhaseNotFound
  | inl e => fail e
  | inr j => mret (export_phase j)
  end.

Definition ExportJobSignature (name : string) : EX string :=
  r ← attempt (x_call (find_job name));
  match r with
  | inl (XApi ErrNotFound) => mret ""
  | inl e => fail e
  | inr j => mret (ej_Signature j)
  end.

Definition DeleteExportJob (name : string) : EX unit :=
  r ← attempt (d_call (find_job name));
  match r with
  | inl (XApi ErrNotFound) => mret tt
  | inl e => fail e
  | inr _ => d_call (remove_job name)
  end.

Definition EnsureExportJob (me : MirrorExport) (serviceAccountName artifactsConfigMap mirrorSpecJSON : string) : EX unit :=
  let name := ExportJobName (me_Name me) in
  r ← attempt (x_call (find_job name));
  match r with
  | inr _ => mret tt
  | inl (XApi ErrNotFound) =>
    x_call (add_job name (buildJobSpec namespace (me_Name me) (me_Spec me) serviceAccountName artifactsConfigMap mirrorSpecJSON))
  | inl e => fail e
  end.

Definition export_rules (cmName : string) : list PolicyRule := [mkPolicyRule [""] ["configmaps"] [cmName] ["get"; "update"; "patch"]].

Definition ensureExportRBAC (me : MirrorExport) (saName cmName : string) : M kube string unit :=
  let ctl := SetControllerReference (me_Name me) in
  _ ← wrap "failed to create export ServiceAccount"
        (CreateOrUpdate ("ServiceAccount", namespace, saName) (mutate ctl None (λ _, Some BServiceAccount)));
  _ ← wrap "failed to create export Role"
        (CreateOrUpdate ("Role", namespace, saName) (mutate ctl None (λ _, Some (BRole (export_rules cmName)))));
  wrap "failed to create export RoleBinding"
    (CreateOrUpdate ("RoleBinding", namespace, saName) (mutate ctl None (λ _, Some (BRoleBinding saName [(saName, namespace)])))).

(** The labels of the ConfigMap are not part of the model; one that another
    controller owns is an error. *)
Definition ensureArtifactsConfigMap (me : MirrorExport) (name : string) : EX unit :=
  r ← attempt (on_api (api_get name));
  match r with
  | inl (XApi ErrNotFound) => on_api (api_create name (mkConfigMap ∅ None None None None None ∅ (Some (me_Name me))))
  | inl e => fail e
  | inr cm =>
    match cm_owner cm with
    | None => on_api (api_update name (mkConfigMap (cm_Annotations cm) (cm_digests cm) (cm_images_gz cm) (cm_images_plain cm)
                (cm_index_gz cm) (cm_index_plain cm) (cm_Data cm) (Some (me_Name me))))
    | Some o => if String.eqb o (me_Name me) then mret tt else fail (XText "already owned by another controller")
    end
  end.

Definition me_get : EX MirrorExport := x_call (λ w, (match ew_me w with Some me => inr me | None => inl ErrNotFound end, w)).

Definition with_export_status (st : MirrorExportStatus) (me : MirrorExport) : MirrorExport :=
  mkExport (me_Name me) (me_Generation me) (me_Spec me) st.
Definition me_status_update (st : MirrorExportStatus) : EX unit := x_call (λ w,
  match ew_me w with
  | Some me => (inr tt, set_ew_me (Some (with_export_status st me)) w)
  | None => (inl ErrNotFound, w)
  end).

Definition ready_status (me : MirrorExport) (status reason message : string) : MirrorExportStatus :=
  let st := me_Status me in
  mkExportStatus (setCondition now conditionTypeReady status reason message (me_Generation me) (xt_Conditions st))
    (xt_TotalImages st) (xt_ArtifactsConfigMap st) (xt_LastRenderedSignature st).

Definition x_text (e : xerr) : string := match e with XApi e => err_text e | XText msg => msg end.

(** [setCondition] with False, and the status written. *)
Definition not_ready (me : MirrorExport) (reason message : string) (after : Z) : EX (option Z) :=
  _ ← me_status_update (ready_status me ConditionFalse reason message); mret (Some after).

Definition recordSuccess (me : MirrorExport) (cmName sig : string) : EX unit :=
  cm ← on_api (api_get cmName);
  let total := match cm_Data cm !! "manifest.json" with
               | Some raw => match parse_manifest raw with Some mf => Z.of_nat (length (mf_Images mf)) | None => 0%Z end
               | None => 0%Z
               end in
  me_status_update
    (mkExportStatus (setCondition now conditionTypeReady ConditionTrue "Rendered" "content resolved and artifacts published" (me_Generation me)
       (xt_Conditions (me_Status me))) total cmName sig).

Definition export_second : Z := second_ns.

(** The Job for the current spec, created when there is none. *)
Definition report_phase (me : MirrorExport) (cmName sig : string) (phase : JobPhase) : EX (option Z) :=
  match phase with
  | JobPhaseSucceeded => _ ← recordSuccess me cmName sig; mret None
  | JobPhaseFailed => not_ready me "ExportBuildFailed" "export build Job failed; see Job/Pod logs for details" (60 * export_second)
  | _ => not_ready me "ExportBuildRunning" "export build Job is resolving content" (10 * export_second)
  end.

(** The phase of the Job, [JobPhaseNotFound] once a Job of another spec was
    deleted. *)
Definition current_phase (jobName sig : string) : EX JobPhase :=
  phase ← GetExportJobStatus jobName;
  if bool_decide (phase = JobPhaseNotFound) then mret phase
  else
    jobSig ← ExportJobSignature jobName;
    if String.eqb jobSig sig then mret phase else _ ← ignore (DeleteExportJob jobName); mret JobPhaseNotFound.

Definition render_export (me : MirrorExport) (mirrorSpecJSON saName cmName : string) : EX (option Z) :=
  let sig := Signature (me_Spec me) mirrorSpecJSON in
  let jobName := ExportJobName (me_Name me) in
  phase ← current_phase jobName sig;
  if bool_decide (phase = JobPhaseNotFound) && String.eqb (xt_LastRenderedSignature (me_Status me)) sig
     && negb (String.eqb (xt_ArtifactsConfigMap (me_Status me)) "") then mret None
  else if bool_decide (phase = JobPhaseNotFound) then
    _ ← EnsureExportJob me saName cmName mirrorSpecJSON;
    phase ← GetExportJobStatus jobName;
    report_phase me cmName sig phase
  else report_phase me cmName sig phase.

(** The result is the requeue delay, if one is asked for. *)
Definition Reconcile : EX (option Z) :=
  r ← attempt me_get;
  match r with
  | inl (XApi ErrNotFound) => mret None
  | inl e => fail e
  | inr me =>
    match json_mirror (xe_Mirror (me_Spec me)) with
    | None => fail (XText "marshal Mirror spec")
    | Some mirrorSpecJSON =>
      let cmName := ArtifactsConfigMapName (me_Name me) in
      let saName := exportServiceAccountName (me_Name me) in
      r ← attempt (on_objects (ensureExportRBAC me saName cmName));
      match r with
      | inl e => not_ready me "RBACFailed" (x_text e) (30 * export_second)
      | inr _ =>
        r ← attempt (ensureArtifactsConfigMap me cmName);
        match r with
        | inl e => not_ready me "ConfigMapFailed" ("failed to create artifacts ConfigMap: " +:+ x_text e) (30 * export_second)
        | inr _ => render_export me mirrorSpecJSON saName cmName
        end
      end
    end
  end.
End controller.

(** ** The system

    The reconciler, the user who edits the spec, and the Job with its pods. *)

Section system.
Context `{Kube} `{J : ExportJSON} `{Sha : Sha256} `{Y : Marshal} (namespace name : string) (err_text : apiErr → string).

Abbreviation jobName := (ExportJobName name).
Abbreviation cmName := (ArtifactsConfigMapName name).

(** The signature of a spec that can be marshalled. *)
Definition sig_of (spec : MirrorExportSpec) : option string := Signature spec <$> json_mirror (xe_Mirror spec).

Definition with_schedules (fs dfs : list bool) (w : EWorld) : EWorld :=
  set_ew_dfaults dfs (set_ew_cluster (mkCluster (cl_cms (ew_cluster w)) fs) w).
Definition with_spec (spec : MirrorExportSpec) (gen : Z) (me : MirrorExport) : MirrorExport := mkExport (me_Name me) gen spec (me_Status me).
Definition with_job_status (succeeded active failed : Z) (j : ExportJob) : ExportJob :=
  mkExportJob (ej_Signature j) (ej_ServiceAccountName j) (ej_Env j) (ej_Mounts j) (ej_Volumes j) succeeded active failed (ej_Wrote j).
Definition wrote (j : ExportJob) : ExportJob :=
  mkExportJob (ej_Signature j) (ej_ServiceAccountName j) (ej_Env j) (ej_Mounts j) (ej_Volumes j) (ej_Succeeded j) (ej_Active j) (ej_Failed j) true.

(** A state of the system: the cluster and the signatures the spec has had. *)
Abbreviation Sys := (EWorld * list string)%type.

Inductive xstep : Sys → Sys → Prop :=
(** A reconcile of which any call may fail, but not the deletion of a stale Job. *)
| x_reconcile now fs w hist :
    xstep (w, hist) (snd (Reconcile namespace err_text now (with_schedules fs [] w)), hist)
(** An edit that keeps the signature or makes one the spec never had. *)
| x_edit spec gen w hist me s s' :
    ew_me w = Some me → sig_of (me_Spec me) = Some s → sig_of spec = Some s' → s' = s ∨ s' ∉ hist →
    xstep (w, hist) (set_ew_me (Some (with_spec spec gen me)) w, s' :: hist)
(** A pod of the Job runs to its end. *)
| x_pod net fs w hist j c :
    ew_jobs w !! jobName = Some j → export_main net (ej_Env j) (mkCluster (cl_cms (ew_cluster w)) fs) = (inr tt, c) →
    xstep (w, hist) (set_ew_jobs (<[jobName := wrote j]> (ew_jobs w)) (set_ew_cluster c w), hist)
(** The Job controller updates the status; a Job succeeds by a pod that does. *)
| x_status succeeded active failed w hist j :
    ew_jobs w !! jobName = Some j → ((0 < succeeded)%Z → ej_Wrote j = true) →
    xstep (w, hist) (set_ew_jobs (<[jobName := with_job_status succeeded active failed j]> (ew_jobs w)) w, hist)
(** The Job is removed after its TTL, or by anybody else. *)
| x_gone w hist :
    xstep (w, hist) (set_ew_jobs (delete jobName (ew_jobs w)) w, hist)
(** Others change whatever they like, but not the export, its Job and its artifacts. *)
| x_others w w' hist :
    ew_me w' = ew_me w → ew_jobs w' !! jobName = ew_jobs w !! jobName → ew_dfaults w' = ew_dfaults w →
    cl_cms (ew_cluster w') !! cmName = cl_cms (ew_cluster w) !! cmName → xstep (w, hist) (w', hist).

(** A MirrorExport that was just created. *)
Definition fresh_export (w : EWorld) (hist : list string) : Prop :=
  ∃ me s, ew_me w = Some me ∧ me_Name me = name ∧ sig_of (me_Spec me) = Some s ∧ s ∈ hist ∧
    xt_ArtifactsConfigMap (me_Status me) = "" ∧ ew_jobs w !! jobName = None.

(** The ConfigMap holds what a spec with signature [s] renders to. *)
Definition holds_render (s : string) (cms : option ConfigMap) : Prop :=
  ∃ spec up data cm, sig_of spec = Some s ∧ artifacts up name namespace (xe_Mirror spec) (xe_Registry spec) = Some data ∧
    cms = Some cm ∧ cm_Data cm = data.
End system.

(** * Lemmas *)

(** ** What the binary reads *)

Section readback.
Context `{J : ExportJSON} `{Sha : Sha256} (namespace : string).

Lemma source_env_absent src n : n ∉ [EnvDockerConfig; "SSL_CERT_FILE"; EnvInsecureHosts] → Forall (λ e, ev_Name e ≠ n) (source_env src).
Proof.
  intros Hn. unfold source_env. rewrite !Forall_app. repeat case_match; split_and!; repeat constructor; cbn; intros <-; apply Hn; set_solver.
Qed.

Lemma job_env_fixed name spec sa cm js n :
  n ∉ [EnvDockerConfig; "SSL_CERT_FILE"; EnvInsecureHosts] →
  getenv (ej_Env (buildJobSpec namespace name spec sa cm js)) n =
  getenv [mkEnvVar EnvMirrorSpec js; mkEnvVar EnvDestRegistry (xe_Registry spec); mkEnvVar EnvExportName name;
          mkEnvVar EnvArtifactsConfigMap cm; mkEnvVar EnvPodNamespace namespace] n.
Proof.
  intros Hn. unfold buildJobSpec. cbn [ej_Env]. change (getenv ?l n) with (getenv_from "" l n). rewrite getenv_from_app.
  apply getenv_from_absent. destruct (xe_Source spec); [by apply source_env_absent|constructor].
Qed.

(** Where the binary may connect without TLS, and with which credentials. *)
Definition job_hosts (spec : MirrorExportSpec) : list string :=
  match xe_Source spec with
  | Some src => if xs_Insecure src && negb (String.eqb (xs_Registry src) "") then split_words (hostOnly (xs_Registry src)) else []
  | None => []
  end.
Definition job_authDir (spec : MirrorExportSpec) : string :=
  match xe_Source spec with Some src => if String.eqb (xs_AuthSecret src) "" then "" else "/var/run/secrets/registry" | None => "" end.

Lemma job_env_source name spec sa cm js :
  let env := ej_Env (buildJobSpec namespace name spec sa cm js) in
  split_words (getenv env EnvInsecureHosts) = job_hosts spec ∧ getenv env EnvDockerConfig = job_authDir spec.
Proof.
  cbv zeta. unfold buildJobSpec, job_hosts, job_authDir. cbn [ej_Env]. change (getenv ?l ?n) with (getenv_from "" l n). rewrite !getenv_from_app.
  destruct (xe_Source spec) as [src|]; [|done]. cbn [from_option]. unfold source_env. rewrite !getenv_from_app.
  destruct (String.eqb (xs_AuthSecret src) ""), (xs_CABundle src), (xs_Insecure src && negb (String.eqb (xs_Registry src) "")); done.
Qed.

Lemma export_config_job name spec sa cm js c :
  (∀ m s, json_mirror m = Some s → parse_mirror s = Some m) → json_mirror (xe_Mirror spec) = Some js →
  export_config (ej_Env (buildJobSpec namespace name spec sa cm js)) = Some c →
  c = mkExportConfig (xe_Mirror spec) (xe_Registry spec) name cm namespace (job_hosts spec) (job_authDir spec).
Proof.
  intros Hlaw Hjs. unfold export_config. destruct (job_env_source name spec sa cm js) as [-> ->].
  rewrite !job_env_fixed by (unfold EnvDockerConfig, EnvInsecureHosts; set_solver). cbn.
  case_match; [done|]. rewrite (Hlaw _ _ Hjs). cbn. by intros [= <-].
Qed.

Lemma export_config_reads name spec js :
  json_mirror (xe_Mirror spec) = Some js → js ≠ "" → parse_mirror js = Some (xe_Mirror spec) → xe_Registry spec ≠ "" → name ≠ "" → namespace ≠ "" →
  let cm := ArtifactsConfigMapName name in
  export_config (ej_Env (buildJobSpec namespace name spec (exportServiceAccountName name) cm js)) =
  Some (mkExportConfig (xe_Mirror spec) (xe_Registry spec) name cm namespace (job_hosts spec) (job_authDir spec)).
Proof.
  intros Hjs Hne Hp Hr Hn Hns cm. unfold export_config. destruct (job_env_source name spec (exportServiceAccountName name) cm js) as [-> ->].
  rewrite !job_env_fixed by (unfold EnvDockerConfig, EnvInsecureHosts; set_solver). cbn.
  assert (Hcm : String.eqb cm "" = false) by (apply String.eqb_neq; unfold cm, ArtifactsConfigMapName; by destruct name).
  apply String.eqb_neq in Hne, Hr, Hn, Hns. rewrite Hne, Hr, Hn, Hcm, Hns. cbn. by rewrite Hp.
Qed.
End readback.

(** ** The observed part of a state *)

Section runs.
Context `{Kube} `{J : ExportJSON} `{Sha : Sha256} `{Y : Marshal} (namespace name : string) (err_text : apiErr → string).
Context (json_law : ∀ m s, json_mirror m = Some s → parse_mirror s = Some m).

Record View := mkView { v_cm : option ConfigMap; v_job : option ExportJob; v_me : option MirrorExport; v_dfaults : list bool }.
Definition view (w : EWorld) : View :=
  mkView (cl_cms (ew_cluster w) !! ArtifactsConfigMapName name) (ew_jobs w !! ExportJobName name) (ew_me w) (ew_dfaults w).

Abbreviation leads := (Effects.leads view).
Abbreviation quiet := (Effects.quiet view).

Lemma x_call_cases {A} (f : EWorld → (apiErr + A) * EWorld) w :
  (fst (x_call f w) = inl (XApi ErrOther) ∧ view (snd (x_call f w)) = view w) ∨
  ∃ w1, view w1 = view w ∧ fst (x_call f w) = match fst (f w1) with inl e => inl (XApi e) | inr a => inr a end ∧ snd (x_call f w) = snd (f w1).
Proof.
  unfold x_call. destruct (cl_faults (ew_cluster w)) as [|[] fs]; [right|by left|right];
    match goal with |- context [f ?w1] => exists w1; split; [done|]; by destruct (f w1) end.
Qed.

Lemma quiet_x_call {A} (f : EWorld → (apiErr + A) * EWorld) : (∀ w, view (snd (f w)) = view w) → quiet (x_call f).
Proof. intros Hf w. destruct (x_call_cases f w) as [[_ Hv]|(w1 & Hv & _ & ->)]; [done|]. by rewrite Hf. Qed.

Lemma quiet_on_objects {A} (m : M kube string A) : quiet (on_objects m).
Proof. intros w. unfold on_objects. by destruct (m (ew_kube w)). Qed.

Lemma quiet_xget k : quiet (on_api (api_get k)).
Proof.
  intros w. unfold on_api. pose proof (api_get_cms k (ew_cluster w)) as Hc. destruct (api_get k (ew_cluster w)) as [r c].
  unfold view. cbn in *. by rewrite Hc.
Qed.

Lemma quiet_me_get : quiet me_get.
Proof. by apply quiet_x_call. Qed.

(** ** The status of the Job *)

Abbreviation jobName := (ExportJobName name).
Abbreviation cmName := (ArtifactsConfigMapName name).

Lemma find_job_outcome (P : View → Prop) :
  leads P (x_call (find_job jobName)) (λ r x, P x ∧
    match r with inl (XApi ErrNotFound) => v_job x = None | inl _ => True | inr j => v_job x = Some j end).
Proof.
  intros w HP. destruct (x_call_cases (find_job jobName) w) as [[-> Hv]|(w1 & Hv & -> & ->)]; [by rewrite Hv|].
  cbn [find_job fst snd]. rewrite Hv. split; [done|]. rewrite <- Hv. cbn [v_job view]. by destruct (ew_jobs w1 !! jobName).
Qed.

(** What a phase says of the Job. *)
Definition phase_of (p : JobPhase) (x : View) : Prop :=
  match v_job x with None => p = JobPhaseNotFound | Some j => p = export_phase j end.

Lemma GetExportJobStatus_outcome (P : View → Prop) :
  leads P (GetExportJobStatus jobName) (or_error P (λ p x, P x ∧ phase_of p x)).
Proof.
  unfold GetExportJobStatus. eapply leads_bind.
  { eapply leads_attempt; [apply find_job_outcome|]. intros r x Hr. exact Hr. }
  intros [[[]|]|j]; first [apply leads_fail; by intros x [HP _]|apply leads_ret]; intros x [HP Hj]; cbn; unfold phase_of; by rewrite Hj.
Qed.

Lemma ExportJobSignature_outcome (P : View → Prop) :
  leads P (ExportJobSignature jobName) (or_error P (λ s x, P x ∧ match v_job x with None => s = "" | Some j => s = ej_Signature j end)).
Proof.
  unfold ExportJobSignature. eapply leads_bind.
  { eapply leads_attempt; [apply find_job_outcome|]. intros r x Hr. exact Hr. }
  intros [[[]|]|j]; first [apply leads_fail; by intros x [HP _]|apply leads_ret]; intros x [HP Hj]; cbn; by rewrite Hj.
Qed.

(** ** The invariant *)

Context (hist : list string).

(** The Job was created for a spec of the history; once a pod of it has written,
    the ConfigMap holds what that spec renders to. *)
Definition job_ok (cm : option ConfigMap) (j : ExportJob) : Prop :=
  ∃ spec js, json_mirror (xe_Mirror spec) = Some js ∧ ej_Signature j = Signature spec js ∧ ej_Signature j ∈ hist ∧
    ej_Env j = ej_Env (buildJobSpec namespace name spec (exportServiceAccountName name) cmName js) ∧
    ((0 < ej_Succeeded j)%Z → ej_Wrote j = true) ∧ (ej_Wrote j = true → holds_render namespace name (ej_Signature j) cm).

Definition inv_at (me : MirrorExport) (s : string) (cm : option ConfigMap) (job : option ExportJob) : Prop :=
  me_Name me = name ∧ sig_of (me_Spec me) = Some s ∧ s ∈ hist ∧ (∀ j, job = Some j → job_ok cm j) ∧
  (xt_ArtifactsConfigMap (me_Status me) ≠ "" →
     xt_ArtifactsConfigMap (me_Status me) = cmName ∧ xt_LastRenderedSignature (me_Status me) ∈ hist ∧
     (xt_LastRenderedSignature (me_Status me) = s → holds_render namespace name s cm ∧ ∀ j, job = Some j → ej_Signature j = s)).

Definition inv (x : View) : Prop := ∃ me s, v_me x = Some me ∧ inv_at me s (v_cm x) (v_job x).

(** During a reconcile of [me]. *)
Definition during (me : MirrorExport) (s : string) (x : View) : Prop :=
  v_me x = Some me ∧ v_dfaults x = [] ∧ inv_at me s (v_cm x) (v_job x).

Lemma during_inv me s x : during me s x → inv x.
Proof. intros (? & _ & ?). by exists me, s. Qed.

Lemma holds_render_data s cm cm' : cm_Data cm = cm_Data cm' → holds_render namespace name s (Some cm) → holds_render namespace name s (Some cm').
Proof. intros E (spec & up & data & c & Hs & Ha & [= ->] & Hd). exists spec, up, data, cm'. by rewrite <- E. Qed.

(** Writing the ConfigMap without touching its data. *)
Lemma inv_at_cm me s cm cm' job :
  (∀ s, holds_render namespace name s cm → holds_render namespace name s cm') → inv_at me s cm job → inv_at me s cm' job.
Proof.
  intros Hm (Hn & Hs & Hin & Hj & Hst). split_and!; [done..| |].
  - intros j Ej. destruct (Hj j Ej) as (spec & js & ? & ? & ? & ? & ? & Hw). exists spec, js. split_and!; auto.
  - intros Hne. destruct (Hst Hne) as (? & ? & Hl). split_and!; [done..|]. intros El. destruct (Hl El). split; auto.
Qed.

Lemma during_cm me s cm' w w' :
  during me s (view w) → ew_me w' = ew_me w → ew_jobs w' = ew_jobs w → ew_dfaults w' = ew_dfaults w →
  cl_cms (ew_cluster w') !! cmName = cm' →
  (∀ s, holds_render namespace name s (cl_cms (ew_cluster w) !! cmName) → holds_render namespace name s cm') → during me s (view w').
Proof.
  intros (Hme & Hd & Hi) E1 E2 E3 E4 Hm. unfold during, view in *. cbn in *. rewrite E1, E2, E3, E4. split_and!; [done..|].
  by eapply inv_at_cm.
Qed.

Lemma ensureArtifacts_during me s :
  leads (during me s) (ensureArtifactsConfigMap me cmName) (λ _, during me s).
Proof.
  intros w HP. unfold ensureArtifactsConfigMap. rewrite attempt_bind.
  pose proof (quiet_xget cmName w) as Hq.
  assert (Hg : match fst (on_api (api_get cmName) w) with inr cm => cl_cms (ew_cluster w) !! cmName = Some cm | inl (XApi ErrNotFound) => cl_cms (ew_cluster w) !! cmName = None | _ => True end).
  { unfold on_api, api_get, call. destruct (cl_faults (ew_cluster w)) as [|[] fs]; cbn; [|done|]; by destruct (cl_cms (ew_cluster w) !! cmName). }
  destruct (fst (on_api (api_get cmName) w)) as [[[]|]|cm]; try (cbn; by rewrite Hq).
  - set (w1 := snd (on_api (api_get cmName) w)) in *. assert (HP1 : during me s (view w1)) by by rewrite Hq.
    assert (E1 : cl_cms (ew_cluster w1) !! cmName = None) by by injection Hq as ->.
    unfold on_api, api_create, call. destruct (cl_faults (ew_cluster w1)) as [|[] fs]; cbn [fst snd]; rewrite ?E1; cbn [fst snd];
      (eapply during_cm; [exact HP1|done|done|done|reflexivity|]); intros s'; rewrite E1; intros (? & ? & ? & ? & _ & _ & Hc & _); discriminate Hc.
  - set (w1 := snd (on_api (api_get cmName) w)) in *. assert (HP1 : during me s (view w1)) by by rewrite Hq.
    assert (E1 : cl_cms (ew_cluster w1) !! cmName = Some cm) by by injection Hq as ->.
    destruct (cm_owner cm) as [o|]; [by destruct (String.eqb o (me_Name me))|].
    unfold on_api, api_update, call. destruct (cl_faults (ew_cluster w1)) as [|[] fs]; cbn [fst snd]; rewrite ?E1; cbn [fst snd];
      (eapply during_cm; [exact HP1|done|done|done|reflexivity|]); intros s'; rewrite E1; cbn; rewrite ?lookup_insert_eq, ?E1; first [done|by apply holds_render_data].
Qed.

Lemma d_call_ok {A} (f : EWorld → (apiErr + A) * EWorld) w :
  ew_dfaults w = [] → d_call f w = (match fst (f w) with inl e => inl (XApi e) | inr a => inr a end, snd (f w)).
Proof.
  intros E. unfold d_call. rewrite E. assert (set_ew_dfaults (tail []) w = w) as -> by (destruct w; cbn in *; by subst). by destruct (f w).
Qed.

Lemma inv_at_no_job me s cm job : inv_at me s cm job → inv_at me s cm None.
Proof.
  intros (Hn & Hs & Hin & _ & Hst). split_and!; [done..| |]; [done|].
  intros Hne. destruct (Hst Hne) as (? & ? & Hl). split_and!; [done..|]. intros El. destruct (Hl El). done.
Qed.

Lemma DeleteExportJob_during me s :
  leads (during me s) (ignore (DeleteExportJob jobName)) (λ r x, r = inr tt ∧ during me s x ∧ v_job x = None).
Proof.
  intros w HP. rewrite ignore_eq. cbn [fst snd]. destruct HP as (Hme & Hd & Hi). unfold DeleteExportJob. rewrite attempt_bind, d_call_ok by exact Hd.
  cbn [find_job fst snd]. unfold view in Hme, Hd, Hi. cbn in Hme, Hd, Hi. destruct (ew_jobs w !! jobName) as [j|] eqn:Ej; cbn [fst snd].
  - rewrite d_call_ok by exact Hd. unfold remove_job. rewrite Ej. cbn. unfold during, view. cbn. rewrite lookup_delete_eq.
    split_and!; [done..| |done]. by eapply inv_at_no_job.
  - cbn. unfold during, view. cbn. rewrite Ej. by split_and!.
Qed.

(** The Job is that of the current spec. *)
Definition current (s : string) (p : JobPhase) (x : View) : Prop :=
  match v_job x with
  | None => p = JobPhaseNotFound
  | Some j => ej_Signature j = s ∧ (p = JobPhaseSucceeded → (0 < ej_Succeeded j)%Z) ∧ p ≠ JobPhaseNotFound
  end.

Lemma phase_current s p x : phase_of p x → (∀ j, v_job x = Some j → ej_Signature j = s) → current s p x.
Proof.
  unfold phase_of, current. destruct (v_job x) as [j|]; [|done]. intros -> Hs. split; [by apply Hs|]. unfold export_phase.
  split; repeat (case_match; try done). intros _. by apply Z.ltb_lt.
Qed.

Lemma current_phase_during me s :
  leads (during me s) (current_phase jobName s) (or_error (during me s) (λ p x, during me s x ∧ current s p x)).
Proof.
  unfold current_phase. eapply leads_bind; [apply GetExportJobStatus_outcome|]. intros phase.
  case_bool_decide as Ep.
  { apply leads_ret. intros x [HP Hph]. split; [done|]. subst phase. apply phase_current; [done|]. unfold phase_of in Hph.
    intros j Ej. rewrite Ej in Hph. unfold export_phase in Hph. repeat case_match; done. }
  eapply leads_bind; [|intros sig].
  { eapply leads_weaken; [apply (ExportJobSignature_outcome (λ x, during me s x ∧ phase_of phase x))|done|].
    intros [e|sig] x; cbn; [by intros [? _]|]. intros Hx. exact Hx. }
  destruct (String.eqb_spec sig s) as [->|_].
  - apply leads_ret. intros x [[HP Hph] Hs]. split; [done|]. apply phase_current; [done|]. intros j Ej. by rewrite Ej in Hs.
  - eapply leads_bind; [|intros []].
    { eapply leads_weaken; [apply DeleteExportJob_during|by intros x [[? _] _]|]. intros [e|u] x (Hr & HP & Hj); [discriminate Hr|exact (conj HP Hj)]. }
    apply leads_ret. intros x [HP Hj]. split; [done|]. unfold current. by rewrite Hj.
Qed.

(** Recording and reporting. *)
Lemma me_status_inv me s st :
  leads (λ x, during me s x ∧ inv_at (with_export_status st me) s (v_cm x) (v_job x)) (me_status_update st) (λ _, inv).
Proof.
  intros w [HP Hi]. unfold me_status_update. pose proof (during_inv _ _ _ HP) as Hinv. destruct HP as (Hme & _ & _).
  match goal with |- context [x_call ?f] => destruct (x_call_cases f w) as [[_ ->]|(w1 & Hv & _ & ->)] end; [done|].
  assert (E : ew_me w1 = Some me) by (rewrite <- Hv in Hme; exact Hme). rewrite E. cbn [snd].
  exists (with_export_status st me), s. split; [done|]. rewrite <- Hv in Hi. exact Hi.
Qed.

Lemma not_ready_inv now me s reason message after : leads (during me s) (not_ready now me reason message after) (λ _, inv).
Proof.
  unfold not_ready. apply leads_then_ret. eapply leads_weaken; [apply (me_status_inv me s)| |done].
  intros x HP. split; [done|]. destruct HP as (_ & _ & Hi). exact Hi.
Qed.

Lemma recordSuccess_inv now me s j :
  leads (λ x, during me s x ∧ v_job x = Some j ∧ ej_Signature j = s ∧ (0 < ej_Succeeded j)%Z) (recordSuccess now me cmName s) (λ _, inv).
Proof.
  unfold recordSuccess. eapply leads_bind.
  { eapply leads_weaken; [apply leads_quiet, quiet_xget|intros x Hx; exact Hx|]. intros [e|cm] x Hx; [|exact Hx]. by eapply during_inv, Hx. }
  intros cm. cbv zeta. eapply leads_weaken; [apply (me_status_inv me s)| |done].
  intros x (HP & Ej & Es & Hsucc). split; [done|]. destruct HP as (_ & _ & Hn & Hs & Hin & Hj & _). split_and!; [done..|]. cbn. intros _.
  split_and!; [done..|]. intros _. destruct (Hj j Ej) as (spec & js & _ & _ & _ & _ & Hw & Hr). rewrite <- Es. split; [by apply Hr, Hw|].
  intros j' Ej'. congruence.
Qed.

Lemma report_phase_inv now me s p :
  leads (λ x, during me s x ∧ current s p x) (report_phase now me cmName s p) (λ _, inv).
Proof.
  destruct p; cbn [report_phase]; try (eapply leads_weaken; [apply (not_ready_inv now me s)|by intros x [? _]|done]).
  intros w [HP Hc]. unfold current in Hc. destruct (v_job (view w)) as [j|] eqn:Ej; [|done]. destruct Hc as (Es & Hs & _).
  assert (Hl : leads (λ x, during me s x ∧ v_job x = Some j ∧ ej_Signature j = s ∧ (0 < ej_Succeeded j)%Z)
    (_ ← recordSuccess now me cmName s; mret None) (λ _ : xerr + option Z, inv)).
  { by apply leads_then_ret, recordSuccess_inv. }
  apply Hl. split_and!; auto.
Qed.

Lemma EnsureExportJob_during me s js :
  json_mirror (xe_Mirror (me_Spec me)) = Some js → Signature (me_Spec me) js = s →
  leads (λ x, during me s x ∧ v_job x = None) (EnsureExportJob namespace me (exportServiceAccountName name) cmName js)
    (or_error (during me s) (λ _ x, during me s x ∧ ∀ j, v_job x = Some j → ej_Signature j = s)).
Proof.
  intros Hjs Hsig. apply (leads_pure _ (me_Name me = name)); [by intros x [(_ & _ & ? & _) _]|intros Hname].
  unfold EnsureExportJob. rewrite Hname.
  eapply leads_bind.
  { eapply leads_attempt; [apply find_job_outcome|]. intros r x Hr. exact Hr. }
  intros [[[]|]|j]; try (apply leads_fail; by intros x [[? _] _]).
  2: { apply leads_ret. intros x [[HP Hnone] Hj]. congruence. }
  intros w [[HP Hnone] _].
  match goal with |- context [x_call ?f] => destruct (x_call_cases f w) as [[-> ->]|(w1 & Hv & -> & ->)] end; [done|].
  rewrite <- Hv in HP, Hnone. unfold add_job. cbn in Hnone. rewrite Hnone. cbn [fst snd or_error].
  destruct HP as (Hme & Hd & Hn & Hs & Hin & _ & Hst). unfold during, view, inv_at. cbn in *. rewrite lookup_insert_eq. split_and!; [done..| | |].
  - intros j [= <-]. exists (me_Spec me), js. cbn. rewrite Hsig. split_and!; try done.
  - intros Hne. destruct (Hst Hne) as (? & ? & Hl). split_and!; [done..|]. intros El. destruct (Hl El) as [? _]. split; [done|]. intros j [= <-]. done.
  - by intros j [= <-].
Qed.

Lemma render_export_inv now me s js :
  json_mirror (xe_Mirror (me_Spec me)) = Some js → Signature (me_Spec me) js = s →
  leads (during me s) (render_export namespace now me js (exportServiceAccountName name) cmName) (λ _, inv).
Proof.
  intros Hjs Hsig. apply (leads_pure _ (me_Name me = name)); [by intros x (_ & _ & ? & _)|intros Hname].
  unfold render_export. rewrite Hname, Hsig.
  eapply leads_bind.
  { eapply leads_weaken; [apply current_phase_during|done|]. intros [e|p] x Hx; [by eapply during_inv|exact Hx]. }
  intros p. destruct (bool_decide _ && _ && _); [apply leads_ret; intros x [Hx _]; by eapply during_inv|].
  case_bool_decide as Ep; [|by apply report_phase_inv].
  eapply leads_bind; [|intros []].
  { eapply leads_weaken; [apply (EnsureExportJob_during me s js Hjs Hsig)| |].
    - intros x [Hx Hc]. split; [done|]. unfold current in Hc. subst p. by destruct (v_job x) as [j|]; [destruct Hc as (_ & _ & ?)|].
    - intros [e|u] x Hx; [by eapply during_inv|exact Hx]. }
  eapply leads_bind; [|intros phase].
  { eapply leads_weaken; [apply (GetExportJobStatus_outcome (λ x, during me s x ∧ ∀ j, v_job x = Some j → ej_Signature j = s))|done|].
    intros [e|ph] x Hx; [by eapply during_inv, Hx|exact Hx]. }
  eapply leads_weaken; [apply report_phase_inv| |done]. intros x [[Hx Hs] Hph]. split; [done|]. by apply phase_current.
Qed.

Lemma Reconcile_inv now w : inv (view w) → ew_dfaults w = [] → inv (view (snd (Reconcile namespace err_text now w))).
Proof.
  intros (me & s & Hme & Hi) Hd. unfold Reconcile. rewrite attempt_bind.
  assert (HP : during me s (view w)) by by split_and!.
  pose proof (quiet_me_get w) as Hq. rewrite <- Hq in HP.
  assert (Hr : fst (me_get w) = inl (XApi ErrOther) ∨ fst (me_get w) = inr me).
  { unfold me_get. match goal with |- context [x_call ?f] => destruct (x_call_cases f w) as [[-> _]|(w1 & Hv & -> & _)] end; [by left|right].
    assert (E : ew_me w1 = Some me) by (rewrite <- Hv in Hme; exact Hme). by rewrite E. }
  destruct Hr as [->| ->]; [by eapply during_inv|]. destruct Hi as (Hname & Hs & _).
  clear Hq. generalize dependent (snd (me_get w)). clear w Hme Hd. intros w HP. unfold sig_of in Hs. destruct (json_mirror _) as [js|] eqn:Ejs; [|done]. cbn in Hs. injection Hs as Hsig.
  cbv zeta. rewrite Hname. rewrite attempt_bind.
  pose proof (quiet_on_objects (ensureExportRBAC namespace me (exportServiceAccountName name) cmName) w) as Hq. rewrite <- Hq in HP.
  destruct (fst (on_objects _ w)) as [e|[]]; [by apply (not_ready_inv now me s)|]. clear Hq.
  generalize dependent (snd (on_objects (ensureExportRBAC namespace me (exportServiceAccountName name) cmName) w)). clear w. intros w HP. rewrite attempt_bind. pose proof (ensureArtifacts_during me s w HP) as HP2.
  destruct (fst (ensureArtifactsConfigMap me cmName w)) as [e|[]]; [by apply (not_ready_inv now me s)|by apply (render_export_inv now me s js)].
Qed.
End runs.

(** ** Steps *)

Section steps.
Context `{Kube} `{J : ExportJSON} `{Sha : Sha256} `{Y : Marshal} (namespace name : string) (err_text : apiErr → string).
Context (json_law : ∀ m s, json_mirror m = Some s → parse_mirror s = Some m).

Abbreviation inv := (inv namespace name).
Abbreviation jobName := (ExportJobName name).
Abbreviation cmName := (ArtifactsConfigMapName name).

Lemma job_ok_mono hist hist' cm j : hist ⊆ hist' → job_ok namespace name hist cm j → job_ok namespace name hist' cm j.
Proof. intros Hh (spec & js & ? & ? & Hin & ?). exists spec, js. split_and!; try done; [by apply Hh|naive_solver..]. Qed.

Lemma writeArtifacts_ok k data c c' :
  writeArtifacts k data c = (inr tt, c') → ∃ cm, cl_cms c !! k = Some cm ∧ cl_cms c' = <[k := with_data data cm]> (cl_cms c).
Proof.
  unfold writeArtifacts. rewrite bind_eq. pose proof (api_get_cms k c) as Hc.
  assert (Hg : ∀ cm, fst (api_get k c) = inr cm → cl_cms c !! k = Some cm).
  { unfold api_get, call. destruct (cl_faults c) as [|[] fs]; cbn; [|done|]; destruct (cl_cms c !! k); cbn; congruence. }
  destruct (fst (api_get k c)) as [e|cm]; [done|]. specialize (Hg cm eq_refl). unfold api_update, call. rewrite Hc.
  destruct (cl_faults (snd (api_get k c))) as [|[] fs]; [|done|]; rewrite Hg; intros [= <-]; by exists cm.
Qed.

Lemma pod_renders net spec js sa env fs cms c :
  json_mirror (xe_Mirror spec) = Some js → env = ej_Env (buildJobSpec namespace name spec sa cmName js) →
  export_main net env (mkCluster cms fs) = (inr tt, c) → holds_render namespace name (Signature spec js) (cl_cms c !! cmName).
Proof.
  intros Hjs -> Hm. unfold export_main in Hm. destruct (export_config _) as [cfg|] eqn:Ec; [|done].
  apply (export_config_job namespace name spec sa cmName js cfg json_law Hjs) in Ec as ->. cbn in Hm.
  destruct (artifacts _ _ _ _ _) as [data|] eqn:Ea; [|done]. apply writeArtifacts_ok in Hm as (cm & _ & ->). rewrite lookup_insert_eq.
  eexists spec, _, data, _. split_and!; [by unfold sig_of; rewrite Hjs|exact Ea|reflexivity|done].
Qed.

Lemma inv_job hist w j j' cms :
  inv hist (view name w) → ew_jobs w !! jobName = Some j → ej_Signature j' = ej_Signature j → job_ok namespace name hist cms j' →
  (∀ s, s = ej_Signature j → holds_render namespace name s (cl_cms (ew_cluster w) !! cmName) → holds_render namespace name s cms) →
  inv hist (mkView cms (Some j') (ew_me w) (ew_dfaults w)).
Proof.
  intros (me & s & Hme & Hn & Hs & Hin & Hj & Hst) Ej Esig Hok Hm. exists me, s. split; [done|]. split_and!; [done..| |].
  - by intros j0 [= <-].
  - intros Hne. destruct (Hst Hne) as (? & ? & Hl). split_and!; [done..|]. intros El. destruct (Hl El) as [Hr Hsig].
    specialize (Hsig j Ej). split; [by apply Hm|]. intros j0 [= <-]. congruence.
Qed.

Lemma xstep_inv w hist w' hist' :
  xstep namespace name err_text (w, hist) (w', hist') → inv hist (view name w) → inv hist' (view name w').
Proof.
  inversion 1 as [now fs ? ? E1 E2|spec gen ? ? me s s' Hme Hs Hs' Hnew E1 E2|net fs ? ? j c Hj Hm E1 E2|sc ac fa ? ? j Hj Hw E1 E2|? ? E1 E2|? ? ? Em Ej Ed Ec E1 E2];
    simplify_eq; intros Hinv.
  - by apply Reconcile_inv.
  - destruct Hinv as (me0 & s0 & Hme0 & Hn & Hs0 & Hin & Hj & Hst). cbn in Hme0. rewrite Hme in Hme0. injection Hme0 as <-.
    rewrite Hs in Hs0. injection Hs0 as <-. exists (with_spec spec gen me), s'. split; [done|]. split_and!; [done|done|left| |].
    + intros j Ej. eapply job_ok_mono; [|by apply Hj]. set_solver.
    + cbn. intros Hne. destruct (Hst Hne) as (? & Hl & Hr). split_and!; [done|by right|]. intros E.
      destruct Hnew as [->|Hnew]; [by apply Hr|]. by rewrite E in Hl.
  - pose proof Hinv as (me & s & _ & _ & _ & _ & Hok & _). destruct (Hok j Hj) as (spec & js & Hjs & Hsig & Hin & Henv & Hsucc & _).
    pose proof (pod_renders net spec js _ _ fs _ c Hjs Henv Hm) as Hr. rewrite <- Hsig in Hr.
    unfold view. cbn. rewrite lookup_insert_eq. eapply inv_job; [exact Hinv|exact Hj|done| |].
    + exists spec, js. split_and!; done.
    + by intros s0 -> _.
  - pose proof Hinv as (me & s & _ & _ & _ & _ & Hok & _). destruct (Hok j Hj) as (spec & js & Hjs & Hsig & Hin & Henv & Hsucc & Hr).
    unfold view. cbn. rewrite lookup_insert_eq. eapply inv_job; [exact Hinv|exact Hj|done| |by intros].
    exists spec, js. split_and!; done.
  - destruct Hinv as (me & s & Hme & Hi). exists me, s. split; [done|]. unfold view. cbn. rewrite lookup_delete_eq. by eapply inv_at_no_job.
  - unfold view in *. by rewrite Em, Ej, Ed, Ec.
Qed.

Lemma fresh_inv w hist : fresh_export name w hist → inv hist (view name w).
Proof.
  intros (me & s & Hme & Hn & Hs & Hin & Ha & Hj). exists me, s. split; [done|]. split_and!; [done..| |]; [|by rewrite Ha].
  intros j Ej. unfold view in Ej. cbn in Ej. congruence.
Qed.
End steps.

(** ** Examples *)

#[local] Instance ReleaseChannel_eq_dec : EqDecision ReleaseChannel.
Proof. solve_decision. Defined.
#[local] Instance Operator_eq_dec : EqDecision Operator.
Proof. solve_decision. Defined.
#[local] Instance Chart_eq_dec : EqDecision Chart.
Proof. solve_decision. Defined.
#[local] Instance Repository_eq_dec : EqDecision Repository.
Proof. solve_decision. Defined.
#[local] Instance Platform_eq_dec : EqDecision Platform.
Proof. solve_decision. Defined.
#[local] Instance AdditionalImage_eq_dec : EqDecision AdditionalImage.
Proof. solve_decision. Defined.
#[local] Instance Mirror_eq_dec : EqDecision Mirror.
Proof. solve_decision. Defined.

(** Two contents, each with one image, and an encoder that knows them. *)
Definition ex_content (img : string) : Mirror := mkMirror (mkPlatform false [] [] false) [] [mkAdditionalImage img "" ""] [] [] false.
Definition ex_export_json : ExportJSON := {|
  json_mirror m := if decide (m = ex_content "quay.io/a:1") then Some "a" else if decide (m = ex_content "quay.io/b:1") then Some "b" else None;
  parse_mirror s := if String.eqb s "a" then Some (ex_content "quay.io/a:1") else if String.eqb s "b" then Some (ex_content "quay.io/b:1") else None;
  json_manifest mf := Some (Join (map mf_Source (mf_Images mf)) ",");
  parse_manifest s := Some (mkManifest (map (λ src, mkManifestEntry src "" "" "") (Split "," s)));
  json_buildspec _ := Some "{}";
|}.
Lemma ex_export_json_law m t : @json_mirror ex_export_json m = Some t → @parse_mirror ex_export_json t = Some m.
Proof. cbn. repeat case_decide; intros [= <-]; by subst. Qed.

Definition ex_export_spec (img : string) : MirrorExportSpec := mkExportSpec (ex_content img) None "reg" false.
Definition ex_export (img : string) : MirrorExport := mkExport "exp" 1 (ex_export_spec img) (mkExportStatus [] 0 "" "").
Definition ex_net : list string → string → Upstream := λ _ _, ex_upstream true None.

Definition ex_export_world (me : MirrorExport) : @EWorld ex_kube := @mkEWorld ex_kube (mkCluster ∅ []) ∅ ∅ [] (Some me).

(** One reconcile, one pod, and the success of the Job. *)
Abbreviation ex_xstep := (@xstep ex_kube ex_export_json ex_sha ex_text "ns" "exp" (λ _, "err")).
Definition ex_xreconcile (dfs : list bool) (w : @EWorld ex_kube) : @EWorld ex_kube :=
  snd (@Reconcile ex_kube ex_export_json ex_sha "ns" (λ _, "err") 0 (with_schedules [] dfs w)).
Definition ex_job_name : string := @ExportJobName ex_sha "exp".
Definition ex_pod_main (w : @EWorld ex_kube) (j : ExportJob) : (apiErr + unit) * Cluster :=
  @export_main ex_export_json ex_text ex_net (ej_Env j) (mkCluster (cl_cms (ew_cluster w)) []).
Definition ex_pod (w : @EWorld ex_kube) : @EWorld ex_kube :=
  match ew_jobs w !! ex_job_name with
  | Some j => set_ew_jobs (<[ex_job_name := wrote j]> (ew_jobs w)) (set_ew_cluster (snd (ex_pod_main w j)) w)
  | None => w
  end.
Definition ex_succeed (w : @EWorld ex_kube) : @EWorld ex_kube :=
  match ew_jobs w !! ex_job_name with
  | Some j => set_ew_jobs (<[ex_job_name := with_job_status 1 0 0 j]> (ew_jobs w)) w
  | None => w
  end.
Definition ex_edit (img : string) (w : @EWorld ex_kube) : @EWorld ex_kube := set_ew_me (with_spec (ex_export_spec img) 2 <$> ew_me w) w.

Definition ex_started : @EWorld ex_kube := ex_xreconcile [] (ex_export_world (ex_export "quay.io/a:1")).
Definition ex_finished : @EWorld ex_kube := ex_xreconcile [] (ex_succeed (ex_pod ex_started)).
Definition ex_sig (img : string) : string := default "" (@sig_of ex_export_json ex_sha (ex_export_spec img)).
(** The image the artifacts list, and the signature the status records. *)
Definition ex_published (w : @EWorld ex_kube) : option string := cl_cms (ew_cluster w) !! "exp-artifacts" ≫= λ cm, cm_Data cm !! "manifest.json".
Definition ex_recorded (w : @EWorld ex_kube) : string := from_option (λ me, xt_LastRenderedSignature (me_Status me)) "" (ew_me w).

(** * Theorems *)

(** C26: what an export publishes is what its spec asks for, as long as the
    artifacts are left to it.  In every run of the controller, the user who edits
    the spec, the Job, its pods and others, whatever calls fail: when the status of
    a MirrorExport names a ConfigMap and records the signature of the current spec,
    that ConfigMap holds what a spec with this signature renders to.  The runs are
    those in which nobody but the controller and the Job edits or deletes the
    artifacts ConfigMap ([deleted_artifacts_stay_empty]), the deletion of a stale
    Job does not fail when it is tried ([failed_delete_records_stale]), no pod
    writes after its Job is gone, the spec never goes back to an earlier signature
    ([reverted_spec_serves_other]), and each reconcile and each write of a pod is
    one step. *)
Theorem export_is_current `{Kube} `{ExportJSON} `{Sha256} `{Marshal} namespace name err_text w0 hist0 w hist me s :
  (∀ m t, json_mirror m = Some t → parse_mirror t = Some m) →
  fresh_export name w0 hist0 → rtc (xstep namespace name err_text) (w0, hist0) (w, hist) →
  ew_me w = Some me → sig_of (me_Spec me) = Some s →
  xt_ArtifactsConfigMap (me_Status me) ≠ "" → xt_LastRenderedSignature (me_Status me) = s →
  holds_render namespace name s (cl_cms (ew_cluster w) !! xt_ArtifactsConfigMap (me_Status me)).
Proof.
  intros Hlaw Hf Hrun Hme Hs Ha Hl.
  assert (Hinv : inv namespace name hist (view name w)).
  { change (inv namespace name (snd (w, hist)) (view name (fst (w, hist)))).
    refine (rtc_ind_r (λ st, inv namespace name (snd st) (view name (fst st))) (w0, hist0) _ _ _ Hrun).
    - by apply fresh_inv.
    - intros [w1 h1] [w2 h2] _ Hstep Hi. by eapply xstep_inv. }
  destruct Hinv as (me' & s' & Hme' & _ & Hs' & _ & _ & Hst). cbn in Hme'. rewrite Hme in Hme'. injection Hme' as <-.
  rewrite Hs in Hs'. injection Hs' as <-. destruct (Hst Ha) as (Ea & _ & Hr). rewrite Ea. by apply Hr.
Qed.

(** The Job of an export runs with what the spec says: the binary reads
    back the content, the registry, the name and the ConfigMap it was created
    for, with the insecure host and the credentials of the source; a run that
    succeeds writes the artifacts of this content, and changes nothing but that
    ConfigMap. *)
Theorem export_builder_reads_back `{ExportJSON} `{Sha256} `{Marshal} namespace name spec js :
  json_mirror (xe_Mirror spec) = Some js → js ≠ "" → parse_mirror js = Some (xe_Mirror spec) →
  xe_Registry spec ≠ "" → name ≠ "" → namespace ≠ "" →
  let cmName := ArtifactsConfigMapName name in
  let env := ej_Env (buildJobSpec namespace name spec (exportServiceAccountName name) cmName js) in
  export_config env = Some (mkExportConfig (xe_Mirror spec) (xe_Registry spec) name cmName namespace (job_hosts spec) (job_authDir spec)) ∧
  ∀ net c c', export_main net env c = (inr tt, c') →
    ∃ cm data, artifacts (net (job_hosts spec) (job_authDir spec)) name namespace (xe_Mirror spec) (xe_Registry spec) = Some data ∧
       cl_cms c !! cmName = Some cm ∧ cl_cms c' = <[cmName := with_data data cm]> (cl_cms c).
Proof.
  intros Hjs Hne Hp Hr Hn Hns cmName env.
  assert (Hc : export_config env = Some (mkExportConfig (xe_Mirror spec) (xe_Registry spec) name cmName namespace (job_hosts spec) (job_authDir spec)))
    by by apply export_config_reads.
  split; [done|]. intros net c c' Hm. unfold export_main in Hm. rewrite Hc in Hm. cbn in Hm.
  destruct (artifacts _ _ _ _ _) as [data|] eqn:Ea; [|done]. apply writeArtifacts_ok in Hm as (cm & Hcm & ->). by exists cm, data.
Qed.

Lemma export_is_current_witness :
  @holds_render ex_export_json ex_sha ex_text "ns" "exp" (ex_sig "quay.io/a:1") (cl_cms (ew_cluster ex_finished) !! "exp-artifacts") ∧
  ex_published ex_finished = Some "quay.io/a:1".
Proof.
  split; [|vm_compute; reflexivity].
  destruct (ew_me ex_finished) as [me|] eqn:Eme; [|vm_compute in Eme; discriminate].
  assert (Es : xt_ArtifactsConfigMap (me_Status me) = "exp-artifacts" ∧ xt_LastRenderedSignature (me_Status me) = ex_sig "quay.io/a:1" ∧
    me_Spec me = ex_export_spec "quay.io/a:1") by (vm_compute in Eme; injection Eme as <-; vm_compute; by split_and!).
  destruct Es as (Ea & El & Espec). rewrite <- Ea.
  apply (@export_is_current ex_kube ex_export_json ex_sha ex_text "ns" "exp" (λ _, "err") (ex_export_world (ex_export "quay.io/a:1")) [ex_sig "quay.io/a:1"]
    ex_finished [ex_sig "quay.io/a:1"] me).
  - apply ex_export_json_law.
  - exists (ex_export "quay.io/a:1"), (ex_sig "quay.io/a:1"). split_and!; try reflexivity. left.
  - eapply rtc_l; [apply (x_reconcile _ _ _ 0 [])|]. fold (ex_xreconcile [] (ex_export_world (ex_export "quay.io/a:1"))). fold ex_started.
    destruct (ew_jobs ex_started !! ex_job_name) as [j|] eqn:Ej; [|vm_compute in Ej; discriminate].
    eapply rtc_l; [apply (x_pod _ _ _ ex_net [] ex_started _ j (snd (ex_pod_main ex_started j))); [exact Ej|]|].
    { rewrite (surjective_pairing (ex_pod_main ex_started j)). f_equal. vm_compute in Ej. injection Ej as <-. vm_compute. reflexivity. }
    eapply rtc_l; [apply (x_status _ _ _ 1 0 0 _ _ (wrote j)); [apply lookup_insert_eq|done]|].
    eapply rtc_l; [apply (x_reconcile _ _ _ 0 [])|]. match goal with |- rtc _ (?a, _) (?b, _) => assert (a = b) as ->; [|apply rtc_refl] end.
    unfold ex_finished, ex_xreconcile, ex_succeed, ex_pod. rewrite Ej.
    cbn [ew_jobs set_ew_jobs]. by rewrite lookup_insert_eq.
  - exact Eme.
  - rewrite Espec. reflexivity.
  - rewrite Ea. discriminate.
  - exact El.
Defined.

Lemma export_builder_reads_back_witness :
  let cm := ArtifactsConfigMapName "exp" in
  @export_config ex_export_json (ej_Env (@buildJobSpec ex_sha "ns" "exp" (ex_export_spec "quay.io/a:1") (exportServiceAccountName "exp") cm "a"))
  = Some (mkExportConfig (ex_content "quay.io/a:1") "reg" "exp" cm "ns" [] "").
Proof.
  apply (@export_builder_reads_back ex_export_json ex_sha ex_text "ns" "exp" (ex_export_spec "quay.io/a:1") "a"); done.
Defined.

(** ** Behaviour that deviates from the intent *)

(** A stale Job whose deletion fails is taken for the Job of the new spec: its
    success is recorded with the signature of the new spec. *)
Lemma failed_delete_records_stale :
  let w := ex_xreconcile [true] (ex_edit "quay.io/b:1" (ex_succeed (ex_pod ex_started))) in
  ex_recorded w = ex_sig "quay.io/b:1" ∧ ex_published w = Some "quay.io/a:1".
Proof. split; vm_compute; reflexivity. Qed.

(** A spec that is changed and changed back: the Job of the change has written,
    the signature of the original spec is still recorded, and the reconcile
    takes the artifacts for its own.  Nothing renders them again. *)
Definition ex_reverted : @EWorld ex_kube :=
  let w := ex_xreconcile [] (ex_edit "quay.io/b:1" ex_finished) in
  ex_xreconcile [] (ex_edit "quay.io/a:1" (ex_succeed (ex_pod w))).

Lemma reverted_spec_serves_other :
  ex_recorded ex_reverted = ex_sig "quay.io/a:1" ∧ ex_published ex_reverted = Some "quay.io/b:1" ∧
  ex_published (ex_xreconcile [] ex_reverted) = Some "quay.io/b:1" ∧ ew_jobs (ex_xreconcile [] ex_reverted) !! ex_job_name = None.
Proof. split_and!; vm_compute; reflexivity. Qed.

(** Artifacts that were deleted are not rendered again: the ConfigMap is created
    empty and the export stays rendered. *)
Lemma deleted_artifacts_stay_empty :
  let w := set_ew_jobs ∅ (set_ew_cluster (mkCluster ∅ []) ex_finished) in
  ex_published (ex_xreconcile [] w) = None ∧ is_Some (cl_cms (ew_cluster (ex_xreconcile [] w)) !! "exp-artifacts") ∧
  ew_jobs (ex_xreconcile [] w) !! ex_job_name = None ∧ ex_recorded (ex_xreconcile [] w) = ex_sig "quay.io/a:1".
Proof. cbv zeta. split_and!; [vm_compute; reflexivity|eexists; vm_compute; reflexivity|vm_compute; reflexivity..]. Qed.

(** A CA bundle is not part of the signature: a Job that failed for a missing CA
    is not replaced when one is given. *)
Lemma ca_bundle_not_in_signature `{Sha256} m src reg insecure js ca :
  Signature (mkExportSpec m (Some (mkExportSource (xs_Registry src) (xs_Insecure src) (xs_AuthSecret src) ca)) reg insecure) js
  = Signature (mkExportSpec m (Some src) reg insecure) js.
Proof. reflexivity. Qed.
