(* ===== verification/Cluster.v ===== *)
(** * Cluster objects with finalizers and unstructured content

    What the console plugin and the monitoring controller use of the API
    server, of controller-runtime and of apimachinery, as the class [Cluster]
    with the laws [ClusterLaws]: discovery, objects that stay until their
    finalizers are gone, and the nested fields of unstructured objects.  A call
    that fails may have taken effect all the same. *)
From S2P Require Import Prelude Effects GoStrings BuildJobs Deploy.

(** ** Unstructured content *)

(** The values of an [unstructured.Unstructured]. *)
Inductive uval :=
| UString (s : string)
| UInt (z : Z)
| UBool (b : bool)
| USlice (l : list uval)
| UMap (fields : list (string * uval)).

Fixpoint ufind (f : string) (fields : list (string * uval)) : option uval :=
  match fields with
  | [] => None
  | (g, v) :: fields => if String.eqb g f then Some v else ufind f fields
  end.

(** The value at a path. *)
Fixpoint nested (path : list string) (v : uval) : option uval :=
  match path with
  | [] => Some v
  | f :: path => match v with UMap fields => ufind f fields ≫= nested path | _ => None end
  end.

(** Paths none of which leads through the other. *)
Definition apart (p q : list string) : Prop := ¬ (p `prefix_of` q) ∧ ¬ (q `prefix_of` p).

(** ** Objects *)

Record SecurityContext := mkSecurityContext {
  sc_AllowPrivilegeEscalation : bool; sc_ReadOnlyRootFilesystem : bool; sc_Drop : list string; sc_SeccompProfile : string;
}.
Record HTTPProbe := mkHTTPProbe {
  hp_Path : string; hp_Port : Z; hp_Scheme : string;
  hp_InitialDelaySeconds : Z; hp_PeriodSeconds : Z; hp_TimeoutSeconds : Z; hp_FailureThreshold : Z;
}.
Record ContainerPort := mkContainerPort { cp_Name : string; cp_ContainerPort : Z; cp_Protocol : string }.
Record PodContainer := mkPodContainer {
  pc_Name : string; pc_Image : string; pc_Command : list string; pc_Args : list string; pc_Ports : list ContainerPort;
  pc_Env : list EnvVar; pc_Requests : list (string * string); pc_Limits : list (string * string);
  pc_ReadinessProbe : HTTPProbe; pc_LivenessProbe : HTTPProbe; pc_VolumeMounts : list VolumeMount;
  pc_SecurityContext : SecurityContext;
}.
Record PodTemplateSpec := mkPodTemplateSpec {
  ps_Labels : Labels; ps_ServiceAccountName : string; ps_Containers : list PodContainer; ps_Volumes : list Volume;
}.

(** [_Other]: the fields of a spec that the controllers do not set. *)
Record Deployment := mkDeployment {
  dp_Replicas : option Z; dp_Selector : Labels; dp_Template : option PodTemplateSpec; dp_Other : gmap string string;
}.
Record SvcPort := mkSvcPort { vp_Name : string; vp_Port : Z; vp_TargetPort : Z; vp_Protocol : string }.
Record Service := mkService { sv_Selector : Labels; sv_Ports : list SvcPort; sv_Other : gmap string string }.
Record RoleRef := mkRoleRef { rr_APIGroup : string; rr_Kind : string; rr_Name : string }.
Record Subject := mkSubject { sj_Kind : string; sj_Name : string; sj_Namespace : string }.

Inductive Content :=
| CServiceAccount
| CRole (rules : list PolicyRule)
| CRoleBinding (ref : option RoleRef) (subjects : list Subject)
| CDeployment (spec : Deployment)
| CService (spec : Service)
| CConfigMap (data : gmap string string)
| CUnstructured (v : uval).

(** [m_Deleting]: the deletion timestamp is set. *)
Record Meta := mkMeta { m_Labels : Labels; m_Annotations : Labels; m_Finalizers : list string; m_Deleting : bool }.
Record Obj := mkObj { o_Meta : Meta; o_Content : Content }.

(** An object that was just allocated. *)
Definition allocated (c : Content) : Obj := mkObj (mkMeta ∅ ∅ [] false) c.
Definition unstructured : Obj := allocated (CUnstructured (UMap [])).
Definition content (o : Obj) : uval := match o_Content o with CUnstructured v => v | _ => UMap [] end.

Definition with_labels (l : Labels) (m : Meta) : Meta := mkMeta l (m_Annotations m) (m_Finalizers m) (m_Deleting m).
Definition with_annotations (a : Labels) (m : Meta) : Meta := mkMeta (m_Labels m) a (m_Finalizers m) (m_Deleting m).
Definition with_finalizers (l : list string) (m : Meta) : Meta := mkMeta (m_Labels m) (m_Annotations m) l (m_Deleting m).
Definition deleting (b : bool) (m : Meta) : Meta := mkMeta (m_Labels m) (m_Annotations m) (m_Finalizers m) b.

(** ** What the server keeps *)

(** An object that is being deleted goes with its last finalizer. *)
Definition settle (o : Obj) : option Obj :=
  if m_Deleting (o_Meta o) && bool_decide (m_Finalizers (o_Meta o) = []) then None else Some o.

(** An update does not change the deletion timestamp. *)
Definition updated (old : option Obj) (new : Obj) : option Obj :=
  settle (mkObj (deleting (default false (m_Deleting ∘ o_Meta <$> old)) (o_Meta new)) (o_Content new)).

Definition deleted (old : option Obj) : option Obj :=
  old ≫= λ o, settle (mkObj (deleting true (o_Meta o)) (o_Content o)).

(** ** The API server and the libraries *)

Class Cluster := {
  cluster : Type;
  objs : cluster → gmap Key Obj;
  served : cluster → string → bool;
  RESTMapping : string → M cluster kubeErr unit;
  Get : Key → M cluster kubeErr Obj;
  Update : Key → Obj → M cluster kubeErr unit;
  Delete : Key → M cluster kubeErr unit;
  CreateOrUpdate : Key → Obj → (Obj → kubeErr + Obj) → M cluster kubeErr unit;
  AddFinalizer : string → Obj → Obj;
  RemoveFinalizer : string → Obj → Obj;
  ContainsFinalizer : Obj → string → bool;
  SetNestedField : uval → list string → Obj → kubeErr + Obj;
  NestedSlice : list string → Obj → string + option (list uval);
  NestedString : string → uval → string;
  semver_Parse : string → option (Z * Z);
}.

(** [k'] is [k] with [key] changed by [f]; when the call failed, perhaps. *)
Definition writes `{Cluster} {E A} (key : Key) (f : option Obj → option Obj) (r : E + A) (k k' : cluster) : Prop :=
  served k' = served k ∧
  (objs k' = partial_alter f key (objs k) ∨ (∃ e, r = inl e) ∧ objs k' = objs k).

Class ClusterLaws `{Cluster} : Prop := {
  objs_settled k key o : objs k !! key = Some o → settle o = Some o;
  RESTMapping_ok kind k :
    let '(r, k') := RESTMapping kind k in
    objs k' = objs k ∧ served k' = served k ∧
    match r with inr _ => served k kind = true | inl KNoMatch => served k kind = false | inl _ => True end;
  Get_ok key k :
    let '(r, k') := Get key k in
    objs k' = objs k ∧ served k' = served k ∧
    match r with
    | inr o => objs k !! key = Some o
    | inl KNotFound | inl KNoMatch => objs k !! key = None
    | inl (KErr _) => True
    end;
  Update_ok key o k :
    let '(r, k') := Update key o k in writes key (λ old, updated old o) r k k' ∧ (∀ u, r = inr u → is_Some (objs k !! key));
  Delete_ok key k :
    let '(r, k') := Delete key k in
    match r with
    | inl KNotFound | inl KNoMatch => objs k !! key = None ∧ objs k' = objs k ∧ served k' = served k
    | r => writes key deleted r k k'
    end;
  CreateOrUpdate_ok key init f k :
    let '(r, k') := CreateOrUpdate key init f k in
    served k' = served k ∧ (r = inl KNoMatch → served k (key.1.1) = false) ∧
    (objs k' = objs k ∧ (∃ e, r = inl e) ∨
     ∃ o, f (default init (objs k !! key)) = inr o ∧ objs k' = partial_alter (λ old, updated old o) key (objs k));
  AddFinalizer_ok f o :
    AddFinalizer f o = mkObj (with_finalizers (m_Finalizers (o_Meta o) ++ if bool_decide (f ∈ m_Finalizers (o_Meta o)) then [] else [f]) (o_Meta o)) (o_Content o);
  RemoveFinalizer_ok f o :
    RemoveFinalizer f o = mkObj (with_finalizers (filter (λ g, g ≠ f) (m_Finalizers (o_Meta o))) (o_Meta o)) (o_Content o);
  ContainsFinalizer_ok f o : ContainsFinalizer o f = bool_decide (f ∈ m_Finalizers (o_Meta o));
  SetNestedField_spec v path o o' :
    SetNestedField v ("spec" :: path) o = inr o' →
    o_Meta o' = o_Meta o ∧ nested ("spec" :: path) (content o') = Some v ∧
    ∀ q, apart ("spec" :: path) q → nested q (content o') = nested q (content o);
  SetNestedField_labels (l : Labels) o o' :
    SetNestedField (UMap (prod_map id UString <$> map_to_list l)) ["metadata"; "labels"] o = inr o' →
    o' = mkObj (with_labels l (o_Meta o)) (o_Content o);
  NestedSlice_ok path o :
    match NestedSlice path o with
    | inr (Some l) => nested path (content o) = Some (USlice l)
    | _ => ∀ l, nested path (content o) ≠ Some (USlice l)
    end;
  NestedString_ok f v : NestedString f v = match nested [f] v with Some (UString s) => s | _ => "" end;
}.

Definition errText (e : kubeErr) : string := match e with KNotFound => "not found" | KNoMatch => "no matches for kind" | KErr s => s end.

Section calls.
Context `{Cluster}.

(** [return err], and [return fmt.Errorf("msg: %w", err)] *)
Definition raise {A} (m : M cluster kubeErr A) : M cluster string A := λ k,
  match m k with (inl e, k) => (inl (errText e), k) | (inr a, k) => (inr a, k) end.
Definition raisef {A} (msg : string) (m : M cluster kubeErr A) : M cluster string A := λ k,
  match m k with (inl e, k) => (inl (msg +:+ ": " +:+ errText e), k) | (inr a, k) => (inr a, k) end.
(** [err] inspected by the caller. *)
Definition try {A} (m : M cluster kubeErr A) : M cluster string (kubeErr + A) := λ k, let '(r, k) := m k in (inr r, k).

(** [fmt.Errorf("msg: %w", err)] around an error of the controller itself. *)
Definition rewrap {A} (msg : string) (m : M cluster string A) : M cluster string A := λ k,
  match m k with (inl e, k) => (inl (msg +:+ ": " +:+ e), k) | res => res end.

Definition sbind {A B} (k : A → kubeErr + B) (m : kubeErr + A) : kubeErr + B := match m with inl e => inl e | inr a => k a end.
End calls.

(** [if err := f; err != nil { return err }] inside a callback. *)
Notation "x ←ₑ m ; k" := (sbind (λ x, k) m) (at level 20, m at level 100, k at level 200, right associativity).

(** ** Facts about the laws *)

Lemma settle_Some o o' : settle o = Some o' → o' = o.
Proof. unfold settle. case_match; congruence. Qed.

Lemma settle_settle o : (settle o ≫= settle) = settle o.
Proof. destruct (settle o) as [o'|] eqn:E; [|done]. cbn. by rewrite <- (settle_Some _ _ E) in E. Qed.

Lemma apart_fork l a b p q : a ≠ b → apart (l ++ a :: p) (l ++ b :: q).
Proof.
  intros Hab. split; intros [r Hr]; rewrite <- app_assoc in Hr; apply app_inv_head in Hr; cbn in Hr; congruence.
Qed.

(** Reads leave the observable state alone; [see] is what the laws speak of. *)
Section facts.
Context `{ClusterLaws}.

Definition see (k : cluster) : gmap Key Obj * (string → bool) := (objs k, served k).

Lemma raise_eq {A} (m : M cluster kubeErr A) k :
  raise m k = (match fst (m k) with inl e => inl (errText e) | inr a => inr a end, snd (m k)).
Proof. unfold raise. by destruct (m k) as [[]]. Qed.

Lemma raisef_eq {A} msg (m : M cluster kubeErr A) k :
  raisef msg m k = (match fst (m k) with inl e => inl (msg +:+ ": " +:+ errText e) | inr a => inr a end, snd (m k)).
Proof. unfold raisef. by destruct (m k) as [[]]. Qed.

Lemma try_bind {A B} (m : M cluster kubeErr A) (c : kubeErr + A → M cluster string B) k :
  (try m ≫= c) k = c (fst (m k)) (snd (m k)).
Proof. unfold mbind, M_bind, try. by destruct (m k). Qed.

Lemma RESTMapping_sees kind k : see (snd (RESTMapping kind k)) = see k.
Proof. pose proof (RESTMapping_ok kind k) as Hm. destruct (RESTMapping kind k) as [r k']. unfold see. cbn. by destruct Hm as (-> & -> & _). Qed.

Lemma Get_sees key k : see (snd (Get key k)) = see k.
Proof. pose proof (Get_ok key k) as Hm. destruct (Get key k) as [r k']. unfold see. cbn. by destruct Hm as (-> & -> & _). Qed.

(** Every write changes its own key only, and never what is served. *)
Lemma writes_elsewhere {E A} key f (r : E + A) k k' key' : writes key f r k k' → key' ≠ key → objs k' !! key' = objs k !! key'.
Proof. intros (_ & [->|[_ ->]]) Hne; [by rewrite lookup_partial_alter_ne by congruence|done]. Qed.

Lemma Update_elsewhere key o k key' : key' ≠ key → objs (snd (Update key o k)) !! key' = objs k !! key'.
Proof. intros Hne. pose proof (Update_ok key o k) as Hm. destruct (Update key o k). destruct Hm as [Hm _]. by eapply writes_elsewhere. Qed.

Lemma Delete_elsewhere key k key' : key' ≠ key → objs (snd (Delete key k)) !! key' = objs k !! key'.
Proof.
  intros Hne. pose proof (Delete_ok key k) as Hm. destruct (Delete key k) as [[[]|] k']; cbn.
  - by destruct Hm as (_ & -> & _).
  - by destruct Hm as (_ & -> & _).
  - by eapply writes_elsewhere.
  - by eapply writes_elsewhere.
Qed.

Lemma CreateOrUpdate_elsewhere key init f k key' : key' ≠ key → objs (snd (CreateOrUpdate key init f k)) !! key' = objs k !! key'.
Proof.
  intros Hne. pose proof (CreateOrUpdate_ok key init f k) as Hm. destruct (CreateOrUpdate key init f k) as [r k'].
  cbn; destruct Hm as (_ & _ & [[-> _]|(o & _ & ->)]); [done|]. by rewrite lookup_partial_alter_ne by congruence.
Qed.

Lemma Update_served key o k : served (snd (Update key o k)) = served k.
Proof. pose proof (Update_ok key o k) as Hm. destruct (Update key o k). by destruct Hm as [[? _] _]. Qed.
Lemma Delete_served key k : served (snd (Delete key k)) = served k.
Proof. pose proof (Delete_ok key k) as Hm. by destruct (Delete key k) as [[[]|] k']; cbn; destruct Hm as (?&?&?) || destruct Hm. Qed.
Lemma CreateOrUpdate_served key init f k : served (snd (CreateOrUpdate key init f k)) = served k.
Proof. pose proof (CreateOrUpdate_ok key init f k) as Hm. destruct (CreateOrUpdate key init f k). by destruct Hm. Qed.

(** An object that keeps its finalizers is kept. *)
Lemma settle_kept o o' :
  settle o = Some o → m_Deleting (o_Meta o') = m_Deleting (o_Meta o) → m_Finalizers (o_Meta o) ⊆ m_Finalizers (o_Meta o') →
  settle o' = Some o'.
Proof.
  unfold settle. intros Ho -> Hf. destruct (m_Deleting (o_Meta o)); [|done]. cbn in *.
  rewrite bool_decide_eq_false_2; [done|]. intros E. rewrite E in Hf. case_bool_decide as Hn; [done|].
  apply Hn. destruct (m_Finalizers (o_Meta o)) as [|g l]; [done|]. set_solver.
Qed.

(** A callback that keeps the metadata of deletion leaves its object in place. *)
Definition keeps_deletion (f : Obj → kubeErr + Obj) : Prop := ∀ o o',
  f o = inr o' → m_Deleting (o_Meta o') = m_Deleting (o_Meta o) ∧ m_Finalizers (o_Meta o) ⊆ m_Finalizers (o_Meta o').

Lemma updated_kept key init f k o :
  keeps_deletion f → m_Deleting (o_Meta init) = false → f (default init (objs k !! key)) = inr o → updated (objs k !! key) o = Some o.
Proof.
  intros Hf Hi Ho. unfold updated. destruct (Hf _ _ Ho) as [Hd Hs].
  assert (E : mkObj (deleting (default false (m_Deleting ∘ o_Meta <$> objs k !! key)) (o_Meta o)) (o_Content o) = o).
  { destruct (objs k !! key) as [old|]; cbn in *; [rewrite <- Hd|rewrite Hi in Hd; rewrite <- Hd]; by destruct o as [[]]. }
  rewrite E. destruct (objs k !! key) as [old|] eqn:El; cbn in *.
  - eapply settle_kept; [by eapply objs_settled|done|done].
  - rewrite Hi in Hd. unfold settle. by rewrite Hd.
Qed.

Lemma CreateOrUpdate_effect key init f k :
  keeps_deletion f → m_Deleting (o_Meta init) = false →
  let k' := snd (CreateOrUpdate key init f k) in
  objs k' = objs k ∨ ∃ o, f (default init (objs k !! key)) = inr o ∧ objs k' !! key = Some o.
Proof.
  intros Hf Hi. pose proof (CreateOrUpdate_ok key init f k) as Hm. destruct (CreateOrUpdate key init f k) as [res k']. cbn.
  destruct Hm as (_ & _ & [[-> _]|(o & Ho & Hk)]); [by left|right]. exists o. split; [done|].
  rewrite Hk, lookup_partial_alter_eq. by eapply updated_kept.
Qed.

Lemma CreateOrUpdate_stores key init f k u k' :
  keeps_deletion f → m_Deleting (o_Meta init) = false →
  CreateOrUpdate key init f k = (inr u, k') →
  ∃ o, f (default init (objs k !! key)) = inr o ∧ objs k' !! key = Some o.
Proof.
  intros Hf Hi Hc. pose proof (CreateOrUpdate_ok key init f k) as Hm. rewrite Hc in Hm.
  destruct Hm as (_ & _ & [[_ [e He]]|(o & Ho & Hk)]); [done|]. exists o. split; [done|].
  rewrite Hk, lookup_partial_alter_eq. by eapply updated_kept.
Qed.
End facts.

(** ** Single calls *)

(** The objects and the kinds that are served. *)
Abbreviation Seen := (gmap Key Obj * (string → bool))%type.

Section single.
Context `{ClusterLaws}.

(** Gone, or being deleted. *)
Definition released (m : gmap Key Obj) (key : Key) : Prop := ∀ o, m !! key = Some o → m_Deleting (o_Meta o) = true.

(** Nothing but the objects at [keys] changed. *)
Definition only (keys : list Key) (x0 x : Seen) : Prop := x.2 = x0.2 ∧ ∀ key, key ∉ keys → x.1 !! key = x0.1 !! key.

Lemma only_refl keys x : only keys x x.
Proof. done. Qed.

Lemma only_trans keys keys' x y z : only keys x y → only keys' y z → keys ⊆ keys' → only keys' x z.
Proof. intros [E1 F1] [E2 F2] Hs. split; [congruence|]. intros key Hk. rewrite F2, F1; set_solver. Qed.

Lemma only_weaken keys keys' x y : only keys x y → keys ⊆ keys' → only keys' x y.
Proof. intros Ho Hs. eapply only_trans; [done|apply only_refl|done]. Qed.

Lemma released_elsewhere keys x y key : only keys x y → key ∉ keys → released x.1 key → released y.1 key.
Proof. intros [_ F] Hk Hr o. rewrite F by done. apply Hr. Qed.

Lemma Delete_leads key x0 :
  leads see (eq x0) (Delete key) (λ res x,
    only [key] x0 x ∧ (res = inl KNotFound ∨ (∃ u, res = inr u) → released x.1 key) ∧
    (∀ o, x.1 !! key = Some o → ∃ o0, x0.1 !! key = Some o0 ∧ m_Finalizers (o_Meta o) = m_Finalizers (o_Meta o0))).
Proof.
  intros k ->. pose proof (Delete_served key k) as Hs. pose proof (Delete_elsewhere key k) as He.
  pose proof (Delete_ok key k) as Hd. destruct (Delete key k) as [res k']. cbn in *.
  split; [split; [done|intros key' Hn; apply He; set_solver]|].
  assert (Hold : objs k' = objs k →
    ∀ o, objs k' !! key = Some o → ∃ o0, objs k !! key = Some o0 ∧ m_Finalizers (o_Meta o) = m_Finalizers (o_Meta o0)).
  { intros -> o. eauto. }
  assert (Hnew : objs k' = partial_alter deleted key (objs k) →
    released (objs k') key ∧
    ∀ o, objs k' !! key = Some o → ∃ o0, objs k !! key = Some o0 ∧ m_Finalizers (o_Meta o) = m_Finalizers (o_Meta o0)).
  { intros E. enough (HH : ∀ o, objs k' !! key = Some o → m_Deleting (o_Meta o) = true ∧
      ∃ o0, objs k !! key = Some o0 ∧ m_Finalizers (o_Meta o) = m_Finalizers (o_Meta o0)) by (split; intros o Ho; by apply HH).
    intros o. rewrite E, lookup_partial_alter_eq. unfold deleted. destruct (objs k !! key) as [o0|]; cbn; [|done].
    intros Ho. apply settle_Some in Ho as ->. eauto. }
  destruct res as [[]|u].
  - destruct Hd as (Hn & E & _). split; [|by apply Hold]. intros _ o. rewrite E, Hn. done.
  - destruct Hd as (_ & E & _). split; [by intros [|[]]|by apply Hold].
  - destruct Hd as (_ & [E|[_ E]]); (split; [by intros [|[]]|]); [by apply Hnew|by apply Hold].
  - destruct Hd as (_ & [E|[[] _]]); [|done]. split; [intros _|]; by apply Hnew.
Qed.

Lemma CreateOrUpdate_leads key init f x0 :
  keeps_deletion f → m_Deleting (o_Meta init) = false →
  leads see (eq x0) (CreateOrUpdate key init f) (λ res x,
    only [key] x0 x ∧ (res = inl KNoMatch → x0.2 key.1.1 = false) ∧
    (∀ u, res = inr u → ∃ o, f (default init (x0.1 !! key)) = inr o ∧ x.1 !! key = Some o) ∧
    (x.1 = x0.1 ∨ ∃ o, f (default init (x0.1 !! key)) = inr o ∧ x.1 !! key = Some o)).
Proof.
  intros Hf Hi k ->. pose proof (CreateOrUpdate_served key init f k) as Hs. pose proof (CreateOrUpdate_elsewhere key init f k) as He.
  pose proof (CreateOrUpdate_ok key init f k) as Hd. pose proof (CreateOrUpdate_stores key init f k) as Hst.
  pose proof (CreateOrUpdate_effect key init f k Hf Hi) as Hef.
  destruct (CreateOrUpdate key init f k) as [res k']. cbn in *.
  split_and!; [split; [done|intros key' Hn; apply He; set_solver]|by destruct Hd as (_ & ? & _)| |done].
  intros u ->. by eapply Hst.
Qed.

Lemma RESTMapping_leads kind x0 :
  leads see (eq x0) (RESTMapping kind) (λ res x, x = x0 ∧
    match res with inr _ => x0.2 kind = true | inl KNoMatch => x0.2 kind = false | inl _ => True end).
Proof.
  intros k ->. pose proof (RESTMapping_ok kind k) as Hm. unfold see. destruct (RESTMapping kind k). cbn in *. destruct Hm as (-> & -> & ?). done.
Qed.

Lemma Get_leads key x0 :
  leads see (eq x0) (Get key) (λ res x, x = x0 ∧
    match res with inr o => x0.1 !! key = Some o | inl (KErr _) => True | inl _ => x0.1 !! key = None end).
Proof. intros k ->. pose proof (Get_ok key k) as Hm. unfold see. destruct (Get key k). cbn in *. destruct Hm as (-> & -> & ?). split; [done|]. by repeat case_match. Qed.

Lemma Update_leads key o x0 :
  leads see (eq x0) (Update key o) (λ res x, only [key] x0 x ∧
    (x.1 !! key = updated (x0.1 !! key) o ∨ (∃ e, res = inl e) ∧ x.1 = x0.1)).
Proof.
  intros k ->. pose proof (Update_served key o k) as Hs. pose proof (Update_elsewhere key o k) as He.
  pose proof (Update_ok key o k) as Hd. destruct (Update key o k) as [res k']. cbn in *.
  split; [split; [done|intros key' Hn; apply He; set_solver]|].
  destruct Hd as [(_ & [E|?]) _]; [left; by rewrite E, lookup_partial_alter_eq|by right].
Qed.

(** A call of which the caller inspects the error. *)
Lemma leads_try {A B : Type} (P : Seen → Prop) (m : M cluster kubeErr A) (Q : kubeErr + A → Seen → Prop) (c : kubeErr + A → M cluster string B) (R : string + B → Seen → Prop) :
  leads see P m Q → (∀ res, leads see (Q res) (c res) R) → leads see P (try m ≫= c) R.
Proof. intros Hm Hc k HP. rewrite try_bind. apply Hc. by apply Hm. Qed.

Lemma leads_raise {A : Type} (P : Seen → Prop) (m : M cluster kubeErr A) (Q : kubeErr + A → Seen → Prop) (R : string + A → Seen → Prop) :
  leads see P m Q → (∀ e e' x, Q (inl e) x → R (inl e') x) → (∀ a x, Q (inr a) x → R (inr a) x) → leads see P (raise m) R.
Proof. intros Hm H1 H2 k HP. rewrite raise_eq. specialize (Hm k HP). destruct (fst (m k)); [by eapply H1|by apply H2]. Qed.

Lemma leads_raisef {A : Type} (P : Seen → Prop) (msg : string) (m : M cluster kubeErr A) (Q : kubeErr + A → Seen → Prop) (R : string + A → Seen → Prop) :
  leads see P m Q → (∀ e e' x, Q (inl e) x → R (inl e') x) → (∀ a x, Q (inr a) x → R (inr a) x) → leads see P (raisef msg m) R.
Proof. intros Hm H1 H2 k HP. rewrite raisef_eq. specialize (Hm k HP). destruct (fst (m k)); [by eapply H1|by apply H2]. Qed.

Lemma leads_rewrap {A : Type} (P : Seen → Prop) (msg : string) (m : M cluster string A) (R : string + A → Seen → Prop) :
  leads see P m R → (∀ e e' x, R (inl e) x → R (inl e') x) → leads see P (rewrap msg m) R.
Proof. intros Hm HR k HP. specialize (Hm k HP). unfold rewrap. destruct (m k) as [[]]; [by eapply HR|done]. Qed.

(** What is shown from every single state holds from a set of them. *)
Lemma leads_each {S E A} {Y} (obs : S → Y) (P : Y → Prop) (m : M S E A) Q : (∀ x0, P x0 → leads obs (eq x0) m Q) → leads obs P m Q.
Proof. intros Hm s HP. by apply (Hm (obs s)). Qed.
End single.

(** ** Putting objects in place *)

Section placing.
Context `{ClusterLaws} (keys : list Key).

(** Objects that are in place. *)
Definition in_place (L : list (Key * (Obj → Prop))) (m : gmap Key Obj) : Prop :=
  Forall (λ kp, ∃ o, m !! kp.1 = Some o ∧ kp.2 o) L.

Lemma in_place_elsewhere keys' x y L : only keys' x y → (∀ key, key ∈ L.*1 → key ∉ keys') → in_place L x.1 → in_place L y.1.
Proof.
  intros [_ Ho] Hd. unfold in_place. rewrite !Forall_forall. intros HL kp Hin. destruct (HL kp Hin) as (o & Eo & Hp).
  exists o. split; [|done]. rewrite Ho; [done|]. apply Hd. apply list_elem_of_fmap. eauto.
Qed.

Definition placed (x0 : Seen) (L : list (Key * (Obj → Prop))) (x : Seen) : Prop := only keys x0 x ∧ in_place L x.1.
Definition place_post (x0 : Seen) (L : list (Key * (Obj → Prop))) : string + unit → Seen → Prop := or_error (only keys x0) (λ _, placed x0 L).

(** An object is put in place beside the others. *)
Lemma place_leads (key : Key) (init : Obj) (f : Obj → kubeErr + Obj) (P : Obj → Prop) (L : list (Key * (Obj → Prop))) (x0 : Seen) :
  keeps_deletion f → m_Deleting (o_Meta init) = false → (∀ o o', f o = inr o' → P o') → key ∈ keys → key ∉ L.*1 →
  leads see (placed x0 L) (CreateOrUpdate key init f) (λ res x, only keys x0 x ∧ (∀ u, res = inr u → placed x0 ((key, P) :: L) x)).
Proof.
  intros Hf Hi HP Hk Hn. apply leads_each. intros x1 [Ho HL].
  eapply leads_weaken; [by apply CreateOrUpdate_leads|done|]. intros res x (H1 & _ & H3 & _).
  assert (Hx : only keys x0 x) by (eapply only_trans; [done|eapply only_weaken; [done|set_solver]|done]).
  split; [done|]. intros u Hu. split; [done|]. constructor; [destruct (H3 u Hu) as (o & E & Eo); exists o; cbn; eauto|].
  eapply in_place_elsewhere; [exact H1|intros key' Hin; rewrite list_elem_of_singleton; by intros ->|done].
Qed.

Lemma place_step (key : Key) (init : Obj) (f : Obj → kubeErr + Obj) (P : Obj → Prop) (L : list (Key * (Obj → Prop))) (x0 : Seen) :
  keeps_deletion f → m_Deleting (o_Meta init) = false → (∀ o o', f o = inr o' → P o') → key ∈ keys → key ∉ L.*1 →
  leads see (placed x0 L) (raise (CreateOrUpdate key init f)) (place_post x0 ((key, P) :: L)).
Proof.
  intros Hf Hi HP Hk Hn. eapply leads_raise; [by apply (place_leads key init f P L x0)|by intros e e' x [Ho _]|].
  intros u x [_ Hx]. by eapply Hx.
Qed.

Lemma place_stepf (msg : string) (key : Key) (init : Obj) (f : Obj → kubeErr + Obj) (P : Obj → Prop) (L : list (Key * (Obj → Prop))) (x0 : Seen) :
  keeps_deletion f → m_Deleting (o_Meta init) = false → (∀ o o', f o = inr o' → P o') → key ∈ keys → key ∉ L.*1 →
  leads see (placed x0 L) (raisef msg (CreateOrUpdate key init f)) (place_post x0 ((key, P) :: L)).
Proof.
  intros Hf Hi HP Hk Hn. eapply leads_raisef; [by apply (place_leads key init f P L x0)|by intros e e' x [Ho _]|].
  intros u x [_ Hx]. by eapply Hx.
Qed.

Lemma place_bind {A : Type} (x0 : Seen) (L L' : list (Key * (Obj → Prop))) (m : M cluster string unit) (c : unit → M cluster string A)
    (Q : string + A → Seen → Prop) :
  (∀ e x, only keys x0 x → Q (inl e) x) →
  leads see (placed x0 L) m (place_post x0 L') → leads see (placed x0 L') (c tt) Q → leads see (placed x0 L) (m ≫= c) Q.
Proof.
  intros Herr Hm Hc. eapply leads_bind with (Q := λ _, placed x0 L'); [|by intros []].
  eapply leads_weaken; [exact Hm|done|]. intros [e|u] x Hx; [by apply Herr|done].
Qed.

Lemma placed_start (x : Seen) : placed x [] x.
Proof. by split; [apply only_refl|constructor]. Qed.
End placing.

(** ** A cluster in memory *)

Fixpoint uput (f : string) (v : uval) (fields : list (string * uval)) : list (string * uval) :=
  match fields with
  | [] => [(f, v)]
  | (g, w) :: fields => if String.eqb g f then (g, v) :: fields else (g, w) :: uput f v fields
  end.

Fixpoint set_nested (path : list string) (new v : uval) : option uval :=
  match path with
  | [] => Some new
  | f :: path =>
    match v with
    | UMap fields => sub ← set_nested path new (default (UMap []) (ufind f fields)); Some (UMap (uput f sub fields))
    | _ => None
    end
  end.

Lemma ufind_uput_eq f v fields : ufind f (uput f v fields) = Some v.
Proof.
  induction fields as [|[g w] fields IH]; cbn; [by rewrite String.eqb_refl|].
  destruct (String.eqb g f) eqn:E; cbn; by rewrite E.
Qed.

Lemma ufind_uput_ne f g v fields : f ≠ g → ufind g (uput f v fields) = ufind g fields.
Proof.
  intros Hne. induction fields as [|[h w] fields IH]; cbn.
  - by destruct (String.eqb_spec f g).
  - destruct (String.eqb_spec h f) as [->|]; cbn; [by destruct (String.eqb_spec f g)|]. by rewrite IH.
Qed.

Lemma apart_cons f p q : apart (f :: p) (f :: q) → apart p q.
Proof. intros [H1 H2]. split; intros ?; [apply H1|apply H2]; by apply prefix_cons. Qed.

Lemma apart_empty p q : apart p q → (∃ f r, q = f :: r) ∧ ∃ f r, p = f :: r.
Proof. intros [H1 H2]. destruct p; [by destruct H1; apply prefix_nil|]. destruct q; [by destruct H2; apply prefix_nil|]. split; eauto. Qed.

Lemma nested_default q o : q ≠ [] → nested q (default (UMap []) o) = o ≫= nested q.
Proof. destruct q as [|f q]; [done|]. by destruct o. Qed.

Lemma nested_set path new v v' : set_nested path new v = Some v' → nested path v' = Some new.
Proof.
  revert v v'. induction path as [|f path IH]; intros v v'; cbn; [congruence|].
  destruct v as [| | | |fields]; try done. intros E. apply bind_Some in E as (sub & Es & [= <-]).
  cbn. rewrite ufind_uput_eq. cbn. by eapply IH.
Qed.

Lemma nested_set_apart path new v v' q : set_nested path new v = Some v' → apart path q → nested q v' = nested q v.
Proof.
  revert v v' q. induction path as [|f path IH]; intros v v' q Es Hq.
  { by destruct (apart_empty _ _ Hq) as [_ (? & ? & ?)]. }
  destruct (apart_empty _ _ Hq) as [(g & r & ->) _]. cbn in Es. destruct v as [| | | |fields]; try done.
  apply bind_Some in Es as (sub & Es & [= <-]). cbn. destruct (decide (f = g)) as [->|Hne].
  - rewrite ufind_uput_eq. cbn. apply apart_cons in Hq. rewrite (IH _ _ _ Es Hq). apply nested_default.
    intros ->. by destruct (apart_empty _ _ Hq) as [(? & ? & ?) _].
  - by rewrite ufind_uput_ne.
Qed.

(** [mc_down]: the keys on which every call fails. *)
Record MemCluster := mkMemCluster { mc_store : gmap Key Obj; mc_served : list string; mc_down : list Key }.

Definition mem_objs (k : MemCluster) : gmap Key Obj := omap settle (mc_store k).
Definition mem_put (key : Key) (f : option Obj → option Obj) (k : MemCluster) : MemCluster :=
  mkMemCluster (partial_alter (λ _, f (mem_objs k !! key)) key (mc_store k)) (mc_served k) (mc_down k).

Definition guarded {A} (key : Key) (m : M MemCluster kubeErr A) : M MemCluster kubeErr A := λ k,
  if bool_decide (key ∈ mc_down k) then (inl (KErr "timeout"), k)
  else if bool_decide (key.1.1 ∈ mc_served k) then m k else (inl KNoMatch, k).

(** Objects of a kind that is not served cannot be found. *)
Definition mem_get (key : Key) : M MemCluster kubeErr Obj := λ k,
  if bool_decide (key ∈ mc_down k) then (inl (KErr "timeout"), k)
  else match mem_objs k !! key with Some o => (inr o, k) | None => (inl KNotFound, k) end.

Definition label_map (v : uval) : Labels :=
  match v with UMap l => list_to_map (omap (λ '(f, v), match v with UString s => Some (f, s) | _ => None end) l) | _ => ∅ end.

#[local] Instance mem_cluster : Cluster := {|
  cluster := MemCluster;
  objs := mem_objs;
  served k kind := bool_decide (kind ∈ mc_served k);
  RESTMapping kind k := (if bool_decide (kind ∈ mc_served k) then inr tt else inl KNoMatch, k);
  Get := mem_get;
  Update key o k :=
    if bool_decide (key ∈ mc_down k) then (inl (KErr "timeout"), k)
    else match mem_objs k !! key with
         | Some _ => (inr tt, mem_put key (λ old, updated old o) k)
         | None => (inl KNotFound, k)
         end;
  Delete key k :=
    if bool_decide (key ∈ mc_down k) then (inl (KErr "timeout"), k)
    else match mem_objs k !! key with
         | Some _ => (inr tt, mem_put key deleted k)
         | None => (inl KNotFound, k)
         end;
  CreateOrUpdate key init f :=
    guarded key (λ k, match f (default init (mem_objs k !! key)) with
                      | inl (KErr e) => (inl (KErr e), k)
                      | inl _ => (inl (KErr "invalid"), k)
                      | inr o => (inr tt, mem_put key (λ old, updated old o) k)
                      end);
  AddFinalizer f o :=
    mkObj (with_finalizers (m_Finalizers (o_Meta o) ++ if bool_decide (f ∈ m_Finalizers (o_Meta o)) then [] else [f]) (o_Meta o)) (o_Content o);
  RemoveFinalizer f o := mkObj (with_finalizers (filter (λ g, g ≠ f) (m_Finalizers (o_Meta o))) (o_Meta o)) (o_Content o);
  ContainsFinalizer o f := bool_decide (f ∈ m_Finalizers (o_Meta o));
  SetNestedField v path o :=
    match path with
    | "metadata" :: _ => inr (mkObj (with_labels (label_map v) (o_Meta o)) (o_Content o))
    | _ => match set_nested path v (content o) with
           | Some c => inr (mkObj (o_Meta o) (CUnstructured c))
           | None => inl (KErr "not a map")
           end
    end;
  NestedSlice path o :=
    match nested path (content o) with Some (USlice l) => inr (Some l) | Some _ => inl "not a slice" | None => inr None end;
  NestedString f v := match nested [f] v with Some (UString s) => s | _ => "" end;
  semver_Parse s :=
    match Split "." s with
    | [a; b; _] => match Atoi a, Atoi b with Some a, Some b => Some (a, b) | _, _ => None end
    | _ => None
    end;
|}.

Lemma mem_put_objs key f k : (∀ o, f o ≫= settle = f o) → mem_objs (mem_put key f k) = partial_alter f key (mem_objs k).
Proof.
  intros Hf. unfold mem_objs, mem_put. cbn. apply map_eq. intros key'. rewrite lookup_omap.
  destruct (decide (key' = key)) as [->|Hne]; [by rewrite !lookup_partial_alter_eq, Hf|].
  rewrite !lookup_partial_alter_ne by congruence. by rewrite lookup_omap.
Qed.

Lemma updated_settled o old : updated old o ≫= settle = updated old o.
Proof. apply settle_settle. Qed.
Lemma deleted_settled old : deleted old ≫= settle = deleted old.
Proof. destruct old; cbn; [apply settle_settle|done]. Qed.

Lemma label_map_list (l : Labels) : label_map (UMap (prod_map id UString <$> map_to_list l)) = l.
Proof.
  cbn. rewrite <- (list_to_map_to_list l) at 2. f_equal. generalize (map_to_list l). intros m.
  induction m as [|[f s] m IH]; cbn; [done|]. by rewrite IH.
Qed.

Lemma mem_write (key : Key) f k : (∀ o, f o ≫= settle = f o) → @writes mem_cluster kubeErr unit key f (inr tt) k (mem_put key f k).
Proof. intros Hf. split; [done|]. left. by apply mem_put_objs. Qed.

#[local] Instance mem_cluster_laws : ClusterLaws.
Proof.
  split.
  - intros k key o. cbn. unfold mem_objs. rewrite lookup_omap. intros E. apply bind_Some in E as (o' & _ & E).
    by rewrite <- (settle_Some _ _ E) in E.
  - intros kind k. cbn. by case_bool_decide.
  - intros key k. cbn. unfold mem_get. case_bool_decide; [done|]. by destruct (mem_objs k !! key).
  - intros key o k. cbn. case_bool_decide; [by split; [split; [done|right; eauto]|]|].
    destruct (mem_objs k !! key) eqn:E.
    + split; [by apply mem_write, updated_settled|]. intros _ _; eauto.
    + split; [split; [done|right; eauto]|done].
  - intros key k. cbn. case_bool_decide; [by split; [done|right; eauto]|].
    destruct (mem_objs k !! key) eqn:E; [by apply mem_write, deleted_settled|done].
  - intros key init f k. cbn. unfold guarded. case_bool_decide; [split_and!; [done|done|left; eauto]|].
    case_bool_decide; [|split_and!; [done|done|left; eauto]].
    destruct (f _) as [[]|o] eqn:E; try (split_and!; [done|done|left; by eauto]).
    split; [reflexivity|]; split; [discriminate|]. right. exists o. split; [done|]. apply mem_put_objs. intros ?. apply updated_settled.
  - done.
  - done.
  - done.
  - intros v path o o'. unfold SetNestedField, mem_cluster. destruct (set_nested ("spec" :: path) v (content o)) as [c|] eqn:E; [|done].
    intros [= <-]. cbn [o_Meta]. split_and!; [done|by eapply nested_set|]. intros q Hq. by eapply nested_set_apart.
  - intros l o o'. unfold SetNestedField, mem_cluster. intros E. injection E as <-. f_equal. f_equal. apply label_map_list.
  - intros path o. cbn. destruct (nested path (content o)) as [[]|] eqn:E; done || by intros.
  - done.
Qed.
