(* ===== verification/ConsolePlugin.v ===== *)
(** * The console plugin

    internal/controller/consoleplugin_controller.go: the singleton controller
    that runs the plugin of the web console on the releases it supports, takes
    it down on the others, and cleans up before its ConsolePlugin goes.  The
    API server is the class [Cluster].  Errors of a callback that only logs
    them are dropped; durations are seconds. *)
From S2P Require Import Prelude Effects GoStrings BuildJobs Deploy Cluster.

(** ** Constants *)

Definition consolePluginCRName : string := "oc-mirror-operator".
Definition consoleClusterOperator : string := "console".
Definition pluginSAName : string := "oc-mirror-plugin".
Definition pluginDeploymentName : string := "oc-mirror-plugin".
Definition pluginServiceName : string := "oc-mirror-plugin".
Definition pluginRoleName : string := "oc-mirror-plugin".
Definition pluginPort : Z := 9443.
Definition pluginTLSSecretName : string := "oc-mirror-plugin-tls".
Definition pluginReconcileInterval : Z := 10 * 60.
Definition pluginCleanupFinalizer : string := "mirror.openshift.io/plugin-cleanup".
Definition legacyDashboardServiceName : string := "oc-mirror-dashboard".

Definition supportedConsolePluginMinors : list string := ["4.18"; "4.19"; "4.20"; "4.21"; "4.22"; "5.0"].

Record ConsolePluginReconciler := mkConsolePluginReconciler { pl_Namespace : string; pl_PluginImages : gmap string string }.

Definition cr_key : Key := ("ConsolePlugin", "", consolePluginCRName).
Definition operator_key : Key := ("ClusterOperator", "", consoleClusterOperator).

(** ** What each object is to be *)

Definition restrictedContainerSecurityContext : SecurityContext := mkSecurityContext false true ["ALL"] "RuntimeDefault".

Definition plugin_rules : list PolicyRule :=
  [mkPolicyRule ["mirror.openshift.io"] ["mirrortargets"; "imagesets"] [] ["get"; "list"; "watch"; "update"; "patch"];
   mkPolicyRule [""] ["configmaps"] [] ["get"; "list"; "watch"]].

Definition plugin_template (ns pluginImage : string) : PodTemplateSpec := {|
  ps_Labels := {["app" := pluginDeploymentName]};
  ps_ServiceAccountName := pluginSAName;
  ps_Containers := [{|
    pc_Name := "plugin"; pc_Image := pluginImage; pc_Command := ["/plugin"];
    pc_Args := ["--bind-address=:" +:+ Itoa pluginPort; "--cert-file=/var/serving-cert/tls.crt"; "--key-file=/var/serving-cert/tls.key"];
    pc_Ports := [mkContainerPort "https" pluginPort "TCP"];
    pc_Env := [mkEnvVar "POD_NAMESPACE" ns];
    pc_Requests := [("cpu", "10m"); ("memory", "50Mi")]; pc_Limits := [("cpu", "100m"); ("memory", "100Mi")];
    pc_ReadinessProbe := mkHTTPProbe "/plugin-manifest.json" pluginPort "HTTPS" 5 10 3 3;
    pc_LivenessProbe := mkHTTPProbe "/plugin-manifest.json" pluginPort "HTTPS" 15 30 5 3;
    pc_VolumeMounts := [mkVolumeMount "serving-cert" "/var/serving-cert"];
    pc_SecurityContext := restrictedContainerSecurityContext |}];
  ps_Volumes := [mkVolume "serving-cert" (VSecret pluginTLSSecretName [])];
|}.

Definition serving_cert_annotation : string := "service.beta.openshift.io/serving-cert-secret-name".

Definition plugin_proxies (ns : string) : list uval :=
  [UMap [("alias", UString "resourceapi"); ("authorization", UString "UserToken");
         ("endpoint", UMap [("type", UString "Service");
                            ("service", UMap [("namespace", UString ns); ("name", UString pluginServiceName); ("port", UInt pluginPort)])])]].

(** ** The controller *)

(** [strings.ReplaceAll] of a character by a character. *)
Fixpoint replace_char (old new : ascii) (s : string) : string :=
  match s with "" => "" | String c s => String (if Ascii.eqb c old then new else c) (replace_char old new s) end.

Definition pluginImageEnvironmentVariable (minor : string) : string := "RELATED_IMAGE_PLUGIN_" +:+ replace_char "." "_" minor.

(** The images the controller is started with, from its environment: by
    cmd/controller/main.go and by the older cmd/main.go. *)
Definition pluginImages (getenv : string → string) : gmap string string :=
  {["4.18" := getenv "RELATED_IMAGE_PLUGIN_4_18"; "4.19" := getenv "RELATED_IMAGE_PLUGIN_4_19";
    "4.20" := getenv "RELATED_IMAGE_PLUGIN_4_20"; "4.21" := getenv "RELATED_IMAGE_PLUGIN_4_21";
    "4.22" := getenv "RELATED_IMAGE_PLUGIN_4_22"; "5.0" := getenv "RELATED_IMAGE_PLUGIN_5_0"]}.
Definition pluginImagesLegacy (getenv : string → string) : gmap string string :=
  {["4.18" := getenv "RELATED_IMAGE_PLUGIN_4_18"; "4.19" := getenv "RELATED_IMAGE_PLUGIN_4_19";
    "4.20" := getenv "RELATED_IMAGE_PLUGIN_4_20"; "4.21" := getenv "RELATED_IMAGE_PLUGIN_4_21";
    "4.22" := getenv "RELATED_IMAGE_PLUGIN_4_22"]}.

Section reconciler.
Context `{Cluster} (r : ConsolePluginReconciler).

Definition ns_key (kind name : string) : Key := (kind, pl_Namespace r, name).

Definition ensureServiceAccount : M cluster kubeErr unit :=
  CreateOrUpdate (ns_key "ServiceAccount" pluginSAName) (allocated CServiceAccount) (λ sa, inr sa).

Definition ensureRBAC : M cluster string unit :=
  _ ← raisef "failed to create/update Role"
        (CreateOrUpdate (ns_key "Role" pluginRoleName) (allocated (CRole []))
          (λ role, inr (mkObj (o_Meta role) (CRole plugin_rules))));
  raisef "failed to create/update RoleBinding"
    (CreateOrUpdate (ns_key "RoleBinding" pluginRoleName) (allocated (CRoleBinding None []))
      (λ rb, inr (mkObj (o_Meta rb)
        (CRoleBinding (Some (mkRoleRef "rbac.authorization.k8s.io" "Role" pluginRoleName))
          [mkSubject "ServiceAccount" pluginSAName (pl_Namespace r)])))).

Definition set_deployment (pluginImage : string) (dep : Obj) : kubeErr + Obj :=
  let other := match o_Content dep with CDeployment d => dp_Other d | _ => ∅ end in
  inr (mkObj (o_Meta dep)
    (CDeployment (mkDeployment (Some 1%Z) {["app" := pluginDeploymentName]} (Some (plugin_template (pl_Namespace r) pluginImage)) other))).

Definition ensureDeployment (pluginImage : string) : M cluster kubeErr unit :=
  CreateOrUpdate (ns_key "Deployment" pluginDeploymentName) (allocated (CDeployment (mkDeployment None ∅ None ∅)))
    (set_deployment pluginImage).

Definition set_service (svc : Obj) : kubeErr + Obj :=
  let other := match o_Content svc with CService s => sv_Other s | _ => ∅ end in
  inr (mkObj (with_annotations (<[serving_cert_annotation := pluginTLSSecretName]> (m_Annotations (o_Meta svc))) (o_Meta svc))
    (CService (mkService {["app" := pluginServiceName]} [mkSvcPort "https" pluginPort pluginPort "TCP"] other))).

Definition ensureService : M cluster kubeErr unit :=
  CreateOrUpdate (ns_key "Service" pluginServiceName) (allocated (CService (mkService ∅ [] ∅))) set_service.

Definition set_plugin (plugin : Obj) : kubeErr + Obj :=
  let plugin := AddFinalizer pluginCleanupFinalizer plugin in
  plugin ←ₑ SetNestedField (UString "OC Mirror Operator") ["spec"; "displayName"] plugin;
  plugin ←ₑ SetNestedField (UString "Service") ["spec"; "backend"; "type"] plugin;
  plugin ←ₑ SetNestedField (UString (pl_Namespace r)) ["spec"; "backend"; "service"; "namespace"] plugin;
  plugin ←ₑ SetNestedField (UString pluginServiceName) ["spec"; "backend"; "service"; "name"] plugin;
  plugin ←ₑ SetNestedField (UInt pluginPort) ["spec"; "backend"; "service"; "port"] plugin;
  plugin ←ₑ SetNestedField (UString "/") ["spec"; "backend"; "service"; "basePath"] plugin;
  plugin ←ₑ SetNestedField (USlice (plugin_proxies (pl_Namespace r))) ["spec"; "proxy"] plugin;
  SetNestedField (UString "Preload") ["spec"; "i18n"; "loadType"] plugin.

Definition ensureConsolePlugin : M cluster kubeErr unit := λ k,
  match CreateOrUpdate cr_key unstructured set_plugin k with
  | (inl KNoMatch, k) => (inr tt, k)
  | res => res
  end.

(** One of the deletions of [deletePluginResources]. *)
Definition delete_resource (kind name : string) (errs : list string) : M cluster string (list string) :=
  res ← try (Delete (ns_key kind name));
  match res with
  | inr _ | inl KNotFound => mret errs
  | inl e => mret (errs ++ ["delete plugin " +:+ kind +:+ ": " +:+ errText e])
  end.

Definition deletePluginResources : M cluster string unit :=
  errs ← delete_resource "Deployment" pluginDeploymentName [];
  errs ← delete_resource "Service" pluginServiceName errs;
  errs ← delete_resource "ServiceAccount" pluginSAName errs;
  errs ← delete_resource "RoleBinding" pluginRoleName errs;
  errs ← delete_resource "Role" pluginRoleName errs;
  match errs with [] => mret tt | errs => fail (Join errs (String "010" "")) end.

Definition unregisterConsolePlugin : M cluster string unit :=
  found ← try (Get cr_key);
  match found with
  | inl KNotFound => rewrap "delete supporting resources for unregistered ConsolePlugin" deletePluginResources
  | inl e => fail ("get ConsolePlugin resource for cleanup: " +:+ errText e)
  | inr plugin =>
    _ ← rewrap "delete supporting resources for unsupported ConsolePlugin" deletePluginResources;
    _ ← (if ContainsFinalizer plugin pluginCleanupFinalizer then
           raisef "remove plugin-cleanup finalizer while unregistering ConsolePlugin"
             (Update cr_key (RemoveFinalizer pluginCleanupFinalizer plugin))
         else mret tt);
    if m_Deleting (o_Meta plugin) then mret tt
    else
      gone ← try (Delete cr_key);
      match gone with
      | inr _ | inl KNotFound => mret tt
      | inl e => fail ("delete unsupported ConsolePlugin resource: " +:+ errText e)
      end
  end.

Definition cleanupLegacyDashboard : M cluster string unit :=
  _ ← try (Delete (ns_key "Service" legacyDashboardServiceName));
  _ ← try (Delete (ns_key "Route" legacyDashboardServiceName));
  mret tt.

(** The loop over status.versions. *)
Fixpoint operator_version (versions : list uval) : string + string :=
  match versions with
  | [] => inl "ClusterOperator console status.versions has no operator version"
  | UMap fields :: versions =>
    if negb (String.eqb (NestedString "name" (UMap fields)) "operator") then operator_version versions
    else
      let version := NestedString "version" (UMap fields) in
      match semver_Parse version with
      | None => inl ("ClusterOperator console operator version " +:+ version +:+ " is malformed")
      | Some (major, minor) => inr (Itoa major +:+ "." +:+ Itoa minor)
      end
  | _ :: versions => operator_version versions
  end.

(** The release, or the reason why there is none. *)
Definition consoleReleaseMinor : M cluster string (string + string) :=
  found ← try (Get operator_key);
  match found with
  | inl KNoMatch => mret (inl "ClusterOperator API is unavailable")
  | inl KNotFound => mret (inl "ClusterOperator console was not found")
  | inl (KErr e) => fail ("get ClusterOperator console: " +:+ e)
  | inr operator =>
    match NestedSlice ["status"; "versions"] operator with
    | inl e => mret (inl ("ClusterOperator console has malformed status.versions: " +:+ e))
    | inr None => mret (inl "ClusterOperator console status.versions is missing")
    | inr (Some versions) => mret (operator_version versions)
    end
  end.

(** The delay until the next run; 0 for none. *)
Definition unregister_and_wait : M cluster string Z := _ ← unregisterConsolePlugin; mret pluginReconcileInterval.

(** [Reconcile] once the ConsolePlugin is known not to be deleted. *)
Definition reconcile_release : M cluster string Z :=
  release ← consoleReleaseMinor;
  match release with
  | inl reason => unregister_and_wait
  | inr release =>
    if negb (bool_decide (release ∈ supportedConsolePluginMinors)) then unregister_and_wait
    else
      let pluginImage := default "" (pl_PluginImages r !! release) in
      if String.eqb pluginImage "" then unregister_and_wait
      else
        _ ← raise ensureServiceAccount;
        _ ← ensureRBAC;
        _ ← raise (ensureDeployment pluginImage);
        _ ← raise ensureService;
        _ ← raise ensureConsolePlugin;
        _ ← cleanupLegacyDashboard;
        mret pluginReconcileInterval
  end.

Definition Reconcile : M cluster string Z :=
  mapping ← try (RESTMapping "ConsolePlugin");
  match mapping with
  | inl KNoMatch => mret pluginReconcileInterval
  | inl e => fail ("discover ConsolePlugin API: " +:+ errText e)
  | inr _ =>
    found ← try (Get cr_key);
    match found with
    | inr existing =>
      if m_Deleting (o_Meta existing) then
        _ ← rewrap "delete plugin resources while finalizing ConsolePlugin" deletePluginResources;
        _ ← raisef "remove plugin-cleanup finalizer" (Update cr_key (RemoveFinalizer pluginCleanupFinalizer existing));
        mret 0%Z
      else reconcile_release
    | inl KNotFound => reconcile_release
    | inl e => fail ("get ConsolePlugin resource: " +:+ errText e)
    end
  end.

(** ** Triggers *)

(** What the controller watches, and how an event of an object is mapped. *)
Inductive Watch := WNamespace | WDeployment | WConsolePlugin | WClusterOperator.

Definition SetupWithManager : M cluster string (list Watch) :=
  plugins ← try (RESTMapping "ConsolePlugin");
  watches ← match plugins with
            | inr _ => mret [WNamespace; WDeployment; WConsolePlugin]
            | inl KNoMatch => mret [WNamespace; WDeployment]
            | inl e => fail ("discover ConsolePlugin API for watch: " +:+ errText e)
            end;
  operators ← try (RESTMapping "ClusterOperator");
  match operators with
  | inr _ => mret (watches ++ [WClusterOperator])
  | inl KNoMatch => mret watches
  | inl e => fail ("discover ClusterOperator API for watch: " +:+ errText e)
  end.

Definition enqueueForPluginDeployment (namespace name : string) : list string :=
  if negb (String.eqb name pluginDeploymentName) || negb (String.eqb namespace (pl_Namespace r)) then [] else [pl_Namespace r].
Definition enqueueForConsolePlugin (name : string) : list string :=
  if negb (String.eqb name consolePluginCRName) then [] else [pl_Namespace r].
Definition enqueueForConsoleClusterOperator (name : string) : list string :=
  if negb (String.eqb name consoleClusterOperator) then [] else [pl_Namespace r].

(** The requests an event of the object at a key leads to. *)
Definition requests (watches : list Watch) (key : Key) : list string :=
  let '(kind, namespace, name) := key in
  watches ≫= λ w,
    match w with
    | WNamespace => if String.eqb kind "Namespace" && String.eqb name (pl_Namespace r) then [name] else []
    | WDeployment => if String.eqb kind "Deployment" then enqueueForPluginDeployment namespace name else []
    | WConsolePlugin => if String.eqb kind "ConsolePlugin" then enqueueForConsolePlugin name else []
    | WClusterOperator => if String.eqb kind "ClusterOperator" then enqueueForConsoleClusterOperator name else []
    end.
End reconciler.

(** ** What a run is to achieve *)

Section goals.
Context `{Cluster} (r : ConsolePluginReconciler).

Definition resource_keys : list Key :=
  [ns_key r "Deployment" pluginDeploymentName; ns_key r "Service" pluginServiceName; ns_key r "ServiceAccount" pluginSAName;
   ns_key r "RoleBinding" pluginRoleName; ns_key r "Role" pluginRoleName].
Definition legacy_keys : list Key := [ns_key r "Service" legacyDashboardServiceName; ns_key r "Route" legacyDashboardServiceName].
Definition own_keys : list Key := cr_key :: resource_keys ++ legacy_keys.

(** The release of the console: the version of the first entry named
    "operator" in the status of its ClusterOperator. *)
Definition named_operator (v : uval) : bool := match nested ["name"] v with Some (UString s) => String.eqb s "operator" | _ => false end.
Definition entry_version (v : uval) : string := match nested ["version"] v with Some (UString s) => s | _ => "" end.
Definition console_release (m : gmap Key Obj) : option string :=
  operator ← m !! operator_key;
  versions ← match nested ["status"; "versions"] (content operator) with Some (USlice l) => Some l | _ => None end;
  entry ← head (List.filter named_operator versions);
  '(major, minor) ← semver_Parse (entry_version entry);
  Some (Itoa major +:+ "." +:+ Itoa minor).

(** The image to run, if the plugin is to run at all. *)
Definition wanted_image (m : gmap Key Obj) : option string :=
  release ← console_release m;
  guard (release ∈ supportedConsolePluginMinors);;
  image ← pl_PluginImages r !! release;
  guard (image ≠ "");; Some image.

Definition guards_cleanup (m : gmap Key Obj) : Prop := ∃ o, m !! cr_key = Some o ∧ pluginCleanupFinalizer ∈ m_Finalizers (o_Meta o).

Definition unregistered (m : gmap Key Obj) : Prop :=
  (∀ key, key ∈ resource_keys → released m key) ∧ released m cr_key ∧ ¬ guards_cleanup m.

(** Behind the port of the Service there is a container that runs the image,
    with the certificate that is made for the Service. *)
Definition serves (m : gmap Key Obj) (ns name : string) (port : Z) (image : string) : Prop :=
  ∃ svc s p dep d t c secret v,
    m !! ("Service", ns, name) = Some svc ∧ o_Content svc = CService s ∧ p ∈ sv_Ports s ∧ vp_Port p = port ∧
    m !! ("Deployment", ns, pluginDeploymentName) = Some dep ∧ o_Content dep = CDeployment d ∧
    dp_Replicas d = Some 1%Z ∧ dp_Template d = Some t ∧ dp_Selector d ⊆ ps_Labels t ∧ sv_Selector s ⊆ ps_Labels t ∧
    c ∈ ps_Containers t ∧ pc_Image c = image ∧ vp_TargetPort p ∈ cp_ContainerPort <$> pc_Ports c ∧
    m_Annotations (o_Meta svc) !! serving_cert_annotation = Some secret ∧
    v ∈ ps_Volumes t ∧ vo_Source v = VSecret secret [] ∧ mkVolumeMount (vo_Name v) "/var/serving-cert" ∈ pc_VolumeMounts c ∧
    is_Some (m !! ("ServiceAccount", ns, ps_ServiceAccountName t)).

(** The service account of the plugin has the role. *)
Definition permitted (m : gmap Key Obj) (ns : string) : Prop :=
  ∃ rb role ref,
    m !! ("RoleBinding", ns, pluginRoleName) = Some rb ∧
    o_Content rb = CRoleBinding (Some ref) [mkSubject "ServiceAccount" pluginSAName ns] ∧
    m !! (rr_Kind ref, ns, rr_Name ref) = Some role ∧ o_Content role = CRole plugin_rules.

(** The service a part of the ConsolePlugin names. *)
Definition names_service (v : uval) (path : list string) (ns name : string) (port : Z) : Prop :=
  nested (path ++ ["namespace"]) v = Some (UString ns) ∧ nested (path ++ ["name"]) v = Some (UString name) ∧
  nested (path ++ ["port"]) v = Some (UInt port).

(** The console has the plugin and its proxy behind a service that serves it;
    fields of the ConsolePlugin that the controller does not set are those of
    [old]. *)
Definition registered (image : string) (old : option Obj) (m : gmap Key Obj) : Prop :=
  ∃ cr ns name port proxy,
    m !! cr_key = Some cr ∧ pluginCleanupFinalizer ∈ m_Finalizers (o_Meta cr) ∧
    names_service (content cr) ["spec"; "backend"; "service"] ns name port ∧
    nested ["spec"; "proxy"] (content cr) = Some (USlice [proxy]) ∧ names_service proxy ["endpoint"; "service"] ns name port ∧
    serves m ns name port image ∧ permitted m ns ∧
    (∀ q, Forall (apart q) [["spec"; "displayName"]; ["spec"; "backend"]; ["spec"; "proxy"]; ["spec"; "i18n"; "loadType"]] →
      nested q (content cr) = nested q (content (default unstructured old))).
End goals.

(** ** Taking the plugin down *)

Section down.
Context `{ClusterLaws} (r : ConsolePluginReconciler).

Definition swept (x0 : Seen) (gone : list Key) (errs : list string) (x : Seen) : Prop :=
  only (resource_keys r) x0 x ∧ (errs = [] → ∀ key, key ∈ gone → released x.1 key).

Lemma delete_resource_leads kind name errs gone x0 :
  ns_key r kind name ∈ resource_keys r → ns_key r kind name ∉ gone →
  leads see (swept x0 gone errs) (delete_resource r kind name errs)
    (or_error (λ _, False) (swept x0 (ns_key r kind name :: gone))).
Proof.
  intros Hk Hg. apply leads_each. intros x1 [Ho Hr]. eapply leads_try; [apply Delete_leads|].
  intros res. cbn beta.
  assert (Hx : ∀ x, only [ns_key r kind name] x1 x → only (resource_keys r) x0 x) by
    (intros x ?; eapply only_trans; [done|eapply only_weaken; [done|set_solver]|done]).
  assert (Hkeep : ∀ x, only [ns_key r kind name] x1 x → released x.1 (ns_key r kind name) → swept x0 (ns_key r kind name :: gone) errs x).
  { intros x Hx1 Hrel. split; [by apply Hx|]. intros -> key Hin. apply elem_of_cons in Hin as [->|Hin]; [done|].
    eapply released_elsewhere; [done|set_solver|by apply Hr]. }
  destruct res as [[]|u]; apply leads_ret; intros x (H1 & H2 & _).
  - apply Hkeep; [done|]. apply H2. by left.
  - split; [by apply Hx|]. intros E. by apply app_eq_nil in E as [_ ?].
  - split; [by apply Hx|]. intros E. by apply app_eq_nil in E as [_ ?].
  - apply Hkeep; [done|]. apply H2. right. eauto.
Qed.

Lemma deletePluginResources_leads x0 :
  leads see (eq x0) (deletePluginResources r) (λ res x,
    only (resource_keys r) x0 x ∧ (res = inr tt → ∀ key, key ∈ resource_keys r → released x.1 key)).
Proof.
  assert (Hstep : ∀ kind name errs gone (c : list string → M cluster string unit) Q,
    ns_key r kind name ∈ resource_keys r → ns_key r kind name ∉ gone →
    (∀ errs, leads see (swept x0 (ns_key r kind name :: gone) errs) (c errs) Q) →
    leads see (swept x0 gone errs) (delete_resource r kind name errs ≫= c) Q).
  { intros kind name errs gone c Q H1 H2 Hc. eapply leads_bind; [|exact Hc].
    eapply leads_weaken; [by apply delete_resource_leads|done|]. by intros [|]. }
  unfold deletePluginResources.
  eapply leads_weaken with (P := swept x0 [] []); [|intros x <-; split; [apply only_refl|set_solver]|intros res x HQ; exact HQ].
  do 5 (apply Hstep; [unfold resource_keys; set_solver|unfold ns_key; set_solver|intros ?]).
  match goal with |- context [match ?l with [] => _ | _ => _ end] => destruct l end.
  - apply leads_ret. intros x [Ho Hr]. split; [done|]. intros _ key Hin. apply Hr; [done|]. unfold resource_keys in Hin. set_solver.
  - apply leads_fail. intros x [Ho _]. done.
Qed.

Lemma cr_not_resource : cr_key ∉ resource_keys r.
Proof. unfold resource_keys, ns_key, cr_key. set_solver. Qed.

(** The finalizer of the ConsolePlugin goes only with the resources, and
    nothing else is touched. *)
Definition guard_kept (x0 x : Seen) : Prop :=
  only (own_keys r) x0 x ∧ (guards_cleanup x0.1 → ¬ guards_cleanup x.1 → ∀ key, key ∈ resource_keys r → released x.1 key).

Lemma guard_kept_resources x0 x : only (resource_keys r) x0 x → guard_kept x0 x.
Proof.
  intros Ho. split; [eapply only_weaken; [done|unfold own_keys; set_solver]|].
  intros [o Hg] Hn. destruct Hn. exists o. by rewrite (proj2 Ho) by apply cr_not_resource.
Qed.

(** Removing the finalizer after the resources were released. *)
Lemma remove_finalizer_leads o x0 x1 :
  only (resource_keys r) x0 x1 → (∀ key, key ∈ resource_keys r → released x1.1 key) → x1.1 !! cr_key = Some o →
  leads see (eq x1) (Update cr_key (RemoveFinalizer pluginCleanupFinalizer o)) (λ res x,
    only (own_keys r) x0 x ∧ (∀ key, key ∈ resource_keys r → released x.1 key) ∧
    (∀ u, res = inr u → ∀ o', x.1 !! cr_key = Some o' →
      m_Deleting (o_Meta o') = m_Deleting (o_Meta o) ∧ m_Finalizers (o_Meta o') = filter (λ g, g ≠ pluginCleanupFinalizer) (m_Finalizers (o_Meta o)))).
Proof.
  intros Ho Hr Hc. eapply leads_weaken; [apply Update_leads|done|]. intros res x [H1 H2]. split_and!.
  - eapply only_trans; [done|eapply only_weaken; [done|]|]; unfold own_keys; set_solver.
  - intros key Hk. eapply released_elsewhere; [done| |by apply Hr]. pose proof cr_not_resource. set_solver.
  - intros u -> o' E. destruct H2 as [H2|[[] _]]; [|done]. rewrite Hc, E in H2. symmetry in H2.
    unfold updated in H2. apply settle_Some in H2 as ->. cbn. by rewrite RemoveFinalizer_ok.
Qed.

Lemma own_after_resources key : key ∈ resource_keys r → key ∈ own_keys r.
Proof. unfold own_keys. set_solver. Qed.

(** Deleting the ConsolePlugin, after its finalizer. *)
Lemma delete_plugin_leads x0 x1 :
  only (own_keys r) x0 x1 → (∀ key, key ∈ resource_keys r → released x1.1 key) →
  (∀ o, x1.1 !! cr_key = Some o → pluginCleanupFinalizer ∉ m_Finalizers (o_Meta o)) →
  leads see (eq x1) (Delete cr_key) (λ res x,
    only (own_keys r) x0 x ∧ (∀ key, key ∈ resource_keys r → released x.1 key) ∧ ¬ guards_cleanup x.1 ∧
    (res = inl KNotFound ∨ (∃ u, res = inr u) → released x.1 cr_key)).
Proof.
  intros Ho Hr Hf. eapply leads_weaken; [apply Delete_leads|done|]. intros res x (H1 & H2 & H3). split_and!.
  - eapply only_trans; [done|eapply only_weaken; [done|]|done]. unfold own_keys. set_solver.
  - intros key Hk. eapply released_elsewhere; [done| |by apply Hr]. pose proof cr_not_resource. set_solver.
  - intros (o & Eo & Hin). destruct (H3 o Eo) as (o0 & E0 & EF). rewrite EF in Hin. by eapply Hf.
  - done.
Qed.

Definition down_post (x0 : Seen) (res : string + unit) (x : Seen) : Prop :=
  guard_kept x0 x ∧ ((∃ u, res = inr u) → unregistered r x.1).

Lemma unregistered_guard x0 x : only (own_keys r) x0 x → (∀ key, key ∈ resource_keys r → released x.1 key) → guard_kept x0 x.
Proof. intros Ho Hr. split; [done|]. by intros _ _. Qed.

(** The finalizer of a ConsolePlugin without resources is dropped. *)
Definition finalizer_dropped (x0 : Seen) (plugin : Obj) (x : Seen) : Prop :=
  only (own_keys r) x0 x ∧ (∀ key, key ∈ resource_keys r → released x.1 key) ∧
  ∀ o, x.1 !! cr_key = Some o → m_Deleting (o_Meta o) = m_Deleting (o_Meta plugin) ∧ pluginCleanupFinalizer ∉ m_Finalizers (o_Meta o).

Lemma drop_finalizer_leads msg plugin x0 x1 :
  only (resource_keys r) x0 x1 → (∀ key, key ∈ resource_keys r → released x1.1 key) → x1.1 !! cr_key = Some plugin →
  leads see (eq x1)
    (if ContainsFinalizer plugin pluginCleanupFinalizer then raisef msg (Update cr_key (RemoveFinalizer pluginCleanupFinalizer plugin)) else mret tt)
    (or_error (guard_kept x0) (λ _, finalizer_dropped x0 plugin)).
Proof.
  intros Ho Hr Hc. rewrite ContainsFinalizer_ok. case_bool_decide as Hf.
  - eapply leads_raisef; [by apply (remove_finalizer_leads plugin x0)| |].
    + intros e e' x (H1 & H2 & _). by apply unregistered_guard.
    + intros u x (H1 & H2 & H3). split_and!; [done|done|]. intros o Eo. destruct (H3 u eq_refl o Eo) as [-> ->].
      split; [done|]. rewrite list_elem_of_filter. tauto.
  - apply leads_ret. intros x <-. split_and!; [eapply only_weaken; [done|intros ? ?; by apply own_after_resources]|done|].
    rewrite Hc. by intros o [= <-].
Qed.

Lemma delete_unless_deleting_leads msg plugin x0 x1 :
  finalizer_dropped x0 plugin x1 →
  leads see (eq x1)
    (if m_Deleting (o_Meta plugin) then mret tt
     else gone ← try (Delete cr_key);
          match gone with inr _ | inl KNotFound => mret tt | inl e => fail (msg +:+ errText e) end)
    (down_post x0).
Proof.
  intros (Ho & Hr & Hf). destruct (m_Deleting (o_Meta plugin)) eqn:Ed.
  - apply leads_ret. intros x <-. split; [by apply unregistered_guard|]. intros _.
    split_and!; [done|intros o Eo; by destruct (Hf o Eo)|]. intros (o & Eo & Hin). by apply (proj2 (Hf o Eo)).
  - eapply leads_try; [apply (delete_plugin_leads x0); [done|done|intros o Eo; by apply (Hf o Eo)]|].
    intros [[]|u]; cbn beta iota; (apply leads_ret || apply leads_fail); intros x (H1 & H2 & H3 & H4);
      (split; [by apply unregistered_guard|]); try (by intros [? [=]]); intros _; (split_and!; [done| |done]); apply H4; eauto.
Qed.

Lemma unregisterConsolePlugin_leads x0 :
  leads see (eq x0) (unregisterConsolePlugin r) (down_post x0).
Proof.
  eapply leads_try; [apply Get_leads|]. intros [[]|plugin]; cbn beta iota; apply leads_each; intros ? [-> Hc].
  - apply leads_rewrap; [|by intros e e' x [Hg _]; split; [|intros [? [=]]]].
    eapply leads_weaken; [apply deletePluginResources_leads|done|]. intros res x [Ho Hr]. split; [by apply guard_kept_resources|].
    intros [[] ->]. assert (E : x.1 !! cr_key = None) by (by rewrite (proj2 Ho) by apply cr_not_resource).
    split_and!; [by apply Hr|intros o; by rewrite E|intros (o & Eo & _); by rewrite E in Eo].
  - apply leads_fail. intros x <-. split; [by apply guard_kept_resources|by intros [? [=]]].
  - apply leads_fail. intros x <-. split; [by apply guard_kept_resources|by intros [? [=]]].
  - eapply leads_bind with (Q := λ _ x, only (resource_keys r) x0 x ∧ (∀ key, key ∈ resource_keys r → released x.1 key)).
    { eapply leads_weaken; [apply leads_rewrap; [apply deletePluginResources_leads|]|done|].
      - intros e e' x [Ho _]. split; [done|by intros [=]].
      - intros [e|[]] x [Ho Hr]; [split; [by apply guard_kept_resources|by intros [? [=]]]|by split; [|apply Hr]]. }
    intros _. apply leads_each. intros x1 [Ho Hr].
    eapply leads_bind with (Q := λ _, finalizer_dropped x0 plugin).
    { eapply leads_weaken; [apply (drop_finalizer_leads _ plugin x0); [done|done|by rewrite (proj2 Ho) by apply cr_not_resource]|done|].
      intros [e|u] x Hx; [by split; [|intros [? [=]]]|done]. }
    intros _. apply leads_each. intros x2 Hx2. by apply delete_unless_deleting_leads.
Qed.
End down.

(** ** Setting the plugin up *)

Section up.
Context `{ClusterLaws} (r : ConsolePluginReconciler).

(** ** The ConsolePlugin *)

(** The fields [l] were set one after the other. *)
Fixpoint set_fields (l : list (uval * list string)) (o : Obj) : kubeErr + Obj :=
  match l with
  | [] => inr o
  | (v, path) :: l => o ←ₑ SetNestedField v path o; set_fields l o
  end.

Lemma set_fields_spec l o o' :
  set_fields l o = inr o' → Forall (λ vp, ∃ path, vp.2 = "spec" :: path) l → ForallOrdPairs (λ a b, apart b.2 a.2) l →
  o_Meta o' = o_Meta o ∧ Forall (λ vp, nested vp.2 (content o') = Some vp.1) l ∧
  ∀ q, Forall (λ vp, apart vp.2 q) l → nested q (content o') = nested q (content o).
Proof.
  revert o. induction l as [|[v path] l IH]; intros o E Hs Hp; cbn in E; [by injection E as ->|].
  unfold sbind in E. destruct (SetNestedField v path o) as [|o1] eqn:E1; [done|].
  inversion Hs as [|? ? [path' Ep] Hs']; subst. cbn in Ep; subst path. inversion Hp as [|? ? Ha Hp']; subst.
  destruct (SetNestedField_spec v path' o o1 E1) as (M1 & N1 & F1). destruct (IH o1 E Hs' Hp') as (M2 & N2 & F2).
  split_and!; [congruence|constructor; [|done]|].
  - cbn [fst snd]. rewrite F2; [done|]. done.
  - intros q Hq. inversion Hq; subst. rewrite F2 by done. by apply F1.
Qed.

Definition plugin_fields : list (uval * list string) :=
  [(UString "OC Mirror Operator", ["spec"; "displayName"]); (UString "Service", ["spec"; "backend"; "type"]);
   (UString (pl_Namespace r), ["spec"; "backend"; "service"; "namespace"]);
   (UString pluginServiceName, ["spec"; "backend"; "service"; "name"]);
   (UInt pluginPort, ["spec"; "backend"; "service"; "port"]); (UString "/", ["spec"; "backend"; "service"; "basePath"]);
   (USlice (plugin_proxies (pl_Namespace r)), ["spec"; "proxy"]); (UString "Preload", ["spec"; "i18n"; "loadType"])].

Lemma set_plugin_fields o : set_plugin r o = set_fields plugin_fields (AddFinalizer pluginCleanupFinalizer o).
Proof.
  unfold set_plugin, plugin_fields, set_fields. do 7 (unfold sbind at 1; symmetry; unfold sbind at 1; case_match; [done|]; symmetry).
  unfold sbind. by case_match.
Qed.

Lemma apart_extend q p l : apart q p → apart (p ++ l) q.
Proof.
  intros [H1 H2]. split; intros Hp.
  - apply H2. etransitivity; [|done]. by apply prefix_app_r.
  - destruct (prefix_weak_total q p (p ++ l)) as [?|?]; [done|by apply prefix_app_r|by apply H1|by apply H2].
Qed.

Lemma set_plugin_spec o o' :
  set_plugin r o = inr o' →
  m_Deleting (o_Meta o') = m_Deleting (o_Meta o) ∧ m_Finalizers (o_Meta o) ⊆ m_Finalizers (o_Meta o') ∧
  pluginCleanupFinalizer ∈ m_Finalizers (o_Meta o') ∧
  names_service (content o') ["spec"; "backend"; "service"] (pl_Namespace r) pluginServiceName pluginPort ∧
  nested ["spec"; "proxy"] (content o') = Some (USlice (plugin_proxies (pl_Namespace r))) ∧
  ∀ q, Forall (apart q) [["spec"; "displayName"]; ["spec"; "backend"]; ["spec"; "proxy"]; ["spec"; "i18n"; "loadType"]] →
    nested q (content o') = nested q (content o).
Proof.
  rewrite set_plugin_fields. intros E. apply set_fields_spec in E as (EM & EN & EF).
  - rewrite AddFinalizer_ok in EM, EF. rewrite EM. cbn. unfold plugin_fields in EN.
    repeat (apply Forall_cons in EN as [? EN]). cbn in *.
    split_and!; [done|set_solver|case_bool_decide; set_solver|done|done|].
    intros q Hq. repeat (apply Forall_cons in Hq as [? Hq]). apply EF.
    repeat constructor; cbn; by (eapply (apart_extend q ["spec"; "displayName"] []) || eapply (apart_extend q ["spec"; "backend"])
      || eapply (apart_extend q ["spec"; "proxy"] []) || eapply (apart_extend q ["spec"; "i18n"; "loadType"] [])).
  - unfold plugin_fields. repeat constructor; cbn; eauto.
  - unfold plugin_fields. repeat constructor; cbn; intros [? [=]].
Qed.

(** What the five resources are. *)
Definition resource_list (image : string) : list (Key * (Obj → Prop)) :=
  [(ns_key r "Service" pluginServiceName, λ o,
     m_Annotations (o_Meta o) !! serving_cert_annotation = Some pluginTLSSecretName ∧
     ∃ other, o_Content o = CService (mkService {["app" := pluginServiceName]} [mkSvcPort "https" pluginPort pluginPort "TCP"] other));
   (ns_key r "Deployment" pluginDeploymentName, λ o, ∃ other,
     o_Content o = CDeployment (mkDeployment (Some 1%Z) {["app" := pluginDeploymentName]} (Some (plugin_template (pl_Namespace r) image)) other));
   (ns_key r "RoleBinding" pluginRoleName, λ o,
     o_Content o = CRoleBinding (Some (mkRoleRef "rbac.authorization.k8s.io" "Role" pluginRoleName)) [mkSubject "ServiceAccount" pluginSAName (pl_Namespace r)]);
   (ns_key r "Role" pluginRoleName, λ o, o_Content o = CRole plugin_rules);
   (ns_key r "ServiceAccount" pluginSAName, λ _, True)].

Ltac place Q := first [eapply (place_step _ _ _ _ Q)|eapply (place_stepf _ _ _ _ _ Q)];
  [by intros o o' [= <-]|done|intros o o' [= <-]; cbn; eauto|unfold resource_keys; set_solver|set_solver].

Lemma ensure_resources_leads {A : Type} (image : string) (c : M cluster string A) (x0 : Seen) (Q : string + A → Seen → Prop) :
  (∀ e x, guard_kept r x0 x → Q (inl e) x) → leads see (placed (resource_keys r) x0 (resource_list image)) c Q →
  leads see (eq x0)
    (_ ← raise (ensureServiceAccount r); _ ← ensureRBAC r; _ ← raise (ensureDeployment r image); _ ← raise (ensureService r); c) Q.
Proof.
  intros Herr0 Hc. unfold resource_list in Hc.
  assert (Herr : ∀ e x, only (resource_keys r) x0 x → Q (inl e) x) by (intros; by apply Herr0, guard_kept_resources).
  eapply leads_weaken with (P := placed (resource_keys r) x0 []); [|intros x <-; apply placed_start|intros res x HQ; exact HQ].
  eapply place_bind; [done|place (λ _ : Obj, True)|]. cbv beta.
  eapply place_bind; [done| |].
  { unfold ensureRBAC. eapply place_bind; [by intros e x|place (λ o, o_Content o = CRole plugin_rules)|].
    place (λ o, o_Content o = CRoleBinding (Some (mkRoleRef "rbac.authorization.k8s.io" "Role" pluginRoleName)) [mkSubject "ServiceAccount" pluginSAName (pl_Namespace r)]). }
  cbv beta. eapply place_bind; [done|unfold ensureDeployment; place (λ o, ∃ other,
     o_Content o = CDeployment (mkDeployment (Some 1%Z) {["app" := pluginDeploymentName]} (Some (plugin_template (pl_Namespace r) image)) other))|].
  cbv beta. eapply place_bind; [done|unfold ensureService; eapply place_step|exact Hc].
  - by intros o o' [= <-].
  - done.
  - intros o o' [= <-]. cbn. rewrite lookup_insert_eq. eauto.
  - unfold resource_keys; set_solver.
  - set_solver.
Qed.

Lemma in_place_serves (image : string) (m : gmap Key Obj) :
  in_place (resource_list image) m → serves m (pl_Namespace r) pluginServiceName pluginPort image ∧ permitted m (pl_Namespace r).
Proof.
  unfold in_place, resource_list. rewrite !Forall_cons. cbn [fst snd].
  intros ((svc & Esvc & Hann & o1 & Csvc) & (dep & Edep & o2 & Cdep) & (rb & Erb & Crb) & (role & Erole & Crole) & (sa & Esa & _) & _).
  split.
  - do 3 eexists. exists dep. do 5 eexists. unfold ns_key in *.
    split_and!; [exact Esvc|exact Csvc|by left|done|exact Edep|exact Cdep|done|done|done|done|by left|done|cbn; by left|exact Hann|by left|done|cbn; by left|].
    by exists sa.
  - exists rb, role. eexists. unfold ns_key in *. split_and!; [exact Erb|exact Crb|exact Erole|exact Crole].
Qed.

Lemma cleanupLegacyDashboard_leads (x0 : Seen) : leads see (eq x0) (cleanupLegacyDashboard r) (λ _, only (legacy_keys r) x0).
Proof.
  unfold cleanupLegacyDashboard. eapply leads_try; [apply Delete_leads|]. intros res. apply leads_each. intros x1 (H1 & _).
  eapply leads_try; [apply Delete_leads|]. intros res'. apply leads_ret. intros x (H2 & _).
  eapply only_trans; [exact H1|eapply only_weaken; [exact H2|]|]; unfold legacy_keys; set_solver.
Qed.

Definition up_done (image : string) (x0 x : Seen) : Prop :=
  guard_kept r x0 x ∧ in_place (resource_list image) x.1 ∧
  ∃ cr, x.1 !! cr_key = Some cr ∧ set_plugin r (default unstructured (x0.1 !! cr_key)) = inr cr.

Lemma up_done_registered (image : string) (x0 x : Seen) : up_done image x0 x → registered image (x0.1 !! cr_key) x.1.
Proof.
  intros (_ & HL & cr & Ecr & E). destruct (set_plugin_spec _ _ E) as (_ & _ & Hfin & Hsvc & Hpr & Hq).
  destruct (in_place_serves image x.1 HL) as [Hsv Hpm].
  do 5 eexists. split_and!; [exact Ecr|done|exact Hsvc|exact Hpr|done|done|done|done].
Qed.

(** The ConsolePlugin is put in front of the resources. *)
Lemma ensureConsolePlugin_leads (image : string) (x0 : Seen) :
  x0.2 "ConsolePlugin" = true →
  leads see (placed (resource_keys r) x0 (resource_list image)) (ensureConsolePlugin r) (or_error (guard_kept r x0) (λ _, up_done image x0)).
Proof.
  intros Hs. apply leads_each. intros x1 [Ho HL] k Hk.
  assert (Hf : keeps_deletion (set_plugin r)) by (intros o o' E; by destruct (set_plugin_spec o o' E) as (? & ? & _)).
  pose proof (CreateOrUpdate_leads cr_key unstructured (set_plugin r) x1 Hf eq_refl k Hk) as (H1 & H2 & H3 & H4).
  unfold ensureConsolePlugin. destruct (CreateOrUpdate cr_key unstructured (set_plugin r) k) as [res k']. cbn [fst snd] in *.
  assert (Hown : only (own_keys r) x0 (see k')).
  { eapply only_trans; [exact Ho|eapply only_weaken; [exact H1|]|]; unfold own_keys; set_solver. }
  assert (Hcr : x1.1 !! cr_key = x0.1 !! cr_key) by (apply (proj2 Ho), cr_not_resource).
  assert (Hg : guard_kept r x0 (see k')).
  { split; [done|]. intros [o Hg] Hn. destruct Hn. destruct H4 as [E|(o' & E & Eo)]; [exists o; by rewrite E, Hcr|].
    exists o'. split; [done|]. by destruct (set_plugin_spec _ _ E) as (_ & _ & ? & _). }
  destruct res as [[]|u]; try done; cbn.
  { exfalso. specialize (H2 eq_refl). destruct Ho as [E _]. rewrite E in H2. cbn in H2. congruence. }
  split_and!; [done| |].
  - eapply in_place_elsewhere; [exact H1| |exact HL]. unfold resource_list, ns_key, cr_key. cbn. set_solver.
  - destruct (H3 u eq_refl) as (cr & E & Ecr). rewrite Hcr in E. eauto.
Qed.

(** Removing what an older version left behind touches none of it. *)
Lemma up_done_legacy (image : string) (x0 x1 x : Seen) : up_done image x0 x1 → only (legacy_keys r) x1 x → up_done image x0 x.
Proof.
  intros ([Ho Hg] & HL & cr & Ecr & E) Hl.
  assert (Hcr : x.1 !! cr_key = Some cr) by (rewrite (proj2 Hl); [done|unfold legacy_keys, ns_key, cr_key; set_solver]).
  split_and!; [split| |by exists cr].
  - eapply only_trans; [exact Ho|eapply only_weaken; [exact Hl|]|done]. unfold own_keys. set_solver.
  - intros _ Hn. destruct Hn. exists cr. split; [done|]. by destruct (set_plugin_spec _ _ E) as (_ & _ & ? & _).
  - eapply in_place_elsewhere; [exact Hl| |exact HL].
    unfold resource_list, legacy_keys, ns_key, pluginServiceName, legacyDashboardServiceName. cbn. set_solver.
Qed.

(** All of the set up. *)
Lemma set_up_leads (image : string) (x0 : Seen) :
  x0.2 "ConsolePlugin" = true →
  leads see (eq x0)
    (_ ← raise (ensureServiceAccount r); _ ← ensureRBAC r; _ ← raise (ensureDeployment r image); _ ← raise (ensureService r);
     _ ← raise (ensureConsolePlugin r); _ ← cleanupLegacyDashboard r; mret pluginReconcileInterval)
    (or_error (guard_kept r x0) (λ _, up_done image x0)).
Proof.
  intros Hs. apply ensure_resources_leads; [done|].
  eapply leads_bind with (Q := λ _, up_done image x0).
  { eapply leads_raise; [by apply ensureConsolePlugin_leads|done|done]. }
  intros _. apply leads_each. intros x1 Hx1.
  eapply leads_bind with (Q := λ _, up_done image x0).
  { eapply leads_weaken; [apply cleanupLegacyDashboard_leads|done|]. intros [e|u] x Hl; [|by eapply up_done_legacy].
    by destruct (up_done_legacy image x0 x1 x Hx1 Hl). }
  intros _. apply leads_ret. done.
Qed.
End up.

(** ** A run of the controller *)

Section run.
Context `{ClusterLaws} (r : ConsolePluginReconciler).

Lemma operator_version_release (l : list uval) :
  (match operator_version l with inr release => Some release | inl _ => None end) =
  (entry ← head (List.filter named_operator l); '(major, minor) ← semver_Parse (entry_version entry);
   Some (Itoa major +:+ "." +:+ Itoa minor)).
Proof.
  induction l as [|v l IH]; [done|]. destruct v as [| | | |fields]; try exact IH.
  cbn [operator_version List.filter]. rewrite !NestedString_ok. unfold named_operator at 1.
  destruct (nested ["name"] (UMap fields)) as [[]|] eqn:E; try exact IH.
  destruct (String.eqb s "operator") eqn:Es; cbn [negb]; [|exact IH]. cbn [head].
  unfold entry_version. change (Some (UMap fields) ≫= ?f) with (f (UMap fields)). cbv beta.
  by destruct (semver_Parse _) as [[]|].
Qed.

Definition release_post (x0 : Seen) (release : string + string) (x : Seen) : Prop :=
  x = x0 ∧ console_release x0.1 = match release with inr s => Some s | inl _ => None end.

Lemma consoleReleaseMinor_leads (x0 : Seen) :
  leads see (eq x0) consoleReleaseMinor (or_error (eq x0) (release_post x0)).
Proof.
  unfold consoleReleaseMinor. eapply leads_try; [apply Get_leads|]. intros [[]|operator]; cbn beta iota.
  - apply leads_ret. intros x [-> Hn]. split; [done|]. unfold console_release. by rewrite Hn.
  - apply leads_ret. intros x [-> Hn]. split; [done|]. unfold console_release. by rewrite Hn.
  - apply leads_fail. by intros x [-> _].
  - pose proof (NestedSlice_ok ["status"; "versions"] operator) as Hns.
    destruct (NestedSlice ["status"; "versions"] operator) as [e|[versions|]]; apply leads_ret; intros x [-> Hn]; (split; [done|]);
      unfold console_release; rewrite Hn; cbn [mbind option_bind].
    + destruct (nested _ _) as [[]|]; try done. by destruct (Hns l).
    + rewrite Hns. cbn [mbind option_bind]. symmetry. apply operator_version_release.
    + destruct (nested _ _) as [[]|]; try done. by destruct (Hns l).
Qed.

(** The image to run, unless the ConsolePlugin is being deleted. *)
Definition plugin_goal (m : gmap Key Obj) : option string :=
  match m !! cr_key with
  | Some o => if m_Deleting (o_Meta o) then None else wanted_image r m
  | None => wanted_image r m
  end.

(** What a successful run has achieved. *)
Definition converged (x0 x : Seen) : Prop :=
  if x0.2 "ConsolePlugin" then
    match plugin_goal x0.1 with
    | Some image => registered image (x0.1 !! cr_key) x.1
    | None => unregistered r x.1
    end
  else x = x0.

Definition run_post (x0 : Seen) (res : string + Z) (x : Seen) : Prop :=
  guard_kept r x0 x ∧ ((∃ d, res = inr d) → converged x0 x).

Lemma guard_kept_refl (x0 : Seen) : guard_kept r x0 x0.
Proof. apply guard_kept_resources, only_refl. Qed.

Lemma run_post_error (x0 x : Seen) e : guard_kept r x0 x → run_post x0 (inl e) x.
Proof. intros Hg. split; [done|]. by intros [? [=]]. Qed.

(** Finishing the deletion of the ConsolePlugin. *)
Lemma finalize_leads (x0 : Seen) (existing : Obj) :
  x0.2 "ConsolePlugin" = true → x0.1 !! cr_key = Some existing → m_Deleting (o_Meta existing) = true →
  leads see (eq x0)
    (_ ← rewrap "delete plugin resources while finalizing ConsolePlugin" (deletePluginResources r);
     _ ← raisef "remove plugin-cleanup finalizer" (Update cr_key (RemoveFinalizer pluginCleanupFinalizer existing));
     mret 0%Z) (run_post x0).
Proof.
  intros Hs Hc Hd.
  eapply leads_bind with (Q := λ _ x, only (resource_keys r) x0 x ∧ (∀ key, key ∈ resource_keys r → released x.1 key)).
  { eapply leads_weaken; [apply leads_rewrap; [apply deletePluginResources_leads|]|done|].
    - intros e e' x [Ho _]. split; [done|by intros [=]].
    - intros [e|[]] x [Ho Hr]; [by apply run_post_error, guard_kept_resources|by split; [|apply Hr]]. }
  intros _. apply leads_each. intros x1 [Ho Hr].
  eapply leads_bind with (Q := λ _ x, guard_kept r x0 x ∧ unregistered r x.1).
  { eapply leads_raisef; [apply (remove_finalizer_leads r existing x0); [done|done|by rewrite (proj2 Ho) by apply cr_not_resource]| |].
    - intros e e' x (H1 & H2 & _). by apply run_post_error, unregistered_guard.
    - intros u x (H1 & H2 & H3). split; [by apply unregistered_guard|]. specialize (H3 u eq_refl).
      split_and!; [done|intros o Eo; by destruct (H3 o Eo) as [-> _]|].
      intros (o & Eo & Hin). destruct (H3 o Eo) as [_ EF]. rewrite EF, list_elem_of_filter in Hin. tauto. }
  intros _. apply leads_ret. intros x [Hg Hu]. split; [done|]. intros _. unfold converged, plugin_goal. by rewrite Hs, Hc, Hd.
Qed.

Lemma unregister_and_wait_leads (x0 : Seen) :
  x0.2 "ConsolePlugin" = true → plugin_goal x0.1 = None → leads see (eq x0) (unregister_and_wait r) (run_post x0).
Proof.
  intros Hs Hg. unfold unregister_and_wait. eapply leads_bind with (Q := λ _ x, guard_kept r x0 x ∧ unregistered r x.1).
  { eapply leads_weaken; [apply unregisterConsolePlugin_leads|done|].
    intros [e|u] x [H1 H2]; [by apply run_post_error|by split; [|eauto]]. }
  intros _. apply leads_ret. intros x [H1 H2]. split; [done|]. intros _. unfold converged. by rewrite Hs, Hg.
Qed.

Lemma reconcile_release_leads (x0 : Seen) :
  x0.2 "ConsolePlugin" = true → plugin_goal x0.1 = wanted_image r x0.1 → leads see (eq x0) (reconcile_release r) (run_post x0).
Proof.
  intros Hs Hg. unfold reconcile_release. eapply leads_bind with (Q := release_post x0).
  { eapply leads_weaken; [apply consoleReleaseMinor_leads|done|]. intros [e|rel] x Hx; [|done]. cbn in Hx. subst. apply run_post_error, guard_kept_refl. }
  intros rel. apply leads_each. intros ? [-> Hrel]. unfold wanted_image in Hg. rewrite Hrel in Hg.
  destruct rel as [reason|release]; [by apply unregister_and_wait_leads|]. cbn [mbind option_bind] in Hg. cbv zeta.
  case_bool_decide as Hsup; cbn [negb]; [|apply unregister_and_wait_leads; [done|]; by rewrite Hg, option_guard_False].
  rewrite option_guard_True in Hg by done. change (Some () ≫= ?f) with (f ()) in Hg. cbv beta in Hg.
  destruct (pl_PluginImages r !! release) as [image|] eqn:Ei; cbn [mbind option_bind] in Hg; [|by apply unregister_and_wait_leads].
  change (default "" (Some image)) with image.
  destruct (String.eqb_spec image "") as [->|Hne]; [apply unregister_and_wait_leads; [done|]; by rewrite Hg|].
  rewrite option_guard_True in Hg by done.
  eapply leads_weaken; [by apply (set_up_leads r image x0)|done|]. intros [e|d] x Hx; [by apply run_post_error|].
  split; [by destruct Hx|]. intros _. unfold converged. rewrite Hs, Hg. by eapply up_done_registered.
Qed.

Lemma Reconcile_leads (x0 : Seen) : leads see (eq x0) (Reconcile r) (run_post x0).
Proof.
  unfold Reconcile. eapply leads_try; [apply RESTMapping_leads|]. intros [[]|u]; cbn beta iota; apply leads_each; intros ? [-> Hs].
  1,3: apply leads_fail; intros x <-; apply run_post_error, guard_kept_refl.
  { apply leads_ret. intros x <-. split; [apply guard_kept_refl|]. intros _. unfold converged. by rewrite Hs. }
  eapply leads_try; [apply Get_leads|]. intros [[]|existing]; apply leads_each; intros ? [-> Hc].
  2,3: apply leads_fail; intros x <-; apply run_post_error, guard_kept_refl.
  - apply reconcile_release_leads; [done|]. unfold plugin_goal. by rewrite Hc.
  - destruct (m_Deleting (o_Meta existing)) eqn:Ed; [by apply finalize_leads|].
    apply reconcile_release_leads; [done|]. unfold plugin_goal. by rewrite Hc, Ed.
Qed.
End run.

(** ** Examples *)

Definition ex_plugin : ConsolePluginReconciler := mkConsolePluginReconciler "oc-mirror" {["4.19" := "quay.io/oc-mirror/plugin:4.19"]}.
Definition ex_operator (version : string) : Obj :=
  allocated (CUnstructured (UMap [("status", UMap [("versions",
    USlice [UMap [("name", UString "oauth"); ("version", UString "1.0.0")]; UMap [("name", UString "operator"); ("version", UString version)]])])])).
(** A ConsolePlugin with a field of its own. *)
Definition ex_cr (deleting : bool) : Obj :=
  mkObj (mkMeta ∅ ∅ [pluginCleanupFinalizer] deleting) (CUnstructured (UMap [("spec", UMap [("contentSecurityPolicy", USlice [])])])).
Definition ex_kinds : list string := ["ConsolePlugin"; "ClusterOperator"; "Service"; "ServiceAccount"; "Deployment"; "Role"; "RoleBinding"].
Definition ex_cluster (version : string) (deleting : bool) (down : list Key) : MemCluster :=
  mkMemCluster {[operator_key := ex_operator version; cr_key := ex_cr deleting;
                 ns_key ex_plugin "Deployment" pluginDeploymentName := allocated (CDeployment (mkDeployment None ∅ None ∅))]} ex_kinds down.

(** The outcome of a run: its delay, and the keys of the plugin that exist. *)
Definition ex_run (k : MemCluster) : option Z * list bool :=
  let '(res, k') := @Reconcile mem_cluster ex_plugin k in
  (match res with inr d => Some d | inl _ => None end, (λ key, bool_decide (is_Some (mem_objs k' !! key))) <$> cr_key :: resource_keys ex_plugin).

Example ex_supported : ex_run (ex_cluster "4.19.3" false []) = (Some 600%Z, [true; true; true; true; true; true]).
Proof. by vm_compute. Qed.
Example ex_unsupported : ex_run (ex_cluster "4.14.3" false []) = (Some 600%Z, [false; false; false; false; false; false]).
Proof. by vm_compute. Qed.
Example ex_deleted : ex_run (ex_cluster "4.19.3" true []) = (Some 0%Z, [false; false; false; false; false; false]).
Proof. by vm_compute. Qed.
(** A resource that cannot be deleted keeps the finalizer. *)
Example ex_held : ex_run (ex_cluster "4.19.3" true [ns_key ex_plugin "Deployment" pluginDeploymentName]) = (None, [true; true; false; false; false; false]).
Proof. by vm_compute. Qed.

(** What is watched follows what is served. *)
Lemma watches_served `{ClusterLaws} k ws :
  fst (SetupWithManager k) = inr ws →
  ws = [WNamespace; WDeployment] ++ (if served k "ConsolePlugin" then [WConsolePlugin] else [])
         ++ (if served k "ClusterOperator" then [WClusterOperator] else []).
Proof.
  unfold SetupWithManager. rewrite try_bind. pose proof (RESTMapping_ok "ConsolePlugin" k) as Hp.
  destruct (RESTMapping "ConsolePlugin" k) as [p k1]. destruct Hp as (_ & Hs & Hp). cbn [fst snd].
  rewrite bind_eq. pose proof (RESTMapping_ok "ClusterOperator" k1) as Ho. rewrite Hs in Ho.
  destruct p as [[]|u]; cbn [fst snd mret M_ret fail]; try done; rewrite try_bind, Hp;
    destruct (RESTMapping "ClusterOperator" k1) as [o k2]; destruct Ho as (_ & _ & Ho); cbn [fst snd];
    destruct o as [[]|v]; cbn [fst snd mret M_ret fail]; try done; rewrite Ho; by intros [= <-].
Qed.

(** ** Theorems *)

(** C32: The console has the plugin exactly when it supports the release.
    Whatever calls fail, a run touches only the objects of the plugin, and the
    finalizer of the ConsolePlugin is given up only after its Deployment,
    Service, service account, role and binding are gone or being deleted.  When
    the run succeeds on a cluster with a console and the operator of the
    console reports a supported release for which an image is configured, the
    ConsolePlugin names a service behind which that image runs, with the
    certificate of that service and the permissions of the plugin, and keeps
    its other fields; on any other release, and when the ConsolePlugin is being
    deleted, it is unregistered and its resources are released. *)
Theorem plugin_follows_release `{ClusterLaws} (r : ConsolePluginReconciler) (k : cluster) :
  let '(res, k') := Reconcile r k in
  (∀ key, key ∉ own_keys r → objs k' !! key = objs k !! key) ∧
  (guards_cleanup (objs k) → ¬ guards_cleanup (objs k') → ∀ key, key ∈ resource_keys r → released (objs k') key) ∧
  ∀ d, res = inr d → converged r (see k) (see k').
Proof.
  pose proof (Reconcile_leads r (see k) k eq_refl) as [[[_ Ho] Hg] Hc]. destruct (Reconcile r k) as [res k'].
  split_and!; [exact Ho|exact Hg|]. intros d ->. apply Hc. by exists d.
Qed.

Lemma plugin_follows_release_witness :
  (∃ d, fst (@Reconcile mem_cluster ex_plugin (ex_cluster "4.19.3" false [])) = inr d) ∧
  @plugin_goal mem_cluster ex_plugin (mem_objs (ex_cluster "4.19.3" false [])) = Some "quay.io/oc-mirror/plugin:4.19" ∧
  let '(res, k') := @Reconcile mem_cluster ex_plugin (ex_cluster "4.19.3" false []) in
  (∀ key, key ∉ own_keys ex_plugin → mem_objs k' !! key = mem_objs (ex_cluster "4.19.3" false []) !! key) ∧
  (guards_cleanup (mem_objs (ex_cluster "4.19.3" false [])) → ¬ guards_cleanup (mem_objs k') → ∀ key, key ∈ resource_keys ex_plugin → released (mem_objs k') key) ∧
  ∀ d, res = inr d → @converged mem_cluster ex_plugin (@see mem_cluster (ex_cluster "4.19.3" false [])) (@see mem_cluster k').
Proof.
  split; [eexists; by vm_compute|]. split; [by vm_compute|].
  exact (@plugin_follows_release mem_cluster mem_cluster_laws ex_plugin (ex_cluster "4.19.3" false [])).
Defined.

(** Every supported release has its variable in the environment of the
    controller, the one that is named when the image is missing. *)
Theorem plugin_images_complete getenv minor :
  minor ∈ supportedConsolePluginMinors → pluginImages getenv !! minor = Some (getenv (pluginImageEnvironmentVariable minor)).
Proof. unfold supportedConsolePluginMinors. rewrite !elem_of_cons, elem_of_nil. intros Hm. destruct_or!; subst; done. Qed.

(** The older entry point has no image for release 5.0, which is supported: on
    such a cluster it takes the plugin down. *)
Theorem legacy_images_incomplete getenv : "5.0" ∈ supportedConsolePluginMinors ∧ pluginImagesLegacy getenv !! "5.0" = None.
Proof. split; [set_solver|done]. Qed.

(** An event of the namespace, of the plugin's Deployment, of the ConsolePlugin
    and of the console's operator leads to a run, where the last two can be
    watched; no event leads to a run of another name. *)
Theorem plugin_events_lead_to_runs `{ClusterLaws} r k ws k' :
  SetupWithManager k = (inr ws, k') →
  (∀ key name, name ∈ requests r ws key → name = pl_Namespace r) ∧
  requests r ws ("Namespace", "", pl_Namespace r) = [pl_Namespace r] ∧
  requests r ws (ns_key r "Deployment" pluginDeploymentName) = [pl_Namespace r] ∧
  (served k "ConsolePlugin" = true → requests r ws cr_key = [pl_Namespace r]) ∧
  (served k "ClusterOperator" = true → requests r ws operator_key = [pl_Namespace r]).
Proof.
  intros E. split.
  { intros [[kind ns] name'] name Hin. unfold requests in Hin. apply list_elem_of_bind in Hin as (w & Hin & _).
    destruct w; unfold enqueueForPluginDeployment, enqueueForConsolePlugin, enqueueForConsoleClusterOperator in Hin;
      repeat case_match; try set_solver.
    rewrite andb_true_iff, !String.eqb_eq in *. set_solver. }
  pose proof (watches_served k ws) as Hw. rewrite E in Hw. rewrite (Hw eq_refl).
  destruct (served k "ConsolePlugin"), (served k "ClusterOperator"); unfold requests, enqueueForPluginDeployment; cbn;
    rewrite !String.eqb_refl; cbn; by split_and!.
Qed.
