(* ===== verification/Monitoring.v ===== *)
(** * Monitoring

    internal/controller/monitoring_controller.go and the metrics of pkg/metrics:
    the dashboard of the web console, the ServiceMonitors that scrape the
    controller and the managers, and the alerts.  The content of the dashboard
    is a file of the repository and a parameter here.  [SetNestedMap] and
    [SetNestedSlice] are [SetNestedField]. *)
From S2P Require Import Prelude Effects GoStrings BuildJobs Api Deploy Cluster.

(** ** Metrics *)

Inductive MetricType := Gauge | Counter | Histogram.

(** A metric is named by namespace, subsystem and name. *)
Record Metric := mkMetric { me_Type : MetricType; me_Namespace : string; me_Subsystem : string; me_Name : string; me_Labels : list string }.

Definition metric_name (m : Metric) : string :=
  Join (List.filter (λ s, negb (String.eqb s "")) [me_Namespace m; me_Subsystem m; me_Name m]) "_".

Definition MirrorTargetImagesTotal : Metric := mkMetric Gauge "oc_mirror" "mirrortarget" "images_total" ["namespace"; "target"].
Definition MirrorTargetImagesMirrored : Metric := mkMetric Gauge "oc_mirror" "mirrortarget" "images_mirrored" ["namespace"; "target"].
Definition MirrorTargetImagesFailed : Metric := mkMetric Gauge "oc_mirror" "mirrortarget" "images_failed" ["namespace"; "target"].
Definition MirrorTargetImagesPending : Metric := mkMetric Gauge "oc_mirror" "mirrortarget" "images_pending" ["namespace"; "target"].
Definition ReconcileErrorsTotal : Metric := mkMetric Counter "oc_mirror" "" "reconcile_errors_total" ["namespace"; "name"; "controller"].
Definition ImageSetLastPollSeconds : Metric := mkMetric Gauge "oc_mirror" "imageset" "last_poll_seconds" ["namespace"; "imageset"].

Definition ManagerBatchesTotal : Metric := mkMetric Counter "oc_mirror" "manager" "batches_total" ["target"; "result"].
Definition ManagerImagesMirroredTotal : Metric := mkMetric Counter "oc_mirror" "manager" "images_mirrored_total" ["target"; "imageset"].
Definition ManagerImagesFailedTotal : Metric := mkMetric Counter "oc_mirror" "manager" "images_failed_total" ["target"; "imageset"].
Definition ManagerBatchDurationSeconds : Metric := mkMetric Histogram "oc_mirror" "manager" "batch_duration_seconds" ["target"].
Definition ManagerStatusCallbackDurationSeconds : Metric := mkMetric Histogram "oc_mirror" "manager" "status_callback_duration_seconds" ["target"].
Definition ManagerActiveWorkers : Metric := mkMetric Gauge "oc_mirror" "manager" "active_workers" ["target"].
Definition ManagerWorkerRetriesTotal : Metric := mkMetric Counter "oc_mirror" "manager" "worker_retries_total" ["target"].
Definition ManagerDriftCheckErrorsTotal : Metric := mkMetric Counter "oc_mirror" "manager" "drift_check_errors_total" ["target"].

(** What the two registries export. *)
Definition controller_registry : list Metric :=
  [MirrorTargetImagesTotal; MirrorTargetImagesMirrored; MirrorTargetImagesFailed; MirrorTargetImagesPending; ReconcileErrorsTotal; ImageSetLastPollSeconds].
Definition ManagerRegistry : list Metric :=
  [ManagerBatchesTotal; ManagerImagesMirroredTotal; ManagerImagesFailedTotal; ManagerBatchDurationSeconds; ManagerStatusCallbackDurationSeconds;
   ManagerActiveWorkers; ManagerWorkerRetriesTotal; ManagerDriftCheckErrorsTotal].

(** ** The controller *)

Definition monitoringReconcileInterval : Z := 10 * 60.
Definition controllerServiceMonitorName : string := "oc-mirror-controller".
Definition managerServiceMonitorName : string := "oc-mirror-manager".
Definition prometheusRuleName : string := "oc-mirror-alerts".
Definition dashboardConfigMapName : string := "oc-mirror-dashboard".
Definition dashboardConfigMapNamespace : string := "openshift-config-managed".

Definition monitor_labels : Labels := {["app.kubernetes.io/name" := "oc-mirror"; "app.kubernetes.io/managed-by" := "oc-mirror-operator"]}.
(** A map of labels as a value. *)
Definition label_value (l : Labels) : uval := UMap (prod_map id UString <$> map_to_list l).

Definition controller_selector : Labels := {["control-plane" := "controller-manager"; "app.kubernetes.io/name" := "oc-mirror"]}.
Definition managers_selector : Labels := {["app.kubernetes.io/component" := "manager"; "app.kubernetes.io/name" := "oc-mirror"]}.

Definition controller_endpoint : uval :=
  UMap [("path", UString "/metrics"); ("port", UString "https"); ("scheme", UString "https");
        ("bearerTokenFile", UString "/var/run/secrets/kubernetes.io/serviceaccount/token");
        ("tlsConfig", UMap [("insecureSkipVerify", UBool true)])].
Definition manager_endpoint : uval := UMap [("path", UString "/metrics"); ("port", UString "metrics"); ("scheme", UString "http")].

Record Alert := mkAlert { al_Alert : string; al_Expr : string; al_For : string; al_Severity : string; al_Summary : string; al_Description : string }.

Definition alerts : list Alert :=
  [mkAlert "OCMirrorHighFailedImages" "oc_mirror_mirrortarget_images_failed > 10" "5m" "warning"
     "High number of failed images for {{ $labels.target }}"
     "MirrorTarget {{ $labels.namespace }}/{{ $labels.target }} has {{ $value }} permanently failed images for more than 5 minutes.";
   mkAlert "OCMirrorAllImagesFailed"
     "oc_mirror_mirrortarget_images_failed / on(namespace, target) oc_mirror_mirrortarget_images_total > 0.5" "10m" "critical"
     "More than 50% of images failed for {{ $labels.target }}"
     "MirrorTarget {{ $labels.namespace }}/{{ $labels.target }} has more than 50% permanently failed images for more than 10 minutes.";
   mkAlert "OCMirrorReconcileErrors" "rate(oc_mirror_reconcile_errors_total[5m]) > 0" "0m" "warning"
     "Reconcile errors in controller for {{ $labels.name }}"
     "The oc-mirror {{ $labels.controller }} controller is encountering reconcile errors for {{ $labels.namespace }}/{{ $labels.name }}.";
   mkAlert "OCMirrorNoProgress"
     "oc_mirror_mirrortarget_images_pending > 0 and on(target) rate(oc_mirror_manager_images_mirrored_total[30m]) == 0" "30m" "warning"
     "No mirroring progress for {{ $labels.target }}"
     "MirrorTarget {{ $labels.target }} has pending images but no images have been mirrored in the last 30 minutes.";
   mkAlert "OCMirrorManagerDown" "absent(oc_mirror_manager_active_workers)" "5m" "critical"
     "OC Mirror manager metrics absent" "No manager metrics are being reported. The manager pod may be down."].

Definition alert_value (a : Alert) : uval :=
  UMap [("alert", UString (al_Alert a)); ("expr", UString (al_Expr a)); ("for", UString (al_For a));
        ("labels", UMap [("severity", UString (al_Severity a))]);
        ("annotations", UMap [("summary", UString (al_Summary a)); ("description", UString (al_Description a))])].
Definition alert_groups : uval :=
  USlice [UMap [("name", UString "oc-mirror.rules"); ("interval", UString "30s"); ("rules", USlice (alert_value <$> alerts))]].

Section monitoring.
Context `{Cluster} (ns dashboardJSON : string).

Definition dashboard_key : Key := ("ConfigMap", dashboardConfigMapNamespace, dashboardConfigMapName).
Definition controller_monitor_key : Key := ("ServiceMonitor", ns, controllerServiceMonitorName).
Definition manager_monitor_key : Key := ("ServiceMonitor", ns, managerServiceMonitorName).
Definition rule_key : Key := ("PrometheusRule", ns, prometheusRuleName).

Definition set_dashboard (cm : Obj) : kubeErr + Obj :=
  let labels := <["console.openshift.io/dashboard" := "true"]> (<["app.kubernetes.io/managed-by" := "oc-mirror-operator"]>
                  (<["app.kubernetes.io/name" := "oc-mirror"]> (m_Labels (o_Meta cm)))) in
  inr (mkObj (with_labels labels (o_Meta cm)) (CConfigMap {["oc-mirror-dashboard.json" := dashboardJSON]})).
Definition ensureDashboardConfigMap : M cluster kubeErr unit :=
  CreateOrUpdate dashboard_key (allocated (CConfigMap ∅)) set_dashboard.

(** The callback of both ServiceMonitors. *)
Definition set_monitor (endpoint : uval) (selector : Labels) (sm : Obj) : kubeErr + Obj :=
  sm ←ₑ SetNestedField (label_value monitor_labels) ["metadata"; "labels"] sm;
  sm ←ₑ SetNestedField (USlice [endpoint]) ["spec"; "endpoints"] sm;
  SetNestedField (UMap [("matchLabels", label_value selector)]) ["spec"; "selector"] sm.

Definition ensureControllerServiceMonitor : M cluster kubeErr unit :=
  CreateOrUpdate controller_monitor_key unstructured (set_monitor controller_endpoint controller_selector).
Definition ensureManagerServiceMonitor : M cluster kubeErr unit :=
  CreateOrUpdate manager_monitor_key unstructured (set_monitor manager_endpoint managers_selector).

Definition set_rule (pr : Obj) : kubeErr + Obj :=
  pr ←ₑ SetNestedField (label_value monitor_labels) ["metadata"; "labels"] pr;
  SetNestedField alert_groups ["spec"; "groups"] pr.
Definition ensurePrometheusRule : M cluster kubeErr unit := CreateOrUpdate rule_key unstructured set_rule.

Definition Reconcile : M cluster string Z :=
  console ← try (RESTMapping "ConsolePlugin");
  _ ← match console with inl _ => mret tt | inr _ => raise ensureDashboardConfigMap end;
  monitors ← try (RESTMapping "ServiceMonitor");
  match monitors with
  | inl _ => mret monitoringReconcileInterval
  | inr _ =>
    _ ← raise ensureControllerServiceMonitor;
    _ ← raise ensureManagerServiceMonitor;
    _ ← raise ensurePrometheusRule;
    mret monitoringReconcileInterval
  end.

Definition enqueueForDashboardConfigMap (namespace name : string) : list string :=
  if negb (String.eqb name dashboardConfigMapName) || negb (String.eqb namespace dashboardConfigMapNamespace) then [] else [ns].

(** ** What a run is to achieve *)

Definition monitoring_keys : list Key := [dashboard_key; controller_monitor_key; manager_monitor_key; rule_key].

(** The dashboard as the web console finds it. *)
Definition dashboard_shown (m : gmap Key Obj) : Prop :=
  ∃ cm data, m !! dashboard_key = Some cm ∧ m_Labels (o_Meta cm) !! "console.openshift.io/dashboard" = Some "true" ∧
    o_Content cm = CConfigMap data ∧ data !! "oc-mirror-dashboard.json" = Some dashboardJSON.

(** A monitor scrapes the port of the services with these labels. *)
Definition scrapes (sm : Obj) (labels : Labels) (port : string) : Prop :=
  ∃ selector endpoint,
    nested ["spec"; "selector"; "matchLabels"] (content sm) = Some (label_value selector) ∧ selector ⊆ labels ∧
    nested ["spec"; "endpoints"] (content sm) = Some (USlice [endpoint]) ∧
    nested ["port"] endpoint = Some (UString port) ∧ nested ["path"] endpoint = Some (UString "/metrics").

(** Both monitors and the alerts. *)
Definition monitored (m : gmap Key Obj) : Prop :=
  (∃ sm, m !! controller_monitor_key = Some sm ∧ scrapes sm controller_selector "https") ∧
  (∃ sm, m !! manager_monitor_key = Some sm ∧
    ∀ name, scrapes sm (manager_labels name) "metrics" ∧ ∃ p, p ∈ ss_Ports (manager_service name) ∧ sp_Name p = "metrics") ∧
  (∃ pr, m !! rule_key = Some pr ∧ nested ["spec"; "groups"] (content pr) = Some alert_groups).
End monitoring.

(** ** The metrics of an alert *)

Definition is_word_char (c : ascii) : bool :=
  let n := N_of_ascii c in
  ((48 <=? n) && (n <=? 57) || (65 <=? n) && (n <=? 90) || (97 <=? n) && (n <=? 122) || (n =? 95))%N.

(** The words of a text. *)
Fixpoint words (s : string) (cur : string) : list string :=
  match s with
  | "" => if String.eqb cur "" then [] else [cur]
  | String c s => if is_word_char c then words s (cur +:+ String c "") else (if String.eqb cur "" then [] else [cur]) ++ words s ""
  end.

Definition metrics_of (expr : string) : list string := List.filter (λ w, HasPrefix w "oc_mirror_") (words expr "").
(** The labels of [on(...)]: the words up to the closing bracket. *)
Fixpoint on_labels (s : string) : list string :=
  match s with
  | "" => []
  | String _ rest => match strip_prefix " on(" s with Some args => words (List.hd "" (Split ")" args)) "" | None => on_labels rest end
  end.
(** The labels a text refers to as [$labels.name]. *)
Fixpoint template_labels (s : string) : list string :=
  match s with
  | "" => []
  | String _ rest => match strip_prefix "$labels." s with Some after => List.hd "" (words after "") :: template_labels rest | None => template_labels rest end
  end.

Definition find_metric (name : string) : option Metric := List.find (λ m, String.eqb (metric_name m) name) (controller_registry ++ ManagerRegistry).

(** Every metric exists, the labels that are matched exist in all of them, and
    the labels of the texts in the first, which gives the alert its labels. *)
Definition alert_meaningful (a : Alert) : bool :=
  let ms := find_metric <$> metrics_of (al_Expr a) in
  let has (l : string) (m : option Metric) := match m with Some m => existsb (String.eqb l) (me_Labels m) | None => false end in
  negb (bool_decide (metrics_of (al_Expr a) = [])) &&
  forallb (λ m, match m with Some _ => true | None => false end) ms &&
  forallb (λ l, forallb (has l) ms) (on_labels (al_Expr a)) &&
  forallb (λ l, has l (List.hd None ms)) (template_labels (al_Summary a) ++ template_labels (al_Description a)).

Example ex_words : metrics_of (al_Expr (List.nth 3 alerts (mkAlert "" "" "" "" "" ""))) = ["oc_mirror_mirrortarget_images_pending"; "oc_mirror_manager_images_mirrored_total"].
Proof. done. Qed.
Example ex_template : template_labels "{{ $labels.namespace }}/{{ $labels.target }} has {{ $value }}" = ["namespace"; "target"].
Proof. done. Qed.

(** ** The callbacks *)

Lemma nested_app p q v : nested (p ++ q) v = nested p v ≫= nested q.
Proof.
  revert v. induction p as [|f p IH]; intros v; [done|]. cbn. destruct v as [| | | |fields]; try done.
  destruct (ufind f fields) as [w|]; [apply IH|done].
Qed.

Section callbacks.
Context `{ClusterLaws} (ns dashboardJSON : string).

Lemma set_monitor_spec (endpoint : uval) (selector : Labels) o o' :
  set_monitor endpoint selector o = inr o' →
  m_Deleting (o_Meta o') = m_Deleting (o_Meta o) ∧ m_Finalizers (o_Meta o) ⊆ m_Finalizers (o_Meta o') ∧
  nested ["spec"; "endpoints"] (content o') = Some (USlice [endpoint]) ∧
  nested ["spec"; "selector"; "matchLabels"] (content o') = Some (label_value selector).
Proof.
  unfold set_monitor, sbind. destruct (SetNestedField _ ["metadata"; "labels"] o) as [|o1] eqn:E1; [done|].
  apply SetNestedField_labels in E1. destruct (SetNestedField _ ["spec"; "endpoints"] o1) as [|o2] eqn:E2; [done|].
  apply SetNestedField_spec in E2 as (M2 & N2 & _). intros E3. apply SetNestedField_spec in E3 as (M3 & N3 & F3).
  rewrite M3, M2, E1. cbn [o_Meta with_labels m_Deleting m_Finalizers]. split_and!; [done|done| |].
  - rewrite F3; [done|]. by apply (apart_fork ["spec"]).
  - rewrite (nested_app ["spec"; "selector"] ["matchLabels"]), N3. done.
Qed.

Lemma set_rule_spec o o' :
  set_rule o = inr o' →
  m_Deleting (o_Meta o') = m_Deleting (o_Meta o) ∧ m_Finalizers (o_Meta o) ⊆ m_Finalizers (o_Meta o') ∧
  nested ["spec"; "groups"] (content o') = Some alert_groups.
Proof.
  unfold set_rule, sbind. destruct (SetNestedField _ ["metadata"; "labels"] o) as [|o1] eqn:E1; [done|].
  apply SetNestedField_labels in E1. intros E2. apply SetNestedField_spec in E2 as (M2 & N2 & _).
  rewrite M2, E1. by cbn [o_Meta with_labels m_Deleting m_Finalizers].
Qed.

(** The three objects for Prometheus. *)
Definition prometheus_list : list (Key * (Obj → Prop)) :=
  [(rule_key ns, λ o, nested ["spec"; "groups"] (content o) = Some alert_groups);
   (manager_monitor_key ns, λ o, nested ["spec"; "endpoints"] (content o) = Some (USlice [manager_endpoint]) ∧
     nested ["spec"; "selector"; "matchLabels"] (content o) = Some (label_value managers_selector));
   (controller_monitor_key ns, λ o, nested ["spec"; "endpoints"] (content o) = Some (USlice [controller_endpoint]) ∧
     nested ["spec"; "selector"; "matchLabels"] (content o) = Some (label_value controller_selector))].

Lemma managers_selected name : managers_selector ⊆ manager_labels name.
Proof.
  apply map_subseteq_spec. intros i v Hi. unfold managers_selector in Hi.
  rewrite lookup_insert_Some, lookup_singleton_Some in Hi. by destruct Hi as [[<- <-]|[_ [<- <-]]].
Qed.

Lemma prometheus_list_monitored (m : gmap Key Obj) : in_place prometheus_list m → monitored ns m.
Proof.
  unfold in_place, prometheus_list. rewrite !Forall_cons. cbn [fst snd].
  intros ((pr & Epr & Hpr) & (sm & Esm & He & Hs) & (sc & Esc & Hec & Hsc) & _). split_and!.
  - exists sc. split; [done|]. by exists controller_selector, controller_endpoint.
  - exists sm. split; [done|]. intros name. split.
    + exists managers_selector, manager_endpoint. split_and!; [done|apply managers_selected|done|done|done].
    + exists (mkServicePort "metrics" 9090 None). split; [right; by left|done].
  - by exists pr.
Qed.

Abbreviation prometheus_keys := [controller_monitor_key ns; manager_monitor_key ns; rule_key ns].

Lemma prometheus_leads (x0 : Seen) :
  leads see (eq x0)
    (_ ← raise (ensureControllerServiceMonitor ns); _ ← raise (ensureManagerServiceMonitor ns); _ ← raise (ensurePrometheusRule ns);
     mret monitoringReconcileInterval)
    (or_error (only prometheus_keys x0) (λ _ x, only prometheus_keys x0 x ∧ monitored ns x.1)).
Proof.
  eapply leads_weaken with (P := placed prometheus_keys x0 []); [|intros x <-; apply placed_start|intros res x HQ; exact HQ].
  unfold ensureControllerServiceMonitor, ensureManagerServiceMonitor, ensurePrometheusRule.
  eapply place_bind; [done|eapply place_step with (P := λ o, nested ["spec"; "endpoints"] (content o) = Some (USlice [controller_endpoint]) ∧
     nested ["spec"; "selector"; "matchLabels"] (content o) = Some (label_value controller_selector));
    [by intros o o' (? & ? & _)%set_monitor_spec|done|by intros o o' (_ & _ & ? & ?)%set_monitor_spec|set_solver|set_solver]|].
  eapply place_bind; [done|eapply place_step with (P := λ o, nested ["spec"; "endpoints"] (content o) = Some (USlice [manager_endpoint]) ∧
     nested ["spec"; "selector"; "matchLabels"] (content o) = Some (label_value managers_selector));
    [by intros o o' (? & ? & _)%set_monitor_spec|done|by intros o o' (_ & _ & ? & ?)%set_monitor_spec|set_solver|set_solver]|].
  eapply place_bind; [done|eapply place_step with (P := λ o, nested ["spec"; "groups"] (content o) = Some alert_groups);
    [by intros o o' (? & ? & _)%set_rule_spec|done|by intros o o' (_ & _ & ?)%set_rule_spec|set_solver|set_solver]|].
  apply leads_ret. intros x [Ho HL]. split; [done|]. by apply prometheus_list_monitored.
Qed.

Lemma dashboard_leads (x0 : Seen) :
  leads see (eq x0) (raise (ensureDashboardConfigMap dashboardJSON))
    (or_error (only [dashboard_key] x0) (λ _ x, only [dashboard_key] x0 x ∧ dashboard_shown dashboardJSON x.1)).
Proof.
  eapply leads_raise; [apply CreateOrUpdate_leads; [by intros o o' [= <-]|done]|by intros e e' x (? & _)|].
  intros u x (Ho & _ & Hs & _). split; [done|]. destruct (Hs u eq_refl) as (o & [= <-] & E).
  do 2 eexists. split_and!; [exact E|cbn; by rewrite lookup_insert_eq|done|done].
Qed.
End callbacks.

(** ** Theorems *)

(** Discovery finds what is served. *)
Definition discovery_works `{Cluster} : Prop := ∀ kind k, served k kind = true → ∃ u, fst (RESTMapping kind k) = inr u.

Definition run_post `{Cluster} (ns dashboardJSON : string) (x0 : Seen) (res : string + Z) (x : Seen) : Prop :=
  only (monitoring_keys ns) x0 x ∧
  ∀ d, res = inr d →
    (if x0.2 "ConsolePlugin" then dashboard_shown dashboardJSON x.1 else x.1 !! dashboard_key = x0.1 !! dashboard_key) ∧
    (if x0.2 "ServiceMonitor" then monitored ns x.1 else only [dashboard_key] x0 x).

Lemma mapping_leads `{ClusterLaws} (kind : string) (x0 : Seen) :
  discovery_works → leads see (eq x0) (RESTMapping kind) (λ res x, x = x0 ∧ match res with inr _ => x0.2 kind = true | inl _ => x0.2 kind = false end).
Proof.
  intros Hd k Hk. destruct (RESTMapping_leads kind x0 k Hk) as [Hx Hr]. split; [done|]. specialize (Hd kind k). subst x0.
  destruct (fst (RESTMapping kind k)); [|done]. destruct (served k kind) eqn:E; [by destruct (Hd eq_refl)|done].
Qed.

Lemma monitoring_leads `{ClusterLaws} (ns dashboardJSON : string) (x0 : Seen) :
  discovery_works → leads see (eq x0) (Reconcile ns dashboardJSON) (run_post ns dashboardJSON x0).
Proof.
  intros Hd. unfold Reconcile. eapply leads_try; [by apply mapping_leads|]. intros console. apply leads_each. intros ? [-> Hc].
  eapply leads_bind with (Q := λ _ x, only [dashboard_key] x0 x ∧
    if x0.2 "ConsolePlugin" then dashboard_shown dashboardJSON x.1 else x.1 !! dashboard_key = x0.1 !! dashboard_key).
  { destruct console as [e|u]; rewrite Hc; [apply leads_ret; by intros x <-|].
    eapply leads_weaken; [apply dashboard_leads|done|]. intros [e|v] x Hx; [|done]. split; [|done].
    eapply only_weaken; [exact Hx|unfold monitoring_keys; set_solver]. }
  intros _. apply leads_each. intros x1 [Ho Hdash]. destruct Ho as [Hs Ho].
  eapply leads_try; [by apply mapping_leads|]. intros monitors. apply leads_each. intros ? [-> Hm]. rewrite Hs in Hm.
  assert (Ho1 : only (monitoring_keys ns) x0 x1) by (eapply only_weaken; [split; [exact Hs|exact Ho]|unfold monitoring_keys; set_solver]).
  destruct monitors as [e|u].
  - apply leads_ret. intros x <-. split; [done|]. intros _ _. by rewrite Hm.
  - eapply leads_weaken; [apply prometheus_leads|done|]. 
    assert (Hx : ∀ x, only [controller_monitor_key ns; manager_monitor_key ns; rule_key ns] x1 x → only (monitoring_keys ns) x0 x).
    { intros x Hx. eapply only_trans; [exact Ho1|eapply only_weaken; [exact Hx|]|done]. unfold monitoring_keys. set_solver. }
    intros [e|d] x Hres; (split; [apply Hx, Hres|]); [done|]. intros _ _. destruct Hres as [Hl Hmon]. rewrite Hm. split; [|done].
    assert (E : x.1 !! dashboard_key = x1.1 !! dashboard_key).
    { apply (proj2 Hl). unfold dashboard_key, controller_monitor_key, manager_monitor_key, rule_key. set_solver. }
    unfold dashboard_shown. by rewrite E.
Qed.

(** Everything that can be monitored is.  Whatever calls fail, a run
    touches only the dashboard, the two monitors and the alerts.  When it
    succeeds and discovery works, the dashboard is where a console shows it
    exactly where there is a console; where Prometheus runs, the controller is
    scraped, the monitor of the managers selects the Service that is deployed
    for every target and names one of its ports, and the alerts are in place;
    and every alert is about metrics that the two processes export, matches on
    labels that all of them have, and mentions only labels that it carries. *)
Theorem monitoring_reconciled `{ClusterLaws} (ns dashboardJSON : string) (k : cluster) :
  discovery_works →
  (let '(res, k') := Reconcile ns dashboardJSON k in
   only (monitoring_keys ns) (see k) (see k') ∧
   ∀ d, res = inr d →
     (if served k "ConsolePlugin" then dashboard_shown dashboardJSON (objs k') else objs k' !! dashboard_key = objs k !! dashboard_key) ∧
     (if served k "ServiceMonitor" then monitored ns (objs k') else only [dashboard_key] (see k) (see k'))) ∧
  Forall (λ a, alert_meaningful a = true) alerts.
Proof.
  intros Hd. split; [|by repeat constructor].
  pose proof (monitoring_leads ns dashboardJSON (see k) Hd k eq_refl) as Hr. destruct (Reconcile ns dashboardJSON k). exact Hr.
Qed.

Definition ex_cluster (kinds : list string) : MemCluster := mkMemCluster ∅ kinds [].

Lemma mem_discovery : @discovery_works mem_cluster.
Proof. intros kind k. cbn. case_bool_decide; [eauto|done]. Qed.

Lemma monitoring_reconciled_witness :
  (let '(res, k') := @Reconcile mem_cluster "oc-mirror" "{}" (ex_cluster ["ConfigMap"; "ConsolePlugin"; "ServiceMonitor"; "PrometheusRule"]) in
   only (monitoring_keys "oc-mirror") (@see mem_cluster (ex_cluster ["ConfigMap"; "ConsolePlugin"; "ServiceMonitor"; "PrometheusRule"])) (@see mem_cluster k') ∧
   ∀ d, res = inr d → dashboard_shown "{}" (mem_objs k') ∧ monitored "oc-mirror" (mem_objs k')) ∧
  fst (@Reconcile mem_cluster "oc-mirror" "{}" (ex_cluster ["ConfigMap"; "ConsolePlugin"; "ServiceMonitor"; "PrometheusRule"])) = inr 600%Z ∧
  Forall (λ a, alert_meaningful a = true) alerts.
Proof.
  pose proof (@monitoring_reconciled mem_cluster mem_cluster_laws "oc-mirror" "{}"
    (ex_cluster ["ConfigMap"; "ConsolePlugin"; "ServiceMonitor"; "PrometheusRule"]) mem_discovery) as [Hr Ha].
  split; [exact Hr|]. split; [by vm_compute|exact Ha].
Defined.
