(* ===== verification/HelmResolver.v ===== *)
(** * Resolving Helm charts

    pkg/mirror/helm/resolver.go and the chart part of pkg/mirror/collector.go:
    the download of a chart from a repository or an OCI registry, the rendering
    of its templates, and the images found in them.

    The Helm library (index, archive, template engine), YAML, JSONPath, the HTTP
    client and the registry client are the class [HelmLib].  Maps that Go
    iterates in any order are lists here.  [strings.Fields] and
    [strings.TrimSpace] are those of ASCII text. *)
From stdpp Require Import sorting.
From S2P Require Import Prelude Effects GoStrings HelmSource Api Resolve.

(** ** The libraries *)

Record ChartVersion := mkChartVersion { cv_Version : string; cv_URLs : list string }.
(** The body is what can be read of it, or the error of reading it. *)
Record Response := mkResponse { rs_StatusCode : Z; rs_Body : string + string }.
Record LayerDesc := mkLayerDesc { ld_MediaType : string; ld_Digest : string }.
(** A manifest that is an [Imager] has layers. *)
Inductive OCIManifest := NotAnImage (mediaType : string) | ImageLayers (layers : string + list LayerDesc).

Class HelmLib := {
  world : Type;
  http_Do : string → M world string Response;
  ociref : Type;
  ref_New : string → option ociref;
  oci_ManifestGet : ociref → M world string OCIManifest;
  oci_BlobGet : ociref → LayerDesc → M world string (string + string);
  index_file : Type;
  index_Unmarshal : string → option index_file;
  SortEntries : index_file → index_file;
  index_Get : index_file → string → string → option ChartVersion;
  chart : Type;
  chart_Name : chart → string;
  LoadArchive : string → option chart;
  ProcessDependencies : chart → option chart;
  render_values : Type;
  ToRenderValues : chart → option render_values;
  engine_Render : chart → render_values → option (list (string * string));
  CRDObjects : chart → list (string * string);
  SortManifests : list (string * string) → option (list (string * string));
  yaml : Type;
  yaml_Unmarshal : string → option (option yaml);
  jsonpath : Type;
  jp_Parse : string → option jsonpath;
  jp_Execute : jsonpath → yaml → option string;
}.

(** ** Text *)

(** [strings.Split] for a separator of several characters; [skip] characters
    belong to the separator that was just seen. *)
Fixpoint split_str (sep s cur : string) (skip : nat) : list string :=
  match s with
  | "" => [cur]
  | String c rest =>
    match skip with
    | S skip => split_str sep rest cur skip
    | O => if HasPrefix s sep then cur :: split_str sep rest "" (String.length sep - 1)
           else split_str sep rest (cur +:+ String c "") O
    end
  end.

Fixpoint fields (s cur : string) : list string :=
  match s with
  | "" => if String.eqb cur "" then [] else [cur]
  | String c s => if is_space c then (if String.eqb cur "" then [] else [cur]) ++ fields s "" else fields s (cur +:+ String c "")
  end.
Definition Fields (s : string) : list string := fields s "".

(** ** The resolver *)

Definition defaultImagePaths : list string :=
  ["{.spec.template.spec.initContainers[*].image}"; "{.spec.template.spec.containers[*].image}";
   "{.spec.initContainers[*].image}"; "{.spec.containers[*].image}"].
Definition ociScheme : string := "oci://".
Definition helmChartLayerMediaTypes : list string :=
  ["application/vnd.cncf.helm.chart.content.v1.tar+gzip"; "application/tar+gzip"].
Definition maxChartArchiveSize : N := 64 * 1024 * 1024.
Definition document_separator : string := newline +:+ "---" +:+ newline.

Section resolver.
Context `{HelmLib}.

Definition some {A} (msg : string) (o : option A) : M world string A := match o with Some a => mret a | None => fail msg end.
Definition wrapf {A} (msg : string) (m : M world string A) : M world string A := λ w,
  match m w with (inl e, w) => (inl (msg +:+ ": " +:+ e), w) | res => res end.

Definition get (url : string) : M world string string :=
  resp ← wrapf ("fetch " +:+ url) (http_Do url);
  if negb (rs_StatusCode resp =? 200)%Z then fail ("fetch " +:+ url +:+ ": HTTP " +:+ Itoa (rs_StatusCode resp))
  else match rs_Body resp with
       | inl e => fail ("read response body: " +:+ e)
       | inr body =>
         let data := LimitReader maxChartArchiveSize body in
         if String.eqb data "" then fail ("empty response body from " +:+ url) else mret data
       end.

(** The loop over the layers: the first one that is a chart decides. *)
Fixpoint chart_layer (cref : ociref) (chartURL : string) (layers : list LayerDesc) : M world string string :=
  match layers with
  | [] => fail (chartURL +:+ " has no Helm chart layer")
  | layer :: layers =>
    if negb (bool_decide (ld_MediaType layer ∈ helmChartLayerMediaTypes)) then chart_layer cref chartURL layers
    else
      body ← wrapf ("get chart layer of " +:+ chartURL) (oci_BlobGet cref layer);
      match body with
      | inl e => fail ("read chart layer of " +:+ chartURL +:+ ": " +:+ e)
      | inr body => mret (LimitReader maxChartArchiveSize body)
      end
  end.

(** [oci]: there is a registry client. *)
Definition pullOCIChart (oci : bool) (chartURL : string) : M world string string :=
  if negb oci then fail (chartURL +:+ " is stored in an OCI registry, but no registry client is configured")
  else
    cref ← some ("parse " +:+ chartURL) (ref_New (TrimPrefix chartURL ociScheme));
    m ← wrapf ("get manifest of " +:+ chartURL) (oci_ManifestGet cref);
    match m with
    | NotAnImage mediaType => fail (chartURL +:+ " is not a single-artifact manifest (media type " +:+ mediaType +:+ ")")
    | ImageLayers (inl e) => fail ("list layers of " +:+ chartURL +:+ ": " +:+ e)
    | ImageLayers (inr layers) => chart_layer cref chartURL layers
    end.

Definition resolveChartVersion (repoURL name version : string) : M world string ChartVersion :=
  let base := TrimSuffix repoURL "/" in
  data ← wrapf "fetch repository index" (get (base +:+ "/index.yaml"));
  index ← some "parse index.yaml" (index_Unmarshal data);
  cv ← some ("chart " +:+ name +:+ " not found in repository index") (index_Get (SortEntries index) name version);
  match cv_URLs cv with
  | [] => fail ("chart " +:+ name +:+ " has no download URL in repository index")
  | _ => mret cv
  end.

(** The URL to download from, and the version. *)
Definition chart_location (repoURL : string) (c : Chart) : M world string (string * string) :=
  if HasPrefix repoURL ociScheme then
    if String.eqb (ch_Version c) "" then fail ("chart " +:+ ch_Name c +:+ ": a version is required for OCI repository " +:+ repoURL)
    else mret (TrimSuffix repoURL "/" +:+ "/" +:+ ch_Name c +:+ ":" +:+ ch_Version c, ch_Version c)
  else
    cv ← wrapf "resolve chart URL" (resolveChartVersion repoURL (ch_Name c) (ch_Version c));
    let chartURL := List.hd "" (cv_URLs cv) in
    mret (if negb (Contains chartURL "://") then TrimSuffix repoURL "/" +:+ "/" +:+ TrimPrefix chartURL "/" else chartURL, cv_Version cv).

Definition DownloadChartArchive (oci : bool) (repoURL : string) (c : Chart) : M world string (string * string) :=
  '(chartURL, version) ← chart_location repoURL c;
  data ← wrapf "download chart" (if HasPrefix chartURL ociScheme then pullOCIChart oci chartURL else get chartURL);
  mret (data, version).

Definition LoadChartArchive (data : string) : M world string chart := some "load chart archive" (LoadArchive data).

(** ** Images *)

Definition source_doc (doc : string * string) : string :=
  "---" +:+ newline +:+ "# Source: " +:+ fst doc +:+ newline +:+ snd doc +:+ newline.

Definition renderChart (ch : chart) : string + string :=
  match ProcessDependencies ch with
  | None => inl "process dependencies"
  | Some ch =>
    match ToRenderValues ch with
    | None => inl "compose render values"
    | Some vals =>
      match engine_Render ch vals with
      | None => inl "render templates"
      | Some files =>
        let files := List.filter (λ f, negb (HasSuffix (fst f) ".txt")) files in
        let crds := List.map source_doc (CRDObjects ch) in
        inr (Join (crds ++ match SortManifests files with
                           | None => List.map source_doc (List.filter (λ f, negb (String.eqb (TrimSpace (snd f)) "")) files)
                           | Some manifests => List.map source_doc manifests
                           end) "")
      end
    end
  end.

Definition evalJSONPath (data : yaml) (path : string) : option (list string) :=
  jp ← jp_Parse path; out ← jp_Execute jp data; Some (Fields out).

Fixpoint eval_paths (data : yaml) (paths : list string) : option (list string) :=
  match paths with
  | [] => Some []
  | path :: paths => found ← evalJSONPath data path; rest ← eval_paths data paths; Some (found ++ rest)
  end.

Definition findImages (doc : string) (paths : list string) : string + list string :=
  match yaml_Unmarshal doc with
  | None => inl "parse rendered manifest"
  | Some None => inr []
  | Some (Some data) => match eval_paths data paths with None => inl "evaluate jsonpath" | Some images => inr images end
  end.

(** The inner loop: images that were not seen are appended. *)
Definition add_images (images found : list string) : list string :=
  foldl (λ images img, if String.eqb img "" || bool_decide (img ∈ images) then images else images ++ [img]) images found.

Fixpoint scan_docs (paths docs images : list string) : string + list string :=
  match docs with
  | [] => inr images
  | doc :: docs =>
    if String.eqb (TrimSpace doc) "" then scan_docs paths docs images
    else match findImages doc paths with
         | inl e => inl e
         | inr found => scan_docs paths docs (add_images images found)
         end
  end.

Definition imagesFromChart (ch : chart) (extraPaths : list string) : string + list string :=
  match renderChart ch with
  | inl e => inl ("render chart " +:+ chart_Name ch +:+ ": " +:+ e)
  | inr rendered =>
    match scan_docs (defaultImagePaths ++ extraPaths) (split_str document_separator rendered "" 0) [] with
    | inl e => inl e
    | inr images => inr (sort_strings images)
    end
  end.

Definition lift_err {A} (r : string + A) : M world string A := match r with inl e => fail e | inr a => mret a end.

Definition ResolveChart (oci : bool) (repoURL : string) (c : Chart) (imagePaths : list string) : M world string (list string) :=
  '(data, _) ← DownloadChartArchive oci repoURL c;
  ch ← LoadChartArchive data;
  lift_err (imagesFromChart ch imagePaths).

(** Images, archive, version. *)
Definition EnumerateHelmChart (oci : bool) (repoURL : string) (c : Chart) (imagePaths : list string)
    : M world string (list string * string * string) :=
  '(archive, version) ← DownloadChartArchive oci repoURL c;
  ch ← LoadChartArchive archive;
  images ← lift_err (imagesFromChart ch imagePaths);
  mret (images, archive, version).

(** The download of the worker: of the version that was resolved, which has to
    be what comes out. *)
Definition worker_download (source : string) : M world string string :=
  match ParseHelmChartSource source with
  | None => fail ("invalid helm chart source " +:+ source)
  | Some (repoURL, chartName, version) =>
    '(archive, resolvedVersion) ← DownloadChartArchive true repoURL (mkChart chartName version);
    if negb (String.eqb resolvedVersion version) then fail "chart resolved to another version"
    else match LoadArchive archive with None => fail "not a valid chart archive" | Some _ => mret archive end
  end.
End resolver.

(** ** Images of a chart *)

Section images.
Context `{HelmLib}.

(** [x] is at one of the paths of a document of the rendered chart. *)
Definition mentions (paths : list string) (doc x : string) : Prop :=
  ∃ data path found, TrimSpace doc ≠ "" ∧ yaml_Unmarshal doc = Some (Some data) ∧ path ∈ paths ∧
    evalJSONPath data path = Some found ∧ x ∈ found ∧ x ≠ "".

(** The document can be read at all paths. *)
Definition readable (paths : list string) (doc : string) : Prop :=
  TrimSpace doc = "" ∨
  ∃ data, yaml_Unmarshal doc = Some data ∧ ∀ y path, data = Some y → path ∈ paths → is_Some (evalJSONPath y path).

Lemma eval_paths_elem data paths l : eval_paths data paths = Some l → ∀ x, x ∈ l ↔ ∃ path found, path ∈ paths ∧ evalJSONPath data path = Some found ∧ x ∈ found.
Proof.
  revert l. induction paths as [|path paths IH]; cbn; intros l E x; [injection E as <-; set_solver|].
  apply bind_Some in E as (found & Ef & E). apply bind_Some in E as (rest & Er & [= <-]).
  rewrite elem_of_app, (IH rest Er). setoid_rewrite elem_of_cons. naive_solver.
Qed.

Lemma eval_paths_total data paths : is_Some (eval_paths data paths) ↔ ∀ path, path ∈ paths → is_Some (evalJSONPath data path).
Proof.
  induction paths as [|path paths IH]; cbn; [split; [set_solver|eauto]|]. setoid_rewrite elem_of_cons. split.
  - intros [l E]. apply bind_Some in E as (found & Ef & E). apply bind_Some in E as (rest & Er & _).
    intros p [->|Hp]; [eauto|]. apply IH; eauto.
  - intros Hp. destruct (Hp path ltac:(by left)) as [found ->]. destruct (proj2 IH) as [rest ->]; [eauto|]. cbn. eauto.
Qed.

Lemma add_images_spec images found :
  NoDup images → NoDup (add_images images found) ∧ ∀ x, x ∈ add_images images found ↔ x ∈ images ∨ x ∈ found ∧ x ≠ "".
Proof.
  unfold add_images. revert images. induction found as [|img found IH]; intros images Hn; cbn; [split; [done|set_solver]|].
  set (images' := if _ : bool then images else images ++ [img]).
  assert (H1 : NoDup images' ∧ ∀ x, x ∈ images' ↔ x ∈ images ∨ x = img ∧ x ≠ "").
  { subst images'. destruct (String.eqb_spec img "") as [->|Hne]; cbn [orb]; [split; [done|naive_solver]|].
    case_bool_decide as Hi; [split; [done|naive_solver]|]. split; [|set_solver].
    apply NoDup_app. split_and!; [done|set_solver|apply NoDup_singleton]. }
  destruct H1 as [H1 H2]. destruct (IH images' H1) as [H3 H4]. split; [done|]. intros x. rewrite H4, H2, elem_of_cons. naive_solver.
Qed.

Lemma findImages_spec doc paths :
  match findImages doc paths with
  | inr found => readable paths doc ∧ (TrimSpace doc ≠ "" → ∀ x, x ∈ found ∧ x ≠ "" ↔ mentions paths doc x)
  | inl _ => TrimSpace doc ≠ "" → ¬ readable paths doc
  end.
Proof.
  unfold findImages, mentions, readable. destruct (yaml_Unmarshal doc) as [[data|]|] eqn:E.
  - destruct (eval_paths data paths) as [l|] eqn:El.
    + pose proof (eval_paths_elem _ _ _ El) as Hl. pose proof (proj1 (eval_paths_total data paths) (ex_intro _ l El)) as Ht. split.
      * right. exists (Some data). split; [done|]. by intros y path [= <-] Hp; apply Ht.
      * intros Hne x. rewrite Hl. split.
        -- intros [(path & found & Hp & Ef & Hx) Hx0]. by exists data, path, found.
        -- intros (data' & path & found & _ & [= <-] & Hp & Ef & Hx & Hx0). split; [by exists path, found|done].
    + intros Hne [Ht|(d & [= <-] & Ht)]; [done|]. assert (is_Some (eval_paths data paths)) as [l E']; [|congruence].
      apply eval_paths_total. intros path Hp. by apply (Ht data).
  - split; [right; exists None; by split|]. intros Hne x. split; [set_solver|]. by intros (d & ? & ? & _ & ? & _).
  - intros Hne [Ht|(d & ? & _)]; done.
Qed.

Lemma scan_docs_spec paths docs images :
  NoDup images →
  match scan_docs paths docs images with
  | inr res => Forall (readable paths) docs ∧ NoDup res ∧ ∀ x, x ∈ res ↔ x ∈ images ∨ ∃ doc, doc ∈ docs ∧ mentions paths doc x
  | inl _ => ¬ Forall (readable paths) docs
  end.
Proof.
  revert images. induction docs as [|doc docs IH]; intros images Hn; cbn; [split_and!; [constructor|done|set_solver]|].
  assert (Hcons : ∀ x, (∃ d, d ∈ doc :: docs ∧ mentions paths d x) ↔ mentions paths doc x ∨ ∃ d, d ∈ docs ∧ mentions paths d x).
  { intros x. setoid_rewrite elem_of_cons. naive_solver. }
  destruct (String.eqb_spec (TrimSpace doc) "") as [Hb|Hb].
  - assert (Hr : readable paths doc) by (by left). specialize (IH images Hn).
    destruct (scan_docs paths docs images) as [e|res]; [by intros [_ ?]%Forall_cons|].
    destruct IH as (H1 & H2 & H3). split_and!; [by constructor|done|]. intros x. rewrite Hcons, H3.
    assert (¬ mentions paths doc x) by (by intros (? & ? & ? & ? & _)). tauto.
  - pose proof (findImages_spec doc paths) as Hf. destruct (findImages doc paths) as [e|found].
    { intros [? _]%Forall_cons. by apply Hf. }
    destruct Hf as [Hr Hm]. destruct (add_images_spec images found Hn) as [Hn' Ha]. specialize (IH _ Hn').
    destruct (scan_docs paths docs (add_images images found)) as [e|res]; [by intros [_ ?]%Forall_cons|].
    destruct IH as (H1 & H2 & H3). split_and!; [by constructor|done|]. intros x. rewrite Hcons, H3, Ha, (Hm Hb). tauto.
Qed.
End images.

(** ** Chart locations *)

Lemma snoc_prefix (t p r : string) (c : ascii) : t +:+ String c "" = p +:+ r → r = "" ∨ ∃ r', t = p +:+ r'.
Proof.
  revert t. induction p as [|a p IH]; intros t; cbn; [eauto|].
  destruct t as [|b t]; cbn; intros E; injection E as -> E.
  - left. by destruct p.
  - destruct (IH t E) as [->|[r' ->]]; [by left|right; by exists r'].
Qed.

(** A URL without a second slash at its end is an OCI reference with and
    without its slash. *)
Lemma TrimSuffix_oci s : HasSuffix (TrimSuffix s "/") "/" = false → HasPrefix (TrimSuffix s "/") ociScheme = HasPrefix s ociScheme.
Proof.
  intros Hs. destruct (HasSuffix s "/") eqn:E; [|by rewrite TrimSuffix_id].
  pose proof (TrimSuffix_split s "/" E) as Es. set (t := TrimSuffix s "/") in *.
  apply eq_true_iff_eq. rewrite !HasPrefix_spec. split.
  - intros [r Hr]. exists (r +:+ "/"). by rewrite Es, Hr, app_assoc_s.
  - intros [r Hr]. rewrite Es in Hr. destruct (snoc_prefix t ociScheme r "/" Hr) as [->|[r' ->]]; [|eauto].
    exfalso. assert (t = "oci:/") as ->; [|done]. apply (app_inv_tail_s "/"). rewrite Hr. done.
Qed.

(** What is relied on of the index: the version that was picked is picked again
    when it is asked for. *)
Class HelmLaws `{HelmLib} : Prop := {
  index_Get_again index name version cv : index_Get index name version = Some cv → index_Get index name (cv_Version cv) = Some cv;
}.

Section download.
Context `{HelmLib}.

(** The answer does not depend on when the question is asked. *)
Definition fixed {A} (m : M world string A) : Prop := ∀ w w', fst (m w) = fst (m w').
Definition upstream_stable : Prop :=
  (∀ url, fixed (http_Do url)) ∧ (∀ r, fixed (oci_ManifestGet r)) ∧ (∀ r d, fixed (oci_BlobGet r d)).

Lemma fixed_ret {A} (a : A) : fixed (mret a).
Proof. done. Qed.
Lemma fixed_fail {A} e : fixed (fail (A := A) e).
Proof. done. Qed.
Lemma fixed_bind {A B} (m : M world string A) (k : A → M world string B) : fixed m → (∀ a, fixed (k a)) → fixed (m ≫= k).
Proof. intros Hm Hk w w'. rewrite !bind_eq, (Hm w w'). destruct (fst (m w')); [done|apply Hk]. Qed.
Lemma fixed_some {A} msg (o : option A) : fixed (some msg o).
Proof. by destruct o. Qed.
Lemma fixed_wrapf {A} msg (m : M world string A) : fixed m → fixed (wrapf msg m).
Proof. intros Hm w w'. specialize (Hm w w'). unfold wrapf. destruct (m w) as [[] ?], (m w') as [[] ?]; cbn in *; congruence. Qed.

Context (Hst : upstream_stable).

Lemma fixed_get url : fixed (get url).
Proof.
  apply fixed_bind; [apply fixed_wrapf, Hst|]. intros resp. destruct (negb _); [apply fixed_fail|].
  destruct (rs_Body resp); [apply fixed_fail|]. cbv zeta. by destruct (String.eqb _ _).
Qed.

Lemma fixed_chart_layer cref url layers : fixed (chart_layer cref url layers).
Proof.
  induction layers as [|l layers IH]; [done|]. cbn [chart_layer]. destruct (negb _); [done|].
  apply fixed_bind; [apply fixed_wrapf, Hst|]. by intros [|].
Qed.

Lemma fixed_pullOCIChart oci url : fixed (pullOCIChart oci url).
Proof.
  unfold pullOCIChart. destruct oci; [|done]. apply fixed_bind; [apply fixed_some|]. intros cref.
  apply fixed_bind; [apply fixed_wrapf, Hst|]. intros [|[|layers]]; [done|done|apply fixed_chart_layer].
Qed.

Lemma fixed_chart_location repoURL c : fixed (chart_location repoURL c).
Proof.
  unfold chart_location. destruct (HasPrefix repoURL ociScheme); [by destruct (String.eqb _ _)|]. apply fixed_bind; [|done]. apply fixed_wrapf.
  apply fixed_bind; [apply fixed_wrapf, fixed_get|]. intros data. apply fixed_bind; [apply fixed_some|]. intros index.
  apply fixed_bind; [apply fixed_some|]. intros cv. by destruct (cv_URLs cv).
Qed.

Lemma fixed_DownloadChartArchive oci repoURL c : fixed (DownloadChartArchive oci repoURL c).
Proof.
  apply fixed_bind; [apply fixed_chart_location|]. intros [url version]. apply fixed_bind; [|done].
  apply fixed_wrapf. destruct (HasPrefix url ociScheme); [apply fixed_pullOCIChart|apply fixed_get].
Qed.
End download.

Section again.
Context `{HelmLaws}.

Lemma resolveChartVersion_again repoURL name version w cv w' :
  HasSuffix (TrimSuffix repoURL "/") "/" = false →
  resolveChartVersion repoURL name version w = (inr cv, w') →
  resolveChartVersion (TrimSuffix repoURL "/") name (cv_Version cv) w = (inr cv, w').
Proof.
  intros Hs. unfold resolveChartVersion. rewrite (TrimSuffix_id (TrimSuffix repoURL "/")) by done. rewrite !bind_eq.
  destruct (wrapf _ _ w) as [[e|data] w1]; cbn [fst snd]; [done|]. rewrite !bind_eq.
  destruct (index_Unmarshal data) as [index|]; cbn [some fst snd mret M_ret fail]; [|done]. rewrite !bind_eq.
  destruct (index_Get (SortEntries index) name version) as [cv'|] eqn:E; cbn [some fst snd mret M_ret fail]; [|done].
  intros Hr. assert (cv' = cv) as -> by (destruct (cv_URLs cv'); unfold mret, M_ret, fail in Hr; congruence).
  by rewrite (index_Get_again _ _ _ _ E).
Qed.

(** Asked for the version that was resolved, at the repository as the worker
    writes it, the location is the same. *)
Lemma chart_location_again repoURL c w url version w' :
  HasSuffix (TrimSuffix repoURL "/") "/" = false →
  chart_location repoURL c w = (inr (url, version), w') →
  chart_location (TrimSuffix repoURL "/") (mkChart (ch_Name c) version) w = (inr (url, version), w').
Proof.
  intros Hs. unfold chart_location. rewrite (TrimSuffix_oci _ Hs), (TrimSuffix_id (TrimSuffix repoURL "/")) by done.
  cbn [ch_Name ch_Version]. destruct (HasPrefix repoURL ociScheme).
  - destruct (String.eqb (ch_Version c) "") eqn:Ev; [done|]. unfold mret, M_ret. intros [= <- <- <-]. by rewrite Ev.
  - rewrite !bind_eq. intros Hr.
    destruct (resolveChartVersion repoURL (ch_Name c) (ch_Version c) w) as [[e|cv] w1] eqn:E; unfold wrapf in *; rewrite E in Hr; cbn [fst snd] in Hr; [done|].
    assert (cv_Version cv = version) as <- by (unfold mret, M_ret in Hr; congruence).
    rewrite (resolveChartVersion_again _ _ _ _ _ _ Hs E). cbn [fst snd]. exact Hr.
Qed.

Lemma DownloadChartArchive_again oci repoURL c w archive version w' :
  HasSuffix (TrimSuffix repoURL "/") "/" = false →
  DownloadChartArchive oci repoURL c w = (inr (archive, version), w') →
  DownloadChartArchive true (TrimSuffix repoURL "/") (mkChart (ch_Name c) version) w = (inr (archive, version), w').
Proof.
  intros Hs. unfold DownloadChartArchive. rewrite !bind_eq.
  destruct (chart_location repoURL c w) as [[e|[url v]] w1] eqn:El; cbn [fst snd]; [done|]. rewrite !bind_eq. intros Hr.
  destruct (wrapf "download chart" (if HasPrefix url ociScheme then pullOCIChart oci url else get url) w1) as [[e|data] w2] eqn:Ed;
    cbn [fst snd] in Hr; [done|]. assert (v = version) as -> by (unfold mret, M_ret in Hr; congruence).
  rewrite (chart_location_again _ _ _ _ _ _ Hs El). cbn [fst snd]. rewrite bind_eq.
  assert (Ed' : wrapf "download chart" (if HasPrefix url ociScheme then pullOCIChart true url else get url) w1 = (inr data, w2)).
  { revert Ed. destruct (HasPrefix url ociScheme); [|done]. destruct oci; [done|]. done. }
  rewrite Ed'. exact Hr.
Qed.
End again.

(** ** A library for the examples *)

(** Archives, documents and paths are their own content; a chart is the list of
    its files, an index has one version. *)
Definition toy_files (archive : string) : option (list (string * string)) :=
  if String.eqb archive "good.tgz" then
    Some [("templates/NOTES.txt", "image: no"); ("templates/b.yaml", "image: quay.io/b:1"); ("templates/a.yaml", "image: quay.io/a:1")]
  else if String.eqb archive "bad.tgz" then
    Some [("templates/a.yaml", "image: quay.io/a:1"); ("templates/bad.yaml", "}{")]
  else None.

Definition toy_helm : HelmLib := {|
  world := unit;
  http_Do url w :=
    (if String.eqb url "https://charts.io/stable/index.yaml" then inr (mkResponse 200 (inr "good"))
     else if String.eqb url "https://charts.io/stable/nginx-1.2.0.tgz" then inr (mkResponse 200 (inr "good.tgz"))
     else inr (mkResponse 404 (inr "")), w);
  ociref := string; ref_New := Some;
  oci_ManifestGet r w := (inl "no registry", w);
  oci_BlobGet r d w := (inl "no registry", w);
  index_file := string; index_Unmarshal := Some; SortEntries := id;
  index_Get index name version :=
    if String.eqb version "" || String.eqb version "1.2.0" then Some (mkChartVersion "1.2.0" ["nginx-1.2.0.tgz"]) else None;
  chart := list (string * string); chart_Name _ := "nginx"; LoadArchive := toy_files;
  ProcessDependencies := Some; render_values := unit; ToRenderValues _ := Some tt; engine_Render ch _ := Some ch; CRDObjects _ := [];
  SortManifests files := if existsb (λ f, Contains (snd f) "}{") files then None else Some files;
  yaml := string; yaml_Unmarshal doc := if Contains doc "}{" then None else Some (Some doc);
  jsonpath := unit; jp_Parse _ := Some tt;
  jp_Execute _ doc := Some (match cut "image: " doc with Some (_, after) => CutBefore after newline | None => "" end);
|}.

Lemma toy_helm_laws : @HelmLaws toy_helm.
Proof. split. cbn. intros index name version cv. destruct (_ || _); [|done]. by intros [= <-]. Qed.

Lemma toy_helm_stable : @upstream_stable toy_helm.
Proof. by split_and!. Qed.

Example ex_split : split_str document_separator ("---" +:+ newline +:+ "a" +:+ document_separator +:+ "b") "" 0 = ["---" +:+ newline +:+ "a"; "b"].
Proof. done. Qed.
Example ex_chart_images :
  fst (@EnumerateHelmChart toy_helm false "https://charts.io/stable/" (mkChart "nginx" "") [] tt) = inr (["quay.io/a:1"; "quay.io/b:1"], "good.tgz", "1.2.0").
Proof. by vm_compute. Qed.

(** ** Theorems *)

(** The images of a chart are exactly those its rendered manifests mention at
    the paths, each once and sorted; there is an error only if the templates
    cannot be rendered or a document that is not blank cannot be read. *)
Theorem chart_images_exact `{HelmLib} (ch : chart) (extraPaths : list string) :
  let paths := defaultImagePaths ++ extraPaths in
  match imagesFromChart ch extraPaths with
  | inr images =>
    NoDup images ∧ StronglySorted String.le images ∧
    ∃ rendered, renderChart ch = inr rendered ∧
      ∀ x, x ∈ images ↔ ∃ doc, doc ∈ split_str document_separator rendered "" 0 ∧ mentions paths doc x
  | inl _ =>
    ∀ rendered, renderChart ch = inr rendered → ¬ Forall (readable paths) (split_str document_separator rendered "" 0)
  end.
Proof.
  cbv zeta. unfold imagesFromChart. destruct (renderChart ch) as [e|rendered]; [by intros ?|].
  pose proof (scan_docs_spec (defaultImagePaths ++ extraPaths) (split_str document_separator rendered "" 0) [] ltac:(constructor)) as Hs.
  destruct (scan_docs _ _ []) as [e|images]; [by intros ? [= <-]|]. destruct Hs as (_ & Hn & Hx).
  split_and!; [by rewrite sort_strings_perm|apply (StronglySorted_merge_sort String.le)|].
  exists rendered. split; [done|]. intros x. rewrite sort_strings_perm, Hx. set_solver.
Qed.

(** C19: The worker mirrors the chart the manager resolved.  When the manager
    resolves a chart to a version and its images, from a chart repository or
    from an OCI registry, and the upstream does not change, the worker that is
    handed the source reference of that chart, with any version the manager
    picked from the index, downloads the very same archive: the one the images
    were read from.  The URL of the repository must not have credentials, a
    query or two slashes at its end. *)
Theorem worker_downloads_resolved_chart `{HelmLaws} (oci : bool) (repoURL : string) (c : Chart) (imagePaths : list string) (redact : string → string)
    (w w' w2 : world) images archive version :
  upstream_stable →
  EnumerateHelmChart oci repoURL c imagePaths w = (inr (images, archive, version), w') →
  redact repoURL = repoURL → TrimSuffix repoURL "/" ≠ "" → HasSuffix (TrimSuffix repoURL "/") "/" = false → has_char "?" (TrimSuffix repoURL "/") = false →
  ch_Name c ≠ "" → version ≠ "" →
  fst (worker_download (HelmChartSource redact repoURL (ch_Name c) version) w2) = inr archive ∧
  ∃ ch, LoadArchive archive = Some ch ∧ imagesFromChart ch imagePaths = inr images.
Proof.
  intros Hst He Hr Hne Hs Hq Hn Hv. unfold EnumerateHelmChart in He. rewrite bind_eq in He.
  destruct (DownloadChartArchive oci repoURL c w) as [[e|[a v]] w1] eqn:Ed; cbn [fst snd] in He; [done|].
  rewrite bind_eq in He. unfold LoadChartArchive in He. destruct (LoadArchive a) as [ch|] eqn:El; cbn [some fst snd mret M_ret fail] in He; [|done].
  rewrite bind_eq in He. destruct (imagesFromChart ch imagePaths) as [e|imgs] eqn:Ei; cbn [lift_err fst snd mret M_ret fail] in He; [done|].
  assert (imgs = images ∧ a = archive ∧ v = version) as (-> & -> & ->) by (injection He; by intros).
  split; [|by exists ch]. unfold worker_download.
  rewrite (ParseHelmChartSource_HelmChartSource redact repoURL (ch_Name c) version); rewrite ?Hr; try done. rewrite bind_eq.
  pose proof (fixed_DownloadChartArchive Hst true (TrimSuffix repoURL "/") (mkChart (ch_Name c) version) w2 w) as Hf.
  rewrite (DownloadChartArchive_again _ _ _ _ _ _ _ Hs Ed) in Hf. cbn [fst] in Hf. rewrite Hf. cbn [fst snd].
  rewrite String.eqb_refl. cbn [negb]. by rewrite El.
Qed.

Lemma worker_downloads_resolved_chart_witness :
  fst (@worker_download toy_helm (HelmChartSource id "https://charts.io/stable/" "nginx" "1.2.0") tt) = inr "good.tgz" ∧
  ∃ ch, @LoadArchive toy_helm "good.tgz" = Some ch ∧ @imagesFromChart toy_helm ch [] = inr ["quay.io/a:1"; "quay.io/b:1"].
Proof.
  apply (@worker_downloads_resolved_chart toy_helm toy_helm_laws false "https://charts.io/stable/" (mkChart "nginx" "") [] id tt tt tt);
    [exact toy_helm_stable|by vm_compute|done|by vm_compute|by vm_compute|by vm_compute|done|done].
Defined.

(** A template that is not YAML fails the whole chart: the files that are
    returned unsorted in that case, so that it does not hide the images of the
    others, are then parsed by the same parser. *)
Theorem malformed_template_hides_images `{HelmLib} (ch : chart) (rendered doc : string) (extraPaths : list string) :
  renderChart ch = inr rendered → doc ∈ split_str document_separator rendered "" 0 → TrimSpace doc ≠ "" → yaml_Unmarshal doc = None →
  ∃ e, imagesFromChart ch extraPaths = inl e.
Proof.
  intros Hr Hd Hb Hy. unfold imagesFromChart. rewrite Hr.
  pose proof (scan_docs_spec (defaultImagePaths ++ extraPaths) (split_str document_separator rendered "" 0) [] ltac:(constructor)) as Hs.
  destruct (scan_docs _ _ []) as [e|images]; [eauto|]. destruct Hs as (Hall & _).
  rewrite Forall_forall in Hall. destruct (Hall doc Hd) as [?|(data & E & _)]; [done|congruence].
Qed.

Example ex_bad_chart :
  (match toy_files "bad.tgz" with
   | Some ch => match @imagesFromChart toy_helm ch [] with inl _ => true | inr _ => false end
   | None => false
   end) = true.
Proof. by vm_compute. Qed.
