(* ===== verification/Worker.v ===== *)
(** * The worker pod

    pkg/mirror/worker (worker.go, status.go, chart.go, main.go), the chart
    push of pkg/mirror/chartmirror/pusher.go, and the pod the manager creates
    for a batch (startWorkerBatch of pkg/mirror/manager/manager.go).

    The worker runs against a [World]: the registries, the manager it reports
    to, a schedule that says what happens to each HTTP request, and the clock.
    Registry operations are the class [RegistryIO]: an operation takes the time
    left until its context expires and returns its result and the time it
    took.  A request can be lost, or handled by the manager with the response
    lost, or answered; when the schedule is exhausted, requests are answered. *)
From S2P Require Import Prelude Effects GoStrings HelmSource ImageRef ImageState Owners ManagerState Api Resolve Status Resources Reconcile Planner BuildJobs Deploy.

(** ** Constants *)

Definition CopyAttempts : nat := 2.
Definition CopyTimeout : Z := 20 * minute.
Definition CopyRetryDelay : Z := 15 * second.
Definition VerifyTimeout : Z := 2 * minute.
Definition ImageBudget : Z :=
  Z.of_nat CopyAttempts * CopyTimeout + (Z.of_nat CopyAttempts - 1) * CopyRetryDelay + VerifyTimeout.
Definition ClientRefreshInterval : nat := 20.
Definition PlanTimeout : Z := 10 * minute.
Definition ChartMirrorTimeout : Z := 10 * minute.
Definition StatusAttempts : nat := 3.
Definition StatusRetryDelay : Z := 2 * second.
Definition StatusTimeout : Z := 10 * second.
Definition ShouldMirrorTimeout : Z := 5 * second.

(** manager.go *)
Definition workerBudgetRounding : Z := 5 * minute.
Definition workerImageBudget : Z :=
  Z.quot (ImageBudget + workerBudgetRounding - 1) workerBudgetRounding * workerBudgetRounding.
Definition workerActiveDeadlineSeconds (batchLen : Z) : Z :=
  let batchLen := if (batchLen <? 1)%Z then 1%Z else batchLen in
  wrap64 (batchLen * Z.quot workerImageBudget second).

(** ** The world *)

Section io.
Context (reg : Type).

(** A registry operation: time left, registries before; result, registries
    after, time taken. *)
Definition op (A : Type) : Type := Z → reg → (string + A) * reg * Z.

Class RegistryIO := {
  regclient : Type;
  NewClient : string → regclient;
  CopyImage : regclient → string → string → op string;
  BufferedCopier : regclient → option (string → string → op string);
  GetDigest : regclient → string → op string;
  is_MirrorClient : regclient → bool;
  extractBlobDigests : regclient → reg → string → gset string;  (* of the planner; ∅ on errors *)
  plan_time : regclient → reg → list string → Z;                (* time the planner takes *)
  DownloadChartArchive : regclient → string → string → string → op (string * string);
  LoadArchive : string → bool;
  PushBlob : regclient → string → string → op unit;              (* BlobPut of a reference *)
  PushManifest : regclient → string → string → op unit;          (* ManifestPut of a reference *)
  ref_ok : string → bool;                                        (* ref.New succeeds *)
}.

(** Operations return when their context has expired. *)
Definition timely {A} (o : op A) : Prop := ∀ left r, (0 ≤ (o left r).2 ≤ Z.max 0 left)%Z.
Class TimelyIO `{RegistryIO} : Prop := {
  timely_copy c src dest : timely (CopyImage c src dest);
  timely_buffered c f src dest : BufferedCopier c = Some f → timely (f src dest);
  timely_digest c ref : timely (GetDigest c ref);
  timely_plan c r sources : (0 ≤ plan_time c r sources ≤ PlanTimeout)%Z;
  timely_download c repo name version : timely (DownloadChartArchive c repo name version);
  timely_blob c ref data : timely (PushBlob c ref data);
  timely_manifest c ref data : timely (PushManifest c ref data);
}.
End io.
Arguments NewClient {reg _}. Arguments CopyImage {reg _}. Arguments BufferedCopier {reg _}. Arguments GetDigest {reg _}.
Arguments is_MirrorClient {reg _}. Arguments extractBlobDigests {reg _}. Arguments plan_time {reg _}.
Arguments DownloadChartArchive {reg _}. Arguments LoadArchive {reg _}. Arguments PushBlob {reg _}.
Arguments PushManifest {reg _}. Arguments ref_ok {reg _}. Arguments regclient {reg _}.
Arguments timely {reg A}. Arguments TimelyIO reg {_}.

(** What happens to one request: whether it reaches the manager, whether the
    manager's lock is free, whether the response comes back, after what time. *)
Record delivery := mkDelivery { d_arrives : bool; d_lockFree : bool; d_replies : bool; d_took : Z }.

(** [StatusClient]; [MANAGER_URL], [POD_NAME] and [WORKER_TOKEN] of the pod. *)
Record StatusClient := mkStatusClient { sc_ManagerURL : string; sc_PodName : string; sc_Token : string }.

Section worker.
Context {reg : Type} `{IO : !RegistryIO reg}.
(** The manager's clock and jitter at its n-th request; whether a URL parses. *)
Context (ev : nat → nat → Env) (valid_url : string → bool).

(** What the worker did, in order. *)
Inductive event :=
  | Skipped (dest : string)
  | Copied (c : regclient) (src dest : string) (r : string + string)
  | Verified (dest : string) (r : string + string)
  | Reported (req : WorkerStatusRequest) (arrived acked : bool).

Record World := mkWorld {
  w_reg : reg; w_mgr : MirrorManager; w_wire : list delivery; w_calls : nat; w_clock : Z; w_log : list event;
}.
Definition set_reg (r : reg) (w : World) : World := mkWorld r (w_mgr w) (w_wire w) (w_calls w) (w_clock w) (w_log w).
Definition sleep (d : Z) (w : World) : World :=
  mkWorld (w_reg w) (w_mgr w) (w_wire w) (w_calls w) (w_clock w + d)%Z (w_log w).
Definition log (e : event) (w : World) : World :=
  mkWorld (w_reg w) (w_mgr w) (w_wire w) (w_calls w) (w_clock w) (w_log w ++ [e]).

(** An operation under [context.WithTimeout(ctx, timeout)]. *)
Definition io {A} (o : op reg A) (timeout : Z) (w : World) : (string + A) * World :=
  let '(r, s, took) := o timeout (w_reg w) in (r, sleep took (set_reg s w)).

(** ** The status client *)

(** One request with the client's timeout: the status code, or [None]; and
    whether the manager handled it. *)
Definition send (timeout : Z) (handle : (nat → Env) → bool → MirrorManager → Z * MirrorManager) (w : World)
    : option Z * bool * World :=
  let d := default (mkDelivery true true true 0) (head (w_wire w)) in
  let '(code, mgr) := if d_arrives d then handle (ev (w_calls w)) (d_lockFree d) (w_mgr w) else (0%Z, w_mgr w) in
  let inTime := (d_took d <=? timeout)%Z in
  (if d_arrives d && d_replies d && inTime then Some code else None, d_arrives d,
   mkWorld (w_reg w) mgr (tail (w_wire w)) (S (w_calls w))
     (w_clock w + if inTime then Z.max 0 (d_took d) else timeout)%Z (w_log w)).

(** The loop of [Report] with [n] attempts left; [arrived]: some attempt so
    far was handled.  Returns this and whether an attempt was acknowledged. *)
Fixpoint report_loop (s : StatusClient) (req : WorkerStatusRequest) (n : nat) (arrived : bool) (w : World)
    : bool * bool * World :=
  match n with
  | O => (arrived, false, w)
  | S n' =>
    let attempt := StatusAttempts - n' in
    let w := if (1 <? attempt)%nat then sleep StatusRetryDelay w else w in
    if negb (valid_url (sc_ManagerURL s +:+ "/status")) then (arrived, false, w)
    else
      let '(resp, a, w) := send StatusTimeout (λ ev lockFree,
        handleStatusUpdate ev "POST" ("Bearer " +:+ sc_Token s) (Some req) lockFree) w in
      match resp with
      | Some code => if (200 <=? code)%Z && (code <? 300)%Z then (arrived || a, true, w) else report_loop s req n' (arrived || a) w
      | None => report_loop s req n' (arrived || a) w
      end
  end.

Definition Report (s : StatusClient) (dest digest errMsg : string) (w : World) : World :=
  if String.eqb (sc_ManagerURL s) "" || String.eqb (sc_PodName s) "" then w
  else
    let req := mkReq (sc_PodName s) dest digest errMsg in
    let '(arrived, acked, w) := report_loop s req StatusAttempts false w in
    log (Reported req arrived acked) w.

Definition ShouldMirror (s : StatusClient) (dest : string) (w : World) : bool * World :=
  if String.eqb (sc_ManagerURL s) "" then (true, w)
  else if negb (valid_url (sc_ManagerURL s +:+ "/should-mirror?dest=" +:+ QueryEscape dest)) then (true, w)
  else
    let '(resp, _, w) := send ShouldMirrorTimeout (λ _ gotLock m,
      (handleShouldMirror "GET" ("Bearer " +:+ sc_Token s) dest gotLock m, m)) w in
    (match resp with Some code => negb (code =? 410)%Z | None => true end, w).

(** ** Mirroring one image *)

(** The attempts; the result is [effectiveDest] or [lastErr]. *)
Fixpoint copy_loop (c : regclient) (src dest : string) (n : nat) (last : string + string) (w : World)
    : (string + string) * World :=
  match n with
  | O => (last, w)
  | S n' =>
    let attempt := CopyAttempts - n' in
    let w := if (1 <? attempt)%nat then sleep CopyRetryDelay w else w in
    let copyFn := if (1 <? attempt)%nat && (attempt =? CopyAttempts)%nat
                  then default (CopyImage c) (BufferedCopier c) else CopyImage c in
    let '(r, w) := io (copyFn src dest) CopyTimeout w in
    let w := log (Copied c src dest r) w in
    match r with inr _ => (r, w) | inl _ => copy_loop c src dest n' r w end
  end.

(** Verification of a copy, and the report. *)
Definition verify_report (c : regclient) (s : StatusClient) (ref dest : string) (w : World) : bool * World :=
  let '(r, w) := io (GetDigest c ref) VerifyTimeout w in
  let w := log (Verified ref r) w in
  match r with
  | inl err => (false, Report s dest "" err w)
  | inr digest => (true, Report s dest digest "" w)
  end.

Definition MirrorOne (c : regclient) (s : StatusClient) (src dest : string) (w : World) : bool * World :=
  let '(r, w) := copy_loop c src dest CopyAttempts (inr "") w in
  match r with
  | inl err => (false, Report s dest "" err w)
  | inr effectiveDest => verify_report c s effectiveDest dest w
  end.

(** ** Mirroring a chart *)

(** [context.WithTimeout(ctx, t)] under a context that expires at [deadline]. *)
Definition within {A} (deadline : Z) (o : op reg A) (t : Z) : M World string A := λ w,
  io o (Z.min t (deadline - w_clock w)) w.

Definition PushChart (c : regclient) (deadline : Z) (registry repoName chartName chartVersion archive : string)
    : M World string string :=
  if String.eqb chartName "" || String.eqb chartVersion "" then fail "push chart: name and version are required"
  else if String.eqb repoName "" then fail "push chart: repository name is required"
  else if String.eqb registry "" then fail "push chart: target registry is required"
  else
    let dest := ChartDestination registry repoName chartName chartVersion in
    if negb (ref_ok dest) then fail "parse chart destination"
    else
      _ ← within deadline (PushBlob c dest archive) (5 * minute);
      _ ← within deadline (PushBlob c dest "{}") (2 * minute);
      _ ← within deadline (PushManifest c dest archive) (2 * minute);
      mret dest.

(** [MirrorChart] under the attempt's context; the error texts are abridged. *)
Definition MirrorChart (c : regclient) (deadline : Z) (source dest : string) : M World string string :=
  match ParseHelmChartSource source with
  | None => fail "invalid helm chart source"
  | Some (repoURL, chartName, version) =>
    '(archive, resolvedVersion) ← within deadline (DownloadChartArchive c repoURL chartName version) ChartMirrorTimeout;
    if negb (String.eqb resolvedVersion version) then fail "chart resolved to another version"
    else if negb (LoadArchive archive) then fail "not a valid chart archive"
    else match ParseChartDestination dest with
         | None => fail "not a chart destination"
         | Some (registry, repoName, chart, chartVersion) => PushChart c deadline registry repoName chart chartVersion archive
         end
  end.

Fixpoint chart_loop (c : regclient) (src dest : string) (n : nat) (last : string + string) (w : World)
    : (string + string) * World :=
  match n with
  | O => (last, w)
  | S n' =>
    let w := if (1 <? CopyAttempts - n')%nat then sleep CopyRetryDelay w else w in
    let '(r, w) := MirrorChart c (w_clock w + ChartMirrorTimeout) src dest w in
    let w := log (Copied c src dest r) w in
    match r with inr _ => (r, w) | inl _ => chart_loop c src dest n' r w end
  end.

Definition MirrorChartOne (c : regclient) (s : StatusClient) (src dest : string) (w : World) : bool * World :=
  if negb (is_MirrorClient c) then (false, Report s dest "" "chart mirror requires a real registry client" w)
  else
    let '(r, w) := chart_loop c src dest CopyAttempts (inr "") w in
    match r with
    | inl err => (false, Report s dest "" err w)
    | inr _ => verify_report c s dest dest w
    end.

(** ** A batch *)

Definition planWithMirrorClient (c : regclient) (sources dests : list string) (w : World)
    : list string * list string * World :=
  if negb (is_MirrorClient c) then (sources, dests, w)
  else
    let took := if (length sources <=? 1)%nat then 0%Z else plan_time c (w_reg w) sources in
    let '(sources, dests) := PlanMirrorOrder (λ src,
      if IsChartSource src then ∅ else extractBlobDigests c (w_reg w) src) sources dests in
    (sources, dests, sleep took w).

(** The loop from index [i]: the client in use, whether some image failed. *)
Fixpoint batch_loop (s : StatusClient) (i : nat) (c : regclient) (pairs : list (string * string)) (anyFailed : bool)
    (w : World) : bool * World :=
  match pairs with
  | [] => (anyFailed, w)
  | (src, dest) :: pairs =>
    let '(should, w) := ShouldMirror s dest w in
    if negb should then batch_loop s (S i) c pairs anyFailed (log (Skipped dest) w)
    else
      let c := if (0 <? i)%nat && (i mod ClientRefreshInterval =? 0)%nat then NewClient dest else c in
      let '(ok, w) := if IsChartSource src then MirrorChartOne c s src dest w else MirrorOne c s src dest w in
      batch_loop s (S i) c pairs (anyFailed || negb ok) w
  end.

Definition RunBatch (s : StatusClient) (items : list BatchItem) (w : World) : bool * World :=
  match items with
  | [] => (false, w)
  | first :: _ =>
    let c := NewClient (b_Dest first) in
    let '(sources, dests, w) := planWithMirrorClient c (map b_Source items) (map b_Dest items) w in
    batch_loop s 0 c (zip sources dests) false w
  end.

(** [run]: the exit code.  [batchJSON] is [None] when the variable is empty,
    [Some None] when it does not decode. *)
Definition run (s : StatusClient) (batchJSON : option (option (list BatchItem))) (src dest : string) (w : World) : Z * World :=
  match batchJSON with
  | Some None => (1%Z, w)
  | Some (Some items) => let '(_, w) := RunBatch s items w in (0%Z, w)
  | None =>
    if String.eqb src "" || String.eqb dest "" then (1%Z, w)
    else let '(ok, w) := MirrorOne (NewClient dest) s src dest w in (if (ok : bool) then 0%Z else 1%Z, w)
  end.
End worker.

(** ** The pod of a batch *)

Definition workerBuildEffectiveNoProxy (userNoProxy : string) : string :=
  let base := Join clusterNoProxy "," in if String.eqb userNoProxy "" then base else base +:+ "," +:+ userNoProxy.

Definition workerProxyEnvVars (cfg : option ProxyConfig) : list EnvVar :=
  match cfg with
  | None => []
  | Some cfg =>
    (if String.eqb (px_HTTPProxy cfg) "" then []
     else [mkEnvVar "HTTP_PROXY" (px_HTTPProxy cfg); mkEnvVar "http_proxy" (px_HTTPProxy cfg)])
    ++ (if String.eqb (px_HTTPSProxy cfg) "" then []
        else [mkEnvVar "HTTPS_PROXY" (px_HTTPSProxy cfg); mkEnvVar "https_proxy" (px_HTTPSProxy cfg)])
    ++ (if negb (String.eqb (px_HTTPProxy cfg) "") || negb (String.eqb (px_HTTPSProxy cfg) "") then
          let noProxy := workerBuildEffectiveNoProxy (px_NoProxy cfg) in
          [mkEnvVar "NO_PROXY" noProxy; mkEnvVar "no_proxy" noProxy;
           mkEnvVar "KUBERNETES_SERVICE_HOST" "kubernetes.default.svc.cluster.local"]
        else if String.eqb (px_NoProxy cfg) "" then []
        else [mkEnvVar "NO_PROXY" (px_NoProxy cfg); mkEnvVar "no_proxy" (px_NoProxy cfg)])
  end.

(** [WorkerStorage]: the size, "" when it is zero, and the storage class. *)
Record WorkerStorage := mkWorkerStorage { ws_Size : string; ws_StorageClassName : option string }.

(** [EnvVarSource]: where the kubelet takes the value of a variable from. *)
Inductive EnvVarSource :=
| SecretKeyRef (name key : string)
| FieldRef (fieldPath : string).

Definition workerTokenSecretName (targetName : string) : string := targetName +:+ "-worker-token".

(** The pod [startWorkerBatch] creates: [wp_Env] are the variables with a value,
    [wp_EnvFrom] those with a source (no name occurs in both).  Affinity, security
    contexts and resource requests are left out. *)
Record WorkerPod := mkWorkerPod {
  wp_GenerateName : string; wp_Labels : gmap string string; wp_ServiceAccountName : string;
  wp_Env : list EnvVar; wp_EnvFrom : list (string * EnvVarSource); wp_Args : list string; wp_Mounts : list VolumeMount; wp_Volumes : list Volume;
  wp_ImagePullSecrets : list string; wp_destinations : list string; wp_ActiveDeadlineSeconds : Z;
}.

Definition blob_buffer (storage : option WorkerStorage) : Volume :=
  let size := match storage with Some ws => if String.eqb (ws_Size ws) "" then "10Gi" else ws_Size ws | None => "10Gi" end in
  mkVolume "blob-buffer"
    (match storage with
     | Some (mkWorkerStorage _ (Some class)) => VEphemeral class size
     | _ => VEmptyDir size
     end).

Definition startWorkerBatch (targetName namespace : string) (encode : list BatchItem → string)
    (storage : option WorkerStorage) (mt : MirrorTarget) (items : list BatchItem) : WorkerPod :=
  let caKey ca := if String.eqb (ca_Key ca) "" then "ca-bundle.crt" else ca_Key ca in
  mkWorkerPod (mt_Name mt +:+ "-worker-") {["app" := "oc-mirror-worker"; "mirrortarget" := targetName]} (targetName +:+ "-worker")
    ([mkEnvVar "MANAGER_URL" ("http://" +:+ targetName +:+ "-manager." +:+ namespace +:+ ".svc.cluster.local:8080");
      mkEnvVar "MIRROR_BATCH" (encode items)]
     ++ (if String.eqb (mt_AuthSecret mt) "" then [] else [mkEnvVar "DOCKER_CONFIG" "/run/secrets/dockerconfig"])
     ++ workerProxyEnvVars (mt_Proxy mt)
     ++ (match mt_CABundle mt with Some ca => [mkEnvVar "SSL_CERT_FILE" ("/run/secrets/ca/" +:+ caKey ca)] | None => [] end))
    [("WORKER_TOKEN", SecretKeyRef (workerTokenSecretName targetName) "token"); ("POD_NAME", FieldRef "metadata.name")]
    (if mt_Insecure mt then ["--insecure"] else [])
    ([mkVolumeMount "blob-buffer" "/tmp/blob-buffer"]
     ++ (if String.eqb (mt_AuthSecret mt) "" then [] else [mkVolumeMount "dockerconfig" "/run/secrets/dockerconfig"])
     ++ (match mt_CABundle mt with Some _ => [mkVolumeMount "ca-bundle" "/run/secrets/ca"] | None => [] end))
    ([blob_buffer storage]
     ++ (if String.eqb (mt_AuthSecret mt) "" then []
         else [mkVolume "dockerconfig" (VSecret (mt_AuthSecret mt) [(".dockerconfigjson", "config.json")])])
     ++ (match mt_CABundle mt with
         | Some ca => [mkVolume "ca-bundle" (VConfigMap (ca_ConfigMapName ca) [(caKey ca, caKey ca)])]
         | None => []
         end))
    (if String.eqb (mt_AuthSecret mt) "" then [] else [mt_AuthSecret mt])
    (map b_Dest items) (workerActiveDeadlineSeconds (Z.of_nat (length items))).

(** The environment of the container as the kubelet starts it in the pod
    [podName]; [secret name key] is that key of that Secret.  Without the Secret or
    its key the container does not start. *)
Definition env_value (secret : string → string → option string) (podName : string) (src : EnvVarSource) : option string :=
  match src with
  | SecretKeyRef name key => secret name key
  | FieldRef path => if String.eqb path "metadata.name" then Some podName else None
  end.
Definition kubelet_env (secret : string → string → option string) (podName : string) (pod : WorkerPod) : option (list EnvVar) :=
  vars ← mapM (λ '(name, src), mkEnvVar name <$> env_value secret podName src) (wp_EnvFrom pod);
  Some (vars ++ wp_Env pod).

Definition StatusClientFromEnv (env : list EnvVar) : StatusClient :=
  mkStatusClient (getenv env "MANAGER_URL") (getenv env "POD_NAME") (getenv env "WORKER_TOKEN").

(** [MIRROR_BATCH] as [run] sees it. *)
Definition ParseBatch (decode : string → option (list BatchItem)) (env : list EnvVar) : option (option (list BatchItem)) :=
  let batchJSON := getenv env "MIRROR_BATCH" in if String.eqb batchJSON "" then None else Some (decode batchJSON).

(** The pod in the API server. *)
Definition api_pod (phase : string) (created : option Z) (name : string) (wp : WorkerPod) : Pod :=
  mkPod name phase created (Some (Some (wp_destinations wp))) "".

(** * Lemmas *)

(** ** The manager's view of one destination *)

Lemma reported_again ev ev' m m' req e : reported ev' m' req (reported ev m req e) = reported ev m req e.
Proof.
  unfold reported at 1. destruct (String.eqb_spec (req_Error req) "") as [Hr|Hr]; cbn [negb].
  - assert (Hs : stated ev' m' stateMirrored "" (reported ev m req e) = reported ev m req e).
    { unfold stated. rewrite reported_success by done. unfold reported. rewrite Hr. cbn [String.eqb negb].
      destruct (stated_State ev m stateMirrored "" e) as [_ Hl]. revert Hl. generalize (stated ev m stateMirrored "" e).
      intros e1 Hl. by destruct (String.eqb (Origin e1) OriginAdditional && _); cbn; rewrite Hl. }
    rewrite Hs. destruct (String.eqb (Origin (reported ev m req e)) OriginAdditional && _) eqn:Ho; [|done].
    unfold reported in *. rewrite Hr in *. cbn [String.eqb negb] in *.
    destruct (String.eqb (Origin (stated ev m stateMirrored "" e)) OriginAdditional && negb (String.eqb (req_Digest req) "")) eqn:Ho2;
      [done|]. congruence.
  - unfold stated. destruct (reported_failure ev m req e Hr) as [-> ->]. by rewrite !String.eqb_refl.
Qed.

Lemma applyStatus_maxRetries ev req m : maxRetries (applyStatusLocked ev req m) = maxRetries m.
Proof.
  unfold applyStatusLocked. msimpl. set (d := req_Destination req).
  destruct (negb _); [apply (setImageState_frame ev d stateFailed (req_Error req) m)|].
  set (m1 := match imageState m !! d with Some _ => _ | None => m end).
  assert (H1 : maxRetries m1 = maxRetries m) by (subst m1; by destruct (imageState m !! d)). clearbody m1.
  destruct (setImageState_frame ev d stateMirrored "" m1) as (_ & _ & _ & _ & _ & E).
  destruct (imageState (setImageStateLocked _ _ _ _ _) !! d); [destruct (_ && _)|]; msimpl; congruence.
Qed.

Section views.
Context (m0 : MirrorManager).

(** [d] as it was in [m0] ([None]), or with one report that is queued or was
    applied, once ([Some]). *)
Definition dview (d : string) (o : option WorkerStatusRequest) (m : MirrorManager) : Prop :=
  match o with
  | None => imageState m !! d = imageState m0 !! d ∧ inProgress m !! d = inProgress m0 !! d ∧
      ∀ r, r ∈ statusQueue m → req_Destination r ≠ d
  | Some req => req_Destination req = d ∧ (∀ r, r ∈ statusQueue m → req_Destination r = d → r = req) ∧
      ((imageState m !! d = imageState m0 !! d ∧ req ∈ statusQueue m) ∨
       (inProgress m !! d = None ∧ ∃ ev1 m1, maxRetries m1 = maxRetries m0 ∧
          imageState m !! d = reported ev1 m1 req <$> (imageState m0 !! d)))
  end.

Definition same_conf (m : MirrorManager) : Prop := workerToken m = workerToken m0 ∧ maxRetries m = maxRetries m0.

(** Reports about others change nothing. *)
Lemma apply_other ev req m d :
  req_Destination req ≠ d →
  imageState (applyStatusLocked ev req m) !! d = imageState m !! d ∧
  inProgress (applyStatusLocked ev req m) !! d = inProgress m !! d.
Proof.
  intros Hd. rewrite applyStatus_state. destruct (applyStatus_frame ev req m) as (-> & _).
  rewrite lookup_delete_ne by done. split; [|done].
  destruct (imageState m !! req_Destination req); [by rewrite lookup_insert_ne|done].
Qed.

Lemma apply_own ev req m :
  imageState (applyStatusLocked ev req m) !! req_Destination req = reported ev m req <$> imageState m !! req_Destination req ∧
  inProgress (applyStatusLocked ev req m) !! req_Destination req = None.
Proof.
  rewrite applyStatus_state. destruct (applyStatus_frame ev req m) as (-> & _). rewrite lookup_delete_eq. split; [|done].
  destruct (imageState m !! req_Destination req) eqn:E; [by rewrite lookup_insert_eq|by rewrite E].
Qed.

(** A queue in which every report about [d] is [req]. *)
Lemma drain_view (l : list (Env * WorkerStatusRequest)) d o m :
  same_conf m →
  match o with
  | None => (imageState m !! d = imageState m0 !! d ∧ inProgress m !! d = inProgress m0 !! d) ∧ ∀ er, er ∈ l → req_Destination (snd er) ≠ d
  | Some req => req_Destination req = d ∧ (∀ er, er ∈ l → req_Destination (snd er) = d → snd er = req) ∧
      ((imageState m !! d = imageState m0 !! d ∧ ∃ er, er ∈ l ∧ snd er = req) ∨
       (inProgress m !! d = None ∧ ∃ ev1 m1, maxRetries m1 = maxRetries m0 ∧
          imageState m !! d = reported ev1 m1 req <$> (imageState m0 !! d)))
  end →
  let m' := foldl (λ m '(ev, req), applyStatusLocked ev req m) m l in
  same_conf m' ∧ statusQueue m' = statusQueue m ∧
  match o with
  | None => imageState m' !! d = imageState m0 !! d ∧ inProgress m' !! d = inProgress m0 !! d
  | Some req => inProgress m' !! d = None ∧ ∃ ev1 m1, maxRetries m1 = maxRetries m0 ∧
      imageState m' !! d = reported ev1 m1 req <$> (imageState m0 !! d)
  end.
Proof.
  revert m. induction l as [|[ev r] l IH]; intros m Hc Hv; cbn [foldl].
  { destruct o as [req|]; [|by destruct Hv]. destruct Hv as (_ & _ & [(_ & ? & []%elem_of_nil & _)|?]). done. }
  assert (Hc' : same_conf (applyStatusLocked ev r m)).
  { unfold same_conf in *. destruct Hc as [<- <-]. split; [apply applyStatus_frame|apply applyStatus_maxRetries]. }
  assert (Hq : statusQueue (applyStatusLocked ev r m) = statusQueue m) by apply applyStatus_frame.
  rewrite <- Hq. apply IH; [done|]. clear IH.
  destruct o as [req|].
  - destruct Hv as (Hd & Hall & Hcase). split_and!; [done|intros; apply Hall; [by right|done]|].
    destruct (decide (req_Destination r = d)) as [Hrd|Hrd].
    + assert (r = req) as -> by (apply (Hall (ev, r)); [by left|done]).
      destruct (apply_own ev req m) as [E1 E2]. rewrite Hd in E1, E2. right. split; [done|].
      destruct Hcase as [[E _]|(_ & ev1 & m1 & Hm & E)].
      * exists ev, m. split; [apply Hc|]. by rewrite E1, E.
      * exists ev1, m1. split; [done|]. rewrite E1, E. destruct (imageState m0 !! d); cbn; [|done]. by rewrite reported_again.
    + destruct (apply_other ev r m d Hrd) as [E1 E2]. rewrite E1, E2.
      destruct Hcase as [[E (er & [->|Hin]%elem_of_cons & Her)]|?]; [cbn in Her; congruence| |by right].
      left. split; [done|]. eauto.
  - destruct Hv as [[E1 E2] Hall]. destruct (apply_other ev r m d) as [-> ->]; [apply (Hall (ev, r)); by left|].
    split; [done|]. intros er Her. apply Hall. by right.
Qed.

Lemma drained_view ev d o m :
  same_conf m → dview d o m →
  dview d o (drainStatusQueueLocked ev m) ∧ same_conf (drainStatusQueueLocked ev m) ∧
  statusQueue (drainStatusQueueLocked ev m) = [].
Proof.
  intros Hc Hv. unfold drainStatusQueueLocked.
  destruct (drain_foldl ev (statusQueue m) (set_statusQueue [] m) 0) as (l & -> & Hl).
  assert (Hel : ∀ er, er ∈ l → snd er ∈ statusQueue m).
  { intros er Her. rewrite <- Hl. by apply list_elem_of_fmap_2. }
  destruct (drain_view l d o (set_statusQueue [] m)) as (H1 & H2 & H3).
  - done.
  - destruct o as [req|].
    + destruct Hv as (Hd & Hall & Hcase). split_and!; [done|intros; apply Hall; auto|].
      destruct Hcase as [[E Hin]|?]; [|by right]. left. split; [done|]. rewrite <- Hl in Hin.
      apply list_elem_of_fmap_1 in Hin as (er & -> & Her). eauto.
    + destruct Hv as (E1 & E2 & Hall). split; [done|]. intros er Her. apply Hall; auto.
  - split_and!; [|done|by rewrite H2]. unfold dview. rewrite H2. destruct o as [req|].
    + destruct Hv as (Hd & _). split_and!; [done|by intros ? []%elem_of_nil|]. by right.
    + destruct H3 as [-> ->]. split_and!; [done..|]. by intros ? []%elem_of_nil.
Qed.

(** A report that reaches the manager. *)
Lemma handle_view ev req lockFree m :
  same_conf m →
  let '(code, m') := handleStatusUpdate ev "POST" ("Bearer " +:+ workerToken m0) (Some req) lockFree m in
  code = 200%Z ∧ same_conf m' ∧
  ∀ d o, dview d o m → (req_Destination req = d → o = None ∨ o = Some req) →
    dview d (if decide (req_Destination req = d) then Some req else o) m'.
Proof.
  intros Hc. unfold handleStatusUpdate. cbn [String.eqb]. destruct Hc as [Ht Hk]. rewrite Ht, !String.eqb_refl. cbn [negb].
  assert (Hc : same_conf (enqueueStatus req m)) by done.
  assert (Henq : ∀ d o, dview d o m → (req_Destination req = d → o = None ∨ o = Some req) →
    dview d (if decide (req_Destination req = d) then Some req else o) (enqueueStatus req m)).
  { intros d o Hv Ho. unfold dview, enqueueStatus. msimpl. destruct (decide (req_Destination req = d)) as [Hd|Hd].
    - destruct (Ho Hd) as [-> | ->].
      + destruct Hv as (E1 & E2 & Hq). split_and!; [done| |].
        * intros r [Hr| ->%list_elem_of_singleton]%elem_of_app Hrd; [by destruct (Hq r Hr)|done].
        * left. split; [done|]. set_solver.
      + destruct Hv as (_ & Hq & Hcase). split_and!; [done| |].
        * intros r [Hr| ->%list_elem_of_singleton]%elem_of_app Hrd; [by apply Hq|done].
        * destruct Hcase as [[E1 E2]|?]; [left; set_solver|by right].
    - destruct o as [r0|].
      + destruct Hv as (Hd0 & Hq & Hcase). split_and!; [done| |].
        * intros r [Hr| ->%list_elem_of_singleton]%elem_of_app Hrd; [by apply Hq|done].
        * destruct Hcase as [[E1 E2]|?]; [left; set_solver|by right].
      + destruct Hv as (E1 & E2 & Hq). split_and!; [done..|].
        intros r [Hr| ->%list_elem_of_singleton]%elem_of_app; [by apply Hq|done]. }
  split; [done|]. destruct lockFree.
  - split; [|intros d o Hv Ho; apply (drained_view ev d _ _ Hc (Henq d o Hv Ho))].
    unfold drainStatusQueueLocked. destruct (drain_foldl ev (statusQueue (enqueueStatus req m)) (set_statusQueue [] (enqueueStatus req m)) 0) as (l & E & _).
    split; msimpl; rewrite E.
    + rewrite drain_token. done.
    + apply (foldl_inv_simple (λ m', maxRetries m' = maxRetries m0)); [done|]. intros [ev1 r1] acc _ <-. apply applyStatus_maxRetries.
  - split; [done|]. intros d o Hv Ho. apply (Henq d o Hv Ho).
Qed.
End views.

(** ** Reports of a worker *)

Section runs.
Context {reg : Type} `{IO : !RegistryIO reg} (ev : nat → nat → Env) (valid_url : string → bool).

(** The text of an error is never empty. *)
Definition has_text {A} (o : op reg A) : Prop := ∀ left r e, (o left r).1.1 = inl e → e ≠ "".
Class ErrorTexts : Prop := {
  text_copy c src dest : has_text (CopyImage c src dest);
  text_buffered c f src dest : BufferedCopier c = Some f → has_text (f src dest);
  text_digest c ref : has_text (GetDigest c ref);
  text_download c repo name version : has_text (DownloadChartArchive c repo name version);
  text_blob c ref data : has_text (PushBlob c ref data);
  text_manifest c ref data : has_text (PushManifest c ref data);
}.

Lemma io_eq {A} (o : op reg A) t w :
  let '(r, w') := io o t w in
  r = (o t (w_reg w)).1.1 ∧ w_mgr w' = w_mgr w ∧ w_log w' = w_log w ∧ w_wire w' = w_wire w ∧
  w_clock w' = (w_clock w + (o t (w_reg w)).2)%Z.
Proof. unfold io. by destruct (o t (w_reg w)) as [[r s] took]. Qed.

Section manager.
Context (s : StatusClient) (m0 : MirrorManager) (D : string → Prop).
Context (Htok : sc_Token s = workerToken m0).
Context (Hurl : sc_ManagerURL s ≠ "") (Hpod : sc_PodName s ≠ "").

(** The manager as the worker left it: [o] says which report about a
    destination has reached it ([D] are the destinations with no other report
    on the way). *)
Definition wview (o : string → option WorkerStatusRequest) (w : World) : Prop :=
  same_conf m0 (w_mgr w) ∧ ∀ d, D d → dview m0 d (o d) (w_mgr w).
Definition upd (o : string → option WorkerStatusRequest) (req : WorkerStatusRequest) : string → option WorkerStatusRequest :=
  λ d, if decide (req_Destination req = d) then Some req else o d.
Definition upd_if (b : bool) (o : string → option WorkerStatusRequest) (req : WorkerStatusRequest) :=
  if b then upd o req else o.

Lemma send_report_view o req w :
  wview o w → o (req_Destination req) = None ∨ o (req_Destination req) = Some req →
  let '(resp, a, w') := send ev StatusTimeout (λ ev lockFree,
      handleStatusUpdate ev "POST" ("Bearer " +:+ sc_Token s) (Some req) lockFree) w in
  wview (upd_if a o req) w' ∧ w_log w' = w_log w ∧ (is_Some resp → a = true).
Proof.
  intros [Hc Hv] Ho. unfold send. set (d := default _ _).
  destruct (d_arrives d) eqn:Ea; cbn [andb].
  - pose proof (handle_view m0 (ev (w_calls w)) req (d_lockFree d) (w_mgr w) Hc) as Hh. rewrite Htok.
    destruct (handleStatusUpdate _ _ _ _ _ _) as [code mgr]. destruct Hh as (_ & Hc' & Hh). split_and!; [|done|done].
    split; [done|]. intros d' Hd'. cbn [w_mgr upd_if]. apply Hh; [by apply Hv|]. by intros <-.
  - split_and!; [done|done|]. by intros [? ?].
Qed.

Lemma report_loop_view o req n arrived w :
  o (req_Destination req) = None → wview (upd_if arrived o req) w →
  let '(arr, ack, w') := report_loop ev valid_url s req n arrived w in
  wview (upd_if arr o req) w' ∧ w_log w' = w_log w ∧ (ack = true → arr = true).
Proof.
  intros Ho. revert arrived w. induction n as [|n IH]; intros arrived w Hv; cbn [report_loop]; [done|].
  set (w1 := if (1 <? StatusAttempts - n)%nat then sleep StatusRetryDelay w else w).
  assert (Hv1 : wview (upd_if arrived o req) w1) by (subst w1; by destruct (_ <? _)%nat).
  assert (Hl1 : w_log w1 = w_log w) by (subst w1; by destruct (_ <? _)%nat).
  clearbody w1. destruct (negb (valid_url _)); [done|].
  pose proof (send_report_view (upd_if arrived o req) req w1 Hv1) as Hs.
  destruct (send _ _ _ _) as [[resp a] w2]. destruct Hs as (Hv2 & Hl2 & Ha).
  { unfold upd_if, upd. destruct arrived; [rewrite decide_True by done; by right|by left]. }
  assert (Hv3 : wview (upd_if (arrived || a) o req) w2).
  { destruct Hv2 as [Hc Hv2]. split; [done|]. intros d HD. specialize (Hv2 d HD). revert Hv2.
    unfold upd_if, upd. destruct arrived, a; cbn [orb]; try done. by destruct (decide _). }
  destruct resp as [code|].
  - destruct ((200 <=? code)%Z && _).
    { assert (a = true) as -> by (apply Ha; eauto). rewrite orb_true_r in Hv3 |- *. split_and!; [done|congruence|done]. }
    specialize (IH _ _ Hv3). destruct (report_loop _ _ _ _ _ _ _) as [[arr ack] w3].
    destruct IH as (IH1 & IH2 & IH3). rewrite IH2. split_and!; [done|congruence|done].
  - specialize (IH _ _ Hv3). destruct (report_loop _ _ _ _ _ _ _) as [[arr ack] w3].
    destruct IH as (IH1 & IH2 & IH3). rewrite IH2. split_and!; [done|congruence|done].
Qed.

Lemma Report_view o dest digest err w :
  o dest = None → wview o w →
  let req := mkReq (sc_PodName s) dest digest err in
  ∃ arr ack, w_log (Report ev valid_url s dest digest err w) = w_log w ++ [Reported req arr ack] ∧
    wview (upd_if arr o req) (Report ev valid_url s dest digest err w) ∧ (ack = true → arr = true).
Proof.
  intros Ho Hv req. unfold Report. rewrite (proj2 (String.eqb_neq _ _) Hurl), (proj2 (String.eqb_neq _ _) Hpod). cbn [orb].
  fold req. pose proof (report_loop_view o req StatusAttempts false w Ho Hv) as Hr.
  destruct (report_loop _ _ _ _ _ _ _) as [[arr ack] w']. destruct Hr as (H1 & H2 & H3).
  exists arr, ack. split_and!; [|done|done]. cbn. by rewrite H2.
Qed.

(** Asking does not change the manager, and an image that is waiting is not
    skipped. *)
Lemma ShouldMirror_view o dest w :
  wview o w →
  let '(should, w') := ShouldMirror ev valid_url s dest w in
  wview o w' ∧ w_log w' = w_log w ∧
  (∀ e, D dest → o dest = None → imageState m0 !! dest = Some e → State e ≠ stateMirrored → should = true).
Proof.
  intros [Hc Hv]. unfold ShouldMirror. destruct (String.eqb _ ""); [done|]. destruct (negb (valid_url _)); [done|].
  unfold send. set (d := default _ _). destruct (d_arrives d); cbn [andb]; [|by split_and!].
  destruct (d_replies d && _); [|by split_and!]. split_and!; [done|done|].
  intros e HD Ho He Hs. specialize (Hv dest HD). rewrite Ho in Hv. destruct Hv as (E1 & _ & Hq).
  apply negb_true_iff, Z.eqb_neq. unfold handleShouldMirror. cbn [String.eqb].
  rewrite Htok, (proj1 Hc), String.eqb_refl. cbn [negb]. destruct (String.eqb dest ""); [done|].
  assert (queuedSuccess (w_mgr w) dest = false) as ->.
  { unfold queuedSuccess. apply existsb_not_elem. intros r Hr. rewrite (proj2 (String.eqb_neq _ _) (Hq r Hr)). done. }
  rewrite E1, He. apply String.eqb_neq in Hs. rewrite Hs. by destruct (d_lockFree d).
Qed.

(** ** One image *)

(** The last things done: [src] was copied to [dest], then this digest was found
    where the copy went. *)
Definition copied (src dest digest : string) (body : list event) : Prop :=
  ∃ before c eff, body = before ++ [Copied c src dest (inr eff); Verified (if IsChartSource src then dest else eff) (inr digest)].

(** Nothing is reported, nothing is reported about [dest]. *)
Definition silent (l : list event) : Prop := ∀ req arr ack, Reported req arr ack ∉ l.
Definition unreported (dest : string) (l : list event) : Prop := ∀ req arr ack, Reported req arr ack ∈ l → req_Destination req ≠ dest.

Lemma silent_nil : silent [].
Proof. intros ???. apply not_elem_of_nil. Qed.
Lemma silent_app l1 l2 : silent l1 → silent l2 → silent (l1 ++ l2).
Proof. intros H1 H2 req arr ack [H|H]%elem_of_app; [by eapply H1|by eapply H2]. Qed.
Lemma silent_one e : match e with Reported _ _ _ => False | _ => True end → silent [e].
Proof. intros He req arr ack E%list_elem_of_singleton. by subst e. Qed.
Lemma silent_unreported dest l : silent l → unreported dest l.
Proof. intros Hs req arr ack Hin. by destruct (Hs req arr ack). Qed.
Lemma unreported_app dest l1 l2 : unreported dest l1 → unreported dest l2 → unreported dest (l1 ++ l2).
Proof. intros H1 H2 req arr ack [H|H]%elem_of_app; [by eapply H1|by eapply H2]. Qed.

(** What mirroring one image leaves: events that end with its only report, the
    manager having it or not, and success reported for a copy only. *)
Definition one_report (o : string → option WorkerStatusRequest) (src dest : string) (ok : bool) (w w' : World) : Prop :=
  ∃ body req arr ack, w_log w' = w_log w ++ body ++ [Reported req arr ack] ∧ silent body ∧ req_Destination req = dest ∧
    (ack = true → arr = true) ∧ wview (upd_if arr o req) w' ∧
    (ok = true ↔ req_Error req = "") ∧ (ok = true → copied src dest (req_Digest req) body).

Context `{!ErrorTexts}.

Lemma io_text {A} (o : op reg A) t w e : has_text o → (io o t w).1 = inl e → e ≠ "".
Proof. intros Ho. unfold io. specialize (Ho t (w_reg w) e). by destruct (o t (w_reg w)) as [[r s'] took]. Qed.

Lemma copy_loop_view c src dest n last w :
  let '(r, w') := copy_loop c src dest n last w in
  w_mgr w' = w_mgr w ∧ ∃ blk, w_log w' = w_log w ++ blk ∧ silent blk ∧
    (n ≠ 0 → match r with inr eff => ∃ before, blk = before ++ [Copied c src dest (inr eff)] | inl e => e ≠ "" end).
Proof.
  revert last w. induction n as [|n IH]; intros last w; cbn [copy_loop].
  { split; [done|]. exists []. rewrite app_nil_r. split_and!; [done|apply silent_nil|done]. }
  set (w1 := if (1 <? CopyAttempts - n)%nat then sleep CopyRetryDelay w else w).
  assert (H1 : w_mgr w1 = w_mgr w ∧ w_log w1 = w_log w) by (subst w1; by destruct (_ <? _)%nat). clearbody w1.
  set (f := if _ && _ then _ else _).
  assert (Hf : has_text (f src dest)).
  { subst f. destruct (_ && _); [|apply text_copy]. destruct (BufferedCopier c) as [g|] eqn:Eg; cbn; [|apply text_copy].
    by apply (text_buffered c). }
  clearbody f. pose proof (io_eq (f src dest) CopyTimeout w1) as Hio.
  pose proof (io_text (f src dest) CopyTimeout w1) as Ht. destruct (io _ _ _) as [r w2]. cbn in Ht.
  destruct Hio as (_ & Hm2 & Hl2 & _). destruct r as [e|eff].
  - specialize (IH (inl e) (log (Copied c src dest (inl e)) w2)). destruct (copy_loop _ _ _ _ _ _) as [r w3] eqn:E3.
    destruct IH as (Hm3 & blk & Hl3 & Hsil & Hr). split; [cbn in Hm3; naive_solver congruence|].
    exists ([Copied c src dest (inl e)] ++ blk). split_and!.
    { rewrite Hl3. cbn. rewrite Hl2, <- app_assoc. by destruct H1 as [_ ->]. }
    { apply silent_app; [by apply silent_one|done]. }
    intros _. destruct n as [|n].
    + cbn in E3. injection E3 as <- _. by apply Ht.
    + specialize (Hr ltac:(done)). destruct r; [done|]. destruct Hr as [before ->]. exists (Copied c src dest (inl e) :: before). done.
  - split; [cbn; naive_solver congruence|]. exists [Copied c src dest (inr eff)].
    split_and!; [cbn; rewrite Hl2; by destruct H1 as [_ ->]|by apply silent_one|]. intros _. by exists [].
Qed.

Lemma verify_view o c ref src dest blk w0 w :
  o dest = None → wview o w → w_log w = w_log w0 ++ blk →
  silent blk → (∃ before c' eff, blk = before ++ [Copied c' src dest (inr eff)] ∧ ref = (if IsChartSource src then dest else eff)) →
  let '(ok, w') := verify_report ev valid_url c s ref dest w in one_report o src dest ok w0 w'.
Proof.
  intros Ho Hv Hl Hsil (before & c' & eff & Hc & ->). unfold verify_report.
  set (ref := if IsChartSource src then dest else eff).
  pose proof (io_eq (GetDigest c ref) VerifyTimeout w) as Hio. pose proof (io_text (GetDigest c ref) VerifyTimeout w) as Ht.
  destruct (io _ _ _) as [r w2]. destruct Hio as (_ & Hm2 & Hl2 & _). cbn in Ht.
  assert (Hv2 : wview o (log (Verified ref r) w2)) by (unfold wview; cbn; by rewrite Hm2).
  destruct r as [e|digest].
  - destruct (Report_view o dest "" e (log (Verified ref (inl e)) w2) Ho Hv2) as (arr & ack & Hl3 & Hv3 & Ha).
    exists (blk ++ [Verified ref (inl e)]), (mkReq (sc_PodName s) dest "" e), arr, ack.
    split_and!; [|apply silent_app; [done|by apply silent_one]|done|done|done| |done].
    + rewrite Hl3. cbn. by rewrite Hl2, Hl, <- !app_assoc.
    + cbn. split; [done|]. intros ->. by destruct (Ht "" (text_digest c ref) eq_refl).
  - destruct (Report_view o dest digest "" (log (Verified ref (inr digest)) w2) Ho Hv2) as (arr & ack & Hl3 & Hv3 & Ha).
    exists (blk ++ [Verified ref (inr digest)]), (mkReq (sc_PodName s) dest digest ""), arr, ack.
    split_and!; [|apply silent_app; [done|by apply silent_one]|done|done|done|done|].
    + rewrite Hl3. cbn. by rewrite Hl2, Hl, <- !app_assoc.
    + intros _. exists before, c', eff. fold ref. cbn [req_Digest]. by rewrite Hc, <- app_assoc.
Qed.

Lemma failure_view o src dest err blk w0 w :
  o dest = None → wview o w → w_log w = w_log w0 ++ blk → silent blk → err ≠ "" →
  one_report o src dest false w0 (Report ev valid_url s dest "" err w).
Proof.
  intros Ho Hv Hl Hsil He. destruct (Report_view o dest "" err w Ho Hv) as (arr & ack & Hl3 & Hv3 & Ha).
  exists blk, (mkReq (sc_PodName s) dest "" err), arr, ack.
  split_and!; [|done..]. by rewrite Hl3, Hl, <- !app_assoc.
Qed.

Lemma MirrorOne_view o c src dest w :
  IsChartSource src = false → o dest = None → wview o w →
  let '(ok, w') := MirrorOne ev valid_url c s src dest w in one_report o src dest ok w w'.
Proof.
  intros Hsrc Ho Hv. unfold MirrorOne. pose proof (copy_loop_view c src dest CopyAttempts (inr "") w) as Hc.
  destruct (copy_loop _ _ _ _ _ _) as [r w1]. destruct Hc as (Hm & blk & Hl & Hsil & Hr). specialize (Hr ltac:(done)).
  assert (Hv1 : wview o w1) by (unfold wview; by rewrite Hm). destruct r as [e|eff].
  - by eapply failure_view.
  - destruct Hr as [before Hr]. eapply verify_view; [done..|]. exists before, c, eff. by rewrite Hsrc.
Qed.

(** Registry operations leave the manager and the log alone. *)
Definition io_only {A} (m : M World string A) : Prop :=
  ∀ w, w_mgr (m w).2 = w_mgr w ∧ w_log (m w).2 = w_log w ∧ ∀ e, (m w).1 = inl e → e ≠ "".

Lemma io_only_within {A} deadline (o : op reg A) t : has_text o → io_only (within deadline o t).
Proof.
  intros Ho w. unfold within. pose proof (io_eq o (Z.min t (deadline - w_clock w)) w) as Hio.
  pose proof (io_text o (Z.min t (deadline - w_clock w)) w) as Ht.
  destruct (io _ _ _) as [r w']. destruct Hio as (_ & H1 & H2 & _). split_and!; [done..|]. intros e. by apply Ht.
Qed.

Lemma io_only_bind {A B} (m : M World string A) (k : A → M World string B) :
  io_only m → (∀ a, io_only (k a)) → io_only (m ≫= k).
Proof.
  intros Hm Hk w. rewrite bind_eq. destruct (Hm w) as (H1 & H2 & H3).
  destruct (fst (m w)) as [e|a]; cbn; [split_and!; [done..|]; intros e' [= <-]; by apply H3|].
  destruct (Hk a (snd (m w))) as (E1 & E2 & E3). split_and!; [congruence..|done].
Qed.

Lemma io_only_fail {A} e : e ≠ "" → io_only (A := A) (fail e).
Proof. intros He w. split_and!; [done..|]. by intros e' [= <-]. Qed.

Lemma MirrorChart_view c deadline src dest : io_only (MirrorChart c deadline src dest).
Proof.
  unfold MirrorChart. destruct (ParseHelmChartSource src) as [[[repoURL name] version]|]; [|by apply io_only_fail].
  apply io_only_bind; [apply io_only_within, text_download|].
  intros [archive resolved]. destruct (negb _); [by apply io_only_fail|]. destruct (negb _); [by apply io_only_fail|].
  destruct (ParseChartDestination dest) as [[[[registry repo] chart] cv]|]; [|by apply io_only_fail].
  unfold PushChart. do 3 (case_match; [by apply io_only_fail|]). destruct (negb (ref_ok _)); [by apply io_only_fail|].
  apply io_only_bind; [apply io_only_within, text_blob|]. intros _.
  apply io_only_bind; [apply io_only_within, text_blob|]. intros _.
  apply io_only_bind; [apply io_only_within, text_manifest|]. by intros _ w.
Qed.

Lemma chart_loop_view c src dest n last w :
  let '(r, w') := chart_loop c src dest n last w in
  w_mgr w' = w_mgr w ∧ ∃ blk, w_log w' = w_log w ++ blk ∧ silent blk ∧
    (n ≠ 0 → match r with inr eff => ∃ before, blk = before ++ [Copied c src dest (inr eff)] | inl e => e ≠ "" end).
Proof.
  revert last w. induction n as [|n IH]; intros last w; cbn [chart_loop].
  { split; [done|]. exists []. rewrite app_nil_r. split_and!; [done|apply silent_nil|done]. }
  set (w1 := if (1 <? CopyAttempts - n)%nat then sleep CopyRetryDelay w else w).
  assert (H1 : w_mgr w1 = w_mgr w ∧ w_log w1 = w_log w) by (subst w1; by destruct (_ <? _)%nat). clearbody w1.
  pose proof (MirrorChart_view c (w_clock w1 + ChartMirrorTimeout) src dest w1) as (Hm2 & Hl2 & Ht).
  destruct (MirrorChart _ _ _ _ _) as [[e|eff] w2]; cbn in Hm2, Hl2, Ht.
  - specialize (IH (inl e) (log (Copied c src dest (inl e)) w2)). destruct (chart_loop _ _ _ _ _ _) as [r w3] eqn:E3.
    destruct IH as (Hm3 & blk & Hl3 & Hsil & Hr). split; [cbn in Hm3; naive_solver congruence|].
    exists ([Copied c src dest (inl e)] ++ blk). split_and!.
    { rewrite Hl3. cbn. rewrite Hl2, <- app_assoc. by destruct H1 as [_ ->]. }
    { apply silent_app; [by apply silent_one|done]. }
    intros _. destruct n as [|n].
    + cbn in E3. injection E3 as <- _. by apply Ht.
    + specialize (Hr ltac:(done)). destruct r; [done|]. destruct Hr as [before ->]. exists (Copied c src dest (inl e) :: before). done.
  - split; [cbn; naive_solver congruence|]. exists [Copied c src dest (inr eff)].
    split_and!; [cbn; rewrite Hl2; by destruct H1 as [_ ->]|by apply silent_one|]. intros _. by exists [].
Qed.

Lemma MirrorChartOne_view o c src dest w :
  IsChartSource src = true → o dest = None → wview o w →
  let '(ok, w') := MirrorChartOne ev valid_url c s src dest w in one_report o src dest ok w w'.
Proof.
  intros Hsrc Ho Hv. unfold MirrorChartOne. destruct (negb _).
  { eapply (failure_view o src dest _ []); [done..|by rewrite app_nil_r|apply silent_nil|done]. }
  pose proof (chart_loop_view c src dest CopyAttempts (inr "") w) as Hc.
  destruct (chart_loop _ _ _ _ _ _) as [r w1]. destruct Hc as (Hm & blk & Hl & Hsil & Hr). specialize (Hr ltac:(done)).
  assert (Hv1 : wview o w1) by (unfold wview; by rewrite Hm). destruct r as [e|eff].
  - by eapply failure_view.
  - destruct Hr as [before Hr]. eapply verify_view; [done..|]. exists before, c, eff. by rewrite Hsrc.
Qed.

(** ** A batch *)

(** What the batch did about an image that was waiting: [body], then its only
    report. *)
Definition settled_by (o' : string → option WorkerStatusRequest) (blk : list event) (src dest : string) : Prop :=
  ∃ pre body req arr ack post, blk = pre ++ body ++ Reported req arr ack :: post ∧ unreported dest (pre ++ body ++ post) ∧
    req_Destination req = dest ∧ (ack = true → arr = true) ∧
    o' dest = (if arr then Some req else None) ∧ (req_Error req = "" → copied src dest (req_Digest req) body).

Lemma settled_by_after o' blk0 blk src dest : settled_by o' blk src dest → unreported dest blk0 → settled_by o' (blk0 ++ blk) src dest.
Proof.
  intros (pre & body & req & arr & ack & post & -> & Hu & Hrest) H0. exists (blk0 ++ pre), body, req, arr, ack, post.
  rewrite <- !app_assoc. split; [done|]. split; [by apply unreported_app|done].
Qed.

Lemma batch_loop_view pairs o i c failed w :
  NoDup (pairs.*2) → (∀ d, d ∈ pairs.*2 → D d ∧ o d = None) → wview o w →
  let '(failed', w') := batch_loop ev valid_url s i c pairs failed w in
  ∃ o' blk, w_log w' = w_log w ++ blk ∧ wview o' w' ∧ (∀ d, d ∉ pairs.*2 → o' d = o d ∧ unreported d blk) ∧
    (∀ src dest e, (src, dest) ∈ pairs → imageState m0 !! dest = Some e → State e ≠ stateMirrored → settled_by o' blk src dest).
Proof.
  revert o i c failed w. induction pairs as [|[src dest] pairs IH]; intros o i c failed w Hnd Ho Hv; cbn [batch_loop].
  { exists o, []. rewrite app_nil_r. split_and!; [done..| |by intros ??? []%elem_of_nil]. intros d _. split; [done|]. apply silent_unreported, silent_nil. }
  rewrite fmap_cons in *. cbn [snd] in *. apply NoDup_cons in Hnd as [Hnot Hnd].
  pose proof (ShouldMirror_view o dest w Hv) as Hsh. destruct (ShouldMirror _ _ _ _ _) as [should w1].
  destruct Hsh as (Hv1 & Hl1 & Hsh). destruct should; cbn [negb].
  - set (c' := if _ && _ then _ else _). clearbody c'.
    assert (Hone : let '(ok, w2) := if IsChartSource src then MirrorChartOne ev valid_url c' s src dest w1
                     else MirrorOne ev valid_url c' s src dest w1 in one_report o src dest ok w1 w2).
    { destruct (IsChartSource src) eqn:Es; [apply MirrorChartOne_view|apply MirrorOne_view]; try done; apply (Ho dest); by left. }
    destruct (if IsChartSource src then _ else _) as [ok w2].
    destruct Hone as (body & req & arr & ack & Hl2 & Hsil & Hd & Ha & Hv2 & Hok & Hcp).
    specialize (IH (upd_if arr o req) (S i) c' (failed || negb ok) w2 Hnd).
    destruct (batch_loop _ _ _ _ _ _ _ _) as [failed' w3]. destruct IH as (o' & blk & Hl3 & Hv3 & Hout & Hset); [|done|].
    { intros d Hin'. destruct (Ho d) as [HD Hod]; [by right|]. split; [done|]. unfold upd_if, upd.
      destruct arr; [|done]. rewrite decide_False; [done|]. rewrite Hd. by intros <-. }
    assert (Hone : ∀ d, d ≠ dest → unreported d (body ++ [Reported req arr ack])).
    { intros d Hne. apply unreported_app; [by apply silent_unreported|]. intros r a k E%list_elem_of_singleton. injection E as -> -> ->. congruence. }
    exists o', ((body ++ [Reported req arr ack]) ++ blk). split_and!; [by rewrite Hl3, Hl2, Hl1, <- !app_assoc|done| |].
    + intros d [Hdd Hdn]%not_elem_of_cons. destruct (Hout d Hdn) as [-> Hu]. split; [|by apply unreported_app; [apply Hone|]].
      unfold upd_if, upd. destruct arr; [|done]. rewrite decide_False; [done|]. congruence.
    + intros src' dest' e [[= -> ->]|Hin']%elem_of_cons He Hs.
      * destruct (Hout dest Hnot) as [Eo Hu]. exists [], body, req, arr, ack, blk. split_and!; [by rewrite <- app_assoc| |done|done| |].
        -- cbn. apply unreported_app; [by apply silent_unreported|done].
        -- rewrite Eo. unfold upd_if, upd. destruct arr; [by rewrite decide_True|]. apply (Ho dest). by left.
        -- intros Herr. by apply Hcp, Hok.
      * apply settled_by_after; [by eapply Hset|]. apply Hone. intros ->. apply Hnot. apply list_elem_of_fmap. by exists (src', dest).
  - specialize (IH o (S i) c failed (log (Skipped dest) w1) Hnd).
    destruct (batch_loop _ _ _ _ _ _ _ _) as [failed' w3]. destruct IH as (o' & blk & Hl3 & Hv3 & Hout & Hset); [|done|].
    { intros d Hd. apply Ho. by right. }
    assert (Hsk : ∀ d, unreported d [Skipped dest]) by (intros d; apply silent_unreported; by apply silent_one).
    exists o', ([Skipped dest] ++ blk). split_and!; [rewrite Hl3; cbn; by rewrite Hl1, <- app_assoc|done| |].
    + intros d [Hdd Hdn]%not_elem_of_cons. destruct (Hout d Hdn) as [? ?]. split; [done|]. by apply unreported_app.
    + intros src' dest' e [[= -> ->]|Hin']%elem_of_cons He Hs.
      * destruct (Ho dest) as [HD Hod]; [by left|]. by specialize (Hsh e HD Hod He Hs).
      * apply settled_by_after; [by eapply Hset|done].
Qed.
End manager.
End runs.

(** The entry after a report about an image that was waiting. *)
Lemma reported_pending ev m req e :
  State e = statePending →
  (req_Error req = "" → State (reported ev m req e) = stateMirrored) ∧
  (req_Error req ≠ "" → State (reported ev m req e) = stateFailed ∧ LastError (reported ev m req e) = req_Error req ∧
     RetryCount (reported ev m req e) = wrap64 (RetryCount e + 1)).
Proof.
  intros Hs. split; [apply reported_success|]. intros He. destruct (reported_failure ev m req e He) as [H1 H2].
  split_and!; [done..|]. unfold reported, stated. rewrite (proj2 (String.eqb_neq _ _) He), Hs. cbn.
  unfold recordFailureLocked. cbn. by destruct (_ && _).
Qed.

(** ** Time *)

Section time.
Context {reg : Type} `{IO : !RegistryIO reg} `{!TimelyIO reg} (ev : nat → nat → Env) (valid_url : string → bool) (s : StatusClient).
Local Open Scope Z_scope.

Lemma send_time timeout h w : 0 ≤ timeout → w_clock w ≤ w_clock (send ev timeout h w).2 ≤ w_clock w + timeout.
Proof.
  intros Ht. unfold send. destruct (if d_arrives _ then _ else _) as [code mgr]. cbn.
  destruct (Z.leb_spec (d_took (default (mkDelivery true true true 0) (head (w_wire w)))) timeout); lia.
Qed.

(** At most [d] nanoseconds later. *)
Definition by_time {A} (d : Z) (r : A * World) (w : World) : Prop := w_clock w ≤ w_clock r.2 ≤ w_clock w + d.

Lemma by_time_io {A} (o : op reg A) t w : timely o → by_time (Z.max 0 t) (io o t w) w.
Proof.
  intros Ho. pose proof (io_eq o t w) as Hio. unfold by_time. destruct (io o t w) as [r w']. cbn.
  destruct Hio as (_ & _ & _ & _ & ->). specialize (Ho t (w_reg w)). lia.
Qed.

Lemma report_loop_time req n arrived w :
  (n ≤ StatusAttempts)%nat →
  by_time (Z.of_nat n * StatusTimeout + Z.of_nat (n `min` 2) * StatusRetryDelay) (report_loop ev valid_url s req n arrived w) w.
Proof.
  unfold by_time. revert arrived w. induction n as [|n IH]; intros arrived w Hn; cbn [report_loop]; [cbn; lia|].
  set (w1 := if (1 <? StatusAttempts - n)%nat then sleep StatusRetryDelay w else w).
  assert (H1 : w_clock w ≤ w_clock w1 ≤ w_clock w + (if (1 <? StatusAttempts - n)%nat then StatusRetryDelay else 0)).
  { subst w1. destruct (_ <? _)%nat; cbn; unfold StatusRetryDelay, second; lia. }
  clearbody w1.
  assert (Hsum : Z.of_nat n * StatusTimeout + Z.of_nat (n `min` 2) * StatusRetryDelay + StatusTimeout
      + (if (1 <? StatusAttempts - n)%nat then StatusRetryDelay else 0)
      ≤ Z.of_nat (S n) * StatusTimeout + Z.of_nat (S n `min` 2) * StatusRetryDelay).
  { unfold StatusTimeout, StatusRetryDelay, second, StatusAttempts in *. destruct n as [|[|[|n]]]; cbn; lia. }
  assert (0 ≤ StatusTimeout ∧ 0 ≤ StatusRetryDelay) by (unfold StatusTimeout, StatusRetryDelay, second; lia).
  assert (0 ≤ Z.of_nat n * StatusTimeout + Z.of_nat (n `min` 2) * StatusRetryDelay) by nia.
  destruct (negb (valid_url _)); [cbn [snd]; lia|].
  match goal with |- context [send ev StatusTimeout ?h w1] => pose proof (send_time StatusTimeout h w1 ltac:(lia)) as Hs end.
  destruct (send _ _ _ _) as [[resp a] w2]. cbn [snd] in Hs.
  pose proof (IH (arrived || a) w2 ltac:(lia)) as Hr.
  destruct resp as [code|]; [destruct ((200 <=? code) && _); [cbn [snd]|]|]; lia.
Qed.

(** Three attempts of ten seconds with two pauses of two seconds. *)
Definition ReportBudget : Z := 34 * second.

Lemma Report_time dest digest err w :
  w_clock w ≤ w_clock (Report ev valid_url s dest digest err w) ≤ w_clock w + ReportBudget.
Proof.
  unfold Report. destruct (_ || _); [unfold ReportBudget, second; lia|]. cbv zeta.
  pose proof (report_loop_time (mkReq (sc_PodName s) dest digest err) StatusAttempts false w ltac:(done)) as Hr.
  unfold by_time in Hr. destruct (report_loop _ _ _ _ _ _ _) as [[arr ack] w']. cbn [snd log w_clock] in *.
  change (Z.of_nat StatusAttempts) with 3 in Hr. change (Z.of_nat (StatusAttempts `min` 2)) with 2 in Hr.
  unfold ReportBudget, StatusTimeout, StatusRetryDelay in *. lia.
Qed.

Lemma ShouldMirror_time dest w : by_time ShouldMirrorTimeout (ShouldMirror ev valid_url s dest w) w.
Proof.
  unfold by_time, ShouldMirror. assert (0 ≤ ShouldMirrorTimeout) by (unfold ShouldMirrorTimeout, second; lia).
  destruct (String.eqb _ ""); [cbn; lia|]. destruct (negb (valid_url _)); [cbn; lia|].
  match goal with |- context [send ev ShouldMirrorTimeout ?h w] => pose proof (send_time ShouldMirrorTimeout h w ltac:(lia)) as Hs end.
  destruct (send _ _ _ _) as [[resp a] w2]. cbn in *. lia.
Qed.

Lemma copy_loop_time c src dest n last w :
  (n ≤ CopyAttempts)%nat →
  by_time (Z.of_nat n * CopyTimeout + Z.of_nat (n `min` 1) * CopyRetryDelay) (copy_loop c src dest n last w) w.
Proof.
  unfold by_time. revert last w. induction n as [|n IH]; intros last w Hn; cbn [copy_loop]; [cbn; lia|].
  set (w1 := if (1 <? CopyAttempts - n)%nat then sleep CopyRetryDelay w else w).
  assert (H1 : w_clock w ≤ w_clock w1 ≤ w_clock w + (if (1 <? CopyAttempts - n)%nat then CopyRetryDelay else 0)).
  { subst w1. destruct (_ <? _)%nat; cbn; unfold CopyRetryDelay, second; lia. }
  clearbody w1. set (f := if _ && _ then _ else _).
  assert (Hf : timely (f src dest)).
  { subst f. destruct (_ && _); [|exact (timely_copy _ c src dest)].
    destruct (BufferedCopier c) as [g|] eqn:Eg; cbn; [exact (timely_buffered _ c g src dest Eg)|exact (timely_copy _ c src dest)]. }
  clearbody f. pose proof (by_time_io (f src dest) CopyTimeout w1 Hf) as Hio. unfold by_time in Hio.
  destruct (io _ _ _) as [r w2]. cbn [snd] in Hio.
  assert (Hsum : Z.of_nat n * CopyTimeout + Z.of_nat (n `min` 1) * CopyRetryDelay + CopyTimeout
      + (if (1 <? CopyAttempts - n)%nat then CopyRetryDelay else 0)
      ≤ Z.of_nat (S n) * CopyTimeout + Z.of_nat (S n `min` 1) * CopyRetryDelay).
  { unfold CopyTimeout, CopyRetryDelay, minute, second, CopyAttempts in *. destruct n as [|[|n]]; cbn; lia. }
  assert (0 ≤ CopyTimeout ∧ 0 ≤ CopyRetryDelay) by (unfold CopyTimeout, CopyRetryDelay, minute, second; lia).
  assert (0 ≤ Z.of_nat n * CopyTimeout + Z.of_nat (n `min` 1) * CopyRetryDelay) by nia.
  destruct r as [e|eff]; [|cbn [snd log w_clock]; lia].
  specialize (IH (inl e) (log (Copied c src dest (inl e)) w2) ltac:(lia)). cbn [log w_clock] in IH. lia.
Qed.

(** A chart is pushed, or given up, by its deadline. *)
Definition by_deadline {A} (deadline : Z) (m : M World string A) : Prop :=
  ∀ w, w_clock w ≤ w_clock (m w).2 ≤ Z.max (w_clock w) deadline.

Lemma by_deadline_within {A} deadline (o : op reg A) t : timely o → by_deadline deadline (within deadline o t).
Proof. intros Ho w. pose proof (by_time_io o (Z.min t (deadline - w_clock w)) w Ho) as H. unfold by_time in H. unfold within. lia. Qed.

Lemma by_deadline_bind {A B} deadline (m : M World string A) (k : A → M World string B) :
  by_deadline deadline m → (∀ a, by_deadline deadline (k a)) → by_deadline deadline (m ≫= k).
Proof.
  intros Hm Hk w. rewrite bind_eq. specialize (Hm w). destruct (fst (m w)) as [e|a]; [done|].
  specialize (Hk a (snd (m w))). lia.
Qed.

Lemma by_deadline_pure {A} deadline (r : string + A) : by_deadline deadline (λ w, (r, w)).
Proof. intros w. cbn. lia. Qed.

Lemma MirrorChart_time c deadline src dest : by_deadline deadline (MirrorChart c deadline src dest).
Proof.
  unfold MirrorChart. destruct (ParseHelmChartSource src) as [[[repoURL name] version]|]; [|apply by_deadline_pure].
  apply by_deadline_bind; [apply by_deadline_within; exact (timely_download _ c repoURL name version)|].
  intros [archive resolved]. destruct (negb _); [apply by_deadline_pure|]. destruct (negb _); [apply by_deadline_pure|].
  destruct (ParseChartDestination dest) as [[[[registry repo] chart] cv]|]; [|apply by_deadline_pure].
  unfold PushChart. do 3 (case_match; [apply by_deadline_pure|]). destruct (negb (ref_ok _)); [apply by_deadline_pure|].
  set (d := ChartDestination _ _ _ _).
  apply by_deadline_bind; [apply by_deadline_within; exact (timely_blob _ c d archive)|]. intros _.
  apply by_deadline_bind; [apply by_deadline_within; exact (timely_blob _ c d "{}")|]. intros _.
  apply by_deadline_bind; [apply by_deadline_within; exact (timely_manifest _ c d archive)|]. intros _. apply by_deadline_pure.
Qed.

Lemma chart_loop_time c src dest n last w :
  (n ≤ CopyAttempts)%nat →
  by_time (Z.of_nat n * CopyTimeout + Z.of_nat (n `min` 1) * CopyRetryDelay) (chart_loop c src dest n last w) w.
Proof.
  unfold by_time. revert last w. induction n as [|n IH]; intros last w Hn; cbn [chart_loop]; [cbn; lia|].
  set (w1 := if (1 <? CopyAttempts - n)%nat then sleep CopyRetryDelay w else w).
  assert (H1 : w_clock w ≤ w_clock w1 ≤ w_clock w + (if (1 <? CopyAttempts - n)%nat then CopyRetryDelay else 0)).
  { subst w1. destruct (_ <? _)%nat; cbn; unfold CopyRetryDelay, second; lia. }
  clearbody w1. pose proof (MirrorChart_time c (w_clock w1 + ChartMirrorTimeout) src dest w1) as Hio.
  destruct (MirrorChart _ _ _ _ _) as [r w2]. cbn [snd] in Hio.
  assert (Hsum : Z.of_nat n * CopyTimeout + Z.of_nat (n `min` 1) * CopyRetryDelay + ChartMirrorTimeout
      + (if (1 <? CopyAttempts - n)%nat then CopyRetryDelay else 0)
      ≤ Z.of_nat (S n) * CopyTimeout + Z.of_nat (S n `min` 1) * CopyRetryDelay).
  { unfold ChartMirrorTimeout, CopyTimeout, CopyRetryDelay, minute, second, CopyAttempts in *. destruct n as [|[|n]]; cbn; lia. }
  assert (0 ≤ CopyTimeout ∧ 0 ≤ CopyRetryDelay ∧ 0 ≤ ChartMirrorTimeout)
    by (unfold ChartMirrorTimeout, CopyTimeout, CopyRetryDelay, minute, second; lia).
  assert (0 ≤ Z.of_nat n * CopyTimeout + Z.of_nat (n `min` 1) * CopyRetryDelay) by nia.
  destruct r as [e|eff]; [|cbn [snd log w_clock]; lia].
  specialize (IH (inl e) (log (Copied c src dest (inl e)) w2) ltac:(lia)). cbn [log w_clock] in IH. lia.
Qed.

Lemma verify_time c ref dest w : by_time (VerifyTimeout + ReportBudget) (verify_report ev valid_url c s ref dest w) w.
Proof.
  unfold verify_report. pose proof (by_time_io (GetDigest c ref) VerifyTimeout w (timely_digest _ c ref)) as Hio.
  unfold by_time in *. destruct (io _ _ _) as [r w1]. cbn [snd] in Hio.
  assert (0 ≤ VerifyTimeout) by (unfold VerifyTimeout, minute, second; lia).
  destruct r as [e|digest]; cbn [snd].
  - pose proof (Report_time dest "" e (log (Verified ref (inl e)) w1)) as Hr. cbn [log w_clock] in Hr. lia.
  - pose proof (Report_time dest digest "" (log (Verified ref (inr digest)) w1)) as Hr. cbn [log w_clock] in Hr. lia.
Qed.

Lemma ImageBudget_eq : ImageBudget = Z.of_nat CopyAttempts * CopyTimeout + Z.of_nat (CopyAttempts `min` 1) * CopyRetryDelay + VerifyTimeout.
Proof. done. Qed.

Lemma image_time c src dest w :
  by_time (ImageBudget + ReportBudget)
    (if IsChartSource src then MirrorChartOne ev valid_url c s src dest w else MirrorOne ev valid_url c s src dest w) w.
Proof.
  rewrite ImageBudget_eq. assert (0 ≤ VerifyTimeout ∧ 0 ≤ ReportBudget) by (unfold VerifyTimeout, ReportBudget, minute, second; lia).
  unfold by_time. destruct (IsChartSource src).
  - unfold MirrorChartOne. destruct (negb _).
    { cbn [snd]. pose proof (Report_time dest "" "chart mirror requires a real registry client" w).
      unfold CopyTimeout, CopyRetryDelay, CopyAttempts, minute, second in *. cbn. lia. }
    pose proof (chart_loop_time c src dest CopyAttempts (inr "") w ltac:(done)) as Hc. unfold by_time in Hc.
    destruct (chart_loop _ _ _ _ _ _) as [[e|eff] w1]; cbn [snd] in *.
    + pose proof (Report_time dest "" e w1). lia.
    + pose proof (verify_time c dest dest w1) as Hv. unfold by_time in Hv. lia.
  - unfold MirrorOne. pose proof (copy_loop_time c src dest CopyAttempts (inr "") w ltac:(done)) as Hc. unfold by_time in Hc.
    destruct (copy_loop _ _ _ _ _ _) as [[e|eff] w1]; cbn [snd] in *.
    + pose proof (Report_time dest "" e w1). lia.
    + pose proof (verify_time c eff dest w1) as Hv. unfold by_time in Hv. lia.
Qed.

Lemma batch_loop_time pairs i c failed w :
  by_time (Z.of_nat (length pairs) * (ImageBudget + ReportBudget + ShouldMirrorTimeout))
    (batch_loop ev valid_url s i c pairs failed w) w.
Proof.
  unfold by_time. assert (0 ≤ ImageBudget + ReportBudget) by (unfold ReportBudget, second; change ImageBudget with 2535000000000; lia).
  revert i c failed w. induction pairs as [|[src dest] pairs IH]; intros i c failed w; cbn [batch_loop length]; [cbn; lia|].
  pose proof (ShouldMirror_time dest w) as Hs. unfold by_time in Hs.
  destruct (ShouldMirror _ _ _ _ _) as [[] w1]; cbn [snd negb] in *.
  - set (c' := if _ && _ then _ else _). pose proof (image_time c' src dest w1) as Hi. unfold by_time in Hi.
    destruct (if IsChartSource src then _ else _) as [ok w2]. cbn [snd] in Hi.
    specialize (IH (S i) c' (failed || negb ok) w2). lia.
  - specialize (IH (S i) c failed (log (Skipped dest) w1)). cbn [log w_clock] in IH. lia.
Qed.

Lemma RunBatch_time items w :
  by_time ((if (length items <=? 1)%nat then 0 else PlanTimeout)
      + Z.of_nat (length items) * (ImageBudget + ReportBudget + ShouldMirrorTimeout)) (RunBatch ev valid_url s items w) w.
Proof.
  unfold by_time. assert (0 ≤ PlanTimeout) by (unfold PlanTimeout, minute, second; lia).
  assert (0 ≤ ImageBudget + ReportBudget + ShouldMirrorTimeout).
  { unfold ReportBudget, ShouldMirrorTimeout, second. change ImageBudget with 2535000000000. lia. }
  unfold RunBatch. destruct items as [|first items']; [cbn; lia|].
  set (items := first :: items'). set (c := NewClient (b_Dest first)).
  assert (Hplan : let '(sources, dests, w1) := planWithMirrorClient c (map b_Source items) (map b_Dest items) w in
    (length (zip sources dests) ≤ length items)%nat ∧
    w_clock w ≤ w_clock w1 ≤ w_clock w + (if (length items <=? 1)%nat then 0 else PlanTimeout)).
  { unfold planWithMirrorClient. destruct (negb _).
    { rewrite length_zip_with, !length_map. split; [lia|]. destruct (_ <=? _)%nat; lia. }
    pose proof (PlanMirrorOrder_permutes (λ src, if IsChartSource src then ∅ else extractBlobDigests c (w_reg w) src)
      (map b_Source items) (map b_Dest items)) as Hp. rewrite !length_map in Hp. specialize (Hp eq_refl).
    destruct (PlanMirrorOrder _ _ _) as [srcs dsts]. destruct Hp as (_ & Hs & Hd).
    rewrite length_zip_with, length_map. split; [lia|]. cbn [sleep w_clock].
    pose proof (timely_plan _ c (w_reg w) (map b_Source items)). destruct (length items <=? 1)%nat; lia. }
  destruct (planWithMirrorClient _ _ _ _) as [[sources dests] w1]. destruct Hplan as [Hlen Hw1].
  pose proof (batch_loop_time (zip sources dests) 0 c false w1) as Hb. unfold by_time in Hb. nia.
Qed.
End time.

(** ** The pod of a batch *)

(** The proxy variables of workers and of catalog builds are kept in sync. *)
Lemma workerProxyEnvVars_catalog cfg : workerProxyEnvVars cfg = catalogProxyEnvVars cfg.
Proof. destruct cfg as [cfg|]; [|done]. unfold workerProxyEnvVars, catalogProxyEnvVars. repeat case_match; done. Qed.

Lemma pod_env_from v targetName namespace encode storage mt items name :
  name ∉ proxy_names → name ≠ "SSL_CERT_FILE" → name ≠ "DOCKER_CONFIG" →
  getenv_from v (wp_Env (startWorkerBatch targetName namespace encode storage mt items)) name =
  getenv_from v [mkEnvVar "MANAGER_URL" ("http://" +:+ targetName +:+ "-manager." +:+ namespace +:+ ".svc.cluster.local:8080");
    mkEnvVar "MIRROR_BATCH" (encode items)] name.
Proof.
  intros Hn Hs Hd. unfold startWorkerBatch, wp_Env.
  rewrite !getenv_from_app. rewrite (getenv_from_absent _ (match mt_CABundle mt with Some _ => _ | None => _ end)).
  2: { destruct (mt_CABundle mt); repeat constructor. cbn. congruence. }
  rewrite workerProxyEnvVars_catalog, (getenv_from_absent _ (catalogProxyEnvVars _)) by by apply proxy_env_absent.
  apply getenv_from_absent. destruct (String.eqb _ ""); repeat constructor. cbn. congruence.
Qed.

Lemma pod_env_get targetName namespace encode storage mt items name :
  name ∉ proxy_names → name ≠ "SSL_CERT_FILE" → name ≠ "DOCKER_CONFIG" →
  getenv (wp_Env (startWorkerBatch targetName namespace encode storage mt items)) name =
  getenv [mkEnvVar "MANAGER_URL" ("http://" +:+ targetName +:+ "-manager." +:+ namespace +:+ ".svc.cluster.local:8080");
    mkEnvVar "MIRROR_BATCH" (encode items)] name.
Proof. apply (pod_env_from ""). Qed.

(** The container starts when the Secret has the token, with that token and the
    name of its pod besides what the pod says. *)
Lemma kubelet_env_batch secret podName targetName namespace encode storage mt items :
  kubelet_env secret podName (startWorkerBatch targetName namespace encode storage mt items) =
  token ← secret (workerTokenSecretName targetName) "token";
  Some ([mkEnvVar "WORKER_TOKEN" token; mkEnvVar "POD_NAME" podName] ++ wp_Env (startWorkerBatch targetName namespace encode storage mt items)).
Proof.
  unfold kubelet_env, startWorkerBatch. cbn [wp_EnvFrom wp_Env]. cbn [mapM]. unfold env_value. cbn [String.eqb Ascii.eqb Bool.eqb].
  by destruct (secret (workerTokenSecretName targetName) "token").
Qed.

Lemma kubelet_client token podName targetName namespace encode storage mt items :
  StatusClientFromEnv ([mkEnvVar "WORKER_TOKEN" token; mkEnvVar "POD_NAME" podName]
      ++ wp_Env (startWorkerBatch targetName namespace encode storage mt items)) =
  mkStatusClient ("http://" +:+ targetName +:+ "-manager." +:+ namespace +:+ ".svc.cluster.local:8080") podName token.
Proof.
  unfold StatusClientFromEnv. change (getenv ?l ?n) with (getenv_from "" l n). rewrite !getenv_from_app, !pod_env_from by by_vm. reflexivity.
Qed.

(** Tracking a batch and recovering it from its pod are the same. *)
Lemma track_sync name items m n :
  inProgress m = inProgress n →
  inProgress (foldl (track name) m items) =
  inProgress (foldl (λ n dest, set_inProgress (<[dest := name]> (inProgress n)) n) n (map b_Dest items)).
Proof. revert m n. induction items as [|it items IH]; intros m n E; cbn; [done|]. apply IH. cbn. by rewrite E. Qed.

Lemma dispatch_sync start concurrency batchSize fuel k pending active m n deleted pod :
  (∀ name batch, pod_finished (pod name batch) = false ∧ pod_Name (pod name batch) = name ∧
     pod_destinations (pod name batch) = Some (Some (map b_Dest batch))) →
  inProgress m = inProgress n →
  let '(m', started) := dispatch start concurrency batchSize fuel k pending active m in
  let '(n', deleted') := foldl sync_pod (n, deleted) (map (λ '(name, batch), pod name batch) started) in
  inProgress n' = inProgress m' ∧ deleted' = deleted.
Proof.
  intros Hpod. revert k pending active m n. induction fuel as [|fuel IH]; intros k pending active m n E; cbn [dispatch]; [done|].
  destruct pending as [|it pending]; [done|]. destruct (_ <? _)%Z; [|done].
  destruct (start k) as [name|]; [|by apply IH].
  set (batch := take _ _). set (m1 := foldl (track name) m batch).
  set (n1 := foldl (λ n dest, set_inProgress (<[dest := name]> (inProgress n)) n) n (map b_Dest batch)).
  specialize (IH (S k) (drop batchSize (it :: pending)) ({[name]} ∪ active) m1 n1 (track_sync name batch m n E)).
  destruct (dispatch _ _ _ _ _ _ _ _) as [m2 started]. cbn [map foldl].
  destruct (Hpod name batch) as (H1 & H2 & H3). unfold sync_pod at 2. by rewrite H1, H2, H3.
Qed.

(** * Properties *)

(** C20: a batch settles its images, whatever requests and responses are lost
    and whatever the registries answer.  Let its destinations be distinct, none
    of them with a report already queued, and let the worker have the token and the
    address of its manager and the name of its pod.  Every image that was waiting is
    reported on in exactly one call of Report, and as a success only when the
    last two things the worker did before the report were a copy of the image that
    succeeded and, after it, reading back the reported digest from where that
    copy went.  When some attempt of the report reached the
    manager, the image is Mirrored, or Failed with the error and exactly one
    more retry used up even if all three attempts arrived, and no longer in
    flight; when none did, it is as before.  Images not in the batch are not
    touched. *)
Theorem RunBatch_settles {reg} `{RegistryIO reg} `{!ErrorTexts} ev valid_url s items w drain_ev :
  let m := w_mgr w in
  sc_Token s = workerToken m → sc_ManagerURL s ≠ "" → sc_PodName s ≠ "" → NoDup (map b_Dest items) →
  (∀ r, r ∈ statusQueue m → req_Destination r ∉ map b_Dest items) →
  let w' := (RunBatch ev valid_url s items w).2 in
  let m' := drainStatusQueueLocked drain_ev (w_mgr w') in
  ∃ blk, w_log w' = w_log w ++ blk ∧
  (∀ d, d ∉ map b_Dest items → (∀ r, r ∈ statusQueue m → req_Destination r ≠ d) →
     imageState m' !! d = imageState m !! d ∧ inProgress m' !! d = inProgress m !! d) ∧
  (∀ it e, it ∈ items → imageState m !! b_Dest it = Some e → State e = statePending →
     ∃ pre body req arrived acked post, blk = pre ++ body ++ Reported req arrived acked :: post ∧
       unreported (b_Dest it) (pre ++ body ++ post) ∧ req_Destination req = b_Dest it ∧ (acked = true → arrived = true) ∧
       (req_Error req = "" → copied (b_Source it) (b_Dest it) (req_Digest req) body) ∧
       if arrived : bool then
         ∃ e', imageState m' !! b_Dest it = Some e' ∧ inProgress m' !! b_Dest it = None ∧
           (req_Error req = "" → State e' = stateMirrored) ∧
           (req_Error req ≠ "" → State e' = stateFailed ∧ LastError e' = req_Error req ∧ RetryCount e' = wrap64 (RetryCount e + 1))
       else imageState m' !! b_Dest it = Some e ∧ inProgress m' !! b_Dest it = inProgress m !! b_Dest it).
Proof.
  intros m Htok Hurl Hpod Hnd Hq w' m'.
  set (D := λ d, ∀ r, r ∈ statusQueue m → req_Destination r ≠ d).
  assert (Hend : ∃ o' blk, w_log w' = w_log w ++ blk ∧ wview m D o' w' ∧ (∀ d, d ∉ map b_Dest items → o' d = None) ∧
    ∀ it e, it ∈ items → imageState m !! b_Dest it = Some e → State e ≠ stateMirrored →
      settled_by o' blk (b_Source it) (b_Dest it)).
  { subst w'. unfold RunBatch. destruct items as [|first items'].
    { exists (λ _, None), []. rewrite app_nil_r. split_and!; [done| |done|by intros ?? []%elem_of_nil].
      split; [done|]. intros d Hd. by split_and!. }
    set (items := first :: items') in *. set (c := NewClient (b_Dest first)).
    assert (Hplan : let '(sources, dests, w1) := planWithMirrorClient c (map b_Source items) (map b_Dest items) w in
      zip sources dests ≡ₚ zip (map b_Source items) (map b_Dest items) ∧ w_mgr w1 = m ∧ w_log w1 = w_log w).
    { unfold planWithMirrorClient. destruct (negb _); [done|].
      pose proof (PlanMirrorOrder_permutes (λ src, if IsChartSource src then ∅ else extractBlobDigests c (w_reg w) src)
        (map b_Source items) (map b_Dest items)) as Hp. rewrite !length_map in Hp. specialize (Hp eq_refl).
      destruct (PlanMirrorOrder _ _ _) as [srcs dsts]. destruct Hp as [Hp _]. by split_and!. }
    destruct (planWithMirrorClient _ _ _ _) as [[sources dests] w1]. destruct Hplan as (Hp & Hm1 & Hl1).
    assert (Hzip : zip (map b_Source items) (map b_Dest items) = map (λ it, (b_Source it, b_Dest it)) items).
    { clear. induction items as [|it l IH]; cbn; [done|]. by rewrite IH. }
    rewrite Hzip in Hp.
    assert (Hsnd : (zip sources dests).*2 ≡ₚ map b_Dest items).
    { rewrite Hp. clear. induction items as [|it l IH]; cbn; [done|]. by f_equiv. }
    pose proof (batch_loop_view ev valid_url s m D Htok Hurl Hpod (zip sources dests) (λ _, None) 0 c false w1) as Hb.
    destruct (batch_loop _ _ _ _ _ _ _ _) as [failed w2]. cbn [snd]. destruct Hb as (o' & blk & Hl & Hv & Hout & Hset).
    - by rewrite Hsnd.
    - intros d Hd. rewrite Hsnd in Hd. split; [|done]. intros r Hr <-. by apply (Hq r Hr).
    - split; [by rewrite Hm1|]. intros d Hd. rewrite Hm1. by split_and!.
    - exists o', blk. split_and!; [by rewrite Hl, Hl1|done| |].
      + intros d Hd. apply (Hout d). by rewrite Hsnd.
      + intros it e Hit. apply Hset. rewrite Hp. apply list_elem_of_fmap. by exists it. }
  destruct Hend as (o' & blk & Hl & [Hc Hv] & Hout & Hset). exists blk. split; [done|].
  assert (Hdr : ∀ d, D d → dview m d (o' d) m' ∧ statusQueue m' = []).
  { intros d Hd. destruct (drained_view m drain_ev d (o' d) (w_mgr w') Hc (Hv d Hd)) as (? & _ & ?). done. }
  split.
  - intros d Hd HD. destruct (Hdr d HD) as [Hdv _]. rewrite Hout in Hdv by done. by destruct Hdv as (? & ? & _).
  - intros it e Hit He Hs. destruct (Hset it e Hit He) as (pre & body & req & arr & ack & post & Hin & Hun & Hd & Ha & Ho & Hcp); [by rewrite Hs|].
    destruct (Hdr (b_Dest it)) as [Hdv Hempty].
    { intros r Hr Hrd. apply (Hq r Hr). rewrite Hrd. apply list_elem_of_fmap. by exists it. }
    exists pre, body, req, arr, ack, post. split_and!; [done..|]. rewrite Ho in Hdv. destruct arr.
    + destruct Hdv as (_ & _ & [[_ Hbad]|(Hip & ev1 & m1 & _ & E)]); [rewrite Hempty in Hbad; by apply elem_of_nil in Hbad|].
      rewrite He in E. cbn in E. eexists. split_and!; [exact E|done|apply (reported_pending ev1 m1 req e Hs)..].
    + destruct Hdv as (E1 & E2 & _). by rewrite E1.
Qed.

(** C21: a pod is not killed while its worker is within its own time limits:
    when registry operations end with their contexts, a batch of one image or
    of five and more is done before the active deadline of its pod, planning,
    questions, retries and reports included. *)
Theorem RunBatch_within_deadline {reg} `{RegistryIO reg} `{!TimelyIO reg} ev valid_url s items w :
  length items ≤ 1 ∨ 5 ≤ length items → (Z.of_nat (length items) < 2 ^ 40)%Z →
  let w' := (RunBatch ev valid_url s items w).2 in
  (w_clock w' - w_clock w ≤ workerActiveDeadlineSeconds (Z.of_nat (length items)) * second)%Z.
Proof.
  intros Hn Hmax w'. pose proof (RunBatch_time ev valid_url s items w) as Ht. unfold by_time in Ht. fold w' in Ht.
  assert (Hd : (Z.of_nat (length items) * 2700 ≤ workerActiveDeadlineSeconds (Z.of_nat (length items)))%Z).
  { unfold workerActiveDeadlineSeconds. change (Z.quot workerImageBudget second) with 2700%Z.
    rewrite wrap64_id; destruct (Z.ltb_spec (Z.of_nat (length items)) 1); unfold min_int64, max_int64; lia. }
  unfold ReportBudget, ShouldMirrorTimeout, PlanTimeout, minute, second in *. change ImageBudget with 2535000000000%Z in Ht.
  destruct (Nat.leb_spec (length items) 1); lia.
Qed.

(** What the manager dispatches is what the worker runs: from the
    environment of its pod the worker reads the batch it was given and the
    address, name and token to report with, whatever proxy, credentials and CA
    bundle the target has; the pod lives for the deadline of that batch. *)
Theorem worker_runs_its_batch {reg} `{RegistryIO reg} ev valid_url secret targetName namespace token podName encode decode storage mt items w :
  encode items ≠ "" → decode (encode items) = Some items → secret (workerTokenSecretName targetName) "token" = Some token →
  let pod := startWorkerBatch targetName namespace encode storage mt items in
  let s := mkStatusClient ("http://" +:+ targetName +:+ "-manager." +:+ namespace +:+ ".svc.cluster.local:8080") podName token in
  (∃ env, kubelet_env secret podName pod = Some env ∧ StatusClientFromEnv env = s ∧
     run ev valid_url (StatusClientFromEnv env) (ParseBatch decode env) "" "" w = (0%Z, (RunBatch ev valid_url s items w).2)) ∧
  wp_ActiveDeadlineSeconds pod = workerActiveDeadlineSeconds (Z.of_nat (length items)).
Proof.
  intros Hne Hdec Ht pod s. split; [|done]. unfold pod. rewrite kubelet_env_batch, Ht. cbn [mbind option_bind].
  eexists. split; [reflexivity|]. rewrite kubelet_client. split; [done|].
  unfold ParseBatch. change (getenv ?l ?n) with (getenv_from "" l n). rewrite getenv_from_app, pod_env_from by by_vm.
  change (getenv_from _ [_; mkEnvVar "MIRROR_BATCH" (encode items)] "MIRROR_BATCH") with (encode items).
  rewrite (proj2 (String.eqb_neq _ _) Hne), Hdec. unfold run. by destruct (RunBatch _ _ _ _ _).
Qed.

(** A restarted manager knows what is in flight: reading the pods that a
    dispatch started, while they have not finished, tracks exactly the
    destinations the manager tracked, each with its pod, and deletes none. *)
Theorem restart_recovers_inflight start mt pending m n targetName namespace encode storage created phase :
  phase ≠ PodSucceeded → phase ≠ PodFailed → inProgress n = inProgress m →
  let '(m', started) := phaseE start mt pending m in
  let pods := map (λ '(name, batch), api_pod phase created name
                     (startWorkerBatch targetName namespace encode storage mt batch)) started in
  ∃ n', syncInProgressFromPods (Some pods) n = Some (n', []) ∧ inProgress n' = inProgress m'.
Proof.
  intros H1 H2 E. unfold phaseE, syncInProgressFromPods.
  pose proof (dispatch_sync start (effectiveConcurrency mt) (Z.to_nat (effectiveBatchSize mt)) (length pending) 0 pending
    (activePods m) m n [] (λ name batch, api_pod phase created name (startWorkerBatch targetName namespace encode storage mt batch))) as Hd.
  destruct (dispatch _ _ _ _ _ _ _ _) as [m' started]. cbv zeta.
  destruct (foldl sync_pod _ _) as [n' deleted] eqn:Ef. destruct Hd as [Hd1 ->]; [|by symmetry|by exists n'].
  intros name batch. split_and!; [|done..]. unfold pod_finished. cbn.
  by rewrite (proj2 (String.eqb_neq _ _) H1), (proj2 (String.eqb_neq _ _) H2).
Qed.

(** ** Examples *)

(** Registries that deny the source "bad"; [slow]: every operation takes all
    the time it has, and images are only copied by the buffered attempt. *)
Definition ex_result (slow : bool) (src dest : string) : string + string :=
  if String.eqb src "bad" then inl "denied" else if slow then inl "deadline exceeded" else inr dest.
Definition ex_io (slow : bool) : RegistryIO unit := {|
  regclient := string;
  NewClient d := d;
  CopyImage _ src dest := λ left r, (ex_result slow src dest, r, if slow then Z.max 0 left else 0%Z);
  BufferedCopier _ := Some (λ src dest left r, (ex_result false src dest, r, if slow then Z.max 0 left else 0%Z));
  GetDigest _ ref := λ left r, (inr "sha256:aa", r, if slow then Z.max 0 left else 0%Z);
  is_MirrorClient _ := true;
  extractBlobDigests _ _ _ := ∅;
  plan_time _ _ _ := if slow then PlanTimeout else 0%Z;
  DownloadChartArchive _ _ _ v := λ _ r, (inr ("archive", v), r, 0%Z);
  LoadArchive _ := true;
  PushBlob _ _ _ := λ _ r, (inr tt, r, 0%Z);
  PushManifest _ _ _ := λ _ r, (inr tt, r, 0%Z);
  ref_ok _ := true |}.

Lemma ex_io_texts slow : @ErrorTexts unit (ex_io slow).
Proof.
  split; intros; unfold has_text; cbn; try done.
  - intros _ _ e. unfold ex_result. destruct (String.eqb _ _), slow; by intros [= <-].
  - match goal with E : BufferedCopier _ = _ |- _ => cbn in E; injection E as E; subst end.
    intros left0 r0 e. cbn. unfold ex_result. destruct (String.eqb _ _); by intros [= <-].
Qed.

Lemma ex_io_timely slow : @TimelyIO unit (ex_io slow).
Proof.
  split; intros; unfold timely; cbn; try (intros; destruct slow; cbn; lia).
  - match goal with E : BufferedCopier _ = _ |- _ => cbn in E; injection E as E; subst end.
    intros. cbn. destruct slow; lia.
  - destruct slow; unfold PlanTimeout, minute, second; lia.
Qed.

Definition ex_pending (src : string) : ImageEntry := set_State statePending (ex_mirrored src).
Definition ex_client : StatusClient := mkStatusClient "http://mt-manager.ns.svc.cluster.local:8080" "pod-1" "tok".
Definition ex_items : list BatchItem := [mkBatchItem "bad" "reg/a:1"; mkBatchItem "src" "reg/b:1"].
Definition ex_batch_manager : MirrorManager :=
  set_inProgress {["reg/a:1" := "pod-1"; "reg/b:1" := "pod-1"]}
    (set_imageState {["reg/a:1" := ex_pending "bad"; "reg/b:1" := ex_pending "src"]} (NewWithClients "tok")).

(** The response to the first report is lost, the manager is busy for the
    second attempt. *)
Definition ex_wire : list delivery :=
  [mkDelivery true true true 0; mkDelivery true true false 0; mkDelivery true false true 0].
Definition ex_batch_world : World := @mkWorld unit (ex_io false) tt ex_batch_manager ex_wire 0 0 [].

Lemma RunBatch_settles_witness :
  let w' := (@RunBatch unit (ex_io false) (λ _, ex_ev) (λ _, true) ex_client ex_items ex_batch_world).2 in
  let m' := drainStatusQueueLocked ex_ev (w_mgr w') in
  (∃ e, imageState m' !! "reg/a:1" = Some e ∧ State e = stateFailed ∧ RetryCount e = 1%Z) ∧
  (∃ pre body req arrived acked post, w_log w' = pre ++ body ++ Reported req arrived acked :: post ∧ req_Destination req = "reg/b:1" ∧
    (req_Error req = "" → @copied unit (ex_io false) "src" "reg/b:1" (req_Digest req) body)).
Proof.
  cbv zeta. split.
  { eexists. split; [vm_compute; reflexivity|]. split; reflexivity. }
  edestruct (@RunBatch_settles unit (ex_io false) (ex_io_texts false) (λ _, ex_ev) (λ _, true) ex_client ex_items ex_batch_world ex_ev)
    as (blk & Hl & _ & Hs).
  - reflexivity.
  - discriminate.
  - discriminate.
  - by_vm.
  - by intros r []%elem_of_nil.
  - destruct (Hs (mkBatchItem "src" "reg/b:1") (ex_pending "src")) as (pre & body & req & arr & ack & post & H1 & _ & H2 & _ & H3 & _).
    + right. left.
    + reflexivity.
    + reflexivity.
    + exists pre, body, req, arr, ack, post. cbn [ex_batch_world w_log app] in Hl. rewrite Hl. auto.
Defined.

Lemma RunBatch_within_deadline_witness :
  let w := @mkWorld unit (ex_io true) tt ex_batch_manager [] 0 0 [] in
  (w_clock (@RunBatch unit (ex_io true) (λ _, ex_ev) (λ _, true) ex_client [mkBatchItem "src" "reg/b:1"] w).2 - 0 ≤ 2700 * second)%Z.
Proof.
  cbv zeta.
  apply (@RunBatch_within_deadline unit (ex_io true) (ex_io_timely true) (λ _, ex_ev) (λ _, true) ex_client
    [mkBatchItem "src" "reg/b:1"] (@mkWorld unit (ex_io true) tt ex_batch_manager [] 0 0 [])).
  - left. cbn. lia.
  - cbn. lia.
Defined.

Lemma worker_runs_its_batch_witness :
  ∃ env, kubelet_env (λ _ _, Some "tok") "pod-1" (startWorkerBatch "mt" "ns" (λ _, "[]") None ex_res_target []) = Some env ∧
    (@run unit (ex_io false) (λ _, ex_ev) (λ _, true) (StatusClientFromEnv env) (ParseBatch (λ _, Some []) env) "" "" ex_batch_world).1 = 0%Z.
Proof.
  destruct (@worker_runs_its_batch unit (ex_io false) (λ _, ex_ev) (λ _, true) (λ _ _, Some "tok") "mt" "ns" "tok" "pod-1" (λ _, "[]") (λ _, Some [])
    None ex_res_target [] ex_batch_world) as [(env & E & _ & Hr) _]; [discriminate|reflexivity|reflexivity|].
  exists env. split; [exact E|]. by rewrite Hr.
Defined.

Lemma restart_recovers_inflight_witness :
  ∃ n', syncInProgressFromPods (Some [api_pod "Running" None "pod-1"
          (startWorkerBatch "mt" "ns" (λ _, "[]") None ex_res_target ex_items)]) (NewWithClients "tok") = Some (n', []) ∧
        inProgress n' = {["reg/a:1" := "pod-1"; "reg/b:1" := "pod-1"]}.
Proof.
  pose proof (restart_recovers_inflight (λ _, Some "pod-1") ex_res_target ex_items (NewWithClients "tok") (NewWithClients "tok")
    "mt" "ns" (λ _, "[]") None None "Running" ltac:(discriminate) ltac:(discriminate) eq_refl) as H.
  assert (E : phaseE (λ _, Some "pod-1") ex_res_target ex_items (NewWithClients "tok") =
    (foldl (track "pod-1") (NewWithClients "tok") ex_items, [("pod-1", ex_items)])) by reflexivity.
  rewrite E in H. destruct H as (n' & H1 & H2). exists n'. split; [exact H1|]. rewrite H2. by_vm.
Defined.

(** ** What the limits miss *)

(** Planning is not part of the budget: a worker whose every operation stays
    within its own limit exceeds the deadline of a batch of two. *)
Lemma small_batch_exceeds_deadline :
  let w := @mkWorld unit (ex_io true) tt ex_batch_manager [] 0 0 [] in
  let items := [mkBatchItem "src" "reg/a:1"; mkBatchItem "src" "reg/b:1"] in
  (workerActiveDeadlineSeconds 2 * second < w_clock (@RunBatch unit (ex_io true) (λ _, ex_ev) (λ _, true) ex_client items w).2)%Z.
Proof. cbv zeta. vm_compute. reflexivity. Qed.

(** The client is renewed at every twentieth index unless that image is
    skipped: then it goes on with the old one. *)
Definition ex_dest (i : nat) : string := "reg/i:" +:+ Itoa (Z.of_nat i).
Definition ex_many : list BatchItem := map (λ i, mkBatchItem "src" (ex_dest i)) (seq 0 39).
Definition ex_many_manager : MirrorManager :=
  set_imageState (list_to_map (map (λ i, (ex_dest i, if (i =? 20)%nat then ex_mirrored "src" else ex_pending "src")) (seq 0 39)))
    (NewWithClients "tok").
Definition used_clients (log : list (@event unit (ex_io false))) : list (@regclient unit (ex_io false)) :=
  omap (λ e, match e with Copied c _ _ _ => Some c | _ => None end) log.

Lemma skipped_image_skips_refresh :
  let w := @mkWorld unit (ex_io false) tt ex_many_manager [] 0 0 [] in
  let log := w_log (@RunBatch unit (ex_io false) (λ _, ex_ev) (λ _, true) ex_client ex_many w).2 in
  used_clients log = replicate 38 (ex_dest 0).
Proof. cbv zeta. vm_compute. reflexivity. Qed.
