(* ===== verification/ResourceApi.v ===== *)
(** * The resource API: editing specs over HTTP

    The write half of pkg/resourceapi/server.go: whose credentials a request
    runs with, the update with conflict retries, and the endpoints that read
    and replace parts of an ImageSet's or a MirrorTarget's spec.

    A JSON body is given decoded: [None] is a body that does not decode.  An
    object in the API server carries its resourceVersion; other clients write
    to it at any time. *)
From S2P Require Import Prelude Effects GoStrings ImageRef ImageState Owners ManagerState Api Resolve Status Resources BuildJobs CatalogGate.

(** ** Whose credentials *)

(** The parts of a request that are looked at. *)
Record Request := mkRequest { rq_Method : string; rq_ForwardedToken : string; rq_Authorization : string }.

Definition requestToken (r : Request) : string :=
  if negb (String.eqb (rq_ForwardedToken r) "") then rq_ForwardedToken r
  else TrimSpace (TrimPrefix (rq_Authorization r) "Bearer ").

(** The server's own service account, or the holder of a token. *)
Inductive apiClient := ServerClient | TokenClient (token : string).

Record tokenClientEntry := mkTokenClient { tc_client : apiClient; tc_expiresAt : Z }.

Definition clientTTL : Z := 5 * minute.

Section credentials.
Context `{Sha256}.
(** Whether the server has a REST config; whether [client.New] succeeds for a
    token. *)
Context (baseCfg : bool) (newClient : string → bool).

Definition clientForRequest (now : Z) (r : Request) (tokenClients : gmap string tokenClientEntry)
    : apiClient * gmap string tokenClientEntry :=
  let token := requestToken r in
  if String.eqb token "" || negb baseCfg then (ServerClient, tokenClients)
  else
    let key := sha256_hex token in
    let create (cache : gmap string tokenClientEntry) :=
      if newClient token then (TokenClient token, <[key := mkTokenClient (TokenClient token) (now + clientTTL)]> cache)
      else (ServerClient, cache) in
    match tokenClients !! key with
    | Some entry => if (now <? tc_expiresAt entry)%Z then (tc_client entry, tokenClients) else create (delete key tokenClients)
    | None => create tokenClients
    end.

Definition is_read (method : string) : bool := existsb (String.eqb method) ["GET"; "HEAD"; "OPTIONS"].

(** A request through [requireTokenForWrites] to a handler: [inl] is the HTTP
    status of a rejected request, [inr] the client the handler works with. *)
Definition requireTokenForWrites (now : Z) (r : Request) (tokenClients : gmap string tokenClientEntry)
    : (Z + apiClient) * gmap string tokenClientEntry :=
  if negb (is_read (rq_Method r)) && String.eqb (requestToken r) "" then (inl 401%Z, tokenClients)
  else let '(c, cache) := clientForRequest now r tokenClients in (inr c, cache).
End credentials.

(** ** Updates *)

Inductive updErr := UNotFound | UForbidden | UInvalid | UConflict | UOther | USlugNotFound.

Record Versioned (A : Type) := mkVersioned { ob_val : A; ob_version : nat }.
Arguments mkVersioned {A}. Arguments ob_val {A}. Arguments ob_version {A}.

(** [retry.DefaultRetry] makes five attempts. *)
Definition retrySteps : nat := 5.

Section update.
Context {A : Type}.
(** At attempt [k]: an error of the read, what others write between the read
    and the update, an error of the update other than a conflict. *)
Context (get_err : nat → option updErr) (writer : nat → option (Versioned A) → option (Versioned A))
  (put_err : nat → option updErr).

(** [updateImageSetWithRetry] and [updateMirrorTargetWithRetry] with [n]
    attempts left. *)
Fixpoint update_attempts (mutate : A → updErr + A) (n k : nat) (st : option (Versioned A))
    : (updErr + unit) * option (Versioned A) :=
  match n with
  | O => (inl UConflict, st)
  | S n' =>
    match get_err k, st with
    | Some e, _ => (inl e, st)
    | None, None => (inl UNotFound, st)
    | None, Some o =>
      let st := writer k st in
      match mutate (ob_val o) with
      | inl e => (inl e, st)
      | inr v =>
        match put_err k, st with
        | Some e, _ => (inl e, st)
        | None, None => (inl UNotFound, st)
        | None, Some o' =>
          if (ob_version o' =? ob_version o)%nat then (inr tt, Some (mkVersioned v (S (ob_version o))))
          else update_attempts mutate n' (S k) st
        end
      end
    end
  end.

Definition updateWithRetry (mutate : A → updErr + A) (st : option (Versioned A)) : (updErr + unit) * option (Versioned A) :=
  update_attempts mutate retrySteps 0 st.

(** A PATCH handler: [body] is the decoded and validated patch; the status
    codes for the errors of the update. *)
Definition patch_code (e : updErr) : Z :=
  match e with UNotFound | USlugNotFound => 404 | UForbidden => 403 | UInvalid | UConflict | UOther => 500 end.
Definition target_patch_code (e : updErr) : Z := match e with UInvalid => 400 | e => patch_code e end.

Definition handlePatch {B} (code : updErr → Z) (body : option B) (mutate : B → A → updErr + A) (st : option (Versioned A))
    : Z * option (Versioned A) :=
  match body with
  | None => (400%Z, st)
  | Some patch =>
    match updateWithRetry (mutate patch) st with
    | (inl e, st) => (code e, st)
    | (inr _, st) => (204%Z, st)
    end
  end.
End update.

(** ** The editable parts of an ImageSet *)

Definition with_mirror (f : Mirror → Mirror) (s : ImageSet) : ImageSet :=
  mkImageSet (is_Name s) (is_Annotations s) (is_Generation s) (f (is_Mirror s)) (is_Status s).
Definition edit (f : Mirror → Mirror) (s : ImageSet) : updErr + ImageSet := inr (with_mirror f s).

Definition set_RequireSigned (v : bool) (m : Mirror) : Mirror :=
  mkMirror (mi_Platform m) (mi_Operators m) (mi_AdditionalImages m) (mi_Helm m) (mi_BlockedImages m) v.
Definition set_Helm (v : list Repository) (m : Mirror) : Mirror :=
  mkMirror (mi_Platform m) (mi_Operators m) (mi_AdditionalImages m) v (mi_BlockedImages m) (mi_RequireSignedImages m).
Definition set_Blocked (v : list string) (m : Mirror) : Mirror :=
  mkMirror (mi_Platform m) (mi_Operators m) (mi_AdditionalImages m) (mi_Helm m) v (mi_RequireSignedImages m).
Definition set_Additional (v : list AdditionalImage) (m : Mirror) : Mirror :=
  mkMirror (mi_Platform m) (mi_Operators m) v (mi_Helm m) (mi_BlockedImages m) (mi_RequireSignedImages m).
Definition set_Platform (v : Platform) (m : Mirror) : Mirror :=
  mkMirror v (mi_Operators m) (mi_AdditionalImages m) (mi_Helm m) (mi_BlockedImages m) (mi_RequireSignedImages m).
Definition set_Operators (v : list Operator) (m : Mirror) : Mirror :=
  mkMirror (mi_Platform m) v (mi_AdditionalImages m) (mi_Helm m) (mi_BlockedImages m) (mi_RequireSignedImages m).

(** Settings, Helm repositories, blocked and additional images. *)
Definition get_settings (s : ImageSet) : bool := mi_RequireSignedImages (is_Mirror s).
Definition patch_settings (v : bool) : ImageSet → updErr + ImageSet := edit (set_RequireSigned v).

Definition get_helm (s : ImageSet) : list Repository := mi_Helm (is_Mirror s).
Definition patch_helm (v : list Repository) : ImageSet → updErr + ImageSet := edit (set_Helm v).

Definition get_blocked (s : ImageSet) : list string := mi_BlockedImages (is_Mirror s).
Definition patch_blocked (v : list string) : ImageSet → updErr + ImageSet :=
  edit (set_Blocked (List.filter (λ n, negb (String.eqb n "")) v)).

(** The wire format has the fields of the type. *)
Definition get_additional (s : ImageSet) : list AdditionalImage := mi_AdditionalImages (is_Mirror s).
Definition patch_additional (v : list AdditionalImage) : ImageSet → updErr + ImageSet :=
  edit (set_Additional (List.filter (λ i, negb (String.eqb (ai_Name i) "")) v)).

(** Releases. *)
Record releaseChannelConstraint := mkReleaseConstraint {
  rl_Name : string; rl_Type : string; rl_MinVersion : string; rl_MaxVersion : string; rl_ShortestPath : bool; rl_Full : bool;
}.
Record releaseSpec := mkReleaseSpec {
  rs_Graph : bool; rs_Architectures : option (list string); rs_Channels : list releaseChannelConstraint;
}.

Definition wire_channel (ch : ReleaseChannel) : releaseChannelConstraint :=
  mkReleaseConstraint (rc_Name ch) (rc_Type ch) (rc_MinVersion ch) (rc_MaxVersion ch) (rc_ShortestPath ch) (rc_Full ch).
(** [omitempty] drops an empty list of architectures from the response. *)
Definition get_releases (s : ImageSet) : releaseSpec :=
  let p := mi_Platform (is_Mirror s) in
  mkReleaseSpec (pf_Graph p) (if decide (pf_Architectures p = []) then None else Some (pf_Architectures p))
    (map wire_channel (pf_Channels p)).

Definition patched_channel (ch : releaseChannelConstraint) : ReleaseChannel :=
  mkChannelSpec (rl_Name ch) (if String.eqb (rl_Type ch) "" then TypeOCP else rl_Type ch) (rl_MinVersion ch) (rl_MaxVersion ch)
    (rl_ShortestPath ch) (rl_Full ch) false.
Definition patch_releases (v : releaseSpec) : ImageSet → updErr + ImageSet :=
  edit (λ m, let p := mi_Platform m in
    set_Platform (mkPlatform (rs_Graph v) (map patched_channel (rs_Channels v))
      (default (pf_Architectures p) (rs_Architectures v)) (pf_KubeVirtContainer p)) m).

(** Operators; the two read-only hints of the wire format are left out. *)
Record operatorEntry := mkOperatorEntry {
  oe_Catalog : string; oe_TargetCatalog : string; oe_TargetTag : string; oe_Full : bool; oe_SkipDependencies : bool;
}.
Definition wire_operator (op : Operator) : operatorEntry :=
  mkOperatorEntry (op_Catalog op) (op_TargetCatalog op) (op_TargetTag op) (op_Full op) (op_SkipDependencies op).
Definition get_operators (s : ImageSet) : list operatorEntry := map wire_operator (mi_Operators (is_Mirror s)).

Definition patched_operator (existing : gmap string Operator) (po : operatorEntry) : Operator :=
  let '(verification, packages) := match existing !! oe_Catalog po with
    | Some prev => (op_SignatureVerification prev, op_Packages prev)
    | None => (false, [])
    end in
  mkOperator (oe_Catalog po) (oe_TargetCatalog po) (oe_TargetTag po) (oe_Full po) (oe_SkipDependencies po) verification packages.
Definition patch_operators (v : list operatorEntry) : ImageSet → updErr + ImageSet :=
  edit (λ m, set_Operators (map (patched_operator (index_by op_Catalog (mi_Operators m)))
    (List.filter (λ po, negb (String.eqb (oe_Catalog po) "")) v)) m).

(** Packages of a catalog. *)
Record packageConstraint := mkPackageConstraint {
  pc_Name : string; pc_MinVersion : string; pc_MaxVersion : string; pc_Channels : list IncludeChannel;
  pc_Bundles : option (list string);
}.
Record packagePatchBody := mkPackagePatch { pp_Packages : list packageConstraint; pp_Include : list string }.

Definition wire_package (p : IncludePackage) : packageConstraint :=
  mkPackageConstraint (ip_Name p) (ib_MinVersion (ip_Bundle p)) (ib_MaxVersion (ip_Bundle p)) (ip_Channels p)
    (if decide (ip_Bundles p = []) then None else Some (ip_Bundles p)).
Definition get_packages (slug : string) (s : ImageSet) : list packageConstraint :=
  concat (map (λ op, if String.eqb (CatalogSlug (op_Catalog op)) slug then map wire_package (op_Packages op) else [])
    (mi_Operators (is_Mirror s))).

Definition existingBundles (op : Operator) : gmap string (list string) :=
  foldl (λ acc p, if decide (ip_Bundles p = []) then acc else <[ip_Name p := ip_Bundles p]> acc) ∅ (op_Packages op).
Definition patched_package (existing : gmap string (list string)) (pc : packageConstraint) : IncludePackage :=
  mkIncludePackage (pc_Name pc) (pc_Channels pc) "" 0 (mkIncludeBundle (pc_MinVersion pc) (pc_MaxVersion pc))
    (match pc_Bundles pc with
     | Some names => names
     | None => if bool_decide (pc_Channels pc = []) && String.eqb (pc_MinVersion pc) "" && String.eqb (pc_MaxVersion pc) ""
               then default [] (existing !! pc_Name pc) else []
     end).
Definition patched_packages (patch : packagePatchBody) (op : Operator) : list IncludePackage :=
  let existing := existingBundles op in
  if decide (pp_Packages patch = [])
  then map (λ inc, mkIncludePackage inc [] "" 0 (mkIncludeBundle "" "") (default [] (existing !! inc))) (pp_Include patch)
  else map (patched_package existing) (pp_Packages patch).
Definition set_op_packages (ps : list IncludePackage) (op : Operator) : Operator :=
  mkOperator (op_Catalog op) (op_TargetCatalog op) (op_TargetTag op) (op_Full op) (op_SkipDependencies op)
    (op_SignatureVerification op) ps.

(** [sourceCatalog] is what the packages ConfigMap of the slug says, or "". *)
Definition catalog_matches (sourceCatalog slug : string) (op : Operator) : bool :=
  if negb (String.eqb sourceCatalog "") then String.eqb (op_Catalog op) sourceCatalog
  else String.eqb (CatalogSlug (op_Catalog op)) slug.
Definition patch_packages (sourceCatalog slug : string) (patch : packagePatchBody) (s : ImageSet) : updErr + ImageSet :=
  if existsb (catalog_matches sourceCatalog slug) (mi_Operators (is_Mirror s)) then
    edit (λ m, set_Operators (map (λ op,
      if catalog_matches sourceCatalog slug op then set_op_packages (patched_packages patch op) op else op) (mi_Operators m)) m) s
  else inl USlugNotFound.

(** [triggerOneShotAnnotation]: the trigger of a recollect or a force-resync. *)
Definition trigger_annotation (annotationKey : string) (now : Z) (s : ImageSet) : updErr + ImageSet :=
  inr (with_annotations (<[annotationKey := Itoa now]> (is_Annotations s)) s).

(** ** The editable part of a MirrorTarget *)

(** A raw JSON value. *)
Inductive json := JNull | JString (s : string) | JBool (b : bool) | JInt (z : Z) | JOther.

(** [json.Unmarshal] into a string, bool or int; null leaves the zero value. *)
Definition un_string (v : json) : option string := match v with JNull => Some "" | JString s => Some s | _ => None end.
Definition un_bool (v : json) : option bool := match v with JNull => Some false | JBool b => Some b | _ => None end.
Definition un_int (v : json) : option Z :=
  match v with
  | JNull => Some 0%Z
  | JInt z => if (min_int64 <=? z)%Z && (z <=? max_int64)%Z then Some z else None
  | _ => None
  end.

Section target.
Context (ParseDuration : string → option Z).

(** An empty or null duration resets the field. *)
Definition un_duration (v : json) : option (option Z) :=
  text ← un_string v;
  if String.eqb text "" then Some None else d ← ParseDuration text; Some (Some d).

(** The steps of a patch: [None] leaves the field unchanged. *)
Record SpecPatch := mkSpecPatch {
  sp_Registry : option string; sp_Insecure : option bool; sp_AuthSecret : option string; sp_Concurrency : option Z;
  sp_BatchSize : option Z; sp_PollInterval : option (option Z); sp_CheckExistInterval : option (option Z);
}.

Definition apply_patch (p : SpecPatch) (mt : MirrorTarget) : MirrorTarget :=
  mkMirrorTarget (mt_Name mt) (default (mt_Registry mt) (sp_Registry p)) (mt_ImageSets mt)
    (default (mt_Concurrency mt) (sp_Concurrency p)) (default (mt_BatchSize mt) (sp_BatchSize p)) (mt_MaxRetries mt)
    (default (mt_PollInterval mt) (sp_PollInterval p)) (default (mt_CheckExistInterval mt) (sp_CheckExistInterval p))
    (mt_Annotations mt) (mt_Generation mt) (default (mt_AuthSecret mt) (sp_AuthSecret p))
    (default (mt_Insecure mt) (sp_Insecure p)) (mt_Proxy mt) (mt_CABundle mt).

(** A field that is present is validated. *)
Definition field {B} (raw : gmap string json) (key : string) (un : json → option B) : option (option B) :=
  match raw !! key with None => Some None | Some v => x ← un v; Some (Some x) end.

Definition un_registry (v : json) : option string :=
  match v with JString s => if String.eqb s "" then None else Some s | _ => None end.

(** [body] is the decoded object; [None]: not an object. *)
Definition parseMirrorTargetSpecPatch (body : option (gmap string json)) : option SpecPatch :=
  raw ← body;
  registry ← field raw "registry" un_registry;
  insecure ← field raw "insecure" un_bool;
  secret ← field raw "authSecret" un_string;
  concurrency ← field raw "concurrency" un_int;
  batchSize ← field raw "batchSize" un_int;
  poll ← field raw "pollInterval" un_duration;
  check ← field raw "checkExistInterval" un_duration;
  Some (mkSpecPatch registry insecure secret concurrency batchSize poll check).

(** [handleGetMirrorTargetSpec]: the response, without the fields that
    [omitempty] drops; [String] is that of [time.Duration]. *)
Context (DurationString : Z → string).

Definition omit_empty (key : string) (empty : bool) (v : json) (doc : gmap string json) : gmap string json :=
  if empty then doc else <[key := v]> doc.
Definition duration_text (d : option Z) : string := match d with Some d => DurationString d | None => "" end.

Definition get_target_spec (mt : MirrorTarget) : gmap string json :=
  let poll := duration_text (mt_PollInterval mt) in
  let check := duration_text (mt_CheckExistInterval mt) in
  <["registry" := JString (mt_Registry mt)]> $
  <["insecure" := JBool (mt_Insecure mt)]> $
  omit_empty "authSecret" (String.eqb (mt_AuthSecret mt) "") (JString (mt_AuthSecret mt)) $
  omit_empty "concurrency" (mt_Concurrency mt =? 0)%Z (JInt (mt_Concurrency mt)) $
  omit_empty "batchSize" (mt_BatchSize mt =? 0)%Z (JInt (mt_BatchSize mt)) $
  omit_empty "pollInterval" (String.eqb poll "") (JString poll) $
  omit_empty "checkExistInterval" (String.eqb check "") (JString check) ∅.
End target.

(** ** The endpoints *)

(** A GET handler: [err] is the error of the read, [code] its status. *)
Definition get_code (e : updErr) : Z := match e with UNotFound | USlugNotFound => 404 | _ => 500 end.
Definition target_get_code (e : updErr) : Z := match e with UForbidden => 403 | e => get_code e end.
Definition handleGet {A B} (code : updErr → Z) (err : option updErr) (render : A → B) (st : option (Versioned A)) : Z + B :=
  match err, st with
  | Some e, _ => inl (code e)
  | None, None => inl (code UNotFound)
  | None, Some o => inr (render (ob_val o))
  end.

Definition handleGetImageSetSettings err := handleGet get_code err get_settings.
Definition handleGetHelm err := handleGet get_code err get_helm.
Definition handleGetBlockedImages err := handleGet get_code err get_blocked.
Definition handleGetAdditionalImages err := handleGet get_code err get_additional.
Definition handleGetReleases err := handleGet get_code err get_releases.
Definition handleGetOperators err := handleGet get_code err get_operators.
Definition handleGetPackageConstraints (slug : string) err := handleGet get_code err (get_packages slug).
Definition handleGetMirrorTargetSpec (DurationString : Z → string) err := handleGet target_get_code err (get_target_spec DurationString).

(** The catalog named by the packages ConfigMaps of the slug: [None], they
    cannot be listed; an entry is [None] when its data is missing or does not
    decode. *)
Definition sourceCatalog_of (cms : option (list (option string))) : string :=
  match cms with
  | None => ""
  | Some cms => default "" (head (List.filter (λ c, negb (String.eqb c "")) (omap id cms)))
  end.

Section endpoints.
Context (get_err : nat → option updErr) (writer : nat → option (Versioned ImageSet) → option (Versioned ImageSet))
  (put_err : nat → option updErr).

Definition handlePatchImageSetSettings body := handlePatch get_err writer put_err patch_code body patch_settings.
Definition handlePatchHelm body := handlePatch get_err writer put_err patch_code body patch_helm.
Definition handlePatchBlockedImages body := handlePatch get_err writer put_err patch_code body patch_blocked.
Definition handlePatchAdditionalImages body := handlePatch get_err writer put_err patch_code body patch_additional.
Definition handlePatchReleases body := handlePatch get_err writer put_err patch_code body patch_releases.
Definition handlePatchOperators body := handlePatch get_err writer put_err patch_code body patch_operators.
Definition handlePatchCatalogPackages (cms : option (list (option string))) (slug : string) body :=
  handlePatch get_err writer put_err patch_code body (patch_packages (sourceCatalog_of cms) slug).

(** [triggerOneShotAnnotation] has no body. *)
Definition triggerOneShotAnnotation (annotationKey : string) (now : Z) :=
  handlePatch get_err writer put_err patch_code (Some tt) (λ _, trigger_annotation annotationKey now).
Definition handleTriggerRecollect := triggerOneShotAnnotation RecollectAnnotation.
Definition handleTriggerForceResync := triggerOneShotAnnotation ForceResyncAnnotation.
End endpoints.

Definition handlePatchMirrorTargetSpec (ParseDuration : string → option Z) get_err writer put_err (body : option (gmap string json)) :=
  handlePatch get_err writer put_err target_patch_code (parseMirrorTargetSpecPatch ParseDuration body) (λ p mt, inr (apply_patch p mt)).

(** [handleDeleteImageSet]: a read, then the deletion. *)
Definition handleDeleteImageSet (get_err del_err : option updErr) (st : option (Versioned ImageSet)) : Z * option (Versioned ImageSet) :=
  match get_err, st with
  | Some e, _ => (get_code e, st)
  | None, None => (404%Z, st)
  | None, Some _ =>
    match del_err with
    | Some UForbidden => (403%Z, st)
    | Some _ => (500%Z, st)
    | None => (204%Z, None)
    end
  end.

(** * Lemmas *)

(** ** Credentials *)

(** A cached client belongs to a token with the hash it is stored under. *)
Definition cache_ok `{Sha256} (cache : gmap string tokenClientEntry) : Prop :=
  ∀ key e, cache !! key = Some e → ∃ t, tc_client e = TokenClient t ∧ sha256_hex t = key.

Lemma clientForRequest_ok `{Sha256} baseCfg newClient now r cache :
  cache_ok cache →
  let '(c, cache') := clientForRequest baseCfg newClient now r cache in
  cache_ok cache' ∧
  (requestToken r ≠ "" → baseCfg = true → newClient (requestToken r) = true →
     ∃ t, c = TokenClient t ∧ sha256_hex t = sha256_hex (requestToken r)).
Proof.
  intros Hc. unfold clientForRequest. set (token := requestToken r).
  destruct (String.eqb_spec token ""), baseCfg; cbn [orb negb]; try (split; [done|intros; congruence]).
  set (key := sha256_hex token).
  assert (Hcreate : ∀ cache1, cache_ok cache1 →
    let '(c, cache') := (if newClient token then (TokenClient token, <[key := mkTokenClient (TokenClient token) (now + clientTTL)]> cache1)
                         else (ServerClient, cache1)) in
    cache_ok cache' ∧ (token ≠ "" → true = true → newClient token = true → ∃ t, c = TokenClient t ∧ sha256_hex t = key)).
  { intros cache1 H1. destruct (newClient token); [|by split].
    split; [|by eauto]. intros k e. destruct (decide (k = key)) as [->|Hne].
    - rewrite lookup_insert_eq. intros [= <-]. cbn. by exists token.
    - rewrite lookup_insert_ne by done. apply H1. }
  destruct (cache !! key) as [entry|] eqn:E; [|by apply Hcreate].
  destruct (_ <? _)%Z.
  - split; [done|]. intros _ _ _. destruct (Hc key entry E) as (t & -> & Ht). eauto.
  - apply Hcreate. intros k e. destruct (decide (k = key)) as [->|]; [by rewrite lookup_delete_eq|].
    rewrite lookup_delete_ne by done. apply Hc.
Qed.

(** ** Updates *)

Section update_lemmas.
Context {A : Type} (get_err : nat → option updErr) (writer : nat → option (Versioned A) → option (Versioned A))
  (put_err : nat → option updErr).

(** The API server raises the version with every write. *)
Definition versions_grow : Prop :=
  ∀ k o o', writer k (Some o) = Some o' → o' = o ∨ ob_version o < ob_version o'.

(** The object when the others have written up to attempt [k] (excluded). *)
Fixpoint written (k n : nat) (st : option (Versioned A)) : option (Versioned A) :=
  match n with O => st | S n => written (S k) n (writer k st) end.

Lemma update_attempts_spec mutate n k st :
  versions_grow →
  let '(r, st') := update_attempts get_err writer put_err mutate n k st in
  match r with
  | inr _ => ∃ i o v, i < n ∧ written k (S i) st = Some o ∧ mutate (ob_val o) = inr v ∧ st' = Some (mkVersioned v (S (ob_version o)))
  | inl _ => ∃ i, i ≤ n ∧ st' = written k i st
  end.
Proof.
  intros Hg. revert k st. induction n as [|n IH]; intros k st; cbn [update_attempts]; [by exists 0|].
  destruct (get_err k) as [e|]; [exists 0; split; [lia|done]|].
  destruct st as [o|]; [|exists 0; split; [lia|done]].
  destruct (mutate (ob_val o)) as [e|v] eqn:Em; [exists 1; split; [lia|done]|].
  destruct (put_err k) as [e|]; [exists 1; split; [lia|done]|].
  destruct (writer k (Some o)) as [o'|] eqn:E1; [|exists 1; split; [lia|by cbn; rewrite E1]].
  destruct (Nat.eqb_spec (ob_version o') (ob_version o)) as [Ev|Ev].
  - destruct (Hg k o o' E1) as [->|Hlt]; [|lia]. exists 0, o, v. split_and!; [lia| |done|done]. done.
  - specialize (IH (S k) (Some o')). destruct (update_attempts _ _ _ _ _ _ _) as [[e|[]] st'].
    + destruct IH as (i & Hi & ->). exists (S i). split; [lia|]. cbn [written]. by rewrite E1.
    + destruct IH as (i & o2 & v2 & Hi & Hw & Hm & ->). exists (S i), o2, v2. split_and!; [lia| |done|done].
      change (written k (S (S i)) (Some o)) with (written (S k) (S i) (writer k (Some o))). by rewrite E1.
Qed.

(** One quiet attempt is enough. *)
Lemma update_attempts_succeeds mutate n k st i :
  (∀ j, j ≤ i → get_err (k + j) = None ∧ put_err (k + j) = None) →
  (∀ j o, j ≤ i → written k j st = Some o → is_Some (writer (k + j) (Some o))) →
  (∀ o, ∃ v, mutate o = inr v) → i < n → is_Some st →
  (∀ o, written k i st = Some o → writer (k + i) (Some o) = Some o) →
  ∃ st', update_attempts get_err writer put_err mutate n k st = (inr tt, st').
Proof.
  revert k n st. induction i as [|i IH]; intros k n st Herr Hw Hm Hn [o Ho] Hq; subst st; (destruct n as [|n]; [lia|]); cbn [update_attempts].
  - destruct (Herr 0 ltac:(lia)) as [E1 E2]. rewrite Nat.add_0_r in *. rewrite E1, (Hq o eq_refl).
    destruct (Hm (ob_val o)) as [v ->]. rewrite E2, Nat.eqb_refl. eauto.
  - destruct (Herr 0 ltac:(lia)) as [E1 E2]. rewrite Nat.add_0_r in E1, E2. rewrite E1.
    destruct (Hm (ob_val o)) as [v ->]. rewrite E2.
    destruct (Hw 0 o ltac:(lia) eq_refl) as [o' Ho']. rewrite Nat.add_0_r in Ho'. rewrite Ho'.
    destruct (_ =? _)%nat; [eauto|].
    apply IH; [|..|done|lia|eauto|].
    + intros j Hj. replace (S k + j) with (k + S j) by lia. apply Herr. lia.
    + intros j o1 Hj Hw1. replace (S k + j) with (k + S j) by lia. apply Hw; [lia|]. cbn [written]. by rewrite Ho'.
    + intros o1 Hw1. replace (S k + i) with (k + S i) by lia. apply Hq. cbn [written]. by rewrite Ho'.
Qed.
End update_lemmas.

(** ** Round trips of the endpoints *)

Lemma filter_keeps {A} (f : A → bool) l : (∀ x, x ∈ l → f x = true) → List.filter f l = l.
Proof.
  induction l as [|x l IH]; intros Hf; [done|]. cbn. rewrite (Hf x) by left. f_equal. apply IH. intros. apply Hf. by right.
Qed.

Lemma map_identity {A} (f : A → A) l : (∀ x, x ∈ l → f x = x) → map f l = l.
Proof.
  induction l as [|x l IH]; intros Hf; [done|]. cbn. rewrite (Hf x) by left. f_equal. apply IH. intros. apply Hf. by right.
Qed.

Lemma NoDup_map_inj {A B} (f : A → B) l x y : NoDup (map f l) → x ∈ l → y ∈ l → f x = f y → x = y.
Proof.
  intros Hnd [i Hi]%list_elem_of_lookup [j Hj]%list_elem_of_lookup Hf.
  assert (i = j) as ->; [|congruence].
  apply (NoDup_lookup _ _ _ (f x) Hnd); apply list_lookup_fmap_Some; eauto.
Qed.

Lemma nonempty_negb (s : string) : s ≠ "" → negb (String.eqb s "") = true.
Proof. intros Hs. by destruct (String.eqb_spec s ""). Qed.

Lemma with_mirror_same f s : f (is_Mirror s) = is_Mirror s → with_mirror f s = s.
Proof. destruct s. unfold with_mirror. cbn. by intros ->. Qed.

(** What a client that sends a channel back makes of it. *)
Definition verified (ch : ReleaseChannel) : ReleaseChannel :=
  mkChannelSpec (rc_Name ch) (rc_Type ch) (rc_MinVersion ch) (rc_MaxVersion ch) (rc_ShortestPath ch) (rc_Full ch) false.

Lemma patched_wire_channel ch : rc_Type ch ≠ "" → patched_channel (wire_channel ch) = verified ch.
Proof. intros Ht. unfold patched_channel, wire_channel, verified. cbn. by destruct (String.eqb_spec (rc_Type ch) ""). Qed.

Lemma patch_get_releases s :
  (∀ ch, ch ∈ pf_Channels (mi_Platform (is_Mirror s)) → rc_Type ch ≠ "") →
  patch_releases (get_releases s) s =
    edit (λ m, let p := mi_Platform m in
      set_Platform (mkPlatform (pf_Graph p) (map verified (pf_Channels p)) (pf_Architectures p) (pf_KubeVirtContainer p)) m) s.
Proof.
  intros Ht. unfold patch_releases, edit, get_releases, with_mirror. cbn [rs_Graph rs_Channels rs_Architectures].
  destruct s as [name annos gen m st]. cbn [is_Mirror is_Name is_Annotations is_Generation is_Status] in *.
  do 2 f_equal. rewrite map_map. f_equal. f_equal; [|by case_decide as E; rewrite ?E].
  apply map_ext_in. intros ch Hin. apply patched_wire_channel, Ht. by apply list_elem_of_In.
Qed.

Lemma patch_get_operators s :
  (∀ op, op ∈ mi_Operators (is_Mirror s) → op_Catalog op ≠ "") →
  NoDup (map op_Catalog (mi_Operators (is_Mirror s))) →
  patch_operators (get_operators s) s = inr s.
Proof.
  intros Hne Hnd. unfold patch_operators, edit, get_operators. f_equal. apply with_mirror_same.
  rewrite filter_keeps.
  2:{ intros po (op & -> & Hin)%list_elem_of_fmap. apply nonempty_negb. cbn. by apply Hne. }
  rewrite map_map, map_identity; [by destruct (is_Mirror s)|].
  intros op Hin. unfold patched_operator, wire_operator. cbn [oe_Catalog oe_TargetCatalog oe_TargetTag oe_Full oe_SkipDependencies].
  rewrite (proj2 (index_by_lookup _ _ _ op Hnd)) by done. by destruct op.
Qed.

(** What a client that sends a package back makes of it. *)
Definition plain_package (p : IncludePackage) : IncludePackage :=
  mkIncludePackage (ip_Name p) (ip_Channels p) "" 0 (ip_Bundle p) (ip_Bundles p).

Lemma existingBundles_Some op n bs : existingBundles op !! n = Some bs → ∃ p, p ∈ op_Packages op ∧ ip_Name p = n ∧ ip_Bundles p = bs ∧ bs ≠ [].
Proof.
  unfold existingBundles. generalize (op_Packages op) as l.
  induction l as [|p l IH] using rev_ind; [by cbn; rewrite lookup_empty|].
  rewrite foldl_app. cbn. set (acc := foldl _ _ l) in *.
  assert (Hold : acc !! n = Some bs → ∃ p', p' ∈ l ++ [p] ∧ ip_Name p' = n ∧ ip_Bundles p' = bs ∧ bs ≠ []).
  { intros (p' & Hin & Hp)%IH. exists p'. split; [apply elem_of_app; by left|done]. }
  case_decide as E; [done|].
  destruct (decide (ip_Name p = n)) as [<-|Hne]; [|by rewrite lookup_insert_ne].
  rewrite lookup_insert_eq. intros [= <-]. exists p. split; [apply elem_of_app; right; by left|done].
Qed.

Lemma patched_wire_packages op :
  NoDup (map ip_Name (op_Packages op)) →
  patched_packages (mkPackagePatch (map wire_package (op_Packages op)) []) op = map plain_package (op_Packages op).
Proof.
  intros Hnd. unfold patched_packages. cbn [pp_Packages pp_Include].
  case_decide as E; [by apply map_eq_nil in E as ->|]. rewrite map_map. apply map_ext_in. intros p Hin%list_elem_of_In.
  unfold patched_package, wire_package, plain_package. cbn [pc_Name pc_Bundles pc_Channels pc_MinVersion pc_MaxVersion].
  assert (Hb : mkIncludeBundle (ib_MinVersion (ip_Bundle p)) (ib_MaxVersion (ip_Bundle p)) = ip_Bundle p) by by destruct (ip_Bundle p).
  rewrite Hb. f_equal. case_decide as Hbs; [|done]. rewrite Hbs.
  destruct (_ && _); [|done]. destruct (existingBundles op !! ip_Name p) as [bs|] eqn:Ex; [|done].
  apply existingBundles_Some in Ex as (p' & Hin' & Hn & Hbs' & Hne). exfalso.
  enough (p' = p) as -> by congruence. by apply (NoDup_map_inj _ _ _ _ Hnd).
Qed.

Lemma get_packages_unique slug ops op :
  NoDup (map (λ o, CatalogSlug (op_Catalog o)) ops) → op ∈ ops → CatalogSlug (op_Catalog op) = slug →
  concat (map (λ o, if String.eqb (CatalogSlug (op_Catalog o)) slug then map wire_package (op_Packages o) else []) ops)
  = map wire_package (op_Packages op).
Proof.
  intros Hnd Hin Hs. induction ops as [|o ops IH]; [by apply not_elem_of_nil in Hin|].
  cbn in *. apply NoDup_cons in Hnd as [Hno Hnd]. apply elem_of_cons in Hin as [<-|Hin].
  - rewrite Hs, String.eqb_refl. rewrite <- (app_nil_r (map wire_package (op_Packages op))) at 2. f_equal.
    clear IH Hnd. induction ops as [|o ops IH]; [done|]. cbn in *. apply not_elem_of_cons in Hno as [Hne Hno].
    rewrite Hs in Hne. destruct (String.eqb_spec (CatalogSlug (op_Catalog o)) slug); [congruence|by apply IH].
  - rewrite IH by done. destruct (String.eqb_spec (CatalogSlug (op_Catalog o)) slug) as [E|]; [|done].
    destruct Hno. rewrite E, <- Hs. by apply (list_elem_of_fmap_2 (λ o, CatalogSlug (op_Catalog o))).
Qed.

Lemma patch_get_packages slug s op :
  NoDup (map (λ o, CatalogSlug (op_Catalog o)) (mi_Operators (is_Mirror s))) →
  op ∈ mi_Operators (is_Mirror s) → CatalogSlug (op_Catalog op) = slug → NoDup (map ip_Name (op_Packages op)) →
  patch_packages "" slug (mkPackagePatch (get_packages slug s) []) s =
    edit (λ m, set_Operators (map (λ o, if String.eqb (CatalogSlug (op_Catalog o)) slug
      then set_op_packages (map plain_package (op_Packages o)) o else o) (mi_Operators m)) m) s.
Proof.
  intros Hnd Hin Hs Hp. unfold patch_packages, catalog_matches. cbn [String.eqb negb].
  assert (existsb (λ o, String.eqb (CatalogSlug (op_Catalog o)) slug) (mi_Operators (is_Mirror s)) = true) as ->
    by (apply existsb_elem; exists op; split; [done|by apply String.eqb_eq]).
  unfold get_packages. rewrite (get_packages_unique slug _ op) by done.
  unfold edit, with_mirror. do 2 f_equal. f_equal. apply map_ext_in. intros o Ho%list_elem_of_In.
  destruct (String.eqb_spec (CatalogSlug (op_Catalog o)) slug) as [E|]; [|done].
  assert (o = op) as ->; [|by rewrite patched_wire_packages].
  apply (NoDup_map_inj _ _ _ _ Hnd); [done..|congruence].
Qed.

(** For every endpoint that edits a part of an ImageSet, a PATCH with the
    response of the GET leaves the ImageSet as it is. *)
Lemma patch_get_same s :
  patch_settings (get_settings s) s = inr s ∧
  patch_helm (get_helm s) s = inr s ∧
  ("" ∉ get_blocked s → patch_blocked (get_blocked s) s = inr s) ∧
  ((∀ i, i ∈ get_additional s → ai_Name i ≠ "") → patch_additional (get_additional s) s = inr s) ∧
  ((∀ ch, ch ∈ pf_Channels (mi_Platform (is_Mirror s)) → rc_Type ch ≠ "" ∧ rc_SkipSignatureVerification ch = false) →
     patch_releases (get_releases s) s = inr s) ∧
  ((∀ op, op ∈ mi_Operators (is_Mirror s) → op_Catalog op ≠ "") → NoDup (map op_Catalog (mi_Operators (is_Mirror s))) →
     patch_operators (get_operators s) s = inr s) ∧
  (∀ op, NoDup (map (λ o, CatalogSlug (op_Catalog o)) (mi_Operators (is_Mirror s))) →
     op ∈ mi_Operators (is_Mirror s) → NoDup (map ip_Name (op_Packages op)) →
     (∀ p, p ∈ op_Packages op → ip_DefaultChannel p = "" ∧ ip_PreviousVersions p = 0%Z) →
     let slug := CatalogSlug (op_Catalog op) in
     patch_packages "" slug (mkPackagePatch (get_packages slug s) []) s = inr s).
Proof.
  split_and!.
  - unfold patch_settings, edit. f_equal. apply with_mirror_same. by destruct s as [? ? ? [] ?].
  - unfold patch_helm, edit. f_equal. apply with_mirror_same. by destruct s as [? ? ? [] ?].
  - intros Hb. unfold patch_blocked, edit. f_equal. apply with_mirror_same.
    rewrite filter_keeps by (intros x Hx; apply nonempty_negb; by intros ->). by destruct s as [? ? ? [] ?].
  - intros Hb. unfold patch_additional, edit. f_equal. apply with_mirror_same.
    rewrite filter_keeps by (intros x Hx; apply nonempty_negb; by apply Hb). by destruct s as [? ? ? [] ?].
  - intros Hch. rewrite patch_get_releases by (intros ch Hin; by apply Hch). unfold edit. f_equal. apply with_mirror_same.
    rewrite map_identity; [by destruct s as [? ? ? [[] ? ? ? ? ?] ?]|].
    intros ch Hin. destruct (Hch ch Hin) as [_ Hv]. unfold verified. rewrite <- Hv. by destruct ch.
  - apply patch_get_operators.
  - intros op Hnd Hin Hp Hplain. cbv zeta. rewrite (patch_get_packages _ s op) by done.
    unfold edit. f_equal. apply with_mirror_same. rewrite map_identity; [by destruct s as [? ? ? [] ?]|].
    intros o Ho. destruct (String.eqb_spec (CatalogSlug (op_Catalog o)) (CatalogSlug (op_Catalog op))) as [E|]; [|done].
    rewrite (NoDup_map_inj _ _ o op Hnd) by done. rewrite map_identity; [by destruct op|].
    intros p Hpin. destruct (Hplain p Hpin) as [Hd Hv]. unfold plain_package. rewrite <- Hd at 1. rewrite <- Hv at 1. by destruct p.
Qed.

(** Without errors and other writers. *)
Lemma quiet_patch {A B} code (patch : B) (mutate : B → A → updErr + A) a v n :
  mutate patch a = inr v →
  handlePatch (λ _, None) (λ _ st, st) (λ _, None) code (Some patch) mutate (Some (mkVersioned a n)) = (204%Z, Some (mkVersioned v (S n))).
Proof. intros Hm. unfold handlePatch, updateWithRetry, retrySteps. cbn. by rewrite Hm, Nat.eqb_refl. Qed.

(** ** Merging a patch into a MirrorTarget *)

(** What a present field does to a value: [None], the patch is rejected. *)
Definition merged {B} (raw : gmap string json) (key : string) (un : json → option B) (old : B) : option B :=
  match raw !! key with None => Some old | Some v => un v end.

Lemma field_merged {B} raw key (un : json → option B) old :
  merged raw key un old = (default old <$> field raw key un).
Proof. unfold merged, field. destruct (raw !! key) as [v|]; [|done]. cbn. by destruct (un v). Qed.

Ltac take_field key :=
  destruct (field _ key _) eqn:?; cbn [mbind option_bind];
  [|right; eexists; split; [done|]; rewrite !field_merged;
    repeat match goal with E : field _ _ _ = None |- _ => rewrite E; clear E end; cbn; tauto].

(** A field of the response that is sent back has its value again. *)
Lemma omit_empty_eq key empty v doc : doc !! key = None → omit_empty key empty v doc !! key = if empty then None else Some v.
Proof. intros Hd. unfold omit_empty. by destruct empty; [|rewrite lookup_insert_eq]. Qed.
Lemma omit_empty_ne key key' empty v doc : key' ≠ key → omit_empty key' empty v doc !! key = doc !! key.
Proof. intros Hne. unfold omit_empty. by destruct empty; [|rewrite lookup_insert_ne]. Qed.

Lemma un_int_ok z : (min_int64 ≤ z ≤ max_int64)%Z → un_int (JInt z) = Some z.
Proof. intros [? ?]. unfold un_int. by rewrite (proj2 (Z.leb_le _ _)), (proj2 (Z.leb_le _ _)). Qed.

Lemma un_duration_ok (ParseDuration : string → option Z) (DurationString : Z → string) d :
  (∀ d', d = Some d' → DurationString d' ≠ "" ∧ ParseDuration (DurationString d') = Some d') →
  un_duration ParseDuration (JString (duration_text DurationString d)) = Some d.
Proof.
  intros Hd. destruct d as [d|]; [|done]. cbn. destruct (Hd d eq_refl) as [Hne Hp].
  destruct (String.eqb_spec (DurationString d) ""); [done|]. by rewrite Hp.
Qed.

(** * Theorems *)

(** C28: a request that changes something never runs with the service account
    of the server: without a token it is answered 401 before a client is
    chosen, and with one (where a client for it can be made) it runs with a
    client made for a token of the same SHA-256, also when the client comes
    from the cache or has expired there.  The cache only ever holds clients
    under the hash of their token. *)
Theorem writes_run_as_caller `{Sha256} newClient now r cache :
  cache_ok cache → is_read (rq_Method r) = false →
  let '(result, cache') := requireTokenForWrites true newClient now r cache in
  cache_ok cache' ∧
  (requestToken r = "" → result = inl 401%Z ∧ cache' = cache) ∧
  (requestToken r ≠ "" → newClient (requestToken r) = true →
     ∃ t, result = inr (TokenClient t) ∧ sha256_hex t = sha256_hex (requestToken r)).
Proof.
  intros Hc Hw. unfold requireTokenForWrites. rewrite Hw. cbn [negb andb].
  destruct (String.eqb_spec (requestToken r) "") as [E|E]; [by split_and!|].
  pose proof (clientForRequest_ok true newClient now r cache Hc) as Hok.
  destruct (clientForRequest _ _ _ _ _) as [c cache']. destruct Hok as [Hc' Hok].
  split_and!; [done..|]. intros _ Hn. destruct (Hok E eq_refl Hn) as (t & -> & Ht). eauto.
Qed.

(** C29: an edit is atomic.  A PATCH answered with 204 has replaced the object
    by its own mutation of the object the others had left there, and nothing of
    what they wrote is lost; with any other answer the object is what the
    others made of it. *)
Theorem patch_is_atomic {A B} get_err writer put_err code (body : option B) (mutate : B → A → updErr + A) st :
  versions_grow writer → (∀ e, code e ≠ 204%Z) →
  let '(status, st') := handlePatch get_err writer put_err code body mutate st in
  (status = 204%Z → ∃ patch i o v, body = Some patch ∧ i < retrySteps ∧ written writer 0 (S i) st = Some o ∧
     mutate patch (ob_val o) = inr v ∧ st' = Some (mkVersioned v (S (ob_version o)))) ∧
  (status ≠ 204%Z → ∃ i, i ≤ retrySteps ∧ st' = written writer 0 i st).
Proof.
  intros Hg Hcode. unfold handlePatch. destruct body as [patch|]; [|split; [done|intros _; exists 0; split; [unfold retrySteps; lia|done]]].
  unfold updateWithRetry.
  pose proof (update_attempts_spec get_err writer put_err (mutate patch) retrySteps 0 st Hg) as Hs.
  destruct (update_attempts _ _ _ _ _ _ _) as [[e|[]] st'].
  - split; [intros E; by destruct (Hcode e)|done].
  - split; [|done]. intros _. destruct Hs as (i & o & v & ? & ? & ? & ?). by exists patch, i, o, v.
Qed.

(** An edit gets through: when the reads and writes do not fail and one of
    the five attempts is not disturbed by another writer, the PATCH is answered
    with 204. *)
Theorem patch_gets_through {A B} get_err writer put_err code (patch : B) (mutate : B → A → updErr + A) st i :
  (∀ j, j ≤ i → get_err j = None ∧ put_err j = None) →
  (∀ j o, j ≤ i → written writer 0 j st = Some o → is_Some (writer j (Some o))) →
  (∀ o, ∃ v, mutate patch o = inr v) → i < retrySteps → is_Some st →
  (∀ o, written writer 0 i st = Some o → writer i (Some o) = Some o) →
  (handlePatch get_err writer put_err code (Some patch) mutate st).1 = 204%Z.
Proof.
  intros He Hw Hm Hi Hs Hq. unfold handlePatch, updateWithRetry.
  by destruct (update_attempts_succeeds get_err writer put_err (mutate patch) retrySteps 0 st i He Hw Hm Hi Hs Hq) as [st' ->].
Qed.

(** Sending back what was read changes nothing but the version.  When no
    request fails and nobody else writes, a PATCH with the response of the GET
    is answered 204 and leaves the ImageSet as it is: settings and Helm
    repositories always, blocked and additional images without empty names,
    releases whose channels have a type and verify signatures, operators with
    distinct catalogs, and the packages of a catalog that set neither a default
    channel nor previous versions. *)
Theorem edits_roundtrip s n :
  let st := Some (mkVersioned s n) in
  let unchanged {B} (get : option updErr → option (Versioned ImageSet) → Z + B)
      (patch : (nat → option updErr) → (nat → option (Versioned ImageSet) → option (Versioned ImageSet)) →
               (nat → option updErr) → option B → option (Versioned ImageSet) → Z * option (Versioned ImageSet)) :=
    ∃ response, get None st = inr response ∧
      patch (λ _, None) (λ _ st, st) (λ _, None) (Some response) st = (204%Z, Some (mkVersioned s (S n))) in
  unchanged handleGetImageSetSettings handlePatchImageSetSettings ∧
  unchanged handleGetHelm handlePatchHelm ∧
  ("" ∉ mi_BlockedImages (is_Mirror s) → unchanged handleGetBlockedImages handlePatchBlockedImages) ∧
  ((∀ i, i ∈ mi_AdditionalImages (is_Mirror s) → ai_Name i ≠ "") → unchanged handleGetAdditionalImages handlePatchAdditionalImages) ∧
  ((∀ ch, ch ∈ pf_Channels (mi_Platform (is_Mirror s)) → rc_Type ch ≠ "" ∧ rc_SkipSignatureVerification ch = false) →
     unchanged handleGetReleases handlePatchReleases) ∧
  ((∀ op, op ∈ mi_Operators (is_Mirror s) → op_Catalog op ≠ "") → NoDup (map op_Catalog (mi_Operators (is_Mirror s))) →
     unchanged handleGetOperators handlePatchOperators) ∧
  (∀ op, NoDup (map (λ o, CatalogSlug (op_Catalog o)) (mi_Operators (is_Mirror s))) →
     op ∈ mi_Operators (is_Mirror s) → NoDup (map ip_Name (op_Packages op)) →
     (∀ p, p ∈ op_Packages op → ip_DefaultChannel p = "" ∧ ip_PreviousVersions p = 0%Z) →
     let slug := CatalogSlug (op_Catalog op) in
     unchanged (handleGetPackageConstraints slug)
       (λ ge wr pe body, handlePatchCatalogPackages ge wr pe (Some []) slug ((λ ps, mkPackagePatch ps []) <$> body))).
Proof.
  intros st unchanged. destruct (patch_get_same s) as (H1 & H2 & H3 & H4 & H5 & H6 & H7).
  split_and!; intros; (eexists; split; [reflexivity|]); apply quiet_patch; eauto.
Qed.

(** A PATCH of a MirrorTarget's spec has merge-patch semantics: it is
    rejected exactly when the body is no object or a field it has is invalid;
    otherwise a field the body has takes the value the body gives (null, its
    zero value) and every other field, and everything that cannot be edited,
    keeps its value. *)
Theorem spec_patch_merges (ParseDuration : string → option Z) body mt :
  match parseMirrorTargetSpecPatch ParseDuration body with
  | None => body = None ∨ ∃ raw, body = Some raw ∧
      (merged raw "registry" un_registry "" = None ∨ merged raw "insecure" un_bool false = None ∨
       merged raw "authSecret" un_string "" = None ∨ merged raw "concurrency" un_int 0%Z = None ∨
       merged raw "batchSize" un_int 0%Z = None ∨ merged raw "pollInterval" (un_duration ParseDuration) None = None ∨
       merged raw "checkExistInterval" (un_duration ParseDuration) None = None)
  | Some p => ∃ raw, body = Some raw ∧ let mt' := apply_patch p mt in
      merged raw "registry" un_registry (mt_Registry mt) = Some (mt_Registry mt') ∧
      merged raw "insecure" un_bool (mt_Insecure mt) = Some (mt_Insecure mt') ∧
      merged raw "authSecret" un_string (mt_AuthSecret mt) = Some (mt_AuthSecret mt') ∧
      merged raw "concurrency" un_int (mt_Concurrency mt) = Some (mt_Concurrency mt') ∧
      merged raw "batchSize" un_int (mt_BatchSize mt) = Some (mt_BatchSize mt') ∧
      merged raw "pollInterval" (un_duration ParseDuration) (mt_PollInterval mt) = Some (mt_PollInterval mt') ∧
      merged raw "checkExistInterval" (un_duration ParseDuration) (mt_CheckExistInterval mt) = Some (mt_CheckExistInterval mt') ∧
      (mt_Name mt', mt_ImageSets mt', mt_MaxRetries mt', mt_Annotations mt', mt_Generation mt', mt_Proxy mt', mt_CABundle mt')
      = (mt_Name mt, mt_ImageSets mt, mt_MaxRetries mt, mt_Annotations mt, mt_Generation mt, mt_Proxy mt, mt_CABundle mt)
  end.
Proof.
  destruct body as [raw|]; [|by left]. unfold parseMirrorTargetSpecPatch. cbn [mbind option_bind].
  take_field "registry". take_field "insecure". take_field "authSecret". take_field "concurrency".
  take_field "batchSize". take_field "pollInterval". take_field "checkExistInterval".
  exists raw. split; [done|]. cbv zeta. rewrite !field_merged.
  repeat match goal with E : field _ _ _ = Some _ |- _ => rewrite E; clear E end. done.
Qed.

(** Sending the spec of a MirrorTarget back as it was read is accepted and
    changes nothing, for a target with a registry, counts that fit a machine
    integer, and durations that read back as they are printed. *)
Theorem spec_roundtrip (ParseDuration : string → option Z) (DurationString : Z → string) mt :
  (∀ d, mt_PollInterval mt = Some d ∨ mt_CheckExistInterval mt = Some d →
     DurationString d ≠ "" ∧ ParseDuration (DurationString d) = Some d) →
  mt_Registry mt ≠ "" → (min_int64 ≤ mt_Concurrency mt ≤ max_int64)%Z → (min_int64 ≤ mt_BatchSize mt ≤ max_int64)%Z →
  ∃ p, parseMirrorTargetSpecPatch ParseDuration (Some (get_target_spec DurationString mt)) = Some p ∧ apply_patch p mt = mt.
Proof.
  intros Hd Hr Hc Hb. unfold parseMirrorTargetSpecPatch, field, get_target_spec. cbn [mbind option_bind].
  pose proof (un_duration_ok _ _ (mt_PollInterval mt) (λ d E, Hd d (or_introl E))) as Hp.
  pose proof (un_duration_ok _ _ (mt_CheckExistInterval mt) (λ d E, Hd d (or_intror E))) as Hk.
  repeat first [rewrite lookup_insert_eq | rewrite lookup_insert_ne by done | rewrite omit_empty_ne by done
               | rewrite omit_empty_eq by (repeat first [rewrite omit_empty_ne by done | apply lookup_empty])].
  cbn [un_registry un_bool un_string mbind option_bind]. destruct (String.eqb_spec (mt_Registry mt) ""); [done|].
  cbn [mbind option_bind].
  destruct (String.eqb_spec (mt_AuthSecret mt) "") as [Es|]; destruct (Z.eqb_spec (mt_Concurrency mt) 0) as [Ec|];
    destruct (Z.eqb_spec (mt_BatchSize mt) 0) as [Eb|];
    destruct (String.eqb_spec (duration_text DurationString (mt_PollInterval mt)) "") as [Ep|];
    destruct (String.eqb_spec (duration_text DurationString (mt_CheckExistInterval mt)) "") as [Ek|];
    cbn [un_string mbind option_bind]; rewrite ?un_int_ok by done; rewrite ?Hp, ?Hk; cbn [mbind option_bind];
    (eexists; split; [done|]; by destruct mt).
Qed.

(** A client that edits the releases of an ImageSet makes all its channels
    verify signatures; one that edits packages resets their default channels
    and previous versions. *)
Lemma release_edit_drops_skip_verification :
  let s := mkImageSet "s" ∅ 1 (mkMirror (mkPlatform false [mkChannelSpec "stable-4.16" TypeOCP "" "" false false true] [] false)
             [] [] [] [] false) (mkStatus [] 0 0 0 0 [] 0 None) in
  ∃ s', patch_releases (get_releases s) s = inr s' ∧
    map rc_SkipSignatureVerification (pf_Channels (mi_Platform (is_Mirror s))) = [true] ∧
    map rc_SkipSignatureVerification (pf_Channels (mi_Platform (is_Mirror s'))) = [false].
Proof. cbv zeta. eexists. split; [reflexivity|by vm_compute]. Qed.

Definition one_operator : ImageSet :=
  mkImageSet "s" ∅ 1 (mkMirror (mkPlatform false [] [] false)
    [mkOperator "reg/cat:v1" "" "" false false false [mkIncludePackage "p" [] "stable" 2 (mkIncludeBundle "" "") []]]
    [] [] [] false) (mkStatus [] 0 0 0 0 [] 0 None).

Lemma package_edit_resets_fields :
  ∃ s', patch_packages "" (CatalogSlug "reg/cat:v1") (mkPackagePatch (get_packages (CatalogSlug "reg/cat:v1") one_operator) []) one_operator = inr s' ∧
    map op_Packages (mi_Operators (is_Mirror s')) = [[mkIncludePackage "p" [] "" 0 (mkIncludeBundle "" "") []]].
Proof. eexists. split; [vm_compute; reflexivity|by vm_compute]. Qed.

(** Of two entries of one catalog, an edit gives both the packages of the
    second. *)
Lemma operator_edit_mixes_packages :
  let pkg n := mkIncludePackage n [] "" 0 (mkIncludeBundle "" "") [] in
  let s := mkImageSet "s" ∅ 1 (mkMirror (mkPlatform false [] [] false)
             [mkOperator "reg/cat:v1" "a" "" false false false [pkg "p"]; mkOperator "reg/cat:v1" "b" "" false false false [pkg "q"]]
             [] [] [] false) (mkStatus [] 0 0 0 0 [] 0 None) in
  ∃ s', patch_operators (get_operators s) s = inr s' ∧
    map op_Packages (mi_Operators (is_Mirror s)) = [[pkg "p"]; [pkg "q"]] ∧
    map op_Packages (mi_Operators (is_Mirror s')) = [[pkg "q"]; [pkg "q"]].
Proof. cbv zeta. eexists. split; [vm_compute; reflexivity|by vm_compute]. Qed.

(** A write whose token yields no client runs as the server. *)
Lemma failed_client_writes_as_server `{Sha256} now token cache :
  token ≠ "" → cache !! sha256_hex token = None →
  requireTokenForWrites true (λ _, false) now (mkRequest "PATCH" token "") cache = (inr ServerClient, cache).
Proof.
  intros Hne Hc. unfold requireTokenForWrites, clientForRequest, requestToken. cbn [rq_Method rq_ForwardedToken is_read existsb].
  rewrite (nonempty_negb token Hne). cbn [orb]. destruct (String.eqb_spec token ""); [done|]. cbn. by rewrite Hc.
Qed.

(** ** Examples *)

Definition ex_cache : gmap string tokenClientEntry :=
  {[@sha256_hex ex_sha "alice" := mkTokenClient (TokenClient "alice") 500]}.

Lemma writes_run_as_caller_witness :
  fst (@requireTokenForWrites ex_sha true (λ _, true) 100 (mkRequest "PATCH" "" "Bearer alice") ex_cache) = inr (TokenClient "alice") ∧
  ∃ t, fst (@requireTokenForWrites ex_sha true (λ _, true) 600 (mkRequest "PATCH" "" "Bearer alice") ex_cache) = inr (TokenClient t) ∧
       @sha256_hex ex_sha t = @sha256_hex ex_sha "alice".
Proof.
  split; [vm_compute; reflexivity|].
  assert (Hc : @cache_ok ex_sha ex_cache).
  { intros k e. unfold ex_cache. rewrite lookup_singleton_Some. intros [<- <-]. by exists "alice". }
  pose proof (@writes_run_as_caller ex_sha (λ _, true) 600 (mkRequest "PATCH" "" "Bearer alice") ex_cache Hc eq_refl) as Hw.
  destruct (requireTokenForWrites _ _ _ _ _) as [result cache']. destruct Hw as (_ & _ & Hw). by apply Hw.
Defined.

(** Another client edits the object during the first attempt. *)
Definition ex_writer (k : nat) (st : option (Versioned ImageSet)) : option (Versioned ImageSet) :=
  match k, st with
  | O, Some o => Some (mkVersioned (with_mirror (set_Blocked ["quay.io/bad"]) (ob_val o)) (S (ob_version o)))
  | _, st => st
  end.
Definition ex_object : option (Versioned ImageSet) := Some (mkVersioned one_operator 7).
Definition ex_patched : Z * option (Versioned ImageSet) :=
  handlePatch (λ _, None) ex_writer (λ _, None) patch_code (Some true) patch_settings ex_object.

Lemma ex_writer_grows : versions_grow ex_writer.
Proof. intros [|k] o o'; cbn; intros [= <-]; [right; cbn; lia|by left]. Qed.

Lemma patch_is_atomic_witness :
  (∃ o, ex_patched.2 = Some o ∧ get_blocked (ob_val o) = ["quay.io/bad"] ∧ get_settings (ob_val o) = true) ∧
  ∃ i o v, written ex_writer 0 (S i) ex_object = Some o ∧ patch_settings true (ob_val o) = inr v ∧
    ex_patched.2 = Some (mkVersioned v (S (ob_version o))).
Proof.
  split; [eexists; split; [vm_compute; reflexivity|by vm_compute]|].
  pose proof (patch_is_atomic (λ _, None) ex_writer (λ _, None) patch_code (Some true) patch_settings ex_object ex_writer_grows
    ltac:(by intros [])) as Ha. change (handlePatch _ _ _ _ _ _ _) with ex_patched in Ha.
  destruct ex_patched as [status st'] eqn:E. assert (status = 204%Z) as -> by by vm_compute in E; injection E.
  destruct Ha as [Ha _]. destruct (Ha eq_refl) as (patch & i & o & v & [= <-] & _ & Hw & Hm & Hst). by exists i, o, v.
Defined.

Lemma patch_gets_through_witness : ex_patched.1 = 204%Z.
Proof.
  apply (patch_gets_through (λ _, None) ex_writer (λ _, None) patch_code true patch_settings ex_object 1).
  - by intros.
  - intros [|j] o _ _; cbn; eauto.
  - intros o. by eexists.
  - unfold retrySteps. lia.
  - by eexists.
  - done.
Defined.

Definition ex_edit_set : ImageSet :=
  with_mirror (λ m, set_Platform (mkPlatform true [mkChannelSpec "stable-4.16" TypeOCP "" "" false false false] [] false)
    (set_Operators [mkOperator "reg/cat:v1" "" "" false false true [mkIncludePackage "p" [] "" 0 (mkIncludeBundle "" "") ["p.v1"]]] m))
    one_operator.

Lemma edits_roundtrip_witness :
  let slug := CatalogSlug "reg/cat:v1" in
  ∃ ps, handleGetPackageConstraints slug None (Some (mkVersioned ex_edit_set 7)) = inr ps ∧
    handlePatchCatalogPackages (λ _, None) (λ _ st, st) (λ _, None) (Some []) slug (Some (mkPackagePatch ps [])) (Some (mkVersioned ex_edit_set 7))
    = (204%Z, Some (mkVersioned ex_edit_set 8)).
Proof.
  destruct (edits_roundtrip ex_edit_set 7) as (_ & _ & _ & _ & _ & _ & Hp).
  apply (Hp (mkOperator "reg/cat:v1" "" "" false false true [mkIncludePackage "p" [] "" 0 (mkIncludeBundle "" "") ["p.v1"]])).
  - apply NoDup_singleton.
  - left.
  - apply NoDup_singleton.
  - intros p. cbn. rewrite list_elem_of_singleton. by intros ->.
Defined.

Definition ex_print_ns (d : Z) : string := Itoa d +:+ "ns".
Definition ex_parse_ns (s : string) : option Z := if HasSuffix s "ns" then Atoi (TrimSuffix s "ns") else None.
Definition ex_spec_target : MirrorTarget :=
  mkMirrorTarget "t" "reg.example/mirror" ["s"] 4 0 3 (Some (24 * minute)%Z) None ∅ 1 "" true None None.

Lemma spec_roundtrip_witness :
  ∃ p, parseMirrorTargetSpecPatch ex_parse_ns (Some (get_target_spec ex_print_ns ex_spec_target)) = Some p ∧
       sp_BatchSize p = None ∧ apply_patch p ex_spec_target = ex_spec_target.
Proof.
  destruct (spec_roundtrip ex_parse_ns ex_print_ns ex_spec_target) as (p & Hp & Ha).
  - intros d [[= <-]|[=]]. by vm_compute.
  - done.
  - by vm_compute.
  - by vm_compute.
  - exists p. split_and!; [done| |done]. vm_compute in Hp. injection Hp as <-. done.
Defined.
