(* ===== verification/Target.v ===== *)
(** * Reconciling a MirrorTarget

    [Reconcile] of internal/controller/mirrortarget_controller.go with the
    deletion of a target, the aggregation of the progress of its ImageSets and
    the cleanup ([Cleanup]) and the objects ([Deploy]) it is made of.

    The calls on the target itself, on ImageSets and on pods draw from the fault
    schedule of the ConfigMaps; the in-memory copy of the target's status is
    passed along and only reaches the API server by [status_update]. *)
From S2P Require Import Prelude Effects GoStrings ImageRef ImageState Owners ManagerState Api Resolve Status Resources Reconcile Planner Cleanup BuildJobs Deploy Worker CatalogGate.

(** ** State *)

Record ImageSetStatusSummary := mkSetSummary {
  iss_Name : string; iss_Found : bool; iss_Total : Z; iss_Mirrored : Z; iss_Pending : Z; iss_Failed : Z;
}.

(** [MirrorTargetStatus]: what the cleanup works on, and the counters. *)
Record FullStatus := mkFullStatus { fs_core : TargetStatus; fs_totals : counts; fs_sets : list ImageSetStatusSummary }.

Record Target := mkTarget { tt_spec : TargetSpec; tt_Deleting : bool; tt_Finalizer : bool; tt_Status : FullStatus }.

(** A pod with its labels; [tp_Deleting]: its deletion has begun. *)
Record TPod := mkTPod { tp_Name : string; tp_Labels : gmap string string; tp_Deleting : bool }.

Inductive terr := TApi (e : ctlErr) | TKube (msg : string) | TPanic.

(** [ctrl.Result]: when to come back, in nanoseconds. *)
Record CtrlResult := mkCtrlResult { RequeueAfter : option Z }.

Section target.
Context `{Kube} `{NameSum}.

Record World := mkWorld {
  tw_cluster : Cluster; tw_jobs : gmap string Job; tw_kube : kube; tw_pods : list TPod;
  tw_sets : gmap string ImageSet; tw_target : option Target;
}.

Definition set_tw_target (t : option Target) (w : World) : World :=
  mkWorld (tw_cluster w) (tw_jobs w) (tw_kube w) (tw_pods w) (tw_sets w) t.
Definition set_tw_cluster (c : Cluster) (w : World) : World :=
  mkWorld c (tw_jobs w) (tw_kube w) (tw_pods w) (tw_sets w) (tw_target w).
Definition set_tw_kube (k : kube) (w : World) : World :=
  mkWorld (tw_cluster w) (tw_jobs w) k (tw_pods w) (tw_sets w) (tw_target w).
Definition set_tw_pods (p : list TPod) (w : World) : World :=
  mkWorld (tw_cluster w) (tw_jobs w) (tw_kube w) p (tw_sets w) (tw_target w).

Abbreviation CTX := (M World terr).

Definition on_cluster {A} (m : API A) : CTX A := λ w,
  let '(r, c) := m (tw_cluster w) in (match r with inl e => inl (TApi (EApi e)) | inr a => inr a end, set_tw_cluster c w).
Definition on_kube {A} (m : M kube string A) : CTX A := λ w,
  let '(r, k) := m (tw_kube w) in (match r with inl e => inl (TKube e) | inr a => inr a end, set_tw_kube k w).
(** A call that only draws a fault. *)
Definition any_call : CTX unit := on_cluster (call (λ cms, (inr tt, cms))).

(** The cleanup works on the in-memory status, which it leaves changed also
    when it fails. *)
Definition on_cleanup {A} (m : CTL A) (st : TargetStatus) : CTX ((ctlErr + A) * TargetStatus) := λ w,
  let '(r, s) := m (mkCtl (tw_cluster w) (tw_jobs w) st) in
  (inr (r, ct_status s), mkWorld (ct_cluster s) (ct_jobs s) (tw_kube w) (tw_pods w) (tw_sets w) (tw_target w)).

(** ** Writing the target *)

Definition with_status (st : FullStatus) (t : Target) : Target := mkTarget (tt_spec t) (tt_Deleting t) (tt_Finalizer t) st.
Definition with_finalizer (b : bool) (t : Target) : Target := mkTarget (tt_spec t) (tt_Deleting t) b (tt_Status t).

Definition target_write (f : Target → Target) : CTX unit :=
  _ ← any_call;
  t ← getS tw_target;
  match t with
  | None => fail (TApi (EApi ErrNotFound))
  | Some t => modS (set_tw_target (Some (f t)))
  end.
Definition status_update (st : FullStatus) : CTX unit := target_write (with_status st).

(** ** Deletion *)

(** [DeletionTimestamp] is set by the deletion of a pod; it goes away later. *)
Definition mark_deleting (name : string) (pods : list TPod) : list TPod :=
  map (λ p, if String.eqb (tp_Name p) name then mkTPod (tp_Name p) (tp_Labels p) true else p) pods.
Definition of_target (name : string) (p : TPod) : bool := bool_decide (tp_Labels p !! "mirrortarget" = Some name).

Fixpoint delete_pods (pods : list TPod) : CTX unit :=
  match pods with
  | [] => mret tt
  | p :: pods =>
    _ ← (if tp_Deleting p then mret tt else _ ← any_call; modS (λ w, set_tw_pods (mark_deleting (tp_Name p) (tw_pods w)) w));
    delete_pods pods
  end.

Definition delete_deployment (key : Key) : CTX unit := λ w,
  match GetObject key (tw_kube w) with
  | (inr _, k) =>
    match DeleteObject key k with
    | (inr _, k) | (inl KNotFound, k) => (inr tt, set_tw_kube k w)
    | (inl KNoMatch, k) => (inl (TKube "no match"), set_tw_kube k w)
    | (inl (KErr e), k) => (inl (TKube e), set_tw_kube k w)
    end
  | (inl _, k) => (inr tt, set_tw_kube k w)
  end.

Definition handleDeletion (t : Target) : CTX CtrlResult :=
  if negb (tt_Finalizer t) then mret (mkCtrlResult None)
  else
    let name := mt_Name (tg_mt (tt_spec t)) in
    _ ← delete_deployment ("Deployment", tg_Namespace (tt_spec t), name +:+ "-manager");
    _ ← any_call;
    pods ← getS (λ w, List.filter (of_target name) (tw_pods w));
    _ ← delete_pods pods;
    match pods with
    | _ :: _ => mret (mkCtrlResult (Some (5 * second)%Z))
    | [] => _ ← target_write (with_finalizer false); mret (mkCtrlResult None)
    end.

(** ** Aggregation *)

Definition set_summary (sets : gmap string ImageSet) (name : string) : ImageSetStatusSummary :=
  match sets !! name with
  | None => mkSetSummary name false 0 0 0 0
  | Some s =>
    let st := is_Status s in
    mkSetSummary name true (st_TotalImages st) (st_MirroredImages st) (st_PendingImages st) (st_FailedImages st)
  end.

(** The states of the ImageSets, later ones over earlier ones; a state that
    cannot be loaded is skipped.  Also whether any was not empty. *)
Fixpoint merge_states (names : list string) (merged : gmap string (option ImageEntry)) (anyState : bool)
    : CTX (gmap string (option ImageEntry) * bool) :=
  match names with
  | [] => mret (merged, anyState)
  | name :: names =>
    r ← attempt (on_cluster (Load name));
    match r with
    | inl _ => merge_states names merged anyState
    | inr state => merge_states names (state ∪ merged) (if decide (state = ∅) then anyState else true)
    end
  end.

(** [Counts] dereferences every entry: a nil one panics. *)
Definition counts_loaded (merged : gmap string (option ImageEntry)) : option counts :=
  if bool_decide (map_Forall (λ _ e, is_Some e) merged) then Some (Counts (omap id merged)) else None.

Definition sum_summaries (summaries : list ImageSetStatusSummary) : counts :=
  foldl (λ c s, if iss_Found s then mkCounts (c_total c + iss_Total s) (c_mirrored c + iss_Mirrored s)
                                     (c_pending c + iss_Pending s) (c_failed c + iss_Failed s) else c) (mkCounts 0 0 0 0) summaries.

(** The totals derived from the states themselves. *)
Definition derived_totals (mt : MirrorTarget) (summaries : list ImageSetStatusSummary) : CTX counts :=
  r ← merge_states (mt_ImageSets mt) ∅ false;
  let '(merged, anyState) := r in
  if negb (anyState : bool) then mret (sum_summaries summaries)
  else match counts_loaded merged with Some c => mret c | None => fail TPanic end.

(** [inl]: the listing failed, the status is left alone. *)
Definition aggregateImageSetStatus (mt : MirrorTarget) (st : FullStatus) : CTX FullStatus :=
  let names := sort_strings (mt_ImageSets mt) in
  _ ← any_call;
  summaries ← getS (λ w, map (set_summary (tw_sets w)) names);
  s ← attempt (on_cluster (LoadSummary (mt_Name mt)));
  totals ← (match s with
            | inr (Some summary) => if bool_decide (s_ImageSets summary = names) then mret (s_counts summary) else derived_totals mt summaries
            | _ => derived_totals mt summaries
            end);
  mret (mkFullStatus (fs_core st) totals summaries).

(** ** Reconcile *)

Context (env : OperatorEnv) (err_text : ctlErr → string) (now : Z).

Definition reasonReconcileError : string := "ReconcileError".

Definition set_cond (mt : MirrorTarget) (type status reason message : string) (st : FullStatus) : FullStatus :=
  let c := fs_core st in
  mkFullStatus (mkTargetStatus (setCondition now type status reason message (mt_Generation mt) (ts_Conditions c))
    (ts_KnownImageSets c) (ts_PendingCleanup c)) (fs_totals st) (fs_sets st).
Definition with_core (c : TargetStatus) (st : FullStatus) : FullStatus := mkFullStatus c (fs_totals st) (fs_sets st).

(** A step whose failure ends the reconcile with the condition Ready=False. *)
Definition ensure (mt : MirrorTarget) (st : FullStatus) (m : M kube string unit) : CTX unit := λ w,
  match on_kube m w with
  | (inl (TKube e), w) =>
    let '(_, w) := status_update (set_cond mt conditionTypeReady ConditionFalse reasonReconcileError e st) w in (inl (TKube e), w)
  | r => r
  end.

Definition reconcile_objects (t : TargetSpec) (st : FullStatus) : CTX unit :=
  let mt := tg_mt t in
  _ ← ensure mt st (ensureCoordinatorRBAC t);
  _ ← ensure mt st (ensureNetworkPolicies t);
  _ ← ensure mt st (ensureResourceAPI env t);
  _ ← ensure mt st (ensureManagerDeployment env t);
  _ ← ensure mt st (ensureManagerService t);
  ensure mt st (ensureResourcesService t).

Definition finish (t : TargetSpec) (st : FullStatus) : CTX CtrlResult :=
  let mt := tg_mt t in
  exposed ← attempt (on_kube (reconcileExposure t));
  let st := match exposed with
            | inl (TKube e) => set_cond mt conditionTypeReady ConditionFalse "ExposureError" e st
            | inl _ => st
            | inr _ => set_cond mt conditionTypeReady ConditionTrue "DeploymentReady" "Manager deployment is active" st
            end in
  let st := with_core (advance_known mt (fs_core st)) st in
  aggregated ← attempt (aggregateImageSetStatus mt st);
  match aggregated with
  | inl TPanic => fail TPanic
  | _ =>
    let st := match aggregated with inr st => st | inl _ => st end in
    _ ← status_update st;
    mret (mkCtrlResult (Some (match ts_PendingCleanup (fs_core st) with [] => (10 * minute)%Z | _ => (30 * second)%Z end)))
  end.

Definition Reconcile : CTX CtrlResult :=
  _ ← any_call;
  o ← getS tw_target;
  match o with
  | None => mret (mkCtrlResult None)
  | Some t =>
    let mt := tg_mt (tt_spec t) in
    if tt_Deleting t then handleDeletion t
    else if negb (tt_Finalizer t) then _ ← target_write (with_finalizer true); mret (mkCtrlResult None)
    else
      cleaned ← on_cleanup (reconcileCleanup now mt) (fs_core (tt_Status t));
      let '(r, core) := cleaned in
      let st := with_core core (tt_Status t) in
      match r with
      | inl e =>
        _ ← attempt (status_update (set_cond mt conditionTypeCleanup ConditionFalse "CleanupError" (err_text e) st));
        fail (TApi e)
      | inr _ => _ ← reconcile_objects (tt_spec t) st; finish (tt_spec t) st
      end
  end.
End target.

(** * Lemmas *)

(** ** Totals *)

(** All that the counts depend on. *)
Definition counted (e : ImageEntry) : bool * bool := (isMirrored e, PermanentlyFailed e).

Lemma Counts_counted m1 m2 : counted <$> m1 = counted <$> m2 → Counts m1 = Counts m2.
Proof.
  intros E.
  set (f := λ (_ : string) (p : bool * bool) c,
    if p.1 then mkCounts (c_total c) (c_mirrored c + 1) (c_pending c) (c_failed c)
    else if p.2 then mkCounts (c_total c) (c_mirrored c) (c_pending c) (c_failed c + 1)
    else mkCounts (c_total c) (c_mirrored c) (c_pending c + 1) (c_failed c)).
  assert (Hf : ∀ m, Counts m = map_fold f (mkCounts (Z.of_nat (size (counted <$> m))) 0 0 0) (counted <$> m)).
  { intros m. unfold Counts. rewrite map_fold_fmap, map_size_fmap. done. }
  by rewrite !Hf, E.
Qed.

Lemma counted_view ownerMeta d n e : counted (json_entry (ownerView ownerMeta d n e)) = counted e.
Proof. unfold ownerView. destruct (meta_of _ _ _); by destruct e. Qed.

Section totals.
Context `{Kube} `{NameSum}.

(** Loading from a healthy API server. *)
Lemma on_cluster_ok {A} (m : API A) (w : World) a c' :
  m (tw_cluster w) = (inr a, c') → on_cluster m w = (inr a, set_tw_cluster c' w).
Proof. intros E. unfold on_cluster. by rewrite E. Qed.

Lemma merge_states_ok names (S : string → gmap string (option ImageEntry)) merged any (w : World) :
  healthy (tw_cluster w) → (∀ n, n ∈ names → loaded (cl_cms (tw_cluster w)) (ConfigMapName n) = Some (S n)) →
  ∃ merged' any' c', merge_states names merged any w = (inr (merged', any'), set_tw_cluster c' w) ∧
    (any' = true ↔ any = true ∨ ∃ n, n ∈ names ∧ S n ≠ ∅) ∧
    (∀ d x, merged' !! d = Some x → merged !! d = Some x ∨ ∃ n, n ∈ names ∧ S n !! d = Some x) ∧
    (∀ d, is_Some (merged !! d) ∨ (∃ n, n ∈ names ∧ is_Some (S n !! d)) → is_Some (merged' !! d)).
Proof.
  revert merged any w. induction names as [|n names IH]; intros merged any w Hc HS.
  { exists merged, any, (tw_cluster w). cbn. split_and!; [by destruct w| |by left|].
    - split; [by left|]. intros [?|(n & ?%elem_of_nil & _)]; done.
    - intros d [?|(n & ?%elem_of_nil & _)]; done. }
  cbn [merge_states]. rewrite attempt_bind.
  destruct (LoadByConfigMapName_ok (ConfigMapName n) (tw_cluster w) (S n) Hc) as (c1 & E1 & Hc1 & S1); [apply HS; by left|].
  unfold Load. rewrite (on_cluster_ok _ w _ _ E1). cbn [fst snd].
  destruct (IH (S n ∪ merged) (if decide (S n = ∅) then any else true) (set_tw_cluster c1 w) Hc1) as (merged' & any' & c' & E & Ha & Hv & Hd).
  { intros n' Hn'. cbn. rewrite S1. apply HS. by right. }
  exists merged', any', c'. split_and!; [exact E| | |].
  - rewrite Ha. case_decide as Hemp; setoid_rewrite elem_of_cons; [naive_solver|].
    split; [intros _; right; exists n; naive_solver|by left].
  - intros d x Hx. destruct (Hv d x Hx) as [[Hl|[_ Hr]]%lookup_union_Some_raw|(n' & Hn' & Hx')]; [|by left|].
    + right. exists n. split; [by left|done].
    + right. exists n'. split; [by right|done].
  - intros d Hs. apply Hd. rewrite lookup_union_is_Some. setoid_rewrite elem_of_cons in Hs. naive_solver.
Qed.

Context (mt : MirrorTarget) (m : MirrorManager).

(** What the state of an ImageSet holds after a flush. *)
Definition flushed (n : string) : gmap string (option ImageEntry) := Some <$> copy m n.

Lemma flushed_loaded n : decode (saved_cm mt m n) = inr (flushed n).
Proof.
  unfold saved_cm, flushed, copy. unfold state_cm, decode. cbn. f_equal.
  apply map_eq. intros d. unfold encode, all_set. rewrite !lookup_fmap. by destruct (flush_state m n !! d).
Qed.

Lemma flushed_lookup n d x :
  flushed n !! d = Some x ↔ ∃ e, imageState m !! d = Some e ∧ n ∈ owners_of (owners m) d ∧ x = Some (json_entry (ownerView (ownerMeta m) d n e)).
Proof.
  unfold flushed, copy, flush_state. rewrite !lookup_fmap, map_lookup_imap. destruct (imageState m !! d) as [e|]; cbn; [|naive_solver].
  destruct (containsString _ n) eqn:Ec; cbn.
  - apply existsb_eqb in Ec. naive_solver.
  - split; [done|]. intros (e' & _ & Hn & _). apply not_true_iff_false in Ec. destruct Ec. by apply existsb_eqb.
Qed.

(** The merged states hold the counted images, with their classes. *)
Lemma merged_counted (merged : gmap string (option ImageEntry)) :
  (∀ d x, merged !! d = Some x → ∃ n, n ∈ mt_ImageSets mt ∧ flushed n !! d = Some x) →
  (∀ d, (∃ n, n ∈ mt_ImageSets mt ∧ is_Some (flushed n !! d)) → is_Some (merged !! d)) →
  counts_loaded merged = Some (Counts (countedLocked mt m)).
Proof.
  intros Hv Hd. unfold counts_loaded. rewrite bool_decide_eq_true_2.
  2:{ intros d x Hx. destruct (Hv d x Hx) as (n & _ & (e & _ & _ & ->)%flushed_lookup). by eexists. }
  f_equal. apply Counts_counted. apply map_eq. intros d. rewrite !lookup_fmap, lookup_omap.
  unfold countedLocked. rewrite map_lookup_filter.
  destruct (merged !! d) as [x|] eqn:Ex; cbn.
  - destruct (Hv d x Ex) as (n & Hn & (e & He & Ho & ->)%flushed_lookup). rewrite He. cbn.
    rewrite option_guard_True; [cbn; by rewrite counted_view|].
    apply existsb_elem. exists n. split; [done|]. by apply existsb_eqb.
  - destruct (imageState m !! d) as [e|] eqn:He; cbn; [|done]. rewrite option_guard_False; [done|].
    intros (n & Ho & Hn)%existsb_elem. apply existsb_eqb in Hn. destruct (Hd d) as [x Hx]; [|congruence].
    exists n. split; [done|]. eexists. apply flushed_lookup. eauto.
Qed.
End totals.

(** ** Aggregation *)

Definition stored_summary (cms : gmap string ConfigMap) (mtName : string) : option Summary :=
  cms !! SummaryConfigMapName mtName ≫= λ cm, parseSummary (cm_Data cm).

Lemma LoadSummary_ok mtName c :
  healthy c → ∃ c', LoadSummary mtName c = (inr (stored_summary (cl_cms c) mtName), c') ∧ healthy c' ∧ cl_cms c' = cl_cms c.
Proof.
  intros Hc. unfold LoadSummary, stored_summary. rewrite attempt_bind.
  destruct (api_get_healthy (SummaryConfigMapName mtName) c Hc) as [E Hh].
  exists (snd (api_get (SummaryConfigMapName mtName) c)). split_and!; [|done|apply api_get_cms].
  rewrite E. by destruct (cl_cms c !! _).
Qed.

Lemma flush_summary mt names m c :
  healthy c →
  ∃ cm, cl_cms (snd (flushPartitionedState mt names m c)) !! SummaryConfigMapName (mt_Name mt) = Some cm ∧
    cm_Data cm = summary_data (mkSummary (sort_strings (mt_ImageSets mt)) (Counts (countedLocked mt m))).
Proof.
  intros Hc. unfold flushPartitionedState. destruct (flush_all_healthy mt m names c Hc) as (c1 & E1 & Hc1 & _).
  rewrite (bind_inr _ _ _ _ _ E1), attempt_bind.
  destruct (SaveIndex_frame (mt_Name mt) (flush_index m) (Some (mt_Name mt)) c1 Hc1) as (_ & Hc2 & _).
  set (c2 := snd (SaveIndex _ _ _ c1)) in *. clearbody c2. set (sm := mkSummary _ _).
  destruct (SaveSummary_frame (mt_Name mt) sm (Some (mt_Name mt)) c2 Hc2) as (E3 & _ & _).
  assert (E4 : saveSummary mt m c2 = (inr true, snd (SaveSummary (mt_Name mt) sm (Some (mt_Name mt)) c2))).
  { unfold saveSummary. fold sm. by rewrite attempt_bind, E3. }
  rewrite (bind_inr _ _ _ _ _ E4). cbn [snd]. by apply SaveSummary_stored.
Qed.

Lemma Counts_range state : (Z.of_nat (size state) ≤ max_int64)%Z →
  Forall (λ z, min_int64 ≤ z ≤ max_int64)%Z [c_total (Counts state); c_mirrored (Counts state); c_pending (Counts state); c_failed (Counts state)].
Proof.
  intros Hs. destruct (Counts_partition state) as [E Hsum].
  assert (Hc : ∀ f, (0 ≤ count_if f state)%Z) by (intros; unfold count_if; lia).
  pose proof (Hc isMirrored). pose proof (Hc isPending). pose proof (Hc isFailed).
  rewrite E in *. cbn in *. assert (min_int64 ≤ 0)%Z by (unfold min_int64; lia). repeat constructor; cbn; lia.
Qed.

Lemma sorted_names l : Forall (λ n, has_char "," n = false ∧ n ≠ "") l → Forall (λ n, has_char "," n = false ∧ n ≠ "") (sort_strings l).
Proof. intros Hl. unfold sort_strings. by rewrite merge_sort_Permutation. Qed.

Section aggregate.
Context `{Kube} `{NameSum} (mt : MirrorTarget).

Abbreviation CTX := (M World terr).

Lemma any_call_ok (w : World) : healthy (tw_cluster w) →
  ∃ c', any_call w = (inr tt, set_tw_cluster c' w) ∧ healthy c' ∧ cl_cms c' = cl_cms (tw_cluster w).
Proof.
  intros Hc. unfold any_call. destruct (call_healthy (λ cms, (inr tt, cms)) (tw_cluster w) Hc) as [E Hh].
  eexists. rewrite (on_cluster_ok _ w tt _ E). by split_and!.
Qed.

(** The answer of a healthy API server, by the summary or by the states. *)
Lemma aggregate_ok st (w : World) :
  healthy (tw_cluster w) →
  let names := sort_strings (mt_ImageSets mt) in
  let summaries := map (set_summary (tw_sets w)) names in
  match stored_summary (cl_cms (tw_cluster w)) (mt_Name mt) with
  | Some s =>
    s_ImageSets s = names →
    fst (aggregateImageSetStatus mt st w) = inr (mkFullStatus (fs_core st) (s_counts s) summaries)
  | None => True
  end ∧
  ((∀ s, stored_summary (cl_cms (tw_cluster w)) (mt_Name mt) = Some s → s_ImageSets s ≠ names) →
   ∃ c', healthy c' ∧ cl_cms c' = cl_cms (tw_cluster w) ∧
     fst (aggregateImageSetStatus mt st w) =
     match fst (derived_totals mt summaries (set_tw_cluster c' w)) with
     | inl e => inl e
     | inr totals => inr (mkFullStatus (fs_core st) totals summaries)
     end).
Proof.
  intros Hc names summaries. unfold aggregateImageSetStatus. fold names.
  destruct (any_call_ok w Hc) as (c1 & E1 & Hc1 & S1). rewrite (bind_inr _ _ _ _ _ E1), getS_bind, attempt_bind. cbn [tw_sets set_tw_cluster].
  fold summaries. destruct (LoadSummary_ok (mt_Name mt) c1 Hc1) as (c2 & E2 & Hc2 & S2).
  rewrite (on_cluster_ok _ (set_tw_cluster c1 w) _ _ E2). rewrite S1. cbn [fst snd].
  assert (Hb : ∀ (M : CTX counts) w', fst ((totals ← M; mret (mkFullStatus (fs_core st) totals summaries)) w') =
    match fst (M w') with inl e => inl e | inr totals => inr (mkFullStatus (fs_core st) totals summaries) end).
  { intros M w'. rewrite bind_eq. by destruct (M w') as [[e|a] w'']. }
  destruct (stored_summary (cl_cms (tw_cluster w)) (mt_Name mt)) as [s|]; split.
  - intros Hs. rewrite Hb, bool_decide_eq_true_2 by done. done.
  - intros Hs. exists c2. split_and!; [done|congruence|]. rewrite Hb, bool_decide_eq_false_2 by by apply Hs. done.
  - done.
  - intros _. exists c2. split_and!; [done|congruence|]. apply Hb.
Qed.
End aggregate.

(** ** What the cleanup leaves of the status *)

Section tracking.
Context `{NameSum} (mt : MirrorTarget).

Abbreviation squiet := (Effects.quiet ct_status).

Lemma squiet_lift {A} (m : API A) : squiet (lift m).
Proof. intros s. unfold lift. by destruct (m (ct_cluster s)). Qed.
Lemma squiet_job_call {A} (f : gmap string Job → (apiErr + A) * gmap string Job) : squiet (job_call f).
Proof. intros s. unfold job_call. destruct (cl_faults (ct_cluster s)) as [|[] fs]; [|done|]; by destruct (f (ct_jobs s)). Qed.
Hint Resolve squiet_lift squiet_job_call : oc.

Lemma squiet_createCleanupJob n snap : squiet (createCleanupJob mt n snap).
Proof.
  unfold createCleanupJob, job_get, job_delete, job_create. apply quiet_bind; [auto with oc|].
  intros [e|j]; [auto with oc|]. destruct (_ || _); auto with oc.
Qed.
Lemma squiet_isPendingCleanup n : squiet (isPendingCleanup mt n).
Proof.
  unfold isPendingCleanup, job_get, job_delete. apply quiet_bind; [auto with oc|].
  intros [[[]|]|j]; try by auto with oc.
  - apply quiet_bind; [auto with oc|]. intros [e|cm]; [auto with oc|].
    apply quiet_bind; [apply quiet_attempt, squiet_createCleanupJob|auto with oc].
  - destruct (0 <? _)%Z; [auto with oc|]. destruct (0 <? _)%Z; auto with oc.
Qed.
Lemma squiet_still_pending names : squiet (still_pending mt names).
Proof.
  induction names as [|n names IH]; [apply quiet_ret|]. cbn.
  apply quiet_bind; [apply squiet_isPendingCleanup|]. intros b. apply quiet_bind; [done|]. intros. apply quiet_ret.
Qed.
Lemma squiet_live_loop names ex live : squiet (live_loop names ex live).
Proof.
  revert live. induction names as [|n names IH]; intros live; cbn; [apply quiet_ret|].
  destruct (String.eqb n ex); [apply IH|]. apply quiet_bind; [auto with oc|]. intros st. apply IH.
Qed.

(** [n] is being cleaned up and the known ImageSets are [K]. *)
Definition tracked (n : string) (K : list string) (st : TargetStatus) : Prop :=
  n ∈ ts_PendingCleanup st ∧ ts_KnownImageSets st = K.

Context (n : string) (K : list string).
Abbreviation keeps := (Effects.keeps ct_status (tracked n K)).

Lemma keeps_append x : keeps (modS (λ s, set_Pending (pending s ++ [x]) s) : CTL unit).
Proof. intros s [Hn Hk]. split; [|done]. apply elem_of_app. by left. Qed.
Lemma keeps_squiet {A} (m : CTL A) : squiet m → keeps m.
Proof. apply keeps_quiet. Qed.
Lemma squiet_delete_cm k : squiet (delete_cm k).
Proof. unfold delete_cm. auto with oc. Qed.
Hint Resolve squiet_createCleanupJob squiet_live_loop keeps_append keeps_squiet squiet_delete_cm : oc.

Lemma keeps_reconcileOrphans : keeps (reconcileOrphans mt).
Proof.
  unfold reconcileOrphans, handover_orphans, liveDestinations, clear_orphans.
  apply keeps_bind; [|intros []; auto with oc]. apply keeps_bind; [auto with oc|]. intros orphans.
  case_decide; [auto with oc|]. destruct (negb _); [auto with oc|]. apply keeps_bind; [auto with oc|]. intros p.
  destruct (containsString p "orphans"); [auto with oc|]. apply keeps_bind; [auto with oc|]. intros live. cbv zeta.
  case_decide; [auto with oc|]. apply keeps_bind; [auto with oc|]. intros [e|[]]; [auto with oc|].
  apply keeps_bind; [auto with oc|]. intros [e|[]]; auto with oc.
Qed.

Lemma squiet_partition x : squiet (partitionAndCreateCleanupJob mt x).
Proof.
  unfold partitionAndCreateCleanupJob, liveDestinations, commit_removal.
  apply quiet_bind; [auto with oc|]. intros st. apply quiet_bind; [auto with oc|]. intros index.
  apply quiet_bind; [auto with oc|]. intros live. cbv zeta. apply quiet_bind.
  - case_decide; [auto with oc|]. apply quiet_bind; [auto with oc|]. intros [].
    apply quiet_bind; [auto with oc|]. intros [e|[]]; [|auto with oc]. apply quiet_bind; [destruct e; auto with oc|auto with oc].
  - intros created. apply quiet_bind; [|auto with oc]. apply quiet_bind; [case_decide; auto with oc|auto with oc].
Qed.
Hint Resolve squiet_partition : oc.

Lemma keeps_removed_loop removed : keeps (removed_loop mt removed).
Proof.
  induction removed as [|x removed IH]; cbn [removed_loop]; [auto with oc|]. apply keeps_bind; [auto with oc|]. intros p.
  destruct (containsString p x); [done|]. apply keeps_bind; [auto with oc|]. intros created.
  apply keeps_bind; [destruct created; auto with oc|done].
Qed.

(** The Job of a cleanup exists and has not succeeded. *)
Definition unfinished (jobs : gmap string Job) : Prop :=
  ∃ j, jobs !! cleanupJobName (mt_Name mt) n = Some j ∧ (job_Succeeded j ≤ 0)%Z.

Lemma job_get_cases name s :
  (fst (job_get name s) = inl (EApi ErrOther) ∨
   fst (job_get name s) = match ct_jobs s !! name with Some j => inr j | None => inl (EApi ErrNotFound) end) ∧
  ct_jobs (snd (job_get name s)) = ct_jobs s.
Proof.
  unfold job_get, job_call. destruct (cl_faults (ct_cluster s)) as [|[] fs]; [|by split; [left|]|];
    (destruct (ct_jobs s !! name); cbn; by split; [right|]).
Qed.

(** A check of the Job of [x] touches no other Job. *)
Definition jobs_frame {A} (name : string) (m : CTL A) : Prop :=
  ∀ s name', name' ≠ name → ct_jobs (snd (m s)) !! name' = ct_jobs s !! name'.

Lemma frame_ret {A} name (a : A) : jobs_frame name (mret a).
Proof. by intros s name'. Qed.
Lemma frame_fail {A} name e : jobs_frame (A := A) name (fail e).
Proof. by intros s name'. Qed.
Lemma frame_bind {A B} name (m : CTL A) (k : A → CTL B) : jobs_frame name m → (∀ a, jobs_frame name (k a)) → jobs_frame name (m ≫= k).
Proof.
  intros Hm Hk s name' Hne. rewrite bind_eq. destruct (fst (m s)); cbn; [by apply Hm|]. rewrite Hk by done. by apply Hm.
Qed.
Lemma frame_attempt {A} name (m : CTL A) : jobs_frame name m → jobs_frame name (attempt m).
Proof. intros Hm s name' Hne. specialize (Hm s name' Hne). unfold attempt. by destruct (m s). Qed.
Lemma frame_lift {A} name (m : API A) : jobs_frame name (lift m).
Proof. intros s name' _. unfold lift. by destruct (m (ct_cluster s)). Qed.
Lemma frame_job_call {A} name (f : gmap string Job → (apiErr + A) * gmap string Job) :
  (∀ jobs name', name' ≠ name → snd (f jobs) !! name' = jobs !! name') → jobs_frame name (job_call f).
Proof.
  intros Hf s name' Hne. specialize (Hf (ct_jobs s) name' Hne). unfold job_call.
  destruct (cl_faults (ct_cluster s)) as [|[] fs]; [|done|]; by destruct (f (ct_jobs s)).
Qed.
Lemma frame_job_get name name0 : jobs_frame name (job_get name0).
Proof. apply frame_job_call. intros jobs name' _. by destruct (jobs !! name0). Qed.
Lemma frame_job_create name j : jobs_frame name (job_create name j).
Proof. apply frame_job_call. intros jobs name' Hne. destruct (jobs !! name); cbn; [done|by rewrite lookup_insert_ne]. Qed.
Lemma frame_job_delete name : jobs_frame name (job_delete name).
Proof. apply frame_job_call. intros jobs name' Hne. destruct (jobs !! name); cbn; [by rewrite lookup_delete_ne|done]. Qed.
Hint Resolve frame_ret frame_fail frame_bind frame_attempt frame_lift frame_job_get frame_job_create frame_job_delete : oc.

Lemma frame_isPendingCleanup x : jobs_frame (cleanupJobName (mt_Name mt) x) (isPendingCleanup mt x).
Proof.
  unfold isPendingCleanup, createCleanupJob. apply frame_bind; [auto with oc|]. intros [[[]|]|j]; try by auto with oc.
  - apply frame_bind; [auto with oc|]. intros [e|cm]; [auto with oc|]. apply frame_bind; [|auto with oc].
    apply frame_attempt, frame_bind; [auto with oc|]. intros [e|j]; [auto with oc|]. destruct (_ || _); auto with oc.
  - destruct (0 <? _)%Z; [auto with oc|]. destruct (0 <? _)%Z; auto with oc.
Qed.

(** The check of an unfinished cleanup says that it is pending. *)
Lemma isPendingCleanup_unfinished s : unfinished (ct_jobs s) → fst (isPendingCleanup mt n s) = inr true.
Proof.
  intros (j & Hj & Hs). unfold isPendingCleanup. rewrite attempt_bind.
  destruct (job_get_cases (cleanupJobName (mt_Name mt) n) s) as [[-> | ->] _]; [done|]. rewrite Hj.
  assert ((0 <? job_Succeeded j)%Z = false) as -> by (apply Z.ltb_ge; lia).
  destruct (0 <? job_Failed j)%Z; [by rewrite attempt_bind|done].
Qed.

Lemma isPendingCleanup_total x s : ∃ b, fst (isPendingCleanup mt x s) = inr b.
Proof.
  unfold isPendingCleanup. rewrite attempt_bind. destruct (fst (job_get _ s)) as [[[]|]|j]; cbn; eauto.
  - rewrite attempt_bind. destruct (fst (lift _ _)); [by eauto|]. rewrite attempt_bind. cbn. eauto.
  - destruct (0 <? _)%Z; [by eauto|]. destruct (0 <? _)%Z; [|by eauto]. rewrite attempt_bind. cbn. eauto.
Qed.

Lemma still_pending_unfinished names s :
  (∀ x, x ∈ names → cleanupJobName (mt_Name mt) x = cleanupJobName (mt_Name mt) n → x = n) →
  unfinished (ct_jobs s) → n ∈ names → ∃ l, fst (still_pending mt names s) = inr l ∧ n ∈ l.
Proof.
  revert s. induction names as [|x names IH]; intros s Hinj Hu Hn; [by apply not_elem_of_nil in Hn|]. cbn [still_pending].
  rewrite bind_eq. destruct (isPendingCleanup_total x s) as [b Eb]. rewrite Eb. set (s1 := snd (isPendingCleanup mt x s)).
  assert (Htotal : ∀ names s, ∃ l, fst (still_pending mt names s) = inr l).
  { clear. induction names as [|x names IH]; intros s; cbn; [by eauto|]. rewrite bind_eq.
    destruct (isPendingCleanup_total x s) as [b ->]. rewrite bind_eq. destruct (IH (snd (isPendingCleanup mt x s))) as [l ->]. cbn. eauto. }
  rewrite bind_eq. destruct (decide (x = n)) as [->|Hne].
  - rewrite isPendingCleanup_unfinished in Eb by done. injection Eb as <-. destruct (Htotal names s1) as [l ->]. cbn. eexists. split; [done|left].
  - destruct (IH s1) as (l & -> & Hl).
    + intros y Hy. apply Hinj. by right.
    + destruct Hu as (j & Hj & Hs). exists j. split; [|done]. unfold s1. rewrite frame_isPendingCleanup; [done|].
      intros E. apply Hne, Hinj; [left|done].
    + apply elem_of_cons in Hn as [<-|Hn]; done.
    + cbn. eexists. split; [done|]. destruct b; [by right|done].
Qed.

Lemma checkPendingCleanups_tracked s :
  (∀ x, x ∈ pending s → cleanupJobName (mt_Name mt) x = cleanupJobName (mt_Name mt) n → x = n) →
  unfinished (ct_jobs s) → tracked n K (ct_status s) → tracked n K (ct_status (snd (checkPendingCleanups mt s))).
Proof.
  intros Hinj Hu [Hn HK]. unfold checkPendingCleanups. rewrite getS_bind, bind_eq.
  destruct (still_pending_unfinished (pending s) s Hinj Hu Hn) as (l & -> & Hl). cbn.
  rewrite squiet_still_pending. by split.
Qed.

Lemma reconcileCleanup_tracked now s :
  (∀ x, x ∈ pending s → cleanupJobName (mt_Name mt) x = cleanupJobName (mt_Name mt) n → x = n) →
  unfinished (ct_jobs s) → tracked n K (ct_status s) → tracked n K (ct_status (snd (reconcileCleanup now mt s))).
Proof.
  intros Hinj Hu Ht. unfold reconcileCleanup. rewrite getS_bind. set (removed := removed_sets mt (ct_status s)).
  rewrite bind_eq. pose proof (checkPendingCleanups_tracked s Hinj Hu Ht) as H1.
  destruct (fst (checkPendingCleanups mt s)) as [e|[]]; [done|]. set (s1 := snd (checkPendingCleanups mt s)) in *. clearbody s1.
  match goal with |- tracked _ _ (ct_status (snd (?m s1))) => enough (Hm : keeps m) by by apply Hm end.
  apply keeps_bind; [apply keeps_reconcileOrphans|]. intros []. apply keeps_bind.
  - unfold reconcileRemovedImageSets. destruct removed; [auto with oc|]. destruct (negb _); [auto with oc|]. apply keeps_removed_loop.
  - intros [] s2 [Hn HK]. unfold modS. cbn. unfold cleanup_condition. unfold tracked.
    destruct (ts_PendingCleanup (ct_status s2)) eqn:Ep; [by apply not_elem_of_nil in Hn|]. done.
Qed.
End tracking.

(** ** Sequences of the controller *)

Section steps.
Context `{KubeLaws} `{NameSum} (env : OperatorEnv) (err_text : ctlErr → string) (now : Z).
Abbreviation CTX := (M World terr).

(** The persisted target satisfies [P] as long as every status that is written
    does. *)
Definition holds (P : Target → Prop) (w : World) : Prop := ∃ t, tw_target w = Some t ∧ P t.
Abbreviation keepsT P := (Effects.keeps (λ w : World, w) (holds P)).

Lemma keeps_on_cluster P {A} (m : API A) : keepsT P (on_cluster m).
Proof. intros w Hw. unfold on_cluster. by destruct (m (tw_cluster w)). Qed.
Lemma keeps_on_kube P {A} (m : M kube string A) : keepsT P (on_kube m).
Proof. intros w Hw. unfold on_kube. by destruct (m (tw_kube w)). Qed.
Lemma keeps_getS P {A} (f : World → A) : keepsT P (getS f : CTX A).
Proof. by intros w. Qed.
Lemma keeps_ret P {A} (a : A) : keepsT P (mret a : CTX A).
Proof. by intros w. Qed.
Lemma keeps_fail P {A} e : keepsT P (fail e : CTX A).
Proof. by intros w. Qed.
Hint Resolve keeps_on_cluster keeps_on_kube keeps_getS keeps_ret keeps_fail : oc.

Lemma keeps_any_call P : keepsT P (any_call : CTX unit).
Proof. apply keeps_on_cluster. Qed.
Hint Resolve keeps_any_call : oc.

Lemma keeps_target_write (P : Target → Prop) f : (∀ t, P t → P (f t)) → keepsT P (target_write f).
Proof.
  intros Hf. unfold target_write. apply keeps_bind; [auto with oc|]. intros [].
  intros w (t & Et & Pt). rewrite getS_bind, Et. unfold modS. exists (f t). split; [done|auto].
Qed.

Lemma keeps_merge_states P names merged any : keepsT P (merge_states names merged any : CTX _).
Proof.
  revert merged any. induction names as [|x names IH]; intros merged any; cbn; [auto with oc|].
  apply keeps_bind; [auto with oc|]. intros [e|st]; apply IH.
Qed.

Lemma keeps_aggregate P mt st : keepsT P (aggregateImageSetStatus mt st : CTX _).
Proof.
  assert (Hd : ∀ l, keepsT P (derived_totals mt l : CTX _)).
  { intros l. unfold derived_totals. apply keeps_bind; [apply keeps_merge_states|]. intros [merged any].
    destruct (negb any); [auto with oc|]. destruct (counts_loaded merged); auto with oc. }
  unfold aggregateImageSetStatus. apply keeps_bind; [auto with oc|]. intros []. apply keeps_bind; [auto with oc|]. intros l.
  apply keeps_bind; [auto with oc|]. intros r. apply keeps_bind; [|auto with oc].
  destruct r as [e|[s|]]; [auto with oc| |auto with oc]. destruct (bool_decide _); auto with oc.
Qed.

Lemma aggregate_core mt st (w : World) st' : fst (aggregateImageSetStatus mt st w) = inr st' → fs_core st' = fs_core st.
Proof.
  unfold aggregateImageSetStatus. rewrite bind_eq. destruct (fst (any_call w)); [done|]. rewrite getS_bind, attempt_bind, bind_eq.
  match goal with |- context [match fst ?x with _ => _ end] => destruct (fst x) end; [done|]. cbn. by intros [= <-].
Qed.

(** *** An unfinished cleanup *)

Context (spec : TargetSpec) (n : string) (K : list string).
Definition still_tracked (t : Target) : Prop := tt_spec t = spec ∧ tracked n K (fs_core (tt_Status t)).

Lemma keeps_status_update st : tracked n K (fs_core st) → keepsT still_tracked (status_update st).
Proof. intros Ht. apply keeps_target_write. by intros t [Hs _]. Qed.

Lemma tracked_set_cond mt type status reason message st :
  tracked n K (fs_core st) → tracked n K (fs_core (set_cond now mt type status reason message st)).
Proof. done. Qed.

Lemma tracked_advance mt st : tracked n K st → tracked n K (advance_known mt st).
Proof. intros [Hn HK]. unfold advance_known, tracked. destruct (ts_PendingCleanup st) eqn:E; [by apply not_elem_of_nil in Hn|]. by rewrite E. Qed.
Hint Resolve keeps_status_update tracked_set_cond tracked_advance : oc.

Lemma keeps_ensure mt st m : tracked n K (fs_core st) → keepsT still_tracked (ensure now mt st m).
Proof.
  intros Ht w Hw. unfold ensure. pose proof (keeps_on_kube still_tracked m w Hw) as Hk.
  destruct (on_kube m w) as [[[e|e|]|a] w1]; try done. cbn in Hk.
  pose proof (keeps_status_update (set_cond now mt conditionTypeReady ConditionFalse reasonReconcileError e st) Ht w1 Hk) as Hu.
  by destruct (status_update _ w1).
Qed.
Hint Resolve keeps_ensure : oc.

Lemma keeps_finish t st : tracked n K (fs_core st) → keepsT still_tracked (finish now t st).
Proof.
  intros Ht. unfold finish. apply keeps_bind; [auto with oc|]. intros exposed. cbv zeta.
  set (st1 := match exposed with inl (TKube e) => _ | inl _ => _ | inr _ => _ end).
  assert (Ht1 : tracked n K (fs_core st1)) by (unfold st1; by repeat case_match).
  assert (Ht2 : tracked n K (fs_core (with_core (advance_known (tg_mt t) (fs_core st1)) st1))) by by apply tracked_advance.
  set (st2 := with_core _ st1) in *. clearbody st2. clear st1 Ht1. intros w Hw. rewrite attempt_bind.
  pose proof (keeps_aggregate still_tracked (tg_mt t) st2 w Hw) as Ha.
  pose proof (aggregate_core (tg_mt t) st2 w) as Hc. set (r := aggregateImageSetStatus (tg_mt t) st2 w) in *. clearbody r.
  assert (Hfin : ∀ st3, tracked n K (fs_core st3) → holds still_tracked (snd ((_ ← status_update st3; mret (mkCtrlResult (Some
    (match ts_PendingCleanup (fs_core st3) with [] => (10 * minute)%Z | _ => (30 * second)%Z end))) : CTX CtrlResult) (snd r)))).
  { intros st3 H3. by apply (keeps_bind _ _ _ _ (keeps_status_update st3 H3) (λ _, keeps_ret _ _)). }
  destruct (fst r) as [[]|st3] eqn:Er; [by apply Hfin..|done|]. apply Hfin. by rewrite Hc.
Qed.

Lemma Reconcile_tracked w :
  holds still_tracked w →
  (∀ t, tw_target w = Some t → tt_Deleting t = false ∧
     (∀ x, x ∈ ts_PendingCleanup (fs_core (tt_Status t)) →
        cleanupJobName (mt_Name (tg_mt spec)) x = cleanupJobName (mt_Name (tg_mt spec)) n → x = n)) →
  unfinished (tg_mt spec) n (tw_jobs w) →
  holds still_tracked (snd (Reconcile env err_text now w)).
Proof.
  intros Hw Ht Hu. unfold Reconcile. rewrite bind_eq. pose proof (keeps_any_call still_tracked w Hw) as Hac.
  assert (Hframe : tw_target (snd (any_call w)) = tw_target w ∧ tw_jobs (snd (any_call w)) = tw_jobs w).
  { unfold any_call, on_cluster. by destruct (call _ (tw_cluster w)). }
  destruct (fst (any_call w)) as [e|[]]; [done|]. set (w1 := snd (any_call w)) in *. clearbody w1. destruct Hframe as [Ft Fj].
  rewrite getS_bind, Ft. destruct Hw as (t & Et & Hs & Htr). rewrite Et. destruct (Ht t Et) as [Hdel Hinj]. rewrite Hdel.
  assert (Hw1 : holds still_tracked w1) by (exists t; by rewrite Ft).
  destruct (negb (tt_Finalizer t)).
  { apply (keeps_bind (λ w : World, w) (holds still_tracked)); [|intros ?; apply keeps_ret|exact Hw1]. apply keeps_target_write. by intros t'. }
  rewrite bind_eq. unfold on_cleanup. rewrite Hs.
  pose proof (reconcileCleanup_tracked (tg_mt spec) n K now (mkCtl (tw_cluster w1) (tw_jobs w1) (fs_core (tt_Status t)))) as Hcl.
  destruct (reconcileCleanup now (tg_mt spec) _) as [r sc]. cbn [fst snd ct_status ct_jobs] in *.
  assert (Hcore : tracked n K (ct_status sc)) by (apply Hcl; [done|by rewrite Fj|done]).
  assert (Hw2 : holds still_tracked (mkWorld (ct_cluster sc) (ct_jobs sc) (tw_kube w1) (tw_pods w1) (tw_sets w1) (tw_target w1))).
  { exists t. cbn. by rewrite Ft. }
  destruct r as [e|[]].
  - apply (keeps_bind (λ w : World, w) (holds still_tracked)); [|intros ?; apply keeps_fail|exact Hw2].
    apply keeps_attempt, keeps_status_update. done.
  - apply (keeps_bind (λ w : World, w) (holds still_tracked)); [|intros ?; by apply keeps_finish|exact Hw2].
    unfold reconcile_objects. repeat (apply keeps_bind; [by apply keeps_ensure|intros ?]). by apply keeps_ensure.
Qed.

(** *** Deletion *)

Lemma any_call_frame w : snd (any_call w) = set_tw_cluster (tw_cluster (snd (any_call w))) w.
Proof. unfold any_call, on_cluster. by destruct (call _ (tw_cluster w)). Qed.

Lemma target_write_frame f w : tw_pods (snd (target_write f w)) = tw_pods w ∧ tw_kube (snd (target_write f w)) = tw_kube w.
Proof.
  unfold target_write. rewrite bind_eq. pose proof (any_call_frame w) as Ha. destruct (fst (any_call w)) as [e|[]]; cbn.
  - by rewrite Ha.
  - rewrite getS_bind. destruct (tw_target (snd (any_call w))); cbn; by rewrite Ha.
Qed.

Lemma delete_deployment_spec key w :
  let w' := snd (delete_deployment key w) in
  w' = set_tw_kube (tw_kube w') w ∧
  (fst (delete_deployment key w) = inr tt →
     (∃ e, fst (GetObject key (tw_kube w)) = inl e ∧ e ≠ KNotFound) ∨ objects (tw_kube w') !! key = None).
Proof.
  cbv zeta. unfold delete_deployment. pose proof (GetObject_ok (tw_kube w) key) as Hg.
  destruct (GetObject key (tw_kube w)) as [r k] eqn:Eg. destruct Hg as (Ho & Hf & Hn). destruct r as [e|o].
  - split; [done|]. intros _. cbn. destruct e; [right; rewrite Ho; by apply Hn|left; by eexists|left; by eexists].
  - pose proof (DeleteObject_ok k key) as Hd. destruct (DeleteObject key k) as [[[]|[]] k']; cbn; (split; [done|]); try done.
    + intros _. right. by destruct Hd as [? ->].
    + intros _. right. by rewrite Hd, lookup_delete_eq.
Qed.

Lemma keeps_delete_pods P pods : keepsT P (delete_pods pods : CTX unit).
Proof.
  induction pods as [|p pods IH]; cbn; [auto with oc|]. apply keeps_bind; [|done].
  destruct (tp_Deleting p); [auto with oc|]. apply keeps_bind; [auto with oc|]. intros []. by intros w.
Qed.

Lemma handleDeletion_waits t w :
  tw_target w = Some t → tt_Finalizer t = true →
  let key := ("Deployment", tg_Namespace (tt_spec t), mt_Name (tg_mt (tt_spec t)) +:+ "-manager") in
  let w' := snd (handleDeletion t w) in
  holds (λ t, tt_Finalizer t = true) w' ∨
  (List.filter (of_target (mt_Name (tg_mt (tt_spec t)))) (tw_pods w) = [] ∧ tw_pods w' = tw_pods w ∧
   ((∃ e, fst (GetObject key (tw_kube w)) = inl e ∧ e ≠ KNotFound) ∨ objects (tw_kube w') !! key = None)).
Proof.
  intros Et Hf key w'. unfold w', handleDeletion. rewrite Hf. cbn [negb]. fold key. set (name := mt_Name _).
  set (P := λ t : Target, tt_Finalizer t = true). assert (HP : holds P w) by by exists t.
  destruct (delete_deployment_spec key w) as [Hk Hd]. rewrite bind_eq.
  assert (HP1 : holds P (snd (delete_deployment key w))) by (rewrite Hk; exact HP).
  destruct (fst (delete_deployment key w)) as [e|[]]; [by left|]. specialize (Hd eq_refl).
  set (w1 := snd (delete_deployment key w)) in *. assert (Hp1 : tw_pods w1 = tw_pods w) by by rewrite Hk.
  clearbody w1. rewrite bind_eq. pose proof (any_call_frame w1) as Ha. pose proof (keeps_any_call P w1 HP1) as HP2.
  destruct (fst (any_call w1)) as [e|[]]; [by left|]. set (w2 := snd (any_call w1)) in *. clearbody w2.
  rewrite getS_bind. assert (Hp2 : tw_pods w2 = tw_pods w) by by rewrite Ha. rewrite Hp2.
  assert (Hk2 : tw_kube w2 = tw_kube w1) by by rewrite Ha.
  destruct (List.filter (of_target name) (tw_pods w)) as [|p pods].
  - right. split; [done|]. cbn [delete_pods]. rewrite (bind_inr (mret tt) _ w2 w2 tt eq_refl).
    destruct (target_write_frame (with_finalizer false) w2) as [Fp Fk].
    assert (Hsnd : snd ((_ ← target_write (with_finalizer false); mret (mkCtrlResult None) : CTX CtrlResult) w2) =
      snd (target_write (with_finalizer false) w2)) by (rewrite bind_eq; by destruct (fst (target_write _ w2))).
    rewrite Hsnd, Fp, Fk, Hp2, Hk2. done.
  - left. apply (keeps_bind (λ w : World, w) (holds P)); [apply keeps_delete_pods|intros []; apply keeps_ret|exact HP2].
Qed.

(** *** Deployment *)

(** A step that succeeds is the update of the objects, and nothing else. *)
Definition lifts {A} (m : CTX A) (km : M kube string A) : Prop :=
  ∀ w a, fst (m w) = inr a → fst (km (tw_kube w)) = inr a ∧ snd (m w) = set_tw_kube (snd (km (tw_kube w))) w.

Lemma lifts_bind {A B} (m : CTX A) km (f : A → CTX B) kf :
  lifts m km → (∀ a, lifts (f a) (kf a)) → lifts (m ≫= f) (km ≫= kf).
Proof.
  intros Hm Hf w b. rewrite !bind_eq. specialize (Hm w). destruct (fst (m w)) as [e|a]; [done|].
  destruct (Hm a eq_refl) as [-> ->]. intros Hb. destruct (Hf a _ b Hb) as [H2 H3]. cbn in *. split; [exact H2|]. by rewrite H3.
Qed.

Lemma lifts_ensure mt st m : lifts (ensure now mt st m) m.
Proof.
  intros w a. unfold ensure, on_kube. destruct (m (tw_kube w)) as [[e|x] k]; cbn.
  { by destruct (status_update _ _). }
  intros [= ->]. done.
Qed.

Lemma lifts_reconcile_objects t st : lifts (reconcile_objects env now t st) (ensure_objects env t).
Proof. unfold reconcile_objects, ensure_objects. repeat (apply lifts_bind; [apply lifts_ensure|intros ?]). apply lifts_ensure. Qed.

(** Only the fault schedule moves on. *)
Definition only_cluster {A} (m : CTX A) : Prop := ∀ w, snd (m w) = set_tw_cluster (tw_cluster (snd (m w))) w.
Lemma only_ret {A} (a : A) : only_cluster (mret a).
Proof. by intros []. Qed.
Lemma only_fail {A} e : only_cluster (fail e : CTX A).
Proof. by intros []. Qed.
Lemma only_getS {A} (f : World → A) : only_cluster (getS f).
Proof. by intros []. Qed.
Lemma only_on_cluster {A} (m : API A) : only_cluster (on_cluster m).
Proof. intros w. unfold on_cluster. by destruct (m (tw_cluster w)). Qed.
Lemma only_bind {A B} (m : CTX A) (f : A → CTX B) : only_cluster m → (∀ a, only_cluster (f a)) → only_cluster (m ≫= f).
Proof.
  intros Hm Hf w. rewrite bind_eq. specialize (Hm w). destruct (fst (m w)) as [e|a]; cbn; [done|].
  specialize (Hf a (snd (m w))). rewrite Hf at 1. by rewrite Hm.
Qed.
Lemma only_attempt {A} (m : CTX A) : only_cluster m → only_cluster (attempt m).
Proof. intros Hm w. specialize (Hm w). unfold attempt. by destruct (m w). Qed.
Lemma only_any_call : only_cluster (any_call : CTX unit).
Proof. apply only_on_cluster. Qed.
Hint Resolve only_ret only_fail only_getS only_on_cluster only_bind only_attempt only_any_call : oc.

Lemma only_merge_states names merged any : only_cluster (merge_states names merged any : CTX _).
Proof.
  revert merged any. induction names as [|x names IH]; intros merged any; cbn; [auto with oc|].
  apply only_bind; [auto with oc|]. intros [e|st]; apply IH.
Qed.
Lemma only_aggregate mt st : only_cluster (aggregateImageSetStatus mt st : CTX _).
Proof.
  assert (Hd : ∀ l, only_cluster (derived_totals mt l : CTX _)).
  { intros l. unfold derived_totals. apply only_bind; [apply only_merge_states|]. intros [merged any].
    destruct (negb any); [auto with oc|]. destruct (counts_loaded merged); auto with oc. }
  unfold aggregateImageSetStatus. apply only_bind; [auto with oc|]. intros []. apply only_bind; [auto with oc|]. intros l.
  apply only_bind; [auto with oc|]. intros r. apply only_bind; [|auto with oc].
  destruct r as [e|[x|]]; [auto with oc| |auto with oc]. destruct (bool_decide _); auto with oc.
Qed.

Definition ready_of (st : FullStatus) : option string :=
  cond_Status <$> List.find (λ c, String.eqb (cond_Type c) conditionTypeReady) (ts_Conditions (fs_core st)).

Lemma setCondition_find now' type status reason message gen conds :
  cond_Status <$> List.find (λ c, String.eqb (cond_Type c) type) (setCondition now' type status reason message gen conds) = Some status.
Proof.
  induction conds as [|c conds IH]; cbn [setCondition]; [cbn; by rewrite String.eqb_refl|].
  destruct (String.eqb_spec (cond_Type c) type) as [E|E]; cbn [negb].
  - cbn [List.find]. destruct (String.eqb_spec (cond_Status c) status) as [Es|Es]; cbn [negb orb].
    + destruct (_ || _ || _); cbn; rewrite (proj2 (String.eqb_eq _ _) E); cbn; congruence.
    + cbn. by rewrite (proj2 (String.eqb_eq _ _) E).
  - cbn [List.find]. by rewrite (proj2 (String.eqb_neq _ _) E).
Qed.

Lemma status_update_ok st w t :
  tw_target w = Some t → fst (status_update st w) = inr tt →
  tw_target (snd (status_update st w)) = Some (with_status st t) ∧ tw_kube (snd (status_update st w)) = tw_kube w.
Proof.
  intros Et Hok. split; [|apply target_write_frame]. revert Hok. unfold status_update, target_write. rewrite bind_eq.
  pose proof (any_call_frame w) as Ha. destruct (fst (any_call w)) as [e|[]]; [done|]. rewrite getS_bind.
  assert (tw_target (snd (any_call w)) = Some t) as -> by by rewrite Ha. done.
Qed.

Lemma finish_ok t st w tt0 r :
  tw_target w = Some tt0 → fst (finish now t st w) = inr r →
  let w' := snd (finish now t st w) in
  tw_kube w' = snd (reconcileExposure t (tw_kube w)) ∧
  ∃ st', tw_target w' = Some (with_status st' tt0) ∧
    ready_of st' = Some (match fst (reconcileExposure t (tw_kube w)) with inr _ => ConditionTrue | inl _ => ConditionFalse end).
Proof.
  intros Et. unfold finish. rewrite attempt_bind. unfold on_kube.
  destruct (reconcileExposure t (tw_kube w)) as [re k]. cbn [fst snd].
  set (st1 := match _ with inl (TKube e) => _ | inl _ => _ | inr _ => _ end). set (w1 := set_tw_kube k w).
  assert (Hr : ready_of (with_core (advance_known (tg_mt t) (fs_core st1)) st1) =
    Some (match re with inr _ => ConditionTrue | inl _ => ConditionFalse end)).
  { unfold ready_of, with_core, advance_known. cbn [fs_core]. unfold st1.
    destruct re as [e|[]]; cbn [fs_core set_cond ts_PendingCleanup ts_Conditions];
      (destruct (ts_PendingCleanup (fs_core st)); cbn [ts_Conditions]; apply setCondition_find). }
  set (st2 := with_core _ st1) in *. clearbody st2 st1. rewrite attempt_bind.
  pose proof (only_aggregate (tg_mt t) st2 w1) as Ho. pose proof (aggregate_core (tg_mt t) st2 w1) as Hc.
  destruct (aggregateImageSetStatus (tg_mt t) st2 w1) as [ra w2]. cbn [fst snd] in *.
  assert (Hfin : ∀ st3 res, ready_of st3 = ready_of st2 → fst ((_ ← status_update st3; mret res : CTX CtrlResult) w2) = inr r →
    let w' := snd ((_ ← status_update st3; mret res : CTX CtrlResult) w2) in
    tw_kube w' = k ∧ ∃ st', tw_target w' = Some (with_status st' tt0) ∧
      ready_of st' = Some (match re with inr _ => ConditionTrue | inl _ => ConditionFalse end)).
  { intros st3 res H3. rewrite bind_eq. destruct (fst (status_update st3 w2)) as [e|[]] eqn:Eu; [done|]. intros _. cbn.
    destruct (status_update_ok st3 w2 tt0) as [Ht Hk]; [by rewrite Ho|done|]. rewrite Ht, Hk. split; [by rewrite Ho|].
    exists st3. split; [done|congruence]. }
  destruct ra as [[]|st3]; [by apply Hfin..|done|]. apply Hfin. unfold ready_of. by rewrite Hc.
Qed.

Lemma Reconcile_finishes w t r :
  tw_target w = Some t → tt_Deleting t = false → tt_Finalizer t = true → fst (Reconcile env err_text now w) = inr r →
  ∃ k st', fst (ensure_objects env (tt_spec t) (tw_kube w)) = inr tt ∧ k = snd (ensure_objects env (tt_spec t) (tw_kube w)) ∧
    let w' := snd (Reconcile env err_text now w) in
    tw_kube w' = snd (reconcileExposure (tt_spec t) k) ∧ tw_target w' = Some (with_status st' t) ∧
    ready_of st' = Some (match fst (reconcileExposure (tt_spec t) k) with inr _ => ConditionTrue | inl _ => ConditionFalse end).
Proof.
  intros Et Hd Hf. unfold Reconcile. rewrite bind_eq. pose proof (any_call_frame w) as Ha.
  destruct (fst (any_call w)) as [e|[]]; [done|]. set (w1 := snd (any_call w)) in *. rewrite getS_bind.
  assert (Et1 : tw_target w1 = Some t) by by rewrite Ha. assert (Ek1 : tw_kube w1 = tw_kube w) by by rewrite Ha.
  rewrite Et1, Hd, Hf. cbn [negb]. rewrite bind_eq. unfold on_cleanup. destruct (reconcileCleanup _ _ _) as [rc sc]. cbn [fst snd].
  set (w2 := mkWorld _ _ _ _ _ _). destruct rc as [e|[]]; [rewrite attempt_bind; done|].
  set (st := with_core _ _). rewrite bind_eq. pose proof (lifts_reconcile_objects (tt_spec t) st w2) as Hl.
  destruct (fst (reconcile_objects env now (tt_spec t) st w2)) as [e|[]]; [done|]. destruct (Hl tt eq_refl) as [Hok Hw3].
  rewrite Hw3. cbn [tw_kube w2] in *. rewrite Ek1 in *. intros Hfin.
  destruct (finish_ok (tt_spec t) st (set_tw_kube (snd (ensure_objects env (tt_spec t) (tw_kube w))) w2) t r Et1 Hfin) as (Hk & st' & Ht & Hr).
  eexists _, st'. split; [exact Hok|]. split; [reflexivity|]. split_and!; [exact Hk|exact Ht|exact Hr].
Qed.
End steps.

(** ** Connections between the pods *)

(** A policy that selects a pod admits a peer on a port. *)
Definition rule_admits (rule : IngressRule) (peer : gmap string string) (port : Z) : Prop :=
  port ∈ ir_Ports rule ∧ (ir_From rule = [] ∨ ∃ sel, sel ∈ ir_From rule ∧ sel ⊆ peer).
(** Traffic to a pod: everything, unless a policy selects the pod; then what
    one of those policies admits. *)
Definition admitted (policies : list NetworkPolicySpec) (pod peer : gmap string string) (port : Z) : Prop :=
  (∀ np, np ∈ policies → ¬ np_PodSelector np ⊆ pod) ∨
  ∃ np rule, np ∈ policies ∧ np_PodSelector np ⊆ pod ∧ rule ∈ np_Ingress np ∧ rule_admits rule peer port.

Definition service_url (svc ns : string) (port : Z) : string :=
  "http://" +:+ svc +:+ "." +:+ ns +:+ ".svc.cluster.local:" +:+ Itoa port.

Lemma subseteq_app (sel labels : gmap string string) v : sel ⊆ labels → sel !! "app" = Some v → labels !! "app" = Some v.
Proof. intros Hs. apply map_subseteq_spec. exact Hs. Qed.

Lemma manager_selected name : manager_selector name ⊆ manager_labels name.
Proof. apply map_subseteq_spec. intros i x. unfold manager_selector, manager_labels. rewrite !lookup_insert_Some, !lookup_singleton_Some. naive_solver. Qed.
Lemma manager_not_worker name : ¬ worker_selector name ⊆ manager_labels name.
Proof. intros Hs. by pose proof (subseteq_app _ _ "oc-mirror-worker" Hs eq_refl). Qed.
Lemma worker_not_manager name : ¬ manager_selector name ⊆ worker_selector name.
Proof. intros Hs. by pose proof (subseteq_app _ _ "oc-mirror-manager" Hs eq_refl). Qed.

(** Every mount has its volume, under distinct names. *)
Definition mounts_backed (mounts : list VolumeMount) (volumes : list Volume) : Prop :=
  map vm_Name mounts = map vo_Name volumes ∧ NoDup (map vo_Name volumes).

(** The file a volume mounted at [dir] provides. *)
Definition provides (mounts : list VolumeMount) (volumes : list Volume) (dir file : string) : Prop :=
  ∃ name src, mkVolumeMount name dir ∈ mounts ∧ mkVolume name src ∈ volumes ∧
    match src with VSecret _ items | VConfigMap _ items => file ∈ map snd items | _ => False end.

(** The three copies of the proxy variables are in sync. *)
Lemma proxyEnvVars_catalog cfg : proxyEnvVars cfg = catalogProxyEnvVars cfg.
Proof. destruct cfg as [cfg|]; [|done]. unfold proxyEnvVars, catalogProxyEnvVars. repeat case_match; done. Qed.

Lemma mounted_env_ok fixed mounts0 volumes0 mt auth docker :
  Forall (λ e, ev_Name e ≠ "DOCKER_CONFIG" ∧ ev_Name e ≠ "SSL_CERT_FILE") fixed →
  map vm_Name mounts0 = map vo_Name volumes0 → NoDup (map vo_Name volumes0) →
  auth ∉ map vo_Name volumes0 → auth ≠ "ca-bundle" → "ca-bundle" ∉ map vo_Name volumes0 →
  let caKey ca := if String.eqb (ca_Key ca) "" then "ca-bundle.crt" else ca_Key ca in
  let env := fixed ++ (if String.eqb (mt_AuthSecret mt) "" then [] else [mkEnvVar "DOCKER_CONFIG" docker])
    ++ catalogProxyEnvVars (mt_Proxy mt)
    ++ (match mt_CABundle mt with Some ca => [mkEnvVar "SSL_CERT_FILE" ("/run/secrets/ca/" +:+ caKey ca)] | None => [] end) in
  let mounts := mounts0 ++ (if String.eqb (mt_AuthSecret mt) "" then [] else [mkVolumeMount auth docker])
    ++ (match mt_CABundle mt with Some _ => [mkVolumeMount "ca-bundle" "/run/secrets/ca"] | None => [] end) in
  let volumes := volumes0 ++ (if String.eqb (mt_AuthSecret mt) "" then []
         else [mkVolume auth (VSecret (mt_AuthSecret mt) [(".dockerconfigjson", "config.json")])])
     ++ (match mt_CABundle mt with
         | Some ca => [mkVolume "ca-bundle" (VConfigMap (ca_ConfigMapName ca) [(caKey ca, caKey ca)])]
         | None => []
         end) in
  mounts_backed mounts volumes ∧
  (∀ dir, mkEnvVar "DOCKER_CONFIG" dir ∈ env → provides mounts volumes dir "config.json") ∧
  (∀ path, mkEnvVar "SSL_CERT_FILE" path ∈ env → ∃ dir file, path = dir +:+ "/" +:+ file ∧ provides mounts volumes dir file).
Proof.
  intros Hfix Hnames Hnd Hdc Hne Hca. cbv zeta.
  assert (Hproxy : ∀ e, e ∈ catalogProxyEnvVars (mt_Proxy mt) → ev_Name e ≠ "DOCKER_CONFIG" ∧ ev_Name e ≠ "SSL_CERT_FILE").
  { intros e He. split.
    - pose proof (proxy_env_absent (mt_Proxy mt) "DOCKER_CONFIG") as Hp. rewrite Forall_forall in Hp. apply Hp; [unfold proxy_names; set_solver|done].
    - pose proof (proxy_env_absent (mt_Proxy mt) "SSL_CERT_FILE") as Hp. rewrite Forall_forall in Hp. apply Hp; [unfold proxy_names; set_solver|done]. }
  rewrite Forall_forall in Hfix.
  split_and!.
  - split; [rewrite !map_app; f_equal; [done|]; f_equal; [by destruct (String.eqb _ _)|by destruct (mt_CABundle mt)]|].
    rewrite !map_app. apply NoDup_app. split_and!; [done| |].
    + intros x Hx. destruct (String.eqb _ _), (mt_CABundle mt); cbn; rewrite ?elem_of_cons, ?elem_of_nil; intros Hin; naive_solver.
    + destruct (String.eqb _ _), (mt_CABundle mt); cbn; repeat constructor; set_solver.
  - intros dir. rewrite !elem_of_app. intros [He|[He|[He|He]]].
    + by destruct (Hfix _ He).
    + destruct (String.eqb (mt_AuthSecret mt) ""); [by apply not_elem_of_nil in He|]. apply list_elem_of_singleton in He as [= ->].
      exists auth, (VSecret (mt_AuthSecret mt) [(".dockerconfigjson", "config.json")]). split_and!; [set_solver..|]. cbn. left.
    + by destruct (Hproxy _ He).
    + destruct (mt_CABundle mt); [by apply list_elem_of_singleton in He|by apply not_elem_of_nil in He].
  - intros path. rewrite !elem_of_app. intros [He|[He|[He|He]]].
    + by destruct (Hfix _ He).
    + destruct (String.eqb (mt_AuthSecret mt) ""); [by apply not_elem_of_nil in He|by apply list_elem_of_singleton in He].
    + by destruct (Hproxy _ He).
    + destruct (mt_CABundle mt) as [ca|]; [|by apply not_elem_of_nil in He]. apply list_elem_of_singleton in He as [= ->].
      set (key := if String.eqb (ca_Key ca) "" then "ca-bundle.crt" else ca_Key ca).
      exists "/run/secrets/ca", key. split; [reflexivity|]. exists "ca-bundle", (VConfigMap (ca_ConfigMapName ca) [(key, key)]). split_and!; [set_solver..|]. cbn. left.
Qed.

(** * Theorems *)

(** The totals of a target do not depend on where they come from.  After
    the manager flushed its working set, the totals taken from its summary and
    the totals derived from the states of the ImageSets, when the summary is
    missing, unreadable or covers other ImageSets, are both the counts of the
    images the ImageSets of the target own, each counted once however many
    ImageSets share it. *)
Theorem totals_agree `{Kube} `{NameSum} mt names m c st (w1 w2 : World) :
  healthy c → (∀ n, n ∈ names ↔ n ∈ mt_ImageSets mt) →
  Forall (λ n, has_char "," n = false ∧ n ≠ "") (mt_ImageSets mt) →
  (Z.of_nat (size (countedLocked mt m)) ≤ max_int64)%Z → countedLocked mt m ≠ ∅ →
  let c1 := snd (flushPartitionedState mt names m c) in
  healthy (tw_cluster w1) → cl_cms (tw_cluster w1) = cl_cms c1 →
  healthy (tw_cluster w2) →
  (∀ n, n ∈ mt_ImageSets mt → cl_cms (tw_cluster w2) !! ConfigMapName n = cl_cms c1 !! ConfigMapName n) →
  (∀ s, stored_summary (cl_cms (tw_cluster w2)) (mt_Name mt) = Some s → s_ImageSets s ≠ sort_strings (mt_ImageSets mt)) →
  (∃ st1, fst (aggregateImageSetStatus mt st w1) = inr st1 ∧ fs_totals st1 = Counts (countedLocked mt m)) ∧
  (∃ st2, fst (aggregateImageSetStatus mt st w2) = inr st2 ∧ fs_totals st2 = Counts (countedLocked mt m)).
Proof.
  intros Hc Hn Hnames Hsize Hne c1 Hw1 E1 Hw2 E2 Hs2. split.
  - destruct (flush_summary mt names m c Hc) as (cm & Hcm & Hdata). fold c1 in Hcm.
    destruct (aggregate_ok mt st w1 Hw1) as [Ha _]. unfold stored_summary in Ha. rewrite E1, Hcm in Ha. cbn in Ha.
    rewrite Hdata, parseSummary_data in Ha; [|by apply sorted_names|by apply Counts_range].
    eexists. split; [by apply Ha|done].
  - destruct (flush_healthy mt names m c Hc) as (c1' & Ef & _ & Hcms & _).
    assert (c1 = c1') as <- by (unfold c1; by rewrite Ef).
    destruct (aggregate_ok mt st w2 Hw2) as [_ Ha]. destruct (Ha Hs2) as (c' & Hc' & S' & ->).
    unfold derived_totals. rewrite bind_eq.
    destruct (merge_states_ok (mt_ImageSets mt) (flushed m) ∅ false (set_tw_cluster c' w2) Hc') as (merged & any & c2 & -> & Hany & Hv & Hd).
    { intros n Hin. cbn. unfold loaded. rewrite S', E2, Hcms by (done || by apply Hn). by rewrite (flushed_loaded mt). }
    cbn [fst snd].
    assert (Hany' : any = true).
    { apply Hany. right. destruct (map_choose _ Hne) as (d & e & [He Ho]%map_lookup_filter_Some).
      apply existsb_elem in Ho as (n & Ho & Hin). apply existsb_eqb in Hin. exists n. split; [done|]. intros Hemp.
      assert (Hl : flushed m n !! d = Some (Some (json_entry (ownerView (ownerMeta m) d n e)))) by (apply flushed_lookup; eauto).
      by rewrite Hemp, lookup_empty in Hl. }
    rewrite Hany'. cbn [negb]. rewrite (merged_counted mt m merged).
    + eexists. split; done.
    + intros d x Hx. destruct (Hv d x Hx) as [Hemp|Hx']; [by rewrite lookup_empty in Hemp|done].
    + intros d Hx. apply Hd. by right.
Qed.

(** C23: a cleanup that is not finished is never forgotten.  Whatever calls
    fail and however the reconcile of a target ends, an ImageSet whose cleanup
    Job exists and has not succeeded stays in the persisted list of pending
    cleanups, and the known ImageSets, from which removals are detected, do not
    advance. *)
Theorem unfinished_cleanup_tracked `{KubeLaws} `{NameSum} env err_text now (w : World) t n :
  tw_target w = Some t → tt_Deleting t = false →
  n ∈ ts_PendingCleanup (fs_core (tt_Status t)) → unfinished (tg_mt (tt_spec t)) n (tw_jobs w) →
  (∀ x, x ∈ ts_PendingCleanup (fs_core (tt_Status t)) →
     cleanupJobName (mt_Name (tg_mt (tt_spec t))) x = cleanupJobName (mt_Name (tg_mt (tt_spec t))) n → x = n) →
  ∃ t', tw_target (snd (Reconcile env err_text now w)) = Some t' ∧
    n ∈ ts_PendingCleanup (fs_core (tt_Status t')) ∧
    ts_KnownImageSets (fs_core (tt_Status t')) = ts_KnownImageSets (fs_core (tt_Status t)).
Proof.
  intros Et Hd Hn Hu Hinj.
  destruct (Reconcile_tracked env err_text now (tt_spec t) n (ts_KnownImageSets (fs_core (tt_Status t))) w) as (t' & Et' & _ & Hn' & HK).
  - exists t. by split_and!.
  - intros t0. rewrite Et. intros [= <-]. done.
  - done.
  - exists t'. done.
Qed.

(** A target that is being deleted keeps its finalizer until its pods are
    gone: when a reconcile removes it, no pod of the target is left, and the
    manager, which would start new ones, is no longer deployed, unless its
    Deployment could not be read. *)
Theorem finalizer_waits_for_pods `{KubeLaws} `{NameSum} env err_text now (w : World) t :
  tw_target w = Some t → tt_Deleting t = true → tt_Finalizer t = true →
  let w' := snd (Reconcile env err_text now w) in
  let key := ("Deployment", tg_Namespace (tt_spec t), mt_Name (tg_mt (tt_spec t)) +:+ "-manager") in
  (∃ t', tw_target w' = Some t' ∧ tt_Finalizer t' = true) ∨
  ((∀ p, p ∈ tw_pods w' → of_target (mt_Name (tg_mt (tt_spec t))) p = false) ∧
   ((∃ e, fst (GetObject key (tw_kube w)) = inl e ∧ e ≠ KNotFound) ∨ objects (tw_kube w') !! key = None)).
Proof.
  intros Et Hd Hf. cbv zeta. unfold Reconcile. rewrite bind_eq. pose proof (any_call_frame w) as Ha.
  destruct (fst (any_call w)) as [e|[]]; [left; exists t; by rewrite Ha|]. set (w1 := snd (any_call w)) in *. rewrite getS_bind.
  assert (Et1 : tw_target w1 = Some t) by by rewrite Ha. rewrite Et1, Hd.
  destruct (handleDeletion_waits t w1 Et1 Hf) as [Hk|(Hp & Hpods & Hdep)]; [left; exact Hk|right].
  assert (tw_kube w1 = tw_kube w) as Ek by by rewrite Ha. rewrite Ek in Hdep. split; [|exact Hdep].
  intros p Hin. rewrite Hpods in Hin. destruct (of_target _ p) eqn:Eo; [|done].
  assert (Hx : p ∈ List.filter (of_target (mt_Name (tg_mt (tt_spec t)))) (tw_pods w1)) by by apply elem_of_filter_bool.
  rewrite Hp in Hx. by apply not_elem_of_nil in Hx.
Qed.

(** Exposing the resource API touches none of the other objects. *)
Lemma exposure_leaves `{KubeLaws} t kind ns name :
  kind ∉ ["Route"; "Ingress"; "HTTPRoute"] → leaves (kind, ns, name) (reconcileExposure t).
Proof.
  intros Hk. assert (Hne : ∀ kind' ns' name', kind' ∈ ["Route"; "Ingress"; "HTTPRoute"] → (kind', ns', name') ≠ (kind, ns, name)).
  { intros kind' ns' name' Hin [= -> _ _]. done. }
  assert (Hu : ∀ kind' ns' name' f, kind' ∈ ["Route"; "Ingress"; "HTTPRoute"] → leaves (kind, ns, name) (CreateOrUpdate (kind', ns', name') f)).
  { intros. by apply leaves_update, Hne. }
  assert (Hd : ∀ kind' ns' name', kind' ∈ ["Route"; "Ingress"; "HTTPRoute"] → leaves (kind, ns, name) (delete_ignored (kind', ns', name'))).
  { intros. by apply leaves_delete_ignored, Hne. }
  unfold reconcileExposure, expose_type, unless, deleteRoute, deleteIngress, deleteHTTPRoute, ensureRoute, ensureIngress, ensureHTTPRoute, hasRouteAPI, hasGatewayAPI.
  repeat first
    [ apply leaves_ret | apply leaves_fail | apply leaves_has_api | apply leaves_bind; [|intros ?] | apply leaves_wrap
    | apply Hu; set_solver | apply Hd; set_solver | progress cbv zeta | case_match ].
Qed.

(** C24: a reconcile that succeeds has deployed the target.  Every object of the
    target has the content it is meant to have, and the persisted Ready
    condition tells the truth about the exposure.  It is True only when the
    resource API is exposed the way the target configures, or by a Route where
    the cluster has them and the Service alone elsewhere when it configures none:
    the object of that kind leads to the Service of the target, and none of the
    other kinds is left, provided that the API server can delete what it is asked
    to (a failed deletion is ignored).  Otherwise it is False. *)
Theorem reconcile_deploys `{KubeLaws} `{NameSum} env err_text now (w : World) t r :
  tw_target w = Some t → tt_Deleting t = false → tt_Finalizer t = true → fst (Reconcile env err_text now w) = inr r →
  let w' := snd (Reconcile env err_text now w) in
  (∀ key b, (key, b) ∈ desired env (tt_spec t) → body_at (tw_kube w') key = Some b) ∧
  ∃ t', tw_target w' = Some t' ∧ tt_spec t' = tt_spec t ∧
    ((ready_of (tt_Status t') = Some ConditionTrue ∧
      ∃ ty,
        (let configured := from_option xp_Type "" (tg_Expose (tt_spec t)) in
         if String.eqb configured ""
         then ∃ route, fst (hasRouteAPI (snd (ensure_objects env (tt_spec t) (tw_kube w)))) = inr route ∧
                ty = (if (route : bool) then ExposeTypeRoute else ExposeTypeService)
         else ty = configured) ∧
        ∀ kind, kind ∈ map snd exposure_kinds →
          if wants ty kind then exposed_at (tt_spec t) (tw_kube w') kind
          else (deletes_work → absent_at (tt_spec t) (tw_kube w') kind)) ∨
     ready_of (tt_Status t') = Some ConditionFalse).
Proof.
  intros Et Hd Hf Hok. cbv zeta.
  destruct (Reconcile_finishes env err_text now w t r Et Hd Hf Hok) as (k & st' & Hobj & -> & Hk & Ht & Hr).
  set (k := snd (ensure_objects env (tt_spec t) (tw_kube w))) in *. split.
  - intros [[kind ns] name] b Hin. rewrite Hk. unfold body_at. rewrite exposure_leaves.
    + by apply (ensure_objects_establishes env (tt_spec t) _ b Hin (tw_kube w) tt).
    + unfold desired in Hin. rewrite !elem_of_cons, elem_of_nil in Hin. intros Hx. rewrite !elem_of_cons, elem_of_nil in Hx. naive_solver.
  - exists (with_status st' t). split; [done|]. split; [done|]. cbn [tt_Status with_status]. rewrite Hr.
    destruct (fst (reconcileExposure (tt_spec t) k)) as [e|[]] eqn:Ex; [by right|left]. split; [done|].
    destruct (reconcileExposure_spec (tt_spec t) k Ex) as (ty & Ety & Hty). exists ty. rewrite Hk. split; [|exact Hty]. by apply expose_type_spec.
Qed.

(** C22: a worker reaches its manager, and nobody else does.  Once the objects of
    a target were ensured, the address the manager gives its workers is that of
    the Service created for it, which has the port, selects the pods of the
    manager's Deployment (a single replica that is stopped before it is
    replaced) and leads to a port of its container; of all peers, the network
    policies admit exactly those with the labels of the workers of this target
    to that port, and nothing to a worker. *)
Theorem worker_reaches_manager `{KubeLaws} env t k encode storage items :
  fst (ensure_objects env t k) = inr tt →
  let k' := snd (ensure_objects env t k) in
  let name := mt_Name (tg_mt t) in
  let ns := tg_Namespace t in
  let pod := startWorkerBatch name ns encode storage (tg_mt t) items in
  let policies := map snd (network_policies name) in
  (∀ np, np ∈ network_policies name → body_at k' ("NetworkPolicy", ns, np.1) = Some (BNetworkPolicy np.2)) ∧
  body_at k' ("ServiceAccount", ns, wp_ServiceAccountName pod) = Some BServiceAccount ∧
  ∃ svc dep port, body_at k' ("Service", ns, name +:+ "-manager") = Some (BService svc) ∧
    body_at k' ("Deployment", ns, name +:+ "-manager") = Some (BDeployment dep) ∧
    getenv (wp_Env pod) "MANAGER_URL" = service_url (name +:+ "-manager") ns (sp_Port port) ∧
    port ∈ ss_Ports svc ∧ ss_Selector svc ⊆ pt_Labels (ds_Template dep) ∧ ds_Selector dep = pt_Labels (ds_Template dep) ∧
    default (sp_Port port) (sp_TargetPort port) ∈ map snd (co_Ports (pt_Container (ds_Template dep))) ∧
    ds_Replicas dep = 1%Z ∧ ds_Strategy dep = "Recreate" ∧
    (∀ peer, admitted policies (pt_Labels (ds_Template dep)) peer (sp_Port port) ↔ wp_Labels pod ⊆ peer) ∧
    (∀ peer p, ¬ admitted policies (wp_Labels pod) peer p).
Proof.
  intros Hok. cbv zeta. set (name := mt_Name (tg_mt t)).
  assert (Hd : ∀ key b, (key, b) ∈ desired env t → body_at (snd (ensure_objects env t k)) key = Some b).
  { intros key b Hin. by apply (ensure_objects_establishes env t key b Hin k tt). }
  split_and!.
  - intros np. unfold network_policies. rewrite !elem_of_cons, elem_of_nil. intros [->|[->|[]]]; apply Hd; unfold desired; set_solver.
  - apply Hd. unfold desired. set_solver.
  - exists (manager_service name), (manager_deployment env t), (mkServicePort "http" 8080 None).
    split_and!; [apply Hd; unfold desired; set_solver..| | |apply manager_selected|done|left|done|done| |].
    + rewrite pod_env_get by (try discriminate; unfold proxy_names; set_solver). unfold service_url. cbn [sp_Port].
      rewrite <- !app_assoc_s. done.
    + left.
    + intros peer. cbn [sp_Port]. split.
      * intros [Hno|(np & rule & Hnp & Hsel & Hr & Hport & Hfrom)].
        { destruct (Hno (mkNetworkPolicySpec (manager_selector name) [mkIngressRule [worker_selector name] [8080%Z]; mkIngressRule [] [9090%Z]]));
            [left|apply manager_selected]. }
        unfold network_policies in Hnp. cbn in Hnp. rewrite !elem_of_cons, elem_of_nil in Hnp. destruct Hnp as [->|[->|[]]]; cbn in *.
        -- rewrite !elem_of_cons, elem_of_nil in Hr. destruct Hr as [->|[->|[]]]; cbn in *.
           ++ destruct Hfrom as [?|(sel & Hs & Hsub)]; [done|]. apply list_elem_of_singleton in Hs as ->. exact Hsub.
           ++ apply list_elem_of_singleton in Hport. done.
        -- by apply not_elem_of_nil in Hr.
      * intros Hsub. right. eexists _, (mkIngressRule [worker_selector name] [8080%Z]).
        split_and!; [cbn; left|apply manager_selected|cbn; left|split; [cbn; left|right]].
        exists (worker_selector name). split; [cbn; left|exact Hsub].
    + intros peer p [Hno|(np & rule & Hnp & Hsel & Hr & _)].
      * apply (Hno (mkNetworkPolicySpec (worker_selector name) [])); [cbn; right; left|]. done.
      * unfold network_policies in Hnp. cbn in Hnp. rewrite !elem_of_cons, elem_of_nil in Hnp. destruct Hnp as [->|[->|[]]]; cbn in *.
        -- by apply (worker_not_manager name).
        -- by apply not_elem_of_nil in Hr.
Qed.

(** C25: the pods of manager and workers are well formed: every mount has its
    volume, the volumes have distinct names, and the paths the environment
    names (the registry credentials, the CA bundle) are files a mounted volume
    provides. *)
Theorem pods_wellformed env t encode storage items :
  let mt := tg_mt t in
  let pod := startWorkerBatch (mt_Name mt) (tg_Namespace t) encode storage mt items in
  let tpl := ds_Template (manager_deployment env t) in
  let ok env mounts volumes :=
    mounts_backed mounts volumes ∧
    (∀ dir, mkEnvVar "DOCKER_CONFIG" dir ∈ env → provides mounts volumes dir "config.json") ∧
    (∀ path, mkEnvVar "SSL_CERT_FILE" path ∈ env → ∃ dir file, path = dir +:+ "/" +:+ file ∧ provides mounts volumes dir file) in
  ok (co_Env (pt_Container tpl)) (co_Mounts (pt_Container tpl)) (pt_Volumes tpl) ∧
  ok (wp_Env pod) (wp_Mounts pod) (wp_Volumes pod).
Proof.
  cbv zeta. split.
  - unfold manager_deployment. cbn [ds_Template pt_Container co_Env co_Mounts pt_Volumes].
    unfold managerContainerEnv, managerContainerVolumeMounts, managerPodVolumes. rewrite proxyEnvVars_catalog. unfold caBundleEnvVars, ca_key.
    apply (mounted_env_ok _ [] []); [by repeat constructor|done|constructor|apply not_elem_of_nil|done|apply not_elem_of_nil].
  - unfold startWorkerBatch. cbn [wp_Env wp_Mounts wp_Volumes]. rewrite workerProxyEnvVars_catalog.
    apply (mounted_env_ok _ [mkVolumeMount "blob-buffer" "/tmp/blob-buffer"] [blob_buffer storage]);
      [by repeat constructor|done|apply NoDup_singleton|cbn; set_solver|done|cbn; set_solver].
Qed.

(** ** Examples *)

Definition ex_full (known pending : list string) : FullStatus :=
  mkFullStatus (mkTargetStatus [] known pending) (mkCounts 0 0 0 0) [].

(** The target of [Deploy], with one ImageSet, on an API server that rejects
    the calls of the schedule. *)
Definition ex_target_world (faults : list bool) (jobs : gmap string Job) (pods : list TPod) (t : Target) : @World ex_kube :=
  @mkWorld ex_kube (mkCluster ∅ faults) jobs ex_objects pods ∅ (Some t).

Abbreviation ex_Reconcile := (@Reconcile ex_kube ex_sum ex_env (λ _, "error") 0%Z).

Definition ex_flushed : Cluster := snd (flushPartitionedState ex_target ["is1"] ex_manager (mkCluster ∅ [])).
Definition ex_flushed_world (cms : gmap string ConfigMap) : @World ex_kube :=
  @mkWorld ex_kube (mkCluster cms []) ∅ ∅ [] ∅ None.

Lemma totals_agree_witness :
  ∃ st1 st2,
    fst (@aggregateImageSetStatus ex_kube ex_target (ex_full [] []) (ex_flushed_world (cl_cms ex_flushed))) = inr st1 ∧
    fst (@aggregateImageSetStatus ex_kube ex_target (ex_full [] [])
      (ex_flushed_world (delete (SummaryConfigMapName "mt") (cl_cms ex_flushed)))) = inr st2 ∧
    fs_totals st1 = mkCounts 2 0 1 1 ∧ fs_totals st2 = mkCounts 2 0 1 1.
Proof.
  destruct (@totals_agree ex_kube ex_sum ex_target ["is1"] ex_manager (mkCluster ∅ []) (ex_full [] [])
    (ex_flushed_world (cl_cms ex_flushed)) (ex_flushed_world (delete (SummaryConfigMapName "mt") (cl_cms ex_flushed))))
    as [(st1 & E1 & T1) (st2 & E2 & T2)].
  - constructor.
  - done.
  - by repeat constructor.
  - vm_compute. discriminate.
  - intros Hm. apply (f_equal (λ m, m !! "reg/a:1")) in Hm. vm_compute in Hm. discriminate.
  - constructor.
  - reflexivity.
  - constructor.
  - intros n [->|Hn]%elem_of_cons; [|by apply not_elem_of_nil in Hn]. apply lookup_delete_ne. discriminate.
  - intros s. unfold stored_summary. cbn [tw_cluster ex_flushed_world cl_cms]. change (mt_Name ex_target) with "mt".
    by rewrite lookup_delete_eq.
  - exists st1, st2. rewrite T1, T2. split_and!; [exact E1|exact E2|vm_compute; reflexivity..].
Defined.

(** The cleanup of "s2" is running; a read fails on the way. *)
Definition ex_cleaning : Target := mkTarget ex_tspec false true (ex_full ["s"; "s2"] ["s2"]).
Definition ex_cleaning_jobs : gmap string Job := {[@cleanupJobName ex_sum "t" "s2" := mkJob "snap" 0 0]}.

Lemma unfinished_cleanup_tracked_witness :
  ∃ t', tw_target (snd (ex_Reconcile (ex_target_world [false; true] ex_cleaning_jobs [] ex_cleaning))) = Some t' ∧
    ts_PendingCleanup (fs_core (tt_Status t')) = ["s2"] ∧ ts_KnownImageSets (fs_core (tt_Status t')) = ["s"; "s2"].
Proof.
  destruct (@unfinished_cleanup_tracked ex_kube ex_kube_laws ex_sum ex_env (λ _, "error") 0%Z
    (ex_target_world [false; true] ex_cleaning_jobs [] ex_cleaning) ex_cleaning "s2") as (t' & Et & Hp & Hk).
  - reflexivity.
  - reflexivity.
  - left.
  - eexists. split; [apply lookup_singleton_eq|]. cbn. lia.
  - intros x [->|Hx]%elem_of_cons _; [reflexivity|by apply not_elem_of_nil in Hx].
  - exists t'. split; [exact Et|]. split; [|exact Hk]. vm_compute in Et. injection Et as <-. reflexivity.
Defined.

(** A target under deletion whose last pod is gone. *)
Definition ex_deleting : Target := mkTarget ex_tspec true true (ex_full ["s"] []).

Lemma finalizer_waits_for_pods_witness :
  let run pods := snd (ex_Reconcile (ex_target_world [] ∅ pods ex_deleting)) in
  let pod := mkTPod "t-manager-1" (manager_labels "t") false in
  (∃ t', tw_target (run [pod]) = Some t' ∧ tt_Finalizer t' = true) ∧
  (∃ t', tw_target (run []) = Some t' ∧ tt_Finalizer t' = false) ∧
  objects (tw_kube (run [])) !! (("Deployment", "ns", "t-manager") : Key) = None.
Proof.
  cbv zeta.
  assert (E : ∃ t', tw_target (snd (ex_Reconcile (ex_target_world [] ∅ [] ex_deleting))) = Some t' ∧ tt_Finalizer t' = false)
    by (eexists; split; [vm_compute; reflexivity|reflexivity]).
  split; [eexists; split; [vm_compute; reflexivity|reflexivity]|]. split; [exact E|].
  destruct (@finalizer_waits_for_pods ex_kube ex_kube_laws ex_sum ex_env (λ _, "error") 0%Z (ex_target_world [] ∅ [] ex_deleting) ex_deleting)
    as [(t1 & E1 & Hf1)|(_ & [(e & He & Hne)|Hd])]; [reflexivity|reflexivity|reflexivity|..].
  - destruct E as (t2 & E2 & Hf2). rewrite E1 in E2. injection E2 as <-. rewrite Hf1 in Hf2. discriminate.
  - vm_compute in He. injection He as <-. by destruct Hne.
  - exact Hd.
Defined.

Definition ex_running : Target := mkTarget ex_tspec false true (ex_full ["s"] []).

Lemma reconcile_deploys_witness :
  let w' := snd (ex_Reconcile (ex_target_world [] ∅ [] ex_running)) in
  @body_at ex_kube (tw_kube w') ("Service", "ns", "t-manager") = Some (BService (manager_service "t")) ∧
  ∃ t', tw_target w' = Some t' ∧ ready_of (tt_Status t') = Some ConditionTrue.
Proof.
  cbv zeta.
  destruct (@reconcile_deploys ex_kube ex_kube_laws ex_sum ex_env (λ _, "error") 0%Z (ex_target_world [] ∅ [] ex_running) ex_running
    (mkCtrlResult (Some (10 * minute)%Z))) as (Hb & t' & Et & _ & Hr); [reflexivity|reflexivity|reflexivity|vm_compute; reflexivity|].
  split.
  - apply Hb. unfold desired. do 12 right. left.
  - exists t'. split; [exact Et|]. destruct Hr as [[Hr _]|Hr]; [exact Hr|]. vm_compute in Et. injection Et as <-. vm_compute in Hr. discriminate.
Defined.

Lemma worker_reaches_manager_witness :
  let k' := snd (@ensure_objects ex_kube ex_env ex_tspec ex_objects) in
  let pod := startWorkerBatch "t" "ns" (λ _, "[]") None (tg_mt ex_tspec) [] in
  @body_at ex_kube k' ("ServiceAccount", "ns", "t-worker") = Some BServiceAccount ∧
  getenv (wp_Env pod) "MANAGER_URL" = "http://t-manager.ns.svc.cluster.local:8080".
Proof.
  cbv zeta.
  destruct (@worker_reaches_manager ex_kube ex_kube_laws ex_env ex_tspec ex_objects (λ _, "[]") None []) as (_ & Hsa & _);
    [vm_compute; reflexivity|].
  split; [exact Hsa|reflexivity].
Defined.

(** ** Findings *)

(** A snapshot that cannot be read counts as one that is gone: the Job of the
    cleanup of "s2" was deleted mid-run, its snapshot is there, but one failed
    read makes the reconcile forget the cleanup and advance the known
    ImageSets, so nothing deletes the images any more. *)
Definition ex_interrupted : @World ex_kube :=
  @mkWorld ex_kube (mkCluster {[@cleanupSnapshotCMName ex_sum "t" "s2" := ex_state_cm ["reg/b:1"]]} [false; false; true]) ∅ ex_objects [] ∅
    (Some ex_cleaning).

Lemma unreadable_snapshot_forgets_cleanup :
  let w' := snd (ex_Reconcile ex_interrupted) in
  (∃ t', tw_target w' = Some t' ∧ ts_PendingCleanup (fs_core (tt_Status t')) = [] ∧ ts_KnownImageSets (fs_core (tt_Status t')) = ["s"]) ∧
  tw_jobs w' = ∅ ∧
  cl_cms (tw_cluster w') !! @cleanupSnapshotCMName ex_sum "t" "s2" = Some (ex_state_cm ["reg/b:1"]).
Proof. split_and!; [eexists; split_and!; [vm_compute; reflexivity|reflexivity..]|vm_compute; reflexivity..]. Qed.

(** An API server on which reading a Deployment times out. *)
Definition slow_kube : Kube := {|
  kube := gmap Key Object;
  objects := @objects ex_kube;
  CreateOrUpdate := @CreateOrUpdate ex_kube;
  GetObject key k := (inl (KErr "timeout"), k);
  DeleteObject := @DeleteObject ex_kube;
  SetControllerReference := @SetControllerReference ex_kube;
  SetOwnerReference := @SetOwnerReference ex_kube;
|}.

(** A failed read of the Deployment is passed over: the finalizer goes although
    the manager is still deployed and would start new pods. *)
Lemma unreadable_deployment_outlives_target :
  let key : Key := ("Deployment", "ns", "t-manager") in
  let w' := snd (@Reconcile slow_kube ex_sum ex_env (λ _, "error") 0%Z
    (@mkWorld slow_kube (mkCluster ∅ []) ∅ {[key := emptyObject]} [] ∅ (Some ex_deleting))) in
  (∃ t', tw_target w' = Some t' ∧ tt_Finalizer t' = false) ∧ @objects slow_kube (tw_kube w') !! key = Some emptyObject.
Proof. split; [eexists; split; [vm_compute; reflexivity|reflexivity]|vm_compute; reflexivity]. Qed.
