(* ===== verification/ResourceViews.v ===== *)
(** * The listings of the resource API

    The read side of pkg/resourceapi/server.go: the routes, the list and the
    details of targets with the links to their documents, the raw documents,
    failures and progress; and the ConfigMaps with the packages of a catalog
    that the manager writes for it (pkg/mirror/manager/manager_resolve.go).

    The API server holds ConfigMaps with labels, targets and ImageSets; any call
    can fail with an error of a schedule.  A list is in the order of
    [map_to_list].  JSON of the packages and base64 are parameters; percentages
    are fractions. *)
From S2P Require Import Prelude Effects GoStrings ImageState Api Resources CatalogGraph CatalogFilter PackageIndex Cleanup BuildJobs Deploy Target.

(** ** The API server *)

Record LabelledCM := mkLabelledCM {
  lc_Labels : gmap string string; lc_Data : gmap string string; lc_BinaryData : gmap string string; lc_Owner : option string;
}.

Inductive viewErr := VNotFound | VForbidden | VOther.

(** Namespace and name. *)
Abbreviation NKey := (string * string)%type.

Record Store := mkStore {
  st_cms : gmap NKey LabelledCM; st_targets : list Target; st_sets : list (string * ImageSet); st_faults : list (option viewErr);
}.

Definition tt_Namespace (t : Target) : string := tg_Namespace (tt_spec t).
Definition tt_Name (t : Target) : string := mt_Name (tg_mt (tt_spec t)).

(** A call; an error of the schedule comes before any effect. *)
Definition vcall {A} (f : Store → (viewErr + A) * Store) : M Store viewErr A := λ st,
  let st' := mkStore (st_cms st) (st_targets st) (st_sets st) (tail (st_faults st)) in
  match head (st_faults st) with
  | Some (Some e) => (inl e, st')
  | _ => f st'
  end.

Definition found {A} (o : option A) : viewErr + A := match o with Some a => inr a | None => inl VNotFound end.

Definition get_cm (namespace name : string) : M Store viewErr LabelledCM := vcall (λ st, (found (st_cms st !! (namespace, name)), st)).
Definition put_cm (namespace name : string) (cm : LabelledCM) : M Store viewErr unit := vcall (λ st,
  (inr tt, mkStore (<[(namespace, name) := cm]> (st_cms st)) (st_targets st) (st_sets st) (st_faults st))).
Definition get_target (namespace name : string) : M Store viewErr Target := vcall (λ st,
  (found (List.find (λ t, String.eqb (tt_Namespace t) namespace && String.eqb (tt_Name t) name) (st_targets st)), st)).
(** [""] for all namespaces. *)
Definition list_targets (namespace : string) : M Store viewErr (list Target) := vcall (λ st,
  (inr (List.filter (λ t, String.eqb namespace "" || String.eqb (tt_Namespace t) namespace) (st_targets st)), st)).
Definition list_sets (namespace : string) : M Store viewErr (list ImageSet) := vcall (λ st,
  (inr (List.map snd (List.filter (λ p, String.eqb (fst p) namespace) (st_sets st))), st)).
(** The ConfigMaps of a namespace with a label. *)
Definition list_cms (namespace label value : string) : M Store viewErr (list LabelledCM) := vcall (λ st,
  (inr (List.map snd (List.filter (λ p, String.eqb (fst (fst p)) namespace && bool_decide (lc_Labels (snd p) !! label = Some value))
          (map_to_list (st_cms st)))), st)).

(** ** Packages of a catalog, written by the manager *)

Class PackagesJSON := { packages_Marshal : CatalogPackagesResponse → string; packages_Unmarshal : string → option CatalogPackagesResponse }.
Class PackagesJSONLaws `{PackagesJSON} : Prop := { packages_roundtrip r : packages_Unmarshal (packages_Marshal r) = Some r }.

Definition packages_label : string := "oc-mirror.openshift.io/catalog-packages".
Definition upstream_label : string := "oc-mirror.openshift.io/catalog-upstream-packages".
Definition target_label : string := "oc-mirror.openshift.io/mirrortarget".

Definition packages_name (isUpstream : bool) (target slug : string) : string :=
  if isUpstream then "oc-mirror-" +:+ target +:+ "-" +:+ slug +:+ "-upstream-packages"
  else "oc-mirror-" +:+ target +:+ "-" +:+ slug +:+ "-packages".

Section manager.
Context `{PackagesJSON} (namespace targetName : string).

Definition packages_cm (slug : string) (info : CatalogInfo) (cfg : DeclarativeConfig) (isUpstream : bool) : LabelledCM :=
  let resp := if isUpstream then BuildUpstreamCatalogPackagesResponse info cfg else BuildCatalogPackagesResponse info cfg in
  mkLabelledCM {[(if isUpstream then upstream_label else packages_label) := slug; target_label := targetName]}
    {["packages.json" := packages_Marshal resp]} ∅ None.

(** The ConfigMap of another controller stays its own ([SetControllerReference]). *)
Definition writeCatalogPackagesCM (slug : string) (info : CatalogInfo) (cfg : DeclarativeConfig) (isUpstream : bool) : M Store viewErr unit :=
  let cmName := packages_name isUpstream targetName slug in
  let cm := packages_cm slug info cfg isUpstream in
  mt ← attempt (get_target namespace targetName);
  let owner := match mt with inr _ => Some targetName | inl _ => None end in
  existing ← attempt (get_cm namespace cmName);
  match existing with
  | inl VNotFound => put_cm namespace cmName (mkLabelledCM (lc_Labels cm) (lc_Data cm) ∅ owner)
  | inl e => fail e
  | inr old =>
    put_cm namespace cmName
      (mkLabelledCM (lc_Labels cm) (lc_Data cm) (lc_BinaryData old) (match lc_Owner old with Some o => Some o | None => owner end))
  end.

Definition saveCatalogPackages (slug : string) (info : CatalogInfo) (filtered upstream : DeclarativeConfig) : M Store viewErr unit :=
  _ ← writeCatalogPackagesCM slug info filtered false;
  writeCatalogPackagesCM slug info upstream true.

(** [LoadFBC]: the catalog at a pinned reference. *)
Definition ensureUpstreamCatalogPackages (LoadFBC : string → option DeclarativeConfig) (slug : string) (info : CatalogInfo) (pinnedCatalog : string)
    : M Store viewErr unit :=
  existing ← attempt (get_cm namespace (packages_name true targetName slug));
  match existing with
  | inr _ => mret tt
  | inl VNotFound => match LoadFBC pinnedCatalog with
                     | None => fail VOther
                     | Some upstream => writeCatalogPackagesCM slug info upstream true
                     end
  | inl e => fail e
  end.
End manager.

(** ** Targets *)

Record Server := mkServer { sv_namespace : string }.
Definition NewServer (namespace : string) : Server := mkServer namespace.
Definition NewServerClusterWide : Server := mkServer "".

Record TargetSummary := mkTargetSummary { su_Namespace : string; su_Name : string; su_Registry : string; su_Counts : counts }.
Record ConditionSummary := mkConditionSummary { cs_Type : string; cs_Status : string; cs_Reason : string; cs_Message : string }.
Record CatalogSummary := mkCatalogSummary {
  ct_Slug : string; ct_Source : string; ct_TargetImage : string; ct_FilteredPackagesURL : string; ct_UpstreamPackagesURL : string;
  ct_ImageSets : list string;
}.
Record ResourceLink := mkResourceLink { rl_Name : string; rl_URL : string; rl_Type : string }.
Record ImageSetSummaryJSON := mkImageSetSummary { ij_Status : ImageSetStatusSummary; ij_Catalogs : list string; ij_HasPlatform : bool }.
Record TargetDetail := mkTargetDetail {
  td_Summary : TargetSummary; td_Conditions : list ConditionSummary; td_ImageSets : list ImageSetSummaryJSON;
  td_Resources : list ResourceLink; td_Catalogs : list CatalogSummary;
}.

Section server.
Context `{PackagesJSON} (s : Server).

Definition LookupMirrorTarget (name : string) : M Store viewErr Target :=
  if negb (String.eqb (sv_namespace s) "") then get_target (sv_namespace s) name
  else
    items ← list_targets "";
    match List.find (λ t, String.eqb (tt_Name t) name) items with Some t => mret t | None => fail VNotFound end.

(** The status codes of an error. *)
Definition lookup_code (e : viewErr) : Z := match e with VNotFound => 404 | VForbidden => 403 | VOther => 500 end.
Definition list_code (e : viewErr) : Z := match e with VForbidden => 403 | _ => 500 end.
Definition document_code (e : viewErr) : Z := match e with VForbidden => 403 | _ => 404 end.

(** A handler answers with a status code or with 200 and a body. *)
Abbreviation Handler := (λ A : Type, Store → (Z + A) * Store).
Definition or_code {A B} (code : viewErr → Z) (m : M Store viewErr A) (k : A → Handler B) : Handler B := λ st,
  match m st with (inl e, st) => (inl (code e), st) | (inr a, st) => k a st end.
Definition ok {A} (a : A) : Handler A := λ st, (inr a, st).
(** A call whose error is ignored. *)
Definition or_none {A B} (m : M Store viewErr A) (k : option A → Handler B) : Handler B := λ st,
  match m st with (inl _, st) => k None st | (inr a, st) => k (Some a) st end.

Definition target_summary (t : Target) : TargetSummary :=
  mkTargetSummary (tt_Namespace t) (tt_Name t) (mt_Registry (tg_mt (tt_spec t))) (fs_totals (tt_Status t)).

Definition handleTargetsList : Handler (list TargetSummary) :=
  or_code list_code (list_targets (sv_namespace s)) (λ items, ok (List.map target_summary items)).

(** *** Links *)

Definition latest_base (mtName : string) : string := "/api/v1/targets/" +:+ mtName +:+ "/imagesets/latest".

Definition key_link (base key : string) : list ResourceLink :=
  if HasSuffix key ".yaml" then
    if HasPrefix key "catalogsource-" then
      let slug := TrimSuffix (TrimPrefix key "catalogsource-") ".yaml" in
      [mkResourceLink ("CatalogSource (" +:+ slug +:+ ")") (base +:+ "/catalogs/" +:+ slug +:+ "/catalogsource.yaml") "yaml"]
    else if HasPrefix key "clustercatalog-" then
      let slug := TrimSuffix (TrimPrefix key "clustercatalog-") ".yaml" in
      [mkResourceLink ("ClusterCatalog (" +:+ slug +:+ ")") (base +:+ "/catalogs/" +:+ slug +:+ "/clustercatalog.yaml") "yaml"]
    else []
  else [].

Definition buildResourceLinks (mtName : string) (cm : LabelledCM) : list ResourceLink :=
  let base := latest_base mtName in
  (if bool_decide (is_Some (lc_Data cm !! "idms.yaml")) then [mkResourceLink "IDMS" (base +:+ "/idms.yaml") "yaml"] else [])
  ++ (if bool_decide (is_Some (lc_Data cm !! "itms.yaml")) then [mkResourceLink "ITMS" (base +:+ "/itms.yaml") "yaml"] else [])
  ++ concat (List.map (λ p, key_link base (fst p)) (map_to_list (lc_Data cm))).

Definition signatures_name (mtName : string) : string := mtName +:+ "-signatures".
Definition signature_links (mtName : string) (sigCM : option LabelledCM) : list ResourceLink :=
  match sigCM with
  | Some cm => if (0 <? size (lc_BinaryData cm))%nat
               then [mkResourceLink ("Signatures (" +:+ Itoa (Z.of_nat (size (lc_BinaryData cm))) +:+ " releases)")
                       ("/api/v1/targets/" +:+ mtName +:+ "/signatures.yaml") "yaml"]
               else []
  | None => []
  end.

(** *** Catalogs *)

Definition cm_slug (cm : LabelledCM) : option string :=
  match lc_Labels cm !! packages_label with Some slug => if String.eqb slug "" then None else Some slug | None => None end.
Definition packages_of (cm : LabelledCM) : option CatalogPackagesResponse := lc_Data cm !! "packages.json" ≫= packages_Unmarshal.

Definition sourceCatalogToSlug (cms : list LabelledCM) : gmap string string :=
  foldl (λ m cm, match cm_slug cm, packages_of cm with
                 | Some slug, Some resp => if String.eqb (cpr_Catalog resp) "" then m else <[cpr_Catalog resp := slug]> m
                 | _, _ => m
                 end) ∅ cms.

Definition append_to (m : gmap string (list string)) (k v : string) : gmap string (list string) := <[k := default [] (m !! k) ++ [v]]> m.

Definition set_slugs (slugs : gmap string string) (iset : ImageSet) : list string :=
  List.map (λ op, default (CatalogSlug (op_Catalog op)) (slugs !! op_Catalog op)) (mi_Operators (is_Mirror iset)).

(** Slug to ImageSets and ImageSet to slugs. *)
Definition ownership (slugs : gmap string string) (isMap : gmap string ImageSet) (names : list string)
    : gmap string (list string) * gmap string (list string) :=
  foldl (λ maps isName,
    match isMap !! isName with
    | None => maps
    | Some iset => foldl (λ '(a, b) slug, (append_to a slug isName, append_to b isName slug)) maps (set_slugs slugs iset)
    end) (∅, ∅) names.

Definition buildCatalogOwnershipMaps {B} (t : Target) (cms : list LabelledCM)
    (k : gmap string (list string) * gmap string (list string) → Handler B) : Handler B := λ st,
  match list_sets (tt_Namespace t) st with
  | (inl _, st) => k (∅, ∅) st
  | (inr items, st) => k (ownership (sourceCatalogToSlug cms) (index_by is_Name items) (mt_ImageSets (tg_mt (tt_spec t)))) st
  end.

Definition catalog_base (mtName slug : string) : string := "/api/v1/targets/" +:+ mtName +:+ "/catalogs/" +:+ slug.

Definition catalog_summary (mtName : string) (owners : gmap string (list string)) (slug : string) (cm : LabelledCM) : CatalogSummary :=
  let base := catalog_base mtName slug in
  let resp := packages_of cm in
  mkCatalogSummary slug (default "" (cpr_Catalog <$> resp)) (default "" (cpr_TargetImage <$> resp))
    (base +:+ "/packages.json") (base +:+ "/upstream-packages.json") (default [] (owners !! slug)).

(** The first ConfigMap of every slug. *)
Fixpoint catalog_summaries (mtName : string) (owners : gmap string (list string)) (seen : list string) (cms : list LabelledCM) : list CatalogSummary :=
  match cms with
  | [] => []
  | cm :: cms =>
    match cm_slug cm with
    | None => catalog_summaries mtName owners seen cms
    | Some slug => if bool_decide (slug ∈ seen) then catalog_summaries mtName owners seen cms
                   else catalog_summary mtName owners slug cm :: catalog_summaries mtName owners (slug :: seen) cms
    end
  end.

Definition packages_link (c : CatalogSummary) : ResourceLink :=
  mkResourceLink ("Packages (" +:+ ct_Slug c +:+ ")") (ct_FilteredPackagesURL c) "json".

Definition condition_summary (c : Condition) : ConditionSummary :=
  mkConditionSummary (cond_Type c) (cond_Status c) (cond_Reason c) (cond_Message c).

Definition has_platform (items : list ImageSet) (names : list string) (isName : string) : bool :=
  bool_decide (isName ∈ names) &&
  match index_by is_Name items !! isName with Some iset => negb (bool_decide (pf_Channels (mi_Platform (is_Mirror iset)) = [])) | None => false end.

Definition set_summary_json (iseToCatalogs : gmap string (list string)) (catalogs : list CatalogSummary) (platform : string → bool)
    (iss : ImageSetStatusSummary) : ImageSetSummaryJSON :=
  mkImageSetSummary iss
    (List.filter (λ slug, existsb (λ c, String.eqb (ct_Slug c) slug) catalogs) (default [] (iseToCatalogs !! iss_Name iss)))
    (platform (iss_Name iss)).

Definition handleTargetDetail (mtName : string) : Handler TargetDetail :=
  or_code lookup_code (LookupMirrorTarget mtName) (λ t,
  let ns := tt_Namespace t in
  or_none (get_cm ns (ResourcesConfigMapName mtName)) (λ cm,
  or_none (get_cm ns (signatures_name mtName)) (λ sigCM,
  or_none (list_cms ns target_label mtName) (λ listed,
  let cms := default [] listed in
  buildCatalogOwnershipMaps t cms (λ '(catalogToISes, iseToCatalogs),
  let catalogs := catalog_summaries mtName catalogToISes [] cms in
  or_none (list_sets ns) (λ items,
  ok (mkTargetDetail (target_summary t) (List.map condition_summary (ts_Conditions (fs_core (tt_Status t))))
        (List.map (set_summary_json iseToCatalogs catalogs (has_platform (default [] items) (mt_ImageSets (tg_mt (tt_spec t))))) (fs_sets (tt_Status t)))
        ((match cm with Some cm => buildResourceLinks mtName cm | None => [] end) ++ signature_links mtName sigCM
          ++ List.map packages_link catalogs)
        catalogs))))))).

(** *** Documents *)

Definition content_type (key : string) : string := if HasSuffix key ".json" then "application/json" else "text/yaml".

Definition serveConfigMapResource (namespace cmName key : string) : Handler (string * string)%type :=
  or_code document_code (get_cm namespace cmName) (λ cm st,
    match lc_Data cm !! key with None => (inl 404%Z, st) | Some data => (inr (content_type key, data), st) end).

Definition resolveNamespace {B} (mtName : string) (k : string → Handler B) : Handler B :=
  if negb (String.eqb (sv_namespace s) "") then k (sv_namespace s)
  else or_none (LookupMirrorTarget mtName) (λ t, k (default "" (tt_Namespace <$> t))).

Definition handleIDMS (mtName : string) := resolveNamespace mtName (λ ns, serveConfigMapResource ns (ResourcesConfigMapName mtName) "idms.yaml").
Definition handleITMS (mtName : string) := resolveNamespace mtName (λ ns, serveConfigMapResource ns (ResourcesConfigMapName mtName) "itms.yaml").
Definition handleCatalogSource (mtName slug : string) :=
  resolveNamespace mtName (λ ns, serveConfigMapResource ns (ResourcesConfigMapName mtName) ("catalogsource-" +:+ slug +:+ ".yaml")).
Definition handleClusterCatalog (mtName slug : string) :=
  resolveNamespace mtName (λ ns, serveConfigMapResource ns (ResourcesConfigMapName mtName) ("clustercatalog-" +:+ slug +:+ ".yaml")).
Definition handleFilteredCatalogPackages (mtName slug : string) :=
  resolveNamespace mtName (λ ns, serveConfigMapResource ns ("oc-mirror-" +:+ mtName +:+ "-" +:+ slug +:+ "-packages") "packages.json").
Definition handleUpstreamCatalogPackages (mtName slug : string) :=
  resolveNamespace mtName (λ ns, serveConfigMapResource ns ("oc-mirror-" +:+ mtName +:+ "-" +:+ slug +:+ "-upstream-packages") "packages.json").

(** [strings.Replace(k, "sha256-", "sha256:", 1)] *)
Definition signature_digest (k : string) : string :=
  match cut "sha256-" k with Some (a, b) => a +:+ "sha256:" +:+ b | None => k end.

(** [None] is the panic of a digest that is too short. *)
Definition handleSignatures `{Marshal} (encode : string → string) (decode : string → option string) (mtName : string) : Handler (option (string * string)) :=
  or_code lookup_code (LookupMirrorTarget mtName) (λ t,
  or_code document_code (get_cm (tt_Namespace t) (signatures_name mtName)) (λ cm st,
    let b64sigs := list_to_map (List.map (λ p, (signature_digest (fst p), encode (snd p))) (map_to_list (lc_BinaryData cm))) in
    match GenerateSignatureConfigMapsBase64 decode b64sigs with
    | SigOk out => (inr (Some ("text/yaml", out)), st)
    | SigErr => (inl 500%Z, st)
    | SigPanic => (inr None, st)
    end)).

Definition handleLegacyRedirect : Handler unit := λ st, (inl 410%Z, st).

(** ** Failures and progress *)

Record FailedImageDetail := mkFailedImage {
  fd_Destination : string; fd_Source : string; fd_State : string; fd_LastError : string; fd_RetryCount : Z;
  fd_PermanentlyFailed : bool; fd_NextRetryAt : option Z; fd_ImageSet : string;
}.

Definition open_detail (isName destination : string) (e : ImageEntry) : FailedImageDetail :=
  mkFailedImage destination (Source e) (State e) (LastError e) (RetryCount e) (PermanentlyFailed e)
    (if String.eqb (State e) "Failed" then NextRetryAt e else None) isName.

(** The images of one ImageSet that are not mirrored. *)
Definition open_images (isName : string) (state : gmap string (option ImageEntry)) : list FailedImageDetail :=
  omap (λ p, match snd p with
             | Some e => if String.eqb (State e) "Mirrored" then None else Some (open_detail isName (fst p) e)
             | None => None
             end) (map_to_list state).

(** [load]: the outcome of [imagestate.Load] for an ImageSet. *)
Fixpoint load_open (load : string → viewErr + gmap string (option ImageEntry)) (names : list string) : viewErr + list FailedImageDetail :=
  match names with
  | [] => inr []
  | isName :: names =>
    match load isName with
    | inl e => inl e
    | inr state => match load_open load names with inl e => inl e | inr l => inr (open_images isName state ++ l) end
    end
  end.

(** Failed and pending. *)
Definition handleImageFailures (load : string → viewErr + gmap string (option ImageEntry)) (mtName : string)
    : Handler (list FailedImageDetail * list FailedImageDetail)%type :=
  or_code lookup_code (LookupMirrorTarget mtName) (λ t st,
    match load_open load (mt_ImageSets (tg_mt (tt_spec t))) with
    | inl e => (inl (list_code e), st)
    | inr l => (inr (List.filter fd_PermanentlyFailed l, List.filter (λ d, negb (fd_PermanentlyFailed d)) l), st)
    end).

(** Numerator and denominator. *)
Abbreviation Fraction := (Z * Z)%type.

Record ImageSetProgress := mkSetProgress { ip_Name : string; ip_Counts : counts; ip_Percent : Fraction }.
Record TargetProgress := mkProgress {
  tp_ImageSets : list ImageSetProgress; tp_Counts : counts; tp_Percent : Fraction; tp_EtaSeconds : option Fraction; tp_LastErrors : list string;
}.

Definition percent (mirrored total : Z) : Fraction := if (0 <? total)%Z then (mirrored * 100, total)%Z else (0, 1)%Z.
Definition add_counts (a b : counts) : counts :=
  mkCounts (c_total a + c_total b) (c_mirrored a + c_mirrored b) (c_pending a + c_pending b) (c_failed a + c_failed b).

(** Some failed entry with an error. *)
Definition last_error (isName : string) (state : gmap string (option ImageEntry)) : list string :=
  match omap (λ p, match snd p with
                   | Some e => if negb (String.eqb (LastError e) "") && String.eqb (State e) "Failed" then Some (LastError e) else None
                   | None => None
                   end) (map_to_list state) with
  | [] => []
  | err :: _ => [isName +:+ ": " +:+ err]
  end.

Definition older (created oldest : option Z) : option Z :=
  match created, oldest with Some c, Some o => Some (if (c <? o)%Z then c else o) | Some c, None => Some c | None, o => o end.

(** [Counts] dereferences every entry; [None] is its panic. *)
Definition checked_counts (state : gmap string (option ImageEntry)) : option counts :=
  if bool_decide (map_Forall (λ _ e, is_Some e) state) then Some (Counts (omap id state)) else None.

(** [created]: the creation time of the state's ConfigMap, if it can be read.
    [None] is a panic. *)
Fixpoint load_progress (load : string → viewErr + gmap string (option ImageEntry)) (created : string → option Z) (names : list string)
    (p : TargetProgress) (oldest : option Z) : option (viewErr + TargetProgress * option Z) :=
  match names with
  | [] => Some (inr (p, oldest))
  | isName :: names =>
    match load isName with
    | inl e => Some (inl e)
    | inr state =>
      c ← checked_counts state;
      let isp := mkSetProgress isName c (percent (c_mirrored c) (c_total c)) in
      load_progress load created names
        (mkProgress (tp_ImageSets p ++ [isp]) (add_counts (tp_Counts p) c) (tp_Percent p) (tp_EtaSeconds p) (tp_LastErrors p ++ last_error isName state))
        (older (created isName) oldest)
    end
  end.

(** Seconds at the average throughput since [oldest]. *)
Definition eta (now : Z) (oldest : option Z) (c : counts) : option Fraction :=
  match oldest with
  | Some o => let elapsed := (now - o)%Z in
              if (0 <? elapsed)%Z && (0 <? c_mirrored c)%Z && (0 <? c_pending c)%Z then Some (c_pending c * elapsed, c_mirrored c)%Z else None
  | None => None
  end.

Definition handleTargetProgress (load : string → viewErr + gmap string (option ImageEntry)) (created : string → option Z) (now : Z) (mtName : string)
    : Handler (option TargetProgress) :=
  or_code lookup_code (LookupMirrorTarget mtName) (λ t st,
    match load_progress load created (mt_ImageSets (tg_mt (tt_spec t))) (mkProgress [] (mkCounts 0 0 0 0) (0, 1)%Z None []) None with
    | None => (inr None, st)
    | Some (inl _) => (inl 500%Z, st)
    | Some (inr (p, oldest)) =>
      (inr (Some (mkProgress (tp_ImageSets p) (tp_Counts p) (percent (c_mirrored (tp_Counts p)) (c_total (tp_Counts p))) (eta now oldest (tp_Counts p))
              (tp_LastErrors p))), st)
    end).
End server.

(** ** Routes *)

Inductive seg := Lit (s : string) | Var.

(** The read and write endpoints. *)
Inductive Endpoint :=
| EpTargetsList | EpTargetDetail | EpImageFailures | EpTargetProgress | EpGetTargetSpec | EpPatchTargetSpec
| EpGetPackages | EpPatchPackages | EpGetOperators | EpPatchOperators | EpGetSettings | EpPatchSettings | EpRecollect | EpForceResync
| EpChannels | EpGetReleases | EpPatchReleases | EpGetHelm | EpPatchHelm | EpGetBlocked | EpPatchBlocked | EpGetAdditional | EpPatchAdditional
| EpDeleteImageSet | EpFilteredPackages | EpUpstreamPackages | EpSignatures | EpIDMS | EpITMS | EpCatalogSource | EpClusterCatalog
| EpUpstreamPackagesLegacy | EpFilteredPackagesLegacy.

(** The routes below /api/v1, in order. *)
Definition api_routes : list (string * list seg * Endpoint) :=
  let set (rest : list string) := [Lit "imagesets"; Var; Var] ++ List.map Lit rest in
  [("GET", [Lit "targets"], EpTargetsList);
   ("GET", [Lit "targets"; Var], EpTargetDetail);
   ("GET", [Lit "targets"; Var; Lit "image-failures"], EpImageFailures);
   ("GET", [Lit "targets"; Var; Lit "progress"], EpTargetProgress);
   ("GET", [Lit "targets"; Var; Var; Lit "spec"], EpGetTargetSpec);
   ("PATCH", [Lit "targets"; Var; Var; Lit "spec"], EpPatchTargetSpec);
   ("GET", [Lit "imagesets"; Var; Var; Lit "catalogs"; Var; Lit "packages"], EpGetPackages);
   ("PATCH", [Lit "imagesets"; Var; Var; Lit "catalogs"; Var; Lit "packages"], EpPatchPackages);
   ("GET", set ["operators"], EpGetOperators);
   ("PATCH", set ["operators"], EpPatchOperators);
   ("GET", set ["settings"], EpGetSettings);
   ("PATCH", set ["settings"], EpPatchSettings);
   ("PATCH", set ["recollect"], EpRecollect);
   ("PATCH", set ["force-resync"], EpForceResync);
   ("GET", [Lit "releases"; Lit "channels"], EpChannels);
   ("GET", set ["releases"], EpGetReleases);
   ("PATCH", set ["releases"], EpPatchReleases);
   ("GET", set ["helm"], EpGetHelm);
   ("PATCH", set ["helm"], EpPatchHelm);
   ("GET", set ["blocked-images"], EpGetBlocked);
   ("PATCH", set ["blocked-images"], EpPatchBlocked);
   ("GET", set ["additional-images"], EpGetAdditional);
   ("PATCH", set ["additional-images"], EpPatchAdditional);
   ("DELETE", set [], EpDeleteImageSet);
   ("GET", [Lit "targets"; Var; Lit "catalogs"; Var; Lit "packages.json"], EpFilteredPackages);
   ("GET", [Lit "targets"; Var; Lit "catalogs"; Var; Lit "upstream-packages.json"], EpUpstreamPackages);
   ("GET", [Lit "targets"; Var; Lit "signatures.yaml"], EpSignatures);
   ("GET", [Lit "targets"; Var; Lit "imagesets"; Var; Lit "idms.yaml"], EpIDMS);
   ("GET", [Lit "targets"; Var; Lit "imagesets"; Var; Lit "itms.yaml"], EpITMS);
   ("GET", [Lit "targets"; Var; Lit "imagesets"; Var; Lit "catalogs"; Var; Lit "catalogsource.yaml"], EpCatalogSource);
   ("GET", [Lit "targets"; Var; Lit "imagesets"; Var; Lit "catalogs"; Var; Lit "clustercatalog.yaml"], EpClusterCatalog);
   ("GET", [Lit "targets"; Var; Lit "imagesets"; Var; Lit "catalogs"; Var; Lit "upstream-packages.json"], EpUpstreamPackagesLegacy);
   ("GET", [Lit "targets"; Var; Lit "imagesets"; Var; Lit "catalogs"; Var; Lit "packages.json"], EpFilteredPackagesLegacy)].

(** The values of the variables; a variable is not empty. *)
Fixpoint match_segs (pattern : list seg) (path : list string) : option (list string) :=
  match pattern, path with
  | [], [] => Some []
  | Lit s :: pattern, p :: path => if String.eqb s p then match_segs pattern path else None
  | Var :: pattern, p :: path => if String.eqb p "" then None else cons p <$> match_segs pattern path
  | _, _ => None
  end.

Fixpoint find_route (routes : list (string * list seg * Endpoint)) (method : string) (path : list string) : option (Endpoint * list string) :=
  match routes with
  | [] => None
  | (m, pattern, ep) :: routes =>
    if String.eqb m method then match match_segs pattern path with Some vars => Some (ep, vars) | None => find_route routes method path end
    else find_route routes method path
  end.

Definition route_request (method url : string) : option (Endpoint * list string) :=
  match strip_prefix "/api/v1/" url with
  | Some rest => find_route api_routes method (Split "/" rest)
  | None => None
  end.

(** The document behind an endpoint. *)
Definition serve `{PackagesJSON} `{Marshal} (encode : string → string) (decode : string → option string) (s : Server) (ep : Endpoint) (vars : list string)
    (st : Store) : option (Z + option (string * string)) :=
  let doc (h : Store → (Z + string * string) * Store) := Some (match fst (h st) with inl c => inl c | inr d => inr (Some d) end) in
  match ep, vars with
  | EpFilteredPackages, [mt; slug] | EpFilteredPackagesLegacy, [mt; _; slug] => doc (handleFilteredCatalogPackages s mt slug)
  | EpUpstreamPackages, [mt; slug] | EpUpstreamPackagesLegacy, [mt; _; slug] => doc (handleUpstreamCatalogPackages s mt slug)
  | EpSignatures, [mt] => Some (fst (handleSignatures s encode decode mt st))
  | EpIDMS, [mt; _] => doc (handleIDMS s mt)
  | EpITMS, [mt; _] => doc (handleITMS s mt)
  | EpCatalogSource, [mt; _; slug] => doc (handleCatalogSource s mt slug)
  | EpClusterCatalog, [mt; _; slug] => doc (handleClusterCatalog s mt slug)
  | _, _ => None
  end.

(** * Lemmas *)

(** ** Calls that do not fail *)

Definition quiet_store (st : Store) : Prop := st_faults st = [].

Lemma vcall_quiet {A} (f : Store → (viewErr + A) * Store) st : quiet_store st → vcall f st = f st.
Proof. unfold quiet_store, vcall. destruct st as [a b c d]. cbn. by intros ->. Qed.

Lemma get_cm_quiet ns name st : quiet_store st → get_cm ns name st = (found (st_cms st !! (ns, name)), st).
Proof. intros Hq. unfold get_cm. by rewrite vcall_quiet. Qed.

Lemma Lookup_quiet s name st : quiet_store st → snd (LookupMirrorTarget s name st) = st.
Proof.
  intros Hq. unfold LookupMirrorTarget. destruct (negb _); [unfold get_target; by rewrite vcall_quiet|].
  rewrite bind_eq. unfold list_targets. rewrite vcall_quiet by done. cbn [fst snd]. by destruct (List.find _ _).
Qed.

Lemma Lookup_namespace s name st t st' :
  quiet_store st → LookupMirrorTarget s name st = (inr t, st') → sv_namespace s ≠ "" → tt_Namespace t = sv_namespace s.
Proof.
  intros Hq E Hs. unfold LookupMirrorTarget in E. rewrite (proj2 (String.eqb_neq _ _) Hs) in E. cbn [negb] in E.
  unfold get_target in E. rewrite vcall_quiet in E by done. destruct (List.find _ _) as [t'|] eqn:Ef; [|done]. injection E as -> _.
  apply find_some in Ef as [_ Ef]. apply andb_true_iff in Ef as [Ef _]. by apply String.eqb_eq in Ef.
Qed.

(** The namespace a document is read from is that of the target that is shown. *)
Lemma resolveNamespace_found {B} s name st t st' (k : string → Store → (Z + B) * Store) :
  quiet_store st → LookupMirrorTarget s name st = (inr t, st') → resolveNamespace s name k st = k (tt_Namespace t) st.
Proof.
  intros Hq E. unfold resolveNamespace. destruct (String.eqb_spec (sv_namespace s) "") as [Hs|Hs]; cbn [negb].
  - unfold or_none. pose proof (Lookup_quiet s name st Hq) as Hl. rewrite E in *. cbn [snd] in Hl. by subst st'.
  - by rewrite (Lookup_namespace s name st t st').
Qed.

Lemma serve_found s name st t st' cmName cm key data :
  quiet_store st → LookupMirrorTarget s name st = (inr t, st') → st_cms st !! (tt_Namespace t, cmName) = Some cm → lc_Data cm !! key = Some data →
  fst (resolveNamespace s name (λ ns, serveConfigMapResource ns cmName key) st) = inr (content_type key, data).
Proof.
  intros Hq E Hc Hd. rewrite (resolveNamespace_found s name st t st') by done. unfold serveConfigMapResource, or_code.
  rewrite get_cm_quiet by done. rewrite Hc. cbn. by rewrite Hd.
Qed.

Lemma or_none_inr {A B} (m : M Store viewErr A) a (k : option A → Store → (Z + B) * Store) st :
  m st = (inr a, st) → or_none m k st = k (Some a) st.
Proof. intros E. unfold or_none. by rewrite E. Qed.

Lemma or_none_get {B} ns name (k : option LabelledCM → Store → (Z + B) * Store) st :
  quiet_store st → or_none (get_cm ns name) k st = k (st_cms st !! (ns, name)) st.
Proof. intros Hq. unfold or_none. rewrite get_cm_quiet by done. by destruct (st_cms st !! (ns, name)). Qed.

Lemma list_cms_quiet st ns label value : quiet_store st → ∃ cms, list_cms ns label value st = (inr cms, st).
Proof. intros Hq. unfold list_cms. rewrite vcall_quiet by done. eauto. Qed.
Lemma list_sets_quiet st ns : quiet_store st → ∃ items, list_sets ns st = (inr items, st).
Proof. intros Hq. unfold list_sets. rewrite vcall_quiet by done. eauto. Qed.

(** ** Routes *)

(** A segment of a path. *)
Definition segment (v : string) : Prop := v ≠ "" ∧ has_char "/" v = false.

Lemma route_request_split method segs :
  segs ≠ [] → Forall (λ v, has_char "/" v = false) segs →
  route_request method ("/api/v1/" +:+ Join segs "/") = find_route api_routes method segs.
Proof. intros Hn Hf. unfold route_request. rewrite strip_prefix_app. by rewrite Split_Join. Qed.

Lemma match_segs_length pattern path vars : match_segs pattern path = Some vars → length pattern = length path.
Proof.
  revert path vars. induction pattern as [|[l|] pattern IH]; intros [|p path] vars; cbn; try done.
  - destruct (String.eqb l p); [|done]. intros E. f_equal. by eapply IH.
  - destruct (String.eqb p ""); [done|]. intros (v & E & _)%fmap_Some. f_equal. by eapply IH.
Qed.

(** Only routes of the length of the path matter. *)
Lemma find_route_length routes method path :
  find_route routes method path = find_route (List.filter (λ r, length (snd (fst r)) =? length path)%nat routes) method path.
Proof.
  induction routes as [|[[m pattern] ep] routes IH]; [done|]. cbn [find_route List.filter fst snd].
  destruct (Nat.eqb_spec (length pattern) (length path)) as [Hl|Hl]; cbn [find_route]; rewrite IH; [done|].
  destruct (match_segs pattern path) as [vars|] eqn:E; [|by destruct (String.eqb m method)]. by apply match_segs_length in E.
Qed.

Ltac route :=
  unfold segment; intros; destruct_and?; rewrite route_request_split; [|done|repeat (apply Forall_cons_2; [done|]); apply Forall_nil_2];
  rewrite find_route_length; cbn;
  repeat match goal with H : ?v ≠ "" |- context [String.eqb ?v ""] => rewrite (proj2 (String.eqb_neq v "") H) end; done.

Lemma route_packages mt slug : segment mt → segment slug →
  route_request "GET" ("/api/v1/" +:+ Join ["targets"; mt; "catalogs"; slug; "packages.json"] "/") = Some (EpFilteredPackages, [mt; slug]).
Proof. route. Qed.
Lemma route_upstream mt slug : segment mt → segment slug →
  route_request "GET" ("/api/v1/" +:+ Join ["targets"; mt; "catalogs"; slug; "upstream-packages.json"] "/") = Some (EpUpstreamPackages, [mt; slug]).
Proof. route. Qed.
Lemma route_signatures mt : segment mt →
  route_request "GET" ("/api/v1/" +:+ Join ["targets"; mt; "signatures.yaml"] "/") = Some (EpSignatures, [mt]).
Proof. route. Qed.
Lemma route_idms mt : segment mt →
  route_request "GET" ("/api/v1/" +:+ Join ["targets"; mt; "imagesets"; "latest"; "idms.yaml"] "/") = Some (EpIDMS, [mt; "latest"]).
Proof. route. Qed.
Lemma route_itms mt : segment mt →
  route_request "GET" ("/api/v1/" +:+ Join ["targets"; mt; "imagesets"; "latest"; "itms.yaml"] "/") = Some (EpITMS, [mt; "latest"]).
Proof. route. Qed.
Lemma route_catalogsource mt slug : segment mt → segment slug →
  route_request "GET" ("/api/v1/" +:+ Join ["targets"; mt; "imagesets"; "latest"; "catalogs"; slug; "catalogsource.yaml"] "/") = Some (EpCatalogSource, [mt; "latest"; slug]).
Proof. route. Qed.
Lemma route_clustercatalog mt slug : segment mt → segment slug →
  route_request "GET" ("/api/v1/" +:+ Join ["targets"; mt; "imagesets"; "latest"; "catalogs"; slug; "clustercatalog.yaml"] "/") = Some (EpClusterCatalog, [mt; "latest"; slug]).
Proof. route. Qed.

(** ** Links *)

Lemma yaml_key q key :
  HasPrefix key (q +:+ "-") = true → HasSuffix key ".yaml" = true →
  key = q +:+ "-" +:+ TrimSuffix (TrimPrefix key (q +:+ "-")) ".yaml" +:+ ".yaml".
Proof.
  intros [r ->]%HasPrefix_spec Hs. rewrite TrimPrefix_app. apply TrimSuffix_split in Hs.
  set (t := TrimSuffix _ ".yaml") in Hs at 1. clearbody t. rewrite <- (app_assoc_s q) in Hs |- *. f_equal. f_equal.
  destruct (Nat.le_gt_cases 5 (String.length r)) as [Hl|Hl].
  - destruct (app_suffix (q +:+ "-") r t ".yaml") as [t' ->]; [by rewrite <- app_assoc_s|done|]. by rewrite TrimSuffix_app.
  - exfalso. destruct (app_suffix t ".yaml" q ("-" +:+ r)) as [t' E]; [done|rewrite length_app_s; cbn; lia|].
    assert (Hc : has_char "-" ".yaml" = true) by (rewrite E, !has_char_app; cbn; by rewrite orb_true_r). done.
Qed.

(** Keys a ConfigMap can have, and that name a catalog. *)
Definition keys_ok (data : gmap string string) : Prop := ∀ key v, data !! key = Some v →
  has_char "/" key = false ∧ key ≠ "catalogsource-.yaml" ∧ key ≠ "clustercatalog-.yaml".

(** The ConfigMaps with packages are where they are looked up. *)
Definition packages_wf (st : Store) : Prop := ∀ ns name cm slug mt,
  st_cms st !! (ns, name) = Some cm → lc_Labels cm !! packages_label = Some slug → lc_Labels cm !! target_label = Some mt →
  name = packages_name false mt slug ∧ is_Some (lc_Data cm !! "packages.json") ∧ has_char "/" slug = false.

(** Keys of signatures that name the digest of a release, or at least the twelve
    characters the name of its ConfigMap takes from it. *)
Definition signatures_ok (data : gmap string string) : Prop := ∀ key v, data !! key = Some v →
  12 ≤ String.length (TrimPrefix (signature_digest key) "sha256:").

(** The URL is routed to an endpoint that answers with a document. *)
Definition resolves `{PackagesJSON} `{Marshal} (encode : string → string) (decode : string → option string) (s : Server) (st : Store) (url : string) : Prop :=
  ∃ ep vars doc, route_request "GET" url = Some (ep, vars) ∧ serve encode decode s ep vars st = Some (inr (Some doc)).

(** Signatures whose digests are long enough are written. *)
Lemma signature_docs_ok `{Marshal} sigs digests docs :
  (∀ cm, is_Some (marshal (DocSignature cm))) → Forall (λ d, 12 ≤ String.length (TrimPrefix d "sha256:")) digests →
  ∃ out, signature_docs sigs digests docs = SigOk out.
Proof.
  intros Hm Hd. revert docs. induction Hd as [|d digests Hl _ IH]; intros docs; cbn [signature_docs]; [by eexists|].
  unfold signature_cm. destruct (Nat.ltb_spec (String.length (TrimPrefix d "sha256:")) 12); [lia|].
  match goal with |- context [marshal (DocSignature ?x)] => destruct (Hm x) as [doc ->] end. apply IH.
Qed.

Lemma signatures_written `{Marshal} encode decode data :
  (∀ b, decode (encode b) = Some b) → (∀ cm, is_Some (marshal (DocSignature cm))) → signatures_ok data →
  ∃ out, GenerateSignatureConfigMapsBase64 decode
    (list_to_map (List.map (λ p, (signature_digest (fst p), encode (snd p))) (map_to_list data))) = SigOk out.
Proof.
  intros Hb Hm Hok. set (b64 := list_to_map _ : gmap string string).
  assert (Hin : ∀ d x, b64 !! d = Some x → ∃ k v, data !! k = Some v ∧ d = signature_digest k ∧ x = encode v).
  { intros d x Hd. apply elem_of_list_to_map_2, elem_of_map in Hd as ([k v] & Hkv & [= -> ->]). exists k, v. by apply elem_of_map_to_list in Hkv. }
  assert (Hdom : dom (omap decode b64) = dom b64).
  { apply set_eq. intros d. rewrite !elem_of_dom, lookup_omap. destruct (b64 !! d) as [x|] eqn:E; [|done].
    destruct (Hin d x E) as (k & v & _ & _ & ->). cbn. rewrite Hb. by split; eexists. }
  unfold GenerateSignatureConfigMapsBase64. rewrite bool_decide_eq_true_2 by done. unfold GenerateSignatureConfigMaps.
  case_decide; [by eexists|]. apply signature_docs_ok; [done|]. apply Forall_forall. intros d Hd.
  rewrite sort_strings_perm in Hd. apply elem_of_elements in Hd. rewrite Hdom, elem_of_dom in Hd. destruct Hd as [x Hx].
  destruct (Hin d x Hx) as (k & v & Hk & -> & _). by apply (Hok k v).
Qed.

Lemma catalog_summaries_elem `{PackagesJSON} mtName owners seen cms c :
  c ∈ catalog_summaries mtName owners seen cms → ∃ cm slug, cm ∈ cms ∧ cm_slug cm = Some slug ∧ c = catalog_summary mtName owners slug cm.
Proof.
  revert seen. induction cms as [|cm cms IH]; intros seen; cbn; [set_solver|].
  destruct (cm_slug cm) as [slug|] eqn:E; [case_bool_decide|].
  - intros Hc. destruct (IH _ Hc) as (cm' & slug' & ? & ? & ?). exists cm', slug'. set_solver.
  - intros [->|Hc]%elem_of_cons; [exists cm, slug; set_solver|]. destruct (IH _ Hc) as (cm' & slug' & ? & ? & ?). exists cm', slug'. set_solver.
  - intros Hc. destruct (IH _ Hc) as (cm' & slug' & ? & ? & ?). exists cm', slug'. set_solver.
Qed.

Lemma list_cms_elem st ns label value cms cm :
  quiet_store st → fst (list_cms ns label value st) = inr cms → cm ∈ cms → ∃ name, st_cms st !! (ns, name) = Some cm ∧ lc_Labels cm !! label = Some value.
Proof.
  intros Hq. unfold list_cms. rewrite vcall_quiet by done. cbn. intros [= <-]. rewrite elem_of_map. intros ([[ns' name] cm'] & Hin & ->).
  apply elem_of_filter_bool in Hin as [Hf Hin]. cbn in *. apply elem_of_map_to_list in Hin.
  apply andb_true_iff in Hf as [Hn Hl]. apply String.eqb_eq in Hn as ->. apply bool_decide_eq_true in Hl. eauto.
Qed.

Section links.
Context `{PackagesJSON} `{Marshal} (encode : string → string) (decode : string → option string).
Context (s : Server) (mtName : string) (st : Store) (t : Target) (st' : Store).
Context (Hq : quiet_store st) (Ht : LookupMirrorTarget s mtName st = (inr t, st')) (Hmt : segment mtName).

Lemma resolves_doc url ep vars (h : Store → (Z + string * string) * Store) doc :
  route_request "GET" url = Some (ep, vars) → serve encode decode s ep vars st = Some (match fst (h st) with inl c => inl c | inr d => inr (Some d) end) →
  fst (h st) = inr doc → resolves encode decode s st url.
Proof. intros Hd Hs Hh. exists ep, vars, doc. by rewrite Hs, Hh. Qed.

Lemma resource_link_resolves cm link :
  st_cms st !! (tt_Namespace t, ResourcesConfigMapName mtName) = Some cm → keys_ok (lc_Data cm) →
  link ∈ buildResourceLinks mtName cm → resolves encode decode s st (rl_URL link).
Proof.
  intros Hc Hk. unfold buildResourceLinks. rewrite !elem_of_app. intros [Hl|[Hl|Hl]].
  - case_bool_decide as Hi; [|set_solver]. apply list_elem_of_singleton in Hl as ->. destruct Hi as [v Hv].
    cbn [rl_URL]; unfold latest_base; rewrite <- !app_assoc_s; eapply resolves_doc; [apply (route_idms mtName Hmt)|done|by eapply serve_found].
  - case_bool_decide as Hi; [|set_solver]. apply list_elem_of_singleton in Hl as ->. destruct Hi as [v Hv].
    cbn [rl_URL]; unfold latest_base; rewrite <- !app_assoc_s; eapply resolves_doc; [apply (route_itms mtName Hmt)|done|by eapply serve_found].
  - apply elem_of_concat_map in Hl as ([key v] & Hkv & Hl). apply elem_of_map_to_list in Hkv. destruct (Hk key v Hkv) as (Hs1 & Hs2 & Hs3).
    cbn [fst] in Hl. unfold key_link in Hl. destruct (HasSuffix key ".yaml") eqn:Es; [|set_solver].
    assert (Hseg : ∀ q, key = q +:+ "-" +:+ TrimSuffix (TrimPrefix key (q +:+ "-")) ".yaml" +:+ ".yaml" → key ≠ q +:+ "-.yaml" →
      segment (TrimSuffix (TrimPrefix key (q +:+ "-")) ".yaml")).
    { intros q E Hne. split; [intros E0; rewrite E0 in E; apply Hne; exact E|].
      rewrite E, !has_char_app in Hs1. rewrite !orb_false_iff in Hs1. by destruct Hs1 as (_ & _ & ? & _). }
    destruct (HasPrefix key "catalogsource-") eqn:Ep; [|destruct (HasPrefix key "clustercatalog-") eqn:Ep'; [|set_solver]];
      apply list_elem_of_singleton in Hl as ->.
    + pose proof (yaml_key "catalogsource" key Ep Es) as E. pose proof (Hseg "catalogsource" E Hs2) as Hsl.
      cbn [rl_URL]; unfold latest_base; rewrite <- !app_assoc_s; eapply resolves_doc; [apply (route_catalogsource mtName _ Hmt Hsl)|done|].
      eapply serve_found; [done|done|done|]. by rewrite <- Hkv; f_equal.
    + pose proof (yaml_key "clustercatalog" key Ep' Es) as E. pose proof (Hseg "clustercatalog" E Hs3) as Hsl.
      cbn [rl_URL]; unfold latest_base; rewrite <- !app_assoc_s; eapply resolves_doc; [apply (route_clustercatalog mtName _ Hmt Hsl)|done|].
      eapply serve_found; [done|done|done|]. by rewrite <- Hkv; f_equal.
Qed.

Lemma signature_link_resolves cm link :
  (∀ b, decode (encode b) = Some b) → (∀ cm, is_Some (marshal (DocSignature cm))) →
  st_cms st !! (tt_Namespace t, signatures_name mtName) = Some cm → signatures_ok (lc_BinaryData cm) →
  link ∈ signature_links mtName (Some cm) → resolves encode decode s st (rl_URL link).
Proof.
  intros Hb Hm Hc Hok. unfold signature_links. case_match; [|set_solver]. rewrite list_elem_of_singleton. intros ->.
  destruct (signatures_written encode decode (lc_BinaryData cm) Hb Hm Hok) as [out Hout].
  exists EpSignatures, [mtName], ("text/yaml", out).
  split; [apply (route_signatures mtName Hmt)|]. cbn [serve].
  unfold handleSignatures, or_code. rewrite Ht. pose proof (Lookup_quiet s mtName st Hq) as Hl. rewrite Ht in Hl. cbn in Hl. subst st'.
  rewrite get_cm_quiet by done. rewrite Hc. cbn. by rewrite Hout.
Qed.

Lemma catalog_link_resolves owners cms c :
  packages_wf st → fst (list_cms (tt_Namespace t) target_label mtName st) = inr cms → c ∈ catalog_summaries mtName owners [] cms →
  resolves encode decode s st (ct_FilteredPackagesURL c).
Proof.
  intros Hwf Hl Hc. destruct (catalog_summaries_elem _ _ _ _ _ Hc) as (cm & slug & Hcm & Hslug & ->).
  destruct (list_cms_elem _ _ _ _ _ _ Hq Hl Hcm) as (name & Hn & Hlab). unfold cm_slug in Hslug.
  destruct (lc_Labels cm !! packages_label) as [sl|] eqn:El; [|done]. destruct (String.eqb_spec sl "") as [|Hne]; [done|]. injection Hslug as ->.
  destruct (Hwf _ _ _ _ _ Hn El Hlab) as (-> & [v Hv] & Hs).
  cbn [catalog_summary ct_FilteredPackagesURL]; unfold catalog_base; rewrite <- !app_assoc_s.
  eapply resolves_doc; [apply (route_packages mtName slug Hmt); by split|done|by eapply serve_found].
Qed.

(** Every link of the details leads to its document. *)
Lemma detail_links_resolve d st2 :
  packages_wf st → (∀ b, decode (encode b) = Some b) → (∀ cm, is_Some (marshal (DocSignature cm))) →
  (∀ cm, st_cms st !! (tt_Namespace t, ResourcesConfigMapName mtName) = Some cm → keys_ok (lc_Data cm)) →
  (∀ cm, st_cms st !! (tt_Namespace t, signatures_name mtName) = Some cm → signatures_ok (lc_BinaryData cm)) →
  handleTargetDetail s mtName st = (inr d, st2) → ∀ link, link ∈ td_Resources d → resolves encode decode s st (rl_URL link).
Proof.
  intros Hwf Hb Hm Hkeys Hsigs. unfold handleTargetDetail, or_code. rewrite Ht. pose proof (Lookup_quiet s mtName st Hq) as Hl0. rewrite Ht in Hl0.
  cbn [snd] in Hl0. rewrite Hl0, !or_none_get by done. destruct (list_cms_quiet st (tt_Namespace t) target_label mtName Hq) as [cms Hcms].
  destruct (list_sets_quiet st (tt_Namespace t) Hq) as [items Hitems].
  rewrite (or_none_inr _ cms) by done. unfold buildCatalogOwnershipMaps. rewrite Hitems.
  destruct (ownership _ _ _) as [own1 own2]. rewrite (or_none_inr _ items) by done. unfold ok. intros [= <- _] link.
  cbn [td_Resources default]. rewrite !elem_of_app. intros [Hl|[Hl|Hl]].
  - destruct (st_cms st !! (tt_Namespace t, ResourcesConfigMapName mtName)) as [cm|] eqn:Ecm; [|set_solver].
    eapply resource_link_resolves; [done|by apply Hkeys|done].
  - destruct (st_cms st !! (tt_Namespace t, signatures_name mtName)) as [cm|] eqn:Ecm; [|set_solver].
    eapply signature_link_resolves; [done|done|done|by apply Hsigs|done].
  - apply elem_of_map in Hl as (c & Hc & ->). cbn [packages_link rl_URL]. eapply catalog_link_resolves; [done|by rewrite Hcms|done].
Qed.
End links.

(** ** Writing the packages *)

Lemma vcall_cases {A} (f : Store → (viewErr + A) * Store) st :
  ∃ st', st_cms st' = st_cms st ∧ ((∃ e, vcall f st = (inl e, st')) ∨ vcall f st = f st').
Proof.
  unfold vcall. exists (mkStore (st_cms st) (st_targets st) (st_sets st) (tail (st_faults st))). split; [done|].
  destruct (head (st_faults st)) as [[e|]|]; eauto.
Qed.

Lemma get_cm_cms ns name st : st_cms (snd (get_cm ns name st)) = st_cms st.
Proof.
  destruct (vcall_cases (λ st, (found (st_cms st !! (ns, name)), st)) st) as (st' & E & [[e H]|H]); unfold get_cm; by rewrite H.
Qed.

Lemma get_target_cms ns name st : st_cms (snd (get_target ns name st)) = st_cms st.
Proof. unfold get_target. destruct (vcall_cases (λ st, (found (List.find (λ t, String.eqb (tt_Namespace t) ns && String.eqb (tt_Name t) name) (st_targets st)), st)) st)
  as (st' & E & [[e H]|H]); by rewrite H. Qed.

Lemma put_cm_cms ns name cm st :
  (fst (put_cm ns name cm st) = inr tt ∧ st_cms (snd (put_cm ns name cm st)) = <[(ns, name) := cm]> (st_cms st)) ∨
  ((∃ e, fst (put_cm ns name cm st) = inl e) ∧ st_cms (snd (put_cm ns name cm st)) = st_cms st).
Proof.
  unfold put_cm. destruct (vcall_cases (λ st, (inr tt, mkStore (<[(ns, name) := cm]> (st_cms st)) (st_targets st) (st_sets st) (st_faults st))) st)
    as (st' & E & [[e H]|H]); rewrite H; cbn; [right; eauto|left; by rewrite E].
Qed.

Section writing.
Context `{PackagesJSON} (ns T : string).

Lemma writeCatalogPackagesCM_effect slug info cfg isUpstream st :
  let '(r, st') := writeCatalogPackagesCM ns T slug info cfg isUpstream st in
  (r = inr tt ∧ ∃ cm, st_cms st' = <[(ns, packages_name isUpstream T slug) := cm]> (st_cms st) ∧
     lc_Labels cm = lc_Labels (packages_cm T slug info cfg isUpstream) ∧ lc_Data cm = lc_Data (packages_cm T slug info cfg isUpstream)) ∨
  ((∃ e, r = inl e) ∧ st_cms st' = st_cms st).
Proof.
  unfold writeCatalogPackagesCM. cbv zeta. rewrite attempt_bind, attempt_bind.
  set (st1 := snd (get_target ns T st)). set (owner := match fst (get_target ns T st) with inr _ => Some T | inl _ => None end).
  assert (E1 : st_cms st1 = st_cms st) by apply get_target_cms.
  pose proof (get_cm_cms ns (packages_name isUpstream T slug) st1) as E2.
  destruct (get_cm ns (packages_name isUpstream T slug) st1) as [g st2]. cbn [fst snd] in *.
  assert (Hput : ∀ cm, let '(r, st') := put_cm ns (packages_name isUpstream T slug) cm st2 in
    r = inr tt ∧ st_cms st' = <[(ns, packages_name isUpstream T slug) := cm]> (st_cms st) ∨ (∃ e, r = inl e) ∧ st_cms st' = st_cms st).
  { intros cm. pose proof (put_cm_cms ns (packages_name isUpstream T slug) cm st2) as Hp. rewrite E2, E1 in Hp.
    by destruct (put_cm ns (packages_name isUpstream T slug) cm st2). }
  destruct g as [[]|old].
  - specialize (Hput (mkLabelledCM (lc_Labels (packages_cm T slug info cfg isUpstream)) (lc_Data (packages_cm T slug info cfg isUpstream)) ∅ owner)).
    destruct (put_cm _ _ _ st2) as [r st']. destruct Hput as [[-> ->]|?]; [left|by right]. split; [done|]. by eexists.
  - right. cbn. rewrite E2, E1. eauto.
  - right. cbn. rewrite E2, E1. eauto.
  - set (o := match lc_Owner old with Some o => Some o | None => owner end).
    specialize (Hput (mkLabelledCM (lc_Labels (packages_cm T slug info cfg isUpstream)) (lc_Data (packages_cm T slug info cfg isUpstream)) (lc_BinaryData old) o)).
    destruct (put_cm _ _ _ st2) as [r st']. destruct Hput as [[-> ->]|?]; [left|by right]. split; [done|]. by eexists.
Qed.

Lemma packages_wf_insert (slug : string) info cfg (isUpstream : bool) (st st' : Store) (cm : LabelledCM) :
  has_char "/" slug = false → packages_wf st →
  st_cms st' = <[(ns, packages_name isUpstream T slug) := cm]> (st_cms st) →
  lc_Labels cm = lc_Labels (packages_cm T slug info cfg isUpstream) → lc_Data cm = lc_Data (packages_cm T slug info cfg isUpstream) →
  packages_wf st'.
Proof.
  intros Hs Hwf E El Ed ns' name cm' slug' mt. rewrite E. intros [[[= <- <-] <-]|[_ Hc]]%lookup_insert_Some; [|by apply (Hwf ns')].
  rewrite El, Ed. destruct isUpstream; cbn [packages_cm lc_Labels lc_Data].
  { rewrite lookup_insert_ne by (unfold upstream_label, packages_label; discriminate).
    by rewrite lookup_singleton_ne by (unfold target_label, packages_label; discriminate). }
  rewrite lookup_insert_eq. intros [= <-]. rewrite lookup_insert_ne by (unfold target_label, packages_label; discriminate).
  rewrite lookup_singleton_eq. intros [= <-].
  split_and!; [done|by rewrite lookup_singleton_eq|done].
Qed.

Lemma packages_names_differ slug : packages_name true T slug ≠ packages_name false T slug.
Proof. unfold packages_name. intros E. by repeat apply app_inv_head_s in E. Qed.

Lemma saveCatalogPackages_effect slug info filtered upstream st :
  has_char "/" slug = false → packages_wf st →
  let '(r, st') := saveCatalogPackages ns T slug info filtered upstream st in
  packages_wf st' ∧
  (r = inr tt → ∃ cm1 cm2,
     st_cms st' !! (ns, packages_name false T slug) = Some cm1 ∧ st_cms st' !! (ns, packages_name true T slug) = Some cm2 ∧
     lc_Labels cm1 = lc_Labels (packages_cm T slug info filtered false) ∧ lc_Data cm1 = lc_Data (packages_cm T slug info filtered false) ∧
     lc_Data cm2 = lc_Data (packages_cm T slug info upstream true)).
Proof.
  intros Hs Hwf. unfold saveCatalogPackages. rewrite bind_eq.
  pose proof (writeCatalogPackagesCM_effect slug info filtered false st) as H1.
  destruct (writeCatalogPackagesCM ns T slug info filtered false st) as [r1 st1]. cbn [fst snd].
  assert (Hsame : ∀ s1 s2, st_cms s1 = st_cms s2 → packages_wf s2 → packages_wf s1) by (intros s1 s2 E Hw ? ? ? ? ?; rewrite E; apply Hw).
  destruct H1 as [(-> & cm1 & E1 & El1 & Ed1)|[[e ->] E1]]; [|by split; [eapply Hsame|]].
  pose proof (packages_wf_insert slug info filtered false _ _ _ Hs Hwf E1 El1 Ed1) as Hwf1.
  pose proof (writeCatalogPackagesCM_effect slug info upstream true st1) as H2.
  destruct (writeCatalogPackagesCM ns T slug info upstream true st1) as [r2 st2].
  destruct H2 as [(-> & cm2 & E2 & El2 & Ed2)|[[e ->] E2]]; [|by split; [eapply Hsame|]].
  split; [exact (packages_wf_insert _ _ _ _ _ _ _ Hs Hwf1 E2 El2 Ed2)|]. intros _. exists cm1, cm2. rewrite E2.
  split_and!; [|by rewrite lookup_insert_eq|done|done|done].
  rewrite lookup_insert_ne, E1, lookup_insert_eq; [done|]. intros Heq. apply (packages_names_differ slug). congruence.
Qed.
End writing.

(** ** Reading them back *)

(** A GET request. *)
Definition fetch `{PackagesJSON} `{Marshal} (encode : string → string) (decode : string → option string) (s : Server) (url : string) (st : Store)
    : option (Z + option (string * string)) :=
  match route_request "GET" url with Some (ep, vars) => serve encode decode s ep vars st | None => None end.

Lemma list_cms_has ns name label value cm st cms :
  quiet_store st → list_cms ns label value st = (inr cms, st) → st_cms st !! (ns, name) = Some cm → lc_Labels cm !! label = Some value → cm ∈ cms.
Proof.
  intros Hq. unfold list_cms. rewrite vcall_quiet by done. intros [= <-] Hc Hl. apply elem_of_map. exists (ns, name, cm). split; [|done].
  apply elem_of_filter_bool. split; [cbn; by rewrite String.eqb_refl, bool_decide_eq_true_2|]. by apply elem_of_map_to_list.
Qed.

Section reading.
Context `{PackagesJSON} (T : string) (owners : gmap string (list string)).

Lemma catalog_summaries_has seen cms cm slug :
  cm ∈ cms → cm_slug cm = Some slug → slug ∉ seen → ∃ c, c ∈ catalog_summaries T owners seen cms ∧ ct_Slug c = slug.
Proof.
  revert seen. induction cms as [|cm' cms IH]; intros seen; [set_solver|]. intros Hin Hslug Hns. cbn.
  apply elem_of_cons in Hin as [<-|Hin].
  - rewrite Hslug, bool_decide_eq_false_2 by done. eexists. by split; [left|].
  - destruct (cm_slug cm') as [slug'|]; [|by apply IH]. case_bool_decide; [by apply IH|].
    destruct (decide (slug' = slug)) as [->|Hne]; [eexists; by split; [left|]|].
    destruct (IH (slug' :: seen)) as (c & ? & ?); [done|done|set_solver|]. exists c. split; [by right|done].
Qed.

(** In a well-formed store a slug has one ConfigMap. *)
Lemma catalog_listed ns st cms cm slug c :
  quiet_store st → packages_wf st → segment slug → list_cms ns target_label T st = (inr cms, st) →
  st_cms st !! (ns, packages_name false T slug) = Some cm →
  c ∈ catalog_summaries T owners [] cms → ct_Slug c = slug → c = catalog_summary T owners slug cm.
Proof.
  intros Hq Hwf Hs Hl Hc Hin <-. destruct (catalog_summaries_elem _ _ _ _ _ Hin) as (cm' & slug & Hcm & Hslug & E).
  assert (ct_Slug c = slug) as Hsl by (by rewrite E). destruct (list_cms_elem st ns target_label T cms cm' Hq ltac:(by rewrite Hl) Hcm) as (name & Hn & Hlab).
  unfold cm_slug in Hslug. destruct (lc_Labels cm' !! packages_label) as [sl|] eqn:El; [|done]. destruct (String.eqb sl ""); [done|].
  injection Hslug as ->. destruct (Hwf _ _ _ _ _ Hn El Hlab) as (-> & _ & _). rewrite Hsl in Hc |- *. congruence.
Qed.
End reading.

(** What the details hold when no call fails. *)
Lemma handleTargetDetail_quiet `{PackagesJSON} s T st t :
  quiet_store st → LookupMirrorTarget s T st = (inr t, st) →
  ∃ d owners cms, handleTargetDetail s T st = (inr d, st) ∧ list_cms (tt_Namespace t) target_label T st = (inr cms, st) ∧
    td_Catalogs d = catalog_summaries T owners [] cms.
Proof.
  intros Hq Ht. unfold handleTargetDetail, or_code. rewrite Ht, !or_none_get by done.
  destruct (list_cms_quiet st (tt_Namespace t) target_label T Hq) as [cms Hcms]. destruct (list_sets_quiet st (tt_Namespace t) Hq) as [items Hitems].
  rewrite (or_none_inr _ cms) by done. unfold buildCatalogOwnershipMaps. rewrite Hitems.
  destruct (ownership _ _ _) as [own1 own2]. rewrite (or_none_inr _ items) by done. by eexists _, own1, cms.
Qed.

(** ** Failures and progress *)

Section reports.
Context (load : string → viewErr + gmap string (option ImageEntry)).

(** A state that is loaded, without nil entries. *)
Definition loads (isName : string) (m : gmap string ImageEntry) : Prop := load isName = inr (Some <$> m).

(** One pair of an ImageSet and its state per name. *)
Definition loads_all (names : list string) (ms : list (gmap string ImageEntry)) : Prop := Forall2 loads names ms.

Definition open_image (isName : string) (p : string * ImageEntry) : option FailedImageDetail :=
  if isMirrored (snd p) then None else Some (open_detail isName (fst p) (snd p)).

Lemma open_images_perm isName m : open_images isName (Some <$> m) ≡ₚ omap (open_image isName) (map_to_list m).
Proof.
  unfold open_images. rewrite map_to_list_fmap. induction (map_to_list m) as [|[d e] l IH]; [done|].
  cbn. unfold open_image at 1, isMirrored. cbn [fst snd]. destruct (String.eqb (State e) "Mirrored"); [done|]. by constructor.
Qed.

#[local] Instance filter_bool_perm {A} (f : A → bool) : Proper (Permutation ==> Permutation) (List.filter f).
Proof.
  induction 1 as [|x l l' _ IH|x y l|l1 l2 l3 _ IH1 _ IH2]; cbn; [done|by destruct (f x); [constructor|]| |by etrans].
  destruct (f x), (f y); try done. apply perm_swap.
Qed.

Lemma count_open isName m :
  Z.of_nat (length (List.filter fd_PermanentlyFailed (open_images isName (Some <$> m)))) = count_if isFailed m ∧
  Z.of_nat (length (List.filter (λ d, negb (fd_PermanentlyFailed d)) (open_images isName (Some <$> m)))) = count_if isPending m.
Proof.
  rewrite (open_images_perm isName m). induction m as [|k e m Hk IH] using map_ind; [done|].
  rewrite !count_if_insert, !map_to_list_insert by done. cbn [omap list_omap].
  assert (open_image isName (k, e) = if isMirrored e then None else Some (open_detail isName k e)) as -> by done.
  assert (isFailed e = negb (isMirrored e) && PermanentlyFailed e) as -> by done.
  assert (isPending e = negb (isMirrored e) && negb (PermanentlyFailed e)) as -> by done.
  destruct (isMirrored e); [cbn [negb andb]; lia|]. cbn [List.filter open_detail fd_PermanentlyFailed].
  destruct (PermanentlyFailed e); cbn [negb andb length]; lia.
Qed.

Lemma checked_counts_some m : checked_counts (Some <$> m) = Some (Counts m).
Proof.
  unfold checked_counts. rewrite bool_decide_eq_true_2; [|intros i x; rewrite lookup_fmap; by intros (y & _ & ->)%fmap_Some].
  do 2 f_equal. apply map_eq. intros i. rewrite lookup_omap, lookup_fmap. by destruct (m !! i).
Qed.

Lemma load_open_all names ms :
  loads_all names ms → load_open load names = inr (concat (zip_with (λ n m, open_images n (Some <$> m)) names ms)).
Proof. induction 1 as [|n m names ms Hn _ IH]; [done|]. cbn. rewrite Hn, IH. done. Qed.

(** The counts of several states. *)
Definition sum_counts (ms : list (gmap string ImageEntry)) (c : counts) : counts := foldl add_counts c (List.map Counts ms).

Lemma load_progress_all created names ms p oldest :
  loads_all names ms →
  ∃ p' oldest', load_progress load created names p oldest = Some (inr (p', oldest')) ∧
    tp_Counts p' = sum_counts ms (tp_Counts p) ∧
    tp_ImageSets p' = tp_ImageSets p ++ zip_with (λ n m, mkSetProgress n (Counts m) (percent (c_mirrored (Counts m)) (c_total (Counts m)))) names ms.
Proof.
  intros Hl. revert p oldest. induction Hl as [|n m names ms Hn _ IH]; intros p oldest; [exists p, oldest; by rewrite app_nil_r|].
  cbn. rewrite Hn, checked_counts_some. cbn. edestruct IH as (p' & o' & E & Ec & Es). exists p', o'. split; [exact E|].
  split; [exact Ec|]. rewrite Es. cbn. by rewrite <- app_assoc.
Qed.

Lemma sum_counts_lengths names ms c :
  loads_all names ms →
  let l := concat (zip_with (λ n m, open_images n (Some <$> m)) names ms) in
  c_failed (sum_counts ms c) = (c_failed c + Z.of_nat (length (List.filter fd_PermanentlyFailed l)))%Z ∧
  c_pending (sum_counts ms c) = (c_pending c + Z.of_nat (length (List.filter (λ d, negb (fd_PermanentlyFailed d)) l)))%Z ∧
  (c_total (sum_counts ms c) - c_mirrored (sum_counts ms c) - c_pending (sum_counts ms c) - c_failed (sum_counts ms c)
   = c_total c - c_mirrored c - c_pending c - c_failed c)%Z ∧ (c_mirrored c ≤ c_mirrored (sum_counts ms c))%Z.
Proof.
  intros Hl. revert c. induction Hl as [|n m names ms Hn _ IH]; intros c; [cbn; lia|]. cbv zeta in *. specialize (IH (add_counts c (Counts m))).
  cbn [zip_with concat]. rewrite !List.filter_app, !length_app. destruct (count_open n m) as [Hf Hp].
  change (sum_counts (m :: ms) c) with (sum_counts ms (add_counts c (Counts m))). pose proof (count_if_partition m) as Hpart.
  assert (0 ≤ count_if isMirrored m)%Z by (unfold count_if; lia).
  unfold Counts in *. rewrite map_fold_count_entry in *. cbn [add_counts c_total c_mirrored c_pending c_failed] in *. lia.
Qed.

(** An image that is not mirrored. *)
Definition outstanding (names : list string) (d : FailedImageDetail) : Prop :=
  ∃ n m e, n ∈ names ∧ loads n m ∧ m !! fd_Destination d = Some e ∧ isMirrored e = false ∧ d = open_detail n (fd_Destination d) e.

Lemma outstanding_spec names ms d :
  loads_all names ms → d ∈ concat (zip_with (λ n m, open_images n (Some <$> m)) names ms) ↔ outstanding names d.
Proof.
  induction 1 as [|n m names ms Hn Hl IH]; [split; [set_solver|intros (n & ? & ? & Hin & _); set_solver]|].
  cbn. rewrite elem_of_app, IH, open_images_perm, list_elem_of_omap. split.
  - intros [([dest e] & Hin%elem_of_map_to_list & Ho)|(n' & m' & e & ? & ?)]; [|exists n', m', e; set_solver].
    unfold open_image in Ho. cbn in Ho. destruct (isMirrored e) eqn:Em; [done|]. injection Ho as <-. exists n, m, e. cbn. set_solver.
  - intros (n' & m' & e & [->|Hin]%elem_of_cons & Hm & Hd & Em & Ed); [left|right; by exists n', m', e].
    assert (m' = m) as -> by (unfold loads in *; rewrite Hn in Hm; injection Hm as Hm; by apply (inj (fmap (M := gmap string) Some))).
    exists (fd_Destination d, e). rewrite elem_of_map_to_list. split; [done|]. unfold open_image. cbn. by rewrite Em, <- Ed.
Qed.
End reports.

(** * Properties *)


(** A key that is too short is no error: the handler panics. *)
Lemma short_signature_panics `{Marshal} : GenerateSignatureConfigMapsBase64 Some {["sha256:abc" := "sig"]} = SigPanic.
Proof. reflexivity. Qed.

(** The list of failures and the progress of a target are two views of one
    state.  When the target and the states of its ImageSets can be read and hold no
    nil entry, both answer; the failed (pending) list holds exactly the images that are not
    mirrored and (not) permanently failed; the progress counts as many failed and
    pending images as the lists have, accounts for every image, names the ImageSets
    in order and reports between 0 and 100 percent. *)
Theorem failures_match_progress (s : Server) (load : string → viewErr + gmap string (option ImageEntry)) (created : string → option Z) (now : Z)
    (T : string) (st : Store) (t : Target) (ms : list (gmap string ImageEntry)) :
  LookupMirrorTarget s T st = (inr t, st) → let names := mt_ImageSets (tg_mt (tt_spec t)) in loads_all load names ms →
  ∃ failed pending p,
    handleImageFailures s load T st = (inr (failed, pending), st) ∧ handleTargetProgress s load created now T st = (inr (Some p), st) ∧
    (∀ d, d ∈ failed ↔ outstanding load names d ∧ fd_PermanentlyFailed d = true) ∧
    (∀ d, d ∈ pending ↔ outstanding load names d ∧ fd_PermanentlyFailed d = false) ∧
    c_failed (tp_Counts p) = Z.of_nat (length failed) ∧ c_pending (tp_Counts p) = Z.of_nat (length pending) ∧
    (c_total (tp_Counts p) = c_mirrored (tp_Counts p) + c_pending (tp_Counts p) + c_failed (tp_Counts p))%Z ∧
    List.map ip_Name (tp_ImageSets p) = names ∧
    (0 < snd (tp_Percent p) ∧ 0 ≤ fst (tp_Percent p) ≤ 100 * snd (tp_Percent p))%Z.
Proof.
  intros Ht names Hl. unfold handleImageFailures, handleTargetProgress, or_code. rewrite Ht. fold names.
  rewrite (load_open_all load names ms Hl). set (l := concat _).
  destruct (load_progress_all load created names ms (mkProgress [] (mkCounts 0 0 0 0) (0, 1)%Z None []) None Hl) as (p & oldest & -> & Ec & Es).
  pose proof (sum_counts_lengths load names ms (mkCounts 0 0 0 0) Hl) as (Hf & Hp & Hsum & Hm). fold l in Hf, Hp.
  cbn [tp_Counts tp_ImageSets] in Ec, Es. rewrite <- Ec in Hf, Hp, Hsum, Hm. cbn [c_total c_mirrored c_pending c_failed] in *.
  eexists _, _, _. split; [done|]. split; [done|]. cbn [tp_Counts tp_ImageSets tp_Percent].
  split; [intros d; rewrite elem_of_filter_bool; unfold l; rewrite (outstanding_spec load names ms) by done; tauto|].
  split; [intros d; rewrite elem_of_filter_bool; unfold l; rewrite (outstanding_spec load names ms), negb_true_iff by done; tauto|].
  split; [done|]. split; [done|]. split; [lia|]. split.
  - rewrite Es. clear -Hl. cbn [app]. induction Hl as [|n m names ms _ _ IH]; [done|]. cbn. by rewrite IH.
  - unfold percent. destruct (Z.ltb_spec 0 (c_total (tp_Counts p))); cbn [fst snd]; [|lia]. lia.
Qed.

(** ** What the code does not do *)

Section deviations.
Context `{PackagesJSON}.

(** The packages of one catalog and the upstream packages of another share a name. *)
Lemma package_names_collide T slug : packages_name false T (slug +:+ "-upstream") = packages_name true T slug.
Proof. unfold packages_name. by rewrite <- app_assoc_s. Qed.

(** An entry that is null in the state ends the progress in a panic; the list of
    failures passes over it. *)
Lemma nil_entry_stops_progress s load created now T st t isName rest dest :
  LookupMirrorTarget s T st = (inr t, st) → mt_ImageSets (tg_mt (tt_spec t)) = isName :: rest →
  load isName = inr {[dest := None]} → (∀ n, n ∈ rest → ∃ state, load n = inr state) →
  handleTargetProgress s load created now T st = (inr None, st) ∧ ∃ l, handleImageFailures s load T st = (inr l, st).
Proof.
  intros Ht En El Hr. unfold handleTargetProgress, handleImageFailures, or_code. rewrite Ht, En. cbn. rewrite El.
  split.
  - unfold checked_counts. rewrite bool_decide_eq_false_2; [done|]. intros Hf.
    destruct (Hf dest None) as [x Hx]; [by rewrite lookup_singleton_eq|done].
  - assert (∃ l, load_open load rest = inr l) as [l ->]; [|eauto]. clear -Hr. induction rest as [|n rest IH]; [cbn; eauto|].
    cbn. destruct (Hr n) as [state ->]; [by left|]. destruct IH as [l ->]; [intros n' ?; apply Hr; by right|eauto].
Qed.

(** Without a namespace of its own the server shows the first target of a name in any
    namespace; another of that name cannot be reached. *)
Lemma same_name_conflated T st t1 t2 rest :
  quiet_store st → st_targets st = t1 :: t2 :: rest → tt_Name t1 = T → tt_Name t2 = T →
  LookupMirrorTarget NewServerClusterWide T st = (inr t1, st) ∧
  ∃ l, handleTargetsList NewServerClusterWide st = (inr (target_summary t1 :: target_summary t2 :: l), st).
Proof.
  intros Hq E <- E2. unfold LookupMirrorTarget, handleTargetsList, or_code, list_targets. cbn [NewServerClusterWide sv_namespace String.eqb negb].
  rewrite bind_eq, !vcall_quiet by done. rewrite E. cbn. rewrite String.eqb_refl. split; [done|]. eexists. done.
Qed.
End deviations.

(** * Witnesses *)

(** ** A codec with its law *)

#[local] Instance bundle_entry_eq_dec : EqDecision BundleEntry.
Proof. solve_decision. Defined.
#[local] Instance channel_summary_eq_dec : EqDecision ChannelSummary.
Proof. solve_decision. Defined.
#[local] Instance package_summary_eq_dec : EqDecision PackageSummary.
Proof. solve_decision. Defined.
#[local] Instance packages_response_eq_dec : EqDecision CatalogPackagesResponse.
Proof. solve_decision. Defined.
#[local] Instance bundle_entry_countable : Countable BundleEntry.
Proof. refine (inj_countable' (λ b, (be_Name b, be_Version b)) (λ '(n, v), mkBundleEntry n v) _). by intros []. Defined.
#[local] Instance channel_summary_countable : Countable ChannelSummary.
Proof.
  refine (inj_countable' (λ c, (cs_Name c, cs_Entries c, cs_Versions c, cs_BundleNames c)) (λ '(n, e, v, b), mkChannelSummary n e v b) _). by intros [].
Defined.
#[local] Instance package_summary_countable : Countable PackageSummary.
Proof. refine (inj_countable' (λ p, (pks_Name p, pks_DefaultChannel p, pks_Channels p)) (λ '(n, d, c), mkPackageSummary n d c) _). by intros []. Defined.
#[local] Instance packages_response_countable : Countable CatalogPackagesResponse.
Proof. refine (inj_countable' (λ r, (cpr_Catalog r, cpr_TargetImage r, cpr_Packages r)) (λ '(c, t, p), mkPackagesResponse c t p) _). by intros []. Defined.

Fixpoint bits (p : positive) : string := match p with xH => "" | xO p => String "0" (bits p) | xI p => String "1" (bits p) end.
Fixpoint unbits (s : string) : positive :=
  match s with "" => xH | String c s => if Ascii.eqb c "0" then xO (unbits s) else xI (unbits s) end.
Lemma unbits_bits p : unbits (bits p) = p.
Proof. induction p; cbn; congruence. Qed.

Definition ex_packages_json : PackagesJSON :=
  {| packages_Marshal r := bits (countable.encode r); packages_Unmarshal s := countable.decode (unbits s) |}.
Lemma ex_packages_laws : @PackagesJSONLaws ex_packages_json.
Proof. constructor. intros r. cbn. by rewrite unbits_bits, decode_encode. Qed.

Definition ex_view_marshal : Marshal := λ _, Some "doc".
Definition ex_view_store : Store :=
  mkStore {[("ns", ResourcesConfigMapName "t") := mkLabelledCM ∅ {["idms.yaml" := "i"; "catalogsource-ops.yaml" := "c"]} ∅ None]} [ex_running] [] [].
Definition ex_view_info : CatalogInfo := mkCatalogInfo "quay.io/ops:v1" "reg/ops:v1" "ops".
Definition ex_saved : (viewErr + unit) * Store :=
  @saveCatalogPackages ex_packages_json "ns" "t" "ops" ex_view_info ex_pi_config ex_pi_config ex_view_store.


Definition ex_report_state : gmap string ImageEntry :=
  let entry source state permanent := mkImageEntry source state "" 0 "" "" "" "" false permanent None false "" in
  {["reg/a:1" := entry "src/a:1" "Mirrored" false; "reg/b:1" := entry "src/b:1" "Failed" true; "reg/c:1" := entry "src/c:1" "Pending" false]}.

Lemma failures_match_progress_witness :
  ∃ failed pending p, let load := λ _ : string, inr (Some <$> ex_report_state) : viewErr + gmap string (option ImageEntry) in
    handleImageFailures (NewServer "ns") load "t" ex_view_store = (inr (failed, pending), ex_view_store) ∧
    handleTargetProgress (NewServer "ns") load (λ _, None) 0 "t" ex_view_store = (inr (Some p), ex_view_store) ∧
    c_failed (tp_Counts p) = Z.of_nat (length failed) ∧ c_pending (tp_Counts p) = Z.of_nat (length pending).
Proof.
  destruct (failures_match_progress (NewServer "ns") (λ _, inr (Some <$> ex_report_state)) (λ _, None) 0 "t" ex_view_store ex_running [ex_report_state])
    as (failed & pending & p & Hf & Hp & _ & _ & Hc & Hd & _); [reflexivity|by constructor; [|constructor]|].
  exists failed, pending, p. by split_and!.
Defined.

(** The numbers of the example: one image of each kind. *)
Example progress_example :
  match fst (handleTargetProgress (NewServer "ns") (λ _, inr (Some <$> ex_report_state)) (λ _, Some 10%Z) 40 "t" ex_view_store) with
  | inr (Some p) => (tp_Counts p, tp_Percent p, tp_EtaSeconds p)
  | _ => (mkCounts 0 0 0 0, (0, 0)%Z, None)
  end = (mkCounts 3 1 1 1, (100, 3)%Z, Some (30, 1)%Z).
Proof. vm_compute. reflexivity. Qed.

(** So do the catalogs of two targets. *)
Example colliding_targets : packages_name false "a-b" "c" = packages_name false "a" "b-c".
Proof. reflexivity. Qed.

(** Two catalogs whose ConfigMaps collide. *)
Example colliding_catalogs :
  packages_name false "t" (CatalogSlug "quay.io/ops:v1-upstream") = packages_name true "t" (CatalogSlug "quay.io/ops:v1").
Proof. vm_compute. reflexivity. Qed.
