(* ===== verification/Channels.v ===== *)
(** * Release channels for the browser

    [getOCPChannels] of pkg/resourceapi/server.go with its cache: the files of a
    GitHub directory, a ConfigMap, or a built-in list.  The HTTP request with the
    decoding of its body is a parameter; times are in nanoseconds. *)
From Stdlib Require Import DecimalString.
From S2P Require Import Prelude Effects GoStrings ResourceViews.

Record ocpChannelEntry := mkChannelEntry { oe_Name : string; oe_Type : string; oe_Version : string }.
Record githubContentEntry := mkContentEntry { gc_Name : string; gc_Type : string }.

(** [cc_entries] is [None] for nil. *)
Record channelCacheState := mkCache { cc_entries : option (list ocpChannelEntry); cc_fetchedAt : Z }.

Definition platformTypeOKD : string := "okd".
Definition channelCacheTTL : Z := 3600 * 1000000000.

(** The value [strconv.Atoi] returns beside its error: 0, or the nearest [int]. *)
Definition atoi_value (s : string) : Z :=
  match Atoi s with
  | Some z => z
  | None =>
    match match s with String "+" s' => option_map Decimal.Pos (NilZero.uint_of_string s') | _ => NilZero.int_of_string s end with
    | Some i => if (Z.of_int i <? 0)%Z then min_int64 else max_int64
    | None => 0%Z
    end
  end.

Definition minor_of (ver : string) : Z := atoi_value (List.nth 1 (Split "." ver) "").
Definition odd_minor (ver : string) : bool := negb (Z.rem (minor_of ver) 2 =? 0)%Z.

Definition platform_type (t : string) : string := if String.eqb t platformTypeOKD then platformTypeOKD else "ocp".

Definition defaultOCPChannels : list ocpChannelEntry :=
  concat (List.map (λ ver,
    concat (List.map (λ t, if String.eqb t "eus" && odd_minor ver then [] else [mkChannelEntry (t +:+ "-" +:+ ver) "ocp" ver])
      ["stable"; "fast"; "eus"; "candidate"]))
    ["4.14"; "4.15"; "4.16"; "4.17"; "4.18"; "4.19"; "4.20"; "4.21"]).

(** No entry is an error. *)
Definition some_entries (entries : list ocpChannelEntry) : option (list ocpChannelEntry) :=
  match entries with [] => None | _ => Some entries end.

(** ** GitHub *)

Definition github_entry (f : githubContentEntry) : list ocpChannelEntry :=
  if negb (String.eqb (gc_Type f) "file") || negb (HasSuffix (gc_Name f) ".yaml") then []
  else
    let baseName := TrimSuffix (gc_Name f) ".yaml" in
    match cut_last "-" baseName with
    | None => []
    | Some (chType, ver) => if negb (Contains ver ".") then [] else [mkChannelEntry baseName (platform_type chType) ver]
    end.

(** [contents]: the decoded answer with status 200, [None] for any failure. *)
Definition fetchChannelsFromGitHub (contents : option (list githubContentEntry)) : option (list ocpChannelEntry) :=
  files ← contents;
  some_entries (concat (List.map github_entry files)).

(** ** The ConfigMap *)

Definition version_entries (channelTypes : list string) (ver : string) : list ocpChannelEntry :=
  let ver := TrimSpace ver in
  if String.eqb ver "" || negb (Contains ver ".") then []
  else
    concat (List.map (λ t,
      let t := TrimSpace t in
      if String.eqb t "" then []
      else if String.eqb t "eus" && odd_minor ver then []
      else [mkChannelEntry (t +:+ "-" +:+ ver) (platform_type t) ver]) channelTypes).

Definition configmap_entries (data : gmap string string) : option (list ocpChannelEntry) :=
  let versionsStr := TrimSpace (default "" (data !! "versions")) in
  if String.eqb versionsStr "" then None
  else
    let given := TrimSpace (default "" (data !! "channelTypes")) in
    let channelTypesStr := if String.eqb given "" then "stable,fast,eus,candidate" else given in
    some_entries (concat (List.map (version_entries (Split "," channelTypesStr)) (Split "," versionsStr))).

Definition fetchChannelsFromConfigMap (s : Server) (st : Store) : option (list ocpChannelEntry) * Store :=
  if String.eqb (sv_namespace s) "" then (None, st)
  else match get_cm (sv_namespace s) "oc-mirror-ocp-versions" st with
       | (inl _, st) => (None, st)
       | (inr cm, st) => (configmap_entries (lc_Data cm), st)
       end.

(** ** The list *)

Definition cached_channels (now : Z) (cache : channelCacheState) : option (list ocpChannelEntry) :=
  match cc_entries cache with
  | Some entries => if (now - cc_fetchedAt cache <? channelCacheTTL)%Z then Some entries else None
  | None => None
  end.

(** [now] is the time of the lookup, [now'] that of the fetch. *)
Definition getOCPChannels (s : Server) (now now' : Z) (contents : option (list githubContentEntry)) (cache : channelCacheState) (st : Store)
    : list ocpChannelEntry * channelCacheState * Store :=
  match cached_channels now cache with
  | Some entries => (entries, cache, st)
  | None =>
    match fetchChannelsFromGitHub contents with
    | Some entries => (entries, mkCache (Some entries) now', st)
    | None =>
      match fetchChannelsFromConfigMap s st with
      | (Some entries, st) => (entries, mkCache (Some entries) now', st)
      | (None, st) => (defaultOCPChannels, cache, st)
      end
    end
  end.

Definition handleGetOCPChannels := getOCPChannels.

(** * Lemmas *)

(** An entry is named after its kind of channel and its version, and its platform
    is that of the kind. *)
Definition entry_ok (e : ocpChannelEntry) : Prop :=
  ∃ t, oe_Name e = t +:+ "-" +:+ oe_Version e ∧ oe_Type e = platform_type t ∧ has_char "." (oe_Version e) = true.

Definition list_ok (l : list ocpChannelEntry) : Prop := l ≠ [] ∧ Forall entry_ok l.

(** Nothing but lists that may be shown is cached. *)
Definition cache_ok (cache : channelCacheState) : Prop := ∀ l, cc_entries cache = Some l → list_ok l.

Lemma default_ok : list_ok defaultOCPChannels.
Proof.
  split; [vm_compute; discriminate|]. apply List.Forall_forall. intros e He.
  assert (Hb : forallb (λ e, match cut "-" (oe_Name e) with
                             | Some (t, v) => String.eqb v (oe_Version e) && String.eqb (oe_Type e) (platform_type t) && has_char "." v
                             | None => false end) defaultOCPChannels = true) by (vm_compute; reflexivity).
  rewrite forallb_forall in Hb. specialize (Hb e He). destruct (cut "-" (oe_Name e)) as [[t v]|] eqn:E; [|done].
  apply andb_true_iff in Hb as [[Hv%String.eqb_eq Ht%String.eqb_eq]%andb_true_iff Hd]. subst v. apply cut_Some in E. by exists t.
Qed.

Lemma some_entries_ok l l' : some_entries l = Some l' → Forall entry_ok l → list_ok l'.
Proof. destruct l; [done|]. intros [= <-] Hf. by split. Qed.

Lemma Forall_concat_map {A B} (P : B → Prop) (f : A → list B) l : (∀ x, Forall P (f x)) → Forall P (concat (List.map f l)).
Proof. intros Hf. induction l as [|x l IH]; [constructor|]. cbn. apply Forall_app. by split. Qed.

Lemma github_ok contents l : fetchChannelsFromGitHub contents = Some l → list_ok l.
Proof.
  unfold fetchChannelsFromGitHub. destruct contents as [files|]; [|done]. cbn. intros E. eapply some_entries_ok; [exact E|].
  apply Forall_concat_map. intros f. unfold github_entry. destruct (_ || _); [constructor|].
  destruct (cut_last "-" _) as [[t v]|] eqn:Ec; [|constructor]. destruct (Contains v ".") eqn:Ev; [|constructor]. cbn [negb].
  constructor; [|constructor]. exists t. cbn. apply cut_last_Some in Ec. by rewrite <- Contains_char.
Qed.

Lemma version_entries_ok types ver : Forall entry_ok (version_entries types ver).
Proof.
  unfold version_entries. cbv zeta. destruct (Contains (TrimSpace ver) ".") eqn:Ev; [|rewrite orb_true_r; constructor].
  destruct (String.eqb (TrimSpace ver) ""); [constructor|]. cbn [orb negb]. apply Forall_concat_map. intros t.
  destruct (String.eqb (TrimSpace t) ""); [constructor|]. destruct (_ && _); [constructor|].
  constructor; [|constructor]. exists (TrimSpace t). cbn. by rewrite <- Contains_char.
Qed.

Lemma configmap_ok data l : configmap_entries data = Some l → list_ok l.
Proof.
  unfold configmap_entries. cbv zeta. destruct (String.eqb (TrimSpace (default "" (data !! "versions"))) ""); [done|].
  intros E. eapply some_entries_ok; [exact E|]. apply Forall_concat_map. intros ver. apply version_entries_ok.
Qed.

Lemma fetch_cm_ok s st l st' : fetchChannelsFromConfigMap s st = (Some l, st') → list_ok l.
Proof.
  unfold fetchChannelsFromConfigMap. destruct (String.eqb _ ""); [done|]. destruct (get_cm _ _ st) as [[e|cm] st1]; [done|].
  intros [= E _]. by eapply configmap_ok.
Qed.

(** * Properties *)

(** The list of release channels is never empty and always well formed, whatever
    GitHub and the API server answer; what is cached is again such a list, is shown
    unchanged for an hour whatever the sources then say, and is fetched anew after
    that hour.  A list that is only the built-in one is not cached. *)
Theorem channels_served (s : Server) (now now' : Z) (contents : option (list githubContentEntry)) (cache : channelCacheState) (st : Store) :
  cache_ok cache →
  let '(l, cache', st') := handleGetOCPChannels s now now' contents cache st in
  list_ok l ∧ cache_ok cache' ∧
  (cache' = cache ∨ cache' = mkCache (Some l) now') ∧
  (cache' ≠ cache → ∀ later later' contents' st2, (later < now' + channelCacheTTL)%Z →
     handleGetOCPChannels s later later' contents' cache' st2 = (l, cache', st2)) ∧
  (∀ later later' contents' l' st2, (cc_fetchedAt cache' + channelCacheTTL ≤ later)%Z → fetchChannelsFromGitHub contents' = Some l' →
     handleGetOCPChannels s later later' contents' cache' st2 = (l', mkCache (Some l') later', st2)).
Proof.
  intros Hc. unfold handleGetOCPChannels.
  assert (Hfresh : ∀ l later later' contents' st2, (later < now' + channelCacheTTL)%Z →
    getOCPChannels s later later' contents' (mkCache (Some l) now') st2 = (l, mkCache (Some l) now', st2)).
  { intros l later later' contents' st2 Hl. unfold getOCPChannels, cached_channels. cbn. destruct (Z.ltb_spec (later - now') channelCacheTTL); [done|lia]. }
  assert (Hstale : ∀ cache later later' contents' l' st2, (cc_fetchedAt cache + channelCacheTTL ≤ later)%Z → fetchChannelsFromGitHub contents' = Some l' →
    getOCPChannels s later later' contents' cache st2 = (l', mkCache (Some l') later', st2)).
  { intros c later later' contents' l' st2 Hl E. unfold getOCPChannels, cached_channels. rewrite E.
    destruct (Z.ltb_spec (later - cc_fetchedAt c) channelCacheTTL); [lia|]. by destruct (cc_entries c). }
  assert (Hset : ∀ l, list_ok l → cache_ok (mkCache (Some l) now')) by (intros l Hl l'; by intros [= <-]).
  unfold getOCPChannels at 1. destruct (cached_channels now cache) as [e|] eqn:E.
  - unfold cached_channels in E. destruct (cc_entries cache) as [e'|] eqn:Ee; [|done]. destruct (_ <? _)%Z; [|done]. injection E as ->.
    split_and!; [by apply Hc|done|by left|done|by eauto].
  - destruct (fetchChannelsFromGitHub contents) as [l|] eqn:Eg; [apply github_ok in Eg; split_and!; eauto|].
    destruct (fetchChannelsFromConfigMap s st) as [[l|] st1] eqn:Ec; [apply fetch_cm_ok in Ec; split_and!; eauto|].
    split_and!; [apply default_ok|done|by left|done|by eauto].
Qed.

(** An EUS channel exists for an even minor version only, unless GitHub lists it. *)
Lemma eus_even data l e :
  configmap_entries data = Some l ∨ l = defaultOCPChannels → e ∈ l → oe_Name e = "eus-" +:+ oe_Version e → Z.rem (minor_of (oe_Version e)) 2 = 0%Z.
Proof.
  intros [Hl| ->] He Hn.
  - unfold configmap_entries in Hl. destruct (String.eqb (TrimSpace (default "" (data !! "versions"))) ""); [done|]. cbv zeta in Hl. set (all := concat _) in Hl.
    assert (e ∈ all) as Ha by (unfold some_entries in Hl; destruct all; [done|]; by injection Hl as <-). clear He Hl. unfold all in Ha.
    apply elem_of_concat_map in Ha as (ver & _ & Hv). unfold version_entries in Hv. destruct (_ || _); [set_solver|].
    apply elem_of_concat_map in Hv as (t & _ & Ht). destruct (String.eqb (TrimSpace t) "") eqn:E0; [set_solver|].
    destruct (String.eqb_spec (TrimSpace t) "eus") as [->|Hne]; cbn [andb] in Ht.
    + unfold odd_minor in Ht. destruct (Z.eqb_spec (Z.rem (minor_of (TrimSpace ver)) 2) 0); cbn [negb] in Ht; [|set_solver].
      by apply list_elem_of_singleton in Ht as ->.
    + apply list_elem_of_singleton in Ht as ->. cbn in Hn. exfalso. apply Hne.
      change ("eus-" +:+ TrimSpace ver) with ("eus" +:+ "-" +:+ TrimSpace ver) in Hn. by apply app_inv_tail_s in Hn.
  - assert (Hb : forallb (λ e, negb (HasPrefix (oe_Name e) "eus-") || (Z.rem (minor_of (oe_Version e)) 2 =? 0)%Z) defaultOCPChannels = true) by (vm_compute; reflexivity).
    rewrite forallb_forall in Hb. apply list_elem_of_In in He. specialize (Hb e He). rewrite Hn, HasPrefix_app in Hb. cbn in Hb. by apply Z.eqb_eq in Hb.
Qed.

Lemma channels_served_witness :
  let files := [mkContentEntry "okd-4.14.yaml" "file"; mkContentEntry "eus-4.16.yaml" "file"; mkContentEntry "README.md" "file"] in
  let '(l, cache', _) := handleGetOCPChannels NewServerClusterWide 0 1 (Some files) (mkCache None 0) (mkStore ∅ [] [] []) in
  l = [mkChannelEntry "okd-4.14" "okd" "4.14"; mkChannelEntry "eus-4.16" "ocp" "4.16"] ∧ list_ok l ∧
  handleGetOCPChannels NewServerClusterWide 3600000000000 7 None cache' (mkStore ∅ [] [] []) = (l, cache', mkStore ∅ [] [] []).
Proof.
  cbv zeta. set (files := [_; _; _]).
  pose proof (channels_served NewServerClusterWide 0 1 (Some files) (mkCache None 0) (mkStore ∅ [] [] [])) as Hw.
  destruct (handleGetOCPChannels _ 0 1 _ _ _) as [[l cache'] st'] eqn:E. vm_compute in E. injection E as <- <- <-.
  destruct Hw as (Hl & _ & _ & Hf & _); [intros l [=]|]. split; [reflexivity|]. split; [exact Hl|].
  apply Hf; [discriminate|vm_compute; reflexivity].
Defined.
