(* ===== verification/Lifecycle.v ===== *)
(** * The life of a manager

    [Run] of pkg/mirror/manager/manager.go: the token its workers authenticate
    with ([ensureWorkerTokenSecret]), the probes, and the loop that reconciles
    on a ticker and on reports.

    Secrets are a store with a schedule of faults.  Managers, the kubelet and
    worker pods interleave in [lstep]; the loop, its ticker, the handlers of
    reports and the clock interleave in [tstep].  A loop that can go on does so
    before time passes; a reconcile takes as long as it takes. *)
From S2P Require Import Prelude Effects GoStrings ImageState Owners ManagerState Api Resolve Status Resources Reconcile Tick BuildJobs Deploy Worker.

(** ** The token *)

Record Secret := mkSecret { sec_Data : gmap string string; sec_Owner : option string }.

Inductive secretErr := SNotFound | SAlreadyExists | SOther (msg : string).

Record Secrets := mkSecrets { sc_secrets : gmap string Secret; sc_faults : list (option secretErr) }.

Definition scall {A} (f : gmap string Secret → (secretErr + A) * gmap string Secret) : M Secrets secretErr A := λ s,
  match head (sc_faults s) with
  | Some (Some e) => (inl e, mkSecrets (sc_secrets s) (tail (sc_faults s)))
  | _ => let '(r, m) := f (sc_secrets s) in (r, mkSecrets m (tail (sc_faults s)))
  end.

Definition get_secret (name : string) : M Secrets secretErr Secret :=
  scall (λ m, (match m !! name with Some x => inr x | None => inl SNotFound end, m)).
Definition create_secret (name : string) (x : Secret) : M Secrets secretErr unit :=
  scall (λ m, match m !! name with Some _ => (inl SAlreadyExists, m) | None => (inr tt, <[name := x]> m) end).

Definition hex_digit (n : nat) : ascii := match String.get n "0123456789abcdef" with Some c => c | None => "0"%char end.

(** [hex.EncodeToString] *)
Fixpoint hex (s : string) : string :=
  match s with
  | "" => ""
  | String c s => String (hex_digit (nat_of_ascii c / 16)) (String (hex_digit (nat_of_ascii c mod 16)) (hex s))
  end.

(** [random]: the 32 bytes [rand.Read] fills in, [None] for its error.
    [owns]: whether the owner could be set.  The result is the token. *)
Definition ensureWorkerTokenSecret (targetName : string) (mt : option string) (owns : bool) (random : option string) : M Secrets secretErr string :=
  let name := workerTokenSecretName targetName in
  existing ← attempt (get_secret name);
  match existing with
  | inr s => match sec_Data s !! "token" with
             | Some tok => if String.eqb tok "" then fail (SOther "no token") else mret tok
             | None => fail (SOther "no token")
             end
  | inl SNotFound =>
    match random with
    | None => fail (SOther "generate worker token")
    | Some bytes =>
      let token := hex bytes in
      match mt, owns with
      | Some _, false => fail (SOther "set owner")
      | _, _ => _ ← create_secret name (mkSecret {["token" := token]} mt); mret token
      end
    end
  | inl e => fail e
  end.

Definition with_token (tok : string) (m : MirrorManager) : MirrorManager :=
  mkManager tok (urgentFlush m) (statusQueue m) (inProgress m) (mirrored m) (imageState m) (owners m) (ownerMeta m)
    (catalogDigests m) (lastDriftCheck m) (stateDirty m) (summaryWritten m) (statusDirty m) (driftSweepRunning m) (maxRetries m).

(** [Run] up to its first reconcile; [target]: the MirrorTarget can be read,
    [pods]: the worker pods, [None] if they cannot be listed, which is ignored. *)
Definition bootstrap (targetName : string) (target : bool) (owns : bool) (random : option string) (pods : option (list Pod)) (m : MirrorManager)
    : M Secrets secretErr MirrorManager :=
  if negb target then fail (SOther "load MirrorTarget")
  else
    tok ← ensureWorkerTokenSecret targetName (Some targetName) owns random;
    let m := with_token tok m in
    mret (match syncInProgressFromPods pods m with Some (m, _) => m | None => m end).

(** ** Probes *)

Definition second : Z := 1000000000.
Definition resolveTimeout : Z := 3600 * second.
Definition livenessStaleAfter : Z := resolveTimeout + 30 * 60 * second.

(** [last]: the heartbeat, 0 before the first. *)
Definition stalled (now last : Z) : bool := negb (last =? 0)%Z && (livenessStaleAfter <? now - last)%Z.
Definition handleHealthz (now last : Z) : Z := if stalled now last then 503 else 200.
Definition handleReadyz (statusAPIReady : bool) (now last : Z) : Z :=
  if negb statusAPIReady then 503 else if stalled now last then 503 else 200.

(** ** Managers, the kubelet and workers *)

(** [lf_pending]: worker pods whose container has not started, [lf_workers]:
    the connections of those that run. *)
Record Life := mkLife {
  lf_secrets : gmap string Secret; lf_manager : option MirrorManager; lf_pending : list WorkerPod; lf_workers : list StatusClient;
}.

Definition secret_key (s : gmap string Secret) (name key : string) : option string := s !! name ≫= λ x, sec_Data x !! key.

Section life.
Context `{Hash : HashJSON} `{Y : Marshal} (targetName namespace : string).

(** The manager's handlers and ticks run ([life_work]), its pods are created with
    the references [startWorkerBatch] gives them, and the kubelet starts a
    container when it can resolve what its pod refers to.  Others change any Secret
    but the token ([life_others]). *)
Inductive lstep : Life → Life → Prop :=
| life_start target owns random pods faults s m0 ws pend r s' :
    (∀ bytes, random = Some bytes → String.length bytes = 32%nat) →
    bootstrap targetName target owns random pods m0 (mkSecrets s faults) = (r, s') →
    lstep (mkLife s None pend ws) (mkLife (sc_secrets s') (match r with inr m => Some m | inl _ => None end) pend ws)
| life_exit s m pend ws : lstep (mkLife s (Some m) pend ws) (mkLife s None pend ws)
| life_work s m m' pend ws : mgr_step m m' → lstep (mkLife s (Some m) pend ws) (mkLife s (Some m') pend ws)
| life_dispatch s m encode storage mt items pend ws :
    lstep (mkLife s (Some m) pend ws) (mkLife s (Some m) (startWorkerBatch targetName namespace encode storage mt items :: pend) ws)
| life_kubelet s m pod podName env pend1 pend2 ws :
    kubelet_env (secret_key s) podName pod = Some env →
    lstep (mkLife s m (pend1 ++ pod :: pend2) ws) (mkLife s m (pend1 ++ pend2) (StatusClientFromEnv env :: ws))
| life_others s s' m pend ws :
    s' !! workerTokenSecretName targetName = s !! workerTokenSecretName targetName → lstep (mkLife s m pend ws) (mkLife s' m pend ws)
| life_pod_gone s m w ws1 ws2 pend : lstep (mkLife s m pend (ws1 ++ w :: ws2)) (mkLife s m pend (ws1 ++ ws2)).

Definition reachable_life (l : Life) : Prop := rtc lstep (mkLife ∅ None [] []) l.
End life.

(** ** The loop *)

(** [Woken]: the select has chosen; [Busy]: the reconcile has drained the queue. *)
Inductive phase := Woken | Busy | Waiting | Stopped.

(** [tl_signalling]: handlers that have queued a report and not yet signalled.
    [tl_next]: when the ticker fires next, [None] before it exists; [tl_tick]:
    its channel holds a tick. *)
Record Loop := mkLoop {
  tl_m : MirrorManager; tl_signalling : nat; tl_phase : phase; tl_now : Z; tl_next : option Z; tl_tick : bool; tl_heartbeat : Z;
}.

Definition tickerPeriod : Z := 30 * second.

Definition ready (s : Loop) : bool := urgentFlush (tl_m s) || tl_tick s.

(** What the steps of the manager other than reports do to the queue. *)
Definition same_signals (m m' : MirrorManager) : Prop :=
  urgentFlush m' = urgentFlush m ∧ workerToken m' = workerToken m ∧ (statusQueue m' = statusQueue m ∨ statusQueue m' = []).

Inductive tstep : Loop → Loop → Prop :=
| t_queue req m n p t nx tk hb : tstep (mkLoop m n p t nx tk hb) (mkLoop (enqueueStatus req m) (S n) p t nx tk hb)
| t_signal m n p t nx tk hb : tstep (mkLoop m (S n) p t nx tk hb) (mkLoop (set_urgentFlush true m) n p t nx tk hb)
| t_work m m' n p t nx tk hb : same_signals m m' → tstep (mkLoop m n p t nx tk hb) (mkLoop m' n p t nx tk hb)
| t_begin ev m n t nx tk hb :
    tstep (mkLoop m n Woken t nx tk hb) (mkLoop (drainStatusQueueLocked ev m) n Busy t nx tk t)
| t_beat m n t nx tk hb : tstep (mkLoop m n Busy t nx tk hb) (mkLoop m n Busy t nx tk t)
| t_end m n t nx tk hb :
    tstep (mkLoop m n Busy t nx tk hb) (mkLoop m n Waiting t (Some (default (t + tickerPeriod)%Z nx)) tk t)
| t_urgent m n t nx tk hb :
    urgentFlush m = true →
    tstep (mkLoop m n Waiting t nx tk hb) (mkLoop (set_urgentFlush false m) n Woken t (Some (t + tickerPeriod)%Z) false hb)
| t_tick m n t nx hb : tstep (mkLoop m n Waiting t nx true hb) (mkLoop m n Woken t nx false hb)
| t_stop m n t nx tk hb : tstep (mkLoop m n Waiting t nx tk hb) (mkLoop m n Stopped t nx tk hb)
| t_fire m n p t tk hb : tstep (mkLoop m n p t (Some t) tk hb) (mkLoop m n p t (Some (t + tickerPeriod)%Z) true hb)
| t_pass d m n p t nx tk hb :
    (0 < d)%Z → (∀ x, nx = Some x → (t + d ≤ x)%Z) →
    p ≠ Woken → (p = Waiting → ready (mkLoop m n p t nx tk hb) = false) →
    tstep (mkLoop m n p t nx tk hb) (mkLoop m n p (t + d)%Z nx tk hb).

(** The state [Run] enters its first reconcile in. *)
Definition loop_start (m : MirrorManager) (now : Z) : Loop := mkLoop m 0 Woken now None false 0.
Definition reachable_loop (m : MirrorManager) (t0 : Z) (s : Loop) : Prop := statusQueue m = [] ∧ (0 < t0)%Z ∧ rtc tstep (loop_start m t0) s.

(** * Lemmas *)

(** ** The steps of the manager *)

Definition kept (m m' : MirrorManager) : Prop :=
  urgentFlush m' = urgentFlush m ∧ workerToken m' = workerToken m ∧ statusQueue m' = statusQueue m.

#[export] Instance kept_preorder : PreOrder kept.
Proof. split; [by intros m|]. intros m1 m2 m3 (? & ? & ?) (? & ? & ?). split_and!; congruence. Qed.

Lemma kept_set ev d st err m : kept m (setImageStateLocked ev d st err m).
Proof. unfold setImageStateLocked, kept. by repeat case_match. Qed.

Lemma kept_apply ev req m : kept m (applyStatusLocked ev req m).
Proof.
  unfold applyStatusLocked. cbv zeta. set (m1 := if negb _ then _ else _). assert (H : kept m m1); [|by destruct H as (? & ? & ?)].
  unfold m1. clear m1. destruct (negb _); [apply kept_set|].
  set (m1 := match imageState m !! _ with Some _ => _ | None => _ end). assert (H1 : kept m m1) by (unfold m1; by case_match).
  transitivity (setImageStateLocked ev (req_Destination req) stateMirrored "" m1); [etrans; [exact H1|apply kept_set]|].
  repeat case_match; done.
Qed.

Lemma drain_signals ev m : urgentFlush (drainStatusQueueLocked ev m) = urgentFlush m ∧
  workerToken (drainStatusQueueLocked ev m) = workerToken m ∧ statusQueue (drainStatusQueueLocked ev m) = [].
Proof.
  unfold drainStatusQueueLocked. destruct (drain_foldl ev (statusQueue m) (set_statusQueue [] m) 0) as (l & -> & _).
  assert (H : kept (set_statusQueue [] m) (foldl (λ m '(ev, req), applyStatusLocked ev req m) (set_statusQueue [] m) l)); [|by destruct H as (? & ? & ?)].
  apply (foldl_inv_simple (kept (set_statusQueue [] m))); [done|]. intros [ev' req] acc _ H. etrans; [exact H|]. apply kept_apply.
Qed.

Lemma kept_fold {A} (f : A → MirrorManager → MirrorManager) (l : list A) m :
  (∀ x m, kept m (f x m)) → kept m (foldl (λ m x, f x m) m l).
Proof. intros Hf. apply (foldl_inv_simple (kept m)); [done|]. intros x acc _ H. etrans; [exact H|apply Hf]. Qed.

Lemma kept_map_fold {A} (f : string → A → MirrorManager * bool → MirrorManager * bool) (mp : gmap string A) m b :
  (∀ k x acc, kept (fst acc) (fst (f k x acc))) → kept m (fst (map_fold f (m, b) mp)).
Proof.
  intros Hf. apply (map_fold_weak_ind (λ acc _, kept m (fst acc))); [done|]. intros k x mp' acc _ H. etrans; [exact H|apply Hf].
Qed.

Lemma kept_drift ev dest snap res m : kept m (drift_apply ev dest snap res m).
Proof.
  unfold drift_apply, drift_apply_recovery, applySignatureResultLocked, kept. repeat case_match; try done; subst; cbn; by repeat case_match.
Qed.

Lemma kept_sync pods m m' deleted : syncInProgressFromPods pods m = Some (m', deleted) → kept m m'.
Proof.
  unfold syncInProgressFromPods. destruct pods as [pods|]; [|done]. intros [= E]. change m' with (fst (m', deleted)). rewrite <- E.
  apply (foldl_inv_simple (λ acc, kept m (fst acc))); [done|]. intros pod [m1 del] _ H. cbn [fst] in *. unfold sync_pod.
  destruct (pod_finished pod); [done|]. destruct (pod_destinations pod) as [[dests|]|]; [|by destruct (String.eqb _ "")|by destruct (String.eqb _ "")].
  cbn [fst]. etrans; [exact H|]. by apply (kept_fold (λ dest m, set_inProgress (<[dest := pod_Name pod]> (inProgress m)) m)).
Qed.

Lemma kept_cleanup_one m ef : kept m (cleanup_one m ef).
Proof.
  unfold cleanup_one. destruct ef as [ev f]. destruct (inProgress m !! f_dest f); [|done]. destruct (String.eqb _ _); [|done].
  cbv zeta. destruct (String.eqb (f_phase f) PodFailed); [|done].
  transitivity (set_inProgress (delete (f_dest f) (inProgress m)) m); [done|apply kept_set].
Qed.

(** A step of the manager is a report that signals, or leaves the signal alone and
    at most empties the queue. *)
Lemma mstep_signals m m' :
  mstep m m' → same_signals m m' ∨ (workerToken m' = workerToken m ∧ urgentFlush m' = true).
Proof.
  assert (Hk : ∀ m', kept m m' → same_signals m m') by (intros ? (? & ? & ?); by split_and!; [..|left]).
  destruct 1.
  - unfold handleStatusUpdate. destruct (negb _); [left; by apply Hk|]. destruct (negb _); [left; by apply Hk|]. destruct body; [|left; by apply Hk].
    right. cbv zeta. destruct lockFree; cbn; [|done]. split; [|done]. by rewrite (proj1 (proj2 (drain_signals ev _))).
  - left. destruct (drain_signals ev m) as (? & ? & ?). by split_and!; [..|right].
  - left. unfold cleanup_apply. destruct done as [|f done]; [by apply Hk|]. destruct (drain_signals ev m) as (E1 & E2 & E3).
    assert (H : kept (drainStatusQueueLocked ev m) (foldl cleanup_one (drainStatusQueueLocked ev m) (f :: done))).
    { apply (kept_fold (λ x m, cleanup_one m x)). intros x m1. apply kept_cleanup_one. }
    destruct H as (? & ? & ?). split_and!; [congruence|congruence|right; congruence].
  - left. apply Hk. by eapply kept_sync.
  - left. apply Hk. unfold startDriftSweepLocked. by repeat case_match.
  - left. by apply Hk.
  - left. apply Hk, kept_drift.
  - left. apply Hk, kept_map_fold. intros k x [m1 b]. unfold resync_one. by repeat case_match.
  - left. apply Hk, kept_map_fold. intros k x [m1 b]. unfold recollect_one. by repeat case_match.
  - left. apply Hk. unfold dropRemovedImageSetsLocked.
    pose proof (kept_map_fold (drop_one imageSets) (owners m) m false) as H. destruct (map_fold _ _ _) as [m1 b]. cbn in *.
    apply H. intros k x [m2 b2]. unfold drop_one. by repeat case_match.
  - left. apply Hk. unfold setCatalogDigestsLocked. by case_match.
Qed.

Lemma mstep_token m m' : mstep m m' → workerToken m' = workerToken m.
Proof. intros [(_ & H & _)|[H _]]%mstep_signals; done. Qed.

Lemma msteps_token m m' : rtc mstep m m' → workerToken m' = workerToken m.
Proof. induction 1 as [|m1 m2 m3 Hs _ IH]; [done|]. rewrite IH. by apply mstep_token. Qed.

(** *** A tick keeps the token *)

Section tick_token.
Context `{Hash : HashJSON}.

Lemma integrate_token iset empty recollect r m : workerToken (integrate_resolve iset empty recollect r m) = workerToken m.
Proof.
  unfold integrate_resolve.
  match goal with |- context [if recollect then _ else ?x] => set (m2 := x) end.
  assert (H2 : workerToken m2 = workerToken m) by (unfold m2; destruct (_ || _); [by destruct (mergeResolvedIntoConsolidated _ _ _ _) as [[]]|done]).
  clearbody m2.
  match goal with |- context [setCatalogDigestsLocked _ _ ?x] => set (m3 := x) end.
  assert (H3 : workerToken m3 = workerToken m2).
  { unfold m3. destruct recollect; [|done]. pose proof (mstep_token _ _ (step_recollect (is_Name iset) m2)) as Hs.
    by destruct (resetFailedForRecollectLocked _ _) as [m' []]. }
  clearbody m3. unfold setCatalogDigestsLocked. destruct (bool_decide _); cbn; congruence.
Qed.

Lemma phaseB_token up now gap1 gap2 mt items m :
  (∀ name m, rtc mstep m (gap1 name m)) → (∀ name m, rtc mstep m (gap2 name m)) →
  workerToken (fst (phaseB up now gap1 gap2 mt items m)) = workerToken m.
Proof.
  intros Hg1 Hg2. unfold phaseB. apply (foldl_inv_simple (λ acc, workerToken (fst acc) = workerToken m)); [done|].
  intros iset [m0 rs] _ Hm. cbn [fst] in Hm. rewrite <- Hm. clear Hm. unfold phaseB_one. destruct (negb _); [done|].
  match goal with |- context [filterByImageSet (imageState ?x) _ _ _] => set (m1 := x) end.
  assert (H1 : workerToken m1 = workerToken m0).
  { unfold m1. destruct (bool_decide _); [|done]. pose proof (mstep_token _ _ (step_resync (is_Name iset) m0)) as Hs.
    destruct (resetImageSetToPendingLocked _ _) as [m' []]; by rewrite (msteps_token _ _ (Hg1 _ _)). }
  clearbody m1. destruct (negb _); [done|]. cbn [fst]. rewrite integrate_token, (msteps_token _ _ (Hg2 _ _)). done.
Qed.

Lemma phaseD_token now ks m : workerToken (sw_m (phaseD now ks m)) = workerToken m.
Proof.
  unfold phaseD. apply (foldl_inv_simple (λ s, workerToken (sw_m s) = workerToken m)); [done|].
  intros d s _ <-. unfold phaseD_one, failed_entry. by repeat case_match.
Qed.

Lemma dispatch_token start conc bs fuel k pending active m : workerToken (fst (dispatch start conc bs fuel k pending active m)) = workerToken m.
Proof.
  revert k pending active m. induction fuel as [|fuel IH]; intros k pending active m; cbn; [done|].
  destruct pending as [|b pending]; [done|]. destruct (_ <? _)%Z; [|done]. destruct (start k) as [p|]; [|apply IH].
  specialize (IH (S k) (drop bs (b :: pending)) ({[p]} ∪ active) (foldl (track p) m (take bs (b :: pending)))).
  destruct (dispatch _ _ _ _ _ _ _ _) as [m1 started]. cbn in *. rewrite IH.
  by apply (foldl_inv_simple (λ m', workerToken m' = workerToken m)).
Qed.

Lemma phaseF_token ev mt names m c m' c' : phaseF ev mt names m c = (inr m', c') → workerToken m' = workerToken m.
Proof.
  unfold phaseF. rewrite <- (mstep_token _ _ (step_drain ev m)). set (m1 := drainStatusQueueLocked ev m). clearbody m1.
  destruct (stateDirty m1).
  - unfold flushPartitionedState. destruct (flush_all_total mt m1 names c) as (ok1 & c1 & E1). rewrite !bind_eq, E1. cbn [fst snd].
    rewrite attempt_bind. destruct (saveSummary_total mt m1 (snd (SaveIndex (mt_Name mt) (flush_index m1) (Some (mt_Name mt)) c1))) as (ok3 & c3 & E3).
    rewrite (bind_inr _ _ _ _ _ E3). cbn. intros [= <- _]. by repeat case_match.
  - destruct (negb _); [|by intros [= <- _]]. destruct (saveSummary_total mt m1 c) as (ok & c1 & E). rewrite (bind_inr _ _ _ _ _ E).
    cbn. intros [= <- _]. by case_match.
Qed.

Lemma reconcile_token `{Marshal} t m c m' res c' :
  gaps_ok t → reconcile t m c = (inr (m', res), c') → workerToken m' = workerToken m.
Proof.
  intros (Hg0 & Hg0' & Hg1 & Hg2). unfold reconcile.
  set (m1 := drainStatusQueueLocked _ _).
  assert (H1 : workerToken m1 = workerToken m).
  { unfold m1. rewrite (mstep_token _ _ (step_drain _ _)), (msteps_token _ _ (Hg0' _)). unfold cleanupFinishedWorkers. destruct (t_pods t); [|apply (msteps_token _ _ (Hg0 _))].
    cbn [fst]. by rewrite (mstep_token _ _ (step_cleanup _ _ _)), (msteps_token _ _ (Hg0 _)). }
  clearbody m1. rewrite <- H1. clear H1. destruct (t_target t) as [mt|]; [destruct (t_items t) as [items|]|]; [|by intros [= <- _ _]..].
  set (m2 := set_maxRetries _ m1). assert (H2 : workerToken m2 = workerToken m1) by done. clearbody m2. rewrite <- H2. clear H2.
  rewrite bind_eq. assert (H3 : match fst ((if decide (imageState m2 = ∅) then loadPartitionedState mt items (t_order t) m2 else mret m2) c) with
    | inr m3 => workerToken m3 = workerToken m2 | inl _ => True end).
  { case_decide; [|done]. unfold loadPartitionedState. rewrite attempt_bind, bind_eq. by destruct (load_all _ _ _ _) as [[e|l] c1]. }
  destruct ((if decide (imageState m2 = ∅) then loadPartitionedState mt items (t_order t) m2 else mret m2) c) as [[e|m3] c1]; [done|]. cbn [fst snd] in *. rewrite <- H3. clear H3.
  pose proof (mstep_token _ _ (step_drop (mt_ImageSets mt) m3)) as H4. destruct (dropRemovedImageSetsLocked _ m3) as [m4 dropped]. cbn [fst] in H4.
  rewrite <- H4. clear H4. set (m5 := if dropped then _ else m4).
  assert (H5 : workerToken m5 = workerToken m4) by (unfold m5; by destruct dropped). clearbody m5. rewrite <- H5. clear H5.
  pose proof (phaseB_token (t_up t) (t_now t) (t_gap1 t) (t_gap2 t) mt items m5 Hg1 Hg2) as H6. destruct (phaseB _ _ _ _ _ _ _) as [m6 rs].
  cbn [fst] in H6. rewrite <- H6. clear H6.
  assert (H7 : workerToken (fst (phaseC (t_now t) mt (t_keys t (imageState m6)) m6)) = workerToken m6).
  { unfold phaseC. destruct (_ && _); [|done]. apply (mstep_token _ _ (step_sweep _ (set_lastDriftCheck _ m6))). }
  destruct (phaseC _ _ _ _) as [m7 sw]. cbn [fst] in H7. rewrite <- H7, <- (phaseD_token (t_now t) (t_keys t (imageState m7)) m7). clear H7.
  set (s := phaseD _ _ m7). clearbody s. destruct (persistOrphans_total mt s c1) as (c2 & E2). rewrite (bind_inr _ _ _ _ _ E2).
  unfold phaseE. rewrite <- (dispatch_token (t_start t) (effectiveConcurrency mt) (Z.to_nat (effectiveBatchSize mt)) (length (sw_batchable s)) 0 (sw_batchable s) (activePods (sw_m s)) (sw_m s)).
  destruct (dispatch _ _ _ _ _ _ _ _) as [m8 started]. cbn [fst]. rewrite bind_eq.
  pose proof (phaseF_token (t_ev3 t) mt (t_names t) m8 c2) as H9. destruct (phaseF _ _ _ _ _) as [[e|m9] c3]; [done|]. cbn [fst snd].
  rewrite <- (H9 m9 c3 eq_refl). unfold phaseG. destruct (statusDirty m9); rewrite bind_eq, ignore_eq; cbn; by intros [= <- _ _].
Qed.

Lemma mgr_step_token `{Marshal} m m' : mgr_step m m' → workerToken m' = workerToken m.
Proof. intros [m1 m2 Hs|t c m1 m2 res c' Hg _ E]; [by apply mstep_token|by eapply reconcile_token]. Qed.
End tick_token.

(** ** The token *)

Lemma hex_nonempty s : s ≠ "" → hex s ≠ "".
Proof. by destruct s. Qed.

Lemma hex_length s : String.length (hex s) = 2 * String.length s.
Proof. induction s as [|c s IH]; [done|]. cbn. lia. Qed.

(** The stored token, if there is one. *)
Definition stored_token (targetName : string) (s : gmap string Secret) : option string :=
  secret_key s (workerTokenSecretName targetName) "token".

Lemma get_secret_spec name st :
  let '(r, st') := get_secret name st in sc_secrets st' = sc_secrets st ∧ ∀ x, r = inr x → sc_secrets st !! name = Some x.
Proof.
  unfold get_secret, scall. destruct (head (sc_faults st)) as [[e|]|]; cbn; [done|..]; split; try done; intros x;
    destruct (sc_secrets st !! name); by intros [= ->].
Qed.

Lemma create_secret_spec name x st :
  let '(r, st') := create_secret name x st in
  (r = inr tt ∧ sc_secrets st !! name = None ∧ sc_secrets st' = <[name := x]> (sc_secrets st)) ∨ ((∃ e, r = inl e) ∧ sc_secrets st' = sc_secrets st).
Proof.
  unfold create_secret, scall. destruct (head (sc_faults st)) as [[e|]|]; cbn; [right; eauto|..];
    destruct (sc_secrets st !! name) eqn:E; cbn; first [right; by eauto|left; by rewrite E|left; done].
Qed.

(** A token that is returned is the stored one and not empty; a stored one stays. *)
Lemma ensure_token targetName mt owns random st :
  (∀ bytes, random = Some bytes → bytes ≠ "") →
  let '(r, st') := ensureWorkerTokenSecret targetName mt owns random st in
  (∀ tok, r = inr tok → stored_token targetName (sc_secrets st') = Some tok ∧ tok ≠ "") ∧
  (∀ name, is_Some (sc_secrets st !! name) → sc_secrets st' !! name = sc_secrets st !! name).
Proof.
  intros Hr. unfold ensureWorkerTokenSecret. cbv zeta. rewrite attempt_bind.
  pose proof (get_secret_spec (workerTokenSecretName targetName) st) as Hg.
  destruct (get_secret (workerTokenSecretName targetName) st) as [g st1]. destruct Hg as [E1 Hg]. cbn [fst snd].
  assert (Hfail : ∀ (e : secretErr), (∀ tok, inl e = inr tok → stored_token targetName (sc_secrets st1) = Some tok ∧ tok ≠ "") ∧
    (∀ name, is_Some (sc_secrets st !! name) → sc_secrets st1 !! name = sc_secrets st !! name)) by (intros e; by rewrite E1).
  destruct g as [[]|x]; cbn [fail mret]; try apply Hfail.
  - destruct random as [bytes|]; [|apply Hfail].
    set (x := mkSecret {["token" := hex bytes]} mt). pose proof (create_secret_spec (workerTokenSecretName targetName) x st1) as Hc.
    assert (Hgo : let '(r, st') := (_ ← create_secret (workerTokenSecretName targetName) x; mret (hex bytes)) st1 in
      (∀ tok, r = inr tok → stored_token targetName (sc_secrets st') = Some tok ∧ tok ≠ "") ∧
      (∀ name, is_Some (sc_secrets st !! name) → sc_secrets st' !! name = sc_secrets st !! name)).
    { rewrite bind_eq. destruct (create_secret _ _ st1) as [r st2]. cbn [fst snd]. rewrite E1 in Hc.
      destruct Hc as [(-> & Hn & E2)|[[e ->] E2]]; [|by rewrite E2]. cbn. rewrite E2. split.
      - intros tok [= <-]. unfold stored_token, secret_key. rewrite lookup_insert_eq. cbn. rewrite lookup_singleton_eq. split; [done|]. by apply hex_nonempty, Hr.
      - intros name [y Hy]. rewrite lookup_insert_ne; [done|]. congruence. }
    destruct mt; [destruct owns|]; [exact Hgo|apply Hfail|exact Hgo].
  - specialize (Hg x eq_refl). destruct (sec_Data x !! "token") as [tok|] eqn:Et; [|apply Hfail].
    destruct (String.eqb_spec tok "") as [|Hne]; [apply Hfail|]. cbn. split; [|by intros; rewrite E1]. intros tok' [= <-]. unfold stored_token, secret_key. by rewrite E1, Hg.
Qed.

(** ** Managers and workers *)

Section life_inv.
Context `{Hash : HashJSON} `{Y : Marshal} (targetName namespace : string).

(** Everybody has the stored token. *)
Definition life_inv (l : Life) : Prop :=
  (∀ m, lf_manager l = Some m → stored_token targetName (lf_secrets l) = Some (workerToken m) ∧ workerToken m ≠ "") ∧
  (∀ w, w ∈ lf_workers l → stored_token targetName (lf_secrets l) = Some (sc_Token w)) ∧
  (∀ pod, pod ∈ lf_pending l → ∃ encode storage mt items, pod = startWorkerBatch targetName namespace encode storage mt items).

Lemma kubelet_token s podName env encode storage mt items :
  kubelet_env (secret_key s) podName (startWorkerBatch targetName namespace encode storage mt items) = Some env →
  stored_token targetName s = Some (sc_Token (StatusClientFromEnv env)).
Proof.
  rewrite kubelet_env_batch. unfold stored_token. destruct (secret_key s _ _) as [token|]; [|done]. cbn [mbind option_bind].
  intros <-%(inj Some). by rewrite kubelet_client.
Qed.

Lemma bootstrap_token target owns random pods m0 st :
  (∀ bytes, random = Some bytes → bytes ≠ "") →
  let '(r, st') := bootstrap targetName target owns random pods m0 st in
  (∀ m, r = inr m → stored_token targetName (sc_secrets st') = Some (workerToken m) ∧ workerToken m ≠ "") ∧
  (∀ name, is_Some (sc_secrets st !! name) → sc_secrets st' !! name = sc_secrets st !! name).
Proof.
  intros Hr. unfold bootstrap. destruct target; [|done]. cbn [negb]. rewrite bind_eq.
  pose proof (ensure_token targetName (Some targetName) owns random st Hr) as He.
  destruct (ensureWorkerTokenSecret _ _ _ _ st) as [[e|tok] st1]; cbn [fst snd]; destruct He as [Ht Hk]; [by split|].
  cbn. split; [|done]. intros m [= <-]. destruct (Ht tok eq_refl) as [Hs Hne].
  destruct (syncInProgressFromPods pods (with_token tok m0)) as [[m1 del]|] eqn:E; [|done].
  apply kept_sync in E as (_ & E & _). rewrite E. by split.
Qed.

Lemma stored_kept s s' : (∀ name, is_Some (s !! name) → s' !! name = s !! name) →
  ∀ tok, stored_token targetName s = Some tok → stored_token targetName s' = Some tok.
Proof.
  intros Hk tok. unfold stored_token, secret_key. destruct (s !! workerTokenSecretName targetName) as [x|] eqn:E; [|done]. by rewrite (Hk _ (mk_is_Some _ _ E)), E.
Qed.

Lemma lstep_inv l l' : lstep targetName namespace l l' → life_inv l → life_inv l'.
Proof.
  intros Hs (Hm & Hw & Hp). destruct Hs as [target owns random pods faults s m0 ws pend r s' Hrand Hb|s m pend ws|s m m' pend ws Hst
    |s m encode storage mt items pend ws|s m pod podName env pend1 pend2 ws Hk|s s' m pend ws Ho|s m w ws1 ws2 pend]; unfold life_inv; cbn in *.
  - pose proof (bootstrap_token target owns random pods m0 (mkSecrets s faults)) as Hbt. rewrite Hb in Hbt.
    destruct Hbt as [Hr Hk]; [intros bytes ->; specialize (Hrand _ eq_refl); by destruct bytes|].
    split_and!; [|intros w Hin; eapply (stored_kept s); [exact Hk|by apply Hw]|done].
    intros m. destruct r; [done|]. intros [= ->]. by apply Hr.
  - by split_and!.
  - split_and!; [|done|done]. intros m1 [= <-]. rewrite (mgr_step_token _ _ Hst). by apply Hm.
  - split_and!; [done|done|]. intros pod [->|Hin]%elem_of_cons; [by eexists _, _, _, _|by apply Hp].
  - split_and!; [done| |intros pod' Hin; apply Hp; set_solver].
    intros w [->|Hin]%elem_of_cons; [|by apply Hw]. destruct (Hp pod) as (encode & storage & mt & items & ->); [set_solver|].
    by eapply kubelet_token.
  - unfold stored_token, secret_key in *. rewrite Ho. by split_and!.
  - split_and!; [done|intros w' Hin; apply Hw; set_solver|done].
Qed.

Lemma reachable_life_inv l : reachable_life targetName namespace l → life_inv l.
Proof.
  intros Hr. unfold reachable_life in Hr. apply (rtc_ind_r life_inv) in Hr; [done| |].
  - by split_and!; cbn; [done|set_solver|set_solver].
  - intros x y _ Hs Hx. by eapply lstep_inv.
Qed.
End life_inv.

(** ** The loop *)

Definition loop_inv (s : Loop) : Prop :=
  (statusQueue (tl_m s) ≠ [] → urgentFlush (tl_m s) = true ∨ (0 < tl_signalling s)%nat ∨ tl_phase s = Woken) ∧
  (0 < tl_now s)%Z ∧
  (∀ x, tl_next s = Some x → (tl_now s ≤ x ≤ tl_now s + tickerPeriod)%Z) ∧
  match tl_phase s with
  | Woken => tl_heartbeat s = 0%Z ∨ (tl_heartbeat s ≤ tl_now s ≤ tl_heartbeat s + tickerPeriod)%Z
  | Busy => (tl_heartbeat s ≤ tl_now s)%Z
  | Waiting => (0 < tl_heartbeat s ≤ tl_now s ∧ tl_now s ≤ tl_heartbeat s + tickerPeriod)%Z ∧
      ∃ x, tl_next s = Some x ∧ (tl_tick s = false → (x ≤ tl_heartbeat s + tickerPeriod)%Z)
  | Stopped => True
  end.

Lemma tickerPeriod_pos : (0 < tickerPeriod)%Z.
Proof. unfold tickerPeriod, second. lia. Qed.

Lemma tstep_inv s s' : tstep s s' → loop_inv s → loop_inv s'.
Proof.
  pose proof tickerPeriod_pos as Hp. intros Hs (Hq & H0 & Hn & Hph).
  destruct Hs as [req m n p t nx tk hb|m n p t nx tk hb|m m' n p t nx tk hb (Eu & _ & Es)|ev m n t nx tk hb|m n t nx tk hb|m n t nx tk hb
    |m n t nx tk hb Hu|m n t nx hb|m n t nx tk hb|m n p t tk hb|d m n p t nx tk hb Hd Hx Hw Hr]; unfold loop_inv; cbn in *.
  - split_and!; [intros _; right; left; lia|done..].
  - split_and!; [intros _; by left|done..].
  - split_and!; [|done..]. rewrite Eu. destruct Es as [->| ->]; [done|]. by intros [].
  - destruct (drain_signals ev m) as (_ & _ & ->). split; [by intros []|]. split; [done|]. split; [done|lia].
  - by split_and!.
  - split; [|split; [done|split]].
    + intros Hne. destruct (Hq Hne) as [|[|]]; eauto. done.
    + intros x [= <-]. destruct nx as [x|]; cbn; [by apply Hn|lia].
    + split; [lia|]. eexists. split; [done|]. intros _. destruct nx as [x|]; cbn; [by apply Hn|lia].
  - destruct Hph as [Hh _]. split; [by right; right|]. split; [done|]. split; [intros x [= <-]; lia|right; lia].
  - destruct Hph as [Hh _]. split; [by right; right|]. split; [done|]. split; [done|right; lia].
  - split_and!; [|done..]. intros Hne. destruct (Hq Hne) as [|[|]]; eauto. done.
  - split; [done|]. split; [done|]. split; [intros x [= <-]; lia|]. destruct p; try done. destruct Hph as [Hh (x & [= <-] & _)]. split; [done|]. by eexists.
  - split; [done|]. split; [lia|]. split.
    + intros x E. specialize (Hx x E). specialize (Hn x E). lia.
    + destruct p; [done|lia| |done]. destruct Hph as [Hh (x & E & Ht)]. specialize (Hr eq_refl). unfold ready in Hr. cbn in Hr.
      apply orb_false_iff in Hr as [_ Hr]. specialize (Ht Hr). specialize (Hx x E). split; [lia|]. by exists x.
Qed.

Lemma reachable_loop_inv m t0 s : reachable_loop m t0 s → loop_inv s.
Proof.
  intros (Hq & Ht & Hr). apply (rtc_ind_r loop_inv) in Hr; [done| |].
  - unfold loop_start, loop_inv. cbn. rewrite Hq. split; [by intros []|]. split; [done|]. split; [done|by left].
  - intros x y _ Hs Hx. by eapply tstep_inv.
Qed.

(** * Properties *)

(** C34: workers authenticate, as long as nobody but the manager writes or deletes
    the token Secret of the target.  However often the manager is restarted,
    whatever calls fail while it starts, whatever its handlers and ticks do and
    others do to other Secrets, and in whatever order pods are dispatched, started
    with the environment the kubelet resolves from the references of their pod, and
    lost: a running manager has a token that is not empty, and every running
    worker, also one started by an earlier manager, has the same one, so that its
    reports and its questions are not refused for it. *)
Theorem workers_always_authenticate `{HashJSON} `{Marshal} (targetName namespace : string) (l : Life) (m : MirrorManager) :
  reachable_life targetName namespace l → lf_manager l = Some m →
  workerToken m ≠ "" ∧
  ∀ w, w ∈ lf_workers l →
    (∀ ev req lockFree, fst (handleStatusUpdate ev "POST" ("Bearer " +:+ sc_Token w) (Some req) lockFree m) = 200%Z) ∧
    (∀ dest gotLock, handleShouldMirror "GET" ("Bearer " +:+ sc_Token w) dest gotLock m ≠ 401%Z).
Proof.
  intros Hr Hm. destruct (reachable_life_inv _ _ _ Hr) as (Hi & Hw & _). destruct (Hi m Hm) as [Hs Hne]. split; [done|]. intros w Hin.
  specialize (Hw w Hin). rewrite Hs in Hw. injection Hw as <-. split.
  - intros ev req lockFree. unfold handleStatusUpdate. by rewrite String.eqb_refl, String.eqb_refl.
  - intros dest gotLock. unfold handleShouldMirror. rewrite !String.eqb_refl. cbn [negb]. by repeat case_match.
Qed.

(** C35: The loop reacts.  A report that a handler has queued and signalled is never
    left lying: while the loop waits with reports in the queue the signal is set, no
    time passes before it wakes, and the reconcile it wakes to empties the queue.  Without
    reports it waits for at most one period of the ticker, and so it is never taken
    for stalled while it waits; it is ready whenever its API listens. *)
Theorem loop_reacts (m : MirrorManager) (t0 : Z) (s : Loop) :
  reachable_loop m t0 s → tl_phase s = Waiting →
  (statusQueue (tl_m s) ≠ [] → tl_signalling s = 0%nat →
     urgentFlush (tl_m s) = true ∧ (∀ s', tstep s s' → tl_now s' = tl_now s) ∧
     ∃ s1 s2, tstep s s1 ∧ tstep s1 s2 ∧ tl_phase s2 = Busy ∧ statusQueue (tl_m s2) = []) ∧
  (tl_now s ≤ tl_heartbeat s + tickerPeriod)%Z ∧
  handleHealthz (tl_now s) (tl_heartbeat s) = 200%Z ∧ handleReadyz true (tl_now s) (tl_heartbeat s) = 200%Z.
Proof.
  intros Hr Hw. destruct (reachable_loop_inv _ _ _ Hr) as (Hq & _ & _ & Hph). rewrite Hw in *. destruct Hph as [Hh _].
  split.
  - intros Hne Hz. destruct (Hq Hne) as [Hu|[Hu|Hu]]; [|lia|done]. split; [done|]. split.
    + intros s' Hs. destruct Hs; cbn in *; try done. subst. exfalso. specialize (H2 eq_refl). unfold ready in H2. cbn in H2. by rewrite Hu in H2.
    + destruct s as [m' n p t nx tk hb]. cbn in *. subst p. eexists _, _.
      split; [by apply t_urgent|]. split; [apply (t_begin (λ _, mkEnv 0 (λ _, 0%Z)))|]. split; [done|]. cbn. apply drain_signals.
  - assert (Hs : stalled (tl_now s) (tl_heartbeat s) = false).
    { unfold stalled. apply andb_false_iff. right. apply Z.ltb_ge. unfold tickerPeriod, livenessStaleAfter, resolveTimeout, second in *. lia. }
    split; [lia|]. unfold handleHealthz, handleReadyz. by rewrite Hs.
Qed.

(** ** Witnesses *)

Definition ex_random : option string := Some "abcdefghijklmnopqrstuvwxyz012345".
Definition ex_token : string := Eval vm_compute in hex "abcdefghijklmnopqrstuvwxyz012345".
Definition ex_secrets : gmap string Secret := {["t-worker-token" := mkSecret {["token" := ex_token]} (Some "t")]}.
Definition ex_worker_pod : WorkerPod := startWorkerBatch "t" "ns" (λ _, "[]") None (mkMirrorTarget "t" "reg" [] 1 1 1 None None ∅ 1 "" false None None) [].

(** A worker of the first manager, after a restart of the manager that found other
    random bytes. *)
Lemma workers_always_authenticate_witness :
  ∃ l m w, @reachable_life ex_hash (λ _, None) "t" "ns" l ∧ lf_manager l = Some m ∧ w ∈ lf_workers l ∧ workerToken m ≠ "" ∧
    ∀ ev req lockFree, fst (handleStatusUpdate ev "POST" ("Bearer " +:+ sc_Token w) (Some req) lockFree m) = 200%Z.
Proof.
  set (m := with_token ex_token ex_manager). 
  set (env := [mkEnvVar "WORKER_TOKEN" ex_token; mkEnvVar "POD_NAME" "p"] ++ wp_Env ex_worker_pod). set (w := StatusClientFromEnv env).
  assert (Hr : @reachable_life ex_hash (λ _, None) "t" "ns" (mkLife ex_secrets (Some m) [] [w])).
  { unfold reachable_life.
    eapply rtc_l; [eapply (@life_start ex_hash (λ _, None) "t" "ns" true true ex_random None [] ∅ ex_manager [] [] (inr m) (mkSecrets ex_secrets [])); [by intros bytes [= <-]|vm_compute; reflexivity]|].
    cbn [sc_secrets]. eapply rtc_l; [apply (life_dispatch "t" "ns" ex_secrets m (λ _, "[]") None (mkMirrorTarget "t" "reg" [] 1 1 1 None None ∅ 1 "" false None None) [] [] [])|].
    eapply rtc_l; [apply life_exit|].
    eapply rtc_l; [apply (life_kubelet "t" "ns" ex_secrets None ex_worker_pod "p" env [] [] []); vm_compute; reflexivity|].
    cbn [app]. apply rtc_once. eapply (@life_start ex_hash (λ _, None) "t" "ns" true true (Some "ABCDEFGHIJKLMNOPQRSTUVWXYZ012345") None [] ex_secrets ex_manager [w] [] (inr m) (mkSecrets ex_secrets []));
      [by intros bytes [= <-]|vm_compute; reflexivity]. }
  destruct (@workers_always_authenticate ex_hash (λ _, None) "t" "ns" _ m Hr) as [Hne Hw]; [reflexivity|].
  exists (mkLife ex_secrets (Some m) [] [w]), m, w. split; [exact Hr|]. split; [reflexivity|]. split; [by left|]. split; [exact Hne|]. apply Hw. by left.
Defined.

Lemma loop_reacts_witness :
  let s := mkLoop (set_urgentFlush true (enqueueStatus ex_success (drainStatusQueueLocked ex_ev ex_manager))) 0 Waiting 7 (Some (7 + tickerPeriod)%Z) false 7 in
  statusQueue (tl_m s) ≠ [] ∧ urgentFlush (tl_m s) = true ∧ handleHealthz 7 7 = 200%Z.
Proof.
  set (s := mkLoop _ _ _ _ _ _ _).
  assert (Hr : reachable_loop ex_manager 7 s).
  { split; [reflexivity|]. split; [lia|]. unfold loop_start. eapply rtc_l; [apply (t_begin ex_ev)|]. eapply rtc_l; [apply t_end|].
    eapply rtc_l; [apply (t_queue ex_success)|]. apply rtc_once, t_signal. }
  destruct (loop_reacts ex_manager 7 s Hr) as (Hq & _ & Hh & _); [reflexivity|].
  assert (Hne : statusQueue (tl_m s) ≠ []) by (intros E; by destruct (app_cons_not_nil _ _ _ (eq_sym E))).
  split; [exact Hne|]. split; [apply Hq; [exact Hne|reflexivity]|exact Hh].
Defined.

(** The loop is taken for stalled only after an hour and a half without a heartbeat. *)
Example stalled_example :
  handleHealthz (1 + 5400 * second) 1 = 200%Z ∧ handleHealthz (2 + 5400 * second) 1 = 503%Z ∧ handleHealthz 5 0 = 200%Z ∧ handleReadyz false 5 0 = 503%Z.
Proof. by_vm. Qed.
