(* ===== verification/Watches.v ===== *)
(** * What the controllers watch

    [SetupWithManager] of the controllers of MirrorTargets, ImageSets and
    MirrorExports (internal/controller), with their predicates and their maps
    from an object to requests.

    As controller-runtime documents it: an event of the controller's own kind
    requests its object, one of an owned kind the object that controls it, and
    a watch what its map returns, for the old and the new object of an update. *)
From S2P Require Import Prelude Effects GoStrings ImageState Api BuildJobs CatalogGate Deploy Target.

(** A controlling owner is its kind and name. *)
Inductive obj :=
| OSet (ns : string) (s : ImageSet)
| OTarget (ns : string) (mt : MirrorTarget)
| OOther (kind ns name : string) (controller : option (string * string)).

Inductive event := Created (o : obj) | Updated (old new : obj) | Deleted (o : obj).

Definition objects_of (e : event) : list obj := match e with Created o | Deleted o => [o] | Updated old new => [old; new] end.

(** Namespace and name. *)
Abbreviation Request := (string * string)%type.

(** The owner of an object of one of the kinds. *)
Definition owner_requests (kinds : list string) (ownerKind : string) (o : obj) : list Request :=
  match o with
  | OOther kind ns _ (Some (k, name)) => if bool_decide (kind ∈ kinds) && String.eqb k ownerKind then [(ns, name)] else []
  | _ => []
  end.

(** ** MirrorTargets *)

Definition targetOwns : list string :=
  ["Deployment"; "Service"; "ServiceAccount"; "Role"; "RoleBinding"; "NetworkPolicy"; "Ingress"; "Job"].

Definition imageSetCountsChanged (e : event) : bool :=
  match e with
  | Updated (OSet _ oldIS) (OSet _ newIS) =>
    let o := is_Status oldIS in
    let n := is_Status newIS in
    negb (st_TotalImages o =? st_TotalImages n)%Z || negb (st_MirroredImages o =? st_MirroredImages n)%Z
    || negb (st_PendingImages o =? st_PendingImages n)%Z || negb (st_FailedImages o =? st_FailedImages n)%Z
  | _ => true
  end.

(** [targets]: the MirrorTargets of a namespace, [None] if they cannot be listed. *)
Definition mirrorTargetsForImageSet (targets : string → option (list MirrorTarget)) (o : obj) : list Request :=
  match o with
  | OSet ns s =>
    match targets ns with
    | Some l => List.map (λ mt, (ns, mt_Name mt)) (List.filter (λ mt, existsb (λ name, String.eqb name (is_Name s)) (mt_ImageSets mt)) l)
    | None => []
    end
  | _ => []
  end.

Definition summary_event (o : obj) : bool :=
  match o with OOther _ _ name _ => HasSuffix name (SummaryConfigMapName "") | OSet _ s => HasSuffix (is_Name s) (SummaryConfigMapName "") | OTarget _ mt => HasSuffix (mt_Name mt) (SummaryConfigMapName "") end.
(** A predicate on objects looks at the new object of an update. *)
Definition passes (p : obj → bool) (e : event) : bool := match e with Created o | Deleted o => p o | Updated _ new => p new end.

Definition target_requests (targets : string → option (list MirrorTarget)) (e : event) : list Request :=
  concat (List.map (λ o, match o with OTarget ns mt => [(ns, mt_Name mt)] | _ => [] end) (objects_of e))
  ++ concat (List.map (owner_requests targetOwns "MirrorTarget") (objects_of e))
  ++ (if imageSetCountsChanged e then concat (List.map (mirrorTargetsForImageSet targets) (objects_of e)) else [])
  ++ (if passes summary_event e then concat (List.map (owner_requests ["ConfigMap"] "MirrorTarget") (objects_of e)) else []).

(** ** ImageSets *)

Definition sets_of_target (o : obj) : list Request :=
  match o with OTarget ns mt => List.map (λ isName, (ns, isName)) (mt_ImageSets mt) | _ => [] end.

Definition state_requests (sets : Request → option ImageSet) (targets : Request → option MirrorTarget) (o : obj) : list Request :=
  match o with
  | OOther kind ns name _ =>
    if String.eqb kind "ConfigMap"
    then List.map (λ isName, (ns, isName)) (imageStateConfigMapToRequests (λ n, sets (ns, n)) (λ n, targets (ns, n)) name) else []
  | _ => []
  end.

Definition set_requests (sets : Request → option ImageSet) (targets : Request → option MirrorTarget) (e : event) : list Request :=
  concat (List.map (λ o, match o with OSet ns s => [(ns, is_Name s)] | _ => [] end) (objects_of e))
  ++ concat (List.map (owner_requests ["Job"] "ImageSet") (objects_of e))
  ++ concat (List.map sets_of_target (objects_of e))
  ++ concat (List.map (state_requests sets targets) (objects_of e)).

(** ** MirrorExports *)

Definition exportOwns : list string := ["Job"; "ConfigMap"; "ServiceAccount"; "Role"; "RoleBinding"].

Definition export_requests (e : event) : list Request :=
  concat (List.map (λ o, match o with OOther "MirrorExport" ns name _ => [(ns, name)] | _ => [] end) (objects_of e))
  ++ concat (List.map (owner_requests exportOwns "MirrorExport") (objects_of e)).

(** * Lemmas *)

(** What an event does to the ImageSets of a namespace, by name. *)
Inductive set_event (ns : string) : gmap string ImageSet → event → gmap string ImageSet → Prop :=
| set_created sets s : sets !! is_Name s = None → set_event ns sets (Created (OSet ns s)) (<[is_Name s := s]> sets)
| set_updated sets old new :
    sets !! is_Name new = Some old → is_Name old = is_Name new → set_event ns sets (Updated (OSet ns old) (OSet ns new)) (<[is_Name new := new]> sets)
| set_deleted sets s : sets !! is_Name s = Some s → set_event ns sets (Deleted (OSet ns s)) (delete (is_Name s) sets).

Lemma mirrorTargets_spec targets ns s req :
  req ∈ mirrorTargetsForImageSet targets (OSet ns s) ↔
  ∃ l mt, targets ns = Some l ∧ mt ∈ l ∧ is_Name s ∈ mt_ImageSets mt ∧ req = (ns, mt_Name mt).
Proof.
  cbn. destruct (targets ns) as [l|]; [|split; [set_solver|naive_solver]]. rewrite elem_of_map. split.
  - intros (mt & Hin & ->). apply elem_of_filter_bool in Hin as [He Hin]. apply existsb_exists in He as (name & Hn & ->%String.eqb_eq).
    exists l, mt. split_and!; try done. by apply list_elem_of_In.
  - intros (l' & mt & [= <-] & Hin & Hn & ->). exists mt. split; [|done]. apply elem_of_filter_bool. split; [|done].
    apply existsb_exists. exists (is_Name s). rewrite String.eqb_refl. split; [by apply list_elem_of_In|done].
Qed.

(** A row of a target's status that changes is the row of the object of the event,
    and the event passes the predicate. *)
Lemma row_changed ns sets e sets' name :
  set_event ns sets e sets' → set_summary sets name ≠ set_summary sets' name →
  imageSetCountsChanged e = true ∧ ∃ s, OSet ns s ∈ objects_of e ∧ is_Name s = name.
Proof.
  intros He Hne. destruct He as [sets s Hn|sets old new Ho En|sets s Hs]; unfold set_summary in Hne.
  - split; [done|]. destruct (decide (is_Name s = name)) as [E|E]; [exists s; cbn; set_solver|]. by rewrite lookup_insert_ne in Hne.
  - destruct (decide (is_Name new = name)) as [<-|E]; [|by rewrite lookup_insert_ne in Hne].
    split; [|exists new; cbn; set_solver]. rewrite Ho, lookup_insert_eq in Hne. cbn.
    destruct (Z.eqb_spec (st_TotalImages (is_Status old)) (st_TotalImages (is_Status new))) as [E1|]; [|done].
    destruct (Z.eqb_spec (st_MirroredImages (is_Status old)) (st_MirroredImages (is_Status new))) as [E2|]; [|done].
    destruct (Z.eqb_spec (st_PendingImages (is_Status old)) (st_PendingImages (is_Status new))) as [E3|]; [|done].
    destruct (Z.eqb_spec (st_FailedImages (is_Status old)) (st_FailedImages (is_Status new))) as [E4|]; [|done].
    exfalso. apply Hne. by rewrite E1, E2, E3, E4.
  - split; [done|]. destruct (decide (is_Name s = name)) as [E|E]; [exists s; cbn; set_solver|]. by rewrite lookup_delete_ne in Hne.
Qed.

Lemma requests_of {A} (f : A → list Request) (l : list A) o req : o ∈ l → req ∈ f o → req ∈ concat (List.map f l).
Proof. intros Ho Hr. apply elem_of_concat_map. eauto. Qed.

(** An update is of one object. *)
Definition obj_name (o : obj) : string := match o with OSet _ s => is_Name s | OTarget _ mt => mt_Name mt | OOther _ _ name _ => name end.
Definition same_object (e : event) : Prop := match e with Updated old new => obj_name old = obj_name new | _ => True end.

Lemma owned_noticed targets e kind ns n name :
  kind ∈ targetOwns → OOther kind ns n (Some ("MirrorTarget", name)) ∈ objects_of e → (ns, name) ∈ target_requests targets e.
Proof.
  intros Hk Ho. unfold target_requests. rewrite !elem_of_app. right. left. eapply requests_of; [exact Ho|]. cbn [owner_requests].
  rewrite bool_decide_eq_true_2 by done. by left.
Qed.

Lemma summary_noticed targets e ns name :
  same_object e → OOther "ConfigMap" ns (SummaryConfigMapName name) (Some ("MirrorTarget", name)) ∈ objects_of e → (ns, name) ∈ target_requests targets e.
Proof.
  intros Hs Ho. unfold target_requests. rewrite !elem_of_app. right. right. right.
  assert (Hp : ∀ o, obj_name o = SummaryConfigMapName name → summary_event o = true).
  { intros o E. assert (summary_event o = HasSuffix (obj_name o) (SummaryConfigMapName "")) as -> by by destruct o. rewrite E. apply HasSuffix_app. }
  assert (passes summary_event e = true) as ->.
  { destruct e as [o|old new|o]; cbn [objects_of] in Ho; [apply list_elem_of_singleton in Ho as <-; by apply Hp| |apply list_elem_of_singleton in Ho as <-; by apply Hp].
    cbn in Hs. apply Hp. rewrite !elem_of_cons, elem_of_nil in Ho. destruct Ho as [<-|[<-|[]]]; [by rewrite <- Hs|done]. }
  eapply requests_of; [exact Ho|]. cbn. by left.
Qed.

(** * Properties *)

(** C38: the controllers notice what they watch for.  While the targets of a namespace
    can be listed, an ImageSet that appears, changes or goes requests every
    MirrorTarget of its namespace in whose status its row changes by that.  A
    target is requested by every event of itself, of the summary of its totals and
    of what it controls among the objects it is deployed as, its Ingress and its
    Jobs; an ImageSet by every event of itself, of the ConfigMap of its state, of
    its Jobs and of a target that lists it; an export by every event of itself and
    of what it controls.  A target is requested by nothing but itself, what it
    controls and the ImageSets it lists.  (Not noticed: changes of Routes,
    HTTPRoutes and objects a target only shares, which wait for the periodic
    reconcile, [route_unnoticed]; an event while the targets cannot be listed,
    [list_failure_loses_event]; and for the ImageSets of a target its old ConfigMap
    when an ImageSet has its name, [legacy_state_shadowed].) *)
Theorem changes_are_noticed (env : OperatorEnv) (ns : string) (targets : string → option (list MirrorTarget))
    (set_at : Request → option ImageSet) (target_at : Request → option MirrorTarget) :
  (∀ sets e sets' l mt name, set_event ns sets e sets' → targets ns = Some l → mt ∈ l → name ∈ mt_ImageSets mt →
     set_summary sets name ≠ set_summary sets' name → (ns, mt_Name mt) ∈ target_requests targets e) ∧
  (∀ t o e, tg_Namespace t = ns → same_object e → o ∈ objects_of e →
     let controlled kind name := o = OOther kind ns name (Some ("MirrorTarget", mt_Name (tg_mt t))) in
     o = OTarget ns (tg_mt t) ∨ controlled "ConfigMap" (SummaryConfigMapName (mt_Name (tg_mt t))) ∨
     (∃ key b, (key, b) ∈ desired env t ∧ controlled (fst (fst key)) (snd key)) ∨ (∃ name, controlled "Ingress" name ∨ controlled "Job" name) →
     (ns, mt_Name (tg_mt t)) ∈ target_requests targets e) ∧
  (∀ s e o, set_at (ns, is_Name s) = Some s → o ∈ objects_of e →
     o = OSet ns s ∨ (∃ controller, o = OOther "ConfigMap" ns (ConfigMapName (is_Name s)) controller) ∨
     (∃ name, o = OOther "Job" ns name (Some ("ImageSet", is_Name s))) ∨ (∃ mt, o = OTarget ns mt ∧ is_Name s ∈ mt_ImageSets mt) →
     (ns, is_Name s) ∈ set_requests set_at target_at e) ∧
  (∀ name e o, o ∈ objects_of e →
     (∃ controller, o = OOther "MirrorExport" ns name controller) ∨ (∃ kind n, kind ∈ exportOwns ∧ o = OOther kind ns n (Some ("MirrorExport", name))) →
     (ns, name) ∈ export_requests e) ∧
  (∀ e name, (ns, name) ∈ target_requests targets e →
     ∃ o, o ∈ objects_of e ∧
       ((∃ mt, o = OTarget ns mt ∧ mt_Name mt = name) ∨ (∃ kind n, o = OOther kind ns n (Some ("MirrorTarget", name))) ∨
        (∃ s l mt, o = OSet ns s ∧ targets ns = Some l ∧ mt ∈ l ∧ mt_Name mt = name ∧ is_Name s ∈ mt_ImageSets mt))).
Proof.
  split_and!.
  - intros sets e sets' l mt name He Hl Hin Hn Hne. destruct (row_changed _ _ _ _ _ He Hne) as (Hp & s & Ho & <-).
    unfold target_requests. rewrite Hp, !elem_of_app. right. right. left. eapply requests_of; [exact Ho|]. apply mirrorTargets_spec. by exists l, mt.
  - intros t o e Hns Hsame Ho. cbv zeta. intros [->|[->|[(key & b & Hd & ->)|[name [-> | ->]]]]].
    + unfold target_requests. rewrite !elem_of_app. left. eapply requests_of; [exact Ho|]. by left.
    + by apply summary_noticed.
    + apply (owned_noticed targets e (fst (fst key)) ns (snd key)); [|done]. unfold desired in Hd.
      repeat (apply elem_of_cons in Hd as [Hd|Hd]; [injection Hd as -> _; cbn; unfold targetOwns; set_solver|]). by apply not_elem_of_nil in Hd.
    + apply (owned_noticed targets e "Ingress" ns name); [unfold targetOwns; set_solver|done].
    + apply (owned_noticed targets e "Job" ns name); [unfold targetOwns; set_solver|done].
  - intros s e o Hs Ho Hc. unfold set_requests. rewrite !elem_of_app. destruct Hc as [->|[[c ->]|[[name ->]|(mt & -> & Hin)]]].
    + left. eapply requests_of; [exact Ho|]. by left.
    + right. right. right. eapply requests_of; [exact Ho|]. cbn. unfold imageStateConfigMapToRequests, ConfigMapName.
      rewrite HasSuffix_app, TrimSuffix_app. cbn [negb]. rewrite Hs. by left.
    + right. left. eapply requests_of; [exact Ho|]. cbn. by left.
    + right. right. left. eapply requests_of; [exact Ho|]. cbn. apply elem_of_map. by exists (is_Name s).
  - intros name e o Ho [[c ->]|(kind & n & Hk & ->)]; unfold export_requests; rewrite elem_of_app; [left|right].
    + eapply requests_of; [exact Ho|]. by left.
    + eapply requests_of; [exact Ho|]. cbn. rewrite bool_decide_eq_true_2 by done. by left.
  - intros e name. unfold target_requests. rewrite !elem_of_app. intros [H|[H|[H|H]]].
    + apply elem_of_concat_map in H as (o & Ho & H). exists o. split; [done|]. destruct o; [set_solver| |set_solver].
      apply list_elem_of_singleton in H as [= <- ->]. left. eauto.
    + apply elem_of_concat_map in H as (o & Ho & H). exists o. split; [done|]. right. left. destruct o as [| |kind ns' n [[k nm]|]]; cbn in H; try set_solver.
      destruct (_ && _) eqn:E; [|set_solver]. apply andb_true_iff in E as [_ ->%String.eqb_eq]. apply list_elem_of_singleton in H as [= <- ->]. eauto.
    + destruct (imageSetCountsChanged e); [|set_solver]. apply elem_of_concat_map in H as (o & Ho & H). exists o. split; [done|]. right. right.
      destruct o as [ns' s| |]; [|cbn in H; set_solver..]. apply mirrorTargets_spec in H as (l & mt & Hl & Hin & Hn & [= <- ->]). by exists s, l, mt.
    + destruct (passes _ e); [|set_solver]. apply elem_of_concat_map in H as (o & Ho & H). exists o. split; [done|]. right. left.
      destruct o as [| |kind ns' n [[k nm]|]]; cbn in H; try set_solver. destruct (_ && _) eqn:E; [|set_solver].
      apply andb_true_iff in E as [_ ->%String.eqb_eq]. apply list_elem_of_singleton in H as [= <- ->]. eauto.
Qed.

(** The old ConfigMap of a target that has the name of an ImageSet requests that
    ImageSet only, not those of the target. *)
Lemma legacy_state_shadowed sets targets ns mt s isName :
  sets (ns, mt_Name mt) = Some s → isName ∈ mt_ImageSets mt → isName ≠ mt_Name mt →
  (ns, isName) ∉ set_requests sets targets (Created (OOther "ConfigMap" ns (ConfigMapNameForTarget (mt_Name mt)) (Some ("MirrorTarget", mt_Name mt)))).
Proof.
  intros Hs Hin Hne. unfold set_requests. cbn. unfold imageStateConfigMapToRequests, ConfigMapNameForTarget. rewrite HasSuffix_app, TrimSuffix_app. cbn [negb].
  rewrite Hs. cbn. intros H%list_elem_of_singleton. congruence.
Qed.

(** What a target controls of another kind requests nothing when it changes. *)
Lemma route_unnoticed targets kind ns name target :
  kind ∈ ["Route"; "HTTPRoute"] → HasSuffix name (SummaryConfigMapName "") = false →
  let o := OOther kind ns name (Some ("MirrorTarget", target)) in
  target_requests targets (Deleted o) = [] ∧ target_requests targets (Updated o o) = [].
Proof.
  rewrite !elem_of_cons, elem_of_nil. intros [->|[->|[]]] Hn; unfold target_requests; cbn -[SummaryConfigMapName]; by rewrite Hn.
Qed.

(** A failure of a list loses the event. *)
Lemma list_failure_loses_event targets ns s : targets ns = None → target_requests targets (Created (OSet ns s)) = [].
Proof. intros H. unfold target_requests. cbn. rewrite H. cbn. by destruct (HasSuffix _ _). Qed.

(** ** Witness *)

Definition ex_watch_set (mirrored : Z) : ImageSet := mkImageSet "s" ∅ 1 (mkMirror (mkPlatform false [] [] false) [] [] [] [] false) (mkStatus [] 3 mirrored (3 - mirrored) 0 [] 0 None).

(** A mirrored image changes the row of the target that lists the ImageSet. *)
Lemma changes_are_noticed_witness :
  ("ns", "t") ∈ target_requests (λ _, Some [tg_mt ex_tspec]) (Updated (OSet "ns" (ex_watch_set 1)) (OSet "ns" (ex_watch_set 2))).
Proof.
  destruct (changes_are_noticed (mkOperatorEnv "m" "o" "w") "ns" (λ _, Some [tg_mt ex_tspec]) (λ _, None) (λ _, None)) as (Hr & _).
  apply (Hr {["s" := ex_watch_set 1]} _ (<["s" := ex_watch_set 2]> {["s" := ex_watch_set 1]}) [tg_mt ex_tspec] (tg_mt ex_tspec) "s").
  - by apply set_updated.
  - reflexivity.
  - by left.
  - by left.
  - vm_compute. discriminate.
Defined.
