(* ===== verification/CatalogBuild.v ===== *)
(** * Running a catalog build

    The pod of a catalog build Job ([buildJobSpec] of
    pkg/mirror/catalog/builder/job.go), the program it runs (cmd/catalog-builder)
    and the Job that runs it: from the ImageSet and the target to the image in the
    registry.  The environment and what is read of it are in [BuildJobs], the
    build and its push in [ImagePush].

    The attempts of a Job differ in the order of their uploads, the point their
    deadline passes, and their temporary directory. *)
From S2P Require Import Prelude Effects GoStrings ImageRef ImageState Api Resolve Resources Semver CatalogGraph CatalogFilter BuildJobs CatalogImage Registry Signatures ReleasePayload ImagePush Deploy Worker Target.

Definition catalogBuilderBin : string := "/catalog-builder".

(** Seconds after which a build gives up. *)
Definition catalogBuildTimeout : Z := 20 * 60.

Record BuildPod := mkBuildPod {
  bp_Labels : Labels; bp_Image : string; bp_Command : list string; bp_Env : list EnvVar; bp_Mounts : list VolumeMount; bp_Volumes : list Volume;
  bp_BackoffLimit : Z; bp_TTL : Z; bp_ActiveDeadline : Z;
}.

(** One pod of the Job. *)
Record Attempt `{L : RegLib} := mkAttempt { at_sched : list Descriptor → list Descriptor; at_done : Net → bool; at_tmp : option string }.

Section build.
Context `{J : IncludeJSON, L : RegLib, A : Archive, PK : Packer, SV : Semver, F : FBC} (order : gset string → list string).

Definition catalog_build_pod (operatorImage isName : string) (mt : MirrorTarget) (sourceCatalog targetRef : string) (packages : list IncludePackage) : BuildPod :=
  let caKey ca := if String.eqb (ca_Key ca) "" then "ca-bundle.crt" else ca_Key ca in
  mkBuildPod {["app.kubernetes.io/managed-by" := "oc-mirror-operator"; "mirror.openshift.io/imageset" := isName]}
    operatorImage [catalogBuilderBin] (buildJobEnv mt sourceCatalog targetRef packages)
    ([mkVolumeMount "blob-buffer" "/tmp/blob-buffer"]
      ++ (if String.eqb (mt_AuthSecret mt) "" then [] else [mkVolumeMount "registry-auth" "/var/run/secrets/registry"])
      ++ match mt_CABundle mt with Some _ => [mkVolumeMount "ca-bundle" "/run/secrets/ca"] | None => [] end)
    ([mkVolume "blob-buffer" (VEmptyDir "10Gi")]
      ++ (if String.eqb (mt_AuthSecret mt) "" then []
          else [mkVolume "registry-auth" (VSecret (mt_AuthSecret mt) [(".dockerconfigjson", "config.json")])])
      ++ match mt_CABundle mt with
         | Some ca => [mkVolume "ca-bundle" (VConfigMap (ca_ConfigMapName ca) [(caKey ca, caKey ca)])]
         | None => []
         end)
    3 600 1800.

(** [main] of catalog-builder: whether it exits with 0. *)
Definition catalog_builder (env : list EnvVar) (a : Attempt) (w : Net) : bool * Net :=
  match builder_main env with
  | None => (false, w)
  | Some cfg =>
    let mc := NewMirrorClient (bc_insecureHosts cfg) (bc_authDir cfg) [] in
    let '(r, w) := BuildFilteredCatalogImage order (at_sched a) (at_done a) (mc_legs mc) (at_tmp a) (bc_source cfg) (bc_target cfg) (bc_packages cfg) w in
    (match r with inr _ => true | inl _ => false end, w)
  end.

(** Pods run one after the other until one succeeds or too many have failed. *)
Fixpoint run_pods (env : list EnvVar) (attempts : list Attempt) (w : Net) : bool * Net :=
  match attempts with
  | [] => (false, w)
  | a :: attempts => let '(ok, w) := catalog_builder env a w in if ok then (true, w) else run_pods env attempts w
  end.

Definition run_build_job (pod : BuildPod) (attempts : list Attempt) (w : Net) : bool * Net :=
  run_pods (bp_Env pod) (take (S (Z.to_nat (bp_BackoffLimit pod))) attempts) w.
End build.

(** * Lemmas *)

Section laws.
Context `{J : IncludeJSON, RL : RegLaws, A : Archive, PK : Packer, SV : Semver, F : FBC} (order : gset string → list string).

(** An attempt whose uploads are those of the image, in a directory of its own. *)
Definition sound_attempt (src : string) (dst : Ref) (a : Attempt) : Prop := (∀ l, at_sched a l ≡ₚ l) ∧ layout_apart (at_tmp a) src dst.

Lemma other_tags_kept dst x0 (r : Err + string) x t : push_ok dst x0 r x → t ≠ rf_Tag dst → ct_Tags x !! (repo dst, t) = ct_Tags x0 !! (repo dst, t).
Proof. intros [[Hs|[_ Hs]] _] Ht; by apply Hs. Qed.

(** The client of a build. *)
Definition build_client (cfg : builderConfig) : Legs := mc_legs (NewMirrorClient (bc_insecureHosts cfg) (bc_authDir cfg) []).

Lemma catalog_builder_spec env a cfg sr dst w ok w' :
  builder_main env = Some cfg → ref_New (bc_source cfg) = Some sr → ref_New (bc_target cfg) = Some dst → rf_Digest dst = "" → repo sr ≠ repo dst →
  sound_attempt (bc_source cfg) dst a →
  catalog_builder order env a w = (ok, w') →
  keeps sr w w' ∧
  (same_tags dst (contents w) (contents w') ∨ whole_image dst (contents w')) ∧
  (∀ t, t ≠ rf_Tag dst → ct_Tags (contents w') !! (repo dst, t) = ct_Tags (contents w) !! (repo dst, t)) ∧
  (ok = true → ∃ d, resolves (contents w') dst = Some d ∧ built_from order (build_client cfg) (contents w) sr (bc_packages cfg) d).
Proof.
  intros Ec Es Er Hd Hne [Hsched Hl]. unfold catalog_builder. rewrite Ec. cbv zeta. fold (build_client cfg). set (c := build_client cfg).
  pose proof (build_keeps sr dst Hne order (at_sched a) (at_done a) c (at_tmp a) (bc_source cfg) (bc_target cfg) (bc_packages cfg) w Er Hl Es) as Hk.
  pose proof (catalog_push order (at_sched a) (at_done a) c (at_tmp a) (bc_source cfg) (bc_target cfg) (bc_packages cfg) dst (contents w) Hsched Er Hd Hl w) as Hp.
  destruct (BuildFilteredCatalogImage _ _ _ _ _ _ _ _ w) as [r w1] eqn:E. intros [= <- <-].
  assert (Hok : push_ok dst (contents w) r (contents w1)) by (apply Hp; split; [done|]; by intros ? ?%elem_of_nil). clear Hp.
  split; [done|]. split; [destruct Hok as [[?|[? _]] _]; [by left|by right]|]. split; [intros t; by apply (other_tags_kept dst (contents w) r)|]. destruct r as [e|d]; [done|]. intros _. exists d.
  split; [by apply Hok|]. by eapply catalog_content.
Qed.

Lemma run_pods_spec env cfg sr dst attempts w ok w' :
  builder_main env = Some cfg → ref_New (bc_source cfg) = Some sr → ref_New (bc_target cfg) = Some dst → rf_Digest dst = "" → repo sr ≠ repo dst →
  Forall (sound_attempt (bc_source cfg) dst) attempts →
  run_pods order env attempts w = (ok, w') →
  keeps sr w w' ∧
  (same_tags dst (contents w) (contents w') ∨ whole_image dst (contents w')) ∧
  (∀ t, t ≠ rf_Tag dst → ct_Tags (contents w') !! (repo dst, t) = ct_Tags (contents w) !! (repo dst, t)) ∧
  (ok = true → ∃ d, resolves (contents w') dst = Some d ∧ built_from order (build_client cfg) (contents w) sr (bc_packages cfg) d).
Proof.
  intros Ec Es Er Hd Hne Ha. revert w. induction Ha as [|a attempts Ha _ IH]; intros w; cbn [run_pods].
  { intros [= <- <-]. split_and!; [done|by left|done|done]. }
  destruct (catalog_builder order env a w) as [ok1 w1] eqn:E1. destruct (catalog_builder_spec env a cfg sr dst w ok1 w1) as (Hk & Hw & Ht & Hb); [done..|].
  destruct ok1; [intros [= <- <-]; by split|]. intros E. destruct (IH w1 E) as (Hk' & Hw' & Ht' & Hb'). split; [by etrans|]. split_and!.
  - destruct Hw' as [Hs|?]; [|by right]. destruct Hw as [Hs1|Hw]; [left; intros t; by rewrite Hs, Hs1|].
    right. by apply (whole_image_kept sr dst w1 w' Hd Hk').
  - intros t Hnt. by rewrite Ht', Ht.
  - intros Hok. destruct (Hb' Hok) as (d & Hd1 & Hd2). exists d. split; [done|]. destruct Hk as [Hk _]. unfold built_from in *. by rewrite Hk in Hd2.
Qed.
End laws.

(** The variables of a build in the order of its volumes. *)
Lemma build_env_mounted `{IncludeJSON} operatorImage isName mt src tgt pkgs :
  let pod := catalog_build_pod operatorImage isName mt src tgt pkgs in
  mounts_backed (bp_Mounts pod) (bp_Volumes pod) ∧
  (∀ dir, mkEnvVar "DOCKER_CONFIG" dir ∈ bp_Env pod → provides (bp_Mounts pod) (bp_Volumes pod) dir "config.json") ∧
  (∀ path, mkEnvVar "SSL_CERT_FILE" path ∈ bp_Env pod → ∃ dir file, path = dir +:+ "/" +:+ file ∧ provides (bp_Mounts pod) (bp_Volumes pod) dir file).
Proof.
  cbv zeta. unfold catalog_build_pod. cbn [bp_Env bp_Mounts bp_Volumes].
  set (fixed := [mkEnvVar EnvSourceCatalog src; mkEnvVar EnvTargetRef tgt; mkEnvVar EnvCatalogPackages (Join (map ip_Name pkgs) ",")]
    ++ (if decide (pkgs = []) then [] else match json_packages pkgs with Some data => [mkEnvVar EnvCatalogIncludeConfig data] | None => [] end)
    ++ (if mt_Insecure mt then [mkEnvVar EnvInsecureHosts (CutBefore (mt_Registry mt) "/")] else [])).
  assert (E : buildJobEnv mt src tgt pkgs = fixed
    ++ (if String.eqb (mt_AuthSecret mt) "" then [] else [mkEnvVar EnvDockerConfig "/var/run/secrets/registry"]) ++ catalogProxyEnvVars (mt_Proxy mt)
    ++ (match mt_CABundle mt with
        | Some ca => [mkEnvVar "SSL_CERT_FILE" ("/run/secrets/ca/" +:+ (if String.eqb (ca_Key ca) "" then "ca-bundle.crt" else ca_Key ca))]
        | None => []
        end)) by (unfold fixed, buildJobEnv; by rewrite <- !app_assoc).
  rewrite E.
  apply (mounted_env_ok _ [mkVolumeMount "blob-buffer" "/tmp/blob-buffer"] [mkVolume "blob-buffer" (VEmptyDir "10Gi")]).
  - unfold fixed. destruct (decide (pkgs = [])), (json_packages pkgs), (mt_Insecure mt); by repeat constructor.
  - done.
  - apply NoDup_singleton.
  - cbn. set_solver.
  - done.
  - cbn. set_solver.
Qed.

(** * Properties *)

(** C39: a catalog build does what the ImageSet and its target ask for.  Its pod
    finds the credentials and the CA bundle its variables name in the volumes that
    are mounted.  However many of its attempts fail, at whatever point, in the
    repository of the target no tag but the one the Job was created for moves, and
    that one is as before or points at an image that is there with all its blobs;
    a Job that succeeds leaves it at an image built from the catalog the Job was
    created for: from the layers of the image this source points at, with the
    catalog filtered by the packages, channels and versions of the ImageSet.
    Source and target are different repositories, the target is given by a tag,
    the JSON of the packages decodes to them, and each attempt has its own
    directory. *)
Theorem catalog_job_publishes `{J : IncludeJSON, RL : RegLaws, A : Archive, PK : Packer, SV : Semver, F : FBC}
    order operatorImage isName mt src tgt pkgs sr dst attempts w ok w' :
  let pod := catalog_build_pod operatorImage isName mt src tgt pkgs in
  src ≠ "" → tgt ≠ "" → (∀ s, json_packages pkgs = Some s → s ≠ "" ∧ parse_packages s = Some pkgs) → is_Some (json_packages pkgs) →
  ref_New src = Some sr → ref_New tgt = Some dst → rf_Digest dst = "" → repo sr ≠ repo dst → Forall (sound_attempt src dst) attempts →
  run_build_job order pod attempts w = (ok, w') →
  (∀ dir, mkEnvVar "DOCKER_CONFIG" dir ∈ bp_Env pod → provides (bp_Mounts pod) (bp_Volumes pod) dir "config.json") ∧
  (∀ path, mkEnvVar "SSL_CERT_FILE" path ∈ bp_Env pod → ∃ dir file, path = dir +:+ "/" +:+ file ∧ provides (bp_Mounts pod) (bp_Volumes pod) dir file) ∧
  (same_tags dst (contents w) (contents w') ∨ whole_image dst (contents w')) ∧
  (∀ t, t ≠ rf_Tag dst → ct_Tags (contents w') !! (repo dst, t) = ct_Tags (contents w) !! (repo dst, t)) ∧
  (ok = true → ∃ cfg d, builder_main (bp_Env pod) = Some cfg ∧ resolves (contents w') dst = Some d ∧
     built_from order (build_client cfg) (contents w) sr pkgs d).
Proof.
  intros pod Hs Ht Hj Hd Es Er Hdst Hne Ha E. destruct (build_env_mounted operatorImage isName mt src tgt pkgs) as (_ & H1 & H2).
  split; [done|]. split; [done|]. destruct (builder_reads_back_job mt src tgt pkgs Hs Ht Hj Hd) as [Hc _].
  destruct (run_pods_spec order (bp_Env pod) _ sr dst _ w ok w' Hc Es Er Hdst Hne (Forall_take _ _ _ Ha) E) as (_ & Hw & Ho & Hb).
  split_and!; [done..|]. intros Hok. destruct (Hb Hok) as (d & Hd1 & Hd2). eexists _, d. split; [exact Hc|]. by split.
Qed.

(** A build has one attempt: the deadline is that of the Job, over all its pods,
    so that a second one is cut short after an attempt that timed out. *)
Lemma second_attempt_cut_short `{IncludeJSON} operatorImage isName mt src tgt pkgs :
  (bp_ActiveDeadline (catalog_build_pod operatorImage isName mt src tgt pkgs) < 2 * catalogBuildTimeout)%Z.
Proof. by_vm. Qed.

(** ** Examples *)

Definition ex_build_json : IncludeJSON := {| json_packages _ := Some "[a]"; parse_packages _ := Some [plain_include "a"] |}.
(** An attempt that finds no temporary directory, and one that works. *)
Definition ex_attempts : list (@Attempt mem_lib) := [@mkAttempt mem_lib (@rev _) (λ _, false) None; @mkAttempt mem_lib (@rev _) (λ _, false) (Some "/tmp/b")].
Definition ex_build_run : bool * Contents :=
  @run_build_job ex_build_json mem_lib ex_archive ex_packer number_semver ex_fbc elements
    (@catalog_build_pod ex_build_json "operator:1" "s" ex_res_target "quay.io/cat:v1" "reg/cat:v1" [plain_include "a"]) ex_attempts
    (ex_source_net "cat" "v1" ex_catalog_source).

Lemma catalog_job_publishes_witness :
  fst ex_build_run = true ∧ is_Some (resolves (snd ex_build_run) ex_target_ref).
Proof.
  assert (Hr : fst ex_build_run = true) by (vm_compute; reflexivity). split; [exact Hr|].
  destruct (@catalog_job_publishes ex_build_json mem_lib mem_laws ex_archive ex_packer number_semver ex_fbc elements "operator:1" "s" ex_res_target
    "quay.io/cat:v1" "reg/cat:v1" [plain_include "a"] (mkRef "" "quay.io" "cat" "" "v1" "") ex_target_ref ex_attempts (ex_source_net "cat" "v1" ex_catalog_source) (fst ex_build_run) (snd ex_build_run))
    as (_ & _ & _ & _ & Hp).
  - discriminate.
  - discriminate.
  - intros s [= <-]. split; [discriminate|reflexivity].
  - by eexists.
  - reflexivity.
  - reflexivity.
  - reflexivity.
  - discriminate.
  - apply Forall_cons; split; [|apply Forall_singleton]; (split; [intros l; apply Permutation_sym, Permutation_rev|]); [done|apply mem_layout_apart].
  - unfold ex_build_run. by destruct (run_build_job _ _ _ _).
  - destruct (Hp Hr) as (cfg & d & _ & Hd & _). by exists d.
Defined.
