(* ===== verification/Commands.v ===== *)
(** * Command lines

    The programs of cmd/ as far as what they become: the parsing of their
    arguments and environment (cmd/main.go, cmd/manager, cmd/worker,
    cmd/controller, cmd/dashboard, pkg/mirror/cleanup/main.go,
    pkg/mirror/worker/main.go), and the pod of a cleanup Job
    (createCleanupJob of internal/controller/mirrortarget_controller.go).  The
    pods the operator creates are this one and those of [Deploy], [Worker],
    [CatalogBuild], [ExportJob] and [ConsolePlugin].

    Flags that other packages register are a parameter; so is whether a cluster
    can be reached, and whether certificates load. *)
From S2P Require Import Prelude Effects GoStrings ImageRef ImageState Api Resources Cleanup BuildJobs CatalogGate Deploy Registry ExportJob Cluster ConsolePlugin Worker Target CatalogGraph CatalogFilter CatalogBuild.

(** ** Package flag *)

(** [FOther]: a flag of another package, whether it is boolean, and the values it
    accepts. *)
Inductive flagKind := FString | FBool | FOther (isBool : bool) (accepts : string → bool).

(** The values that were given. *)
Record flagValues := mkFlagValues { fv_string : gmap string string; fv_bool : gmap string bool }.
Definition no_values : flagValues := mkFlagValues ∅ ∅.

Inductive parseResult := POk (values : flagValues) (rest : list string) | PHelp | PErr.

Definition ParseBool (s : string) : option bool :=
  if bool_decide (s ∈ ["1"; "t"; "T"; "TRUE"; "true"; "True"]) then Some true
  else if bool_decide (s ∈ ["0"; "f"; "F"; "FALSE"; "false"; "False"]) then Some false
  else None.

Inductive argument := Positional | Terminator | BadSyntax | Flag (name : string) (value : option string).

(** The text behind the dashes. *)
Definition flag_of (name : string) : argument :=
  match name with
  | "" | String "-" _ | String "=" _ => BadSyntax
  | _ => match cut "=" name with Some (name, value) => Flag name (Some value) | None => Flag name None end
  end.

Definition classify (s : string) : argument :=
  match s with
  | String "-" "" => Positional
  | String "-" (String "-" "") => Terminator
  | String "-" (String "-" name) => flag_of name
  | String "-" name => flag_of name
  | _ => Positional
  end.

Definition set_string (name value : string) (v : flagValues) : flagValues := mkFlagValues (<[name := value]> (fv_string v)) (fv_bool v).
Definition set_bool (name : string) (b : bool) (v : flagValues) : flagValues := mkFlagValues (fv_string v) (<[name := b]> (fv_bool v)).

(** [FlagSet.Parse] *)
Fixpoint parse (flags : gmap string flagKind) (args : list string) (v : flagValues) : parseResult :=
  match args with
  | [] => POk v []
  | s :: rest =>
    match classify s with
    | Positional => POk v args
    | Terminator => POk v rest
    | BadSyntax => PErr
    | Flag name value =>
      match flags !! name with
      | None => if String.eqb name "help" || String.eqb name "h" then PHelp else PErr
      | Some FBool =>
        match ParseBool (default "true" value) with Some b => parse flags rest (set_bool name b v) | None => PErr end
      | Some FString =>
        match value, rest with
        | Some value, _ => parse flags rest (set_string name value v)
        | None, value :: rest => parse flags rest (set_string name value v)
        | None, [] => PErr
        end
      | Some (FOther true accepts) => if accepts (default "true" value) then parse flags rest v else PErr
      | Some (FOther false accepts) =>
        match value, rest with
        | Some value, _ => if accepts value then parse flags rest v else PErr
        | None, value :: rest => if accepts value then parse flags rest v else PErr
        | None, [] => PErr
        end
      end
    end
  end.

Definition str (v : flagValues) (name dflt : string) : string := default dflt (fv_string v !! name).
Definition bln (v : flagValues) (name : string) (dflt : bool) : bool := default dflt (fv_bool v !! name).

(** ** What a program becomes *)

(** The flags of the cleanup. *)
Record Options := mkOptions { opt_ImageSet : string; opt_Namespace : string; opt_Registry : string; opt_Insecure : bool; opt_ConfigMap : string }.

(** The options of the controller's manager and the controllers it is given;
    [cf_Namespaces] is [None] for all namespaces. *)
Record ControllerConfig := mkControllerConfig {
  cf_MetricsAddr : string; cf_SecureMetrics : bool; cf_ProbeAddr : string; cf_LeaderElect : bool; cf_HTTP2 : bool;
  cf_WebhookCert : bool; cf_MetricsCert : bool;
  cf_LeaderNamespace : option string; cf_Namespaces : option (list string); cf_ConfigMapNamespaces : option (list string);
  cf_Controllers : list string; cf_PluginNamespace : string; cf_PluginImages : gmap string string;
}.

Inductive Process :=
| Exited (code : Z)
| ManagerProcess (targetName namespace image authConfigPath : string)
| WorkerProcess (insecure : bool) (batchJSON src dest : string)
| CleanupProcess (o : Options)
| ResourceAPIProcess (namespace : string)
| PluginProcess (addr certFile keyFile namespace : string)
| ControllerProcess (cfg : ControllerConfig).

(** [flag.ExitOnError] *)
Definition exit_on_error (r : parseResult) (k : flagValues → Process) : Process :=
  match r with POk v _ => k v | PHelp => Exited 0 | PErr => Exited 2 end.

Section programs.
(** [cluster]: a configuration and a client could be had. [extra]: flags of the
    packages for logging and configuration, on the program's own set of flags.
    [certs]: a certificate and its key load from a directory. *)
Context (cluster : bool) (extra : gmap string flagKind) (certs : string → string → string → bool).

(** *** cleanup *)

Definition cleanup_flags : gmap string flagKind :=
  {["imageset" := FString; "namespace" := FString; "registry" := FString; "insecure" := FBool; "configmap" := FString]}.

Definition ParseFlags (args : list string) : option Options :=
  match parse cleanup_flags args no_values with
  | POk v _ =>
    let o := mkOptions (str v "imageset" "") (str v "namespace" "") (str v "registry" "") (bln v "insecure" false) (str v "configmap" "") in
    if String.eqb (opt_Namespace o) "" || String.eqb (opt_Registry o) "" then None
    else if String.eqb (opt_ImageSet o) "" && String.eqb (opt_ConfigMap o) "" then None
    else Some (if String.eqb (opt_ConfigMap o) ""
               then mkOptions (opt_ImageSet o) (opt_Namespace o) (opt_Registry o) (opt_Insecure o) (ConfigMapName (opt_ImageSet o))
               else o)
  | _ => None
  end.

Definition cleanup_Main (args : list string) : Process :=
  match ParseFlags args with
  | None => Exited 1
  | Some o => if cluster then CleanupProcess o else Exited 1
  end.

(** The registry client of a cleanup and of a worker. *)
Definition worker_NewMirrorClient (env : list EnvVar) (insecure : bool) (firstDest : string) : MirrorClient :=
  let destHost := CutBefore firstDest "/" in
  let insecureHosts := if insecure && negb (String.eqb destHost "") then [destHost] else [] in
  NewMirrorClient insecureHosts (getenv env "DOCKER_CONFIG") [destHost].

(** The exit code of a cleanup: the registry of the client deletes with [del]. *)
Definition cleanup_run (del : MirrorClient → nat → string → bool) (env : list EnvVar) (order : gmap string (option ImageEntry) → list string) (o : Options)
    : API (option Z * list (nat * string)) :=
  r ← Run (del (worker_NewMirrorClient env (opt_Insecure o) (opt_Registry o))) order (opt_ConfigMap o);
  match r with
  | (RunOk _, calls) => mret (Some 0%Z, calls)
  | (RunFailed _, calls) => mret (Some 1%Z, calls)
  | (RunPanic, calls) => mret (None, calls)
  end.

(** *** worker *)

Definition worker_flags : gmap string flagKind := {["insecure" := FBool; "src" := FString; "dest" := FString]}.

Definition worker_Main (env : list EnvVar) (args : list string) : Process :=
  match parse worker_flags args no_values with
  | POk v _ => WorkerProcess (bln v "insecure" false) (getenv env "MIRROR_BATCH") (str v "src" "") (str v "dest" "")
  | _ => Exited 1
  end.

(** cmd/worker; [args] does not include the name of the program. *)
Definition worker_main (env : list EnvVar) (args : list string) : Process :=
  match args with
  | "cleanup" :: args => cleanup_Main args
  | args => worker_Main env args
  end.

(** *** manager *)

(** [manager.New] *)
Definition manager_New (env : list EnvVar) (targetName namespace : string) : Process :=
  if negb cluster then Exited 1
  else
    let image := getenv env "WORKER_IMAGE" in
    let image := if String.eqb image "" then getenv env "OPERATOR_IMAGE" else image in
    if String.eqb image "" then Exited 1 else ManagerProcess targetName namespace image (getenv env "DOCKER_CONFIG").

Definition or_env (value : string) (env : list EnvVar) (name : string) : string := if String.eqb value "" then getenv env name else value.

Definition resource_flags : gmap string flagKind := {["namespace" := FString]}.

(** The same function in cmd/main.go and in cmd/manager. *)
Definition runResourceAPI (env : list EnvVar) (args : list string) : Process :=
  exit_on_error (parse resource_flags args no_values) (λ v,
    if cluster then ResourceAPIProcess (or_env (str v "namespace" "") env "POD_NAMESPACE") else Exited 1).

Definition manager_flags : gmap string flagKind := {["mirrortarget" := FString; "namespace" := FString]}.

(** cmd/manager *)
Definition manager_main (env : list EnvVar) (args : list string) : Process :=
  match args with
  | "resource-api" :: args => runResourceAPI env args
  | args =>
    exit_on_error (parse (manager_flags ∪ extra) args no_values) (λ v,
      let namespace := or_env (str v "namespace" "") env "POD_NAMESPACE" in
      if String.eqb (str v "mirrortarget" "") "" then Exited 1
      else if String.eqb namespace "" then Exited 1
      else manager_New env (str v "mirrortarget" "") namespace)
  end.

(** *** plugin *)

Definition plugin_flags : gmap string flagKind := {["bind-address" := FString; "cert-file" := FString; "key-file" := FString]}.

Definition runPlugin (env : list EnvVar) (args : list string) : Process :=
  exit_on_error (parse plugin_flags args no_values) (λ v,
    if cluster then PluginProcess (str v "bind-address" ":9001") (str v "cert-file" "/var/serving-cert/tls.crt")
                      (str v "key-file" "/var/serving-cert/tls.key") (getenv env "POD_NAMESPACE")
    else Exited 1).

(** *** controller *)

Definition controller_flags : gmap string flagKind :=
  {["metrics-bind-address" := FString; "health-probe-bind-address" := FString; "leader-elect" := FBool; "metrics-secure" := FBool;
    "webhook-cert-path" := FString; "webhook-cert-name" := FString; "webhook-cert-key" := FString;
    "metrics-cert-path" := FString; "metrics-cert-name" := FString; "metrics-cert-key" := FString; "enable-http2" := FBool]}.

Definition cert_ok (v : flagValues) (kind : string) : bool :=
  let path := str v (kind +:+ "-cert-path") "" in
  String.eqb path "" || certs path (str v (kind +:+ "-cert-name") "tls.crt") (str v (kind +:+ "-cert-key") "tls.key").
Definition has_cert (v : flagValues) (kind : string) : bool := negb (String.eqb (str v (kind +:+ "-cert-path") "") "").

(** The options both programs share; a certificate that does not load ends them. *)
Definition with_options (v : flagValues) (leaderNs : option string) (namespaces cmNamespaces : option (list string)) (controllers : list string)
    (pluginNs : string) (images : gmap string string) : Process :=
  if negb (cert_ok v "webhook") then Exited 1
  else if negb (cert_ok v "metrics") then Exited 1
  else if negb cluster then Exited 1
  else ControllerProcess (mkControllerConfig (str v "metrics-bind-address" "0") (bln v "metrics-secure" true)
         (str v "health-probe-bind-address" ":8081") (bln v "leader-elect" false) (bln v "enable-http2" false)
         (has_cert v "webhook") (has_cert v "metrics") leaderNs namespaces cmNamespaces controllers pluginNs images).

Definition operator_namespace (env : list EnvVar) : string := or_env (getenv env "OPERATOR_NAMESPACE") env "POD_NAMESPACE".

Definition required_images : list string := ["OPERATOR_IMAGE"; "MANAGER_IMAGE"; "WORKER_IMAGE"].

(** cmd/controller *)
Definition controller_main (env : list EnvVar) (args : list string) : Process :=
  exit_on_error (parse (controller_flags ∪ extra) args no_values) (λ v,
    if existsb (λ name, String.eqb (getenv env name) "") required_images then Exited 1
    else
      let ns := operator_namespace env in
      if String.eqb ns "" then Exited 1
      else with_options v (Some ns) (Some [ns]) (Some [ns; "openshift-config-managed"])
             ["MirrorTarget"; "ImageSet"; "MirrorExport"; "ConsolePlugin"; "Monitoring"] ns (pluginImages (getenv env))).

(** *** cmd/main.go *)

Definition runManager (env : list EnvVar) (args : list string) : Process :=
  exit_on_error (parse manager_flags args no_values) (λ v,
    manager_New env (str v "mirrortarget" "") (or_env (str v "namespace" "") env "POD_NAMESPACE")).

Definition runController (env : list EnvVar) (args : list string) : Process :=
  exit_on_error (parse (controller_flags ∪ extra) args no_values) (λ v,
    if String.eqb (getenv env "OPERATOR_IMAGE") "" then Exited 1
    else with_options v None None None ["MirrorTarget"; "ImageSet"; "ConsolePlugin"] (operator_namespace env) (pluginImagesLegacy (getenv env))).

Definition legacy_main (env : list EnvVar) (args : list string) : Process :=
  match args with
  | "manager" :: args => runManager env args
  | "worker" :: args => worker_Main env args
  | "cleanup" :: args => cleanup_Main args
  | "resource-api" :: args => runResourceAPI env args
  | args => runController env args
  end.
End programs.

(** ** The pod of a cleanup *)

Record CleanupPod := mkCleanupPod {
  cp_Labels : Labels; cp_ServiceAccountName : string; cp_Image : string; cp_Args : list string; cp_Env : list EnvVar;
  cp_Mounts : list VolumeMount; cp_Volumes : list Volume; cp_BackoffLimit : Z; cp_TTL : Z;
}.

Definition cleanup_pod (env : OperatorEnv) (t : TargetSpec) (imageSetName snapshotCMName : string) : CleanupPod :=
  let mt := tg_mt t in
  let auth := negb (String.eqb (mt_AuthSecret mt) "") in
  mkCleanupPod {["app.kubernetes.io/managed-by" := "oc-mirror-operator"; "mirror.openshift.io/cleanup" := imageSetName; "mirrortarget" := mt_Name mt]}
    (mt_Name mt +:+ "-coordinator") (WORKER_IMAGE env)
    (["cleanup"; "--configmap"; snapshotCMName; "--namespace"; tg_Namespace t; "--registry"; mt_Registry mt]
      ++ (if mt_Insecure mt then ["--insecure"] else []))
    (if auth then [mkEnvVar "DOCKER_CONFIG" "/docker-config"] else [])
    (if auth then [mkVolumeMount "registry-auth" "/docker-config"] else [])
    (if auth then [mkVolume "registry-auth" (VSecret (mt_AuthSecret mt) [(".dockerconfigjson", "config.json")])] else [])
    3 600.

(** * Lemmas *)

(** ** Parsing *)

Lemma parse_string flags name (s value : string) rest v :
  classify s = Flag name None → flags !! name = Some FString → parse flags (s :: value :: rest) v = parse flags rest (set_string name value v).
Proof. intros Hc Hf. cbn [parse]. by rewrite Hc, Hf. Qed.

Lemma parse_inline flags name (s value : string) rest v :
  classify s = Flag name (Some value) → flags !! name = Some FString → parse flags (s :: rest) v = parse flags rest (set_string name value v).
Proof. intros Hc Hf. cbn [parse]. by rewrite Hc, Hf. Qed.

Lemma parse_switch flags name (s : string) rest v :
  classify s = Flag name None → flags !! name = Some FBool → parse flags (s :: rest) v = parse flags rest (set_bool name true v).
Proof. intros Hc Hf. cbn [parse]. rewrite Hc, Hf. done. Qed.

Lemma parse_unknown flags name (s : string) value rest v :
  classify s = Flag name value → flags !! name = None → name ≠ "help" → name ≠ "h" → parse flags (s :: rest) v = PErr.
Proof.
  intros Hc Hf H1 H2. cbn [parse]. rewrite Hc, Hf. by rewrite (proj2 (String.eqb_neq _ _) H1), (proj2 (String.eqb_neq _ _) H2).
Qed.

Lemma own_flag (own extra : gmap string flagKind) name k : own !! name = Some k → (own ∪ extra) !! name = Some k.
Proof. intros H. rewrite lookup_union, H. by destruct (extra !! name). Qed.

Lemma str_same v name value dflt : str (set_string name value v) name dflt = value.
Proof. unfold str, set_string. cbn. by rewrite lookup_insert_eq. Qed.
Lemma str_other v n1 n2 value dflt : n1 ≠ n2 → str (set_string n1 value v) n2 dflt = str v n2 dflt.
Proof. intros H. unfold str, set_string. cbn. by rewrite lookup_insert_ne. Qed.
Lemma str_bool v n1 b n2 dflt : str (set_bool n1 b v) n2 dflt = str v n2 dflt.
Proof. done. Qed.

(** ** Variables of the manager *)


Lemma manager_getenv env t name :
  name ∉ proxy_names → name ≠ "SSL_CERT_FILE" → name ≠ "DOCKER_CONFIG" →
  getenv (managerContainerEnv env t) name =
  getenv [mkEnvVar "POD_NAMESPACE" (tg_Namespace t); mkEnvVar "OPERATOR_IMAGE" (OPERATOR_IMAGE env); mkEnvVar "WORKER_IMAGE" (WORKER_IMAGE env)] name.
Proof.
  intros Hn Hs Hd. change (getenv ?l name) with (getenv_from "" l name). unfold managerContainerEnv. rewrite !getenv_from_app.
  rewrite (getenv_from_absent _ (caBundleEnvVars _)) by (destruct (mt_CABundle _); repeat constructor; cbn; congruence).
  rewrite proxyEnvVars_catalog, (getenv_from_absent _ (catalogProxyEnvVars _)) by by apply proxy_env_absent.
  apply getenv_from_absent. destruct (String.eqb _ ""); repeat constructor. cbn. congruence.
Qed.

Lemma manager_docker_config env t :
  getenv (managerContainerEnv env t) "DOCKER_CONFIG" = if String.eqb (mt_AuthSecret (tg_mt t)) "" then "" else "/docker-config".
Proof.
  change (getenv ?l ?n) with (getenv_from "" l n). unfold managerContainerEnv. rewrite !getenv_from_app.
  rewrite (getenv_from_absent _ (caBundleEnvVars _)) by (destruct (mt_CABundle _); repeat constructor; cbn; discriminate).
  rewrite proxyEnvVars_catalog, (getenv_from_absent _ (catalogProxyEnvVars _)) by (apply proxy_env_absent; by_vm).
  by destruct (String.eqb _ "").
Qed.

(** ** The registry of a target *)

Lemma CutBefore_path registry path : CutBefore (registry +:+ "/" +:+ path) "/" = CutBefore registry "/".
Proof.
  unfold CutBefore. destruct (cut "/" registry) as [[a b]|] eqn:E.
  - pose proof (cut_char_before _ _ _ _ E) as Ha. apply cut_Some in E as ->. rewrite <- !app_assoc_s. rewrite !app_cons_s, !app_nil_l_s. by rewrite cut_char_app.
  - apply cut_char_None in E. rewrite app_cons_s, app_nil_l_s. by rewrite cut_char_app.
Qed.

(** What a rule of RBAC permits. *)
Definition permits (rules : list PolicyRule) (group resource verb : string) : bool :=
  existsb (λ r, bool_decide (group ∈ pr_APIGroups r) && bool_decide (resource ∈ pr_Resources r) && bool_decide (pr_ResourceNames r = [])
                && bool_decide (verb ∈ pr_Verbs r)) rules.

Ltac parse_args :=
  repeat first
    [ erewrite parse_string; [|cbv; reflexivity|first [apply own_flag; reflexivity | reflexivity]]
    | erewrite parse_inline; [|cbv; reflexivity|first [apply own_flag; reflexivity | reflexivity]]
    | erewrite parse_switch; [|cbv; reflexivity|first [apply own_flag; reflexivity | reflexivity]] ].

(** A value that was set is the value that is read. *)
Ltac read_values := rewrite ?str_bool; repeat first [rewrite str_same | rewrite str_other by discriminate]; rewrite ?str_bool.

Lemma manager_starts extra env t :
  let c := pt_Container (ds_Template (manager_deployment env t)) in
  mt_Name (tg_mt t) ≠ "" → tg_Namespace t ≠ "" → WORKER_IMAGE env ≠ "" →
  manager_main true extra (co_Env c) (co_Args c) =
  ManagerProcess (mt_Name (tg_mt t)) (tg_Namespace t) (WORKER_IMAGE env) (if String.eqb (mt_AuthSecret (tg_mt t)) "" then "" else "/docker-config").
Proof.
  intros c Hn Hs Hi. unfold c, manager_deployment. cbn [pt_Container ds_Template co_Env co_Args].
  change (manager_main true extra ?e ?a) with
    (exit_on_error (parse (manager_flags ∪ extra) a no_values) (λ v,
      let namespace := or_env (str v "namespace" "") e "POD_NAMESPACE" in
      if String.eqb (str v "mirrortarget" "") "" then Exited 1
      else if String.eqb namespace "" then Exited 1 else manager_New true e (str v "mirrortarget" "") namespace)).
  parse_args. cbn [parse exit_on_error]. cbv zeta. read_values.
  unfold or_env. rewrite (proj2 (String.eqb_neq _ _) Hn), !(proj2 (String.eqb_neq _ _) Hs). unfold manager_New. cbn [negb]. cbv zeta.
  rewrite manager_docker_config, manager_getenv by (first [by_vm|discriminate]).
  change (getenv [_; _; mkEnvVar "WORKER_IMAGE" ?x] "WORKER_IMAGE") with x. by rewrite !(proj2 (String.eqb_neq _ _) Hi).
Qed.

Lemma resource_api_starts extra env ns :
  let c := pt_Container (ds_Template (resource_deployment env ns)) in
  ns ≠ "" → manager_main true extra (co_Env c) (co_Args c) = ResourceAPIProcess ns.
Proof.
  intros c Hs. unfold c, resource_deployment. cbn [pt_Container ds_Template co_Env co_Args].
  change (manager_main true extra ?e ["resource-api"; "--namespace"; ns]) with (runResourceAPI true e ["--namespace"; ns]).
  unfold runResourceAPI. parse_args. cbn [parse exit_on_error]. read_values. unfold or_env. by rewrite (proj2 (String.eqb_neq _ _) Hs).
Qed.

(** ** Credentials *)

(** The credentials of the Secret [secret] are at [dir], where the clients look for
    a config.json; there are none without a Secret. *)
Definition credentials_at (secret dir : string) (mounts : list VolumeMount) (volumes : list Volume) : Prop :=
  if String.eqb secret "" then dir = ""
  else ∃ name, mkVolumeMount name dir ∈ mounts ∧ mkVolume name (VSecret secret [(".dockerconfigjson", "config.json")]) ∈ volumes.

Lemma credentials_mounted secret dir name mounts0 mounts1 volumes0 volumes1 :
  credentials_at secret (if String.eqb secret "" then "" else dir)
    (mounts0 ++ (if String.eqb secret "" then [] else [mkVolumeMount name dir]) ++ mounts1)
    (volumes0 ++ (if String.eqb secret "" then [] else [mkVolume name (VSecret secret [(".dockerconfigjson", "config.json")])]) ++ volumes1).
Proof. unfold credentials_at. destruct (String.eqb secret ""); [done|]. exists name. split; set_solver. Qed.

Lemma manager_credentials env t :
  let tpl := ds_Template (manager_deployment env t) in
  credentials_at (mt_AuthSecret (tg_mt t)) (if String.eqb (mt_AuthSecret (tg_mt t)) "" then "" else "/docker-config")
    (co_Mounts (pt_Container tpl)) (pt_Volumes tpl).
Proof. apply (credentials_mounted _ _ _ [] _ []). Qed.

Lemma cleanup_credentials env t imageSetName snapshot :
  let pod := cleanup_pod env t imageSetName snapshot in
  credentials_at (mt_AuthSecret (tg_mt t)) (getenv (cp_Env pod) "DOCKER_CONFIG") (cp_Mounts pod) (cp_Volumes pod).
Proof.
  unfold cleanup_pod, credentials_at. cbn [cp_Env cp_Mounts cp_Volumes]. destruct (String.eqb _ ""); [done|]. exists "registry-auth". cbn. set_solver.
Qed.

Lemma build_credentials `{IncludeJSON} operatorImage isName mt src tgt pkgs :
  let pod := catalog_build_pod operatorImage isName mt src tgt pkgs in
  credentials_at (mt_AuthSecret mt) (if String.eqb (mt_AuthSecret mt) "" then "" else "/var/run/secrets/registry") (bp_Mounts pod) (bp_Volumes pod).
Proof. apply credentials_mounted. Qed.

Lemma export_credentials `{Sha256} namespace name spec sa cm js :
  let job := buildJobSpec namespace name spec sa cm js in
  credentials_at (from_option xs_AuthSecret "" (xe_Source spec)) (job_authDir spec) (ej_Mounts job) (ej_Volumes job).
Proof.
  unfold buildJobSpec, job_authDir. cbn [ej_Mounts ej_Volumes]. destruct (xe_Source spec) as [src|]; [|done]. apply credentials_mounted.
Qed.

Lemma worker_starts secret podName wenv targetName namespace encode storage mt items :
  let pod := startWorkerBatch targetName namespace encode storage mt items in
  kubelet_env secret podName pod = Some wenv →
  worker_main true wenv (wp_Args pod) = WorkerProcess (mt_Insecure mt) (encode items) "" "" ∧
  credentials_at (mt_AuthSecret mt) (getenv wenv "DOCKER_CONFIG") (wp_Mounts pod) (wp_Volumes pod).
Proof.
  intros pod. unfold pod at 1. rewrite kubelet_env_batch. destruct (secret _ _) as [token|]; [|done]. cbn [mbind option_bind]. fold pod. intros <-%(inj Some).
  set (wenv := _ ++ _).
  assert (E : getenv wenv "MIRROR_BATCH" = encode items).
  { change (getenv ?l ?n) with (getenv_from "" l n). unfold wenv, pod. rewrite getenv_from_app, pod_env_from by (first [by_vm|discriminate]). done. }
  assert (Hd : getenv wenv "DOCKER_CONFIG" = if String.eqb (mt_AuthSecret mt) "" then "" else "/run/secrets/dockerconfig").
  { change (getenv ?l ?n) with (getenv_from "" l n). unfold wenv, pod, startWorkerBatch. cbn [wp_Env]. rewrite !getenv_from_app.
    rewrite (getenv_from_absent _ (match mt_CABundle mt with Some _ => _ | None => _ end)) by (destruct (mt_CABundle mt); repeat constructor; cbn; discriminate).
    rewrite workerProxyEnvVars_catalog, (getenv_from_absent _ (catalogProxyEnvVars _)) by (apply proxy_env_absent; by_vm).
    by destruct (String.eqb _ ""). }
  split; [|rewrite Hd; apply credentials_mounted]. clearbody wenv.
  assert (Ha : wp_Args pod = if mt_Insecure mt then ["--insecure"] else []) by done. rewrite Ha.
  destruct (mt_Insecure mt).
  - change (worker_main true ?e ["--insecure"]) with (worker_Main e ["--insecure"]). unfold worker_Main. parse_args. cbn [parse]. by rewrite E.
  - change (worker_main true ?e []) with (worker_Main e []). unfold worker_Main. cbn [parse]. by rewrite E.
Qed.

Lemma cleanup_starts env t imageSetName snapshot :
  let pod := cleanup_pod env t imageSetName snapshot in
  tg_Namespace t ≠ "" → mt_Registry (tg_mt t) ≠ "" → snapshot ≠ "" →
  worker_main true (cp_Env pod) (cp_Args pod) =
  CleanupProcess (mkOptions "" (tg_Namespace t) (mt_Registry (tg_mt t)) (mt_Insecure (tg_mt t)) snapshot).
Proof.
  intros pod Hs Hr Hc. unfold pod, cleanup_pod. cbn [cp_Env cp_Args app].
  change (worker_main true ?e ("cleanup" :: ?a)) with (cleanup_Main true a). unfold cleanup_Main, ParseFlags.
  assert (Ho : ∀ v, str v "configmap" "" = snapshot → str v "namespace" "" = tg_Namespace t → str v "registry" "" = mt_Registry (tg_mt t) →
    str v "imageset" "" = "" → bln v "insecure" false = mt_Insecure (tg_mt t) →
    (let o := mkOptions (str v "imageset" "") (str v "namespace" "") (str v "registry" "") (bln v "insecure" false) (str v "configmap" "") in
     if String.eqb (opt_Namespace o) "" || String.eqb (opt_Registry o) "" then None
     else if String.eqb (opt_ImageSet o) "" && String.eqb (opt_ConfigMap o) "" then None
     else Some (if String.eqb (opt_ConfigMap o) ""
                then mkOptions (opt_ImageSet o) (opt_Namespace o) (opt_Registry o) (opt_Insecure o) (ConfigMapName (opt_ImageSet o)) else o)) =
    Some (mkOptions "" (tg_Namespace t) (mt_Registry (tg_mt t)) (mt_Insecure (tg_mt t)) snapshot)).
  { intros v -> -> -> -> ->. cbn. by rewrite (proj2 (String.eqb_neq _ _) Hs), (proj2 (String.eqb_neq _ _) Hr), (proj2 (String.eqb_neq _ _) Hc). }
  destruct (mt_Insecure (tg_mt t)) eqn:Ei; parse_args; cbn [parse]; rewrite Ho; try done; by read_values.
Qed.

Lemma plugin_starts ns image c :
  c ∈ ps_Containers (plugin_template ns image) →
  runPlugin true (pc_Env c) (pc_Args c) = PluginProcess (":" +:+ Itoa pluginPort) "/var/serving-cert/tls.crt" "/var/serving-cert/tls.key" ns.
Proof.
  cbn [plugin_template ps_Containers]. rewrite list_elem_of_singleton. intros ->. cbn [pc_Env pc_Args]. unfold runPlugin. parse_args. cbn [parse exit_on_error].
  by read_values.
Qed.

(** * Properties *)


(** The controller starts only when it can do its work: when it runs, the images
    it deploys and its namespace are configured and its certificates have loaded; it
    watches and elects its leader in its own namespace only (and reads ConfigMaps in
    the one of the console besides), runs all five controllers, and serves metrics
    without authentication or HTTP/2 only when asked to.  Otherwise it exits with an
    error, or with success after printing its help. *)
Theorem controller_fails_fast (cluster : bool) (extra : gmap string flagKind) (certs : string → string → string → bool) (env : list EnvVar) (args : list string) :
  match controller_main cluster extra certs env args with
  | ControllerProcess cfg =>
    let ns := operator_namespace env in
    cluster = true ∧ ns ≠ "" ∧ Forall (λ name, getenv env name ≠ "") required_images ∧
    cf_Namespaces cfg = Some [ns] ∧ cf_LeaderNamespace cfg = Some ns ∧ cf_ConfigMapNamespaces cfg = Some [ns; "openshift-config-managed"] ∧
    cf_PluginNamespace cfg = ns ∧ cf_PluginImages cfg = pluginImages (getenv env) ∧
    (∀ name, name ∈ ["MirrorTarget"; "ImageSet"; "MirrorExport"; "ConsolePlugin"; "Monitoring"] → name ∈ cf_Controllers cfg) ∧
    (∃ v rest, parse (controller_flags ∪ extra) args no_values = POk v rest ∧ cert_ok certs v "webhook" = true ∧ cert_ok certs v "metrics" = true ∧
       (cf_SecureMetrics cfg = false → fv_bool v !! "metrics-secure" = Some false) ∧
       (cf_HTTP2 cfg = true → fv_bool v !! "enable-http2" = Some true))
  | Exited code => code = 0%Z → parse (controller_flags ∪ extra) args no_values = PHelp
  | _ => False
  end.
Proof.
  unfold controller_main. destruct (parse _ args no_values) as [v rest| |] eqn:Ep; cbn [exit_on_error]; [|done|done].
  destruct (existsb _ _) eqn:Ei; [done|]. destruct (String.eqb_spec (operator_namespace env) "") as [|Hs]; [done|].
  unfold with_options. destruct (cert_ok certs v "webhook") eqn:E1; [|done]. destruct (cert_ok certs v "metrics") eqn:E2; [|done]. destruct cluster; [|done].
  cbn. split_and!; try done.
  - apply List.Forall_forall. intros name Hin Hv. apply not_true_iff_false in Ei. apply Ei, existsb_exists. exists name. by rewrite Hv.
  - exists v, rest. split_and!; [done..| |]; unfold bln; [by destruct (fv_bool v !! "metrics-secure") as [[]|]|by destruct (fv_bool v !! "enable-http2") as [[]|]].
Qed.

(** ** Behaviour that deviates from the intent *)

(** A cleanup has neither the proxy nor the CA bundle of its target, which workers
    and builds have. *)
Lemma cleanup_without_ca env t imageSetName snapshot ca :
  mt_CABundle (tg_mt t) = Some ca →
  getenv (cp_Env (cleanup_pod env t imageSetName snapshot)) "SSL_CERT_FILE" = "" ∧
  getenv (cp_Env (cleanup_pod env t imageSetName snapshot)) "HTTPS_PROXY" = "" ∧
  ∀ encode storage items,
    getenv (wp_Env (startWorkerBatch (mt_Name (tg_mt t)) (tg_Namespace t) encode storage (tg_mt t) items)) "SSL_CERT_FILE" ≠ "".
Proof.
  intros Hc. unfold cleanup_pod. cbn [cp_Env]. split; [by destruct (negb _)|]. split; [by destruct (negb _)|]. intros.
  change (getenv ?l ?n) with (getenv_from "" l n). unfold startWorkerBatch. cbn [wp_Env]. rewrite Hc, !getenv_from_app. cbn. discriminate.
Qed.

(** The older program starts a controller that has no image for the managers it
    deploys, watches every namespace, and runs neither exports nor monitoring. *)
Lemma legacy_controller_incomplete extra certs image :
  ∃ cfg, legacy_main true extra certs [mkEnvVar "OPERATOR_IMAGE" image] [] = (if String.eqb image "" then Exited 1 else ControllerProcess cfg) ∧
    controller_main true extra certs [mkEnvVar "OPERATOR_IMAGE" image] [] = Exited 1 ∧
    cf_Namespaces cfg = None ∧ "MirrorExport" ∉ cf_Controllers cfg ∧ "Monitoring" ∉ cf_Controllers cfg.
Proof.
  eexists. split; [reflexivity|]. split; [|split; [reflexivity|split; by_vm]].
  unfold controller_main. cbn [parse exit_on_error]. by destruct image.
Qed.

(** Nor can it be the image of the managers: it takes their arguments for those of
    the controller. *)
Lemma legacy_program_is_no_manager extra certs env t :
  extra !! "mirrortarget" = None →
  let c := pt_Container (ds_Template (manager_deployment env t)) in
  legacy_main true extra certs (co_Env c) (co_Args c) = Exited 2.
Proof.
  intros He c. unfold c, manager_deployment. cbn [pt_Container ds_Template co_Env co_Args].
  change (legacy_main true extra certs ?e ("--mirrortarget" :: ?a)) with (runController true extra certs e ("--mirrortarget" :: a)).
  unfold runController. erewrite parse_unknown; [done|cbv; reflexivity| |discriminate|discriminate].
  rewrite lookup_union, He. reflexivity.
Qed.

(** ** Witnesses *)

Definition ex_operator_env : OperatorEnv := mkOperatorEnv "manager:1" "operator:1" "worker:1".


(** Arguments of the command line, as package flag reads them. *)
Example parse_example :
  ParseFlags ["-configmap=c"; "--namespace"; "--odd"; "--registry=r=1"; "-insecure=F"; "--"; "-x"] = Some (mkOptions "" "--odd" "r=1" false "c") ∧
  ParseFlags ["--namespace"; "n"; "--registry"; "r"; "--imageset"; "s"; "extra"; "--insecure"] = Some (mkOptions "s" "n" "r" false (ConfigMapName "s")) ∧
  ParseFlags ["--namespace"; "n"; "--registry"] = None ∧ ParseFlags ["--insecure=maybe"] = None ∧ ParseFlags ["--=x"] = None.
Proof. split_and!; vm_compute; reflexivity. Qed.
