(* ===== verification/Annotations.v ===== *)
(** * One-shot requests and caches in annotations

    The annotations of an ImageSet are shared: users (through the resource API)
    set the requests force-resync and recollect, the manager takes them away again
    and keeps its caches there ([patchImageSetAnnotations],
    [clearForceResyncAnnotation] of pkg/mirror/manager/manager_resolve.go).  The
    object, its versions and the writes of others are those of [ResourceApi].

    The last part is about a manager that stops between these writes and the flush
    of its state. *)
From S2P Require Import Prelude Effects GoStrings ImageRef ImageState Owners ManagerState Api Resolve Status Reconcile Resources BuildJobs CatalogGate ResourceApi Export.

Section manager.
(** At attempt [k]: an error of the read, what others write between the read
    and the update, an error of the update other than a conflict. *)
Context (get_err : nat → option updErr) (writer : nat → option (Versioned ImageSet) → option (Versioned ImageSet)) (put_err : nat → option updErr).

(** The loop of both functions: an ImageSet that is gone, and one with nothing
    to change ([None] of [mutate]), are success without a write. *)
Fixpoint annotation_attempts (mutate : gmap string string → option (gmap string string)) (n k : nat) (st : option (Versioned ImageSet))
    : (updErr + unit) * option (Versioned ImageSet) :=
  match n with
  | O => (inl UConflict, st)
  | S n =>
    match get_err k, st with
    | Some e, _ => (match e with UNotFound => inr tt | e => inl e end, st)
    | None, None => (inr tt, st)
    | None, Some o =>
      let st := writer k st in
      match mutate (is_Annotations (ob_val o)) with
      | None => (inr tt, st)
      | Some a =>
        match put_err k, st with
        | Some e, _ => (inl e, st)
        | None, None => (inl UNotFound, st)
        | None, Some o' =>
          if (ob_version o' =? ob_version o)%nat then (inr tt, Some (mkVersioned (with_annotations a (ob_val o)) (S (ob_version o))))
          else annotation_attempts mutate n (S k) st
        end
      end
    end
  end.

(** [start]: the annotations the resolve started from. *)
Definition patchImageSetAnnotations (start desired : gmap string string) (st : option (Versioned ImageSet)) : (updErr + unit) * option (Versioned ImageSet) :=
  annotation_attempts (λ fresh, Some (patched_annotations start fresh desired)) retrySteps 0 st.

Definition clear_annotation (key : string) (a : gmap string string) : option (gmap string string) :=
  match a !! key with None => None | Some _ => Some (delete key a) end.
Definition clearForceResyncAnnotation (st : option (Versioned ImageSet)) : (updErr + unit) * option (Versioned ImageSet) :=
  annotation_attempts (clear_annotation ForceResyncAnnotation) retrySteps 0 st.

(** * Lemmas *)

(** The object is what the others made of it, or the change of what they made of
    it; a success without a change had nothing to change. *)
Lemma annotation_attempts_spec mutate n k st :
  versions_grow writer →
  let '(r, st') := annotation_attempts mutate n k st in
  (∃ i o a, i < n ∧ r = inr tt ∧ written writer k i st = Some o ∧ writer (k + i) (Some o) = Some o ∧ mutate (is_Annotations (ob_val o)) = Some a ∧
     st' = Some (mkVersioned (with_annotations a (ob_val o)) (S (ob_version o)))) ∨
  (∃ i, i ≤ n ∧ st' = written writer k i st ∧
     (r = inr tt → st' = None ∨ (∃ j, j < n ∧ get_err (k + j) = Some UNotFound) ∨
        ∃ j o, j < n ∧ written writer k j st = Some o ∧ st' = writer (k + j) (Some o) ∧ mutate (is_Annotations (ob_val o)) = None)).
Proof.
  intros Hg. revert k st. induction n as [|n IH]; intros k st; cbn [annotation_attempts]; [right; by exists 0|].
  destruct (get_err k) as [e|] eqn:Ee.
  { right. exists 0. split; [lia|]. split; [done|]. intros Hr. right. left. exists 0. split; [lia|]. rewrite Nat.add_0_r. destruct e; by rewrite ?Ee. }
  destruct st as [o|]; [|right; exists 0; split; [lia|]; split; [done|by left]].
  destruct (mutate (is_Annotations (ob_val o))) as [a|] eqn:Em.
  2: { right. exists 1. split; [lia|]. split; [done|]. intros _. right. right. exists 0, o. rewrite Nat.add_0_r. split_and!; [lia|done..]. }
  destruct (put_err k) as [e|]; [right; exists 1; split; [lia|]; by split|].
  destruct (writer k (Some o)) as [o'|] eqn:E1; [|right; exists 1; split; [lia|]; cbn; rewrite E1; by split].
  destruct (Nat.eqb_spec (ob_version o') (ob_version o)) as [Ev|Ev].
  { destruct (Hg k o o' E1) as [->|Hlt]; [|lia]. left. exists 0, o, a. rewrite Nat.add_0_r. split_and!; [lia|done..]. }
  specialize (IH (S k) (Some o')). destruct (annotation_attempts mutate n (S k) (Some o')) as [r st'].
  destruct IH as [(i & o2 & a2 & Hi & -> & Hw & Hq & Hm & ->)|(i & Hi & -> & Hr)].
  - left. exists (S i), o2, a2. cbn [written]. rewrite E1. replace (k + S i) with (S k + i) by lia. split_and!; [lia|done..].
  - right. exists (S i). cbn [written]. rewrite E1. split; [lia|]. split; [done|]. intros Hs.
    destruct (Hr Hs) as [H|[(j & Hj & H)|(j & o2 & Hj & Hw & H1 & H2)]]; [by left|right; left|right; right].
    + exists (S j). replace (k + S j) with (S k + j) by lia. split; [lia|done].
    + exists (S j), o2. cbn [written]. rewrite E1. replace (k + S j) with (S k + j) by lia. split_and!; [lia|done..].
Qed.
End manager.

(** [o'] is [o] with other values for some annotations. *)
Definition same_but (owned : string → Prop) (o o' : ImageSet) : Prop :=
  o' = with_annotations (is_Annotations o') o ∧ ∀ k, ¬ owned k → is_Annotations o' !! k = is_Annotations o !! k.

Definition managers_key (k : string) : Prop :=
  is_cache_key k = true ∨ k = GraphImageBuiltAnnotation ∨ k = RecollectAnnotation ∨ k = RecollectHonoredAnnotation.

Lemma with_annotations_same a o : with_annotations (is_Annotations (with_annotations a o)) o = with_annotations a o.
Proof. done. Qed.

Lemma clear_annotation_Some key a a' : clear_annotation key a = Some a' → a' = delete key a.
Proof. unfold clear_annotation. destruct (a !! key); [by intros [= <-]|done]. Qed.
Lemma clear_annotation_None key a : clear_annotation key a = None → a !! key = None.
Proof. unfold clear_annotation. by destruct (a !! key). Qed.

(** * Properties *)


(** ** Behaviour that deviates from the intent *)

(** A second force-resync, made after the manager acted on the first, is cleared
    with it, although every request has a value of its own. *)
Lemma force_resync_swallowed s n v1 v2 :
  v1 ≠ v2 →
  let listed := with_annotations (<[ForceResyncAnnotation := v1]> (is_Annotations s)) s in
  let again := with_annotations (<[ForceResyncAnnotation := v2]> (is_Annotations s)) s in
  ∃ o, clearForceResyncAnnotation (λ _, None) (λ _ st, st) (λ _, None) (Some (mkVersioned again n)) = (inr tt, Some o) ∧
    is_Annotations (ob_val o) !! ForceResyncAnnotation = None ∧ is_Annotations listed !! ForceResyncAnnotation ≠ Some v2.
Proof.
  intros Hne. cbv zeta. eexists. unfold clearForceResyncAnnotation, retrySteps. cbn [annotation_attempts ob_val is_Annotations with_annotations].
  unfold clear_annotation. rewrite lookup_insert_eq. cbn [ob_version]. rewrite Nat.eqb_refl. split; [done|]. cbn.
  split; [apply lookup_delete_eq|]. rewrite lookup_insert_eq. congruence.
Qed.

(** ** A manager that stops before the flush *)

Abbreviation quiet f := (f (λ _ : nat, @None updErr) (λ (_ : nat) (st : option (Versioned ImageSet)), st) (λ _ : nat, @None updErr)).

Definition ex_fresh_set : ImageSet := mkImageSet "is1" ∅ 1 (ex_mirror []) (ex_status 1).
Definition ex_live : Upstream := ex_upstream true ex_bundles_of.
(** The first resolve, and the ImageSet once it has patched its annotations. *)
Definition ex_resolved : ResolveResult := @resolveImageSet ex_hash ex_live 0 ex_fresh_set ex_target ∅.
Definition ex_patched_set : (updErr + unit) * option (Versioned ImageSet) :=
  quiet patchImageSetAnnotations (is_Annotations ex_fresh_set) (rr_annotations ex_resolved) (Some (mkVersioned ex_fresh_set 1)).
(** The resolve of the manager that is started next, with no state in the cluster. *)
Definition ex_resolved_again : option ResolveResult :=
  o ← snd ex_patched_set; Some (@resolveImageSet ex_hash ex_live 1 (ob_val o) ex_target ∅).

(** The caches are written to the ImageSet within the resolve, its result to the
    ConfigMaps at the end of the tick.  When the manager stops in between, the next
    resolve hits the caches and carries over from a state that has nothing to carry
    over: the images of the release and of the catalog are not mirrored, no error is
    recorded, and the caches stay as they are. *)
Lemma interrupted_resolve_loses_content :
  fst ex_patched_set = inr tt ∧
  is_Some (rr_state ex_resolved !! "reg/openshift/release:4.16.1-x86_64-etcd") ∧ is_Some (rr_state ex_resolved !! "reg/p:sha256-ee") ∧
  (λ r, (rr_state r !! "reg/openshift/release:4.16.1-x86_64-etcd", rr_state r !! "reg/p:sha256-ee", rr_hadError r, rr_annotations r)) <$> ex_resolved_again
  = Some (None, None, false, rr_annotations ex_resolved).
Proof. split; [vm_compute; reflexivity|]. split; [by_vm|]. split; [by_vm|]. vm_compute. reflexivity. Qed.

Definition ex_mirrored_manager : MirrorManager :=
  set_owners {["reg/a:1" := ["is1"]]} (set_imageState {["reg/a:1" := mkImageEntry "src/a:1" "Mirrored" "" 0 OriginAdditional "" "additional" "" false false None false ""]}
    (NewWithClients "tok")).
Definition ex_resync_set : ImageSet := mkImageSet "is1" {[ForceResyncAnnotation := "1"]} 1 (mkMirror (mkPlatform false [] [] false) [] [] [] [] false) (mkStatus [] 0 0 0 0 [] 1 (Some 0%Z)).
(** Phase B with the request, the ImageSet once it is cleared, and the state the
    next manager loads. *)
Definition ex_after_reset : MirrorManager := fst (@phaseB_one ex_hash (λ _, ex_live) 1 (λ _ m, m) (λ _ m, m) ex_target (ex_mirrored_manager, mkResolvedSets ∅ ∅) ex_resync_set).
Definition ex_cleared_set : (updErr + unit) * option (Versioned ImageSet) := quiet clearForceResyncAnnotation (Some (mkVersioned ex_resync_set 1)).
Definition ex_reloaded : option (gmap string ImageEntry) :=
  match fst (load_all ex_target (mkLoaded ∅ ∅ ∅ ∅) [ex_resync_set] (snd (flushPartitionedState ex_target ["is1"] ex_mirrored_manager (mkCluster ∅ [])))) with
  | inr l => Some (ld_state l)
  | inl _ => None
  end.

(** The request is cleared before the reset is flushed: when the manager stops in
    between, the next one loads the images as mirrored and does not know of the
    request. *)
Lemma force_resync_lost_on_restart :
  State <$> (imageState ex_after_reset !! "reg/a:1") = Some statePending ∧
  fst ex_cleared_set = inr tt ∧ ((λ o, is_Annotations (ob_val o) !! ForceResyncAnnotation) <$> snd ex_cleared_set) = Some None ∧
  State <$> (ex_reloaded ≫= (.!! "reg/a:1")) = Some stateMirrored.
Proof. split; [vm_compute; reflexivity|]. split; [vm_compute; reflexivity|]. split; vm_compute; reflexivity. Qed.

(** ** Witness *)

(** A user asks again while the resolve of the first request runs; another edit is
    in the way of the first attempt. *)
Definition ex_again : ImageSet := mkImageSet "is1" {[RecollectAnnotation := "2"]} 1 (ex_mirror []) (ex_status 1).
Definition ex_edits (k : nat) (st : option (Versioned ImageSet)) : option (Versioned ImageSet) :=
  match k, st with
  | O, Some o => Some (mkVersioned (with_annotations (<["note" := "x"]> (is_Annotations (ob_val o))) (ob_val o)) (S (ob_version o)))
  | _, st => st
  end.
Definition ex_shared : (updErr + unit) * option (Versioned ImageSet) :=
  patchImageSetAnnotations (λ _, None) ex_edits (λ _, None) {[RecollectAnnotation := "1"]} ∅ (Some (mkVersioned ex_again 1)).

